(* ===== verification/_CoqProject ===== *)
-Q . S2P
Prelude.v
Vocab.v
QueueSpec.v
Spsc.v
CriticalRing.v
Mpsc.v
MpscConc.v
EventPool.v
PoolWorld.v
Batcher.v
Staging.v
StagingSpec.v
Hsm.v
HsmSpec.v
Ao.v
Breaker.v
Monitor.v
Snapshot.v
Policy.v
Admission.v
Prog.v
Calls.v
Coordinator.v
Dispatcher.v
WakeLatch.v
Timer.v
RegCache.v
TaskRegistry.v
Runtime.v
Drain.v
Mem.v
Crc.v
OtaFrame.v
OtaFrameSpec.v
OtaDevice.v
OtaDeviceSpec.v
OtaHost.v
OtaSystem.v
Log.v
LogSpec.v
Groups.v
Executor.v
CoroSem.v
Recfg.v
RecfgSpec.v
Ddr.v
Heartbeat.v
Worker.v
WorkerSpec.v
Irsc.v
Msh.v
MshPath.v
UsbDma.v
Parking.v
IspChain.v
IspChainSpec.v
IspNodeSpec.v
VideoStream.v
VideoSpec.v
Output.v
OutputSpec.v
LaneSpec.v
Kernel.v
PalTime.v
PalContext.v
PalLifecycle.v
PalMailbox.v
PalCond.v
PalWorkers.v
LogWriter.v
TimerDrive.v
PosixSync.v
PosixIrq.v
WinStart.v
WinPal.v
Supervisor.v
FlashOwner.v
Demos.v
Machines.v
Utilities.v
