(* ===== verification/Prelude.v ===== *)
(** * A verification development for coact

    coact is a header-only C++17 active-object runtime for microcontrollers and
    hosts.  Producers (tasks, interrupt handlers, timers) allocate events from
    fixed-block pools and submit them to active objects (AOs).  A submission
    passes the admission rules and either runs the AO's hierarchical state
    machine at once, under an execution lease, or is staged in one of three
    bounded partitions that the single dispatcher thread drains in batches.
    Circuit breakers, a rate policy and a monitor guard and observe the path.
    Every event is reference counted and must return to its pool exactly once,
    whatever path it takes.

    ** The files

    Source paths are relative to [src/include/coact] unless said otherwise.

    - [Prelude]: machine integers ([wrap], [in_u]), assertions as [outcome],
      bit-level lemmas, list scans ([find_idx], [countb]), runs of a step
      relation ([rtc_invariant], [rtc_simulation], labelled runs [lrun]), and
      the tactics and the hint database [coact].
    - [Vocab]: enums, ids, results and the board configuration (config.hpp).
    - [QueueSpec]: the queue interface that staging's [QueueBackend] template
      parameter stands for (class [QueueBackend]) and its contract (class
      [FifoLaws]), a refinement of a bounded list.
    - [CriticalRing], [Mpsc]: the two backends of queue.hpp, each an instance
      of the interface; [MpscConc] has the interleavings of the lock-free one.
    - [Spsc]: spsc_ring.hpp, alone and interleaved.
    - [EventPool], [PoolWorld], [Batcher]: event.hpp and pool.hpp, that is the
      block memory, the free lists, the registry, the reference counts and the
      dispatcher's batched reclaimer, against a [ledger] per pool.
    - [Staging], [StagingSpec]: staging.hpp, that is the partitions, the
      reservations, the batch selector with its aging rule and the submission
      lease; proved for every backend that satisfies [FifoLaws].
    - [WakeLatch]: the wake latch of staging.hpp, the idle branch of
      dispatcher.hpp and the wait of src/core/pal_posix.cpp, interleaved.
    - [Hsm], [HsmSpec]: hsm.hpp against a specification on paths.
    - [Ao]: ao.hpp, that is the lease, the pending counter, the registry and the
      concrete AO.
    - [Breaker], [Monitor], [Snapshot]: monitor.hpp, that is the breaker packed in
      a word, the bank, the counters and the ring of admission snapshots, whose
      accesses run on a memory with views (relaxed loads may be stale).
    - [Policy], [Admission]: policy.hpp (token bucket, merge cell) and
      admission.hpp (rule table, arrival gates, reservations).
    - [Prog], [Calls]: functions of the source as trees of calls on shared
      components, see below.
    - [Coordinator], [Dispatcher]: coordinator.hpp and dispatcher.hpp, the whole
      of [submit_internal] and of [run], as such trees.
    - [Timer]: timer.hpp, slot table and firing.
    - [RegCache]: bitfield.hpp and reg_cache.hpp.
    - [TaskRegistry]: coro/task_id.hpp, coro/detail/task_slot.hpp and
      coro/task_registry.hpp.
    - [Runtime]: runtime.hpp, the three-phase lifecycle over the registry, the
      submission word and the platform's thread start and join.
    - [Drain]: the dispatcher's shutdown drain run on a board, that is with its
      calls answered by the staging component of [Staging] and by AO slots.
    - [Groups]: coro/task.hpp and coro/combinators.hpp, the handles and the
      task groups over [TaskRegistry], against a table of votes.
    - [Executor], [CoroSem]: coro/posix.hpp, the stackful executor and its
      semaphore.
    - [Log], [LogSpec]: diag/log.hpp, that is lanes, statistics, rendering.
    - The serial update of src/examples/serial_ota: [Crc] (the checksum of
      protocol.hpp), [OtaFrame] and [OtaFrameSpec] (frames and their parser,
      protocol.hpp and parser.hpp), [OtaDevice] and [OtaDeviceSpec] (device.hpp),
      [OtaHost] (host.hpp), [OtaSystem] (host, line and device in a loop).
    - The imaging pipeline of src/examples/isp_pipeline: [Mem] (bytes and
      little-endian words), [Ddr] (the frame store of common.hpp), [Recfg] (the
      reconfiguration transaction of recfg_session.hpp), [Heartbeat]
      (heartbeat.hpp), [Worker], [Irsc] and [UsbDma] (the hardware workers, the
      sensor's driver and the transfer engine of sensor_irsc.hpp), [Parking]
      (the ring of frames that wait for their interrupt), [IspChain]
      (isp_chain.hpp), [VideoStream] (video_stream.hpp) and [Output]
      (output_itf.hpp, with the scenario of the cut pictures of main.cpp).
      The theorems of the larger ones are in [RecfgSpec], [WorkerSpec],
      [IspChainSpec] (pixels), [IspNodeSpec] (waiting frames), [VideoSpec],
      [OutputSpec] and [LaneSpec].
    - The RTOS platform layers, src/core/pal_freertos.cpp and pal_rtthread.cpp
      with their headers: [Kernel] (the kernel's semaphores as an interface),
      [PalTime] (clock extension and tick conversions), [PalContext] (the tables
      of execution contexts), [PalLifecycle] (initialisation with its rollback,
      start, join), [PalMailbox] (the software-interrupt rings), [PalCond]
      (condition variables over counting semaphores), [PalWorkers] (resident
      workers) and [LogWriter] (the RT-Thread log thread of
      diag/log_rtthread.hpp: start, stop, and its loop beside the producers).
    - [TimerDrive]: the threads that drive [Timer]'s poll (timer.hpp, [start],
      [stop], [run_loop] and the length of each sleep).
    - The host platform layers.  [PosixSync]: pal_posix.hpp and
      src/core/pal_posix.cpp, that is deadlines, the quantised clock, contexts,
      thread handles, the semaphore and the spin critical section.  [PosixIrq]:
      the software interrupt, a blocked real-time signal read from a descriptor,
      over a class of signal kernels.  [WinStart]: the start handshake and the join of
      src/core/pal_windows.cpp.  [WinPal]: its clock, its wait conversions and
      its software-interrupt mailbox.
    - Smaller examples of src/examples: [Supervisor] (safety_supervisor_demo.cpp
      over [Breaker], [Monitor] and the dispatcher's loop), [FlashOwner] (flash_proxy_demo.cpp) and
      [Demos] (the machines of node_manager_demo.cpp and hsm_protocol_demo.cpp),
      [Msh] and [MshPath] (msh_monitor_demo.cpp: the objects and the
      reconfiguration; the command channel, the driver and the frame path).
      [Machines]: every machine of this development against the checks of
      [Hsm].
    - [Utilities]: expected.hpp, assert.hpp, static_ao.hpp, the error names and
      the completion payload of coro/, and the facade of coro/scheduler.hpp.

    ** How the code is modelled

    Integers keep their width: a [uint16_t] is a [Z], and every conversion or
    unsigned operation that can wrap is written with [u8], [u16], [u32] or
    [u64].  [COACT_ASSERT] ends the run ([Fatal]); so does a table access out
    of bounds, which is undefined in the source.  [Expected] is a sum, a pointer
    that may be null an [option], an object identity a [nat] or an address.
    Template parameters are arguments.  Application callbacks (HSM actions and
    guards, policy tables) are functions of the application context.

    Kernel calls of the platform layers are a class with laws ([SemKernel],
    [SemLaws], with the host stub's semaphore as instance; [SignalKernel],
    [SignalLaws], with a queue of real-time signals as instance) or, where they may
    fail, a list of answers that the theorems quantify over; the board's counter,
    the tick rate and RT-Thread's endless timeout are arguments.

    Concurrency takes three forms.  A component protected by a mutex or by the
    injected critical section is a state machine whose operations are single
    steps, and the theorems speak of every sequence of them.  A lock-free
    component ([Spsc], [MpscConc], [Policy]'s merge cell, [WakeLatch], the lease
    of [Ao]) is a step relation with one step per atomic access, for any number
    of threads; accesses are sequentially consistent, so what the acquire/release
    annotations permit beyond that is outside the model.  The exception is
    [Snapshot], whose payload accesses are relaxed: there every cell keeps its
    stores, every thread a view of them, and a load may return an old one.  The submit path and the dispatcher, which only call such
    components, are programs whose theorems hold for every answer of every
    call; they therefore hold for whatever other threads do between two calls.
    [compare_exchange_weak] may fail spuriously: a retry loop takes the number
    of failures, or the values loaded by the failed exchanges, as an argument.

    The serial update runs on two engines of another library, a state machine
    and a behaviour tree.  They are the classes [OspMachine] and [OspTree];
    what the code relies on, that a dispatch calls the current state's handler
    and then the entry action of a requested state, and that a sequence ticks
    its actions in turn up to the first that does not succeed, are the classes
    [OspMachineOk] and [OspTreeOk], each with an instance.  Coroutine bodies are
    resumable steps of the application (class [Coroutines]).

    The objects of the imaging pipeline run on the machines of [Hsm], with their
    own tables of states and transitions.  What a handler asks of the pool and of
    a hardware channel is answered by an argument of the step, so a theorem
    covers every answer; what it submits is collected in order.  A stretch of
    code under a mutex is one step of the thread that runs it.  Latencies are
    arguments or are left out, and so are the printed and logged lines.

    ** What the theorems show

    - Events: an allocation, a reference increment and a release implement
      their ledger transition, in both synchronisation profiles; batched reclaim
      equals immediate release; [init] builds a well-formed pool.
    - Queues: each backend is a bounded FIFO when used alone; the SPSC ring is
      one under every interleaving, the MPSC queue a bag that never hides a
      completed push.
    - Staging: three bounded lists behind an admission rule; the reserved
      capacity cannot be taken by ordinary traffic; the submission lease
      linearises ingress with shutdown and reports the drain once.
    - Submit path and dispatcher: the reference is consumed exactly once on
      every path, scopes are balanced, no wake is lost on either side, the
      dispatcher releases what it dequeues once and in order, and drains on stop.
    - AOs and the HSM: mutual exclusion of run-to-completion steps; exits and
      entries are exactly the difference of two root paths; registry soundness.
    - Protection: the packed breaker is its state machine and recovers only
      through cool-down and probes; a looked-up snapshot holds nothing older than
      its record and exactly the record when no later one overlaps; a bucket never
      exceeds its rate; counted arrivals keep their distance.
    - Services: the timer fires each due task once without drift or leak;
      register fields are independent and the cache converges; task ids name one
      task; the lifecycle phases are respected; the shutdown drain ends.
    - Coroutines: a group settles exactly when its vote does, once; a pass of the
      executor resumes every due slot once and counts the live ones; a taker of a
      semaphore is never left parked while a permit it was told of is there.
    - Log: what a lane accepted is drained or queued, in order; a rendered
      line determines its record.
    - Serial update: the table-driven checksum is the bit-serial one and detects
      every change within two neighbouring bytes; the parser never leaves its arrays and
      reports only frames with a valid checksum; what the builder writes is what
      the parser reports; an update that loses, repeats or reorders frames never
      verifies a flash that does not hold the firmware; without losses host and
      device complete in one round per chunk and four more.
    - Imaging pipeline, control: a reconfiguration takes effect whole or not at
      all, and settles; the watchdog reports a silent worker once, and only a
      silent one; a worker executes what it accepted, in order, and drains on
      stop; the sensor comes up from its four commands.
    - Imaging pipeline, data: the frame store gives a frame's latest bytes or
      nothing; no frame shows another frame's pixels; a node releases every
      frame it took, once; two streams in one object behave as in two; the
      checks at the outputs accept what the chain makes and nothing else; the
      host counts every frame for what it is.

    - RTOS layers: a counter read once per period tells the true time; a timeout
      in ticks is never shorter than asked for nor endless by accident; a failed
      initialisation undoes what it created and one start ever succeeds; the
      context tables are bounded maps; the mailboxes deliver what they accepted,
      once and in order, over the wrap of their indices; a broadcast leaves no
      waiter asleep; work handed to a resident worker runs exactly once before
      its join returns; a stop of the log thread returns after every record that
      was published before it is written.
    - Host layers and the timer's threads: a driven timer fires what the poll
      says and a stop joins it; the semaphore over a mutex and a condition
      variable loses no post; the software interrupt's signal is blocked in time,
      so that the process lives and the kernel's queue reaches the consumer; on Windows a start tells the truth about
      the thread it made, whoever gives up first, and the mailbox thread never
      sleeps over an entry.

    - Examples and utilities: the supervisor's watchdog fires for stalls only and
      for every one, and its probes bring a breaker back beside a dispatcher that
      runs at any time; the flash owner is a memory that serves one request at a
      time, whatever its worker and the pool do; a watched node is where its count
      of misses says, the protocol's hierarchy is its flat table; no machine of the
      examples can leave its tables, trip an assertion of the machinery or lose an
      event to its depth bound (its actions' own faults are another matter); a value in an [Expected] is released exactly once; in the
      monitoring console's session every command is answered and every frame
      arrives, in order, stopping the channel drains it, and every request the
      idle reconfiguration takes, refused or not, ends in one commit.

    Some theorems record where the code and its comments part: the MPSC probe
    at the wrap of its counter, the undetected double release, the refill
    product, the disposition of a policy refusal, the wrap of the timer id, the
    generation of a task slot, a snapshot mixed under the reader's second check,
    the first-error policy that task groups do not have, the bypass guard of the register cache, the zero
    sequence of the semaphore, frames that make the update device leave its
    arrays, its final states that nothing leaves, the magnification of a second
    reconfiguration, the fresh slots of the frame store, the beat that lands in
    a scan, and, in the pipeline's rings, a fifth frame, the frame number 0 and
    frame numbers beyond 16 bits; in the
    RTOS layers, a start during another task's initialisation, RT-Thread's
    unguarded initialisation and create, its clamp of long timeouts and the wrap
    of its longest sleeps; a log record lost in the stop of the RT-Thread
    writer and the storage of a second initialisation; two driving threads of a
    timer after a stop from its own callback; and on POSIX, a signal of
    a thread that does not block it or after the tear-down, which ends the process, the signal
    mask that is not restored and the wait that the longest timeouts make
    endless; in the examples, the copy before the bound check, the device lost
    with one completion event, single misses that add up, the first poll of a
    watchdog and a cool-down longer than the probes.

    ** Fuel and bounds

    The loops of [Hsm] are bounded by the number of states, and the theorems
    show that a machine accepted by [validate_topology] never runs out.  The
    catch-up loop of [Timer] gets the number of missed periods plus one, which
    [timer_poll_exact] shows to be enough.  The loop of [Dispatcher.run] is
    endless by design: its theorem holds for every fuel, so for every prefix
    of a run, and says what is true when it returns.  The MPSC theorem in
    isolation covers the first 2^64 pushes (the publication ticket) and
    capacities that divide 2^32; timers assume a nanosecond clock more than
    2^32 ms away from its 64-bit end; the task registry's theorem covers slots
    that give out at most 255 ids.  The erase loop of the update device gets the number
    of sectors plus one, shown to be enough whatever the addresses; the
    semaphore theorem leaves out a snapshot of 0 and 2^32 releases during one
    park.  A stopped worker is drained after two steps per queued job and two
    more; the sensor's bring-up takes at most sixteen rounds of the dispatcher
    and the channel; the watchdog theorem speaks of silences shorter than the
    2^32 microseconds of its stamp.  The parking rings stand for a table of
    waiting frames while no frame is left from four places back (two on the
    lane), which is stated as a decidable proviso on the run.
    The mailbox rings wrap any number of times, because eight divides 2^32; a
    condition variable serves up to 65535 threads, the maximum of its semaphore;
    tick rates up to 2^31 Hz, and a tick per microsecond for [sleep_us].  The
    probe loop is shown to succeed for a cool-down of at most 17 cycles, and never
    to when more than 75 are owed and nothing else supplies them; the flash owner, for requests inside the flash
    and the buffer.

    ** Not modelled

    [Span] and [Expected<void, E>], which hold nothing of their own, two tables of
    error names, and the facade's calls that only forward.  The typed constructors
    of events.  Of the platform layers: the Win32 functions that forward to one
    call, the watchdog hooks and the elapsed-time test of RT-Thread's polled
    mailbox.  The query commands of the monitor shell, the coroutine examples, [main] of the others,
    tests and tools.  Of the imaging
    pipeline: the wiring and the final checks of main.cpp, the coroutine mode,
    the initialisation cascade of recfg_session.hpp and the second copy of the
    register cache.  The payload of an event belongs to the application and
    is not part of the pool memory. *)

From stdpp Require Export base tactics list gmap sets relations.
From Stdlib Require Export ZArith Lia.

#[global] Open Scope Z_scope.

(** ** Machine integers

    A [w]-bit unsigned integer of the source is a [Z]; every C++ conversion
    ([static_cast<uint16_t>(...)], the wrap of an unsigned operation) is
    written out as [wrap w].  [in_u w x] is the range of the type. *)

Definition wrap (w x : Z) : Z := x `mod` 2 ^ w.

Abbreviation u8 := (wrap 8).
Abbreviation u16 := (wrap 16).
Abbreviation u32 := (wrap 32).
Abbreviation u64 := (wrap 64).

Definition in_u (w x : Z) : Prop := 0 <= x < 2 ^ w.

Create HintDb coact.

Lemma pow2_pos w : 0 <= w -> 0 < 2 ^ w.
Proof. intros. by apply Z.pow_pos_nonneg. Qed.

Lemma wrap_range w x : 0 <= w -> in_u w (wrap w x).
Proof. intros. apply Z.mod_pos_bound, pow2_pos; done. Qed.

Lemma wrap_small w x : in_u w x -> wrap w x = x.
Proof. apply Z.mod_small. Qed.

Lemma wrap_wrap w x : 0 <= w -> wrap w (wrap w x) = wrap w x.
Proof. intros. apply wrap_small, wrap_range; done. Qed.

Lemma wrap_add_wrap_l w x y : 0 <= w -> wrap w (wrap w x + y) = wrap w (x + y).
Proof. intros. unfold wrap. by rewrite Zplus_mod_idemp_l. Qed.

Lemma wrap_sub_wrap w x y : 0 <= w -> wrap w (wrap w x - wrap w y) = wrap w (x - y).
Proof. intros. unfold wrap. by rewrite <- Zminus_mod. Qed.

#[export] Hint Resolve wrap_range pow2_pos : coact.

(** ** Fatal assertions

    [COACT_ASSERT] runs the fatal handler and aborts: control never comes
    back.  A definition whose source contains an assertion returns an
    [outcome]; [Fatal] is the aborted run. *)

Inductive outcome (A : Type) : Type :=
| Ret (a : A)
| Fatal.
Arguments Ret {A} a.
Arguments Fatal {A}.

#[export] Instance outcome_ret : MRet outcome := fun A a => Ret a.
#[export] Instance outcome_bind : MBind outcome := fun A B k m =>
  match m with Ret a => k a | Fatal => Fatal end.
#[export] Instance outcome_fmap : FMap outcome := fun A B f m =>
  match m with Ret a => Ret (f a) | Fatal => Fatal end.

Definition coact_assert (b : bool) : outcome unit := if b then Ret tt else Fatal.

Definition is_ret {A} (m : outcome A) : bool :=
  match m with Ret _ => true | Fatal => false end.

Lemma bind_ret_inv {A B} (m : outcome A) (k : A -> outcome B) b :
  m ≫= k = Ret b -> exists a, m = Ret a /\ k a = Ret b.
Proof. destruct m; simpl; [eauto | done]. Qed.

Lemma coact_assert_inv b : coact_assert b = Ret tt -> b = true.
Proof. by destruct b. Qed.

(** ** Bounded scans

    The loop [for (i = 0; i < n; ++i) if (p(slots[i])) return i;] that every
    fixed table of the program uses. *)

Fixpoint find_idx {A} (p : A -> bool) (l : list A) : option nat :=
  match l with
  | [] => None
  | x :: l => if p x then Some 0%nat else S <$> find_idx p l
  end.

Fixpoint countb {A} (p : A -> bool) (l : list A) : nat :=
  match l with
  | [] => 0
  | x :: l => (if p x then 1 else 0) + countb p l
  end%nat.

Section scans.
Context {A : Type} (p : A -> bool).
Implicit Types l : list A.

Lemma find_idx_Some l i :
  find_idx p l = Some i ->
  exists x, l !! i = Some x /\ p x = true /\
    forall j y, (j < i)%nat -> l !! j = Some y -> p y = false.
Proof.
  revert i; induction l as [|x l IH]; intros i; simpl; [done|].
  destruct (p x) eqn:Hx.
  - intros [= <-]. exists x. repeat split; auto. intros; lia.
  - destruct (find_idx p l) as [k|] eqn:Hk; [|done]. intros [= <-].
    destruct (IH k eq_refl) as (y & Hy & Hpy & Hlt).
    exists y. repeat split; auto. intros [|j] z Hj Hz.
    + by simplify_eq/=.
    + apply (Hlt j); [lia|done].
Qed.

Lemma find_idx_None l :
  find_idx p l = None <-> forall i x, l !! i = Some x -> p x = false.
Proof.
  induction l as [|x l IH]; simpl; [split; intros; simplify_eq/=; done|].
  destruct (p x) eqn:Hx.
  - split; [done|]. intros H. specialize (H 0%nat x eq_refl). congruence.
  - destruct (find_idx p l); simpl.
    + split; [done|]. intros H. assert (Some n = None); [|done].
      apply IH. intros i y Hy. apply (H (S i) y Hy).
    + split; [|done]. intros _ [|i] y Hy; [by simplify_eq/=|].
      by apply (proj1 IH eq_refl i).
Qed.

Lemma find_idx_is_Some l i x :
  l !! i = Some x -> p x = true -> exists k, find_idx p l = Some k /\ (k <= i)%nat.
Proof.
  intros Hi Hp. destruct (find_idx p l) as [k|] eqn:Hk.
  - exists k. split; [done|]. apply find_idx_Some in Hk as (y & _ & _ & Hlt).
    destruct (decide (k <= i)%nat); [done|].
    specialize (Hlt i x ltac:(lia) Hi). congruence.
  - rewrite find_idx_None in Hk. specialize (Hk i x Hi). congruence.
Qed.

Lemma find_idx_lt l i : find_idx p l = Some i -> (i < length l)%nat.
Proof. intros (x & Hx & _)%find_idx_Some. by eapply lookup_lt_Some. Qed.

Lemma countb_le l : (countb p l <= length l)%nat.
Proof. induction l; simpl; [lia|]. destruct (p _); lia. Qed.

Lemma countb_app l1 l2 : countb p (l1 ++ l2) = (countb p l1 + countb p l2)%nat.
Proof. induction l1; simpl; lia. Qed.

Lemma countb_insert l i x y :
  l !! i = Some x ->
  (countb p (<[i:=y]> l) + (if p x then 1 else 0)
   = countb p l + (if p y then 1 else 0))%nat.
Proof.
  revert i; induction l as [|z l IH]; intros [|i] H; simplify_eq/=; try done.
  - lia.
  - specialize (IH i H). lia.
Qed.

Lemma countb_full l :
  countb p l = length l <-> forall i x, l !! i = Some x -> p x = true.
Proof.
  induction l as [|x l IH]; simpl; [split; [intros; simplify_eq/=|]; done|].
  pose proof (countb_le l). destruct (p x) eqn:Hx.
  - split.
    + intros H' [|i] y Hy; [by simplify_eq/=|]. apply (proj1 IH ltac:(lia) i y Hy).
    + intros H'. f_equal. apply IH. intros i y Hy. apply (H' (S i) y Hy).
  - split; [lia|]. intros H'. specialize (H' 0%nat x eq_refl). congruence.
Qed.
End scans.

Lemma countb_full_find {A} (p : A -> bool) (l : list A) :
  countb p l = length l <-> find_idx (fun x => negb (p x)) l = None.
Proof.
  rewrite countb_full, find_idx_None. split; intros H i x Hx.
  - by rewrite (H i x Hx).
  - apply negb_false_iff, (H i x Hx).
Qed.

(** The positions a scan counts. *)
Fixpoint indices {A} (p : A -> bool) (k : nat) (l : list A) : list nat :=
  match l with
  | [] => []
  | x :: l => (if p x then [k] else []) ++ indices p (S k) l
  end.

Section indices.
Context {A : Type} (p : A -> bool).
Implicit Types l : list A.

Lemma length_indices k l : length (indices p k l) = countb p l.
Proof. revert k; induction l; intros k; simpl; [done|]. rewrite length_app, IHl. by destruct (p a). Qed.

Lemma elem_of_indices k l i :
  i ∈ indices p k l <-> exists j x, i = (k + j)%nat /\ l !! j = Some x /\ p x = true.
Proof.
  revert k; induction l as [|y l IH]; intros k; simpl.
  - split; [by intros ?%not_elem_of_nil|]. intros (j & x & _ & Hx & _). simplify_eq/=.
  - rewrite elem_of_app, IH. split.
    + intros [Hi|(j & x & -> & Hx & Hp)]; [|exists (S j), x; split_and!; [lia|done..]].
      destruct (p y) eqn:Hy; [|by apply not_elem_of_nil in Hi].
      apply list_elem_of_singleton in Hi as ->. exists 0%nat, y. split_and!; [lia|done..].
    + intros ([|j] & x & -> & Hx & Hp); simplify_eq/=.
      * left. rewrite Hp. apply list_elem_of_singleton. lia.
      * right. exists j, x. split_and!; [lia|done..].
Qed.

Lemma NoDup_indices k l : NoDup (indices p k l).
Proof.
  revert k; induction l as [|y l IH]; intros k; simpl; [constructor|].
  apply NoDup_app. split_and!; [destruct (p y); [apply NoDup_singleton|constructor]| |done].
  intros i Hi. rewrite elem_of_indices. intros (j & x & -> & _).
  destruct (p y); [apply list_elem_of_singleton in Hi; lia|by apply not_elem_of_nil in Hi].
Qed.

Lemma countb_indices l (is_ : list nat) :
  NoDup is_ -> (forall i, i ∈ is_ <-> exists x, l !! i = Some x /\ p x = true) ->
  countb p l = length is_.
Proof.
  intros Hnd Hiff. rewrite <- (length_indices 0). apply Permutation_length, NoDup_Permutation.
  - apply NoDup_indices.
  - done.
  - intros i. rewrite elem_of_indices, Hiff. split.
    + intros (j & x & -> & ?). eauto.
    + intros (x & ?). exists i, x. split; [lia|done].
Qed.
End indices.

(** ** Lists updated in place *)

Lemma lookup_insert_cases {A} (l : list A) i j x y :
  <[i := x]> l !! j = Some y -> (j = i /\ y = x) \/ (j <> i /\ l !! j = Some y).
Proof. intros [(-> & -> & _)|[? ?]]%list_lookup_insert_Some; auto. Qed.

Section omap_insert.
Context {A B : Type} (f : A -> option B).
Implicit Types l : list A.

Lemma omap_insert_same l i x y :
  l !! i = Some x -> f x = f y -> omap f (<[i:=y]> l) = omap f l.
Proof.
  revert i; induction l as [|z l IH]; intros [|i] Hi Hf; simplify_eq/=; try done.
  - by rewrite Hf.
  - by rewrite (IH _ Hi Hf).
Qed.

Lemma omap_insert_add l i x y b :
  l !! i = Some x -> f x = None -> f y = Some b -> omap f (<[i:=y]> l) ≡ₚ b :: omap f l.
Proof.
  revert i; induction l as [|z l IH]; intros [|i] Hi Hx Hy; simplify_eq/=; try done.
  - by rewrite Hx, Hy.
  - destruct (f z); rewrite (IH _ Hi Hx Hy); [apply Permutation_swap|done].
Qed.

Lemma omap_insert_remove l i x y b :
  l !! i = Some x -> f x = Some b -> f y = None -> omap f l ≡ₚ b :: omap f (<[i:=y]> l).
Proof.
  revert i; induction l as [|z l IH]; intros [|i] Hi Hx Hy; simplify_eq/=; try done.
  - by rewrite Hx, Hy.
  - destruct (f z); rewrite (IH _ Hi Hx Hy); [apply Permutation_swap|done].
Qed.

Lemma omap_nonempty l i x b : l !! i = Some x -> f x = Some b -> omap f l <> [].
Proof.
  intros Hi Hx Hn. assert (b ∈ omap f l) as Hb; [|rewrite Hn in Hb; by apply not_elem_of_nil in Hb].
  apply list_elem_of_omap. exists x. split; [by eapply list_elem_of_lookup_2|done].
Qed.

Lemma omap_nonempty_inv l : omap f l <> [] -> exists i x b, l !! i = Some x /\ f x = Some b.
Proof.
  intros Hn. destruct (omap f l) as [|b bs] eqn:He; [done|].
  assert (b ∈ omap f l) as Hb by (rewrite He; left).
  apply list_elem_of_omap in Hb as (x & Hx & Hf). apply list_elem_of_lookup in Hx as [i Hi]. eauto.
Qed.
End omap_insert.

(** ** Reachability

    An interleaving is a run [rtc step s s'] of a step relation.  An
    invariant that every step keeps holds in every reachable state. *)

Lemma rtc_invariant {A} (R : relation A) (I : A -> Prop) (a b : A) :
  (forall x y, I x -> R x y -> I y) -> I a -> rtc R a b -> I b.
Proof. intros Hstep Ha Hrun. induction Hrun; eauto. Qed.

(** A machine that, where it is not at rest, has a step that lowers a measure
    comes to rest within the measure. *)
Lemma comes_to_rest {A} (R : relation A) (I : A -> Prop) (measure : A -> nat) (rest : A -> Prop) :
  (forall s, I s -> rest s \/ exists s', R s s' /\ I s' /\ (measure s' < measure s)%nat) ->
  forall s, I s -> exists m s', (m <= measure s)%nat /\ nsteps R m s s' /\ I s' /\ rest s'.
Proof.
  intros H s. remember (measure s) as w eqn:Hw. revert s Hw. induction (lt_wf w) as [w _ IH]. intros s -> Hi.
  destruct (H s Hi) as [Hr|(s1 & Hst & Hi1 & Hlt)]; [exists 0%nat, s; split_and!; [lia|constructor|done..]|].
  destruct (IH _ Hlt s1 eq_refl Hi1) as (m & s2 & Hm & Hn & Hi2 & Hr2).
  exists (S m), s2. split_and!; [lia|by eapply nsteps_l|done..].
Qed.

(** A run of concrete steps is simulated by a run of abstract ones. *)
Lemma rtc_simulation {A B} (R : relation A) (S : relation B) (sim : A -> B -> Prop) a a' b :
  (forall x x' y, sim x y -> R x x' -> exists y', rtc S y y' /\ sim x' y') ->
  sim a b -> rtc R a a' -> exists b', rtc S b b' /\ sim a' b'.
Proof.
  intros Hsim Hab Hrun. revert b Hab.
  induction Hrun as [|x y z Hxy _ IH]; intros b Hb; [exists b; split; [apply rtc_refl|done]|].
  destruct (Hsim _ _ _ Hb Hxy) as (b1 & H1 & Hb1).
  destruct (IH _ Hb1) as (b2 & H2 & Hb2).
  exists b2. split; [by etrans|done].
Qed.

(** A fold over concrete states tracks a fold over abstract ones. *)
Lemma fold_left_sim {A B E} (f : A -> B) (g : B -> E -> B) (h : A -> E -> A) (I : A -> Prop) (es : list E) (a : A) :
  (forall x e, I x -> g (f x) e = f (h x e) /\ I (h x e)) ->
  I a -> fold_left g es (f a) = f (fold_left h es a) /\ I (fold_left h es a).
Proof.
  intros Hstep. revert a. induction es as [|e es IH]; intros a Ha; [done|]. simpl.
  destruct (Hstep a e Ha) as [-> Ha']. by apply IH.
Qed.

(** ** Labelled runs

    [lrun step s tr s']: the machine goes from [s] to [s'] and the visible
    labels are [tr], in order; a step labelled [None] is internal. *)

Section lrun.
Context {S E : Type} (step : S -> option E -> S -> Prop).

Inductive lrun : S -> list E -> S -> Prop :=
| lrun_nil s : lrun s [] s
| lrun_tau s s1 s2 tr : lrun s tr s1 -> step s1 None s2 -> lrun s tr s2
| lrun_vis s s1 s2 tr e : lrun s tr s1 -> step s1 (Some e) s2 -> lrun s (tr ++ [e]) s2.
End lrun.

(** Trace refinement by a forward simulation: internal steps may stutter. *)
Lemma lrun_refines {S A E} (cstep : S -> option E -> S -> Prop)
    (astep : A -> option E -> A -> Prop) (R : S -> A -> Prop) s0 a0 tr s :
  (forall s s' a, R s a -> cstep s None s' -> R s' a) ->
  (forall s s' a e, R s a -> cstep s (Some e) s' -> exists a', astep a (Some e) a' /\ R s' a') ->
  R s0 a0 -> lrun cstep s0 tr s -> exists a, lrun astep a0 tr a /\ R s a.
Proof.
  intros Htau Hvis H0 Hrun.
  induction Hrun as [s|s s1 s2 tr _ IH Hs|s s1 s2 tr e _ IH Hs].
  - exists a0. split; [constructor|done].
  - destruct (IH H0) as (a & Ha & HR). exists a. split; [done|]. by eapply Htau.
  - destruct (IH H0) as (a & Ha & HR). destruct (Hvis _ _ _ _ HR Hs) as (a' & Hst & HR').
    exists a'. split; [|done]. by eapply lrun_vis.
Qed.

(** ** Bit-level automation *)

Lemma testbit_above w x i : in_u w x -> 0 <= w <= i -> Z.testbit x i = false.
Proof.
  intros Hx Hi. rewrite <- (wrap_small w x Hx). apply Z.mod_pow2_bits_high. lia.
Qed.

Lemma in_u_bits w x :
  0 <= w -> 0 <= x -> (forall i, w <= i -> Z.testbit x i = false) -> in_u w x.
Proof.
  intros Hw Hx Hbits. split; [done|].
  destruct (Z.lt_ge_cases x (2 ^ w)) as [|Hge]; [done|exfalso].
  pose proof (pow2_pos w Hw). assert (Hpos : 0 < x) by lia.
  assert (Hlog : w <= Z.log2 x) by (apply Z.log2_le_pow2; lia).
  specialize (Hbits _ Hlog). rewrite Z.bit_log2 in Hbits by lia. done.
Qed.

Lemma land_in_u_r w x y : 0 <= w -> in_u w y -> in_u w (Z.land x y).
Proof.
  intros Hw Hy. apply in_u_bits; [done| |].
  - apply Z.land_nonneg. right. apply Hy.
  - intros i Hi. by rewrite Z.land_spec, (testbit_above w y i), andb_false_r.
Qed.

Lemma lor_in_u w x y : 0 <= w -> in_u w x -> in_u w y -> in_u w (Z.lor x y).
Proof.
  intros Hw Hx Hy. apply in_u_bits; [done| |].
  - apply Z.lor_nonneg. split; [apply Hx|apply Hy].
  - intros i Hi. by rewrite Z.lor_spec, (testbit_above w x i), (testbit_above w y i).
Qed.

Lemma in_u_weaken w w' x : w <= w' -> in_u w x -> in_u w' x.
Proof.
  intros Hw [H0 H1]. split; [done|].
  eapply Z.lt_le_trans; [exact H1|]. by apply Z.pow_le_mono_r.
Qed.

Lemma wrap_spec w x i :
  0 <= w -> 0 <= i -> Z.testbit (wrap w x) i = (i <? w) && Z.testbit x i.
Proof.
  intros Hw Hi. unfold wrap. destruct (Z.ltb_spec i w).
  - by rewrite Z.mod_pow2_bits_low.
  - by rewrite Z.mod_pow2_bits_high by lia.
Qed.

(** Powers of two, tested by the source as [(c & (c - 1)) == 0]. *)
Lemma land_pred_pow2 c : 0 < c -> Z.land c (c - 1) = 0 -> c = 2 ^ Z.log2 c.
Proof.
  intros Hc Hz. pose proof (Z.log2_spec c Hc) as [Hlo Hhi].
  destruct (Z.eq_dec c (2 ^ Z.log2 c)) as [|Hne]; [done|exfalso].
  assert (Hb : Z.testbit (Z.land c (c - 1)) (Z.log2 c) = true).
  { rewrite Z.land_spec, Z.bit_log2 by done.
    rewrite <- (Z.log2_unique (c - 1) (Z.log2 c)); [|apply Z.log2_nonneg|lia].
    rewrite Z.bit_log2; [done|]. pose proof (pow2_pos _ (Z.log2_nonneg c)). lia. }
  rewrite Hz, Z.testbit_0_l in Hb. done.
Qed.

(** A flag bit: [x & 2^k] and [x | 2^k]. *)
Lemma land_flag x k : 0 <= k -> Z.land x (2 ^ k) = if Z.testbit x k then 2 ^ k else 0.
Proof.
  intros Hk. apply Z.bits_inj'. intros i Hi. rewrite Z.land_spec, Z.pow2_bits_eqb by done.
  destruct (Z.eqb_spec k i) as [<-|Hne].
  - rewrite andb_true_r. destruct (Z.testbit x k); [by rewrite Z.pow2_bits_true|by rewrite Z.testbit_0_l].
  - rewrite andb_false_r. destruct (Z.testbit x k); [by rewrite Z.pow2_bits_false|by rewrite Z.testbit_0_l].
Qed.

Lemma lor_flag x k : 0 <= k -> Z.lor x (2 ^ k) = if Z.testbit x k then x else x + 2 ^ k.
Proof.
  intros Hk. destruct (Z.testbit x k) eqn:Hb.
  - apply Z.bits_inj'. intros i Hi. rewrite Z.lor_spec, Z.pow2_bits_eqb by done.
    destruct (Z.eqb_spec k i) as [<-|Hne]; [by rewrite Hb|by rewrite orb_false_r].
  - assert (Hz : Z.land x (2 ^ k) = 0) by (by rewrite land_flag, Hb).
    by rewrite Z.add_nocarry_lxor, Z.lxor_lor.
Qed.

Lemma testbit_top w x : 0 <= w -> in_u (w + 1) x -> Z.testbit x w = (2 ^ w <=? x).
Proof.
  intros Hw [H0 H1]. rewrite Z.pow_add_r in H1 by lia. pose proof (pow2_pos w Hw).
  rewrite Z.testbit_odd, Z.shiftr_div_pow2 by done. destruct (Z.leb_spec (2 ^ w) x).
  - assert (x / 2 ^ w = 1) as ->; [|done]. symmetry. apply (Z.div_unique _ _ _ (x - 2 ^ w)); lia.
  - by rewrite Z.div_small by lia.
Qed.

(** ** Small tactics *)

(** Split the boolean conditions of an executable predicate. *)
Ltac split_bools :=
  repeat match goal with
  | H : _ && _ = true |- _ => apply andb_true_iff in H; destruct H
  | H : _ || _ = false |- _ => apply orb_false_iff in H; destruct H
  | H : negb _ = true |- _ => apply negb_true_iff in H
  | H : negb _ = false |- _ => apply negb_false_iff in H
  | H : (_ <? _) = true |- _ => apply Z.ltb_lt in H
  | H : (_ <? _) = false |- _ => apply Z.ltb_ge in H
  | H : (_ <=? _) = true |- _ => apply Z.leb_le in H
  | H : (_ <=? _) = false |- _ => apply Z.leb_gt in H
  | H : (_ =? _) = true |- _ => apply Z.eqb_eq in H
  | H : (_ =? _) = false |- _ => apply Z.eqb_neq in H
  end.

(** Case analysis on the boolean comparison at the head of an [if]. *)
Ltac case_test :=
  match goal with
  | |- context [if (?a <? ?b) then _ else _] => destruct (Z.ltb_spec a b)
  | |- context [if (?a <=? ?b) then _ else _] => destruct (Z.leb_spec a b)
  | |- context [if (?a =? ?b) then _ else _] => destruct (Z.eqb_spec a b)
  | |- context [if ?b then _ else _] => let E := fresh "E" in destruct b eqn:E
  end.
