(* ===== verification/Vocab.v ===== *)
(** * Vocabulary types (include/coact/config.hpp)

    The enums and value types every component shares, and the board
    configuration as a record: a template [Config] parameter of the source is
    an argument of type [Config] here.  [DefaultConfig] is the source's. *)

From S2P Require Import Prelude.

(** Logical priorities: 0 is invalid, 1..63 are usable. *)
Definition kInvalidPrio : Z := 0.
Definition kMinPrio : Z := 1.
Definition kMaxPrio : Z := 63.

Inductive PriorityClass := High | Normal | Low.

Inductive StagingAdmission := Ordinary | ReservedNormal.

Record EventQos := mkQos { critical : bool; mergeable : bool }.

(** [TargetId]: a strong-typed [uint8_t]; 0 is the sole invalid target. *)
Record TargetId := mkTarget { raw : Z }.
Definition kInvalidTarget : TargetId := mkTarget 0.
Definition target_eqb (a b : TargetId) : bool := raw a =? raw b.

Inductive SubmitDisposition :=
| Direct | Queued | Merged | DroppedPolicy | DroppedRateLimit
| DroppedOverload | RejectedFull | RejectedState.

Record SubmitResult := mkSubmit { disposition : SubmitDisposition; reason : Z }.

Definition kArrivalTooSoon : Z := 4.
Definition kBacklogFull : Z := 5.
Definition kStagingFull : Z := 6.

Record QueueResult := mkQR { success : bool; size_after : Z }.

#[export] Instance PriorityClass_eq_dec : EqDecision PriorityClass.
Proof. solve_decision. Defined.
#[export] Instance StagingAdmission_eq_dec : EqDecision StagingAdmission.
Proof. solve_decision. Defined.
#[export] Instance TargetId_eq_dec : EqDecision TargetId.
Proof. solve_decision. Defined.
#[export] Instance EventQos_eq_dec : EqDecision EventQos.
Proof. solve_decision. Defined.
#[export] Instance SubmitDisposition_eq_dec : EqDecision SubmitDisposition.
Proof. solve_decision. Defined.
#[export] Instance SubmitResult_eq_dec : EqDecision SubmitResult.
Proof. solve_decision. Defined.

Lemma target_eqb_eq a b : target_eqb a b = true <-> a = b.
Proof. destruct a, b; unfold target_eqb; simpl. rewrite Z.eqb_eq. split; congruence. Qed.

(** The compile-time configuration.  [kHighCriticalReserve],
    [kNormalReservedCapacity] and [kAdmissionSnapshotSlots] are detected by
    name in the source and default to 0 when a board leaves them out. *)
Record Config := mkConfig {
  kMaxAo : Z; kBatchSizeMax : Z;
  kHighCapacity : Z; kNormalCapacity : Z; kLowCapacity : Z;
  kCooldownCycles : Z;
  kHighCriticalReserve : Z; kNormalReservedCapacity : Z;
  kBatchTimeoutMs : Z; kLowMaxWaitMs : Z;
  kAdmissionSnapshotSlots : Z
}.

Definition DefaultConfig : Config := {|
  kMaxAo := 16; kBatchSizeMax := 8;
  kHighCapacity := 32; kNormalCapacity := 64; kLowCapacity := 128;
  kCooldownCycles := 100;
  kHighCriticalReserve := 0; kNormalReservedCapacity := 0;
  kBatchTimeoutMs := 5; kLowMaxWaitMs := 100;
  kAdmissionSnapshotSlots := 0 |}.

(** The widths of the enumerators and the [static_assert]s of the classes
    that take a [Config]: what every well-compiled program satisfies. *)
Definition config_ok (c : Config) : bool :=
  (0 <? kMaxAo c) && (kMaxAo c <? 2 ^ 8) &&
  (0 <=? kBatchSizeMax c) && (kBatchSizeMax c <? 2 ^ 8) &&
  (0 <? kHighCapacity c) && (kHighCapacity c <? 2 ^ 16) &&
  (0 <? kNormalCapacity c) && (kNormalCapacity c <? 2 ^ 16) &&
  (0 <? kLowCapacity c) && (kLowCapacity c <? 2 ^ 16) &&
  (0 <=? kCooldownCycles c) && (kCooldownCycles c <=? 65535) &&
  (0 <=? kHighCriticalReserve c) && (kHighCriticalReserve c <=? kHighCapacity c) &&
  (0 <=? kNormalReservedCapacity c) && (kNormalReservedCapacity c <=? kNormalCapacity c) &&
  (0 <=? kLowMaxWaitMs c) && (kLowMaxWaitMs c <? 2000) &&
  (0 <=? kAdmissionSnapshotSlots c) && (kAdmissionSnapshotSlots c <? 2 ^ 8).
