(* ===== verification/QueueSpec.v ===== *)
(** * The queue contract

    What staging relies on: a bounded FIFO.  [QueueBackend] is the operation
    set that the [template <typename, uint16_t> class QueueBackend] parameter
    of [Staging] must offer (include/coact/queue.hpp), [FifoLaws] the promise
    that an implementation discharges, as a refinement of a bounded list.
    [CriticalRing.v] and [Mpsc.v] give the two instances.

    The index [n] of [fifo_repr n q l] is the number of further pushes for
    which the order promise is covered: it is unbounded for the ring and is
    the room left in the 64-bit publication ticket for the MPSC queue. *)

From S2P Require Import Prelude.

Class QueueBackend (C : Z) (T Q : Type) := {
  q_try_push : T -> Q -> bool * Q;
  q_try_pop : Q -> option T * Q;
  q_front : Q -> option T;
  q_size : Q -> Z;
  q_has_ready : Q -> bool
}.

Class FifoLaws (C : Z) (T Q : Type) `{!QueueBackend C T Q} := {
  fifo_repr : nat -> Q -> list T -> Prop;
  fifo_mono n m q l : (n <= m)%nat -> fifo_repr m q l -> fifo_repr n q l;
  fifo_bound n q l : fifo_repr n q l -> Z.of_nat (length l) <= C;
  fifo_push_ok n q l v :
    fifo_repr (S n) q l -> Z.of_nat (length l) < C ->
    exists q', q_try_push v q = (true, q') /\ fifo_repr n q' (l ++ [v]);
  fifo_push_full n q l v :
    fifo_repr n q l -> Z.of_nat (length l) = C ->
    exists q', q_try_push v q = (false, q') /\ fifo_repr n q' l;
  fifo_pop_cons n q x l :
    fifo_repr n q (x :: l) ->
    exists q', q_try_pop q = (Some x, q') /\ fifo_repr n q' l;
  fifo_pop_nil n q :
    fifo_repr n q [] ->
    exists q', q_try_pop q = (None, q') /\ fifo_repr n q' [];
  fifo_front n q l : fifo_repr n q l -> q_front q = head l;
  fifo_size n q l : fifo_repr n q l -> q_size q = Z.of_nat (length l);
  fifo_ready n q l : fifo_repr n q l -> q_has_ready q = negb (bool_decide (l = []))
}.

(** ** Circular slot arrays

    [ring_at C cells s l]: the [C] slots hold the elements of [l], in order,
    from position [s] on, and every other slot is raw storage ([None]). *)

Definition pos (C x : Z) : nat := Z.to_nat (x `mod` C).

Definition ring_at {T} (C : Z) (cells : list (option T)) (s : Z) (l : list T) : Prop :=
  length cells = Z.to_nat C /\ (length l <= Z.to_nat C)%nat /\
  forall i : nat, (i < Z.to_nat C)%nat ->
    cells !! pos C (s + Z.of_nat i) = Some (l !! i).

Section ring.
Context {T : Type} (C : Z) (HC : 0 < C).
Implicit Types (cells : list (option T)) (l : list T).

Lemma pos_lt x : (pos C x < Z.to_nat C)%nat.
Proof using HC. unfold pos. pose proof (Z.mod_pos_bound x C HC). lia. Qed.

Lemma pos_inj s (i j : nat) :
  (i < Z.to_nat C)%nat -> (j < Z.to_nat C)%nat ->
  pos C (s + Z.of_nat i) = pos C (s + Z.of_nat j) -> i = j.
Proof using HC.
  unfold pos. intros Hi Hj Heq.
  assert (Hm : (s + Z.of_nat i) mod C = (s + Z.of_nat j) mod C).
  { pose proof (Z.mod_pos_bound (s + Z.of_nat i) C HC).
    pose proof (Z.mod_pos_bound (s + Z.of_nat j) C HC). lia. }
  assert (Hd : (Z.of_nat i - Z.of_nat j) mod C = 0).
  { replace (Z.of_nat i - Z.of_nat j) with ((s + Z.of_nat i) - (s + Z.of_nat j)) by lia.
    rewrite Zminus_mod, Hm, Z.sub_diag. by rewrite Z.mod_0_l by lia. }
  apply Z.mod_divide in Hd as [k Hk]; [|lia].
  assert (Hb : - C < Z.of_nat i - Z.of_nat j < C) by lia.
  rewrite Hk in Hb. assert (k = 0) by nia. lia.
Qed.

Lemma ring_at_mod cells s s' l :
  s mod C = s' mod C -> ring_at C cells s l -> ring_at C cells s' l.
Proof using HC.
  intros Hs (Hl & Hn & H). split_and!; [done..|]. intros i Hi. rewrite <- (H i Hi).
  unfold pos. by rewrite <- (Zplus_mod_idemp_l s), Hs, Zplus_mod_idemp_l.
Qed.

Lemma ring_at_push cells s l v :
  ring_at C cells s l -> (length l < Z.to_nat C)%nat ->
  ring_at C (<[pos C (s + Z.of_nat (length l)) := Some v]> cells) s (l ++ [v]).
Proof using HC.
  intros (Hl & Hn & H) Hlt. split_and!.
  - by rewrite length_insert.
  - rewrite length_app. simpl. lia.
  - intros i Hi. destruct (decide (i = length l)) as [->|Hne].
    + rewrite list_lookup_insert_eq by (rewrite Hl; apply pos_lt).
      by rewrite lookup_app_r, Nat.sub_diag by lia.
    + rewrite list_lookup_insert_ne by (intros E%pos_inj; lia).
      rewrite (H i Hi). f_equal. destruct (decide (i < length l)%nat).
      * by rewrite lookup_app_l.
      * rewrite (lookup_ge_None_2 l) by lia. rewrite lookup_ge_None_2; [done|].
        rewrite length_app; simpl; lia.
Qed.

Lemma ring_at_head cells s x l :
  ring_at C cells s (x :: l) -> cells !! pos C s = Some (Some x).
Proof using HC.
  intros (_ & Hn & H). specialize (H 0%nat ltac:(simpl in Hn; lia)).
  by rewrite Z.add_0_r in H.
Qed.

Lemma ring_at_pop cells s x l :
  ring_at C cells s (x :: l) ->
  ring_at C (<[pos C s := None]> cells) (s + 1) l.
Proof using HC.
  intros (Hl & Hn & H). simpl in Hn. split_and!; [by rewrite length_insert|lia|].
  intros i Hi. destruct (decide (S i = Z.to_nat C)) as [HS|HS].
  - assert (pos C (s + 1 + Z.of_nat i) = pos C s) as ->.
    { unfold pos. replace (s + 1 + Z.of_nat i) with (s + 1 * C) by lia.
      by rewrite Z.mod_add by lia. }
    rewrite list_lookup_insert_eq by (rewrite Hl; apply pos_lt).
    rewrite lookup_ge_None_2; [done|lia].
  - replace (s + 1 + Z.of_nat i) with (s + Z.of_nat (S i)) by lia.
    rewrite list_lookup_insert_ne; [by rewrite (H (S i)) by lia|].
    intros E. replace s with (s + Z.of_nat 0) in E at 1 by lia. apply pos_inj in E; lia.
Qed.

Lemma ring_at_free cells s l :
  ring_at C cells s l -> (length l < Z.to_nat C)%nat ->
  cells !! pos C (s + Z.of_nat (length l)) = Some None.
Proof using HC. intros (_ & _ & H) Hlt. rewrite H by done. by rewrite lookup_ge_None_2. Qed.

Lemma ring_at_empty s : ring_at C (replicate (Z.to_nat C) (@None T)) s [].
Proof using HC.
  split_and!; [apply length_replicate|simpl; lia|]. intros i Hi.
  rewrite lookup_replicate_2 by apply pos_lt. done.
Qed.

Lemma ring_at_inj cells s l l' : ring_at C cells s l -> ring_at C cells s l' -> l = l'.
Proof using HC.
  intros (_ & Hn & H) (_ & Hn' & H'). apply list_eq. intros i.
  destruct (decide (i < Z.to_nat C)%nat) as [Hi|Hi].
  - specialize (H i Hi). specialize (H' i Hi). congruence.
  - rewrite !lookup_ge_None_2 by lia. done.
Qed.
End ring.

(** ** Operation scripts

    Any sequence of calls, and the answers a bounded FIFO list gives. *)

Inductive qop (T : Type) := OpPush (v : T) | OpPop | OpFront | OpSize | OpReady.
Arguments OpPush {T} v.
Arguments OpPop {T}.
Arguments OpFront {T}.
Arguments OpSize {T}.
Arguments OpReady {T}.

Inductive qans (T : Type) := ABool (b : bool) | AVal (v : option T) | ANum (z : Z).
Arguments ABool {T} b.
Arguments AVal {T} v.
Arguments ANum {T} z.

Definition list_op {T} (C : Z) (o : qop T) (l : list T) : qans T * list T :=
  match o with
  | OpPush v => if Z.of_nat (length l) <? C then (ABool true, l ++ [v]) else (ABool false, l)
  | OpPop => (AVal (head l), tail l)
  | OpFront => (AVal (head l), l)
  | OpSize => (ANum (Z.of_nat (length l)), l)
  | OpReady => (ABool (negb (bool_decide (l = []))), l)
  end.

Definition backend_op {T Q} (C : Z) `{!QueueBackend C T Q} (o : qop T) (q : Q) : qans T * Q :=
  match o with
  | OpPush v => let '(ok, q') := q_try_push v q in (ABool ok, q')
  | OpPop => let '(v, q') := q_try_pop q in (AVal v, q')
  | OpFront => (AVal (q_front q), q)
  | OpSize => (ANum (q_size q), q)
  | OpReady => (ABool (q_has_ready q), q)
  end.

Fixpoint script {T S} (op : qop T -> S -> qans T * S) (ops : list (qop T)) (s : S) : list (qans T) * S :=
  match ops with
  | [] => ([], s)
  | o :: ops => let '(a, s1) := op o s in
                let '(as_, s2) := script op ops s1 in (a :: as_, s2)
  end.

Definition pushes {T} (ops : list (qop T)) : nat :=
  countb (fun o => match o with OpPush _ => true | _ => false end) ops.

Section scripts.
Context {T Q : Type} {C : Z} `{!QueueBackend C T Q, !FifoLaws C T Q}.

Lemma fifo_push_spec n q l (v : T) :
  fifo_repr (S n) q l ->
  (q_try_push v q).1 = (Z.of_nat (length l) <? C) /\
  fifo_repr n (q_try_push v q).2 (if Z.of_nat (length l) <? C then l ++ [v] else l).
Proof.
  intros Hq. destruct (Z.ltb_spec (Z.of_nat (length l)) C).
  - destruct (fifo_push_ok _ _ _ v Hq H) as (q' & -> & Hq'). eauto.
  - pose proof (fifo_bound _ _ _ Hq). destruct (fifo_push_full _ _ _ v Hq) as (q' & -> & Hq'); [lia|].
    split; [done|]. eapply fifo_mono; [|done]. lia.
Qed.

Lemma fifo_pop_spec n q (l : list T) :
  fifo_repr n q l -> (q_try_pop q).1 = head l /\ fifo_repr n (q_try_pop q).2 (tail l).
Proof.
  intros Hq. destruct l as [|x l].
  - destruct (fifo_pop_nil _ _ Hq) as (q' & -> & ?). done.
  - destruct (fifo_pop_cons _ _ _ _ Hq) as (q' & -> & ?). done.
Qed.

Lemma script_refines (ops : list (qop T)) q l :
  fifo_repr (pushes ops) q l ->
  (script (backend_op C) ops q).1 = (script (list_op C) ops l).1 /\
  fifo_repr 0 (script (backend_op C) ops q).2 (script (list_op C) ops l).2.
Proof.
  revert q l. induction ops as [|o ops IH]; intros q l Hq; [done|].
  assert (Hstep : (backend_op C o q).1 = (list_op C o l).1 /\
    fifo_repr (pushes ops) (backend_op C o q).2 (list_op C o l).2).
  { destruct o as [v| | | |]; simpl in *.
    - destruct (fifo_push_spec _ _ _ v Hq) as (H1 & H2).
      destruct (q_try_push v q) as [ok q']. simpl in *. subst ok.
      destruct (_ <? _); split; eauto.
    - destruct (fifo_pop_spec _ _ _ Hq) as (H1 & H2).
      destruct (q_try_pop q) as [v q']. simpl in *. by subst v.
    - by rewrite (fifo_front _ _ _ Hq).
    - by rewrite (fifo_size _ _ _ Hq).
    - by rewrite (fifo_ready _ _ _ Hq). }
  simpl. destruct (backend_op C o q) as [a q1], (list_op C o l) as [a' l1].
  destruct Hstep as [Ha Hr]. simpl in *. subst a'.
  destruct (IH _ _ Hr) as [IH1 IH2].
  destruct (script (backend_op C) ops q1) as [as_ q2], (script (list_op C) ops l1) as [as' l2].
  simpl in *. by subst.
Qed.
End scripts.
