(* ===== verification/Spsc.v ===== *)
(** * SpscRing (include/coact/spsc_ring.hpp)

    The lock-free single-producer/single-consumer ring.  The first part models
    the operations as they run alone, the second the interleavings of one
    producer and one consumer at the granularity of their shared accesses.
    Acquire/release pairs of the source make the accesses of the second part
    sequentially consistent for the two threads involved. *)

From S2P Require Import Prelude Vocab QueueSpec.

Section spsc.
Context {T : Type} (C : Z).

(** [std::atomic<uint16_t>] sequences and the slot array; [None] is a slot
    whose object lifetime has not started. *)
Record SpscRing := mkSpsc { head_ : Z; tail_ : Z; cells_ : list (option T) }.

Definition is_spsc_ring_config : bool :=
  (2 <=? C) && (Z.land C (C - 1) =? 0) && (C <=? 0x7FFF).

Definition spsc_ctor : SpscRing := mkSpsc 0 0 (replicate (Z.to_nat C) None).

Definition slot_at (seq : Z) : nat := Z.to_nat (u16 (Z.land seq (C - 1))).

Definition spsc_try_push (value : T) (q : SpscRing) : bool * SpscRing :=
  let h := head_ q in
  let t := tail_ q in
  let n := u16 (h - t) in
  if C <=? n then (false, q)
  else (true, mkSpsc (u16 (h + 1)) t (<[slot_at h := Some value]> (cells_ q))).

Definition spsc_try_push_observed (value : T) (q : SpscRing) : QueueResult * SpscRing :=
  let h := head_ q in
  let t := tail_ q in
  let n := u16 (h - t) in
  if C <=? n then (mkQR false n, q)
  else (mkQR true (u16 (n + 1)),
        mkSpsc (u16 (h + 1)) t (<[slot_at h := Some value]> (cells_ q))).

(** The moved-out value; [None] would be a read of raw storage. *)
Definition spsc_try_pop (q : SpscRing) : bool * option T * SpscRing :=
  let t := tail_ q in
  let h := head_ q in
  if t =? h then (false, None, q)
  else let slot := slot_at t in
       (true, mjoin (cells_ q !! slot), mkSpsc h (u16 (t + 1)) (<[slot := None]> (cells_ q))).

Definition spsc_size (q : SpscRing) : Z :=
  let n := u16 (head_ q - tail_ q) in
  if C <? n then C else n.

(** ** The invariant: the ring holds the queue [l] *)

Definition spsc_repr (q : SpscRing) (l : list T) : Prop :=
  in_u 16 (tail_ q) /\ head_ q = u16 (tail_ q + Z.of_nat (length l)) /\
  ring_at C (cells_ q) (tail_ q) l.

(** ** Arithmetic of the sequence numbers *)

Context (HC : is_spsc_ring_config = true).

Lemma spsc_cap_range : 2 <= C <= 0x7FFF.
Proof using HC. unfold is_spsc_ring_config in HC. split_bools. lia. Qed.

Lemma spsc_cap_divides : (C | 2 ^ 16).
Proof using HC.
  pose proof spsc_cap_range. unfold is_spsc_ring_config in HC. split_bools.
  rewrite (land_pred_pow2 C) by (done || lia).
  pose proof (Z.log2_nonneg C). assert (Z.log2 C < 15) by (apply Z.log2_lt_pow2; lia).
  exists (2 ^ (16 - Z.log2 C)). rewrite <- Z.pow_add_r by lia. f_equal. lia.
Qed.

Lemma mod_cap_u16 x : u16 x mod C = x mod C.
Proof using HC.
  apply Z.mod_mod_divide, spsc_cap_divides.
Qed.

Lemma slot_at_pos x : in_u 16 x -> slot_at x = pos C x.
Proof using HC.
  intros Hx. pose proof spsc_cap_range. unfold slot_at, pos. f_equal.
  unfold is_spsc_ring_config in HC. split_bools.
  assert (Z.land x (C - 1) = x mod C) as ->.
  { rewrite (land_pred_pow2 C) at 1 by (done || lia).
    replace (2 ^ Z.log2 C - 1) with (Z.ones (Z.log2 C)) by (rewrite Z.ones_equiv; lia).
    rewrite Z.land_ones by apply Z.log2_nonneg. by rewrite <- land_pred_pow2 by (done || lia). }
  apply wrap_small. pose proof (Z.mod_pos_bound x C ltac:(lia)). unfold in_u. lia.
Qed.

Lemma pos_u16 x y : pos C (u16 x + y) = pos C (x + y).
Proof using HC.
  unfold pos. f_equal.
  by rewrite <- (Zplus_mod_idemp_l (u16 x)), mod_cap_u16, Zplus_mod_idemp_l.
Qed.

Lemma fill_level t n :
  in_u 16 t -> 0 <= n <= C -> u16 (u16 (t + n) - t) = n.
Proof using HC.
  intros Ht Hn. pose proof spsc_cap_range.
  rewrite <- (wrap_small 16 t) at 2 by done. rewrite wrap_sub_wrap by lia.
  replace (t + n - t) with n by lia. apply wrap_small. unfold in_u. lia.
Qed.

Lemma seq_eq t n : in_u 16 t -> 0 <= n <= C -> t = u16 (t + n) -> n = 0.
Proof using HC.
  intros Ht Hn Heq. pose proof (fill_level t n Ht Hn) as Hf. rewrite <- Heq in Hf.
  rewrite Z.sub_diag in Hf. by rewrite <- Hf.
Qed.

Lemma next_seq t n : u16 (u16 (t + n) + 1) = u16 (t + (n + 1)).
Proof. rewrite wrap_add_wrap_l by lia. f_equal. lia. Qed.

Lemma next_tail t n : u16 (t + (n + 1)) = u16 (u16 (t + 1) + n).
Proof. rewrite wrap_add_wrap_l by lia. f_equal. lia. Qed.

Lemma repr_len_le q l : spsc_repr q l -> 0 <= Z.of_nat (length l) <= C.
Proof using HC. intros (_ & _ & _ & Hn & _). pose proof spsc_cap_range. lia. Qed.

(** ** Sequential behaviour *)

Lemma spsc_ctor_repr : spsc_repr spsc_ctor [].
Proof using HC.
  pose proof spsc_cap_range. split_and!; [split; simpl; lia|done|].
  apply ring_at_empty. lia.
Qed.

Lemma push_repr q l v :
  spsc_repr q l -> Z.of_nat (length l) < C ->
  spsc_repr (mkSpsc (u16 (head_ q + 1)) (tail_ q) (<[slot_at (head_ q) := Some v]> (cells_ q)))
            (l ++ [v]).
Proof using HC.
  intros Hq Hlt. pose proof spsc_cap_range. destruct Hq as (Ht & Hh & Hr).
  split_and!; simpl; [done| |].
  - rewrite Hh, next_seq, length_app. do 2 f_equal. simpl. lia.
  - rewrite slot_at_pos by (rewrite Hh; auto with coact lia).
    rewrite Hh, <- (Z.add_0_r (u16 _)), pos_u16, Z.add_0_r.
    apply ring_at_push; [lia|done|lia].
Qed.

Lemma pop_repr q x l :
  spsc_repr q (x :: l) ->
  mjoin (cells_ q !! slot_at (tail_ q)) = Some x /\
  spsc_repr (mkSpsc (head_ q) (u16 (tail_ q + 1)) (<[slot_at (tail_ q) := None]> (cells_ q))) l.
Proof using HC.
  intros Hq. pose proof spsc_cap_range. destruct Hq as (Ht & Hh & Hr).
  rewrite slot_at_pos by done. split; [|split_and!; simpl].
  - rewrite (ring_at_head C ltac:(lia) _ _ _ _ Hr). done.
  - auto with coact lia.
  - rewrite Hh, <- next_tail. f_equal. simpl. lia.
  - eapply ring_at_mod; [lia| |eapply ring_at_pop; [lia|done]]. by rewrite mod_cap_u16.
Qed.

Lemma spsc_push_spec q l v :
  spsc_repr q l ->
  if Z.of_nat (length l) <? C
  then (spsc_try_push v q).1 = true /\ spsc_repr (spsc_try_push v q).2 (l ++ [v])
  else spsc_try_push v q = (false, q).
Proof using HC.
  intros Hq. pose proof (repr_len_le _ _ Hq) as Hn. pose proof Hq as (Ht & Hh & _).
  unfold spsc_try_push. rewrite Hh, fill_level by done.
  destruct (Z.ltb_spec (Z.of_nat (length l)) C).
  - rewrite (proj2 (Z.leb_gt _ _)) by lia. split; [done|]. rewrite <- Hh. by apply push_repr.
  - rewrite (proj2 (Z.leb_le _ _)) by lia. done.
Qed.

Lemma spsc_pop_spec q l :
  spsc_repr q l ->
  match l with
  | [] => spsc_try_pop q = (false, None, q)
  | x :: l' => (spsc_try_pop q).1 = (true, Some x) /\ spsc_repr (spsc_try_pop q).2 l'
  end.
Proof using HC.
  intros Hq. pose proof (repr_len_le _ _ Hq) as Hn. pose proof Hq as (Ht & Hh & _).
  unfold spsc_try_pop. destruct l as [|x l]; simpl length in *.
  - rewrite Hh, Z.add_0_r, (wrap_small 16) by done. by rewrite Z.eqb_refl.
  - destruct (Z.eqb_spec (tail_ q) (head_ q)) as [E|_].
    + rewrite Hh in E. apply seq_eq in E; [lia|done|lia].
    + simpl. destruct (pop_repr _ _ _ Hq) as [-> ?]. done.
Qed.

Lemma spsc_size_spec q l : spsc_repr q l -> spsc_size q = Z.of_nat (length l).
Proof using HC.
  intros Hq. pose proof (repr_len_le _ _ Hq) as Hn. pose proof Hq as (Ht & Hh & _).
  unfold spsc_size. rewrite Hh, fill_level by done. by rewrite (proj2 (Z.ltb_ge _ _)) by lia.
Qed.

Lemma spsc_push_observed_spec q l v :
  spsc_repr q l ->
  (spsc_try_push_observed v q).2 = (spsc_try_push v q).2 /\
  success (spsc_try_push_observed v q).1 = (spsc_try_push v q).1 /\
  size_after (spsc_try_push_observed v q).1 = spsc_size (spsc_try_push v q).2.
Proof using HC.
  intros Hq. pose proof (repr_len_le _ _ Hq) as Hn. pose proof Hq as (Ht & Hh & _).
  pose proof (spsc_push_spec q l v Hq) as Hp. pose proof spsc_cap_range.
  unfold spsc_try_push_observed in *. unfold spsc_try_push in *.
  rewrite Hh, fill_level in * by done.
  destruct (Z.ltb_spec (Z.of_nat (length l)) C) as [Hlt|Hge].
  - rewrite (proj2 (Z.leb_gt _ _)) in * by lia. split_and!; [done..|].
    destruct Hp as [_ Hp]. rewrite (spsc_size_spec _ _ Hp), length_app. simpl.
    rewrite wrap_small; [lia|]. unfold in_u. lia.
  - rewrite (proj2 (Z.leb_le _ _)) in * by lia. split_and!; [done..|].
    simpl. by rewrite (spsc_size_spec _ _ Hq).
Qed.

End spsc.
Arguments SpscRing T : clear implicits.

(** ** The bounded FIFO specification *)

Inductive queue_event (T : Type) :=
| EPush (v : T)          (* try_push returned true *)
| EFull (v : T)          (* try_push returned false *)
| EPop (v : option T)    (* try_pop returned true and moved [v] out *)
| EEmpty.                (* try_pop returned false *)
Arguments EPush {T} v.
Arguments EFull {T} v.
Arguments EPop {T} v.
Arguments EEmpty {T}.

Inductive fifo_step {T} (C : Z) : list T -> option (queue_event T) -> list T -> Prop :=
| fifo_push l v : Z.of_nat (length l) < C -> fifo_step C l (Some (EPush v)) (l ++ [v])
| fifo_full l v : Z.of_nat (length l) = C -> fifo_step C l (Some (EFull v)) l
| fifo_pop x l : fifo_step C (x :: l) (Some (EPop (Some x))) l
| fifo_empty : fifo_step C [] (Some EEmpty) [].

(** ** One producer and one consumer, interleaved

    A program counter per thread with the locals that are live there; every
    shared access of [try_push] and [try_pop] is one step. *)

Inductive producer (T : Type) :=
| PIdle
| PHead (v : T) (h : Z)      (* head_ loaded *)
| PReady (v : T) (h : Z)     (* tail_ loaded, room seen; about to construct *)
| PWritten (v : T) (h : Z).  (* constructed; about to publish head_ *)
Arguments PIdle {T}.
Arguments PHead {T} v h.
Arguments PReady {T} v h.
Arguments PWritten {T} v h.

Inductive consumer (T : Type) :=
| CIdle
| CTail (t : Z)                    (* tail_ loaded *)
| CReady (t : Z)                   (* head_ loaded, element seen *)
| CTaken (t : Z) (out : option T). (* moved out and destroyed; about to publish tail_ *)
Arguments CIdle {T}.
Arguments CTail {T} t.
Arguments CReady {T} t.
Arguments CTaken {T} t out.

Record spsc_sys (T : Type) := mkSys { ring : SpscRing T; prod : producer T; cons : consumer T }.
Arguments mkSys {T} ring prod cons.
Arguments ring {T} s.
Arguments prod {T} s.
Arguments cons {T} s.

Inductive spsc_step {T} (C : Z) : spsc_sys T -> option (queue_event T) -> spsc_sys T -> Prop :=
| p_load_head q c v :
    spsc_step C (mkSys q PIdle c) None (mkSys q (PHead v (head_ q)) c)
| p_load_tail_full q c v h :
    C <= u16 (h - tail_ q) ->
    spsc_step C (mkSys q (PHead v h) c) (Some (EFull v)) (mkSys q PIdle c)
| p_load_tail_room q c v h :
    u16 (h - tail_ q) < C ->
    spsc_step C (mkSys q (PHead v h) c) None (mkSys q (PReady v h) c)
| p_construct q c v h :
    spsc_step C (mkSys q (PReady v h) c) None
      (mkSys (mkSpsc (head_ q) (tail_ q) (<[slot_at C h := Some v]> (cells_ q))) (PWritten v h) c)
| p_publish q c v h :
    spsc_step C (mkSys q (PWritten v h) c) (Some (EPush v))
      (mkSys (mkSpsc (u16 (h + 1)) (tail_ q) (cells_ q)) PIdle c)
| c_load_tail q p :
    spsc_step C (mkSys q p CIdle) None (mkSys q p (CTail (tail_ q)))
| c_load_head_empty q p t :
    t = head_ q ->
    spsc_step C (mkSys q p (CTail t)) (Some EEmpty) (mkSys q p CIdle)
| c_load_head_some q p t :
    t <> head_ q ->
    spsc_step C (mkSys q p (CTail t)) None (mkSys q p (CReady t))
| c_take q p t :
    spsc_step C (mkSys q p (CReady t)) None
      (mkSys (mkSpsc (head_ q) (tail_ q) (<[slot_at C t := None]> (cells_ q))) p
             (CTaken t (mjoin (cells_ q !! slot_at C t))))
| c_publish q p t out :
    spsc_step C (mkSys q p (CTaken t out)) (Some (EPop out))
      (mkSys (mkSpsc (head_ q) (u16 (t + 1)) (cells_ q)) p CIdle).

Definition spsc_sys_init {T} (C : Z) : spsc_sys T := mkSys (spsc_ctor C) PIdle CIdle.

(** What the producer has constructed but not yet published, and whether the
    consumer has emptied the slot it still owns. *)
Definition in_flight {T} (p : producer T) : list T :=
  match p with PWritten v _ => [v] | _ => [] end.

Definition live_part {T} (c : consumer T) (l : list T) : list T :=
  match c with CTaken _ _ => tail l | _ => l end.

Definition live_start {T} (c : consumer T) (t : Z) : Z :=
  match c with CTaken _ _ => t + 1 | _ => t end.

Record spsc_sim {T} (C : Z) (s : spsc_sys T) (l : list T) : Prop := {
  sim_tail : in_u 16 (tail_ (ring s));
  sim_head : head_ (ring s) = u16 (tail_ (ring s) + Z.of_nat (length l));
  sim_len : Z.of_nat (length l) <= C;
  sim_prod : match prod s with
             | PIdle => True
             | PHead _ h => h = head_ (ring s)
             | PReady _ h | PWritten _ h => h = head_ (ring s) /\ Z.of_nat (length l) < C
             end;
  sim_cons : match cons s with
             | CIdle => True
             | CTail t => t = tail_ (ring s)
             | CReady t => t = tail_ (ring s) /\ l <> []
             | CTaken t out => t = tail_ (ring s) /\ l <> [] /\ out = head l
             end;
  sim_cells : ring_at C (cells_ (ring s)) (live_start (cons s) (tail_ (ring s)))
                (live_part (cons s) l ++ in_flight (prod s))
}.

Section spsc_conc.
Context {T : Type} (C : Z) (HC : is_spsc_ring_config C = true).
Implicit Types (s : spsc_sys T) (l : list T).

Lemma C_pos : 0 < C.
Proof using HC. pose proof (spsc_cap_range C HC). lia. Qed.

Lemma spsc_sim_init : spsc_sim C (@spsc_sys_init T C) [].
Proof using HC.
  pose proof C_pos. constructor; simpl; try done; try lia.
  apply ring_at_empty. lia.
Qed.

(** The slot the producer constructs into is the first free one. *)
Lemma sim_slot_head s l :
  spsc_sim C s l -> Z.of_nat (length l) < C -> in_flight (prod s) = [] ->
  slot_at C (head_ (ring s)) =
  pos C (live_start (cons s) (tail_ (ring s)) + Z.of_nat (length (live_part (cons s) l))).
Proof using HC.
  intros Hs Hlt Hfl. rewrite (sim_head _ _ _ Hs).
  rewrite (slot_at_pos C HC) by (apply wrap_range; lia).
  rewrite <- (Z.add_0_r (u16 _)), (pos_u16 C HC), Z.add_0_r. f_equal.
  pose proof (sim_cons _ _ _ Hs) as Hc. destruct (cons s); simpl; try lia.
  destruct Hc as (_ & Hne & _). destruct l; simpl in *; [done|lia].
Qed.

Lemma sim_step_tau s s' l : spsc_sim C s l -> spsc_step C s None s' -> spsc_sim C s' l.
Proof using HC.
  intros Hs Hst. pose proof C_pos as HCp.
  inversion Hst; subst; pose proof Hs as Hs0; destruct Hs as [Ht Hh Hl Hp Hc Hr]; simpl in *.
  - by constructor.
  - subst h. rewrite Hh, (fill_level C HC) in * by (done || lia). by constructor.
  - destruct Hp as [-> Hlt]. rewrite app_nil_r in Hr.
    pose proof (sim_slot_head _ _ Hs0 Hlt eq_refl) as Hslot.
    simpl in Hslot. constructor; simpl; try done. rewrite Hslot.
    apply ring_at_push; [lia|done|]. destruct c; simpl; [lia..|destruct l; simpl in *; lia].
  - by constructor.
  - constructor; simpl; try done. split; [done|]. intros ->. simpl in *.
    apply H. by rewrite Hh, Z.add_0_r, wrap_small.
  - destruct Hc as [-> Hne]. destruct l as [|x l]; [done|]. simpl in *.
    rewrite (slot_at_pos C HC) by done.
    constructor; simpl; try done.
    + rewrite (ring_at_head C ltac:(lia) _ _ _ _ Hr). done.
    + eapply ring_at_pop; [lia|done].
Qed.

Lemma sim_step_vis s s' l e :
  spsc_sim C s l -> spsc_step C s (Some e) s' ->
  exists l', fifo_step C l (Some e) l' /\ spsc_sim C s' l'.
Proof using HC.
  intros Hs Hst. pose proof C_pos as HCp.
  inversion Hst; subst; destruct Hs as [Ht Hh Hl Hp Hc Hr]; simpl in *.
  - subst h. rewrite Hh, (fill_level C HC) in * by (done || lia).
    exists l. split; [apply fifo_full; lia|by constructor].
  - destruct Hp as [-> Hlt]. exists (l ++ [v]). split; [by constructor|].
    constructor; simpl; try done.
    + rewrite Hh, next_seq, length_app. do 2 f_equal. simpl. lia.
    + rewrite length_app. simpl. lia.
    + destruct c, l; simpl in *; naive_solver.
    + rewrite app_nil_r. destruct c; simpl in *; try done.
      destruct l; simpl in *; [naive_solver|done].
  - assert (l = []) as ->.
    { destruct l; [done|]. rewrite Hh in Hc. symmetry in Hc. apply (seq_eq C HC) in Hc; simpl in *; [lia|done|lia]. }
    exists []. split; [constructor|by constructor].
  - destruct Hc as (-> & Hne & ->). destruct l as [|x l]; [done|]. simpl in *.
    exists l. split; [constructor|]. constructor; simpl.
    + apply wrap_range; lia.
    + rewrite Hh, <- next_tail. f_equal. lia.
    + lia.
    + destruct p; naive_solver lia.
    + done.
    + eapply ring_at_mod; [lia| |done]. by rewrite (mod_cap_u16 C HC).
Qed.
End spsc_conc.

(** ** Properties *)

(** C35: Under every interleaving of one producer and one consumer, at the
    granularity of the shared accesses and with both sequence numbers wrapping
    at 2^16, the results that [try_push] and [try_pop] return are those of a
    bounded FIFO of the ring's capacity: no element is lost, duplicated,
    reordered or read before it is constructed, "full" is only reported when
    [Capacity] elements are queued and "empty" only when none is. *)
Theorem spsc_refines_fifo {T} (C : Z) (tr : list (queue_event T)) (s : spsc_sys T) :
  is_spsc_ring_config C = true ->
  lrun (spsc_step C) (spsc_sys_init C) tr s ->
  exists l, lrun (fifo_step C) [] tr l /\ spsc_sim C s l.
Proof.
  intros HC Hrun.
  eapply (lrun_refines _ _ (spsc_sim C)); [| |by apply spsc_sim_init|done].
  - intros; by eapply sim_step_tau.
  - intros; by eapply sim_step_vis.
Qed.

(** Push one element into a ring of two, then pop it. *)
Lemma spsc_refines_fifo_witness :
  exists l, lrun (fifo_step 2) [] [EPush 7; EPop (Some 7)] l /\
    exists s, spsc_sim 2 s l.
Proof.
  destruct (spsc_refines_fifo 2 [EPush 7; EPop (Some 7)]
    (mkSys (mkSpsc 1 1 [None; None]) PIdle CIdle)) as (l & Hl & Hs).
  - reflexivity.
  - eapply (lrun_vis _ _ (mkSys (mkSpsc 1 0 [None; None]) PIdle (CTaken 0 (Some 7))) _ [EPush 7]);
      [|apply (c_publish 2 (mkSpsc 1 0 _))].
    eapply lrun_tau; [|apply (c_take 2 (mkSpsc 1 0 [Some 7; None]) PIdle 0)].
    eapply lrun_tau; [|apply (c_load_head_some 2 (mkSpsc 1 0 _)); simpl; lia].
    eapply lrun_tau; [|apply (c_load_tail 2 (mkSpsc 1 0 _))].
    eapply (lrun_vis _ _ (mkSys (mkSpsc 0 0 [Some 7; None]) (PWritten 7 0) CIdle) _ []);
      [|apply (p_publish 2 (mkSpsc 0 0 _))].
    eapply lrun_tau; [|apply (p_construct 2 (mkSpsc 0 0 [None; None]) CIdle 7 0)].
    eapply lrun_tau; [|apply (p_load_tail_room 2 (mkSpsc 0 0 _)); reflexivity].
    eapply lrun_tau; [|apply (p_load_head 2 (mkSpsc 0 0 _))].
    apply lrun_nil.
  - eauto.
Defined.
