(* ===== verification/CriticalRing.v ===== *)
(** * SingleCoreCriticalRing (include/coact/queue.hpp)

    The single-core backend: every operation runs inside one injected critical
    section, so an operation is one atomic step of the model. *)

From S2P Require Import Prelude Vocab QueueSpec.

Record CriticalRing (T : Type) := mkCR {
  write_index_ : Z;   (* uint16_t *)
  count_ : Z;         (* uint16_t *)
  cr_cells : list (option T)
}.
Arguments mkCR {T} write_index_ count_ cr_cells.
Arguments write_index_ {T} c.
Arguments count_ {T} c.
Arguments cr_cells {T} c.

Section critical_ring.
Context {T : Type} (C : Z).

Definition cr_ctor : CriticalRing T := mkCR 0 0 (replicate (Z.to_nat C) None).

(** [push_observed_impl], the body of the four push entry points. *)
Definition cr_push_observed (v : T) (q : CriticalRing T) : QueueResult * CriticalRing T :=
  if count_ q <? C
  then let index := u32 (write_index_ q + count_ q) in
       let q' := mkCR (write_index_ q) (u16 (count_ q + 1))
                      (<[Z.to_nat (index mod C) := Some v]> (cr_cells q)) in
       (mkQR true (count_ q'), q')
  else (mkQR false (count_ q), q).

Definition cr_try_push (v : T) (q : CriticalRing T) : bool * CriticalRing T :=
  let '(r, q') := cr_push_observed v q in (success r, q').

Definition cr_try_pop (q : CriticalRing T) : bool * option T * CriticalRing T :=
  if 0 <? count_ q
  then let i := Z.to_nat (write_index_ q) in
       (true, mjoin (cr_cells q !! i),
        mkCR (u16 (u32 (write_index_ q + 1) mod C)) (u16 (count_ q - 1))
             (<[i := None]> (cr_cells q)))
  else (false, None, q).

Definition cr_size (q : CriticalRing T) : Z := count_ q.

Definition cr_has_ready (q : CriticalRing T) : bool := negb (cr_size q =? 0).

Definition cr_front (q : CriticalRing T) : option T :=
  if 0 <? count_ q then mjoin (cr_cells q !! Z.to_nat (write_index_ q)) else None.

(** The destructor: ends the lifetime of [count] slots from [write_index]. *)
Definition cr_dtor (q : CriticalRing T) : CriticalRing T :=
  mkCR 0 0
    (foldl (fun cells (offset : nat) =>
              <[Z.to_nat (u16 (u32 (write_index_ q + Z.of_nat offset) mod C)) := None]> cells)
           (cr_cells q) (seq 0 (Z.to_nat (count_ q)))).

Definition cr_repr (n : nat) (q : CriticalRing T) (l : list T) : Prop :=
  0 < C < 2 ^ 16 /\ 0 <= write_index_ q < C /\ count_ q = Z.of_nat (length l) /\
  ring_at C (cr_cells q) (write_index_ q) l.

Lemma cr_ctor_repr n : 0 < C < 2 ^ 16 -> cr_repr n cr_ctor [].
Proof. intros HC. split_and!; try (simpl; lia). apply ring_at_empty. lia. Qed.

Lemma cr_bound n q l : cr_repr n q l -> Z.of_nat (length l) <= C.
Proof. intros (HC & _ & _ & _ & Hl & _). lia. Qed.

Lemma pos_small (x : Z) : 0 <= x < C -> pos C x = Z.to_nat x.
Proof. intros. unfold pos. by rewrite Z.mod_small. Qed.

Lemma cr_push_ok n n' q l v :
  cr_repr n q l -> Z.of_nat (length l) < C ->
  exists q', cr_try_push v q = (true, q') /\ cr_repr n' q' (l ++ [v]).
Proof.
  intros Hq Hlt. pose proof Hq as (HC & Hw & Hc & Hr).
  unfold cr_try_push, cr_push_observed. rewrite (proj2 (Z.ltb_lt _ _)) by lia.
  eexists. split; [done|]. split_and!; simpl; try lia.
  - rewrite Hc, length_app, wrap_small; simpl; unfold in_u; lia.
  - rewrite (wrap_small 32) by (unfold in_u; lia). rewrite Hc.
    apply ring_at_push; [lia|done|lia].
Qed.

Lemma cr_push_full n q l v :
  cr_repr n q l -> Z.of_nat (length l) = C -> cr_try_push v q = (false, q).
Proof.
  intros (HC & Hw & Hc & Hr) Hl. unfold cr_try_push, cr_push_observed.
  by rewrite (proj2 (Z.ltb_ge _ _)) by lia.
Qed.

Lemma cr_pop_cons n q x l :
  cr_repr n q (x :: l) ->
  exists q', cr_try_pop q = (true, Some x, q') /\ cr_repr n q' l.
Proof.
  intros Hq. pose proof (cr_bound _ _ _ Hq) as Hb. simpl length in Hb.
  destruct Hq as (HC & Hw & Hc & Hr). unfold cr_try_pop. simpl length in Hc.
  rewrite (proj2 (Z.ltb_lt _ _)) by lia.
  rewrite (wrap_small 32) by (unfold in_u; lia).
  pose proof (Z.mod_pos_bound (write_index_ q + 1) C ltac:(lia)).
  rewrite (wrap_small 16 (_ mod C)) by (unfold in_u; lia).
  rewrite <- (pos_small (write_index_ q)) by done.
  rewrite (ring_at_head C ltac:(lia) _ _ _ _ Hr). eexists. split; [done|].
  split_and!; simpl; try lia.
  - rewrite Hc, wrap_small; unfold in_u; lia.
  - eapply ring_at_mod; [lia| |eapply ring_at_pop; [lia|done]].
    by rewrite Z.mod_mod by lia.
Qed.

Lemma cr_pop_nil n q : cr_repr n q [] -> cr_try_pop q = (false, None, q).
Proof. intros (HC & Hw & Hc & Hr). unfold cr_try_pop. by rewrite Hc. Qed.

Lemma cr_front_spec n q l : cr_repr n q l -> cr_front q = head l.
Proof.
  intros (HC & Hw & Hc & Hr). unfold cr_front. rewrite Hc. destruct l as [|x l]; [done|].
  rewrite (proj2 (Z.ltb_lt _ _)) by (simpl; lia).
  rewrite <- (pos_small (write_index_ q)) by done.
  by rewrite (ring_at_head C ltac:(lia) _ _ _ _ Hr).
Qed.

Lemma cr_size_spec n q l : cr_repr n q l -> cr_size q = Z.of_nat (length l).
Proof. by intros (_ & _ & Hc & _). Qed.

Lemma cr_ready_spec n q l : cr_repr n q l -> cr_has_ready q = negb (bool_decide (l = [])).
Proof.
  intros Hq. unfold cr_has_ready. rewrite (cr_size_spec _ _ _ Hq). by destruct l.
Qed.

(** The slots of [l] are destroyed one by one, in order. *)
Lemma cr_dtor_repr n q l : cr_repr n q l -> cr_repr n (cr_dtor q) [].
Proof.
  intros (HC & Hw & Hc & Hr). split_and!; try (simpl; lia).
  unfold cr_dtor. simpl. rewrite Hc, Nat2Z.id. clear Hc.
  assert (Hgen : forall (l : list T) (k : nat) cells,
    ring_at C cells (write_index_ q + Z.of_nat k) l ->
    (k + length l <= Z.to_nat C)%nat ->
    ring_at C (foldl (fun cells (offset : nat) =>
       <[Z.to_nat (u16 (u32 (write_index_ q + Z.of_nat offset) mod C)) := None]> cells)
       cells (seq k (length l))) (write_index_ q + Z.of_nat (k + length l)) []).
  { clear l Hr. intros l. induction l as [|x l IH]; intros k cells Hr Hk; simpl.
    - by rewrite Nat.add_0_r.
    - simpl in Hk. rewrite (wrap_small 32) by (unfold in_u; lia).
      pose proof (Z.mod_pos_bound (write_index_ q + Z.of_nat k) C ltac:(lia)).
      rewrite wrap_small by (unfold in_u; lia). rewrite <- Nat.add_succ_comm.
      apply IH; [|lia]. replace (write_index_ q + Z.of_nat (S k)) with
        (write_index_ q + Z.of_nat k + 1) by lia. by apply (ring_at_pop C ltac:(lia) _ _ x). }
  pose proof Hr as (_ & Hl & _).
  assert (Hz := Hgen l 0%nat (cr_cells q) ltac:(by rewrite Z.add_0_r) ltac:(lia)).
  destruct Hz as (H1 & H2 & H3). split_and!; [done..|]. intros i Hi.
  set (w := write_index_ q + Z.of_nat (0 + length l)) in *.
  assert (Hex : exists j : nat, (j < Z.to_nat C)%nat /\ pos C (w + Z.of_nat j) = pos C (0 + Z.of_nat i)).
  { exists (Z.to_nat ((Z.of_nat i - w) mod C)).
    pose proof (Z.mod_pos_bound (Z.of_nat i - w) C ltac:(lia)).
    split; [lia|]. unfold pos. f_equal. rewrite Z2Nat.id by lia.
    rewrite Zplus_mod_idemp_r. f_equal. lia. }
  destruct Hex as (j & Hj & Hjp). rewrite <- Hjp. by rewrite (H3 j Hj).
Qed.

#[export] Instance cr_backend : QueueBackend C T (CriticalRing T) := {
  q_try_push := cr_try_push;
  q_try_pop q := let '(ok, v, q') := cr_try_pop q in (if ok then v else None, q');
  q_front := cr_front;
  q_size := cr_size;
  q_has_ready := cr_has_ready
}.

Lemma cr_q_push_full n q l v :
  cr_repr n q l -> Z.of_nat (length l) = C ->
  exists q', q_try_push v q = (false, q') /\ cr_repr n q' l.
Proof. intros Hq Hl. exists q. split; [by eapply cr_push_full|done]. Qed.

Lemma cr_q_pop_cons n q x l :
  cr_repr n q (x :: l) -> exists q', q_try_pop q = (Some x, q') /\ cr_repr n q' l.
Proof.
  intros Hq. destruct (cr_pop_cons _ _ _ _ Hq) as (q' & Heq & Hq').
  exists q'. simpl. by rewrite Heq.
Qed.

Lemma cr_q_pop_nil n q :
  cr_repr n q [] -> exists q', q_try_pop q = (None, q') /\ cr_repr n q' [].
Proof. intros Hq. exists q. simpl. by rewrite (cr_pop_nil _ _ Hq). Qed.

#[export] Instance cr_laws : FifoLaws C T (CriticalRing T) := {|
  fifo_repr := cr_repr;
  fifo_mono n m q l _ Hq := Hq;
  fifo_bound := cr_bound;
  fifo_push_ok n := cr_push_ok (S n) n;
  fifo_push_full := cr_q_push_full;
  fifo_pop_cons := cr_q_pop_cons;
  fifo_pop_nil := cr_q_pop_nil;
  fifo_front := cr_front_spec;
  fifo_size := cr_size_spec;
  fifo_ready := cr_ready_spec
|}.

End critical_ring.

(** Whatever sequence of pushes, pops, peeks and size queries runs on a
    freshly built SingleCoreCriticalRing, every answer is the answer of a FIFO
    list bounded by the capacity, and the ring still represents that list. *)
Theorem critical_ring_refines_fifo {T} (C : Z) (ops : list (qop T)) :
  0 < C < 2 ^ 16 ->
  (script (backend_op C) ops (cr_ctor C)).1 = (script (list_op C) ops []).1 /\
  cr_repr C 0 (script (backend_op C) ops (cr_ctor C)).2 (script (list_op C) ops []).2.
Proof.
  intros HC. refine (script_refines (C := C) (Q := CriticalRing T) ops (cr_ctor C) [] _).
  by apply cr_ctor_repr.
Qed.

(** Capacity 2, four pushes: the third is refused, then the order is kept. *)
Lemma critical_ring_refines_fifo_witness :
  let ops := [OpPush 1; OpPush 2; OpPush 3; OpPop; OpPush 4; OpPop; OpPop; OpPop] in
  (script (backend_op 2) ops (cr_ctor 2)).1 =
    [ABool true; ABool true; ABool false; AVal (Some 1); ABool true;
     AVal (Some 2); AVal (Some 4); AVal None].
Proof.
  intros ops. destruct (critical_ring_refines_fifo 2 ops) as [-> _]; [lia|]. reflexivity.
Defined.
