(* ===== verification/Mpsc.v ===== *)
(** * BoundedMpscQueue (include/coact/queue.hpp)

    The SMP backend.  Producers claim a Free cell, construct, stamp and
    publish; the consumer serves the Ready cell with the smallest ticket.
    This file has the operations as they run alone and the queue contract;
    [MpscConc.v] has their interleavings. *)

From Stdlib Require Import Sorting.Sorted.
From S2P Require Import Prelude Vocab QueueSpec.

Inductive CellState := kFree | kWriting | kReady | kConsuming.

#[export] Instance CellState_eq_dec : EqDecision CellState.
Proof. solve_decision. Defined.

Record MpscCell (T : Type) := mkCell {
  storage : option T;   (* [None]: no object in the storage *)
  state : CellState;
  ticket : Z            (* uint64_t *)
}.
Arguments mkCell {T} storage state ticket.
Arguments storage {T} m.
Arguments state {T} m.
Arguments ticket {T} m.

Record MpscQueue (T : Type) := mkMpsc {
  producer_probe_ : Z;       (* uint32_t *)
  publication_ticket_ : Z;   (* uint64_t *)
  cells : list (MpscCell T)
}.
Arguments mkMpsc {T} producer_probe_ publication_ticket_ cells.
Arguments producer_probe_ {T} m.
Arguments publication_ticket_ {T} m.
Arguments cells {T} m.

Definition is_state {T} (st : CellState) (c : MpscCell T) : bool := bool_decide (state c = st).

Section mpsc.
Context {T : Type} (C : Z).

Definition mpsc_ctor : MpscQueue T :=
  mkMpsc 0 0 (replicate (Z.to_nat C) (mkCell None kFree 0)).

(** The cell the producer probes at [offset] from its start. *)
Definition probe_index (start : Z) (offset : nat) : nat :=
  Z.to_nat (u16 (u32 (start + Z.of_nat offset) mod C)).

(** The claim loop: the first probed cell whose CAS from [kFree] succeeds. *)
Definition claim_scan (start : Z) (cs : list (MpscCell T)) : option nat :=
  k ← find_idx (fun k => match cs !! probe_index start k with
                         | Some c => is_state kFree c
                         | None => false
                         end) (seq 0 (Z.to_nat C));
  Some (probe_index start k).

Definition push_impl (v : T) (q : MpscQueue T) : bool * MpscQueue T :=
  let start := producer_probe_ q in
  let probe := u32 (start + 1) in
  match claim_scan start (cells q) with
  | Some index =>
      (true, mkMpsc probe (u64 (publication_ticket_ q + 1))
               (<[index := mkCell (Some v) kReady (publication_ticket_ q)]> (cells q)))
  | None => (false, mkMpsc probe (publication_ticket_ q) (cells q))
  end.

(** One iteration of the scan in [oldest_ready_index]. *)
Definition oldest_pick (acc : option (nat * Z)) (index : nat) (c : MpscCell T) : option (nat * Z) :=
  if is_state kReady c
  then match acc with
       | None => Some (index, ticket c)
       | Some (_, oldest_ticket) =>
           if ticket c <? oldest_ticket then Some (index, ticket c) else acc
       end
  else acc.

Fixpoint oldest_scan (index : nat) (cs : list (MpscCell T)) (acc : option (nat * Z)) : option (nat * Z) :=
  match cs with
  | [] => acc
  | c :: cs => oldest_scan (S index) cs (oldest_pick acc index c)
  end.

(** [None] stands for the returned [Capacity]. *)
Definition oldest_ready_index (q : MpscQueue T) : option nat :=
  fst <$> oldest_scan 0 (cells q) None.

Definition mpsc_has_ready (q : MpscQueue T) : bool :=
  match oldest_ready_index q with Some _ => true | None => false end.

Definition mpsc_front (q : MpscQueue T) : option T :=
  index ← oldest_ready_index q; c ← cells q !! index; storage c.

Definition pop_ready (q : MpscQueue T) : bool * option T * MpscQueue T :=
  match oldest_ready_index q with
  | None => (false, None, q)
  | Some index =>
      match cells q !! index with
      | None => (false, None, q)
      | Some c => (true, storage c,
                   mkMpsc (producer_probe_ q) (publication_ticket_ q)
                     (<[index := mkCell None kFree (ticket c)]> (cells q)))
      end
  end.

Definition mpsc_size (q : MpscQueue T) : Z :=
  Z.of_nat (countb (fun c => negb (is_state kFree c)) (cells q)).

(** The destructor: ends the lifetime of the object of every non-Free cell. *)
Definition destroy_live_cells (q : MpscQueue T) : MpscQueue T :=
  mkMpsc (producer_probe_ q) (publication_ticket_ q)
    ((fun c => if is_state kFree c then c else mkCell None (state c) (ticket c)) <$> cells q).

(** ** The quiescent invariant

    [es] lists the Ready cells in serving order: index, ticket, payload. *)

Definition e_idx (e : nat * Z * T) : nat := e.1.1.
Definition e_tk (e : nat * Z * T) : Z := e.1.2.
Definition e_val (e : nat * Z * T) : T := e.2.
Definition cell_of (e : nat * Z * T) : MpscCell T := mkCell (Some (e_val e)) kReady (e_tk e).

Record mpsc_inv (q : MpscQueue T) (es : list (nat * Z * T)) : Prop := {
  inv_len : length (cells q) = Z.to_nat C;
  inv_idx : NoDup (e_idx <$> es);
  inv_sorted : StronglySorted Z.lt (e_tk <$> es);
  inv_below : Forall (fun e => 0 <= e_tk e < publication_ticket_ q) es;
  inv_ready : Forall (fun e => cells q !! e_idx e = Some (cell_of e)) es;
  inv_free : forall i c, cells q !! i = Some c -> i ∉ e_idx <$> es ->
               state c = kFree /\ storage c = None
}.

Definition mpsc_repr (n : nat) (q : MpscQueue T) (l : list T) : Prop :=
  0 < C < 2 ^ 16 /\ (C | 2 ^ 32) /\
  0 <= publication_ticket_ q /\ publication_ticket_ q + Z.of_nat n < 2 ^ 64 /\
  exists es, l = e_val <$> es /\ mpsc_inv q es.

Lemma mpsc_ctor_repr n : 0 < C < 2 ^ 16 -> (C | 2 ^ 32) -> Z.of_nat n < 2 ^ 64 -> mpsc_repr n mpsc_ctor [].
Proof.
  intros HC Hd Hn. split_and!; simpl; try done; try lia. exists []. split; [done|].
  constructor; simpl; [apply length_replicate|constructor..|].
  intros i c H. apply lookup_replicate in H as [-> _]. done.
Qed.

Lemma e_idx_lt q es e : mpsc_inv q es -> e ∈ es -> (e_idx e < Z.to_nat C)%nat.
Proof.
  intros Hi He. rewrite <- (inv_len _ _ Hi). eapply lookup_lt_Some.
  by apply (proj1 (Forall_forall _ _) (inv_ready _ _ Hi)).
Qed.

Lemma inv_bound q es : mpsc_inv q es -> (length es <= Z.to_nat C)%nat.
Proof.
  intros Hi. rewrite <- (length_fmap e_idx), <- (length_seq (Z.to_nat C) 0).
  apply submseteq_length, NoDup_submseteq; [apply Hi|].
  intros i Hin. apply list_elem_of_fmap in Hin as (e & -> & He).
  apply elem_of_seq. pose proof (e_idx_lt _ _ _ Hi He). lia.
Qed.

Lemma inv_cell_cases q es i c :
  mpsc_inv q es -> cells q !! i = Some c ->
  (exists e, e ∈ es /\ e_idx e = i /\ c = cell_of e) \/
  (i ∉ e_idx <$> es /\ state c = kFree /\ storage c = None).
Proof.
  intros Hi Hc. destruct (decide (i ∈ e_idx <$> es)) as [Hin|Hn].
  - apply list_elem_of_fmap in Hin as (e & -> & He). left. exists e. split_and!; [done..|].
    pose proof (proj1 (Forall_forall _ _) (inv_ready _ _ Hi) e He) as Hr. simpl in Hr. congruence.
  - right. split; [done|]. by apply (inv_free _ _ Hi i).
Qed.

(** ** The consumer's scan *)

Lemma oldest_pick_min acc index c r :
  oldest_pick acc index c = r ->
  (forall o tk, acc = Some (o, tk) -> exists o' tk', r = Some (o', tk') /\ tk' <= tk) /\
  (state c = kReady -> exists o' tk', r = Some (o', tk') /\ tk' <= ticket c).
Proof.
  intros <-. unfold oldest_pick, is_state. case_bool_decide.
  - destruct acc as [[o tk]|]; [|naive_solver lia].
    destruct (Z.ltb_spec (ticket c) tk); naive_solver lia.
  - split; [|done]. intros o tk ->. naive_solver lia.
Qed.

Lemma oldest_scan_spec cs index acc r :
  oldest_scan index cs acc = r ->
  (forall o tk, acc = Some (o, tk) -> exists o' tk', r = Some (o', tk') /\ tk' <= tk) /\
  (forall i c, cs !! i = Some c -> state c = kReady ->
     exists o' tk', r = Some (o', tk') /\ tk' <= ticket c) /\
  (forall o tk, r = Some (o, tk) -> acc = Some (o, tk) \/
     exists i c, o = (index + i)%nat /\ cs !! i = Some c /\ state c = kReady /\ ticket c = tk).
Proof.
  revert index acc. induction cs as [|c cs IH]; intros index acc Hr; simpl in Hr.
  - subst r. split_and!; [naive_solver lia|intros; simplify_eq/=|eauto].
  - destruct (IH _ _ Hr) as (H1 & H2 & H3).
    destruct (oldest_pick_min acc index c _ eq_refl) as [P1 P2]. split_and!.
    + intros o tk ->. destruct (P1 _ _ eq_refl) as (o' & tk' & Ho & Hle).
      destruct (H1 _ _ Ho) as (o2 & tk2 & -> & ?). eexists _, _. split; [done|lia].
    + intros [|i] c' Hc Hst; simplify_eq/=; [|eauto].
      destruct (P2 Hst) as (o' & tk' & Ho & Hle).
      destruct (H1 _ _ Ho) as (o2 & tk2 & -> & ?). eexists _, _. split; [done|lia].
    + intros o tk ->. destruct (H3 _ _ eq_refl) as [Hp|(i & c' & -> & Hc & Hst)].
      * unfold oldest_pick, is_state in Hp. case_bool_decide as Hst; [|by left].
        destruct acc as [[o0 tk0]|].
        -- destruct (ticket c <? tk0); [|by left]. simplify_eq. right. exists 0%nat, c.
           split_and!; [lia|done..].
        -- simplify_eq. right. exists 0%nat, c. split_and!; [lia|done..].
      * right. exists (S i), c'. split_and!; [lia|done|naive_solver..].
Qed.

Lemma oldest_nil q : mpsc_inv q [] -> oldest_ready_index q = None.
Proof.
  intros Hi. unfold oldest_ready_index.
  destruct (oldest_scan 0 (cells q) None) as [[o tk]|] eqn:Hs; [|done].
  destruct (oldest_scan_spec _ _ _ _ Hs) as (_ & _ & H3).
  destruct (H3 o tk eq_refl) as [?|(i & c & _ & Hc & Hst & _)]; [done|].
  destruct (inv_free _ _ Hi i c Hc) as [Hf _]; [apply not_elem_of_nil|]. congruence.
Qed.

Lemma oldest_cons q e es : mpsc_inv q (e :: es) -> oldest_ready_index q = Some (e_idx e).
Proof.
  intros Hi. unfold oldest_ready_index.
  destruct (oldest_scan_spec (cells q) 0 None _ eq_refl) as (_ & H2 & H3).
  pose proof (inv_ready _ _ Hi) as Hr. inversion Hr as [|? ? He _]; subst.
  destruct (H2 _ _ He eq_refl) as (o & tk & Hs & Hle). rewrite Hs in *. simpl. f_equal.
  destruct (H3 o tk eq_refl) as [?|(i & c & -> & Hc & Hst & Htk)]; [done|]. simpl in *.
  destruct (inv_cell_cases _ _ _ _ Hi Hc) as [(e' & He' & <- & ->)|(_ & ? & _)]; [|congruence].
  apply elem_of_cons in He' as [->|He']; [done|]. simpl in Htk.
  pose proof (inv_sorted _ _ Hi) as Hs'. simpl in Hs'. apply StronglySorted_inv in Hs' as [_ Hall].
  rewrite Forall_forall in Hall. specialize (Hall (e_tk e')).
  assert (e_tk e < e_tk e') by (apply Hall, list_elem_of_fmap; eauto). lia.
Qed.

(** ** The producer's scan *)

Lemma probe_lt start k : 0 < C < 2 ^ 16 -> (probe_index start k < Z.to_nat C)%nat.
Proof.
  intros HC. unfold probe_index. pose proof (Z.mod_pos_bound (u32 (start + Z.of_nat k)) C ltac:(lia)).
  rewrite wrap_small by (unfold in_u; lia). lia.
Qed.

Lemma claim_scan_Some start cs i :
  claim_scan start cs = Some i -> exists c, cs !! i = Some c /\ state c = kFree.
Proof.
  unfold claim_scan. intros H. destruct (find_idx _ _) as [k|] eqn:Hk; [|done]. simplify_eq/=.
  apply find_idx_Some in Hk as (k' & Hk' & Hp & _). apply lookup_seq in Hk' as [-> _]. simpl in Hp.
  destruct (cs !! probe_index start k) as [c|] eqn:Hc; [|done].
  exists c. split; [done|]. unfold is_state in Hp. by case_bool_decide.
Qed.

(** When the capacity divides 2^32 the probes of one scan visit every cell,
    also across the wrap of the 32-bit probe counter. *)
Lemma claim_scan_finds start cs i c :
  0 < C < 2 ^ 16 -> (C | 2 ^ 32) -> (i < Z.to_nat C)%nat ->
  cs !! i = Some c -> state c = kFree -> exists j, claim_scan start cs = Some j.
Proof.
  intros HC Hd Hi Hc Hf. unfold claim_scan.
  set (p := fun k => match cs !! probe_index start k with
                     | Some c => is_state kFree c | None => false end).
  set (k := Z.to_nat ((Z.of_nat i - start) mod C)).
  pose proof (Z.mod_pos_bound (Z.of_nat i - start) C ltac:(lia)).
  assert (Hk : probe_index start k = i).
  { unfold probe_index, wrap at 2. rewrite Z.mod_mod_divide by done.
    unfold k. rewrite Z2Nat.id by lia. rewrite Zplus_mod_idemp_r.
    replace (start + (Z.of_nat i - start)) with (Z.of_nat i) by lia.
    rewrite Z.mod_small by lia. rewrite wrap_small by (unfold in_u; lia). lia. }
  destruct (find_idx_is_Some p (seq 0 (Z.to_nat C)) k k) as (j & -> & _).
  - apply lookup_seq. unfold k. lia.
  - unfold p. rewrite Hk, Hc. unfold is_state. by case_bool_decide.
  - simpl. eauto.
Qed.

(** ** The queue contract *)

Lemma mpsc_mono n m q l : (n <= m)%nat -> mpsc_repr m q l -> mpsc_repr n q l.
Proof. intros Hle (H1 & H2 & H3 & H4 & H5). split_and!; try done; lia. Qed.

Lemma mpsc_bound n q l : mpsc_repr n q l -> Z.of_nat (length l) <= C.
Proof.
  intros (HC & _ & _ & _ & es & -> & Hi). rewrite length_fmap.
  pose proof (inv_bound _ _ Hi). lia.
Qed.

(** A free cell exists exactly when fewer than [C] payloads are queued. *)
Lemma free_cell_exists q es :
  mpsc_inv q es -> (length es < Z.to_nat C)%nat ->
  exists i c, (i < Z.to_nat C)%nat /\ cells q !! i = Some c /\ i ∉ e_idx <$> es.
Proof.
  intros Hi Hlt.
  destruct (decide (Forall (fun i => i ∈ e_idx <$> es) (seq 0 (Z.to_nat C)))) as [Hall|Hex].
  - exfalso. assert (Z.to_nat C <= length es)%nat; [|lia].
    rewrite <- (length_fmap e_idx), <- (length_seq (Z.to_nat C) 0).
    apply submseteq_length, NoDup_submseteq; [apply NoDup_ListNoDup, seq_NoDup|].
    intros i Hin. by apply (proj1 (Forall_forall _ _) Hall).
  - apply not_Forall_Exists, Exists_exists in Hex as (i & Hin & Hn); [|apply _].
    apply elem_of_seq in Hin.
    destruct (lookup_lt_is_Some_2 (cells q) i) as [c Hc]; [rewrite (inv_len _ _ Hi); lia|].
    exists i, c. split_and!; [lia|done..].
Qed.

Lemma StronglySorted_snoc (l : list Z) x :
  StronglySorted Z.lt l -> Forall (fun y => y < x) l -> StronglySorted Z.lt (l ++ [x]).
Proof.
  induction 1 as [|y l Hs IH Hall]; intros Hx; simpl; [repeat constructor|].
  inversion Hx; subst. constructor; [auto|].
  apply Forall_app. split; [done|]. by constructor.
Qed.

Lemma inv_push q es i c v probe :
  mpsc_inv q es -> cells q !! i = Some c -> state c = kFree ->
  0 <= publication_ticket_ q < 2 ^ 64 - 1 ->
  mpsc_inv (mkMpsc probe (u64 (publication_ticket_ q + 1))
              (<[i := mkCell (Some v) kReady (publication_ticket_ q)]> (cells q)))
           (es ++ [(i, publication_ticket_ q, v)]).
Proof.
  intros Hi Hc Hf Hp. rewrite wrap_small by (unfold in_u; lia).
  assert (Hni : i ∉ e_idx <$> es).
  { destruct (inv_cell_cases _ _ _ _ Hi Hc) as [(e & _ & _ & ->)|[? _]]; [done|done]. }
  pose proof (lookup_lt_Some _ _ _ Hc) as Hlt. destruct Hi as [Hlen Hnd Hs Hb Hr Hfr].
  constructor; simpl.
  - by rewrite length_insert.
  - rewrite fmap_app. apply NoDup_app. split_and!; [done| |apply NoDup_singleton].
    intros j Hj Hj'. apply list_elem_of_singleton in Hj' as ->. by apply Hni.
  - rewrite fmap_app. apply StronglySorted_snoc; [done|].
    apply Forall_fmap. eapply Forall_impl; [exact Hb|]. intros e ?. unfold compose, e_tk in *. simpl in *. lia.
  - apply Forall_app. split; [|constructor; [unfold e_tk; simpl; lia|constructor]].
    eapply Forall_impl; [exact Hb|]. simpl. intros; lia.
  - apply Forall_app. split.
    + apply Forall_forall. intros e He. rewrite list_lookup_insert_ne.
      * by apply (proj1 (Forall_forall _ _) Hr).
      * intros ->. apply Hni, list_elem_of_fmap; eauto.
    + constructor; [|constructor]. unfold e_idx; simpl. by rewrite list_lookup_insert_eq.
  - intros j cj Hj Hnj. rewrite fmap_app, not_elem_of_app in Hnj. destruct Hnj as [Hnj Hne].
    rewrite list_lookup_insert_ne in Hj; [by apply (Hfr j)|].
    intros ->. apply Hne. apply list_elem_of_singleton. done.
Qed.

Lemma mpsc_push_ok n q l v :
  mpsc_repr (S n) q l -> Z.of_nat (length l) < C ->
  exists q', push_impl v q = (true, q') /\ mpsc_repr n q' (l ++ [v]).
Proof.
  intros (HC & Hd & Hp & Hn & es & -> & Hi) Hlt. rewrite length_fmap in Hlt.
  destruct (free_cell_exists _ _ Hi ltac:(lia)) as (i0 & c0 & Hi0 & Hc0 & Hn0).
  destruct (inv_free _ _ Hi _ _ Hc0 Hn0) as [Hf0 _].
  destruct (claim_scan_finds (producer_probe_ q) _ _ _ HC Hd Hi0 Hc0 Hf0) as [i Hs].
  destruct (claim_scan_Some _ _ _ Hs) as (c & Hc & Hf).
  unfold push_impl. rewrite Hs. eexists. split; [done|]. split_and!; simpl; try done; try lia.
  - apply wrap_range. lia.
  - rewrite wrap_small by (unfold in_u; lia). lia.
  - exists (es ++ [(i, publication_ticket_ q, v)]). rewrite fmap_app. split; [done|].
    eapply inv_push; [done..|lia].
Qed.

Lemma mpsc_push_full n q l v :
  mpsc_repr n q l -> Z.of_nat (length l) = C ->
  exists q', push_impl v q = (false, q') /\ mpsc_repr n q' l.
Proof.
  intros (HC & Hd & Hp & Hn & es & -> & Hi) Hl. rewrite length_fmap in Hl.
  unfold push_impl. destruct (claim_scan _ _) as [i|] eqn:Hs.
  - exfalso. destruct (claim_scan_Some _ _ _ Hs) as (c & Hc & Hf).
    destruct (inv_cell_cases _ _ _ _ Hi Hc) as [(e & _ & _ & ->)|[Hni _]]; [done|].
    assert (S (length es) <= Z.to_nat C)%nat; [|lia].
    rewrite <- (length_fmap e_idx), <- (length_seq (Z.to_nat C) 0).
    apply (submseteq_length (i :: (e_idx <$> es))), NoDup_submseteq.
    + constructor; [done|apply Hi].
    + intros j Hj. apply elem_of_seq. apply elem_of_cons in Hj as [->|Hj].
      * apply lookup_lt_Some in Hc. rewrite (inv_len _ _ Hi) in Hc. lia.
      * apply list_elem_of_fmap in Hj as (e & -> & He). pose proof (e_idx_lt _ _ _ Hi He). lia.
  - eexists. split; [done|]. split_and!; simpl; try done; try lia.
    exists es. split; [done|]. destruct Hi. by constructor.
Qed.

Lemma mpsc_pop_cons n q x l :
  mpsc_repr n q (x :: l) ->
  exists q', pop_ready q = (true, Some x, q') /\ mpsc_repr n q' l.
Proof.
  intros (HC & Hd & Hp & Hn & es & Hl & Hi). destruct es as [|e es]; [done|].
  simplify_eq/=. unfold pop_ready. rewrite (oldest_cons _ _ _ Hi).
  pose proof (inv_ready _ _ Hi) as Hr. inversion Hr as [|? ? He Hres]; subst. rewrite He.
  eexists. split; [done|]. split_and!; simpl; try done; try lia.
  exists es. split; [done|]. destruct Hi as [Hlen Hnd Hs Hb _ Hfr]. simpl in *.
  apply NoDup_cons in Hnd as [Hne Hnd]. apply StronglySorted_inv in Hs as [Hs _].
  inversion Hb; subst. pose proof (lookup_lt_Some _ _ _ He).
  constructor; simpl; try done.
  - by rewrite length_insert.
  - apply Forall_forall. intros e' He'. rewrite list_lookup_insert_ne.
    + by apply (proj1 (Forall_forall _ _) Hres).
    + intros Heq. apply Hne. rewrite Heq. apply list_elem_of_fmap; eauto.
  - intros j c Hj Hnj. destruct (decide (j = e_idx e)) as [->|Hje].
    + rewrite list_lookup_insert_eq in Hj by done. by simplify_eq.
    + rewrite list_lookup_insert_ne in Hj by done. apply (Hfr j c Hj).
      rewrite not_elem_of_cons. done.
Qed.

Lemma mpsc_pop_nil n q : mpsc_repr n q [] -> pop_ready q = (false, None, q).
Proof.
  intros (_ & _ & _ & _ & es & Hl & Hi). destruct es; [|done].
  unfold pop_ready. by rewrite (oldest_nil _ Hi).
Qed.

Lemma mpsc_front_spec n q l : mpsc_repr n q l -> mpsc_front q = head l.
Proof.
  intros (_ & _ & _ & _ & es & -> & Hi). unfold mpsc_front. destruct es as [|e es].
  - by rewrite (oldest_nil _ Hi).
  - rewrite (oldest_cons _ _ _ Hi). simpl.
    pose proof (inv_ready _ _ Hi) as Hr. inversion Hr as [|? ? He _]; subst. by rewrite He.
Qed.

Lemma mpsc_ready_spec n q l : mpsc_repr n q l -> mpsc_has_ready q = negb (bool_decide (l = [])).
Proof.
  intros (_ & _ & _ & _ & es & -> & Hi). unfold mpsc_has_ready. destruct es as [|e es].
  - by rewrite (oldest_nil _ Hi).
  - by rewrite (oldest_cons _ _ _ Hi).
Qed.

Lemma mpsc_size_spec n q l : mpsc_repr n q l -> mpsc_size q = Z.of_nat (length l).
Proof.
  intros (_ & _ & _ & _ & es & -> & Hi). unfold mpsc_size. f_equal.
  rewrite length_fmap, <- (length_fmap e_idx). apply countb_indices; [apply Hi|].
  intros i. split.
  - intros (e & -> & He)%list_elem_of_fmap.
    pose proof (proj1 (Forall_forall _ _) (inv_ready _ _ Hi) e He) as Hr. simpl in Hr. eauto.
  - intros (c & Hc & Hp). destruct (inv_cell_cases _ _ _ _ Hi Hc) as [(e & He & <- & _)|(_ & Hf & _)].
    + apply list_elem_of_fmap; eauto.
    + unfold is_state in Hp. by rewrite bool_decide_eq_true_2 in Hp.
Qed.

#[export] Instance mpsc_backend : QueueBackend C T (MpscQueue T) := {
  q_try_push := push_impl;
  q_try_pop q := let '(ok, v, q') := pop_ready q in (if ok then v else None, q');
  q_front := mpsc_front;
  q_size := mpsc_size;
  q_has_ready := mpsc_has_ready
}.

Lemma mpsc_q_pop_cons n q x l :
  mpsc_repr n q (x :: l) -> exists q', q_try_pop q = (Some x, q') /\ mpsc_repr n q' l.
Proof.
  intros Hq. destruct (mpsc_pop_cons _ _ _ _ Hq) as (q' & Heq & Hq').
  exists q'. simpl. by rewrite Heq.
Qed.

Lemma mpsc_q_pop_nil n q :
  mpsc_repr n q [] -> exists q', q_try_pop q = (None, q') /\ mpsc_repr n q' [].
Proof. intros Hq. exists q. simpl. by rewrite (mpsc_pop_nil _ _ Hq). Qed.

#[export] Instance mpsc_laws : FifoLaws C T (MpscQueue T) := {|
  fifo_repr := mpsc_repr;
  fifo_mono := mpsc_mono;
  fifo_bound := mpsc_bound;
  fifo_push_ok := mpsc_push_ok;
  fifo_push_full := mpsc_push_full;
  fifo_pop_cons := mpsc_q_pop_cons;
  fifo_pop_nil := mpsc_q_pop_nil;
  fifo_front := mpsc_front_spec;
  fifo_size := mpsc_size_spec;
  fifo_ready := mpsc_ready_spec
|}.

End mpsc.

(** A quiescent BoundedMpscQueue whose capacity divides 2^32 answers every
    sequence of calls like a FIFO list bounded by the capacity, as long as the
    64-bit publication ticket does not wrap: the smallest-ticket scan serves
    the oldest payload, the probe scan finds a free cell whenever one is left,
    also across the wrap of the 32-bit probe counter. *)
Theorem mpsc_refines_fifo {T} (C probe : Z) (ops : list (qop T)) :
  0 < C < 2 ^ 16 -> (C | 2 ^ 32) -> Z.of_nat (pushes ops) < 2 ^ 64 ->
  let q0 := mkMpsc probe 0 (cells (mpsc_ctor C)) in
  (script (backend_op C) ops q0).1 = (script (list_op C) ops []).1 /\
  mpsc_repr C 0 (script (backend_op C) ops q0).2 (script (list_op C) ops []).2.
Proof.
  intros HC Hd Hn q0. refine (script_refines (C := C) (Q := MpscQueue T) ops q0 [] _).
  destruct (mpsc_ctor_repr (T := T) C (pushes ops) HC Hd Hn) as (H1 & H2 & H3 & H4 & es & He & Hi).
  split_and!; try done; try lia. exists es. split; [done|]. destruct Hi. by constructor.
Qed.

(** A capacity of 2, starting one push before the probe counter wraps. *)
Lemma mpsc_refines_fifo_witness :
  let ops := [OpPush 1; OpPush 2; OpPush 3; OpPop; OpPush 4; OpPop; OpPop] in
  (script (backend_op 2) ops (mkMpsc (2 ^ 32 - 1) 0 (cells (mpsc_ctor 2)))).1 =
    [ABool true; ABool true; ABool false; AVal (Some 1); ABool true; AVal (Some 2); AVal (Some 4)].
Proof.
  intros ops. destruct (mpsc_refines_fifo 2 (2 ^ 32 - 1) ops) as [-> _];
    [lia|by exists (2 ^ 31)|vm_compute; reflexivity|reflexivity].
Defined.

(** The capacity condition is needed.  [static_assert(Capacity > 0U)] is all the
    class asks; with three cells, when the probe counter stands at its last
    value, the scan visits cells 0, 0 and 1 and reports a full queue although
    cell 2 is free. *)
(** With capacity 3 and the 32-bit probe counter at its last value, the
    claim scan probes cells 0, 0 and 1: [try_push] fails on a queue that holds
    two of three elements. *)
Theorem mpsc_probe_wrap_skips_cell :
  let q := mkMpsc (2 ^ 32 - 1) 2 [mkCell (Some 10) kReady 0; mkCell (Some 11) kReady 1;
                                  mkCell None kFree 0] in
  map (probe_index 3 (2 ^ 32 - 1)) [0; 1; 2]%nat = [0; 0; 1]%nat /\
  mpsc_size q = 2 /\ (push_impl 3 12 q).1 = false /\
  (push_impl 3 12 (push_impl 3 12 q).2).1 = true.
Proof. repeat split; vm_compute; reflexivity. Qed.
