(* ===== verification/MpscConc.v ===== *)
(** * BoundedMpscQueue under concurrency (include/coact/queue.hpp)

    Any number of producers and the single consumer, interleaved at the
    granularity of the shared accesses of [push_impl], [oldest_ready_index]
    and [pop_ready].  The header of the class promises an unordered bag with
    one guarantee about emptiness; [bag_step] states it. *)

From stdpp Require Import functions.
From S2P Require Import Prelude Vocab QueueSpec Mpsc.

(** ** Threads *)

Inductive mpsc_producer (T : Type) :=
| MIdle
| MScan (v : T) (start : Z) (offset : nat)   (* probing the next cell *)
| MClaimed (v : T) (i : nat)                 (* CAS kFree -> kWriting won *)
| MBuilt (v : T) (i : nat)                   (* payload constructed *)
| MStamped (v : T) (i : nat) (tk : Z)        (* ticket drawn *)
| MTicketed (v : T) (i : nat).               (* ticket stored *)
Arguments MIdle {T}.
Arguments MScan {T} v start offset.
Arguments MClaimed {T} v i.
Arguments MBuilt {T} v i.
Arguments MStamped {T} v i tk.
Arguments MTicketed {T} v i.

Inductive mpsc_consumer (T : Type) :=
| KIdle
| KScan (i : nat) (acc : option (nat * Z))   (* scan of oldest_ready_index *)
| KSeen (i : nat) (acc : option (nat * Z))   (* state of cell [i] read as kReady *)
| KTake (o : nat)                            (* cell [o] set to kConsuming *)
| KTaken (o : nat) (out : option T).         (* payload moved out and destroyed *)
Arguments KIdle {T}.
Arguments KScan {T} i acc.
Arguments KSeen {T} i acc.
Arguments KTake {T} o.
Arguments KTaken {T} o out.

Record mpsc_sys (T : Type) := mkMSys {
  mq : MpscQueue T; pcs : nat -> mpsc_producer T; kpc : mpsc_consumer T
}.
Arguments mkMSys {T} mq pcs kpc.
Arguments mq {T} m.
Arguments pcs {T} m.
Arguments kpc {T} m.

Inductive mpsc_event (T : Type) :=
| VPush (v : T)          (* try_push returned true *)
| VFull (v : T)          (* try_push returned false *)
| VCall                  (* try_pop entered *)
| VPop (out : option T)  (* try_pop returned true with [out] *)
| VEmpty.                (* try_pop returned false *)
Arguments VPush {T} v.
Arguments VFull {T} v.
Arguments VCall {T}.
Arguments VPop {T} out.
Arguments VEmpty {T}.

Definition upd_cells {T} (q : MpscQueue T) (i : nat) (c : MpscCell T) : MpscQueue T :=
  mkMpsc (producer_probe_ q) (publication_ticket_ q) (<[i := c]> (cells q)).

Inductive mpsc_step {T} (C : Z) : mpsc_sys T -> option (mpsc_event T) -> mpsc_sys T -> Prop :=
| m_start q ps k t v :
    ps t = MIdle ->
    mpsc_step C (mkMSys q ps k) None
      (mkMSys (mkMpsc (u32 (producer_probe_ q + 1)) (publication_ticket_ q) (cells q))
              (<[t := MScan v (producer_probe_ q) 0]> ps) k)
| m_claim q ps k t v start off c :
    ps t = MScan v start off -> (off < Z.to_nat C)%nat ->
    cells q !! probe_index C start off = Some c -> state c = kFree ->
    mpsc_step C (mkMSys q ps k) None
      (mkMSys (upd_cells q (probe_index C start off) (mkCell (storage c) kWriting (ticket c)))
              (<[t := MClaimed v (probe_index C start off)]> ps) k)
| m_skip q ps k t v start off c :
    ps t = MScan v start off -> (off < Z.to_nat C)%nat ->
    cells q !! probe_index C start off = Some c -> state c <> kFree ->
    mpsc_step C (mkMSys q ps k) None (mkMSys q (<[t := MScan v start (S off)]> ps) k)
| m_full q ps k t v start :
    ps t = MScan v start (Z.to_nat C) ->
    mpsc_step C (mkMSys q ps k) (Some (VFull v)) (mkMSys q (<[t := MIdle]> ps) k)
| m_construct q ps k t v i c :
    ps t = MClaimed v i -> cells q !! i = Some c ->
    mpsc_step C (mkMSys q ps k) None
      (mkMSys (upd_cells q i (mkCell (Some v) (state c) (ticket c))) (<[t := MBuilt v i]> ps) k)
| m_stamp q ps k t v i :
    ps t = MBuilt v i ->
    mpsc_step C (mkMSys q ps k) None
      (mkMSys (mkMpsc (producer_probe_ q) (u64 (publication_ticket_ q + 1)) (cells q))
              (<[t := MStamped v i (publication_ticket_ q)]> ps) k)
| m_ticket q ps k t v i tk c :
    ps t = MStamped v i tk -> cells q !! i = Some c ->
    mpsc_step C (mkMSys q ps k) None
      (mkMSys (upd_cells q i (mkCell (storage c) (state c) tk)) (<[t := MTicketed v i]> ps) k)
| m_publish q ps k t v i c :
    ps t = MTicketed v i -> cells q !! i = Some c ->
    mpsc_step C (mkMSys q ps k) (Some (VPush v))
      (mkMSys (upd_cells q i (mkCell (storage c) kReady (ticket c))) (<[t := MIdle]> ps) k)
| k_call q ps :
    mpsc_step C (mkMSys q ps KIdle) (Some VCall) (mkMSys q ps (KScan 0 None))
| k_not_ready q ps i acc c :
    cells q !! i = Some c -> state c <> kReady ->
    mpsc_step C (mkMSys q ps (KScan i acc)) None (mkMSys q ps (KScan (S i) acc))
| k_ready q ps i acc c :
    cells q !! i = Some c -> state c = kReady ->
    mpsc_step C (mkMSys q ps (KScan i acc)) None (mkMSys q ps (KSeen i acc))
| k_ticket q ps i acc c :
    cells q !! i = Some c ->
    mpsc_step C (mkMSys q ps (KSeen i acc)) None
      (mkMSys q ps (KScan (S i)
         (match acc with
          | None => Some (i, ticket c)
          | Some (_, otk) => if ticket c <? otk then Some (i, ticket c) else acc
          end)))
| k_empty q ps :
    mpsc_step C (mkMSys q ps (KScan (Z.to_nat C) None)) (Some VEmpty) (mkMSys q ps KIdle)
| k_select q ps o tk c :
    cells q !! o = Some c ->
    mpsc_step C (mkMSys q ps (KScan (Z.to_nat C) (Some (o, tk)))) None
      (mkMSys (upd_cells q o (mkCell (storage c) kConsuming (ticket c))) ps (KTake o))
| k_take q ps o c :
    cells q !! o = Some c ->
    mpsc_step C (mkMSys q ps (KTake o)) None
      (mkMSys (upd_cells q o (mkCell None (state c) (ticket c))) ps (KTaken o (storage c)))
| k_free q ps o out c :
    cells q !! o = Some c ->
    mpsc_step C (mkMSys q ps (KTaken o out)) (Some (VPop out))
      (mkMSys (upd_cells q o (mkCell (storage c) kFree (ticket c))) ps KIdle).

Definition mpsc_sys_init {T} (C : Z) : mpsc_sys T := mkMSys (mpsc_ctor C) (fun _ => MIdle) KIdle.

(** ** The specification: a bag

    A pop returns some queued payload, once.  [try_pop] may answer "empty"
    only if the bag was empty when the call was made; the flag remembers it. *)

Inductive bag_step {T} : list T * bool -> option (mpsc_event T) -> list T * bool -> Prop :=
| bag_push l b v : bag_step (l, b) (Some (VPush v)) (v :: l, b)
| bag_full l b v : bag_step (l, b) (Some (VFull v)) (l, b)
| bag_call l b : bag_step (l, b) (Some VCall) (l, negb (bool_decide (l = [])))
| bag_pop l l' b x : l ≡ₚ x :: l' -> bag_step (l, b) (Some (VPop (Some x))) (l', b)
| bag_empty l : bag_step (l, false) (Some VEmpty) (l, false).

(** ** The invariant *)

Definition owns {T} (p : mpsc_producer T) : option nat :=
  match p with
  | MClaimed _ i | MBuilt _ i | MStamped _ i _ | MTicketed _ i => Some i
  | _ => None
  end.

Definition built {T} (p : mpsc_producer T) : option T :=
  match p with
  | MBuilt v _ | MStamped v _ _ | MTicketed v _ => Some v
  | _ => None
  end.

(** The published payload of a cell, and the one in the consumer's hand. *)
Definition held {T} (c : MpscCell T) : option T :=
  match state c with kReady | kConsuming => storage c | _ => None end.

Definition in_hand {T} (k : mpsc_consumer T) : list T :=
  match k with KTaken _ (Some x) => [x] | _ => [] end.

Definition bag_of {T} (s : mpsc_sys T) : list T := omap held (cells (mq s)) ++ in_hand (kpc s).

Definition ready_at {T} (cs : list (MpscCell T)) (i : nat) : Prop :=
  exists c, cs !! i = Some c /\ state c = kReady /\ is_Some (storage c).

Definition kpc_ok {T} (cs : list (MpscCell T)) (k : mpsc_consumer T) : Prop :=
  match k with
  | KIdle => True
  | KScan _ None => True
  | KScan _ (Some (o, _)) => ready_at cs o
  | KSeen i acc => ready_at cs i /\ match acc with Some (o, _) => ready_at cs o | None => True end
  | KTake o => exists c, cs !! o = Some c /\ state c = kConsuming /\ is_Some (storage c)
  | KTaken o out => is_Some out /\ exists c, cs !! o = Some c /\ state c = kConsuming /\ storage c = None
  end.

(** If the bag was not empty at the call, the scan has found a Ready cell or
    will still come across one. *)
Definition scan_ok {T} (cs : list (MpscCell T)) (k : mpsc_consumer T) (b : bool) : Prop :=
  match k with
  | KScan i None => b = true -> exists j, (i <= j)%nat /\ ready_at cs j
  | _ => True
  end.

Record mpsc_sim {T} (C : Z) (s : mpsc_sys T) (a : list T * bool) : Prop := {
  ms_len : length (cells (mq s)) = Z.to_nat C;
  ms_cell : forall i c, cells (mq s) !! i = Some c ->
    (state c = kFree -> storage c = None) /\ (state c = kReady -> is_Some (storage c));
  ms_owner : forall t i, owns (pcs s t) = Some i ->
    exists c, cells (mq s) !! i = Some c /\ state c = kWriting /\ storage c = built (pcs s t);
  ms_excl : forall t1 t2 i, owns (pcs s t1) = Some i -> owns (pcs s t2) = Some i -> t1 = t2;
  ms_cons : forall i c, cells (mq s) !! i = Some c -> state c = kConsuming ->
    kpc s = KTake i \/ exists out, kpc s = KTaken i out;
  ms_kpc : kpc_ok (cells (mq s)) (kpc s);
  ms_scan : scan_ok (cells (mq s)) (kpc s) a.2;
  ms_bag : a.1 ≡ₚ bag_of s
}.

Section mpsc_conc.
Context {T : Type} (C : Z).
Implicit Types (cs : list (MpscCell T)) (s : mpsc_sys T) (ps : nat -> mpsc_producer T).

Lemma fn_lookup_cases ps (t t' : nat) p :
  (t' = t /\ (<[t := p]> ps) t' = p) \/ (t' <> t /\ (<[t := p]> ps) t' = ps t').
Proof.
  destruct (decide (t' = t)) as [->|Hne].
  - left. by rewrite fn_lookup_insert.
  - right. by rewrite fn_lookup_insert_ne.
Qed.

(** A cell no consumer step depends on may change under the consumer. *)
Definition quiet (c : MpscCell T) : Prop := state c = kFree \/ state c = kWriting.

Lemma ready_at_frame cs i c c' j :
  cs !! i = Some c -> quiet c -> ready_at cs j -> ready_at (<[i := c']> cs) j.
Proof.
  intros Hc Hq (d & Hd & Hst & Hs). exists d. split; [|done].
  rewrite list_lookup_insert_ne; [done|]. intros ->. destruct Hq; congruence.
Qed.

Lemma kpc_ok_frame cs i c c' k :
  cs !! i = Some c -> quiet c -> kpc_ok cs k -> kpc_ok (<[i := c']> cs) k.
Proof.
  intros Hc Hq Hk.
  assert (Hr : forall o d, cs !! o = Some d -> state d = kConsuming ->
            (<[i := c']> cs) !! o = Some d).
  { intros o d Hd Hst. rewrite list_lookup_insert_ne; [done|]. intros ->. destruct Hq; congruence. }
  destruct k as [|? [[]|]|? [[]|]|o|o out]; simpl in *; eauto using ready_at_frame.
  - destruct Hk; split; eauto using ready_at_frame.
  - destruct Hk; split; eauto using ready_at_frame.
  - destruct Hk as (d & Hd & Hst & Hs). eauto 6.
  - destruct Hk as (Ho & d & Hd & Hst & Hs). split; [done|]. eauto.
Qed.

Lemma scan_ok_frame cs i c c' k b :
  cs !! i = Some c -> quiet c -> scan_ok cs k b -> scan_ok (<[i := c']> cs) k b.
Proof.
  intros Hc Hq. destruct k as [|j [|]| | |]; simpl; try done.
  intros Hs Hb. destruct (Hs Hb) as (j' & Hj & Hr). eauto using ready_at_frame.
Qed.

(** A producer step that touches no cell. *)
Lemma sim_pcs_update s a t p q' :
  mpsc_sim C s a -> cells q' = cells (mq s) ->
  owns p = None \/ (owns p = owns (pcs s t) /\ built p = built (pcs s t)) ->
  mpsc_sim C (mkMSys q' (<[t := p]> (pcs s)) (kpc s)) a.
Proof.
  intros [Hl Hc Ho Hx Hcons Hk Hsc Hb] Hq Hp. constructor; simpl; rewrite ?Hq; try done.
  - intros t' i. destruct (fn_lookup_cases (pcs s) t t' p) as [[-> ->]|[_ ->]]; [|apply Ho].
    intros Hi. destruct Hp as [?|[Hp1 ->]]; [congruence|]. apply Ho. congruence.
  - assert (Hsub : forall t' i, owns ((<[t := p]> (pcs s)) t') = Some i -> owns (pcs s t') = Some i).
    { intros t' i. destruct (fn_lookup_cases (pcs s) t t' p) as [[-> ->]|[_ ->]]; [|done].
      intros Hi. destruct Hp as [?|[Hp1 _]]; congruence. }
    intros t1 t2 i H1 H2. eauto.
  - unfold bag_of in *. simpl. by rewrite Hq.
Qed.

(** A producer step on the cell it owns, or on the free cell it claims. *)
Lemma sim_cell_update s l b t i c c' p q' :
  mpsc_sim C s (l, b) -> cells (mq s) !! i = Some c -> cells q' = <[i := c']> (cells (mq s)) ->
  (owns (pcs s t) = Some i \/ (owns (pcs s t) = None /\ state c = kFree)) ->
  (owns p = Some i /\ state c' = kWriting /\ storage c' = built p) \/
  (owns p = None /\ state c' = kReady /\ is_Some (storage c')) ->
  mpsc_sim C (mkMSys q' (<[t := p]> (pcs s)) (kpc s)) (option_list (held c') ++ l, b).
Proof.
  intros [Hl Hc Ho Hx Hcons Hk Hsc Hb] Hi Hq Hown Hp. simpl in *.
  assert (Hquiet : quiet c).
  { destruct Hown as [Hown|[_ ?]]; [|by left].
    destruct (Ho _ _ Hown) as (d & Hd & Hst & _). right. congruence. }
  assert (Hheld : held c = None) by (unfold held; destruct Hquiet as [->| ->]; done).
  assert (Hother : forall t' j, t' <> t -> owns (pcs s t') = Some j -> j <> i).
  { intros t' j Hne Hj ->. destruct Hown as [Hown|[_ Hf]]; [by apply Hne, (Hx t' t i)|].
    destruct (Ho _ _ Hj) as (d & Hd & Hst & _). congruence. }
  pose proof (lookup_lt_Some _ _ _ Hi) as Hlt.
  constructor; simpl; rewrite ?Hq.
  - by rewrite length_insert.
  - intros j d Hd. destruct (decide (i = j)) as [->|Hne].
    + rewrite list_lookup_insert_eq in Hd by done. simplify_eq.
      destruct Hp as [(_ & Hw & _)|(_ & Hr & Hs)]; split; intros ?; congruence || done.
    + rewrite list_lookup_insert_ne in Hd by done. eauto.
  - intros t' j. destruct (fn_lookup_cases (pcs s) t t' p) as [[-> ->]|[Hne ->]]; intros Hj.
    + destruct Hp as [(Hpi & Hw & Hs)|(Hpi & _)]; [|congruence].
      assert (j = i) as -> by congruence. rewrite list_lookup_insert_eq by done. eauto.
    + pose proof (Hother _ _ Hne Hj). rewrite list_lookup_insert_ne by done. eauto.
  - intros t1 t2 j. destruct (fn_lookup_cases (pcs s) t t1 p) as [[-> ->]|[Hn1 ->]],
      (fn_lookup_cases (pcs s) t t2 p) as [[-> ->]|[Hn2 ->]]; try done; intros H1 H2.
    + exfalso. eapply Hother; [exact Hn2|exact H2|]. destruct Hp as [(? & _)|(? & _)]; congruence.
    + exfalso. eapply Hother; [exact Hn1|exact H1|]. destruct Hp as [(? & _)|(? & _)]; congruence.
    + by eapply Hx.
  - intros j d Hd Hst. destruct (decide (i = j)) as [->|Hne].
    + rewrite list_lookup_insert_eq in Hd by done. simplify_eq.
      destruct Hp as [(_ & Hw & _)|(_ & Hr & Hs)]; congruence.
    + rewrite list_lookup_insert_ne in Hd by done. eauto.
  - by eapply kpc_ok_frame.
  - by eapply scan_ok_frame.
  - unfold bag_of in *. simpl. rewrite Hq, Hb. rewrite app_assoc. f_equiv.
    destruct (held c') as [x|] eqn:Hh; simpl.
    + symmetry. by eapply omap_insert_add.
    + by rewrite (omap_insert_same held _ _ c) by congruence.
Qed.

Lemma sim_write_update s l b t i c c' p q' :
  mpsc_sim C s (l, b) -> cells (mq s) !! i = Some c -> cells q' = <[i := c']> (cells (mq s)) ->
  (owns (pcs s t) = Some i \/ (owns (pcs s t) = None /\ state c = kFree)) ->
  owns p = Some i -> state c' = kWriting -> storage c' = built p ->
  mpsc_sim C (mkMSys q' (<[t := p]> (pcs s)) (kpc s)) (l, b).
Proof.
  intros Hs Hi Hq Hown Hp Hst Hsto.
  assert (Hh : held c' = None) by (unfold held; by rewrite Hst).
  pose proof (sim_cell_update _ l b t _ _ _ p _ Hs Hi Hq Hown
    (or_introl (conj Hp (conj Hst Hsto)))) as H.
  by rewrite Hh in H.
Qed.

(** A consumer step that touches no cell. *)
Lemma sim_kpc_update s l b b' k :
  mpsc_sim C s (l, b) ->
  (forall i, kpc s <> KTake i) -> (forall i out, kpc s <> KTaken i out) ->
  kpc_ok (cells (mq s)) k -> scan_ok (cells (mq s)) k b' ->
  in_hand k = [] -> mpsc_sim C (mkMSys (mq s) (pcs s) k) (l, b').
Proof.
  intros [Hl Hc Ho Hx Hcons Hk Hsc Hb] Hn1 Hn2 Hk' Hsc' Hh. constructor; simpl; try done.
  - intros i c Hi Hst. destruct (Hcons i c Hi Hst) as [?|[? ?]]; [by destruct (Hn1 i)|by destruct (Hn2 i x)].
  - unfold bag_of in *. simpl in *. rewrite Hh, Hb. f_equiv.
    destruct (kpc s) as [| | | |o out] eqn:E; try done. by destruct (Hn2 o out).
Qed.

(** A consumer step on the cell it holds; [k'] says what it holds next. *)
Lemma sim_hold_update s l l' b o c c' k' :
  mpsc_sim C s (l, b) -> cells (mq s) !! o = Some c ->
  state c = kReady \/ state c = kConsuming ->
  state c' <> kWriting -> (state c' = kFree -> storage c' = None) -> (state c' <> kReady) ->
  (state c' = kConsuming -> k' = KTake o \/ exists out, k' = KTaken o out) ->
  (state c = kReady -> forall i, kpc s <> KTake i /\ forall out, kpc s <> KTaken i out) ->
  (state c = kConsuming -> kpc s = KTake o \/ exists out, kpc s = KTaken o out) ->
  (forall cs', cs' !! o = Some c' -> kpc_ok cs' k') ->
  (forall i acc, k' <> KScan i acc) ->
  l' ≡ₚ omap held (<[o := c']> (cells (mq s))) ++ in_hand k' ->
  mpsc_sim C (mkMSys (upd_cells (mq s) o c') (pcs s) k') (l', b).
Proof.
  intros [Hl Hc Ho Hx Hcons Hk Hsc Hb] Hi Hst Hw Hf Hnr Hcon Hr1 Hr2 Hk' Hns Hbag. simpl in *.
  pose proof (lookup_lt_Some _ _ _ Hi) as Hlt. constructor; simpl.
  - by rewrite length_insert.
  - intros j d Hd. destruct (decide (o = j)) as [->|Hne].
    + rewrite list_lookup_insert_eq in Hd by done. simplify_eq. split; [done|]. congruence.
    + rewrite list_lookup_insert_ne in Hd by done. eauto.
  - intros t j Hj. destruct (Ho _ _ Hj) as (d & Hd & Hdst & Hds). exists d.
    rewrite list_lookup_insert_ne; [done|]. intros ->. destruct Hst; congruence.
  - done.
  - intros j d Hd Hdst. destruct (decide (o = j)) as [->|Hne].
    + rewrite list_lookup_insert_eq in Hd by done. simplify_eq. eauto.
    + rewrite list_lookup_insert_ne in Hd by done. exfalso.
      destruct Hst as [Hst|Hst].
      * destruct (Hr1 Hst j) as [N1 N2]. destruct (Hcons _ _ Hd Hdst) as [?|[? ?]]; [by apply N1|by eapply N2].
      * destruct (Hcons _ _ Hd Hdst) as [?|[? ?]], (Hr2 Hst) as [?|[? ?]]; congruence.
  - apply Hk'. by rewrite list_lookup_insert_eq.
  - destruct k' as [|i acc| | |]; try done. by destruct (Hns i acc).
  - exact Hbag.
Qed.

Lemma mpsc_sim_init : mpsc_sim C (@mpsc_sys_init T C) ([], false).
Proof.
  constructor; simpl; try done.
  - apply length_replicate.
  - intros i c [-> _]%lookup_replicate. done.
  - intros i c [-> _]%lookup_replicate. done.
  - unfold bag_of. simpl. induction (Z.to_nat C); [done|]. simpl. done.
Qed.

Lemma mpsc_tau s s' a : mpsc_sim C s a -> mpsc_step C s None s' -> mpsc_sim C s' a.
Proof.
  intros Hs Hst. destruct a as [l b]. pose proof (ms_owner _ _ _ Hs) as Ho.
  pose proof (ms_kpc _ _ _ Hs) as Hk. pose proof (ms_cell _ _ _ Hs) as Hcell.
  pose proof (ms_bag _ _ _ Hs) as Hbag. pose proof (ms_scan _ _ _ Hs) as Hsc.
  inversion Hst; subst; simpl in *.
  - by apply (sim_pcs_update _ _ t _ _ Hs); [|left].
  - destruct (Hcell _ _ H1) as [Hf _].
    eapply (sim_write_update _ l b t _ _ _ _ _ Hs H1); simpl; [done|right; by rewrite H|done..|].
    by apply Hf.
  - by apply (sim_pcs_update _ _ t _ _ Hs); [|left].
  - destruct (Ho t i ltac:(by rewrite H)) as (d & Hd & Hdst & _).
    assert (c = d) as -> by congruence.
    by eapply (sim_write_update _ l b t _ _ _ _ _ Hs H0); simpl; [|left; rewrite H|..].
  - by apply (sim_pcs_update _ _ t _ _ Hs); [|right; simpl; rewrite H].
  - destruct (Ho t i ltac:(by rewrite H)) as (d & Hd & Hdst & Hds). rewrite H in Hds.
    assert (c = d) as -> by congruence.
    by eapply (sim_write_update _ l b t _ _ _ _ _ Hs H0); simpl; [|left; rewrite H|..].
  - apply (sim_kpc_update _ _ _ _ _ Hs); try done. destruct acc as [[o tk]|]; [done|].
    simpl in *. intros Hb. destruct (Hsc Hb) as (j & Hj & Hr). exists j. split; [|done].
    destruct (decide (i = j)) as [->|]; [|lia].
    destruct Hr as (d & Hd & Hdst & _). congruence.
  - apply (sim_kpc_update _ _ _ _ _ Hs); try done. simpl. split.
    + exists c. split_and!; [done..|]. by apply (Hcell i c).
    + by destruct acc as [[]|].
  - destruct Hk as [Hr Hacc]. apply (sim_kpc_update _ _ _ _ _ Hs); try done; simpl.
    + destruct acc as [[o tk]|]; [|done]. by destruct (_ <? _).
    + destruct acc as [[o tk]|]; [|done]. by destruct (_ <? _).
  - destruct Hk as (d & Hd & Hdst & Hds). assert (c = d) as -> by congruence.
    eapply (sim_hold_update _ _ _ _ _ _ _ _ Hs H); simpl; eauto 6; try done; [congruence|].
    rewrite Hbag. unfold bag_of; simpl.
    rewrite (omap_insert_same held _ _ d); [done..|]. unfold held. by rewrite Hdst.
  - destruct Hk as (d & Hd & Hdst & [x Hds]). assert (c = d) as -> by congruence.
    eapply (sim_hold_update _ _ _ _ _ _ _ _ Hs H); simpl; eauto 6; try congruence.
    rewrite Hbag, Hds. unfold bag_of; simpl. rewrite app_nil_r.
    rewrite (omap_insert_remove held (cells q) o d (mkCell None (state d) (ticket d)) x);
      [|done|unfold held; by rewrite Hdst|unfold held; simpl; by destruct (state d)].
    apply Permutation_cons_append.
Qed.

Lemma mpsc_vis s s' a e :
  mpsc_sim C s a -> mpsc_step C s (Some e) s' ->
  exists a', bag_step a (Some e) a' /\ mpsc_sim C s' a'.
Proof.
  intros Hs Hst. destruct a as [l b]. pose proof (ms_owner _ _ _ Hs) as Ho.
  pose proof (ms_kpc _ _ _ Hs) as Hk. pose proof (ms_bag _ _ _ Hs) as Hbag.
  pose proof (ms_scan _ _ _ Hs) as Hsc. pose proof (ms_cons _ _ _ Hs) as Hcons.
  inversion Hst; subst; simpl in *.
  - exists (l, b). split; [constructor|].
    by apply (sim_pcs_update _ _ t _ _ Hs); [|left].
  - match goal with H : ps _ = MTicketed _ _ |- _ => rename H into Hpc end.
    match goal with H : cells q !! _ = Some c |- _ => rename H into Hci end.
    destruct (Ho t i ltac:(by rewrite Hpc)) as (d & Hd & Hdst & Hds). rewrite Hpc in Hds.
    assert (c = d) as -> by congruence. exists (v :: l, b). split; [constructor|].
    replace (v :: l) with (option_list (held (mkCell (storage d) kReady (ticket d))) ++ l)
      by (unfold held; simpl; rewrite Hds; done).
    eapply (sim_cell_update _ l b t _ _ _ _ _ Hs Hci); simpl; [done|left; by rewrite Hpc|].
    right. rewrite Hds. done.
  - exists (l, negb (bool_decide (l = []))). split; [constructor|].
    apply (sim_kpc_update _ _ _ _ _ Hs); try done. simpl. case_bool_decide as Hl; [done|].
    intros _. destruct (omap_nonempty_inv held (cells q)) as (i & c & x & Hi & Hx).
    { intros Hn. apply Hl. unfold bag_of in Hbag. simpl in Hbag. rewrite Hn in Hbag.
      by apply Permutation_nil_r in Hbag. }
    exists i. split; [lia|]. exists c. unfold held in Hx.
    destruct (state c) eqn:Hcs; try done.
    destruct (Hcons i c Hi Hcs) as [?|[? ?]]; done.
  - destruct b.
    + exfalso. destruct (Hsc eq_refl) as (j & Hj & c & Hc & _).
      apply lookup_lt_Some in Hc. rewrite (ms_len _ _ _ Hs : length (cells q) = _) in Hc. lia.
    + exists (l, false). split; [constructor|]. by apply (sim_kpc_update _ _ _ _ _ Hs).
  - match goal with H : cells q !! _ = Some c |- _ => rename H into Hci end.
    destruct Hk as ([x ->] & d & Hd & Hdst & Hds). assert (c = d) as -> by congruence.
    exists (omap held (cells q), b). split.
    + constructor. rewrite Hbag. unfold bag_of; simpl. symmetry. apply Permutation_cons_append.
    + eapply (sim_hold_update _ _ _ _ _ _ _ _ Hs Hci); simpl; eauto 6; try done; [congruence|].
      rewrite app_nil_r, (omap_insert_same held _ _ d); [done..|].
      unfold held. simpl. rewrite Hds. by destruct (state d).
Qed.
End mpsc_conc.

(** C34: With any number of producers and one consumer interleaved access by
    access, the queue behaves as a bag: a pop returns a payload that some
    completed push published and that no earlier pop returned, never raw
    storage, and [try_pop] answers "empty" only if nothing was published when
    the call was made, so a producer stalled inside its cell never hides a
    completed submission. *)
Theorem mpsc_refines_bag {T} (C : Z) (tr : list (mpsc_event T)) (s : mpsc_sys T) :
  lrun (mpsc_step C) (mpsc_sys_init C) tr s ->
  exists a, lrun bag_step ([], false) tr a /\ mpsc_sim C s a.
Proof.
  intros Hrun. eapply (lrun_refines _ _ (mpsc_sim C)); [| |by apply mpsc_sim_init|done].
  - intros; by eapply mpsc_tau.
  - intros; by eapply mpsc_vis.
Qed.

(** One producer pushes 5 into a one-cell queue and the consumer pops it. *)
Lemma mpsc_refines_bag_witness :
  exists a, lrun bag_step ([], false) [VPush 5; VCall; VPop (Some 5)] a.
Proof.
  pose proof (lrun_nil (@mpsc_step Z 1) (mpsc_sys_init 1)) as H.
  eapply (lrun_tau (@mpsc_step Z 1)) in H; [|eapply (m_start 1 _ _ _ 0%nat 5); reflexivity].
  eapply (lrun_tau (@mpsc_step Z 1)) in H; [|eapply (m_claim 1 _ _ _ 0%nat); [reflexivity|compute; lia|reflexivity..]].
  eapply (lrun_tau (@mpsc_step Z 1)) in H; [|eapply (m_construct 1 _ _ _ 0%nat); reflexivity].
  eapply (lrun_tau (@mpsc_step Z 1)) in H; [|eapply (m_stamp 1 _ _ _ 0%nat); reflexivity].
  eapply (lrun_tau (@mpsc_step Z 1)) in H; [|eapply (m_ticket 1 _ _ _ 0%nat); reflexivity].
  eapply (lrun_vis (@mpsc_step Z 1)) in H; [|eapply (m_publish 1 _ _ _ 0%nat); reflexivity].
  eapply (lrun_vis (@mpsc_step Z 1)) in H; [|eapply (k_call 1)].
  eapply (lrun_tau (@mpsc_step Z 1)) in H; [|eapply (k_ready 1); reflexivity].
  eapply (lrun_tau (@mpsc_step Z 1)) in H; [|eapply (k_ticket 1); reflexivity].
  eapply (lrun_tau (@mpsc_step Z 1)) in H; [|eapply (k_select 1); reflexivity].
  eapply (lrun_tau (@mpsc_step Z 1)) in H; [|eapply (k_take 1); reflexivity].
  eapply (lrun_vis (@mpsc_step Z 1)) in H; [|eapply (k_free 1); reflexivity].
  destruct (mpsc_refines_bag 1 [VPush 5; VCall; VPop (Some 5)] _ H) as (a & Ha & _).
  exists a. exact Ha.
Defined.
