(* ===== verification/EventPool.v ===== *)
(** * Event pools (include/coact/event.hpp, include/coact/pool.hpp)

    Fixed-block pools of reference-counted events.  A block is 4 header bytes
    (the [Event] of a live block, the [next] index of an idle one: the same
    word) followed by the payload.  The memory of all the pools is one map
    from block address to that 32-bit word, little-endian; the payload bytes
    belong to the application.  Each operation runs inside the injected
    critical section and is one atomic step here; what is left of the CAS
    loops of [HostSmpProfile] is spurious failure of
    [compare_exchange_weak], an argument of the definitions.

    [ledger] is the abstract pool: which blocks are idle, live (with signal
    and reference count) or waiting in a reclaim batch. *)

From S2P Require Import Prelude.

(** ** Memory and the block header word *)

Abbreviation memory := (gmap Z Z).
Definition load (m : memory) (a : Z) : Z := default 0 (m !! a).

(** [struct Event { uint16_t signal; uint8_t pool_id; uint8_t ref_ctr; }]. *)
Definition event_word (signal pool_id ref_ctr : Z) : Z :=
  signal + pool_id * 2 ^ 16 + ref_ctr * 2 ^ 24.
Definition ev_signal (w : Z) : Z := w `mod` 2 ^ 16.
Definition ev_pool_id (w : Z) : Z := (w / 2 ^ 16) `mod` 2 ^ 8.
Definition ev_ref_ctr (w : Z) : Z := (w / 2 ^ 24) `mod` 2 ^ 8.
Definition set_ref_ctr (w c : Z) : Z := event_word (ev_signal w) (ev_pool_id w) c.

(** ** Free-list head packing *)

Definition pool_index_invalid : Z := 0xFFFF.
Definition kReclaimBatchCap : Z := 16.
Definition kMaxEventPools : nat := 16.

Definition pool_pack_head (index tag : Z) : Z :=
  Z.lor (Z.shiftl (Z.land tag 0xFFFF) 16) (Z.land index 0xFFFF).
Definition pool_head_index (head : Z) : Z := Z.land head 0xFFFF.
Definition pool_head_tag (head : Z) : Z := Z.land (Z.shiftr head 16) 0xFFFF.

Definition pool_block_base (base index stride : Z) : Z := base + index * stride.
Definition pool_block_align (Align size : Z) : Z :=
  Z.land (size + Align - 1) (Z.lnot (Align - 1)).

Definition pool_store_next (m : memory) (addr next : Z) : memory := <[addr := next]> m.

(** ** State *)

Record PoolRecord := mkRecord {
  free_head : Z; base : Z; block_size : Z; capacity : Z; used : Z; high_watermark : Z
}.

(** The template parameters of an [EventPool] and its members; [cs_] is only
    ever tested for null hooks. *)
Record EventPool := mkPool {
  BlockSize : Z; Capacity : Z; BlockAlign : Z; single_core : bool;
  record_ : PoolRecord; pool_id_ : Z; cs_ : bool
}.

(** [pools] is keyed by the identity of the pool object, which is also the
    identity of its record; the registry holds such identities. *)
Record world := mkWorld {
  mem : memory; pools : gmap nat EventPool; g_pool_registry : list (option nat)
}.

Definition pool_ctor (bs cap align : Z) (sc : bool) : EventPool :=
  mkPool bs cap align sc (mkRecord 0 0 0 0 0 0) 0 false.

Definition world_init : world := mkWorld ∅ ∅ (replicate kMaxEventPools None).

Definition set_mem (w : world) (m : memory) : world := mkWorld m (pools w) (g_pool_registry w).
Definition set_pool (w : world) (k : nat) (P : EventPool) : world :=
  mkWorld (mem w) (<[k := P]> (pools w)) (g_pool_registry w).
Definition with_record (P : EventPool) (r : PoolRecord) : EventPool :=
  mkPool (BlockSize P) (Capacity P) (BlockAlign P) (single_core P) r (pool_id_ P) (cs_ P).
Definition with_id (P : EventPool) (i : Z) : EventPool :=
  mkPool (BlockSize P) (Capacity P) (BlockAlign P) (single_core P) (record_ P) i (cs_ P).

(** ** The registry *)

Definition pool_record (w : world) (pool_id : Z) : option nat :=
  if (pool_id =? 0) || (Z.of_nat kMaxEventPools <? pool_id) then None
  else mjoin (g_pool_registry w !! Z.to_nat (pool_id - 1)).

Definition slot_is (k : option nat) (s : option nat) : bool := bool_decide (s = k).

Definition register_pool (g : list (option nat)) (rec : option nat) : Z * list (option nat) :=
  match rec with
  | None => (0, g)
  | Some k =>
    match find_idx (slot_is (Some k)) g with
    | Some i => (u8 (Z.of_nat i + 1), g)
    | None =>
      match find_idx (slot_is None) g with
      | Some i => (u8 (Z.of_nat i + 1), <[i := Some k]> g)
      | None => (0, g)
      end
    end
  end.

Definition unregister_pool (g : list (option nat)) (rec : option nat) : list (option nat) :=
  match rec with
  | None => g
  | Some k =>
    match find_idx (slot_is (Some k)) g with
    | Some i => <[i := None]> g
    | None => g
    end
  end.

(** [EventPool::shutdown] (and the destructor). *)
Definition shutdown (w : world) (k : nat) : world :=
  match pools w !! k with
  | Some P =>
    if pool_id_ P =? 0 then w
    else mkWorld (mem w) (<[k := with_id P 0]> (pools w))
                 (unregister_pool (g_pool_registry w) (Some k))
  | None => w
  end.

(** ** Initialisation *)

(** [for (i = 0; i < n; ++i) block[i].next = (i + 1 < n) ? i + 1 : invalid]. *)
Fixpoint chain_blocks (m : memory) (begin stride n : Z) (i : Z) (fuel : nat) : memory :=
  match fuel with
  | O => m
  | S f =>
    let next := if i + 1 <? n then i + 1 else pool_index_invalid in
    chain_blocks (pool_store_next m (pool_block_base begin i stride) next)
                 begin stride n (i + 1) f
  end.

Definition aligned_begin (align raw_base : Z) : Z :=
  Z.land (raw_base + align - 1) (Z.lnot (align - 1)).

Definition block_count (P : EventPool) (raw_base bytes : Z) : Z :=
  let begin := aligned_begin (BlockAlign P) raw_base in
  let end_ := raw_base + bytes in
  if begin <=? end_
  then Z.min ((end_ - begin) / pool_block_align (BlockAlign P) (BlockSize P)) (Capacity P)
  else 0.

(** [storage = None] is the null pointer; [cs_ok] says both hooks are set. *)
Definition init (w : world) (k : nat) (storage : option Z) (bytes : Z) (cs_ok : bool) : bool * world :=
  match pools w !! k, storage with
  | Some P, Some raw_base =>
    if negb (pool_id_ P =? 0) || negb cs_ok then (false, w)
    else
      let stride := pool_block_align (BlockAlign P) (BlockSize P) in
      let begin := aligned_begin (BlockAlign P) raw_base in
      let n := block_count P raw_base bytes in
      if n =? 0 then (false, w)
      else
        let m := chain_blocks (mem w) begin stride n 0 (Z.to_nat n) in
        let r := mkRecord (pool_pack_head 0 0) begin (u16 stride) (u16 n) 0 0 in
        let reg := register_pool (g_pool_registry w) (Some k) in
        (negb (reg.1 =? 0),
         mkWorld m (<[k := mkPool (BlockSize P) (Capacity P) (BlockAlign P) (single_core P)
                                  r reg.1 true]> (pools w)) reg.2)
  | _, _ => (false, w)
  end.

(** ** Allocation *)

Definition load_next (m : memory) (r : PoolRecord) (idx : Z) : Z :=
  load m (pool_block_base (base r) idx (block_size r)).

(** How often each CAS loop fails spuriously before it succeeds. *)
Record spurious := mkSpurious { sp_used : nat; sp_head : nat; sp_hwm : nat }.

Definition claim_single_core (m : memory) (r : PoolRecord) (margin : Z) : Z * PoolRecord :=
  let head := free_head r in
  let idx := pool_head_index head in
  if negb (idx =? pool_index_invalid) && (used r + margin <? capacity r) then
    let u := u16 (used r + 1) in
    (idx, mkRecord (pool_pack_head (load_next m r idx) 0) (base r) (block_size r) (capacity r) u
                   (if high_watermark r <? u then u else high_watermark r))
  else (pool_index_invalid, r).

(** [while (used + margin < capacity) if (CAS(used, used + 1)) ...]: the value
    left in [record_.used] and whether the reservation was made. *)
Fixpoint reserve_used (fails : nat) (r : PoolRecord) (margin : Z) (seen : Z) : option Z :=
  if seen + margin <? capacity r then
    match fails with
    | O => Some (u16 (seen + 1))
    | S f => reserve_used f r margin (used r)
    end
  else None.

(** The pop loop: [None] is the empty free list, [Some (idx, new_head)] the
    successful exchange. [pool_backoff] reloads the head. *)
Fixpoint pop_head (fails : nat) (m : memory) (r : PoolRecord) (head : Z) : option (Z * Z) :=
  let idx := pool_head_index head in
  if idx =? pool_index_invalid then None
  else
    match fails with
    | O => Some (idx, pool_pack_head (load_next m r idx) (pool_head_tag head + 1))
    | S f => pop_head f m r (free_head r)
    end.

Fixpoint raise_hwm (fails : nat) (used_after h hwm : Z) : Z :=
  if h <? used_after then
    match fails with O => used_after | S f => raise_hwm f used_after hwm hwm end
  else hwm.

Definition claim_smp (o : spurious) (m : memory) (r : PoolRecord) (margin : Z) : Z * PoolRecord :=
  match reserve_used (sp_used o) r margin (used r) with
  | None => (pool_index_invalid, r)
  | Some u =>
    match pop_head (sp_head o) m r (free_head r) with
    | None =>
      (pool_index_invalid,
       mkRecord (free_head r) (base r) (block_size r) (capacity r) (u16 (u - 1)) (high_watermark r))
    | Some (idx, new_head) =>
      (idx, mkRecord new_head (base r) (block_size r) (capacity r) u
                     (raise_hwm (sp_hwm o) u (high_watermark r) (high_watermark r)))
    end
  end.

Definition claim_block (P : EventPool) (o : spurious) (m : memory) (margin : Z) : Z * PoolRecord :=
  if single_core P then claim_single_core m (record_ P) margin
  else claim_smp o m (record_ P) margin.

Definition claim_raw_block (w : world) (o : spurious) (k : nat) (margin : Z) : option Z * world :=
  match pools w !! k with
  | None => (None, w)
  | Some P =>
    if (pool_id_ P =? 0) || (capacity (record_ P) =? 0) || negb (cs_ P) then (None, w)
    else
      let (claimed, r) := claim_block P o (mem w) margin in
      (if claimed =? pool_index_invalid then None
       else Some (pool_block_base (base r) claimed (block_size r)),
       set_pool w k (with_record P r))
  end.

Definition alloc_with_margin (w : world) (o : spurious) (k : nat) (signal margin : Z) : option Z * world :=
  match claim_raw_block w o k margin with
  | (None, w') => (None, w')
  | (Some block, w') =>
    let id := match pools w' !! k with Some P => pool_id_ P | None => 0 end in
    (Some block, set_mem w' (<[block := event_word signal id 1]> (mem w')))
  end.

Definition alloc (w : world) (o : spurious) (k : nat) (signal : Z) : option Z * world :=
  alloc_with_margin w o k signal 0.

(** ** Reclaim *)

(** The push loop of [reclaim], [pool_reclaim_chain] and [splice_locked]:
    link [last] to the current head, exchange the head, retry on failure. *)
Fixpoint push_chain (fails : nat) (m : memory) (r : PoolRecord) (first last head : Z) : memory * Z :=
  let m' := pool_store_next m (pool_block_base (base r) last (block_size r)) (pool_head_index head) in
  match fails with
  | O => (m', pool_pack_head first (pool_head_tag head + 1))
  | S f => push_chain f m' r first last (free_head r)
  end.

Definition pool_reclaim_chain (fails : nat) (m : memory) (r : PoolRecord) (first last count : Z)
  : memory * PoolRecord :=
  let (m', h) := push_chain fails m r first last (free_head r) in
  (m', mkRecord h (base r) (block_size r) (capacity r) (u16 (used r - count)) (high_watermark r)).

(** [EventPool::reclaim] on the owner's record. *)
Definition reclaim_block (sc : bool) (fails : nat) (m : memory) (r : PoolRecord) (addr : Z)
  : outcome (memory * PoolRecord) :=
  _ ← coact_assert (base r <=? addr);
  let idx := u32 ((addr - base r) / block_size r) in
  if sc then
    mret (pool_store_next m addr (pool_head_index (free_head r)),
          mkRecord (pool_pack_head idx 0) (base r) (block_size r) (capacity r)
                   (u16 (used r - 1)) (high_watermark r))
  else mret (pool_reclaim_chain fails m r idx idx 1).

Definition reclaim (w : world) (fails : nat) (e : Z) : outcome world :=
  match pool_record w (ev_pool_id (load (mem w) e)) with
  | None => Fatal
  | Some k =>
    match pools w !! k with
    | None => Fatal
    | Some P =>
      mr ← reclaim_block (single_core P) fails (mem w) (record_ P) e;
      mret (set_pool (set_mem w mr.1) k (with_record P mr.2))
    end
  end.

(** ** Reference counting *)

Definition event_ref_inc (w : world) (e : Z) : outcome world :=
  let v := load (mem w) e in
  if ev_pool_id v =? 0 then mret w
  else
    match pool_record w (ev_pool_id v) with
    | None => Fatal
    | Some _ =>
      _ ← coact_assert (ev_ref_ctr v <? 0xFF);
      mret (set_mem w (<[e := set_ref_ctr v (u8 (ev_ref_ctr v + 1))]> (mem w)))
    end.

Definition event_gc (w : world) (fails : nat) (e : Z) : outcome world :=
  let v := load (mem w) e in
  if ev_pool_id v =? 0 then mret w
  else
    match pool_record w (ev_pool_id v) with
    | None => Fatal
    | Some _ =>
      _ ← coact_assert (negb (ev_ref_ctr v =? 0));
      let c := u8 (ev_ref_ctr v - 1) in
      let w' := set_mem w (<[e := set_ref_ctr v c]> (mem w)) in
      if c =? 0 then reclaim w' fails e else mret w'
    end.

(** ** ReclaimBatcher

    [pending_[0 .. active_count_)] is the list; entries past the active count
    are re-initialised before they are read. *)

Record Pending := mkPending { p_rec : nat; p_first : Z; p_last : Z; p_count : Z }.

Abbreviation batcher := (list Pending).

Definition batcher_begin (b : batcher) : batcher := [].

(** [splice_locked] and the splice of [flush]: one chain back to its pool. *)
Definition splice (w : world) (fails : nat) (k : nat) (first last count : Z) : world :=
  match pools w !! k with
  | None => w
  | Some P =>
    let mr := pool_reclaim_chain fails (mem w) (record_ P) first last count in
    set_pool (set_mem w mr.1) k (with_record P mr.2)
  end.

Fixpoint batcher_flush (w : world) (fails : nat) (b : batcher) : world * batcher :=
  match b with
  | [] => (w, [])
  | p :: b =>
    let w' := if 0 <? p_count p then splice w fails (p_rec p) (p_first p) (p_last p) (p_count p) else w in
    batcher_flush w' fails b
  end.

Definition is_rec (k : nat) (p : Pending) : bool := bool_decide (p_rec p = k).

(** The index of the entry, appended when it is new; [None] when the table is full. *)
Definition pending_of (MaxPending : nat) (b : batcher) (k : nat) : option (nat * batcher) :=
  match find_idx (is_rec k) b with
  | Some i => Some (i, b)
  | None =>
    if (MaxPending <=? length b)%nat then None
    else Some (length b, b ++ [mkPending k 0 0 0])
  end.

(** The deferred half of [release]: the block [idx] of pool [k] at [addr]. *)
Definition defer_block (MaxPending : nat) (w : world) (fails : nat) (b : batcher)
    (k : nat) (addr idx : Z) : world * batcher :=
  match pending_of MaxPending b k with
  | None => (splice w fails k idx idx 1, b)
  | Some (i, b') =>
    match b' !! i with
    | None => (w, b')
    | Some p =>
      let w1 := if p_count p =? 0 then w
                else set_mem w (pool_store_next (mem w) addr (p_first p)) in
      let last := if p_count p =? 0 then idx else p_last p in
      let count := u16 (p_count p + 1) in
      if kReclaimBatchCap <=? count
      then (splice w1 fails k idx last count, <[i := mkPending k idx last 0]> b')
      else (w1, <[i := mkPending k idx last count]> b')
    end
  end.

Definition batcher_release (MaxPending : nat) (w : world) (fails : nat) (b : batcher) (e : Z)
  : outcome (world * batcher) :=
  let v := load (mem w) e in
  if ev_pool_id v =? 0 then mret (w, b)
  else
    match pool_record w (ev_pool_id v) with
    | None => Fatal
    | Some k =>
      match pools w !! k with
      | None => Fatal
      | Some P =>
        if negb (0 <? ev_ref_ctr v) then mret (w, b)
        else
          let c := u8 (ev_ref_ctr v - 1) in
          let w' := set_mem w (<[e := set_ref_ctr v c]> (mem w)) in
          if negb (c =? 0) then mret (w', b)
          else
            _ ← coact_assert (base (record_ P) <=? e);
            mret (defer_block MaxPending w' fails b k e
                    (u32 ((e - base (record_ P)) / block_size (record_ P))))
      end
    end.

(** ** The abstract pool *)

Inductive blk := BFree | BLive (signal ref : Z) | BPend.

Record ledger := mkLedger { blks : list blk; hwm : Z }.

Definition busy (b : blk) : bool := match b with BFree => false | _ => true end.
Definition ledger_used (L : ledger) : Z := Z.of_nat (countb busy (blks L)).
Definition ledger_cap (L : ledger) : Z := Z.of_nat (length (blks L)).

Definition ledger_set (L : ledger) (i : nat) (b : blk) : ledger :=
  mkLedger (<[i := b]> (blks L)) (hwm L).
Definition ledger_alloc (L : ledger) (i : nat) (signal : Z) : ledger :=
  mkLedger (<[i := BLive signal 1]> (blks L)) (Z.max (hwm L) (ledger_used L + 1)).

(** Where a block goes when one reference is dropped; [dead] is its state
    after the last one: idle, or waiting in a batch. *)
Definition dropped (dead : blk) (signal c : Z) : blk :=
  if c =? 1 then dead else BLive signal (c - 1).

(** ** Header-word arithmetic *)

Lemma event_word_fields s p c :
  in_u 16 s -> in_u 8 p -> in_u 8 c ->
  ev_signal (event_word s p c) = s /\ ev_pool_id (event_word s p c) = p /\
  ev_ref_ctr (event_word s p c) = c.
Proof.
  unfold in_u, ev_signal, ev_pool_id, ev_ref_ctr, event_word. intros Hs Hp Hc.
  split_and!; Z.to_euclidean_division_equations; lia.
Qed.

Lemma small_word_fields x :
  in_u 16 x -> ev_pool_id x = 0.
Proof. unfold in_u, ev_pool_id. intros. rewrite Z.div_small by lia. done. Qed.

Lemma head_index_pack i t : in_u 16 i -> pool_head_index (pool_pack_head i t) = i.
Proof.
  intros Hi. unfold pool_head_index, pool_pack_head.
  change 0xFFFF with (Z.ones 16). rewrite Z.land_lor_distr_l, !Z.land_ones by lia.
  rewrite Z.shiftl_mul_pow2, Z.mod_mul by lia. simpl Z.lor.
  rewrite Z.mod_mod by lia. by apply Z.mod_small.
Qed.

Lemma head_tag_pack i t : in_u 16 t -> pool_head_tag (pool_pack_head i t) = t.
Proof.
  intros Ht. unfold pool_head_tag, pool_pack_head. change 0xFFFF with (Z.ones 16).
  rewrite Z.shiftr_lor, !Z.land_ones by lia.
  rewrite Z.shiftr_shiftl_l, Z.sub_diag, Z.shiftl_0_r by lia.
  rewrite (Z.shiftr_div_pow2 (i `mod` _)), (Z.div_small (i `mod` _)) by (try apply Z.mod_pos_bound; lia).
  rewrite Z.lor_0_r, Z.mod_mod by lia. by apply Z.mod_small.
Qed.

(** ** Linked blocks *)

Lemma load_insert m a v : load (<[a := v]> m) a = v.
Proof. unfold load. by rewrite lookup_insert_eq. Qed.

Lemma load_insert_ne m a b v : a <> b -> load (<[a := v]> m) b = load m b.
Proof. intros. unfold load. by rewrite lookup_insert_ne. Qed.

Section chain.
Context (b bs : Z) (Hbs : 0 < bs).
Implicit Types (m : memory) (l : list nat).

Definition baddr (i : nat) : Z := pool_block_base b (Z.of_nat i) bs.

Fixpoint chain m (start : Z) l (stop : Z) : Prop :=
  match l with
  | [] => start = stop
  | i :: l => start = Z.of_nat i /\ chain m (load m (baddr i)) l stop
  end.

Lemma baddr_inj i j : baddr i = baddr j -> i = j.
Proof. unfold baddr, pool_block_base. nia. Qed.

Lemma baddr_index i : (baddr i - b) / bs = Z.of_nat i.
Proof.
  unfold baddr, pool_block_base.
  replace (b + _ - b) with (Z.of_nat i * bs) by lia.
  apply Z.div_mul. lia.
Qed.

Lemma chain_app m s l1 l2 t :
  chain m s (l1 ++ l2) t <-> exists u, chain m s l1 u /\ chain m u l2 t.
Proof.
  revert s; induction l1 as [|i l1 IH]; intros s; simpl.
  - split; [eauto|]. by intros (u & -> & ?).
  - rewrite IH. split; [intros (-> & u & ? & ?)|intros (u & (-> & ?) & ?)]; eauto.
Qed.

Lemma chain_ext m m' s l t :
  (forall i, i ∈ l -> load m' (baddr i) = load m (baddr i)) ->
  chain m s l t -> chain m' s l t.
Proof.
  revert s; induction l as [|i l IH]; intros s Hext; simpl; [done|].
  intros [-> Hc]. split; [done|]. rewrite Hext by left. apply IH; [|done].
  intros j Hj. apply Hext. by right.
Qed.

Lemma chain_store m s l t a v :
  (forall i, i ∈ l -> baddr i <> a) -> chain m s l t -> chain (<[a := v]> m) s l t.
Proof.
  intros Ha. apply chain_ext. intros i Hi. rewrite load_insert_ne; [done|].
  intros Heq. by apply (Ha i Hi).
Qed.

(** A linked chain ending in [last], put in front of a list. *)
Lemma chain_splice m first l last h fl t :
  chain m first l (Z.of_nat last) -> chain m h fl t ->
  last ∉ l -> last ∉ fl ->
  chain (<[baddr last := h]> m) first (l ++ last :: fl) t.
Proof.
  intros Hc Hf Hl Hfl.
  assert (Hst : forall s l' u, last ∉ l' -> chain m s l' u -> chain (<[baddr last := h]> m) s l' u).
  { intros s l' u Hn. apply chain_store. intros i Hi Heq. apply baddr_inj in Heq as ->. done. }
  apply chain_app. exists (Z.of_nat last). split; [by apply Hst|].
  simpl. split; [done|]. rewrite load_insert. by apply Hst.
Qed.
End chain.

(** ** The CAS loops under the critical section *)

Lemma reserve_used_spec fails r margin :
  reserve_used fails r margin (used r) =
  if used r + margin <? capacity r then Some (u16 (used r + 1)) else None.
Proof. induction fails as [|f IH]; simpl; [done|]. rewrite IH. by destruct (_ <? _). Qed.

Lemma pop_head_spec fails m r :
  pop_head fails m r (free_head r) =
  let idx := pool_head_index (free_head r) in
  if idx =? pool_index_invalid then None
  else Some (idx, pool_pack_head (load_next m r idx) (pool_head_tag (free_head r) + 1)).
Proof. induction fails as [|f IH]; simpl; [done|]. rewrite IH. simpl. by destruct (_ =? _). Qed.

Lemma raise_hwm_spec fails u h : raise_hwm fails u h h = if h <? u then u else h.
Proof. induction fails as [|f IH]; simpl; [done|]. rewrite IH. by destruct (_ <? _). Qed.

Lemma push_chain_spec fails m r first last :
  push_chain fails m r first last (free_head r) =
  (<[pool_block_base (base r) last (block_size r) := pool_head_index (free_head r)]> m,
   pool_pack_head first (pool_head_tag (free_head r) + 1)).
Proof.
  revert m; induction fails as [|f IH]; intros m; simpl; [done|].
  rewrite IH. unfold pool_store_next. by rewrite insert_insert_eq.
Qed.

(** ** Representation *)

Record pool_repr (m : memory) (r : PoolRecord) (pid : Z) (fl : list nat) (L : ledger) : Prop := {
  pr_len : ledger_cap L = capacity r;
  pr_cap : 0 < capacity r < 0xFFFF;
  pr_bs : 4 <= block_size r;
  pr_chain : chain (base r) (block_size r) m (pool_head_index (free_head r)) fl pool_index_invalid;
  pr_nodup : NoDup fl;
  pr_free : forall i, i ∈ fl <-> blks L !! i = Some BFree;
  pr_live : forall i s c, blks L !! i = Some (BLive s c) ->
    load m (baddr (base r) (block_size r) i) = event_word s pid c /\ in_u 16 s /\ 0 < c < 256;
  pr_used : used r = ledger_used L;
  pr_hwm : high_watermark r = hwm L /\ used r <= hwm L <= capacity r
}.

Section pool_repr.
Context (m : memory) (r : PoolRecord) (pid : Z) (fl : list nat) (L : ledger).
Context (H : pool_repr m r pid fl L).

Lemma repr_lt i b : blks L !! i = Some b -> Z.of_nat i < capacity r.
Proof. intros Hi%lookup_lt_Some. rewrite <- (pr_len _ _ _ _ _ H). unfold ledger_cap. lia. Qed.

Lemma repr_free_lt i : i ∈ fl -> Z.of_nat i < capacity r.
Proof. intros Hi%(pr_free _ _ _ _ _ H). by eapply repr_lt. Qed.

Lemma repr_used_free : used r + Z.of_nat (length fl) = capacity r.
Proof.
  rewrite (pr_used _ _ _ _ _ H), <- (pr_len _ _ _ _ _ H).
  assert (Hc : countb (fun b => negb (busy b)) (blks L) = length fl).
  { apply countb_indices; [apply (pr_nodup _ _ _ _ _ H)|]. intros i.
    rewrite (pr_free _ _ _ _ _ H). split; [eauto|]. intros ([] & ? & ?); done. }
  rewrite <- Hc. unfold ledger_used, ledger_cap. clear.
  induction (blks L) as [|b l IH]; simpl; [done|]. destruct b; simpl; lia.
Qed.

Lemma repr_head_nil : pool_head_index (free_head r) = pool_index_invalid <-> fl = [].
Proof.
  pose proof (pr_chain _ _ _ _ _ H) as Hc. split; [|by intros ->].
  intros Hi. pose proof (pr_cap _ _ _ _ _ H). pose proof repr_free_lt as Hlt.
  destruct fl as [|i l]; [done|]. destruct Hc as [Hh _].
  specialize (Hlt i ltac:(left)). unfold pool_index_invalid in *. lia.
Qed.

Lemma repr_used_lt : used r < capacity r <-> fl <> [].
Proof. pose proof repr_used_free. destruct fl; simpl in *; [naive_solver lia|]. split; [done|lia]. Qed.
End pool_repr.

Lemma ledger_set_used L i b b' :
  blks L !! i = Some b ->
  ledger_used (ledger_set L i b') = ledger_used L + (if busy b' then 1 else 0) - (if busy b then 1 else 0).
Proof.
  intros Hi. unfold ledger_used. pose proof (countb_insert busy _ _ _ b' Hi). simpl.
  destruct (busy b), (busy b'); lia.
Qed.

Section claim.
Context (m : memory) (r : PoolRecord) (pid : Z) (L : ledger) (s : Z).
Context (Hs : in_u 16 s).

Lemma chain_start_small b bs fl n start :
  (forall i, i ∈ fl -> Z.of_nat i < n) -> n < 0xFFFF ->
  chain b bs m start fl pool_index_invalid -> in_u 16 start.
Proof.
  intros Hlt Hn. destruct fl as [|i fl]; simpl.
  - intros ->. unfold in_u, pool_index_invalid. lia.
  - intros [-> _]. specialize (Hlt i ltac:(left)). unfold in_u. lia.
Qed.

Lemma repr_pop i fl t h :
  pool_repr m r pid (i :: fl) L ->
  h = Z.max (high_watermark r) (used r + 1) ->
  pool_repr (<[baddr (base r) (block_size r) i := event_word s pid 1]> m)
    (mkRecord (pool_pack_head (load_next m r (Z.of_nat i)) t)
       (base r) (block_size r) (capacity r) (u16 (used r + 1)) h)
    pid fl (ledger_alloc L i s).
Proof.
  intros H Hh. pose proof (repr_used_free _ _ _ _ _ H) as Hfree. simpl in Hfree.
  pose proof (proj1 (pr_free _ _ _ _ _ H i) ltac:(left)) as Hi.
  pose proof (repr_free_lt _ _ _ _ _ H) as Hlt.
  destruct H as [Hlen Hcap Hbs [Hhd Hch] Hnd Hfr Hlive Hused [Hhw Hhb]].
  apply NoDup_cons in Hnd as [Hni Hnd].
  assert (Hu : u16 (used r + 1) = used r + 1) by (apply wrap_small; unfold in_u; unfold ledger_used in *; lia).
  assert (Hset : ledger_used (ledger_alloc L i s) = ledger_used L + 1).
  { transitivity (ledger_used (ledger_set L i (BLive s 1))); [done|]. rewrite (ledger_set_used _ _ _ _ Hi). simpl. lia. }
  assert (Hsmall : in_u 16 (load_next m r (Z.of_nat i))).
  { eapply (chain_start_small _ _ fl (capacity r)); [|lia|exact Hch]. intros j Hj. apply Hlt. by right. }
  split; simpl; rewrite ?Hu, ?Hset; try done; try lia.
  - by unfold ledger_cap in *; simpl; rewrite length_insert.
  - rewrite head_index_pack by done. apply chain_store; [|exact Hch].
    intros j Hj Heq. apply baddr_inj in Heq; [|lia]. by subst.
  - intros j. split.
    + intros Hj. rewrite list_lookup_insert_ne by (intros ->; done). apply Hfr. by right.
    + intros [[? ?]|[? Hj]]%lookup_insert_cases; [done|]. apply Hfr in Hj. by apply elem_of_cons in Hj as [?|?].
  - intros j s' c [[-> [= -> ->]]|[Hne Hj]]%lookup_insert_cases.
    + rewrite load_insert. split_and!; [done|done|lia..].
    + rewrite load_insert_ne; [by apply Hlive|]. intros Heq. apply baddr_inj in Heq; [done|lia].
Qed.

Definition claim_ok (fl : list nat) (margin : Z) (res : Z * PoolRecord) : Prop :=
  if used r + margin <? capacity r then
    exists i fl', fl = i :: fl' /\ res.1 = Z.of_nat i /\ blks L !! i = Some BFree /\
      base res.2 = base r /\ block_size res.2 = block_size r /\
      pool_repr (<[baddr (base r) (block_size r) i := event_word s pid 1]> m) res.2 pid fl'
        (ledger_alloc L i s)
  else res = (pool_index_invalid, r).

Lemma claim_cases fl margin :
  pool_repr m r pid fl L -> 0 <= margin -> used r + margin < capacity r ->
  exists i fl', fl = i :: fl' /\ pool_head_index (free_head r) = Z.of_nat i /\
    Z.of_nat i <> pool_index_invalid /\ blks L !! i = Some BFree /\
    (if high_watermark r <? u16 (used r + 1) then u16 (used r + 1) else high_watermark r)
    = Z.max (high_watermark r) (used r + 1).
Proof.
  intros H Hm Hlt. pose proof (proj1 (repr_used_lt _ _ _ _ _ H) ltac:(lia)) as Hne.
  destruct fl as [|i fl]; [done|]. exists i, fl.
  pose proof (pr_chain _ _ _ _ _ H) as [Hh _].
  pose proof (repr_free_lt _ _ _ _ _ H i ltac:(left)). pose proof (pr_cap _ _ _ _ _ H).
  split_and!; [done|done|unfold pool_index_invalid; lia|apply (pr_free _ _ _ _ _ H); left|].
  rewrite wrap_small; [case_test; lia|].
  pose proof (pr_used _ _ _ _ _ H). unfold ledger_used in *. unfold in_u. lia.
Qed.

Lemma claim_single_core_ok fl margin :
  pool_repr m r pid fl L -> 0 <= margin -> claim_ok fl margin (claim_single_core m r margin).
Proof.
  intros H Hm. unfold claim_ok, claim_single_core. destruct (Z.ltb_spec (used r + margin) (capacity r)) as [Hlt|].
  - destruct (claim_cases fl margin H Hm Hlt) as (i & fl' & -> & Hh & Hi & Hb & Hw).
    rewrite Hh, (proj2 (Z.eqb_neq _ _) Hi), Hw. simpl. exists i, fl'. split_and!; try done.
    by apply repr_pop.
  - by rewrite andb_false_r.
Qed.

Lemma claim_smp_ok o fl margin :
  pool_repr m r pid fl L -> 0 <= margin -> claim_ok fl margin (claim_smp o m r margin).
Proof.
  intros H Hm. unfold claim_ok, claim_smp. rewrite reserve_used_spec, pop_head_spec.
  destruct (Z.ltb_spec (used r + margin) (capacity r)) as [Hlt|]; [|done].
  destruct (claim_cases fl margin H Hm Hlt) as (i & fl' & -> & Hh & Hi & Hb & Hw).
  simpl. rewrite Hh, (proj2 (Z.eqb_neq _ _) Hi). cbn [fst snd]. rewrite raise_hwm_spec, Hw. exists i, fl'. split_and!; try done.
  by apply repr_pop.
Qed.
End claim.

(** A busy block that stays busy: its header word changes, the list does not. *)
Lemma repr_touch m r pid fl L i b b' v :
  pool_repr m r pid fl L ->
  blks L !! i = Some b -> busy b = true -> busy b' = true ->
  (forall s c, b' = BLive s c -> v = event_word s pid c /\ in_u 16 s /\ 0 < c < 256) ->
  pool_repr (<[baddr (base r) (block_size r) i := v]> m) r pid fl (ledger_set L i b').
Proof.
  intros H Hi Hb Hb' Hw. assert (Hu : ledger_used (ledger_set L i b') = ledger_used L).
  { rewrite (ledger_set_used _ _ _ _ Hi), Hb, Hb'. lia. }
  destruct H as [Hlen Hcap Hbs Hch Hnd Hfr Hlive Hused Hhw].
  assert (Hfi : i ∉ fl) by (rewrite Hfr, Hi; intros [= ->]; done).
  split; rewrite ?Hu; try done.
  - unfold ledger_cap in *. simpl. by rewrite length_insert.
  - apply chain_store; [|done]. intros j Hj Heq. apply baddr_inj in Heq; [|lia]. by subst.
  - intros j. rewrite Hfr. simpl. destruct (decide (j = i)) as [->|Hne].
    + rewrite Hi, list_lookup_insert_eq by (by eapply lookup_lt_Some). split; intros [= ->]; done.
    + by rewrite list_lookup_insert_ne.
  - intros j s c [[-> Hbe]|[Hne Hj]]%lookup_insert_cases.
    + rewrite load_insert. by apply Hw.
    + rewrite load_insert_ne; [by apply Hlive|]. intros Heq. apply baddr_inj in Heq; [done|lia].
Qed.

(** Blocks given back. *)
Definition free_all (L : ledger) (pl : list nat) : ledger :=
  foldr (fun i L => ledger_set L i BFree) L pl.

Lemma free_all_hwm L pl : hwm (free_all L pl) = hwm L.
Proof. by induction pl. Qed.

Lemma free_all_cap L pl : ledger_cap (free_all L pl) = ledger_cap L.
Proof. induction pl as [|i pl IH]; simpl; [done|]. rewrite <- IH. unfold ledger_cap. simpl. by rewrite length_insert. Qed.

Lemma free_all_lookup_ne L pl j : j ∉ pl -> blks (free_all L pl) !! j = blks L !! j.
Proof.
  induction pl as [|i pl IH]; simpl; [done|]. rewrite not_elem_of_cons. intros [? ?].
  rewrite list_lookup_insert_ne by done. by apply IH.
Qed.

Lemma free_all_lookup L pl j : j ∈ pl -> is_Some (blks L !! j) -> blks (free_all L pl) !! j = Some BFree.
Proof.
  intros Hin Hs. induction pl as [|i pl IH]; simpl; [by apply not_elem_of_nil in Hin|].
  assert (Hl : is_Some (blks (free_all L pl) !! j)).
  { destruct (decide (j ∈ pl)); [rewrite IH by done; eauto|]. by rewrite free_all_lookup_ne. }
  destruct (decide (j = i)) as [->|Hne].
  - apply list_lookup_insert_eq. destruct Hl as [? Hl]. by eapply lookup_lt_Some.
  - rewrite list_lookup_insert_ne by done. apply IH. apply elem_of_cons in Hin as [?|?]; [done|done].
Qed.

Lemma free_all_used L pl :
  NoDup pl -> (forall i, i ∈ pl -> exists b, blks L !! i = Some b /\ busy b = true) ->
  ledger_used (free_all L pl) = ledger_used L - Z.of_nat (length pl).
Proof.
  induction 1 as [|i pl Hni Hnd IH]; intros Hb; simpl; [lia|].
  destruct (Hb i ltac:(left)) as (b & Hi & Hbi).
  rewrite (ledger_set_used _ i b); [|by rewrite free_all_lookup_ne].
  rewrite IH, Hbi by (intros j Hj; apply Hb; by right). simpl. lia.
Qed.

(** The push of [reclaim], [pool_reclaim_chain] and [splice_locked]. *)
Lemma repr_splice m r pid fl L first l last count t :
  pool_repr m r pid fl L ->
  chain (base r) (block_size r) m first l (Z.of_nat last) ->
  NoDup (l ++ [last]) ->
  (forall i, i ∈ l ++ [last] -> exists b, blks L !! i = Some b /\ busy b = true) ->
  count = Z.of_nat (length (l ++ [last])) ->
  pool_repr (<[baddr (base r) (block_size r) last := pool_head_index (free_head r)]> m)
    (mkRecord (pool_pack_head first t) (base r) (block_size r) (capacity r)
       (u16 (used r - count)) (high_watermark r))
    pid (l ++ last :: fl) (free_all L (l ++ [last])).
Proof.
  intros H Hc Hnd Hb Hcount. pose proof (free_all_used L _ Hnd Hb) as Hfu. rewrite <- Hcount in Hfu.
  pose proof (repr_lt _ _ _ _ _ H) as Hlt. pose proof (repr_used_free _ _ _ _ _ H) as Huf.
  destruct H as [Hlen Hcap Hbs Hch Hnd0 Hfr Hlive Hused Hhw].
  assert (Hdis : forall i, i ∈ l ++ [last] -> i ∉ fl).
  { intros i Hi Hf. destruct (Hb i Hi) as (b & Hbi & Hbb). apply Hfr in Hf. rewrite Hbi in Hf. by simplify_eq. }
  assert (Hlast : last ∈ l ++ [last]) by (rewrite elem_of_app; right; by left).
  assert (Hll : last ∉ l) by (apply NoDup_app in Hnd as (_ & Hd & _); intros Hl; apply (Hd _ Hl); by left).
  assert (Hchain : chain (base r) (block_size r)
     (<[baddr (base r) (block_size r) last := pool_head_index (free_head r)]> m) first (l ++ last :: fl) pool_index_invalid).
  { apply chain_splice; [lia|done|done|done|by apply Hdis]. }
  assert (Hsplit : l ++ last :: fl = (l ++ [last]) ++ fl) by (by rewrite <- app_assoc).
  assert (Hin : forall i, i ∈ l ++ last :: fl -> Z.of_nat i < capacity r).
  { intros i. rewrite Hsplit, elem_of_app. intros [Hi|Hi%Hfr]; [|by eapply Hlt].
    destruct (Hb i Hi) as (b & Hbi & _). by eapply Hlt. }
  assert (Hu : u16 (used r - count) = ledger_used (free_all L (l ++ [last]))).
  { rewrite Hfu, <- Hused. apply wrap_small. unfold in_u. unfold ledger_used in *. lia. }
  split; simpl; rewrite ?Hu, ?free_all_cap, ?free_all_hwm; try done.
  - rewrite head_index_pack; [done|]. by eapply (chain_start_small _ _ _ _ _ _ Hin); [lia|].
  - rewrite Hsplit. apply NoDup_app. split_and!; [done|by intros i ?%Hdis|done].
  - intros i. rewrite Hsplit, elem_of_app. destruct (decide (i ∈ l ++ [last])) as [Hi|Hi].
    + rewrite free_all_lookup; [naive_solver|done|]. destruct (Hb i Hi) as (b & -> & _). eauto.
    + rewrite free_all_lookup_ne, Hfr by done. naive_solver.
  - intros i s c Hi. destruct (decide (i ∈ l ++ [last])) as [Hp|Hp].
    + rewrite free_all_lookup in Hi; [done|done|]. destruct (Hb i Hp) as (b & -> & _). eauto.
    + rewrite free_all_lookup_ne in Hi by done.
      rewrite load_insert_ne; [by apply Hlive|]. intros Heq. apply baddr_inj in Heq; [by subst|lia].
  - destruct Hhw. split; [done|]. rewrite Hfu, <- Hused. lia.
Qed.
