(* ===== verification/PoolWorld.v ===== *)
(** * All event pools together (include/coact/event.hpp, include/coact/pool.hpp)

    The registry, several pools with disjoint storage and the operations that
    find a pool through the id stored in an event.  [world_ok] relates the
    machine state to one [ledger] per registered pool; every operation is
    proved to implement its ledger transition. *)

From stdpp Require Import functions.
From S2P Require Import Prelude EventPool.

(** Base address and stride of each registered pool: fixed after [init]. *)
Abbreviation geometry := (nat -> Z * Z).

(** A handle names block [h.2] of pool [h.1]; the code's handle is its address. *)
Definition haddr (G : geometry) (h : nat * nat) : Z := baddr (G h.1).1 (G h.1).2 h.2.

Record tracked (G : geometry) (w : world) (k : nat) (P : EventPool) (fl : list nat) (L : ledger) : Prop := {
  tr_pool : pools w !! k = Some P;
  tr_geo : G k = (base (record_ P), block_size (record_ P));
  tr_id : 1 <= pool_id_ P <= Z.of_nat kMaxEventPools;
  tr_reg : g_pool_registry w !! Z.to_nat (pool_id_ P - 1) = Some (Some k);
  tr_cs : cs_ P = true;
  tr_repr : pool_repr (mem w) (record_ P) (pool_id_ P) fl L
}.

(** [p] and [q] are (base, stride) and block counts of storage areas. *)
Definition apart (p : Z * Z) (n : Z) (q : Z * Z) (n' : Z) : Prop :=
  p.1 + n * p.2 <= q.1 \/ q.1 + n' * q.2 <= p.1.

Record world_ok (G : geometry) (w : world) (Ls : gmap nat ledger) : Prop := {
  wo_pool : forall k L, Ls !! k = Some L -> exists P fl, tracked G w k P fl L;
  wo_disj : forall k1 k2 L1 L2, Ls !! k1 = Some L1 -> Ls !! k2 = Some L2 -> k1 <> k2 ->
    apart (G k1) (ledger_cap L1) (G k2) (ledger_cap L2)
}.

Section world.
Context (G : geometry).
Implicit Types (w : world) (Ls : gmap nat ledger).

Lemma repr_frame m m' r pid fl L :
  (forall i, Z.of_nat i < capacity r ->
     load m' (baddr (base r) (block_size r) i) = load m (baddr (base r) (block_size r) i)) ->
  pool_repr m r pid fl L -> pool_repr m' r pid fl L.
Proof.
  intros Hext H. pose proof (repr_free_lt _ _ _ _ _ H) as Hf.
  pose proof (repr_lt _ _ _ _ _ H) as Hlt.
  destruct H. split; try done.
  - eapply chain_ext; [|done]. intros i Hi. by apply Hext, Hf.
  - intros i s c Hi. rewrite Hext by (by eapply Hlt). by eapply pr_live.
Qed.

Lemma apart_addr p n q n' (i j : nat) :
  0 < p.2 -> 0 < q.2 -> Z.of_nat i < n -> Z.of_nat j < n' -> apart p n q n' ->
  baddr p.1 p.2 i <> baddr q.1 q.2 j.
Proof. unfold apart, baddr, pool_block_base. intros ? ? ? ? [?|?]; nia. Qed.

(** One pool's transition, every other pool framed. *)
Lemma world_update w Ls k L P fl L' m' r' fl' :
  world_ok G w Ls -> Ls !! k = Some L -> tracked G w k P fl L ->
  base r' = base (record_ P) -> block_size r' = block_size (record_ P) ->
  ledger_cap L' = ledger_cap L ->
  (forall a, (forall i, Z.of_nat i < ledger_cap L -> a <> haddr G (k, i)) -> load m' a = load (mem w) a) ->
  pool_repr m' r' (pool_id_ P) fl' L' ->
  world_ok G (set_pool (set_mem w m') k (with_record P r')) (<[k := L']> Ls).
Proof.
  intros [Hp Hd] HL Ht Hb Hs Hc Hm Hr. split.
  - intros k0 L0. rewrite lookup_insert_Some. intros [[<- <-]|[Hne HL0]].
    + exists (with_record P r'), fl'. destruct Ht.
      split; simpl; try done; [by rewrite lookup_insert_eq|by rewrite Hb, Hs].
    + destruct (Hp k0 L0 HL0) as (P0 & fl0 & Ht0). exists P0, fl0.
      destruct Ht0 as [Hp0 Hg0 Hi0 Hr0 Hc0 Hrepr0].
      split; simpl; try done; [by rewrite lookup_insert_ne|].
      eapply repr_frame; [|done]. intros i Hi. apply Hm. intros j Hj.
      pose proof (Hd k0 k _ _ HL0 HL (not_eq_sym Hne)) as Ha. rewrite Hg0 in Ha.
      rewrite <- (pr_len _ _ _ _ _ Hrepr0) in Hi. pose proof (pr_bs _ _ _ _ _ Hrepr0).
      destruct Ht as [? Hg ? ? ? Hrep]. pose proof (pr_bs _ _ _ _ _ Hrep).
      eapply (apart_addr (base (record_ P0), block_size (record_ P0)) (ledger_cap L0) (G k) (ledger_cap L));
        [simpl; lia|rewrite Hg; simpl; lia|done..].
  - intros k1 k2 L1 L2. rewrite !lookup_insert_Some.
    intros [[<- <-]|[? ?]] [[<- <-]|[? ?]] Hne; [done| | |]; rewrite ?Hc; by eapply Hd.
Qed.

Lemma world_update_mem w Ls k L P fl L' m' :
  world_ok G w Ls -> Ls !! k = Some L -> tracked G w k P fl L ->
  ledger_cap L' = ledger_cap L ->
  (forall a, (forall i, Z.of_nat i < ledger_cap L -> a <> haddr G (k, i)) -> load m' a = load (mem w) a) ->
  pool_repr m' (record_ P) (pool_id_ P) fl L' ->
  world_ok G (set_mem w m') (<[k := L']> Ls).
Proof.
  intros Hw HL Ht Hc Hm Hr.
  assert (set_mem w m' = set_pool (set_mem w m') k (with_record P (record_ P))) as ->.
  { unfold set_pool, set_mem, with_record. simpl. f_equal. symmetry. apply insert_id.
    rewrite (tr_pool _ _ _ _ _ _ Ht). by destruct P. }
  by eapply world_update.
Qed.

Lemma ledger_cap_set L i b : ledger_cap (ledger_set L i b) = ledger_cap L.
Proof. unfold ledger_cap. simpl. by rewrite length_insert. Qed.

Lemma tracked_addr w k P fl L i :
  tracked G w k P fl L -> haddr G (k, i) = baddr (base (record_ P)) (block_size (record_ P)) i.
Proof. intros Ht. unfold haddr. simpl. by rewrite (tr_geo _ _ _ _ _ _ Ht). Qed.

Lemma store_elsewhere w k L i b v :
  blks L !! i = Some b -> forall a, (forall j, Z.of_nat j < ledger_cap L -> a <> haddr G (k, j)) ->
  load (<[haddr G (k, i) := v]> (mem w)) a = load (mem w) a.
Proof.
  intros Hi a Ha. apply load_insert_ne. intros Heq. symmetry in Heq. revert Heq. apply Ha.
  apply lookup_lt_Some in Hi. unfold ledger_cap. lia.
Qed.

Lemma id_record w k P fl L : tracked G w k P fl L -> pool_record w (pool_id_ P) = Some k.
Proof.
  intros Ht. pose proof (tr_id _ _ _ _ _ _ Ht). unfold pool_record.
  replace (_ || _) with false by (symmetry; apply orb_false_iff; split; [apply Z.eqb_neq|apply Z.ltb_ge]; lia).
  by rewrite (tr_reg _ _ _ _ _ _ Ht).
Qed.

Lemma id_u8 w k P fl L : tracked G w k P fl L -> in_u 8 (pool_id_ P) /\ pool_id_ P <> 0.
Proof. intros Ht. pose proof (tr_id _ _ _ _ _ _ Ht). unfold in_u, kMaxEventPools in *. lia. Qed.

(** What the header of a live block reads. *)
Lemma live_fields w k P fl L i s c :
  tracked G w k P fl L -> blks L !! i = Some (BLive s c) ->
  let v := load (mem w) (haddr G (k, i)) in
  ev_signal v = s /\ ev_pool_id v = pool_id_ P /\ ev_ref_ctr v = c /\ in_u 16 s /\ 0 < c < 256.
Proof.
  intros Ht Hi. rewrite (tracked_addr _ _ _ _ _ _ Ht). simpl.
  destruct (pr_live _ _ _ _ _ (tr_repr _ _ _ _ _ _ Ht) _ _ _ Hi) as (-> & Hs & Hc).
  destruct (event_word_fields s (pool_id_ P) c) as (-> & -> & ->); [done|by eapply id_u8|unfold in_u; lia|done].
Qed.

(** ** The operations *)

Lemma alloc_spec w Ls o k L sig margin :
  world_ok G w Ls -> Ls !! k = Some L -> in_u 16 sig -> 0 <= margin ->
  if ledger_used L + margin <? ledger_cap L then
    exists i w', alloc_with_margin w o k sig margin = (Some (haddr G (k, i)), w') /\
      blks L !! i = Some BFree /\ world_ok G w' (<[k := ledger_alloc L i sig]> Ls)
  else exists w', alloc_with_margin w o k sig margin = (None, w') /\ world_ok G w' Ls.
Proof.
  intros Hw HL Hsig Hm. destruct (wo_pool _ _ _ Hw _ _ HL) as (P & fl & Ht).
  pose proof (tr_repr _ _ _ _ _ _ Ht) as Hr.
  assert (Hclaim : claim_ok (mem w) (record_ P) (pool_id_ P) L sig fl margin (claim_block P o (mem w) margin)).
  { unfold claim_block. destruct (single_core P); [by apply claim_single_core_ok|by apply claim_smp_ok]. }
  pose proof (id_u8 _ _ _ _ _ Ht) as [_ Hid]. pose proof (pr_cap _ _ _ _ _ Hr).
  unfold alloc_with_margin, claim_raw_block. rewrite (tr_pool _ _ _ _ _ _ Ht), (tr_cs _ _ _ _ _ _ Ht).
  rewrite (proj2 (Z.eqb_neq _ _) Hid), (proj2 (Z.eqb_neq (capacity _) 0)) by lia. simpl.
  rewrite <- (pr_used _ _ _ _ _ Hr), (pr_len _ _ _ _ _ Hr). unfold claim_ok in Hclaim.
  destruct (claim_block _ _ _ _) as [idx r']. case_test; [|injection Hclaim as -> ->].
  - destruct Hclaim as (i & fl' & -> & Hidx & Hi & Hb & Hs & Hr'). simpl in *. subst idx.
    pose proof (repr_lt _ _ _ _ _ Hr _ _ Hi) as Hlt.
    rewrite (proj2 (Z.eqb_neq _ _)) by (unfold pool_index_invalid; lia).
    rewrite lookup_insert_eq. simpl. rewrite Hb, Hs.
    fold (baddr (base (record_ P)) (block_size (record_ P)) i).
    rewrite <- (tracked_addr _ _ _ _ _ i Ht) in Hr' |- *.
    eexists i, _. split_and!; [done|done|].
    eapply (world_update w Ls k L P); try done.
    + transitivity (ledger_cap (ledger_set L i (BLive sig 1))); [done|apply ledger_cap_set].
    + by eapply store_elsewhere.
  - rewrite Z.eqb_refl. eexists. split; [done|]. rewrite <- (insert_id Ls k L HL).
    by eapply (world_update w Ls k L P fl L (mem w)).
Qed.

Lemma ref_inc_spec w Ls k L i s c :
  world_ok G w Ls -> Ls !! k = Some L -> blks L !! i = Some (BLive s c) ->
  if c <? 255 then
    exists w', event_ref_inc w (haddr G (k, i)) = Ret w' /\
      world_ok G w' (<[k := ledger_set L i (BLive s (c + 1))]> Ls)
  else event_ref_inc w (haddr G (k, i)) = Fatal.
Proof.
  intros Hw HL Hi. destruct (wo_pool _ _ _ Hw _ _ HL) as (P & fl & Ht).
  destruct (live_fields _ _ _ _ _ _ _ _ Ht Hi) as (Hs & Hid & Hc & Hs16 & Hcr).
  unfold event_ref_inc, set_ref_ctr. rewrite Hs, Hid, Hc, (id_record _ _ _ _ _ Ht).
  rewrite (proj2 (Z.eqb_neq _ _) (proj2 (id_u8 _ _ _ _ _ Ht))).
  case_test; simpl; [|done].
  eexists. split; [done|]. rewrite wrap_small by (unfold in_u; lia).
  eapply world_update_mem; try done; [apply ledger_cap_set|by eapply store_elsewhere|].
  rewrite (tracked_addr _ _ _ _ _ i Ht).
  eapply repr_touch; try done; [by apply (tr_repr _ _ _ _ _ _ Ht)|].
  intros s' c' [= <- <-]. split_and!; [done|done|lia..].
Qed.

(** The push of one block, in either profile. *)
Lemma reclaim_spec w Ls fails k L i :
  world_ok G w Ls -> Ls !! k = Some L -> blks L !! i = Some BPend ->
  pool_record w (ev_pool_id (load (mem w) (haddr G (k, i)))) = Some k ->
  exists w', reclaim w fails (haddr G (k, i)) = Ret w' /\
    world_ok G w' (<[k := ledger_set L i BFree]> Ls).
Proof.
  intros Hw HL Hi Hid. destruct (wo_pool _ _ _ Hw _ _ HL) as (P & fl & Ht).
  pose proof (tr_repr _ _ _ _ _ _ Ht) as Hr. pose proof (pr_bs _ _ _ _ _ Hr).
  pose proof (pr_cap _ _ _ _ _ Hr). pose proof (repr_lt _ _ _ _ _ Hr _ _ Hi) as Hlt.
  unfold reclaim, reclaim_block. rewrite Hid, (tr_pool _ _ _ _ _ _ Ht), (tracked_addr _ _ _ _ _ i Ht).
  assert (Hge : (base (record_ P) <=? baddr (base (record_ P)) (block_size (record_ P)) i) = true).
  { apply Z.leb_le. unfold baddr, pool_block_base. nia. }
  rewrite Hge, baddr_index by lia. simpl.
  rewrite (wrap_small 32) by (unfold in_u; lia).
  assert (Hspl : forall t, pool_repr
    (<[baddr (base (record_ P)) (block_size (record_ P)) i := pool_head_index (free_head (record_ P))]> (mem w))
    (mkRecord (pool_pack_head (Z.of_nat i) t) (base (record_ P)) (block_size (record_ P)) (capacity (record_ P))
       (u16 (used (record_ P) - 1)) (high_watermark (record_ P)))
    (pool_id_ P) (i :: fl) (ledger_set L i BFree)).
  { intros t. apply (repr_splice _ _ _ _ _ _ [] _ _ _ Hr); [done|apply NoDup_singleton| |done].
    intros j Hj. apply list_elem_of_singleton in Hj as ->. eauto. }
  assert (Hfin : forall t, world_ok G
    (set_pool (set_mem w (<[baddr (base (record_ P)) (block_size (record_ P)) i := pool_head_index (free_head (record_ P))]> (mem w))) k
       (with_record P (mkRecord (pool_pack_head (Z.of_nat i) t) (base (record_ P)) (block_size (record_ P)) (capacity (record_ P))
       (u16 (used (record_ P) - 1)) (high_watermark (record_ P))))) (<[k := ledger_set L i BFree]> Ls)).
  { intros t. eapply (world_update w Ls k L P); try done; [apply ledger_cap_set|].
    rewrite <- (tracked_addr _ _ _ _ _ i Ht). by eapply store_elsewhere. }
  destruct (single_core P); simpl; [by eauto|].
  unfold pool_reclaim_chain. rewrite push_chain_spec. simpl. eauto.
Qed.

Lemma ledger_set_set L i b b' : ledger_set (ledger_set L i b) i b' = ledger_set L i b'.
Proof. unfold ledger_set. simpl. by rewrite list_insert_insert_eq. Qed.

Lemma event_gc_spec w Ls fails k L i s c :
  world_ok G w Ls -> Ls !! k = Some L -> blks L !! i = Some (BLive s c) ->
  exists w', event_gc w fails (haddr G (k, i)) = Ret w' /\
    world_ok G w' (<[k := ledger_set L i (dropped BFree s c)]> Ls).
Proof.
  intros Hw HL Hi. destruct (wo_pool _ _ _ Hw _ _ HL) as (P & fl & Ht).
  destruct (live_fields _ _ _ _ _ _ _ _ Ht Hi) as (Hs & Hid & Hc & Hs16 & Hcr).
  unfold event_gc, set_ref_ctr. rewrite Hs, Hid, Hc, (id_record _ _ _ _ _ Ht).
  destruct (id_u8 _ _ _ _ _ Ht) as [Hu8 Hne].
  rewrite (proj2 (Z.eqb_neq _ _) Hne), (proj2 (Z.eqb_neq c 0)) by lia. simpl.
  rewrite wrap_small by (unfold in_u; lia).
  assert (Hstep : world_ok G (set_mem w (<[haddr G (k, i) := event_word s (pool_id_ P) (c - 1)]> (mem w)))
                    (<[k := ledger_set L i (dropped BPend s c)]> Ls)).
  { eapply world_update_mem; try done; [apply ledger_cap_set|by eapply store_elsewhere|].
    rewrite (tracked_addr _ _ _ _ _ i Ht). unfold dropped.
    eapply repr_touch; try done; [by apply (tr_repr _ _ _ _ _ _ Ht)|by destruct (c =? 1)|].
    intros s' c'. case_test; [done|]. intros [= <- <-]. split_and!; [done|done|lia..]. }
  unfold dropped in *. destruct (Z.eqb_spec c 1) as [->|Hc1]; simpl.
  - edestruct (reclaim_spec _ _ fails k (ledger_set L i BPend) i Hstep) as (w' & Hw' & Hok).
    + by rewrite lookup_insert_eq.
    + simpl. apply list_lookup_insert_eq. by eapply lookup_lt_Some.
    + cbn [mem set_mem]. rewrite load_insert.
      destruct (event_word_fields s (pool_id_ P) (1 - 1)) as (_ & -> & _); [done|done|done|].
      apply (id_record _ _ _ _ _ Ht).
    + exists w'. split; [done|]. by rewrite insert_insert_eq, ledger_set_set in Hok.
  - rewrite (proj2 (Z.eqb_neq (c - 1) 0)) by lia. eauto.
Qed.
End world.

(** ** Initialisation *)

Lemma align_up_spec a x :
  0 <= a -> let r := Z.land (x + 2 ^ a - 1) (Z.lnot (2 ^ a - 1)) in
  x <= r < x + 2 ^ a /\ (2 ^ a | r).
Proof.
  intros Ha. pose proof (pow2_pos a Ha) as Hp. cbv zeta.
  rewrite <- Z.ldiff_land. replace (2 ^ a - 1) with (Z.ones a) by (rewrite Z.ones_equiv; lia).
  rewrite Z.ldiff_ones_r, Z.shiftl_mul_pow2, Z.shiftr_div_pow2 by done.
  pose proof (Z.div_mod (x + 2 ^ a - 1) (2 ^ a) ltac:(lia)).
  pose proof (Z.mod_pos_bound (x + 2 ^ a - 1) (2 ^ a) Hp).
  split; [lia|]. exists ((x + 2 ^ a - 1) / 2 ^ a). lia.
Qed.

Section chain_blocks.
Context (b st n : Z) (Hst : 0 < st).

Lemma chain_blocks_other m i fuel a :
  (forall j, i <= j < i + Z.of_nat fuel -> a <> pool_block_base b j st) ->
  load (chain_blocks m b st n i fuel) a = load m a.
Proof.
  revert m i; induction fuel as [|f IH]; intros m i Ha; simpl; [done|].
  rewrite IH by (intros j Hj; apply Ha; lia).
  apply load_insert_ne. intros Heq. apply (Ha i); [lia|done].
Qed.

Lemma chain_blocks_at m i fuel j :
  i <= j < i + Z.of_nat fuel ->
  load (chain_blocks m b st n i fuel) (pool_block_base b j st)
  = if j + 1 <? n then j + 1 else pool_index_invalid.
Proof.
  revert m i; induction fuel as [|f IH]; intros m i Hj; simpl; [lia|].
  destruct (decide (j = i)) as [->|Hne]; [|by apply IH; lia].
  rewrite chain_blocks_other by (intros j' Hj'; unfold pool_block_base; nia).
  apply load_insert.
Qed.

Lemma chain_seq m cnt i :
  (forall j, 0 <= j < n -> load m (pool_block_base b j st) = if j + 1 <? n then j + 1 else pool_index_invalid) ->
  Z.of_nat i + Z.of_nat (S cnt) = n ->
  chain b st m (Z.of_nat i) (seq i (S cnt)) pool_index_invalid.
Proof.
  intros Hm. revert i. induction cnt as [|cnt IH]; intros i Hi.
  - simpl. split; [done|]. unfold baddr. rewrite Hm by lia. case_test; [lia|done].
  - change (seq i (S (S cnt))) with (i :: seq (S i) (S cnt)).
    cbn [chain]. split; [done|]. unfold baddr. rewrite Hm by lia.
    destruct (Z.ltb_spec (Z.of_nat i + 1) n); [|lia].
    replace (Z.of_nat i + 1) with (Z.of_nat (S i)) by lia. apply IH. lia.
Qed.
End chain_blocks.

(** The static assertions on the template parameters. *)
Definition pool_params_ok (P : EventPool) : bool :=
  (0 <? Capacity P) && (Capacity P <? 0xFFFF) && (4 <=? BlockSize P) &&
  (2 <=? BlockAlign P) && (Z.land (BlockAlign P) (BlockAlign P - 1) =? 0) &&
  (pool_block_align (BlockAlign P) (BlockSize P) <=? 0xFFFF).

Definition new_ledger (n : Z) : ledger := mkLedger (replicate (Z.to_nat n) BFree) 0.

Definition stride (P : EventPool) : Z := pool_block_align (BlockAlign P) (BlockSize P).

(** Where the blocks of a pool end up in the storage handed to [init]. *)
Lemma geometry_spec P raw bytes :
  pool_params_ok P = true -> 0 < block_count P raw bytes ->
  let begin := aligned_begin (BlockAlign P) raw in
  4 <= stride P <= 0xFFFF /\ BlockSize P <= stride P /\ (BlockAlign P | stride P) /\
  raw <= begin /\ (BlockAlign P | begin) /\
  begin + block_count P raw bytes * stride P <= raw + bytes /\
  0 < block_count P raw bytes < 0xFFFF.
Proof.
  unfold pool_params_ok, stride. intros Hp Hn. cbv zeta. split_bools.
  assert (Hal : BlockAlign P = 2 ^ Z.log2 (BlockAlign P)) by (apply land_pred_pow2; [lia|done]).
  pose proof (align_up_spec _ (BlockSize P) (Z.log2_nonneg (BlockAlign P))) as [Hs1 Hs2].
  pose proof (align_up_spec _ raw (Z.log2_nonneg (BlockAlign P))) as [Hr1 Hr2].
  rewrite <- Hal in Hs1, Hs2, Hr1, Hr2.
  fold (pool_block_align (BlockAlign P) (BlockSize P)) in Hs1, Hs2.
  fold (aligned_begin (BlockAlign P) raw) in Hr1, Hr2.
  unfold block_count in *. destruct (Z.leb_spec (aligned_begin (BlockAlign P) raw) (raw + bytes)); [|lia].
  set (st := pool_block_align _ _) in *.
  set (q := (raw + bytes - aligned_begin (BlockAlign P) raw) / st) in *.
  assert (q * st <= raw + bytes - aligned_begin (BlockAlign P) raw) by (rewrite Z.mul_comm; apply Z.mul_div_le; lia).
  split_and!; try done; try lia. nia.
Qed.

Lemma new_ledger_cap n : 0 <= n -> ledger_cap (new_ledger n) = n.
Proof. intros. unfold ledger_cap. simpl. rewrite length_replicate. lia. Qed.

Lemma new_pool_repr m P raw bytes pid :
  pool_params_ok P = true -> 0 < block_count P raw bytes ->
  let begin := aligned_begin (BlockAlign P) raw in
  let n := block_count P raw bytes in
  pool_repr (chain_blocks m begin (stride P) n 0 (Z.to_nat n))
    (mkRecord (pool_pack_head 0 0) begin (u16 (stride P)) (u16 n) 0 0)
    pid (seq 0 (Z.to_nat n)) (new_ledger n).
Proof.
  intros Hp Hn. destruct (geometry_spec P raw bytes Hp Hn) as (Hst & _ & _ & _ & _ & _ & Hn').
  cbv zeta. set (n := block_count P raw bytes) in *.
  rewrite !wrap_small by (unfold in_u; lia).
  split; simpl.
  - apply new_ledger_cap. lia.
  - lia.
  - lia.
  - replace (Z.to_nat n) with (S (Nat.pred (Z.to_nat n))) by lia.
    apply (chain_seq _ _ n _ _ 0%nat); [|lia]. intros j Hj. apply chain_blocks_at; lia.
  - apply NoDup_seq.
  - intros i. rewrite elem_of_seq, lookup_replicate. split; [intros; split; [done|lia]|intros [_ ?]; lia].
  - intros i s c [Hf _]%lookup_replicate. done.
  - unfold ledger_used. simpl. induction (Z.to_nat n); simpl; done.
  - lia.
Qed.

(** A slot is available to pool [k] in the registry. *)
Definition can_register (g : list (option nat)) (k : nat) : bool :=
  match find_idx (slot_is (Some k)) g, find_idx (slot_is None) g with
  | None, None => false
  | _, _ => true
  end.

Lemma slot_is_true k s : slot_is k s = true <-> s = k.
Proof. unfold slot_is. by rewrite bool_decide_eq_true. Qed.

Lemma register_spec g k :
  length g = kMaxEventPools -> can_register g k = true ->
  let reg := register_pool g (Some k) in
  1 <= reg.1 <= Z.of_nat kMaxEventPools /\
  reg.2 !! Z.to_nat (reg.1 - 1) = Some (Some k) /\ length reg.2 = kMaxEventPools /\
  (forall j k', k' <> k -> g !! j = Some (Some k') -> reg.2 !! j = Some (Some k')).
Proof.
  unfold can_register, register_pool. intros Hlen Hc.
  assert (Hi8 : forall i, (i < length g)%nat -> u8 (Z.of_nat i + 1) = Z.of_nat i + 1).
  { intros i Hi. apply wrap_small. unfold in_u, kMaxEventPools in *. lia. }
  destruct (find_idx (slot_is (Some k)) g) as [i|] eqn:Hk; simpl.
  - pose proof (find_idx_lt _ _ _ Hk) as Hlt. apply find_idx_Some in Hk as (x & Hx & Hp & _).
    apply slot_is_true in Hp as ->. rewrite Hi8 by done.
    replace (Z.to_nat (Z.of_nat i + 1 - 1)) with i by lia. split_and!; try done; lia.
  - destruct (find_idx (slot_is None) g) as [i|] eqn:Hn; simpl; [|done].
    pose proof (find_idx_lt _ _ _ Hn) as Hlt. apply find_idx_Some in Hn as (x & Hx & Hp & _).
    apply slot_is_true in Hp as ->. rewrite Hi8 by done.
    replace (Z.to_nat (Z.of_nat i + 1 - 1)) with i by lia.
    split_and!; [lia|lia|by apply list_lookup_insert_eq|by rewrite length_insert|].
    intros j k' Hne Hj. rewrite list_lookup_insert_ne; [done|]. intros ->. congruence.
Qed.

(** [EventPool::init] turns raw storage into a pool: for every storage area
    that leaves room for at least one aligned block and a free registry slot it
    succeeds; blocks lie inside the area, are aligned and as large as asked,
    every one of them is idle, and the pools registered before are untouched. *)
Theorem init_builds_pool (G : geometry) (w : world) (Ls : gmap nat ledger) (k : nat) (P : EventPool)
    (raw bytes : Z) :
  world_ok G w Ls -> Ls !! k = None -> pools w !! k = Some P -> pool_id_ P = 0 ->
  pool_params_ok P = true -> length (g_pool_registry w) = kMaxEventPools ->
  can_register (g_pool_registry w) k = true ->
  let begin := aligned_begin (BlockAlign P) raw in
  let n := block_count P raw bytes in
  0 < n ->
  (forall k' L', Ls !! k' = Some L' -> apart (raw, 1) bytes (G k') (ledger_cap L')) ->
  exists w', init w k (Some raw) bytes true = (true, w') /\
    world_ok (<[k := (begin, stride P)]> G) w' (<[k := new_ledger n]> Ls) /\
    raw <= begin /\ begin + n * stride P <= raw + bytes /\ BlockSize P <= stride P /\
    (BlockAlign P | begin) /\ (BlockAlign P | stride P).
Proof.
  intros Hw HLk Hpk Hid Hpar Hlen Hreg begin n Hn Hap.
  destruct (geometry_spec P raw bytes Hpar Hn) as (Hst & Hbs & Has & Hraw & Hab & Hend & Hn').
  destruct (register_spec _ _ Hlen Hreg) as (Hrid & Hrk & _ & Hro).
  unfold init. rewrite Hpk, Hid. change (negb (0 =? 0) || negb true) with false. cbv beta iota zeta.
  fold n begin (stride P).
  rewrite (proj2 (Z.eqb_neq n 0)) by lia.
  set (reg := register_pool _ _) in *. rewrite (proj2 (Z.eqb_neq reg.1 0)) by lia. simpl.
  eexists. split_and!; [done| |done..].
  split.
  - intros k0 L0. rewrite lookup_insert_Some. intros [[<- <-]|[Hne HL0]].
    + eexists _, (seq 0 (Z.to_nat n)). split; cbn [pools g_pool_registry mem cs_ pool_id_ record_ base block_size];
        [by rewrite lookup_insert_eq| |done|done|done|by apply new_pool_repr].
      by rewrite fn_lookup_insert, wrap_small by (unfold in_u; lia).
    + destruct (wo_pool _ _ _ Hw _ _ HL0) as (P0 & fl0 & [Hp0 Hg0 Hi0 Hr0 Hc0 Hrepr0]).
      exists P0, fl0. split; cbn [pools g_pool_registry mem]; try done.
      * by rewrite lookup_insert_ne.
      * by rewrite fn_lookup_insert_ne.
      * by apply Hro.
      * eapply repr_frame; [|done]. intros i Hi. apply chain_blocks_other.
        intros j Hj Heq. specialize (Hap _ _ HL0). rewrite Hg0 in Hap.
        rewrite <- (pr_len _ _ _ _ _ Hrepr0) in Hi. pose proof (pr_bs _ _ _ _ _ Hrepr0).
        assert (Hlo : raw <= baddr (base (record_ P0)) (block_size (record_ P0)) i)
          by (rewrite Heq; unfold pool_block_base; nia).
        assert (Hhi : baddr (base (record_ P0)) (block_size (record_ P0)) i < raw + bytes)
          by (rewrite Heq; unfold pool_block_base; nia).
        unfold apart, baddr, pool_block_base in *. simpl in *. destruct Hap; nia.
  - assert (Hout : forall k' L', Ls !! k' = Some L' -> apart (begin, stride P) n (G k') (ledger_cap L')).
    { intros k' L' HL'. destruct (Hap _ _ HL'); unfold apart; simpl in *; lia. }
    intros k1 k2 L1 L2. rewrite !lookup_insert_Some.
    intros [[<- <-]|[? HL1]] [[<- <-]|[? HL2]] Hne; [done| | |];
      rewrite ?fn_lookup_insert, ?fn_lookup_insert_ne, ?new_ledger_cap by (done || lia).
    + by apply Hout.
    + destruct (Hout _ _ HL1); [by right|by left].
    + by eapply Hw.
Qed.

Lemma world_ok_empty G g : world_ok G (mkWorld ∅ g (replicate kMaxEventPools None)) ∅.
Proof. split; intros *; by rewrite lookup_empty. Qed.

(** 100 bytes at address 1003, blocks of 20 bytes aligned to 8: three blocks. *)
Lemma init_builds_pool_witness :
  let P := pool_ctor 20 10 8 false in
  let w := mkWorld ∅ {[ 7%nat := P ]} (replicate kMaxEventPools None) in
  block_count P 1003 100 = 3 /\
  exists w', init w 7 (Some 1003) 100 true = (true, w') /\
    world_ok (<[7%nat := (1008, 24)]> (fun _ => (0, 0))) w' (<[7%nat := new_ledger 3]> ∅).
Proof.
  split; [reflexivity|].
  destruct (init_builds_pool (fun _ => (0, 0)) (mkWorld ∅ {[ 7%nat := pool_ctor 20 10 8 false ]} (replicate kMaxEventPools None))
    ∅ 7 (pool_ctor 20 10 8 false) 1003 100) as (w' & Hi & Hok & _).
  - apply world_ok_empty.
  - reflexivity.
  - reflexivity.
  - reflexivity.
  - reflexivity.
  - reflexivity.
  - reflexivity.
  - reflexivity.
  - intros k' L' HL. by rewrite lookup_empty in HL.
  - exists w'. split; [exact Hi|exact Hok].
Defined.

(** ** The operations against the ledger *)

Inductive pool_op :=
| PAlloc (k : nat) (signal margin : Z)
| PRefInc (h : nat * nat)
| PGc (h : nat * nat).

(** The abstract transition and the abstract answer: the handle an allocation
    returns, or the abort of the process. *)
Inductive ledger_step (Ls : gmap nat ledger) : pool_op -> outcome (option (nat * nat)) -> gmap nat ledger -> Prop :=
| ls_alloc k L i signal margin :
    Ls !! k = Some L -> blks L !! i = Some BFree -> ledger_used L + margin < ledger_cap L ->
    ledger_step Ls (PAlloc k signal margin) (Ret (Some (k, i))) (<[k := ledger_alloc L i signal]> Ls)
| ls_exhausted k L signal margin :
    Ls !! k = Some L -> ledger_cap L <= ledger_used L + margin ->
    ledger_step Ls (PAlloc k signal margin) (Ret None) Ls
| ls_ref k L i s c :
    Ls !! k = Some L -> blks L !! i = Some (BLive s c) -> c < 255 ->
    ledger_step Ls (PRefInc (k, i)) (Ret None) (<[k := ledger_set L i (BLive s (c + 1))]> Ls)
| ls_ref_overflow k L i s :
    Ls !! k = Some L -> blks L !! i = Some (BLive s 255) ->
    ledger_step Ls (PRefInc (k, i)) Fatal Ls
| ls_gc k L i s c :
    Ls !! k = Some L -> blks L !! i = Some (BLive s c) ->
    ledger_step Ls (PGc (k, i)) (Ret None) (<[k := ledger_set L i (dropped BFree s c)]> Ls).

(** What a client may ask: a 16-bit signal, a margin, a live handle. *)
Definition legal (Ls : gmap nat ledger) (op : pool_op) : Prop :=
  match op with
  | PAlloc k signal margin => is_Some (Ls !! k) /\ in_u 16 signal /\ 0 <= margin
  | PRefInc (k, i) | PGc (k, i) => exists L s c, Ls !! k = Some L /\ blks L !! i = Some (BLive s c)
  end.

Definition run_op (G : geometry) (o : spurious) (w : world) (op : pool_op) : outcome (option Z * world) :=
  match op with
  | PAlloc k signal margin => mret (alloc_with_margin w o k signal margin)
  | PRefInc h => (fun w' => (None, w')) <$> event_ref_inc w (haddr G h)
  | PGc h => (fun w' => (None, w')) <$> event_gc w (sp_head o) (haddr G h)
  end.

(** C2: Every pool operation, in either synchronisation profile and however
    often its CAS loops fail spuriously, implements its ledger transition:
    an allocation returns an idle block exactly when [used + margin <
    capacity], [event_ref_inc] aborts exactly at 255 references, and
    [event_gc] returns the block with the last reference and never earlier.
    All pools, their free lists, [used] and high watermarks stay in step. *)
Theorem pool_ops_refine_ledger (G : geometry) (o : spurious) (w : world) (Ls : gmap nat ledger) (op : pool_op) :
  world_ok G w Ls -> legal Ls op ->
  exists ans Ls', ledger_step Ls op ans Ls' /\
    match run_op G o w op, ans with
    | Ret (a, w'), Ret h => a = haddr G <$> h /\ world_ok G w' Ls'
    | Fatal, Fatal => True
    | _, _ => False
    end.
Proof.
  intros Hw Hl. destruct op as [k signal margin|[k i]|[k i]]; simpl in Hl.
  - destruct Hl as ([L HL] & Hs & Hm). pose proof (alloc_spec G w Ls o k L signal margin Hw HL Hs Hm) as Ha.
    simpl. destruct (Z.ltb_spec (ledger_used L + margin) (ledger_cap L)).
    + destruct Ha as (i & w' & -> & Hi & Hok). eexists _, _. split; [by econstructor|done].
    + destruct Ha as (w' & -> & Hok). eexists _, _. split; [by econstructor|done].
  - destruct Hl as (L & s & c & HL & Hi). pose proof (ref_inc_spec G w Ls k L i s c Hw HL Hi) as Ha.
    simpl. destruct (Z.ltb_spec c 255) as [|Hc].
    + destruct Ha as (w' & -> & Hok). eexists _, _. split; [by econstructor|done].
    + destruct (wo_pool _ _ _ Hw _ _ HL) as (P & fl & Ht).
      destruct (live_fields _ _ _ _ _ _ _ _ _ Ht Hi) as (_ & _ & _ & _ & Hcr).
      assert (c = 255) as -> by lia. rewrite Ha. eexists _, _. split; [by eapply ls_ref_overflow|done].
  - destruct Hl as (L & s & c & HL & Hi).
    destruct (event_gc_spec G w Ls (sp_head o) k L i s c Hw HL Hi) as (w' & Hg & Hok).
    simpl. rewrite Hg. eexists _, _. split; [by econstructor|done].
Qed.

(** One block, allocated from a freshly initialised pool. *)
Lemma pool_ops_refine_ledger_witness :
  let P := pool_ctor 16 4 8 true in
  let w := (init (mkWorld ∅ {[ 7%nat := P ]} (replicate kMaxEventPools None)) 7 (Some 1000) 40 true).2 in
  let G := <[7%nat := (1000, 16)]> (fun _ => (0, 0)) in
  exists ans Ls', ledger_step (<[7%nat := new_ledger 2]> ∅) (PAlloc 7 33 1) ans Ls' /\
    match run_op G (mkSpurious 0 0 0) w (PAlloc 7 33 1), ans with
    | Ret (a, w'), Ret h => a = Some 1000 /\ a = haddr G <$> h /\ world_ok G w' Ls'
    | _, _ => False
    end.
Proof.
  assert (Hok : world_ok (<[7%nat := (1000, 16)]> (fun _ => (0, 0)))
    (init (mkWorld ∅ {[ 7%nat := pool_ctor 16 4 8 true ]} (replicate kMaxEventPools None)) 7 (Some 1000) 40 true).2
    (<[7%nat := new_ledger 2]> ∅)).
  { split.
    - intros k L. rewrite lookup_insert_Some, lookup_empty. intros [[<- <-]|[_ [=]]].
      eexists (mkPool 16 4 8 true (mkRecord 0 1000 16 2 0 0) 1 true), _.
      split; [reflexivity|reflexivity|split; done|reflexivity|reflexivity|].
      exact (new_pool_repr ∅ (pool_ctor 16 4 8 true) 1000 40 1 eq_refl eq_refl).
    - intros k1 k2 L1 L2. rewrite !lookup_insert_Some, !lookup_empty. naive_solver. }
  cbv zeta.
  destruct (pool_ops_refine_ledger _ (mkSpurious 0 0 0) _ _ (PAlloc 7 33 1) Hok) as (ans & Ls' & Hst & Hrun).
  - simpl. split_and!; [exists (new_ledger 2); reflexivity|done|done].
  - exists ans, Ls'. split; [exact Hst|].
    destruct (run_op _ _ _ _) as [[a w']|] eqn:Hr; [|by destruct ans].
    destruct ans as [h|]; [|done]. split; [|done].
    vm_compute in Hr. by injection Hr.
Defined.

(** *** A released handle *)

Lemma free_word_small m b bs s l n i :
  (forall j, j ∈ l -> Z.of_nat j < n) -> n < 0xFFFF ->
  chain b bs m s l pool_index_invalid -> i ∈ l -> in_u 16 (load m (baddr b bs i)).
Proof.
  revert s; induction l as [|j l IH]; intros s Hlt Hn Hc Hi; [by apply not_elem_of_nil in Hi|].
  destruct Hc as [_ Hc]. apply elem_of_cons in Hi as [->|Hi].
  - eapply (chain_start_small _ _ _ l n); [|done|exact Hc]. intros k Hk. apply Hlt. by right.
  - eapply IH; [|done|done|done]. intros k Hk. apply Hlt. by right.
Qed.

(** A double release goes unnoticed: once the last reference has been
    dropped, the header word holds the free-list link, whose [pool_id] byte is
    zero, so a second [event_gc] (or [event_ref_inc], or a batched release) of
    the same handle takes the static-event path and changes nothing, where the
    comment at [event_gc] announces a fatal protocol violation. *)
Theorem double_release_undetected (G : geometry) (w : world) (Ls : gmap nat ledger)
    (fails k i : nat) (L : ledger) (s : Z) :
  world_ok G w Ls -> Ls !! k = Some L -> blks L !! i = Some (BLive s 1) ->
  exists w', event_gc w fails (haddr G (k, i)) = Ret w' /\
    event_gc w' fails (haddr G (k, i)) = Ret w' /\
    event_ref_inc w' (haddr G (k, i)) = Ret w' /\
    forall M b, batcher_release M w' fails b (haddr G (k, i)) = Ret (w', b).
Proof.
  intros Hw HL Hi. destruct (event_gc_spec G w Ls fails k L i s 1 Hw HL Hi) as (w' & Hg & Hok).
  exists w'. split; [done|]. simpl in Hok.
  destruct (wo_pool _ _ _ Hok k (ledger_set L i BFree)) as (P & fl & Ht); [by rewrite lookup_insert_eq|].
  assert (Hz : ev_pool_id (load (mem w') (haddr G (k, i))) = 0).
  { pose proof (tr_repr _ _ _ _ _ _ Ht) as Hr. apply small_word_fields.
    rewrite (tracked_addr _ _ _ _ _ _ i Ht).
    eapply free_word_small; [apply (repr_free_lt _ _ _ _ _ Hr)|apply (pr_cap _ _ _ _ _ Hr)|apply (pr_chain _ _ _ _ _ Hr)|].
    apply (pr_free _ _ _ _ _ Hr). apply list_lookup_insert_eq. by eapply lookup_lt_Some. }
  unfold event_gc, event_ref_inc, batcher_release. rewrite Hz. done.
Qed.

(** A pool of one block whose only event is live. *)
Lemma double_release_undetected_witness :
  let r := mkRecord (pool_pack_head 0xFFFF 1) 64 16 1 1 1 in
  let w := mkWorld {[ 64 := event_word 9 1 1 ]} {[ 0%nat := mkPool 16 1 8 false r 1 true ]}
                   (Some 0%nat :: replicate 15 None) in
  exists w', event_gc w 0 64 = Ret w' /\ event_gc w' 0 64 = Ret w'.
Proof.
  cbv zeta.
  set (r := mkRecord (pool_pack_head 0xFFFF 1) 64 16 1 1 1).
  set (w := mkWorld _ _ _).
  assert (Hok : world_ok (fun _ => (64, 16)) w (<[0%nat := mkLedger [BLive 9 1] 1]> ∅)).
  { split.
    - intros k L. rewrite lookup_insert_Some, lookup_empty. intros [[<- <-]|[_ [=]]].
      exists (mkPool 16 1 8 false r 1 true), []. split; try reflexivity; [split; done|].
      split; try reflexivity; simpl; try lia; [constructor| |].
      + intros [|i]; simpl; split; intros Hx; try done; by apply not_elem_of_nil in Hx.
      + intros [|i] s c; simpl; [|done]. intros [= <- <-]. split; [reflexivity|]. unfold in_u. lia.
    - intros k1 k2 L1 L2. rewrite !lookup_insert_Some, !lookup_empty. naive_solver. }
  destruct (double_release_undetected _ w _ 0 0 0 (mkLedger [BLive 9 1] 1) 9 Hok eq_refl eq_refl)
    as (w' & H1 & H2 & _).
  exists w'. split; [exact H1|exact H2].
Defined.
