(* ===== verification/Batcher.v ===== *)
(** * ReclaimBatcher (include/coact/pool.hpp)

    The dispatcher defers the release of dead events and splices whole chains
    back to their pools.  [batch_ok w b Ls] says that the machine state with
    the pending chains of [b] still out stands for the ledgers [Ls] in which
    those blocks are already idle; each release is proved to act on [Ls]
    exactly as the immediate [event_gc] does, and [flush] makes [Ls] true. *)

From stdpp Require Import functions.
From S2P Require Import Prelude EventPool PoolWorld.

(** The chain an entry describes, for the pending blocks [pl]. *)
Definition pend_chain (G : geometry) (m : memory) (p : Pending) (pl : list nat) : Prop :=
  p_count p = Z.of_nat (length pl) /\ p_count p < kReclaimBatchCap /\
  (pl = [] \/ exists l last, pl = l ++ [last] /\ p_last p = Z.of_nat last /\
     chain (G (p_rec p)).1 (G (p_rec p)).2 m (p_first p) l (Z.of_nat last)).

Record batch_inv (G : geometry) (w : world) (b : batcher) (Lc : gmap nat ledger) (pls : nat -> list nat) : Prop := {
  bi_world : world_ok G w Lc;
  bi_pend : forall k L, Lc !! k = Some L ->
    NoDup (pls k) /\ forall i, blks L !! i = Some BPend <-> i ∈ pls k;
  bi_recs : NoDup (p_rec <$> b);
  bi_entry : forall p, p ∈ b -> is_Some (Lc !! p_rec p) /\ pend_chain G (mem w) p (pls (p_rec p));
  bi_none : forall k, k ∉ p_rec <$> b -> pls k = []
}.

Definition settled (Lc : gmap nat ledger) (pls : nat -> list nat) (Ls : gmap nat ledger) : Prop :=
  forall k, Ls !! k = (fun L => free_all L (pls k)) <$> Lc !! k.

Definition batch_ok (G : geometry) (w : world) (b : batcher) (Ls : gmap nat ledger) : Prop :=
  exists Lc pls, batch_inv G w b Lc pls /\ settled Lc pls Ls.

Lemma free_all_set_comm L i b pl :
  i ∉ pl -> free_all (ledger_set L i b) pl = ledger_set (free_all L pl) i b.
Proof.
  induction pl as [|j pl IH]; simpl; [done|]. rewrite not_elem_of_cons. intros [? ?].
  rewrite IH by done. unfold ledger_set. simpl. by rewrite list_insert_insert_ne.
Qed.

Section batcher.
Context (G : geometry).
Implicit Types (w : world) (b : batcher) (Lc Ls : gmap nat ledger) (pls : nat -> list nat).

(** Memory changes outside a pool's blocks keep its pending chain. *)
Lemma pend_frame w m' Lc k L p :
  world_ok G w Lc -> Lc !! k = Some L -> p_rec p <> k -> is_Some (Lc !! p_rec p) ->
  (forall a, (forall i, Z.of_nat i < ledger_cap L -> a <> haddr G (k, i)) -> load m' a = load (mem w) a) ->
  forall pl, (forall i, i ∈ pl -> exists L' x, Lc !! p_rec p = Some L' /\ blks L' !! i = Some x) ->
  pend_chain G (mem w) p pl -> pend_chain G m' p pl.
Proof.
  intros Hw HL Hne [L' HL'] Hm pl Hin (Hc & Hb & Hch). split_and!; [done|done|].
  destruct Hch as [?|(l & last & -> & Hl & Hch)]; [by left|]. right. exists l, last. split_and!; [done|done|].
  eapply chain_ext; [|done]. intros i Hi. apply Hm. intros j Hj.
  destruct (Hin i) as (L0 & x & HL0 & Hx); [rewrite elem_of_app; by left|]. simplify_eq.
  destruct (wo_pool _ _ _ Hw _ _ HL') as (P' & fl' & Ht'). destruct (wo_pool _ _ _ Hw _ _ HL) as (P & fl & Ht).
  pose proof (wo_disj _ _ _ Hw _ _ _ _ HL' HL Hne) as Hap.
  pose proof (pr_bs _ _ _ _ _ (tr_repr _ _ _ _ _ _ Ht)). pose proof (pr_bs _ _ _ _ _ (tr_repr _ _ _ _ _ _ Ht')).
  unfold haddr. apply (apart_addr _ (ledger_cap L') _ (ledger_cap L)); simpl; try done.
  - rewrite (tr_geo _ _ _ _ _ _ Ht'). simpl. lia.
  - rewrite (tr_geo _ _ _ _ _ _ Ht). simpl. lia.
  - apply lookup_lt_Some in Hx. unfold ledger_cap. lia.
Qed.

(** One pool's ledger, pending chain and entry change; the rest is framed. *)
Lemma batch_update w w' b b' Lc pls k L L' pl' :
  batch_inv G w b Lc pls -> Lc !! k = Some L ->
  world_ok G w' (<[k := L']> Lc) ->
  (forall a, (forall i, Z.of_nat i < ledger_cap L -> a <> haddr G (k, i)) -> load (mem w') a = load (mem w) a) ->
  NoDup pl' -> (forall i, blks L' !! i = Some BPend <-> i ∈ pl') ->
  p_rec <$> b' = p_rec <$> b ->
  (forall p, p ∈ b' -> p_rec p <> k -> p ∈ b) ->
  (forall p, p ∈ b' -> p_rec p = k -> pend_chain G (mem w') p pl') ->
  (k ∉ p_rec <$> b -> pl' = []) ->
  batch_inv G w' b' (<[k := L']> Lc) (<[k := pl']> pls).
Proof.
  intros [Hw Hp Hr He Hn] HL Hw' Hm Hnd Hpl Hrecs Hother Hmine Hnone. split; rewrite ?Hrecs; try done.
  - intros k0 L0. rewrite lookup_insert_Some. intros [[<- <-]|[Hne HL0]].
    + by rewrite fn_lookup_insert.
    + rewrite fn_lookup_insert_ne by done. by apply Hp.
  - intros p Hpb. destruct (decide (p_rec p = k)) as [Hk|Hk].
    + rewrite Hk, lookup_insert_eq, fn_lookup_insert. split; [eauto|by apply Hmine].
    + rewrite lookup_insert_ne, fn_lookup_insert_ne by done.
      destruct (He p (Hother p Hpb Hk)) as [Hs Hc]. split; [done|].
      eapply (pend_frame w (mem w') Lc k L); try done.
      intros i Hi. destruct Hs as [L0 HL0]. exists L0. destruct (Hp _ _ HL0) as [_ Hi0].
      apply Hi0 in Hi. eauto.
  - intros k0 Hk0. destruct (decide (k0 = k)) as [->|Hne].
    + rewrite fn_lookup_insert. by apply Hnone.
    + rewrite fn_lookup_insert_ne by done. by apply Hn.
Qed.

Lemma settled_update Lc pls Ls k L' pl' Limm :
  settled Lc pls Ls -> free_all L' pl' = Limm ->
  settled (<[k := L']> Lc) (<[k := pl']> pls) (<[k := Limm]> Ls).
Proof.
  intros Hs HL k0. destruct (decide (k0 = k)) as [->|Hne].
  - rewrite !lookup_insert_eq, fn_lookup_insert. simpl. by rewrite HL.
  - rewrite !lookup_insert_ne, fn_lookup_insert_ne by done. apply Hs.
Qed.

(** Splicing a pending chain. *)
Lemma splice_spec w Lc fails k L first l last :
  world_ok G w Lc -> Lc !! k = Some L ->
  chain (G k).1 (G k).2 (mem w) first l (Z.of_nat last) -> NoDup (l ++ [last]) ->
  (forall i, i ∈ l ++ [last] -> blks L !! i = Some BPend) ->
  let w' := splice w fails k first (Z.of_nat last) (Z.of_nat (length (l ++ [last]))) in
  world_ok G w' (<[k := free_all L (l ++ [last])]> Lc) /\
  (forall a, (forall i, Z.of_nat i < ledger_cap L -> a <> haddr G (k, i)) -> load (mem w') a = load (mem w) a).
Proof.
  intros Hw HL Hc Hnd Hp. destruct (wo_pool _ _ _ Hw _ _ HL) as (P & fl & Ht).
  assert (Hlast : blks L !! last = Some BPend) by (apply Hp; rewrite elem_of_app; right; by left).
  unfold splice. rewrite (tr_pool _ _ _ _ _ _ Ht). unfold pool_reclaim_chain. rewrite push_chain_spec.
  cbv zeta. cbn [fst snd]. fold (baddr (base (record_ P)) (block_size (record_ P)) last).
  rewrite (tr_geo _ _ _ _ _ _ Ht) in Hc. cbn [fst snd] in Hc.
  assert (Hm : forall a, (forall i, Z.of_nat i < ledger_cap L -> a <> haddr G (k, i)) ->
    load (<[baddr (base (record_ P)) (block_size (record_ P)) last := pool_head_index (free_head (record_ P))]> (mem w)) a
    = load (mem w) a).
  { rewrite <- (tracked_addr _ _ _ _ _ _ last Ht). by eapply store_elsewhere. }
  split; [|exact Hm].
  eapply (world_update G w Lc k L P); try done; [apply free_all_cap|].
  apply (repr_splice _ _ _ _ _ first l last _ _ (tr_repr _ _ _ _ _ _ Ht)); [done|done| |done].
  intros i Hi. exists BPend. split; [by apply Hp|done].
Qed.

Lemma flush_spec w b fails Lc pls Ls :
  batch_inv G w b Lc pls -> settled Lc pls Ls -> world_ok G (batcher_flush w fails b).1 Ls.
Proof.
  revert w Lc pls. induction b as [|p b IH]; intros w Lc pls Hi Hs; simpl.
  - assert (Ls = Lc) as ->; [|apply Hi]. apply map_eq. intros k. rewrite (Hs k).
    destruct (Lc !! k) eqn:E; simpl; [|done]. by rewrite (bi_none _ _ _ _ _ Hi k) by apply not_elem_of_nil.
  - destruct (bi_entry _ _ _ _ _ Hi p ltac:(left)) as [[L HL] (Hcnt & Hcap & Hch)].
    pose proof (bi_recs _ _ _ _ _ Hi) as Hnd. simpl in Hnd. apply NoDup_cons in Hnd as [Hnp Hnd].
    set (w' := if 0 <? p_count p then _ else _).
    destruct (bi_pend _ _ _ _ _ Hi _ _ HL) as [Hndp Hpl].
    assert (Hw' : world_ok G w' (<[p_rec p := free_all L (pls (p_rec p))]> Lc) /\
      (forall a, (forall i, Z.of_nat i < ledger_cap L -> a <> haddr G (p_rec p, i)) -> load (mem w') a = load (mem w) a)).
    { destruct Hch as [Hnil|(l & last & Hl & Hlast & Hc)]; subst w'.
      - rewrite Hcnt, Hnil. simpl. rewrite insert_id by done. split; [apply Hi|done].
      - rewrite Hcnt, Hl, Hlast. rewrite (proj2 (Z.ltb_lt _ _)) by (rewrite length_app; simpl; lia).
        apply splice_spec; [apply Hi|done|done|by rewrite <- Hl|]. intros i. rewrite <- Hl. apply Hpl. }
    destruct Hw' as [Hw' Hm'].
    apply (IH w' (<[p_rec p := free_all L (pls (p_rec p))]> Lc) (<[p_rec p := []]> pls)).
    + destruct Hi as [Hw Hp Hr He Hn]. split; try done.
      * intros k0 L0. rewrite lookup_insert_Some. intros [[<- <-]|[Hne HL0]].
        -- rewrite fn_lookup_insert. split; [constructor|]. intros i. split; [|by intros ?%not_elem_of_nil].
           destruct (decide (i ∈ pls (p_rec p))) as [Hin|Hin].
           ++ rewrite free_all_lookup; [done|done|]. apply Hpl in Hin. eauto.
           ++ rewrite free_all_lookup_ne by done. intros Hx. by apply Hpl in Hx.
        -- rewrite fn_lookup_insert_ne by done. by apply Hp.
      * intros q Hq. assert (Hqp : p_rec q <> p_rec p).
        { intros Heq. apply Hnp. rewrite <- Heq. by apply list_elem_of_fmap_2. }
        rewrite lookup_insert_ne, fn_lookup_insert_ne by done.
        destruct (He q ltac:(by right)) as [Hsq Hcq]. split; [done|].
        eapply (pend_frame w (mem w') Lc (p_rec p) L); try done.
        intros i Hin. destruct Hsq as [L0 HL0]. exists L0. destruct (Hp _ _ HL0) as [_ Hi0].
        apply Hi0 in Hin. eauto.
      * intros k0 Hk0. destruct (decide (k0 = p_rec p)) as [->|Hne]; [by rewrite fn_lookup_insert|].
        rewrite fn_lookup_insert_ne by done. apply Hn. simpl. rewrite elem_of_cons. by intros [?|?].
    + intros k0. destruct (decide (k0 = p_rec p)) as [->|Hne].
      * rewrite lookup_insert_eq, fn_lookup_insert, (Hs (p_rec p)), HL. done.
      * rewrite lookup_insert_ne, fn_lookup_insert_ne by done. apply Hs.
Qed.

Lemma pending_of_spec M w b Lc pls k :
  batch_inv G w b Lc pls -> is_Some (Lc !! k) ->
  match pending_of M b k with
  | None => k ∉ p_rec <$> b
  | Some (j, b') => exists p, b' !! j = Some p /\ p_rec p = k /\ batch_inv G w b' Lc pls
  end.
Proof.
  intros Hi HL. unfold pending_of. destruct (find_idx (is_rec k) b) as [j|] eqn:Hf.
  - apply find_idx_Some in Hf as (p & Hp & Hk & _). apply bool_decide_eq_true in Hk. eauto.
  - assert (Hn : k ∉ p_rec <$> b).
    { rewrite find_idx_None in Hf. intros (p & -> & Hp)%list_elem_of_fmap. apply list_elem_of_lookup in Hp as [j Hj].
      specialize (Hf j p Hj). by apply bool_decide_eq_false in Hf. }
    destruct (M <=? length b)%nat; [done|].
    exists (mkPending k 0 0 0). split_and!; [by apply list_lookup_middle|done|].
    destruct Hi as [Hw Hp Hr He Hno]. split; try done.
    + rewrite fmap_app. apply NoDup_app. split_and!; [done| |apply NoDup_singleton].
      intros x Hx. simpl. rewrite list_elem_of_singleton. by intros ->.
    + intros p. rewrite elem_of_app, list_elem_of_singleton. intros [Hpb| ->]; [by apply He|].
      simpl. split; [done|]. rewrite Hno by done. split_and!; [done|done|by left].
    + intros k0. rewrite fmap_app, elem_of_app. intros Hk0. apply Hno. tauto.
Qed.

(** The dead block linked in front of the pending chain. *)
Lemma link_spec w w1 Lc k L i p pl :
  world_ok G w1 (<[k := ledger_set L i BPend]> Lc) -> p_rec p = k ->
  i ∉ pl -> (i < length (blks L))%nat ->
  (forall j, j <> i -> load (mem w1) (haddr G (k, j)) = load (mem w) (haddr G (k, j))) ->
  pend_chain G (mem w) p pl ->
  let w2 := if p_count p =? 0 then w1
            else set_mem w1 (pool_store_next (mem w1) (haddr G (k, i)) (p_first p)) in
  exists l last, i :: pl = l ++ [last] /\
    (if p_count p =? 0 then Z.of_nat i else p_last p) = Z.of_nat last /\
    world_ok G w2 (<[k := ledger_set L i BPend]> Lc) /\
    chain (G k).1 (G k).2 (mem w2) (Z.of_nat i) l (Z.of_nat last) /\
    (forall a, a <> haddr G (k, i) -> load (mem w2) a = load (mem w1) a).
Proof.
  intros Hw1 Hk Hni Hlen Hfr (Hcnt & _ & Hch). cbv zeta. set (L1 := ledger_set L i BPend) in *.
  assert (Hi1 : blks L1 !! i = Some BPend) by by apply list_lookup_insert_eq.
  destruct (wo_pool _ _ _ Hw1 k L1) as (P & fl & Ht); [by rewrite lookup_insert_eq|].
  assert (Hbs : 0 < (G k).2).
  { rewrite (tr_geo _ _ _ _ _ _ Ht). pose proof (pr_bs _ _ _ _ _ (tr_repr _ _ _ _ _ _ Ht)). simpl. lia. }
  destruct Hch as [->|(l & last & -> & Hlast & Hch)].
  - rewrite Hcnt. simpl. exists [], i. done.
  - rewrite (proj2 (Z.eqb_neq (p_count p) 0)) by (rewrite Hcnt, length_app; simpl; lia).
    exists (i :: l), last. split_and!; [done|done| | |].
    + assert (<[k := L1]> Lc = <[k := ledger_set L1 i BPend]> (<[k := L1]> Lc)) as ->.
      { rewrite insert_insert_eq. unfold L1. by rewrite ledger_set_set. }
      eapply world_update_mem; [done|by rewrite lookup_insert_eq|done|apply ledger_cap_set|by eapply store_elsewhere|].
      unfold pool_store_next. rewrite (tracked_addr _ _ _ _ _ _ i Ht).
      eapply repr_touch; try done. apply (tr_repr _ _ _ _ _ _ Ht).
    + simpl. split; [done|]. unfold pool_store_next, haddr. simpl. rewrite load_insert.
      rewrite Hk in Hch. eapply chain_ext; [|exact Hch]. intros j Hj.
      assert (Hji : j <> i) by (intros ->; apply Hni; rewrite elem_of_app; by left).
      rewrite load_insert_ne by (intros Heq; apply baddr_inj in Heq; [congruence|done]).
      by apply (Hfr j).
    + intros a Ha. by apply load_insert_ne.
Qed.

Lemma defer_spec M w w1 fails b Lc pls Ls k L i s c :
  batch_inv G w b Lc pls -> settled Lc pls Ls -> Lc !! k = Some L -> blks L !! i = Some (BLive s c) ->
  world_ok G w1 (<[k := ledger_set L i BPend]> Lc) ->
  (forall a, a <> haddr G (k, i) -> load (mem w1) a = load (mem w) a) ->
  let r := defer_block M w1 fails b k (haddr G (k, i)) (Z.of_nat i) in
  batch_ok G r.1 r.2 (<[k := ledger_set (free_all L (pls k)) i BFree]> Ls).
Proof.
  intros Hi Hs HL Hli Hw1 Hm1. set (L1 := ledger_set L i BPend) in *.
  destruct (bi_pend _ _ _ _ _ Hi _ _ HL) as [Hnd Hpl].
  assert (Hni : i ∉ pls k) by (rewrite <- Hpl, Hli; done).
  assert (Hlen : (i < length (blks L))%nat) by (by eapply lookup_lt_Some).
  assert (Hne : forall a, (forall j, Z.of_nat j < ledger_cap L -> a <> haddr G (k, j)) -> a <> haddr G (k, i)).
  { intros a Ha. apply Ha. unfold ledger_cap. lia. }
  assert (HL1 : <[k := L1]> Lc !! k = Some L1) by (by rewrite lookup_insert_eq).
  assert (Hcap1 : ledger_cap L1 = ledger_cap L) by apply ledger_cap_set.
  assert (Hp1 : forall j, blks L1 !! j = Some BPend <-> j ∈ i :: pls k).
  { intros j. rewrite elem_of_cons. unfold L1. simpl. destruct (decide (j = i)) as [->|Hji].
    - rewrite list_lookup_insert_eq by done. naive_solver.
    - rewrite list_lookup_insert_ne, Hpl by done. naive_solver. }
  assert (Hfree : forall j, blks (free_all L1 (i :: pls k)) !! j = Some BPend <-> j ∈ @nil nat).
  { intros j. split; [|by intros ?%not_elem_of_nil]. destruct (decide (j ∈ i :: pls k)) as [Hin|Hin].
    - rewrite free_all_lookup; [done|done|]. apply Hp1 in Hin. eauto.
    - rewrite free_all_lookup_ne by done. intros Hx. by apply Hp1 in Hx. }
  assert (Hsettle : free_all L1 (i :: pls k) = ledger_set (free_all L (pls k)) i BFree).
  { simpl. unfold L1. by rewrite free_all_set_comm, ledger_set_set. }
  unfold defer_block. pose proof (pending_of_spec M w b Lc pls k Hi ltac:(eauto)) as Hpo.
  destruct (pending_of M b k) as [[j b']|]; cbv zeta.
  - destruct Hpo as (p & Hp & Hpk & Hi'). rewrite Hp.
    destruct (bi_entry _ _ _ _ _ Hi' p ltac:(by eapply list_elem_of_lookup_2)) as [_ Hpc].
    rewrite Hpk in Hpc. pose proof Hpc as (Hcnt & Hcap & _).
    destruct (link_spec w w1 Lc k L i p (pls k) Hw1 Hpk Hni Hlen) as (l & last & Hpl' & -> & Hw2 & Hch & Hm2);
      [intros j' Hj'; apply Hm1; unfold haddr; simpl; intros Heq; apply baddr_inj in Heq; [done|]|done|].
    { destruct (wo_pool _ _ _ Hw1 k L1 HL1) as (P & fl & Ht). rewrite (tr_geo _ _ _ _ _ _ Ht).
      pose proof (pr_bs _ _ _ _ _ (tr_repr _ _ _ _ _ _ Ht)). simpl. lia. }
    set (w2 := if p_count p =? 0 then _ else _) in *.
    assert (Hc1 : u16 (p_count p + 1) = Z.of_nat (length (l ++ [last]))).
    { rewrite <- Hpl', wrap_small; [simpl; lia|]. unfold in_u, kReclaimBatchCap in *. lia. }
    assert (Hrecs : forall p', p_rec p' = k -> p_rec <$> <[j := p']> b' = p_rec <$> b').
    { intros p' Hp'. rewrite list_fmap_insert. apply list_insert_id. rewrite list_lookup_fmap, Hp. simpl. congruence. }
    assert (Hoth : forall p', p_rec p' = k -> forall q, q ∈ <[j := p']> b' ->
              (p_rec q <> k -> q ∈ b') /\ (p_rec q = k -> q = p')).
    { intros p' Hp' q Hq. apply list_elem_of_lookup in Hq as [j' Hj'].
      apply lookup_insert_cases in Hj' as [[-> ->]|[Hjj Hj']]; [split; [done|done]|].
      split; [intros; by eapply list_elem_of_lookup_2|]. intros Hqk. exfalso. apply Hjj.
      eapply (NoDup_lookup (p_rec <$> b')); [apply Hi'| |]; rewrite list_lookup_fmap; [by rewrite Hj'|]. rewrite Hp. simpl. congruence. }
    rewrite Hc1. case_test.
    + destruct (splice_spec w2 _ fails k L1 (Z.of_nat i) l last Hw2 HL1 Hch) as [Hw3 Hm3].
      { rewrite <- Hpl'. by constructor. }
      { intros j'. rewrite <- Hpl'. apply Hp1. }
      rewrite insert_insert_eq in Hw3. rewrite <- Hpl' in Hw3 |- *.
      exists (<[k := free_all L1 (i :: pls k)]> Lc), (<[k := []]> pls).
      split; [|by apply settled_update].
      eapply (batch_update w _ b'); [exact Hi'|exact HL|exact Hw3| |constructor|exact Hfree|by apply Hrecs| | |done].
      * intros a Ha. rewrite Hpl', Hm3 by (intros j' Hj'; apply Ha; by rewrite <- Hcap1). rewrite Hm2, Hm1 by (by apply Hne). done.
      * intros q Hq. by apply (Hoth (mkPending k (Z.of_nat i) (Z.of_nat last) 0) eq_refl q Hq).
      * intros q Hq Hqk. apply (Hoth (mkPending k (Z.of_nat i) (Z.of_nat last) 0) eq_refl q Hq) in Hqk as ->. split_and!; [done|done|by left].
    + exists (<[k := L1]> Lc), (<[k := i :: pls k]> pls). split; [|by apply settled_update].
      eapply (batch_update w _ b'); [exact Hi'|exact HL|exact Hw2| |by constructor|exact Hp1|by apply Hrecs| | |].
      * intros a Ha. rewrite Hm2, Hm1 by (by apply Hne). done.
      * intros q Hq. by apply (Hoth (mkPending k (Z.of_nat i) (Z.of_nat last) (Z.of_nat (length (l ++ [last])))) eq_refl q Hq).
      * intros q Hq Hqk. apply (Hoth (mkPending k (Z.of_nat i) (Z.of_nat last) (Z.of_nat (length (l ++ [last])))) eq_refl q Hq) in Hqk as ->. rewrite Hpl'. split_and!; [done|done|].
        right. by exists l, last.
      * intros Hk. exfalso. apply Hk. rewrite <- Hpk. apply list_elem_of_fmap_2. by eapply list_elem_of_lookup_2.
  - assert (Hnil : pls k = []) by (by apply (bi_none _ _ _ _ _ Hi)). rewrite Hnil in *.
    destruct (splice_spec w1 _ fails k L1 (Z.of_nat i) [] i Hw1 HL1 eq_refl) as [Hw3 Hm3].
    { apply NoDup_singleton. }
    { intros j. apply Hp1. }
    rewrite insert_insert_eq in Hw3.
    exists (<[k := free_all L1 [i]]> Lc), (<[k := []]> pls). split; [|by apply settled_update].
    eapply (batch_update w _ b); [exact Hi|exact HL|exact Hw3| |constructor|exact Hfree|done|done| |done].
    + intros a Ha. rewrite Hm3 by (intros j' Hj'; apply Ha; by rewrite <- Hcap1). apply Hm1. by apply Hne.
    + intros q Hq Hqk. exfalso. apply Hpo. rewrite <- Hqk. by apply list_elem_of_fmap_2.
Qed.

(** One batched release acts on the settled ledgers like [event_gc]. *)
Lemma release_spec M w fails b Ls k L i s c :
  batch_ok G w b Ls -> Ls !! k = Some L -> blks L !! i = Some (BLive s c) ->
  exists w' b', batcher_release M w fails b (haddr G (k, i)) = Ret (w', b') /\
    batch_ok G w' b' (<[k := ledger_set L i (dropped BFree s c)]> Ls).
Proof.
  intros (Lc & pls & Hi & Hs) HL Hli. pose proof (Hs k) as Hsk. rewrite HL in Hsk.
  destruct (Lc !! k) as [L0|] eqn:HL0; [|done]. injection Hsk as ->.
  destruct (bi_pend _ _ _ _ _ Hi _ _ HL0) as [Hnd Hpl].
  assert (Hni : i ∉ pls k).
  { intros Hin. rewrite free_all_lookup in Hli; [done|done|]. apply Hpl in Hin. eauto. }
  rewrite free_all_lookup_ne in Hli by done.
  destruct (wo_pool _ _ _ (bi_world _ _ _ _ _ Hi) _ _ HL0) as (P & fl & Ht).
  pose proof (tr_repr _ _ _ _ _ _ Ht) as Hr. pose proof (pr_bs _ _ _ _ _ Hr).
  pose proof (pr_cap _ _ _ _ _ Hr). pose proof (repr_lt _ _ _ _ _ Hr _ _ Hli) as Hlt.
  destruct (live_fields _ _ _ _ _ _ _ _ _ Ht Hli) as (Hsg & Hid & Hc & Hs16 & Hcr).
  destruct (id_u8 _ _ _ _ _ _ Ht) as [Hu8 Hne].
  unfold batcher_release, set_ref_ctr.
  rewrite Hsg, Hid, Hc, (id_record _ _ _ _ _ _ Ht), (tr_pool _ _ _ _ _ _ Ht).
  rewrite (proj2 (Z.eqb_neq _ _) Hne), (proj2 (Z.ltb_lt 0 c)) by lia. cbn [negb].
  rewrite wrap_small by (unfold in_u; lia).
  set (w1 := set_mem w (<[haddr G (k, i) := event_word s (pool_id_ P) (c - 1)]> (mem w))).
  assert (Hw1 : world_ok G w1 (<[k := ledger_set L0 i (dropped BPend s c)]> Lc)).
  { eapply world_update_mem; [apply Hi|done|done|apply ledger_cap_set|by eapply store_elsewhere|].
    rewrite (tracked_addr _ _ _ _ _ _ i Ht). unfold dropped.
    eapply repr_touch; try done; [by destruct (c =? 1)|].
    intros s' c'. case_test; [done|]. intros [= <- <-]. split_and!; [done|done|lia..]. }
  assert (Hm1 : forall a, a <> haddr G (k, i) -> load (mem w1) a = load (mem w) a).
  { intros a Ha. by apply load_insert_ne. }
  unfold dropped in *. destruct (Z.eqb_spec c 1) as [->|Hc1]; simpl.
  - assert (Hge : (base (record_ P) <=? haddr G (k, i)) = true).
    { apply Z.leb_le. rewrite (tracked_addr _ _ _ _ _ _ i Ht). unfold baddr, pool_block_base. nia. }
    assert (Hidx : u32 ((haddr G (k, i) - base (record_ P)) / block_size (record_ P)) = Z.of_nat i).
    { rewrite (tracked_addr _ _ _ _ _ _ i Ht), baddr_index by lia. apply wrap_small. unfold in_u. lia. }
    rewrite Hge. cbn [coact_assert mbind outcome_bind]. rewrite Hidx.
    destruct (defer_block _ _ _ _ _ _ _) as [w2 b2] eqn:Hd. exists w2, b2. split; [done|].
    pose proof (defer_spec M w w1 fails b Lc pls Ls k L0 i s 1 Hi Hs HL0 Hli Hw1 Hm1) as Hfin.
    by rewrite Hd in Hfin.
  - rewrite (proj2 (Z.eqb_neq (c - 1) 0)) by lia. cbn [negb]. eexists _, _. split; [done|].
    exists (<[k := ledger_set L0 i (BLive s (c - 1))]> Lc), (<[k := pls k]> pls).
    split; [|apply settled_update; [done|by apply free_all_set_comm]].
    eapply (batch_update w w1 b b); try done; [| | |apply Hi].
    + intros a Ha. apply Hm1, Ha. unfold ledger_cap. apply lookup_lt_Some in Hli. lia.
    + intros j. simpl. destruct (decide (j = i)) as [->|Hji].
      * rewrite list_lookup_insert_eq by (by eapply lookup_lt_Some). naive_solver.
      * by rewrite list_lookup_insert_ne, Hpl by done.
    + intros p Hp Hpk. destruct (bi_entry _ _ _ _ _ Hi p Hp) as [_ (Hcnt & Hcap & Hch)].
      rewrite Hpk in *. split_and!; [done|done|].
      destruct Hch as [?|(l & last & Hl & Hlast & Hch)]; [by left|]. right. exists l, last. split_and!; [done|done|].
      rewrite Hpk. eapply chain_ext; [|exact Hch]. intros j Hj. apply Hm1. unfold haddr. simpl.
      intros Heq. apply baddr_inj in Heq; [|rewrite (tr_geo _ _ _ _ _ _ Ht); simpl; lia].
      subst j. apply Hni. rewrite Hl, elem_of_app. by left.
Qed.
End batcher.

(** ** Batched and immediate release *)

Fixpoint gc_all (G : geometry) (w : world) (fails : nat) (hs : list (nat * nat)) : outcome world :=
  match hs with
  | [] => mret w
  | h :: hs => w' ← event_gc w fails (haddr G h); gc_all G w' fails hs
  end.

Fixpoint release_all (G : geometry) (M : nat) (w : world) (fails : nat) (b : batcher) (hs : list (nat * nat))
  : outcome (world * batcher) :=
  match hs with
  | [] => mret (w, b)
  | h :: hs => wb ← batcher_release M w fails b (haddr G h); release_all G M wb.1 fails wb.2 hs
  end.

(** The dispatcher's use of the batcher: [begin], one release per event, [flush]. *)
Definition release_batch (G : geometry) (M : nat) (w : world) (fails : nat) (b : batcher) (hs : list (nat * nat))
  : outcome world :=
  wb ← release_all G M w fails (batcher_begin b) hs; mret (batcher_flush wb.1 fails wb.2).1.

(** The ledgers after dropping one reference per handle; [None] when a handle
    is not live at its turn. *)
Fixpoint drop_all (Ls : gmap nat ledger) (hs : list (nat * nat)) : option (gmap nat ledger) :=
  match hs with
  | [] => Some Ls
  | (k, i) :: hs =>
    match Ls !! k with
    | Some L =>
      match blks L !! i with
      | Some (BLive s c) => drop_all (<[k := ledger_set L i (dropped BFree s c)]> Ls) hs
      | _ => None
      end
    | None => None
    end
  end.

Definition no_pending (Ls : gmap nat ledger) : Prop :=
  forall k L, Ls !! k = Some L -> forall i, blks L !! i <> Some BPend.

Lemma release_all_spec G M fails hs w b Ls Ls' :
  batch_ok G w b Ls -> drop_all Ls hs = Some Ls' ->
  exists w' b', release_all G M w fails b hs = Ret (w', b') /\ batch_ok G w' b' Ls'.
Proof.
  revert w b Ls. induction hs as [|[k i] hs IH]; intros w b Ls Hb Hd; cbn [drop_all release_all] in *.
  - injection Hd as ->. eauto.
  - destruct (Ls !! k) as [L|] eqn:HL; [|done]. destruct (blks L !! i) as [[|s c|]|] eqn:Hi; try done.
    destruct (release_spec G M w fails b Ls k L i s c Hb HL Hi) as (w' & b' & Hr & Hb').
    rewrite Hr. simpl. by apply (IH w' b' _ Hb').
Qed.

Lemma gc_all_spec G fails hs w Ls Ls' :
  world_ok G w Ls -> drop_all Ls hs = Some Ls' ->
  exists w', gc_all G w fails hs = Ret w' /\ world_ok G w' Ls'.
Proof.
  revert w Ls. induction hs as [|[k i] hs IH]; intros w Ls Hw Hd; cbn [drop_all gc_all] in *.
  - injection Hd as ->. eauto.
  - destruct (Ls !! k) as [L|] eqn:HL; [|done]. destruct (blks L !! i) as [[|s c|]|] eqn:Hi; try done.
    destruct (event_gc_spec G w Ls fails k L i s c Hw HL Hi) as (w' & Hr & Hw').
    rewrite Hr. simpl. by apply (IH w' _ Hw').
Qed.

Lemma batch_start G w Ls : world_ok G w Ls -> no_pending Ls -> batch_ok G w [] Ls.
Proof.
  intros Hw Hn. exists Ls, (fun _ => []). split.
  - split; try done; [|apply NoDup_nil_2|by intros p Hp%not_elem_of_nil].
    intros k L HL. split; [constructor|]. intros i. split; [|by intros ?%not_elem_of_nil]. intros Hp. by destruct (Hn k L HL i).
  - intros k. by destruct (Ls !! k).
Qed.

(** C37: Releasing a dispatch batch through [ReclaimBatcher] is the same as
    releasing every event immediately: whatever the number of pools, the table
    size and the length of the batch (chains spliced at 16 blocks, pools that
    find the table full), both leave every pool with the same live events and
    reference counts, the same idle blocks and the same [used], and no block
    stays in the batcher after [flush]. *)
Theorem batched_equals_immediate (G : geometry) (M fails : nat) (w : world) (b : batcher)
    (Ls Ls' : gmap nat ledger) (hs : list (nat * nat)) :
  world_ok G w Ls -> no_pending Ls -> drop_all Ls hs = Some Ls' ->
  exists wi wb, gc_all G w fails hs = Ret wi /\ release_batch G M w fails b hs = Ret wb /\
    world_ok G wi Ls' /\ world_ok G wb Ls'.
Proof.
  intros Hw Hn Hd. destruct (gc_all_spec G fails hs w Ls Ls' Hw Hd) as (wi & Hi & Hwi).
  destruct (release_all_spec G M fails hs w [] Ls Ls' (batch_start _ _ _ Hw Hn) Hd) as (w' & b' & Hr & Lc & pls & Hb & Hs).
  exists wi, (batcher_flush w' fails b').1. split_and!; [done| |done|by eapply flush_spec].
  unfold release_batch, batcher_begin. by rewrite Hr.
Qed.

(** Two live blocks of one pool, one of them with two references. *)
Lemma batched_equals_immediate_witness :
  let r := mkRecord (pool_pack_head 0xFFFF 2) 64 16 2 2 2 in
  let w := mkWorld {[ 64 := event_word 9 1 1; 80 := event_word 5 1 2 ]}
                   {[ 0%nat := mkPool 16 2 8 false r 1 true ]} (Some 0%nat :: replicate 15 None) in
  let G := fun _ : nat => (64, 16) in
  exists wi wb, gc_all G w 1 [(0%nat, 0%nat); (0%nat, 1%nat); (0%nat, 1%nat)] = Ret wi /\
    release_batch G 4 w 1 [] [(0%nat, 0%nat); (0%nat, 1%nat); (0%nat, 1%nat)] = Ret wb.
Proof.
  cbv zeta. set (r := mkRecord _ _ _ _ _ _). set (w := mkWorld _ _ _).
  assert (Hok : world_ok (fun _ => (64, 16)) w (<[0%nat := mkLedger [BLive 9 1; BLive 5 2] 2]> ∅)).
  { split.
    - intros k L. rewrite lookup_insert_Some, lookup_empty. intros [[<- <-]|[_ [=]]].
      exists (mkPool 16 2 8 false r 1 true), []. split; try reflexivity; [split; done|].
      split; try reflexivity; simpl; try lia; [constructor| |].
      + intros [|[|i]]; simpl; split; intros Hx; try done; by apply not_elem_of_nil in Hx.
      + intros [|[|i]] s c; simpl; [| |done]; intros [= <- <-]; (split; [reflexivity|]); unfold in_u; lia.
    - intros k1 k2 L1 L2. rewrite !lookup_insert_Some, !lookup_empty. intros [[<- _]|[_ [=]]] [[<- _]|[_ [=]]]. done. }
  destruct (batched_equals_immediate _ 4 1 w [] _ (<[0%nat := mkLedger [BFree; BFree] 2]> ∅)
    [(0%nat, 0%nat); (0%nat, 1%nat); (0%nat, 1%nat)] Hok) as (wi & wb & H1 & H2 & _).
  - intros k L. rewrite lookup_insert_Some, lookup_empty. intros [[<- <-]|[_ [=]]] [|[|i]]; done.
  - reflexivity.
  - exists wi, wb. split; [exact H1|exact H2].
Defined.
