(* ===== verification/Staging.v ===== *)
(** * Staging (include/coact/staging.hpp)

    The three bounded partitions between the producers and the dispatcher:
    reservation claims, the batch selector with its Low-aging exception, the
    submission lease and the watermark.  The queues are any backend that
    satisfies the FIFO interface of [QueueSpec]; [staged] is the abstract
    staging, three lists. *)

From S2P Require Import Prelude Vocab QueueSpec.

(** ** Slots and partitions *)

Inductive Partition := PHigh | PNormal | PLow.

Definition partition_from_class (cls : PriorityClass) : Partition :=
  match cls with High => PHigh | Normal => PNormal | Low => PLow end.

Inductive ReservationClaim := ClaimNone | HighOrdinary | NormalOrdinary | NormalReserved.

#[export] Instance ReservationClaim_eq_dec : EqDecision ReservationClaim.
Proof. solve_decision. Defined.

Record StagingSlot := mkSlot {
  s_target : TargetId; s_claim : ReservationClaim; s_event : Z; s_enqueue_ns : Z
}.

(** ** BatchSelector *)

Definition select (high normal low : Z) (low_aged : bool) (batch_used batch_max : Z) : option Partition :=
  if batch_max <=? batch_used then None
  else if (1 <=? low) && low_aged then Some PLow
  else if 1 <=? high then Some PHigh
  else if 1 <=? normal then Some PNormal
  else if 1 <=? low then Some PLow
  else None.

(** ** Reservation counters *)

Definition try_claim_counter (count limit : Z) : bool * Z :=
  if count <? limit then (true, u32 (count + 1)) else (false, count).

Definition release_claim_counter (count : Z) : outcome Z :=
  _ ← coact_assert (0 <? count); mret (u32 (count - 1)).

Definition classify_claim (cfg : Config) (cls : PriorityClass) (critical : bool)
    (adm : StagingAdmission) : ReservationClaim :=
  if bool_decide (cls = Normal) && bool_decide (adm = ReservedNormal) then NormalReserved
  else if bool_decide (cls = Normal) && negb (kNormalReservedCapacity cfg =? 0) then NormalOrdinary
  else if bool_decide (cls = High) && negb critical && negb (kHighCriticalReserve cfg =? 0) then HighOrdinary
  else ClaimNone.

Definition admission_valid (cfg : Config) (cls : PriorityClass) (adm : StagingAdmission) : bool :=
  if bool_decide (adm = Ordinary) then true
  else bool_decide (cls = Normal) && negb (kNormalReservedCapacity cfg =? 0).

(** ** Staging *)

Record Staging (QH QN QL : Type) := mkStaging {
  high_q_ : QH; normal_q_ : QN; low_q_ : QL;
  wake_pending_ : bool; admission_ : Z;
  high_ordinary_claims_ : Z; normal_ordinary_claims_ : Z; normal_reserved_claims_ : Z;
  now_ns_ : Z; now_valid_ : bool; batch_used_ : Z
}.
Arguments mkStaging {QH QN QL}.
Arguments high_q_ {QH QN QL}.
Arguments normal_q_ {QH QN QL}.
Arguments low_q_ {QH QN QL}.
Arguments wake_pending_ {QH QN QL}.
Arguments admission_ {QH QN QL}.
Arguments high_ordinary_claims_ {QH QN QL}.
Arguments normal_ordinary_claims_ {QH QN QL}.
Arguments normal_reserved_claims_ {QH QN QL}.
Arguments now_ns_ {QH QN QL}.
Arguments now_valid_ {QH QN QL}.
Arguments batch_used_ {QH QN QL}.

Section staging.
Context (cfg : Config) {QH QN QL : Type}.
Context `{!QueueBackend (kHighCapacity cfg) StagingSlot QH}.
Context `{!QueueBackend (kNormalCapacity cfg) StagingSlot QN}.
Context `{!QueueBackend (kLowCapacity cfg) StagingSlot QL}.
Abbreviation ST := (Staging QH QN QL).

Definition staging_ctor (h : QH) (n : QN) (l : QL) : ST :=
  mkStaging h n l true 0 0 0 0 0 false 0.

Definition set_queues (s : ST) (h : QH) (n : QN) (l : QL) : ST :=
  mkStaging h n l (wake_pending_ s) (admission_ s) (high_ordinary_claims_ s)
    (normal_ordinary_claims_ s) (normal_reserved_claims_ s) (now_ns_ s) (now_valid_ s) (batch_used_ s).
Definition set_claims (s : ST) (ho no nr : Z) : ST :=
  mkStaging (high_q_ s) (normal_q_ s) (low_q_ s) (wake_pending_ s) (admission_ s) ho no nr
    (now_ns_ s) (now_valid_ s) (batch_used_ s).
Definition set_clock (s : ST) (now : Z) : ST :=
  mkStaging (high_q_ s) (normal_q_ s) (low_q_ s) (wake_pending_ s) (admission_ s)
    (high_ordinary_claims_ s) (normal_ordinary_claims_ s) (normal_reserved_claims_ s)
    now true (batch_used_ s).
Definition set_batch (s : ST) (b : Z) : ST :=
  mkStaging (high_q_ s) (normal_q_ s) (low_q_ s) (wake_pending_ s) (admission_ s)
    (high_ordinary_claims_ s) (normal_ordinary_claims_ s) (normal_reserved_claims_ s)
    (now_ns_ s) (now_valid_ s) b.

Definition try_claim (s : ST) (c : ReservationClaim) : bool * ST :=
  match c with
  | ClaimNone => (true, s)
  | HighOrdinary =>
    let r := try_claim_counter (high_ordinary_claims_ s) (u32 (kHighCapacity cfg - kHighCriticalReserve cfg)) in
    (r.1, set_claims s r.2 (normal_ordinary_claims_ s) (normal_reserved_claims_ s))
  | NormalOrdinary =>
    let r := try_claim_counter (normal_ordinary_claims_ s) (u32 (kNormalCapacity cfg - kNormalReservedCapacity cfg)) in
    (r.1, set_claims s (high_ordinary_claims_ s) r.2 (normal_reserved_claims_ s))
  | NormalReserved =>
    let r := try_claim_counter (normal_reserved_claims_ s) (kNormalReservedCapacity cfg) in
    (r.1, set_claims s (high_ordinary_claims_ s) (normal_ordinary_claims_ s) r.2)
  end.

Definition release_claim (s : ST) (c : ReservationClaim) : outcome ST :=
  match c with
  | ClaimNone => mret s
  | HighOrdinary =>
    n ← release_claim_counter (high_ordinary_claims_ s);
    mret (set_claims s n (normal_ordinary_claims_ s) (normal_reserved_claims_ s))
  | NormalOrdinary =>
    n ← release_claim_counter (normal_ordinary_claims_ s);
    mret (set_claims s (high_ordinary_claims_ s) n (normal_reserved_claims_ s))
  | NormalReserved =>
    n ← release_claim_counter (normal_reserved_claims_ s);
    mret (set_claims s (high_ordinary_claims_ s) (normal_ordinary_claims_ s) n)
  end.

Definition push_partition (s : ST) (cls : PriorityClass) (slot : StagingSlot) : bool * ST :=
  match cls with
  | Low => let r := q_try_push slot (low_q_ s) in (r.1, set_queues s (high_q_ s) (normal_q_ s) r.2)
  | Normal => let r := q_try_push slot (normal_q_ s) in (r.1, set_queues s (high_q_ s) r.2 (low_q_ s))
  | High => let r := q_try_push slot (high_q_ s) in (r.1, set_queues s r.2 (normal_q_ s) (low_q_ s))
  end.

Definition enqueue (s : ST) (target : TargetId) (e : Z) (cls : PriorityClass) (now_ns : Z)
    (critical : bool) (adm : StagingAdmission) : outcome (bool * ST) :=
  if negb (admission_valid cfg cls adm) then mret (false, s)
  else
    let claim := classify_claim cfg cls critical adm in
    let (claimed, s1) := try_claim s claim in
    if negb claimed then mret (false, s1)
    else
      let slot := mkSlot target claim e (u32 now_ns) in
      let (queued, s2) := push_partition s1 cls slot in
      if queued then mret (true, s2)
      else s3 ← release_claim s2 claim; mret (false, s3).

(** The four-argument overload. *)
Definition enqueue_ordinary (s : ST) (target : TargetId) (e : Z) (cls : PriorityClass) (now_ns : Z) :=
  enqueue s target e cls now_ns false Ordinary.

Definition any_ready (s : ST) : bool :=
  q_has_ready (high_q_ s) || q_has_ready (normal_q_ s) || q_has_ready (low_q_ s).

Definition ready_count (s : ST) (p : Partition) : Z :=
  match p with
  | PHigh => if q_has_ready (high_q_ s) then 1 else 0
  | PNormal => if q_has_ready (normal_q_ s) then 1 else 0
  | PLow => if q_has_ready (low_q_ s) then 1 else 0
  end.

Definition aging_expired (s : ST) : bool :=
  if negb (now_valid_ s) then false
  else
    let wait_ns := u32 (u32 (kLowMaxWaitMs cfg) * 1000000) in
    match q_front (low_q_ s) with
    | None => false
    | Some head =>
      let udelta := u32 (u32 (now_ns_ s) - s_enqueue_ns head) in
      let delta := if udelta <? 2 ^ 31 then udelta else udelta - 2 ^ 32 in
      if delta <? 0 then false else wait_ns <=? u32 delta
    end.

Definition pop_partition (s : ST) (p : Partition) : option StagingSlot * ST :=
  match p with
  | PHigh => let r := q_try_pop (high_q_ s) in (r.1, set_queues s r.2 (normal_q_ s) (low_q_ s))
  | PNormal => let r := q_try_pop (normal_q_ s) in (r.1, set_queues s (high_q_ s) r.2 (low_q_ s))
  | PLow => let r := q_try_pop (low_q_ s) in (r.1, set_queues s (high_q_ s) (normal_q_ s) r.2)
  end.

Definition dequeue_one (s : ST) (now_ns : Z) : outcome (option StagingSlot * ST) :=
  let s := set_clock s now_ns in
  if negb (any_ready s) then mret (None, s)
  else
    match select (ready_count s PHigh) (ready_count s PNormal) (ready_count s PLow)
                 (aging_expired s) (batch_used_ s) (kBatchSizeMax cfg) with
    | None => mret (None, s)
    | Some part =>
      match pop_partition s part with
      | (None, s1) => mret (None, s1)
      | (Some out, s1) =>
        s2 ← release_claim s1 (s_claim out);
        mret (Some out, set_batch s2 (u8 (batch_used_ s2 + 1)))
      end
    end.

(** The one-argument overload, on the cached clock. *)
Definition dequeue_cached (s : ST) : outcome (option StagingSlot * ST) :=
  dequeue_one s (if now_valid_ s then now_ns_ s else 0).

Definition begin_batch (s : ST) : ST := set_batch s 0.
Definition tick (s : ST) (now_ns : Z) : ST := set_clock s now_ns.

Definition partition_size (s : ST) (p : Partition) : Z :=
  match p with
  | PHigh => q_size (high_q_ s) | PNormal => q_size (normal_q_ s) | PLow => q_size (low_q_ s)
  end.

Definition any_buffered (s : ST) : bool :=
  negb (partition_size s PHigh =? 0) || negb (partition_size s PNormal =? 0)
  || negb (partition_size s PLow =? 0).

Definition partition_capacity (p : Partition) : Z :=
  match p with
  | PHigh => kHighCapacity cfg | PNormal => kNormalCapacity cfg | PLow => kLowCapacity cfg
  end.

Definition watermark (s : ST) (p : Partition) : Z :=
  let used := partition_size s p in
  if used =? 0 then 0
  else
    let pct := u32 (used * 100) / partition_capacity p in
    u8 (if 100 <? pct then 100 else pct).
End staging.

(** ** The submission lease: one 32-bit word *)

Definition kAdmissionClosed : Z := 0x80000000.
Definition kAdmissionCountMask : Z := 0x7FFFFFFF.

Definition acquire_submission (a : Z) : bool * Z :=
  if negb (Z.land a kAdmissionClosed =? 0) then (false, a)
  else if Z.land a kAdmissionCountMask =? kAdmissionCountMask then (false, a)
  else (true, u32 (a + 1)).

Definition release_submission (a : Z) : bool * Z :=
  (Z.lor kAdmissionClosed 1 =? a, u32 (a - 1)).

Definition close_admission (a : Z) : Z := Z.lor a kAdmissionClosed.

Definition submissions_idle (a : Z) : bool := Z.land a kAdmissionCountMask =? 0.

(** *** The abstract lease *)

Record lease := mkLease { closed : bool; leases : Z }.

Definition lease_word (L : lease) : Z := (if closed L then 2 ^ 31 else 0) + leases L.

Inductive lease_op := LAcquire | LRelease | LClose.

Definition lease_word_op (o : lease_op) (a : Z) : bool * Z :=
  match o with
  | LAcquire => acquire_submission a
  | LRelease => release_submission a
  | LClose => (false, close_admission a)
  end.

(** An acquire is granted while open; a release reports "drained" when it
    returns the last lease of a closed lane. *)
Definition lease_abs_op (o : lease_op) (L : lease) : bool * lease :=
  match o with
  | LAcquire =>
    if closed L || (leases L =? 2 ^ 31 - 1) then (false, L) else (true, mkLease (closed L) (leases L + 1))
  | LRelease => (closed L && (leases L =? 1), mkLease (closed L) (leases L - 1))
  | LClose => (false, mkLease true (leases L))
  end.

Fixpoint lease_run {A} (op : lease_op -> A -> bool * A) (os : list lease_op) (a : A) : list bool * A :=
  match os with
  | [] => ([], a)
  | o :: os => let r := op o a in let rs := lease_run op os r.2 in (r.1 :: rs.1, rs.2)
  end.

(** Every release gives back a lease that is held. *)
Fixpoint lease_legal (os : list lease_op) (L : lease) : bool :=
  match os with
  | [] => true
  | o :: os =>
    match o with LRelease => 0 <? leases L | _ => true end && lease_legal os (lease_abs_op o L).2
  end.

Definition lease_ok (L : lease) : Prop := 0 <= leases L < 2 ^ 31.

Lemma lease_word_bits L :
  lease_ok L ->
  Z.land (lease_word L) kAdmissionClosed = (if closed L then 2 ^ 31 else 0) /\
  Z.land (lease_word L) kAdmissionCountMask = leases L.
Proof.
  intros HL. unfold lease_ok in HL. assert (Hu : in_u 32 (lease_word L)).
  { unfold in_u, lease_word. destruct (closed L); lia. }
  split.
  - change kAdmissionClosed with (2 ^ 31). rewrite land_flag, (testbit_top 31) by (done || lia).
    unfold lease_word. destruct (closed L); case_test; lia.
  - change kAdmissionCountMask with (Z.ones 31). rewrite Z.land_ones by lia. unfold lease_word.
    destruct (closed L); [|apply Z.mod_small; lia].
    symmetry. apply (Z.mod_unique _ _ 1); lia.
Qed.

Lemma lease_step o L :
  lease_ok L -> (match o with LRelease => 0 < leases L | _ => True end) ->
  lease_word_op o (lease_word L) = ((lease_abs_op o L).1, lease_word (lease_abs_op o L).2) /\
  lease_ok (lease_abs_op o L).2.
Proof.
  intros HL Hr. pose proof (lease_word_bits L HL) as [Hc Hm]. unfold lease_ok in *.
  destruct o; cbn [lease_word_op lease_abs_op fst snd].
  - unfold acquire_submission. rewrite Hc, Hm. unfold lease_word in *.
    change kAdmissionCountMask with (2 ^ 31 - 1).
    destruct (closed L) eqn:Hcl; simpl; [rewrite Hcl; by split|].
    destruct (Z.eqb_spec (leases L) (2 ^ 31 - 1)); simpl; [by rewrite Hcl|].
    rewrite wrap_small by (unfold in_u; lia). split; [f_equal; lia|lia].
  - unfold release_submission, lease_word in *. change (Z.lor kAdmissionClosed 1) with (2 ^ 31 + 1).
    rewrite wrap_small by (unfold in_u; destruct (closed L); lia). cbn [closed leases fst snd]. split; [|lia]. f_equal; [|lia].
    destruct (closed L); cbn [andb]; [|apply Z.eqb_neq; lia].
    destruct (Z.eqb_spec (leases L) 1) as [->|]; [done|apply Z.eqb_neq; lia].
  - split; [|done]. f_equal. unfold close_admission, lease_word in *. change kAdmissionClosed with (2 ^ 31).
    rewrite lor_flag, (testbit_top 31) by (done || (unfold in_u; destruct (closed L); lia)).
    simpl. destruct (closed L); case_test; lia.
Qed.

(** How many releases of a run reported the drain. *)
Fixpoint drain_reports (os : list lease_op) (answers : list bool) : nat :=
  match os, answers with
  | LRelease :: os, true :: bs => S (drain_reports os bs)
  | _ :: os, _ :: bs => drain_reports os bs
  | _, _ => 0
  end.

Lemma drain_reports_bound os L :
  lease_ok L -> lease_legal os L = true ->
  (drain_reports os (lease_run lease_abs_op os L).1
   <= if closed L && (leases L =? 0)%Z then 0 else 1)%nat.
Proof.
  revert L. induction os as [|o os IH]; intros L HL Hleg; [simpl; lia|].
  assert (Hr : match o with LRelease => 0 < leases L | _ => True end).
  { destruct o; try done. simpl in Hleg. split_bools. done. }
  destruct (lease_step o L HL Hr) as [_ HL'].
  assert (Hleg' : lease_legal os (lease_abs_op o L).2 = true) by (simpl in Hleg; split_bools; done).
  specialize (IH _ HL' Hleg'). destruct L as [c n]. unfold lease_ok in *. destruct o; simpl in *.
  - destruct c; simpl in *; [done|]. destruct (Z.eqb_spec n (2 ^ 31 - 1)); done.
  - destruct c; simpl in *; [|done].
    destruct (Z.eqb_spec n 1) as [->|]; simpl in *; [lia|]. destruct (Z.eqb_spec n 0); [lia|]. destruct (n - 1 =? 0); lia.
  - destruct c; simpl in *; [done|]. destruct (Z.eqb_spec n 0); lia.
Qed.

Lemma lease_run_refines os L :
  lease_ok L -> lease_legal os L = true ->
  (lease_run lease_word_op os (lease_word L)).1 = (lease_run lease_abs_op os L).1 /\
  (lease_run lease_word_op os (lease_word L)).2 = lease_word (lease_run lease_abs_op os L).2 /\
  submissions_idle (lease_word (lease_run lease_abs_op os L).2) = (leases (lease_run lease_abs_op os L).2 =? 0).
Proof.
  revert L. induction os as [|o os IH]; intros L HL Hleg; simpl.
  - split_and!; [done|done|]. unfold submissions_idle. by rewrite (proj2 (lease_word_bits L HL)).
  - simpl in Hleg. split_bools. destruct (lease_step o L HL) as [-> HL']; [destruct o; split_bools; done|].
    simpl. destruct (IH _ HL') as (-> & -> & ->); done.
Qed.

(** The submission lease linearises ingress with shutdown.  Every sequence
    of acquire, release and close on the 32-bit word answers like the pair
    (closed, number of leases): a closed lane grants nothing, a release reports
    the drain exactly when it returns the last lease of a closed lane, the
    count never spills into the closed bit, and over a whole run that report is
    made at most once. *)
Theorem lease_refines_counter (os : list lease_op) :
  lease_legal os (mkLease false 0) = true ->
  (lease_run lease_word_op os 0).1 = (lease_run lease_abs_op os (mkLease false 0)).1 /\
  (lease_run lease_word_op os 0).2 = lease_word (lease_run lease_abs_op os (mkLease false 0)).2 /\
  submissions_idle (lease_run lease_word_op os 0).2 = (leases (lease_run lease_abs_op os (mkLease false 0)).2 =? 0) /\
  (drain_reports os (lease_run lease_word_op os 0%Z).1 <= 1)%nat.
Proof.
  assert (Hok : lease_ok (mkLease false 0)) by (unfold lease_ok; simpl; lia).
  intros Hleg. pose proof (lease_run_refines os _ Hok Hleg) as (Ha & Hb & Hi).
  change (lease_word (mkLease false 0)) with 0 in Ha, Hb. rewrite Ha, Hb.
  split_and!; [done|done|exact Hi|]. by apply (drain_reports_bound os _ Hok).
Qed.

Lemma lease_refines_counter_witness :
  let os := [LAcquire; LAcquire; LClose; LAcquire; LRelease; LRelease] in
  (lease_run lease_word_op os 0).1 = [true; true; false; false; false; true].
Proof.
  intros os. destruct (lease_refines_counter os) as [-> _]; [reflexivity|]. reflexivity.
Defined.
