(* ===== verification/StagingSpec.v ===== *)
(** * Staging refines three lists (include/coact/staging.hpp)

    The abstract staging is the three partition lists and the batch counter;
    the reservation counters are the number of resident slots that carry the
    claim.  Proved against the queue interface, for any backend. *)

From S2P Require Import Prelude Vocab QueueSpec CriticalRing Staging.

Record staged := mkStaged { ah : list StagingSlot; an : list StagingSlot; al : list StagingSlot; abatch : Z }.

Definition has_claim (c : ReservationClaim) (s : StagingSlot) : bool := bool_decide (s_claim s = c).
Definition claims (c : ReservationClaim) (l : list StagingSlot) : Z := Z.of_nat (countb (has_claim c) l).
Definition len {A} (l : list A) : Z := Z.of_nat (length l).

Section spec.
Context (cfg : Config).

(** When a submission is admitted. *)
Definition admits (a : staged) (cls : PriorityClass) (critical : bool) (adm : StagingAdmission) : bool :=
  match adm, cls with
  | ReservedNormal, Normal => claims NormalReserved (an a) <? kNormalReservedCapacity cfg
  | ReservedNormal, _ => false
  | Ordinary, Low => len (al a) <? kLowCapacity cfg
  | Ordinary, Normal =>
    if kNormalReservedCapacity cfg =? 0 then len (an a) <? kNormalCapacity cfg
    else claims NormalOrdinary (an a) <? kNormalCapacity cfg - kNormalReservedCapacity cfg
  | Ordinary, High =>
    (len (ah a) <? kHighCapacity cfg) &&
    (critical || (kHighCriticalReserve cfg =? 0) ||
     (claims HighOrdinary (ah a) <? kHighCapacity cfg - kHighCriticalReserve cfg))
  end.

Definition staged_push (a : staged) (cls : PriorityClass) (s : StagingSlot) : staged :=
  match cls with
  | High => mkStaged (ah a ++ [s]) (an a) (al a) (abatch a)
  | Normal => mkStaged (ah a) (an a ++ [s]) (al a) (abatch a)
  | Low => mkStaged (ah a) (an a) (al a ++ [s]) (abatch a)
  end.

(** The Low head has waited at least [kLowMaxWaitMs], on the 32-bit clock. *)
Definition aged (s : StagingSlot) (now : Z) : bool :=
  let waited := (now - s_enqueue_ns s) `mod` 2 ^ 32 in
  (waited <? 2 ^ 31) && (kLowMaxWaitMs cfg * 1000000 <=? waited).

Definition low_aged (a : staged) (now : Z) : bool :=
  match al a with s :: _ => aged s now | [] => false end.

(** Service order: an aged Low head, then High, Normal, Low; each FIFO. *)
Definition next_slot (a : staged) (now : Z) : option (StagingSlot * staged) :=
  if kBatchSizeMax cfg <=? abatch a then None
  else
    match al a, ah a, an a with
    | s :: l, [], [] => Some (s, mkStaged [] [] l (abatch a + 1))
    | s :: l, h, n =>
      if aged s now then Some (s, mkStaged h n l (abatch a + 1))
      else match h, n with
           | x :: h, _ => Some (x, mkStaged h n (s :: l) (abatch a + 1))
           | [], x :: n => Some (x, mkStaged [] n (s :: l) (abatch a + 1))
           | [], [] => None
           end
    | [], x :: h, n => Some (x, mkStaged h n [] (abatch a + 1))
    | [], [], x :: n => Some (x, mkStaged [] n [] (abatch a + 1))
    | [], [], [] => None
    end.

(** Which claims live where, and within which limits. *)
Record staged_ok (a : staged) : Prop := {
  so_high : Forall (fun s => s_claim s = ClaimNone \/
              (s_claim s = HighOrdinary /\ kHighCriticalReserve cfg <> 0)) (ah a);
  so_normal : Forall (fun s => if kNormalReservedCapacity cfg =? 0 then s_claim s = ClaimNone
              else s_claim s = NormalOrdinary \/ s_claim s = NormalReserved) (an a);
  so_low : Forall (fun s => s_claim s = ClaimNone) (al a);
  so_ho : claims HighOrdinary (ah a) <= kHighCapacity cfg - kHighCriticalReserve cfg;
  so_no : claims NormalOrdinary (an a) <= kNormalCapacity cfg - kNormalReservedCapacity cfg;
  so_nr : claims NormalReserved (an a) <= kNormalReservedCapacity cfg
}.

Lemma claims_app c l s : claims c (l ++ [s]) = claims c l + (if has_claim c s then 1 else 0).
Proof. unfold claims. rewrite countb_app. simpl. destruct (has_claim c s); lia. Qed.

Lemma claims_cons c s l : claims c (s :: l) = claims c l + (if has_claim c s then 1 else 0).
Proof. unfold claims. simpl. destruct (has_claim c s); lia. Qed.

Lemma claims_bounds c l : 0 <= claims c l <= len l.
Proof. unfold claims, len. pose proof (countb_le (has_claim c) l). lia. Qed.

Lemma claims_none c l : (forall s, s ∈ l -> s_claim s <> c) -> claims c l = 0.
Proof.
  induction l as [|s l IH]; intros H; [done|]. rewrite claims_cons, IH by (intros; apply H; by right).
  unfold has_claim. rewrite bool_decide_eq_false_2; [done|]. apply H. by left.
Qed.

(** With a reservation, a Normal slot is ordinary or reserved. *)
Lemma normal_split a : staged_ok a -> kNormalReservedCapacity cfg <> 0 ->
  len (an a) = claims NormalOrdinary (an a) + claims NormalReserved (an a).
Proof.
  intros [_ Hn _ _ _ _] Hr. rewrite (proj2 (Z.eqb_neq _ _) Hr) in Hn. revert Hn.
  induction (an a) as [|s l IH]; intros Hn; [done|]. apply Forall_cons in Hn as [Hs Hn].
  rewrite !claims_cons. unfold len in *. simpl. specialize (IH Hn). unfold has_claim.
  destruct Hs as [-> | ->]; simpl; lia.
Qed.
End spec.

(** ** Refinement *)

Section refine.
Context (cfg : Config) (Hcfg : config_ok cfg = true) {QH QN QL : Type}.
Context `{!QueueBackend (kHighCapacity cfg) StagingSlot QH, !FifoLaws (kHighCapacity cfg) StagingSlot QH}.
Context `{!QueueBackend (kNormalCapacity cfg) StagingSlot QN, !FifoLaws (kNormalCapacity cfg) StagingSlot QN}.
Context `{!QueueBackend (kLowCapacity cfg) StagingSlot QL, !FifoLaws (kLowCapacity cfg) StagingSlot QL}.
Abbreviation ST := (Staging QH QN QL).

Record staging_repr (n : nat) (s : ST) (a : staged) : Prop := {
  sr_h : fifo_repr n (high_q_ s) (ah a);
  sr_n : fifo_repr n (normal_q_ s) (an a);
  sr_l : fifo_repr n (low_q_ s) (al a);
  sr_ho : high_ordinary_claims_ s = claims HighOrdinary (ah a);
  sr_no : normal_ordinary_claims_ s = claims NormalOrdinary (an a);
  sr_nr : normal_reserved_claims_ s = claims NormalReserved (an a);
  sr_batch : batch_used_ s = abatch a;
  sr_bounds : 0 <= abatch a < 2 ^ 8;
  sr_ok : staged_ok cfg a
}.

Lemma cfg_bounds :
  0 < kHighCapacity cfg < 2 ^ 16 /\ 0 < kNormalCapacity cfg < 2 ^ 16 /\ 0 < kLowCapacity cfg < 2 ^ 16 /\
  0 <= kHighCriticalReserve cfg <= kHighCapacity cfg /\
  0 <= kNormalReservedCapacity cfg <= kNormalCapacity cfg /\
  0 <= kLowMaxWaitMs cfg < 2000 /\ 0 <= kBatchSizeMax cfg < 2 ^ 8.
Proof using Hcfg. clear -Hcfg. unfold config_ok in Hcfg. split_bools. lia. Qed.

(** A claim counter moves with the list it counts. *)
Lemma claim_counter_up c l limit :
  0 <= limit < 2 ^ 16 -> claims c l < limit -> try_claim_counter (claims c l) limit = (true, claims c l + 1).
Proof.
  intros Hl Hlt. unfold try_claim_counter. rewrite (proj2 (Z.ltb_lt _ _) Hlt).
  pose proof (claims_bounds c l). rewrite wrap_small; [done|]. unfold in_u. lia.
Qed.

Lemma claim_counter_full c l limit :
  limit <= claims c l -> try_claim_counter (claims c l) limit = (false, claims c l).
Proof. intros Hle. unfold try_claim_counter. by rewrite (proj2 (Z.ltb_ge _ _) Hle). Qed.

Lemma claim_counter_down x : 0 < x < 2 ^ 32 -> release_claim_counter x = Ret (x - 1).
Proof.
  intros Hx. unfold release_claim_counter. rewrite (proj2 (Z.ltb_lt _ _)) by lia. simpl.
  rewrite wrap_small; [done|]. unfold in_u. lia.
Qed.

Lemma repr_mono n s a : staging_repr (S n) s a -> staging_repr n s a.
Proof. intros []. split; try done; (eapply fifo_mono; [|done]; lia). Qed.

(** Staging operations leave the wake latch and the lease word alone. *)
Definition same_latch (s s' : ST) : Prop :=
  wake_pending_ s' = wake_pending_ s /\ admission_ s' = admission_ s.

Definition new_slot (target : TargetId) (e : Z) (cls : PriorityClass) (now : Z) (critical : bool)
    (adm : StagingAdmission) : StagingSlot :=
  mkSlot target (classify_claim cfg cls critical adm) e (u32 now).

Definition enqueue_ok (n : nat) (s : ST) (a : staged) (target : TargetId) (e : Z) (cls : PriorityClass)
    (now : Z) (critical : bool) (adm : StagingAdmission) : Prop :=
  exists s', enqueue cfg s target e cls now critical adm = Ret (admits cfg a cls critical adm, s') /\
    staging_repr n s' (if admits cfg a cls critical adm
                       then staged_push a cls (new_slot target e cls now critical adm) else a) /\
    same_latch s s'.

Lemma enqueue_low n s a target e now critical :
  staging_repr (S n) s a -> enqueue_ok n s a target e Low now critical Ordinary.
Proof.
  intros Hs. unfold enqueue_ok, enqueue, new_slot.
  change (classify_claim cfg Low critical Ordinary) with ClaimNone. cbn [admission_valid negb try_claim push_partition].
  set (slot := mkSlot _ _ _ _).
  destruct (fifo_push_spec n _ _ slot (sr_l _ _ _ Hs)) as [Hb Hq]. change (admits _ _ _ _ _) with (len (al a) <? kLowCapacity cfg).
  unfold len in *. apply repr_mono in Hs. destruct Hs as [Hh Hn Hl Hho Hno Hnr Hbt Hbd Hok].
  cbn [release_claim]. destruct (q_try_push slot (low_q_ s)) as [b q']. cbn [fst snd] in *. subst b.
  destruct (_ <? _); eexists; (split; [reflexivity|]); (split; [|done]); split; try done.
  destruct Hok. split; try done. simpl. apply Forall_app. split; [done|]. by apply Forall_singleton.
Qed.

Lemma enqueue_normal_reserved n s a target e now critical :
  staging_repr (S n) s a -> enqueue_ok n s a target e Normal now critical ReservedNormal.
Proof.
  intros Hs. pose proof cfg_bounds as (_ & HN & _ & _ & HR & _). unfold enqueue_ok, enqueue, new_slot.
  change (classify_claim cfg Normal critical ReservedNormal) with NormalReserved.
  change (admission_valid cfg Normal ReservedNormal) with (negb (kNormalReservedCapacity cfg =? 0)).
  change (admits _ _ _ _ _) with (claims NormalReserved (an a) <? kNormalReservedCapacity cfg).
  set (slot := mkSlot _ _ _ _). cbn [try_claim push_partition]. rewrite (sr_nr _ _ _ Hs).
  pose proof (claims_bounds NormalReserved (an a)) as Hcb. pose proof (so_no _ _ (sr_ok _ _ _ Hs)) as Hno.
  destruct (Z.eqb_spec (kNormalReservedCapacity cfg) 0) as [Hz|Hz]; cbn [negb].
  - rewrite (proj2 (Z.ltb_ge _ _)) by lia. exists s. split_and!; [done|by apply repr_mono|done].
  - destruct (Z.ltb_spec (claims NormalReserved (an a)) (kNormalReservedCapacity cfg)) as [Hlt|Hge].
    + rewrite claim_counter_up by lia. cbn [fst snd negb normal_q_ set_claims].
      pose proof (normal_split _ _ (sr_ok _ _ _ Hs) Hz) as Hsp.
      destruct (fifo_push_ok n _ _ slot (sr_n _ _ _ Hs)) as (q' & -> & Hq'); [unfold len in Hsp; lia|].
      eexists. split; [reflexivity|]. split; [|done].
      apply repr_mono in Hs. destruct Hs as [Hh Hn Hl Hho Hno' Hnr Hbt Hbd Hok].
      split; try done; simpl; rewrite ?claims_app; simpl; try lia.
      destruct Hok. split; simpl; rewrite ?claims_app; try done; simpl; try lia.
      apply Forall_app. split; [done|]. apply Forall_singleton. rewrite (proj2 (Z.eqb_neq _ _) Hz). by right.
    + rewrite claim_counter_full by lia. cbn [fst snd negb].
      eexists. split; [reflexivity|]. split; [|done]. apply repr_mono in Hs. by destruct Hs.
Qed.

Lemma enqueue_normal n s a target e now critical :
  staging_repr (S n) s a -> enqueue_ok n s a target e Normal now critical Ordinary.
Proof.
  intros Hs. pose proof cfg_bounds as (_ & HN & _ & _ & HR & _). unfold enqueue_ok, enqueue, new_slot.
  change (classify_claim cfg Normal critical Ordinary)
    with (if negb (kNormalReservedCapacity cfg =? 0) then NormalOrdinary else ClaimNone).
  change (admits _ _ _ _ _) with (if kNormalReservedCapacity cfg =? 0 then len (an a) <? kNormalCapacity cfg
    else claims NormalOrdinary (an a) <? kNormalCapacity cfg - kNormalReservedCapacity cfg).
  change (admission_valid cfg Normal Ordinary) with true. cbn [negb].
  destruct (Z.eqb_spec (kNormalReservedCapacity cfg) 0) as [Hz|Hz]; cbn [negb try_claim push_partition].
  - set (slot := mkSlot _ _ _ _).
    destruct (fifo_push_spec n _ _ slot (sr_n _ _ _ Hs)) as [Hb Hq]. unfold len.
    apply repr_mono in Hs. destruct Hs as [Hh Hn Hl Hho Hno Hnr Hbt Hbd Hok].
    destruct (q_try_push slot (normal_q_ s)) as [b q']. cbn [fst snd release_claim] in *. subst b.
    destruct (_ <? _); eexists; (split; [reflexivity|]); (split; [|done]); split; try done;
      simpl; rewrite ?claims_app; simpl; try lia.
    destruct Hok. split; simpl; rewrite ?claims_app; try done; simpl; try lia.
    apply Forall_app. split; [done|]. apply Forall_singleton. by rewrite Hz.
  - set (slot := mkSlot _ _ _ _). rewrite (sr_no _ _ _ Hs), wrap_small by (unfold in_u; lia).
    pose proof (so_nr _ _ (sr_ok _ _ _ Hs)) as Hnr'.
    destruct (Z.ltb_spec (claims NormalOrdinary (an a)) (kNormalCapacity cfg - kNormalReservedCapacity cfg)) as [Hlt|Hge].
    + rewrite claim_counter_up by lia. cbn [fst snd negb normal_q_ set_claims].
      pose proof (normal_split _ _ (sr_ok _ _ _ Hs) Hz) as Hsp.
      destruct (fifo_push_ok n _ _ slot (sr_n _ _ _ Hs)) as (q' & -> & Hq'); [unfold len in Hsp; lia|].
      eexists. split; [reflexivity|]. split; [|done].
      apply repr_mono in Hs. destruct Hs as [Hh Hn Hl Hho Hno Hnr Hbt Hbd Hok].
      split; try done; simpl; rewrite ?claims_app; simpl; try lia.
      destruct Hok. split; simpl; rewrite ?claims_app; try done; simpl; try lia.
      apply Forall_app. split; [done|]. apply Forall_singleton. rewrite (proj2 (Z.eqb_neq _ _) Hz). by left.
    + rewrite claim_counter_full by lia. cbn [fst snd negb].
      eexists. split; [reflexivity|]. split; [|done]. apply repr_mono in Hs. by destruct Hs.
Qed.

Lemma enqueue_high n s a target e now critical :
  staging_repr (S n) s a -> enqueue_ok n s a target e High now critical Ordinary.
Proof.
  intros Hs. pose proof cfg_bounds as (HH & _ & _ & HR & _). unfold enqueue_ok, enqueue, new_slot.
  change (classify_claim cfg High critical Ordinary)
    with (if negb critical && negb (kHighCriticalReserve cfg =? 0) then HighOrdinary else ClaimNone).
  change (admits _ _ _ _ _) with ((len (ah a) <? kHighCapacity cfg) &&
    (critical || (kHighCriticalReserve cfg =? 0) ||
     (claims HighOrdinary (ah a) <? kHighCapacity cfg - kHighCriticalReserve cfg))).
  change (admission_valid cfg High Ordinary) with true. cbn [negb].
  assert (Hor : critical || (kHighCriticalReserve cfg =? 0) = negb (negb critical && negb (kHighCriticalReserve cfg =? 0)))
    by (by destruct critical, (_ =? 0)).
  rewrite Hor. destruct (negb critical && negb (kHighCriticalReserve cfg =? 0)) eqn:Hcl; cbn [negb orb try_claim push_partition].
  - split_bools. set (slot := mkSlot _ _ _ _). rewrite (sr_ho _ _ _ Hs), wrap_small by (unfold in_u; lia).
    destruct (Z.ltb_spec (claims HighOrdinary (ah a)) (kHighCapacity cfg - kHighCriticalReserve cfg)) as [Hlt|Hge].
    + rewrite claim_counter_up, andb_true_r by lia. cbn [fst snd negb high_q_ set_claims].
      destruct (fifo_push_spec n _ _ slot (sr_h _ _ _ Hs)) as [Hb Hq]. unfold len.
      apply repr_mono in Hs. destruct Hs as [Hh Hn Hl Hho Hno Hnr Hbt Hbd Hok].
      destruct (q_try_push slot (high_q_ s)) as [b q']. cbn [fst snd] in *. subst b.
      pose proof (claims_bounds HighOrdinary (ah a)).
      destruct (_ <? _).
      * eexists. split; [reflexivity|]. split; [|done]. split; try done; simpl; rewrite ?claims_app; simpl; try lia.
        destruct Hok. split; simpl; rewrite ?claims_app; try done; simpl; try lia.
        apply Forall_app. split; [done|]. apply Forall_singleton. by right.
      * cbn [release_claim]. rewrite claim_counter_down by (simpl; lia).
        eexists. split; [reflexivity|]. split; [|done]. split; try done. simpl. lia.
    + rewrite claim_counter_full, andb_false_r by lia. cbn [fst snd negb].
      eexists. split; [reflexivity|]. split; [|done]. apply repr_mono in Hs. by destruct Hs.
  - rewrite andb_true_r. set (slot := mkSlot _ _ _ _).
    destruct (fifo_push_spec n _ _ slot (sr_h _ _ _ Hs)) as [Hb Hq]. unfold len.
    apply repr_mono in Hs. destruct Hs as [Hh Hn Hl Hho Hno Hnr Hbt Hbd Hok].
    destruct (q_try_push slot (high_q_ s)) as [b q']. cbn [fst snd release_claim] in *. subst b.
    destruct (_ <? _); eexists; (split; [reflexivity|]); (split; [|done]); split; try done;
      simpl; rewrite ?claims_app; simpl; try lia.
    destruct Hok. split; simpl; rewrite ?claims_app; try done; simpl; try lia.
    apply Forall_app. split; [done|]. apply Forall_singleton. by left.
Qed.

Lemma enqueue_spec n s a target e cls now critical adm :
  staging_repr (S n) s a -> enqueue_ok n s a target e cls now critical adm.
Proof.
  intros Hs. destruct adm; [|destruct (decide (cls = Normal)) as [->|Hne]].
  - destruct cls; [by apply enqueue_high|by apply enqueue_normal|by apply enqueue_low].
  - by apply enqueue_normal_reserved.
  - exists s. assert (admits cfg a cls critical ReservedNormal = false) as -> by (by destruct cls).
    unfold enqueue. assert (admission_valid cfg cls ReservedNormal = false) as -> by (by destruct cls).
    split_and!; [done|by apply repr_mono|done].
Qed.

(** Serving a partition whose head is [x]. *)
Definition serve (s : ST) (p : Partition) : outcome (option StagingSlot * ST) :=
  match pop_partition cfg s p with
  | (None, s1) => mret (None, s1)
  | (Some out, s1) =>
    s2 ← release_claim s1 (s_claim out);
    mret (Some out, set_batch s2 (u8 (batch_used_ s2 + 1)))
  end.

Definition served (n : nat) (s : ST) (p : Partition) (x : StagingSlot) (a' : staged) : Prop :=
  exists s', serve s p = Ret (Some x, s') /\ staging_repr n s' a' /\ same_latch s s'.

Lemma tail_ok (Q : StagingSlot -> Prop) x l : Forall Q (x :: l) -> Q x /\ Forall Q l.
Proof. by rewrite Forall_cons. Qed.

Lemma serve_high n s a x h :
  staging_repr n s a -> ah a = x :: h -> abatch a < 255 ->
  served n s PHigh x (mkStaged h (an a) (al a) (abatch a + 1)).
Proof.
  intros [Hh Hn Hl Hho Hno Hnr Hbt Hbd Hok] Ha Hb. unfold served, serve, pop_partition.
  rewrite Ha in Hh, Hho. destruct (fifo_pop_cons _ _ _ _ Hh) as (q' & -> & Hq'). cbn [fst snd].
  destruct Hok as [Oh On Ol Oho Ono Onr]. rewrite Ha in Oh, Oho. apply tail_ok in Oh as [Hx Oh].
  rewrite claims_cons in Hho, Oho. pose proof (claims_bounds HighOrdinary h). pose proof cfg_bounds.
  unfold has_claim in *. destruct Hx as [Hx|[Hx Hr]]; rewrite Hx in *; simpl in Hho, Oho; cbn [release_claim].
  - eexists. split; [reflexivity|]. split; [|done].
    split; try done; simpl; rewrite ?Hbt, ?wrap_small by (unfold in_u; lia); try lia. split; simpl; try done; lia.
  - rewrite claim_counter_down by (simpl; lia).
    eexists. split; [reflexivity|]. split; [|done].
    split; try done; simpl; rewrite ?Hbt, ?wrap_small by (unfold in_u; lia); try lia. split; simpl; try done; lia.
Qed.

Lemma serve_normal n s a x l :
  staging_repr n s a -> an a = x :: l -> abatch a < 255 ->
  served n s PNormal x (mkStaged (ah a) l (al a) (abatch a + 1)).
Proof.
  intros [Hh Hn Hl Hho Hno Hnr Hbt Hbd Hok] Ha Hb. unfold served, serve, pop_partition.
  rewrite Ha in Hn, Hno, Hnr. destruct (fifo_pop_cons _ _ _ _ Hn) as (q' & -> & Hq'). cbn [fst snd].
  destruct Hok as [Oh On Ol Oho Ono Onr]. rewrite Ha in On, Ono, Onr. apply tail_ok in On as [Hx On].
  rewrite claims_cons in Hno, Ono, Hnr, Onr. pose proof cfg_bounds.
  pose proof (claims_bounds NormalOrdinary l). pose proof (claims_bounds NormalReserved l).
  assert (Hx' : s_claim x = ClaimNone \/ s_claim x = NormalOrdinary \/ s_claim x = NormalReserved)
    by (destruct (_ =? 0); tauto). clear Hx.
  unfold has_claim in *. destruct Hx' as [Hx|[Hx|Hx]]; rewrite Hx in *; simpl in Hno, Ono, Hnr, Onr; cbn [release_claim].
  - eexists. split; [reflexivity|]. split; [|done].
    split; try done; simpl; rewrite ?Hbt, ?wrap_small by (unfold in_u; lia); try lia. split; simpl; try done; lia.
  - rewrite claim_counter_down by (simpl; lia).
    eexists. split; [reflexivity|]. split; [|done].
    split; try done; simpl; rewrite ?Hbt, ?wrap_small by (unfold in_u; lia); try lia. split; simpl; try done; lia.
  - rewrite claim_counter_down by (simpl; lia).
    eexists. split; [reflexivity|]. split; [|done].
    split; try done; simpl; rewrite ?Hbt, ?wrap_small by (unfold in_u; lia); try lia. split; simpl; try done; lia.
Qed.

Lemma serve_low n s a x l :
  staging_repr n s a -> al a = x :: l -> abatch a < 255 ->
  served n s PLow x (mkStaged (ah a) (an a) l (abatch a + 1)).
Proof.
  intros [Hh Hn Hl Hho Hno Hnr Hbt Hbd Hok] Ha Hb. unfold served, serve, pop_partition.
  rewrite Ha in Hl. destruct (fifo_pop_cons _ _ _ _ Hl) as (q' & -> & Hq'). cbn [fst snd].
  destruct Hok as [Oh On Ol Oho Ono Onr]. rewrite Ha in Ol. apply tail_ok in Ol as [Hx Ol].
  rewrite Hx. cbn [release_claim]. eexists. split; [reflexivity|]. split; [|done].
  split; try done; simpl; rewrite ?Hbt, ?wrap_small by (unfold in_u; lia); try lia.
Qed.

Lemma aging_spec n s a now :
  staging_repr n s a -> aging_expired cfg (set_clock s now) = low_aged cfg a now.
Proof.
  intros Hs. pose proof cfg_bounds as (_ & _ & _ & _ & _ & Hw & _). unfold aging_expired, low_aged.
  cbn [now_valid_ now_ns_ low_q_ set_clock negb]. rewrite (fifo_front _ _ _ (sr_l _ _ _ Hs)).
  destruct (al a) as [|x l]; [done|]. cbn [head]. unfold aged.
  assert (Hd : u32 (u32 now - s_enqueue_ns x) = (now - s_enqueue_ns x) `mod` 2 ^ 32).
  { unfold wrap. by rewrite Zminus_mod_idemp_l. }
  rewrite Hd. pose proof (Z.mod_pos_bound (now - s_enqueue_ns x) (2 ^ 32) ltac:(lia)) as Hm.
  set (d := _ `mod` _) in *. rewrite (wrap_small 32 (kLowMaxWaitMs cfg)), (wrap_small 32 (_ * _)) by (unfold in_u; lia).
  destruct (Z.ltb_spec d (2 ^ 31)); simpl.
  - rewrite (proj2 (Z.ltb_ge d 0)) by lia. by rewrite wrap_small by (unfold in_u; lia).
  - by rewrite (proj2 (Z.ltb_lt (d - 2 ^ 32) 0)) by lia.
Qed.

Lemma repr_clock n s a now : staging_repr n s a -> staging_repr n (set_clock s now) a.
Proof. by intros []. Qed.

Lemma dequeue_spec n s a now :
  staging_repr n s a ->
  exists s', dequeue_one cfg s now = Ret (fst <$> next_slot cfg a now, s') /\
    staging_repr n s' (match next_slot cfg a now with Some (_, a') => a' | None => a end) /\
    same_latch s s'.
Proof.
  intros Hs. pose proof cfg_bounds as (_ & _ & _ & _ & _ & _ & HB).
  pose proof (aging_spec n s a now Hs) as Hage. apply (repr_clock n s a now) in Hs.
  assert (Hlatch : forall s', same_latch (set_clock s now) s' -> same_latch s s') by done.
  unfold dequeue_one. cbv zeta. fold (serve (set_clock s now)).
  set (s0 := set_clock s now) in *. unfold any_ready, ready_count. rewrite Hage.
  rewrite (fifo_ready _ _ _ (sr_h _ _ _ Hs)), (fifo_ready _ _ _ (sr_n _ _ _ Hs)), (fifo_ready _ _ _ (sr_l _ _ _ Hs)).
  rewrite (sr_batch _ _ _ Hs). unfold next_slot, select, low_aged.
  assert (Hstop : exists s', mret (None, s0) = Ret (@None StagingSlot, s') /\ staging_repr n s' a /\ same_latch s s')
    by (exists s0; done).
  destruct (Z.leb_spec (kBatchSizeMax cfg) (abatch a)).
  { destruct (negb _); exact Hstop. }
  assert (Hlt : abatch a < 255) by lia.
  pose proof (serve_high n s0 a) as Sh. pose proof (serve_normal n s0 a) as Sn. pose proof (serve_low n s0 a) as Sl.
  destruct (ah a) as [|x h], (an a) as [|y m], (al a) as [|z l]; simpl in *; try exact Hstop;
    try destruct (aged cfg z now); simpl.
  all: first
    [ destruct (Sl _ _ Hs eq_refl Hlt) as (s' & Hse & Hr & Hsl); exists s'; split; [exact Hse|]; split; [exact Hr|by apply Hlatch]
    | destruct (Sh _ _ Hs eq_refl Hlt) as (s' & Hse & Hr & Hsl); exists s'; split; [exact Hse|]; split; [exact Hr|by apply Hlatch]
    | destruct (Sn _ _ Hs eq_refl Hlt) as (s' & Hse & Hr & Hsl); exists s'; split; [exact Hse|]; split; [exact Hr|by apply Hlatch] ].
Qed.

(** *** Scripts of staging calls *)

Inductive sop :=
| SEnqueue (target : TargetId) (e : Z) (cls : PriorityClass) (now : Z) (critical : bool) (adm : StagingAdmission)
| SDequeue (now : Z)
| SBeginBatch.

Inductive sans := AnsBool (b : bool) | AnsSlot (o : option StagingSlot) | AnsUnit.

Definition staging_op (o : sop) (s : ST) : outcome (sans * ST) :=
  match o with
  | SEnqueue t e cls now crit adm =>
    r ← enqueue cfg s t e cls now crit adm; mret (AnsBool r.1, r.2)
  | SDequeue now => r ← dequeue_one cfg s now; mret (AnsSlot r.1, r.2)
  | SBeginBatch => mret (AnsUnit, begin_batch s)
  end.

Definition staged_op (o : sop) (a : staged) : sans * staged :=
  match o with
  | SEnqueue t e cls now crit adm =>
    (AnsBool (admits cfg a cls crit adm),
     if admits cfg a cls crit adm then staged_push a cls (new_slot t e cls now crit adm) else a)
  | SDequeue now =>
    (AnsSlot (fst <$> next_slot cfg a now),
     match next_slot cfg a now with Some (_, a') => a' | None => a end)
  | SBeginBatch => (AnsUnit, mkStaged (ah a) (an a) (al a) 0)
  end.

Fixpoint staging_script (os : list sop) (s : ST) : outcome (list sans * ST) :=
  match os with
  | [] => mret ([], s)
  | o :: os => r ← staging_op o s; rs ← staging_script os r.2; mret (r.1 :: rs.1, rs.2)
  end.

Fixpoint staged_script (os : list sop) (a : staged) : list sans * staged :=
  match os with
  | [] => ([], a)
  | o :: os => let r := staged_op o a in let rs := staged_script os r.2 in (r.1 :: rs.1, rs.2)
  end.

Lemma staging_op_spec n o s a :
  staging_repr (S n) s a ->
  exists s', staging_op o s = Ret ((staged_op o a).1, s') /\ staging_repr n s' (staged_op o a).2 /\ same_latch s s'.
Proof.
  intros Hs. destruct o as [t e cls now crit adm|now|]; simpl.
  - destruct (enqueue_spec n s a t e cls now crit adm Hs) as (s' & -> & Hr & Hl). simpl. eauto.
  - apply repr_mono in Hs. destruct (dequeue_spec n s a now Hs) as (s' & -> & Hr & Hl). simpl. eauto.
  - eexists. split; [done|]. split; [|done]. apply repr_mono in Hs.
    destruct Hs as [? ? ? ? ? ? ? ? Hok]. split; try done; simpl; try lia. by destruct Hok.
Qed.

Lemma staging_script_spec os s a :
  staging_repr (length os) s a ->
  exists s', staging_script os s = Ret ((staged_script os a).1, s') /\
    staging_repr 0 s' (staged_script os a).2 /\ same_latch s s'.
Proof.
  revert s a. induction os as [|o os IH]; intros s a Hs; simpl; [exists s; done|].
  destruct (staging_op_spec _ o s a Hs) as (s1 & -> & Hr & Hl1). simpl.
  destruct (IH _ _ Hr) as (s2 & -> & Hr2 & Hl2). simpl. exists s2. split_and!; [done|done|].
  destruct Hl1, Hl2. split; congruence.
Qed.

Lemma staging_ctor_repr n h m l :
  fifo_repr n h [] -> fifo_repr n m [] -> fifo_repr n l [] ->
  staging_repr n (staging_ctor h m l) (mkStaged [] [] [] 0).
Proof.
  intros. pose proof cfg_bounds. split; simpl; try done; try lia.
  split; simpl; try apply Forall_nil_2; unfold claims; simpl; lia.
Qed.
End refine.

(** C3: Over any three FIFO backends, every sequence of enqueues, dequeues and
    batch starts on a fresh staging answers like three bounded lists: a
    submission is admitted exactly by the capacity and reservation rule of
    [admits], a dequeue serves an aged Low head first, then High, Normal and
    Low in FIFO order, at most [kBatchSizeMax] per batch; no claim counter ever
    underflows, and the wake latch and lease word are not touched. *)
Theorem staging_refines_lists (cfg : Config) {QH QN QL : Type}
    `{!QueueBackend (kHighCapacity cfg) StagingSlot QH, !FifoLaws (kHighCapacity cfg) StagingSlot QH}
    `{!QueueBackend (kNormalCapacity cfg) StagingSlot QN, !FifoLaws (kNormalCapacity cfg) StagingSlot QN}
    `{!QueueBackend (kLowCapacity cfg) StagingSlot QL, !FifoLaws (kLowCapacity cfg) StagingSlot QL}
    (h : QH) (m : QN) (l : QL) (os : list sop) :
  config_ok cfg = true ->
  fifo_repr (length os) h [] -> fifo_repr (length os) m [] -> fifo_repr (length os) l [] ->
  exists s', staging_script cfg os (staging_ctor h m l) = Ret ((staged_script cfg os (mkStaged [] [] [] 0)).1, s') /\
    staging_repr cfg 0 s' (staged_script cfg os (mkStaged [] [] [] 0)).2 /\
    same_latch (staging_ctor h m l) s'.
Proof.
  intros Hc Hh Hm Hl. apply staging_script_spec; [done|]. by apply staging_ctor_repr.
Qed.

(** A board with one reserved High cell and one reserved Normal cell. *)
Definition reserve_board : Config := mkConfig 4 2 2 2 2 10 1 1 5 100 0.

Definition board_staging : Staging (CriticalRing StagingSlot) (CriticalRing StagingSlot) (CriticalRing StagingSlot) :=
  staging_ctor (cr_ctor 2) (cr_ctor 2) (cr_ctor 2).

Lemma staging_refines_lists_witness :
  let t := mkTarget 1 in
  let os := [SEnqueue t 10 High 0 false Ordinary; SEnqueue t 11 High 0 false Ordinary;
             SEnqueue t 12 High 0 true Ordinary; SEnqueue t 13 Low 0 false Ordinary;
             SDequeue 200000000; SDequeue 200000000; SDequeue 0; SBeginBatch; SDequeue 0] in
  exists answers s', staging_script reserve_board os board_staging = Ret (answers, s') /\
    answers = [AnsBool true; AnsBool false; AnsBool true; AnsBool true;
      AnsSlot (Some (mkSlot t ClaimNone 13 0)); AnsSlot (Some (mkSlot t HighOrdinary 10 0));
      AnsSlot None; AnsUnit; AnsSlot (Some (mkSlot t ClaimNone 12 0))].
Proof.
  intros t os.
  destruct (staging_refines_lists reserve_board (cr_ctor 2 : CriticalRing StagingSlot)
    (cr_ctor 2 : CriticalRing StagingSlot) (cr_ctor 2 : CriticalRing StagingSlot) os) as (s' & Hr & _);
    [reflexivity|apply (cr_ctor_repr 2 9); lia..|].
  eexists _, s'. split; [exact Hr|]. reflexivity.
Defined.

Lemma high_split cfg a : staged_ok cfg a ->
  len (ah a) = claims ClaimNone (ah a) + claims HighOrdinary (ah a).
Proof.
  intros [Hh _ _ _ _ _]. revert Hh. induction (ah a) as [|x l IH]; intros Hh; [done|].
  apply Forall_cons in Hh as [Hx Hh]. rewrite !claims_cons. unfold len in *. simpl. specialize (IH Hh).
  unfold has_claim. destruct Hx as [-> |[-> _]]; simpl; lia.
Qed.

(** The reservations hold.  A critical High submission is refused only when
    the partition is full and at least [kHighCriticalReserve] of its resident
    events are critical ones, and a [ReservedNormal] submission is refused only
    when the whole Normal reserve is taken by reserved events: ordinary traffic
    can never take the reserved capacity. *)
Theorem reservations_hold (cfg : Config) {QH QN QL : Type}
    `{!QueueBackend (kHighCapacity cfg) StagingSlot QH, !FifoLaws (kHighCapacity cfg) StagingSlot QH}
    `{!QueueBackend (kNormalCapacity cfg) StagingSlot QN, !FifoLaws (kNormalCapacity cfg) StagingSlot QN}
    `{!QueueBackend (kLowCapacity cfg) StagingSlot QL, !FifoLaws (kLowCapacity cfg) StagingSlot QL}
    (s : Staging QH QN QL) (a : staged) (n : nat) (t : TargetId) (e now : Z) (critical : bool) :
  config_ok cfg = true -> staging_repr cfg (S n) s a ->
  (exists b s', enqueue cfg s t e High now true Ordinary = Ret (b, s') /\
     (b = false -> len (ah a) = kHighCapacity cfg /\ kHighCriticalReserve cfg <= claims ClaimNone (ah a))) /\
  (exists b s', enqueue cfg s t e Normal now critical ReservedNormal = Ret (b, s') /\
     (b = false -> claims NormalReserved (an a) = kNormalReservedCapacity cfg)).
Proof.
  intros Hc Hs. pose proof (sr_ok _ _ _ _ Hs) as Hok. split.
  - destruct (enqueue_spec cfg Hc n s a t e High now true Ordinary Hs) as (s' & He & _).
    eexists _, s'. split; [exact He|]. simpl. rewrite andb_true_r. intros Hf%Z.ltb_ge.
    pose proof (fifo_bound _ _ _ (sr_h _ _ _ _ Hs)) as Hb. pose proof (high_split _ _ Hok).
    pose proof (so_ho _ _ Hok). unfold len in *. lia.
  - destruct (enqueue_spec cfg Hc n s a t e Normal now critical ReservedNormal Hs) as (s' & He & _).
    eexists _, s'. split; [exact He|]. simpl. intros Hf%Z.ltb_ge. pose proof (so_nr _ _ Hok). lia.
Qed.

(** On the empty board the reserved lane takes its one event. *)
Lemma reservations_hold_witness :
  exists b s', enqueue reserve_board board_staging (mkTarget 1) 10 Normal 0 false ReservedNormal = Ret (b, s') /\
     (b = false -> claims NormalReserved [] = kNormalReservedCapacity reserve_board).
Proof.
  assert (Hs : staging_repr reserve_board 1 board_staging (mkStaged [] [] [] 0)).
  { apply staging_ctor_repr; [reflexivity|apply (cr_ctor_repr 2 1); lia..]. }
  destruct (reservations_hold reserve_board board_staging (mkStaged [] [] [] 0) 0 (mkTarget 1) 10 0 false eq_refl Hs)
    as [_ H]. exact H.
Defined.
