(* ===== verification/Hsm.v ===== *)
(** * Hierarchical state machine (include/coact/hsm.hpp)

    The run-time HSM over static tables.  [Ctx] is the application context;
    entry, exit, guard and action callbacks are functions on it.  Reading a
    table outside its bounds is undefined in the source and [Fatal] here, as is
    running out of fuel in a loop that would not end: the theorems show that a
    machine whose topology the constructor accepted never does either. *)

From S2P Require Import Prelude.

Inductive TransitionKind := Internal | Self | External.

Section hsm.
Context {Ctx Ev : Type} (ev_signal : Ev -> Z).

Record StateDef := mkState {
  parent : Z; entry : option (Ctx -> Ctx); exit : option (Ctx -> Ctx); initial_child : Z
}.

Record TransitionDef := mkTrans {
  source : Z; signal : Z; target : Z; kind : TransitionKind;
  guard : option (Ctx -> Ev -> bool); action : option (Ctx -> Ev -> Ctx)
}.

Record Hsm := mkHsm {
  states_ : list StateDef; transitions_ : list TransitionDef;
  initial_state_ : Z; max_depth_ : Z; current_ : Z
}.

Definition set_current (h : Hsm) (c : Z) : Hsm :=
  mkHsm (states_ h) (transitions_ h) (initial_state_ h) (max_depth_ h) c.

Definition num_states (h : Hsm) : Z := Z.of_nat (length (states_ h)).

(** [states_[s]]. *)
Definition state_at (ss : list StateDef) (s : Z) : outcome StateDef :=
  if s <? 0 then Fatal
  else match ss !! Z.to_nat s with Some d => Ret d | None => Fatal end.

Definition opt_run (f : option (Ctx -> Ctx)) (c : Ctx) : Ctx :=
  match f with Some f => f c | None => c end.
Definition opt_act (f : option (Ctx -> Ev -> Ctx)) (c : Ctx) (e : Ev) : Ctx :=
  match f with Some f => f c e | None => c end.

(** Enough iterations for any loop over an acyclic parent chain. *)
Definition chain_fuel (h : Hsm) : nat := S (length (states_ h)).

(** ** Construction *)

(** The inner [while (state >= 0)] of [validate_topology]. *)
Fixpoint check_chain (h : Hsm) (fuel : nat) (state hops : Z) : outcome unit :=
  match fuel with
  | O => Fatal
  | S f =>
    if state <? 0 then mret tt
    else
      _ ← coact_assert (state <? num_states h);
      _ ← coact_assert (hops <? num_states h);
      d ← state_at (states_ h) state;
      check_chain h f (parent d) (hops + 1)
  end.

Definition check_state (h : Hsm) (index : Z) : outcome unit :=
  d ← state_at (states_ h) index;
  _ ← coact_assert (-1 <=? parent d);
  let child := initial_child d in
  _ ← coact_assert (-1 <=? child);
  _ ← (if 0 <=? child then
         _ ← coact_assert (child <? num_states h);
         dc ← state_at (states_ h) child;
         coact_assert (parent dc =? index)
       else mret tt);
  check_chain h (chain_fuel h) index 0.

Fixpoint check_states (h : Hsm) (index : Z) (fuel : nat) : outcome unit :=
  match fuel with
  | O => mret tt
  | S f => _ ← check_state h index; check_states h (index + 1) f
  end.

Definition validate_topology (h : Hsm) : outcome unit :=
  _ ← coact_assert (num_states h <=? 128);
  check_states h 0 (length (states_ h)).

Definition hsm_ctor (ss : list StateDef) (ts : list TransitionDef) (initial max_depth : Z) : outcome Hsm :=
  let h := mkHsm ss ts initial max_depth (-1) in
  _ ← validate_topology h; mret h.

(** ** Navigation *)

Definition parent_of (h : Hsm) (s : Z) : outcome Z := d ← state_at (states_ h) s; mret (parent d).

Fixpoint chain_depth_loop (h : Hsm) (fuel : nat) (s depth : Z) : outcome Z :=
  match fuel with
  | O => Fatal
  | S f => if s <? 0 then mret depth else p ← parent_of h s; chain_depth_loop h f p (depth + 1)
  end.
Definition chain_depth (h : Hsm) (s : Z) : outcome Z := chain_depth_loop h (chain_fuel h) s 0.

(** [while (depth > limit) { state = parent_of(state); --depth; }]. *)
Fixpoint climb (h : Hsm) (fuel : nat) (s depth limit : Z) : outcome Z :=
  if depth <=? limit then mret s
  else match fuel with
       | O => Fatal
       | S f => p ← parent_of h s; climb h f p (depth - 1) limit
       end.

Definition ancestor_at_depth (h : Hsm) (s depth : Z) : outcome Z :=
  d ← chain_depth h s; climb h (chain_fuel h) s d depth.

Fixpoint meet (h : Hsm) (fuel : nat) (a b : Z) : outcome Z :=
  if a =? b then mret a
  else if (a <? 0) || (b <? 0) then mret (-1)
  else match fuel with
       | O => Fatal
       | S f => pa ← parent_of h a; pb ← parent_of h b; meet h f pa pb
       end.

Definition find_lca (h : Hsm) (a b : Z) : outcome Z :=
  da ← chain_depth h a;
  db ← chain_depth h b;
  a' ← climb h (chain_fuel h) a da db;
  b' ← climb h (chain_fuel h) b db (Z.min da db);
  meet h (chain_fuel h) a' b'.

(** ** Running *)

Fixpoint find_in (ctx : Ctx) (evt : Ev) (src : Z) (ts : list TransitionDef) : option TransitionDef :=
  match ts with
  | [] => None
  | t :: ts =>
    if (source t =? src) && (signal t =? ev_signal evt) then
      match guard t with
      | Some g => if g ctx evt then Some t else find_in ctx evt src ts
      | None => Some t
      end
    else find_in ctx evt src ts
  end.
Definition find_transition (h : Hsm) (ctx : Ctx) (evt : Ev) (src : Z) : option TransitionDef :=
  find_in ctx evt src (transitions_ h).

Fixpoint exit_loop (h : Hsm) (fuel : nat) (ctx : Ctx) (s lca : Z) : outcome Ctx :=
  if s =? lca then mret ctx
  else match fuel with
       | O => Fatal
       | S f => d ← state_at (states_ h) s; exit_loop h f (opt_run (exit d) ctx) (parent d) lca
       end.
Definition exit_to_lca (h : Hsm) (ctx : Ctx) (lca : Z) : outcome Ctx :=
  exit_loop h (chain_fuel h) ctx (current_ h) lca.

(** The exit loop of a Self transition: up to and including the source. *)
Fixpoint exit_through (h : Hsm) (fuel : nat) (ctx : Ctx) (s src : Z) : outcome Ctx :=
  match fuel with
  | O => Fatal
  | S f =>
    d ← state_at (states_ h) s;
    let ctx := opt_run (exit d) ctx in
    if s =? src then mret ctx else exit_through h f ctx (parent d) src
  end.

Fixpoint enter_levels (h : Hsm) (fuel : nat) (ctx : Ctx) (target level : Z) : outcome Ctx :=
  match fuel with
  | O => mret ctx
  | S f =>
    s ← ancestor_at_depth h target level;
    d ← state_at (states_ h) s;
    enter_levels h f (opt_run (entry d) ctx) target (level + 1)
  end.
Definition enter_path (h : Hsm) (ctx : Ctx) (lca target : Z) : outcome Ctx :=
  ld ← chain_depth h lca;
  td ← chain_depth h target;
  enter_levels h (Z.to_nat (td - ld)) ctx target (ld + 1).

Fixpoint descend (h : Hsm) (fuel : nat) (ctx : Ctx) (s hops : Z) : outcome (Ctx * Z) :=
  d ← state_at (states_ h) s;
  let child := initial_child d in
  if child <? 0 then mret (ctx, s)
  else
    _ ← coact_assert (child <? num_states h);
    dc ← state_at (states_ h) child;
    _ ← coact_assert (parent dc =? s);
    _ ← coact_assert (hops <? max_depth_ h);
    match fuel with
    | O => Fatal
    | S f => descend h f (opt_run (entry dc) ctx) child (hops + 1)
    end.
Definition enter_initial_descendants (h : Hsm) (ctx : Ctx) (s : Z) : outcome (Ctx * Z) :=
  descend h (Z.to_nat (max_depth_ h)) ctx s 0.

Definition hsm_init (h : Hsm) (ctx : Ctx) : outcome (Ctx * Hsm) :=
  if (initial_state_ h <? 0) || (num_states h <=? initial_state_ h) then mret (ctx, h)
  else
    ctx1 ← enter_path h ctx (-1) (initial_state_ h);
    r ← enter_initial_descendants h ctx1 (initial_state_ h);
    mret (r.1, set_current h r.2).

Definition execute_transition (h : Hsm) (ctx : Ctx) (evt : Ev) (src : Z) (t : TransitionDef) : outcome (Ctx * Hsm) :=
  match kind t with
  | Internal => mret (opt_act (action t) ctx evt, h)
  | Self =>
    ctx1 ← exit_through h (chain_fuel h) ctx (current_ h) src;
    let ctx2 := opt_act (action t) ctx1 evt in
    d ← state_at (states_ h) src;
    r ← enter_initial_descendants h (opt_run (entry d) ctx2) src;
    mret (r.1, set_current h r.2)
  | External =>
    _ ← coact_assert (0 <=? target t);
    _ ← coact_assert (target t <? num_states h);
    lca0 ← find_lca h src (target t);
    lca ← (if (lca0 =? src) || (lca0 =? target t) then parent_of h lca0 else mret lca0);
    ctx1 ← exit_to_lca h ctx lca;
    let ctx2 := opt_act (action t) ctx1 evt in
    ctx3 ← enter_path h ctx2 lca (target t);
    r ← enter_initial_descendants h ctx3 (target t);
    mret (r.1, set_current h r.2)
  end.

Fixpoint dispatch_loop (h : Hsm) (fuel : nat) (ctx : Ctx) (evt : Ev) (s hops : Z) : outcome (bool * Ctx * Hsm) :=
  match find_transition h ctx evt s with
  | Some t => r ← execute_transition h ctx evt s t; mret (true, r.1, r.2)
  | None =>
    p ← parent_of h s;
    if p <? 0 then mret (false, ctx, h)
    else if max_depth_ h <=? hops then mret (false, ctx, h)
    else match fuel with
         | O => Fatal
         | S f => dispatch_loop h f ctx evt p (u8 (hops + 1))
         end
  end.
Definition dispatch (h : Hsm) (ctx : Ctx) (evt : Ev) : outcome (bool * Ctx * Hsm) :=
  if current_ h <? 0 then mret (false, ctx, h)
  else dispatch_loop h (chain_fuel h) ctx evt (current_ h) 0.
End hsm.

Arguments StateDef : clear implicits.
Arguments TransitionDef : clear implicits.
Arguments Hsm : clear implicits.
