(* ===== verification/HsmSpec.v ===== *)
(** * Correctness of the HSM (include/coact/hsm.hpp)

    A state's path is the list of states from it up to the root.  Dispatch is
    specified on paths: which states are left, which are entered, in which
    order, and that the active configuration is always the path of the current
    leaf. *)

From S2P Require Import Prelude Hsm.

Section paths.
Context {Ctx Ev : Type}.
Implicit Types (ss : list (StateDef Ctx)) (l : list Z) (h : Hsm Ctx Ev).

Inductive is_path ss : Z -> list Z -> Prop :=
| path_root : is_path ss (-1) []
| path_cons s d l : state_at ss s = Ret d -> is_path ss (parent d) l -> is_path ss s (s :: l).

(** The state a path starts from. *)
Definition top (l : list Z) : Z := hd (-1) l.

Lemma state_at_range ss s d : state_at ss s = Ret d -> 0 <= s < Z.of_nat (length ss).
Proof.
  unfold state_at. destruct (Z.ltb_spec s 0); [done|].
  destruct (ss !! Z.to_nat s) eqn:E; [|done]. apply lookup_lt_Some in E. lia.
Qed.

Lemma state_at_some ss s : 0 <= s < Z.of_nat (length ss) -> exists d, state_at ss s = Ret d.
Proof.
  intros Hs. unfold state_at. destruct (Z.ltb_spec s 0); [lia|].
  destruct (lookup_lt_is_Some_2 ss (Z.to_nat s)) as [d ->]; [lia|eauto].
Qed.

Lemma path_top ss s l : is_path ss s l -> s = top l.
Proof. by destruct 1. Qed.

Lemma path_range ss s l x : is_path ss s l -> x ∈ l -> 0 <= x < Z.of_nat (length ss).
Proof.
  induction 1 as [|s d l Hs _ IH]; [by intros ?%not_elem_of_nil|].
  intros [->|Hx]%elem_of_cons; [by eapply state_at_range|auto].
Qed.

Lemma path_det ss s l l' : is_path ss s l -> is_path ss s l' -> l = l'.
Proof.
  intros Hl. revert l'. induction Hl as [|s d l Hs _ IH]; intros l' Hl'.
  - inversion Hl' as [|? ? ? Hs']; subst; [done|]. apply state_at_range in Hs'. lia.
  - inversion Hl' as [|? d' l'' Hs' Hl'']; subst; [apply state_at_range in Hs; lia|].
    assert (d = d') as -> by congruence. f_equal. by apply IH.
Qed.

Lemma path_suffix ss s x r : is_path ss s (x ++ r) -> is_path ss (top r) r.
Proof.
  revert s. induction x as [|y x IH]; intros s Hp; simpl in Hp.
  - by rewrite <- (path_top _ _ _ Hp).
  - inversion Hp; subst. by eapply IH.
Qed.

Lemma path_member ss s l x : is_path ss s l -> x ∈ l -> exists y r, l = y ++ x :: r /\ is_path ss x (x :: r).
Proof.
  intros Hp Hx. apply list_elem_of_split in Hx as (y & r & ->). exists y, r. split; [done|].
  apply path_suffix in Hp. done.
Qed.

Lemma path_nodup ss s l : is_path ss s l -> NoDup l.
Proof.
  induction 1 as [|s d l Hs Hp IH]; [constructor|]. constructor; [|done].
  intros Hin. destruct (path_member _ _ _ _ Hp Hin) as (y & r & -> & Hr).
  assert (Hfull : is_path ss s (s :: y ++ s :: r)) by (by econstructor).
  pose proof (path_det _ _ _ _ Hr Hfull) as Heq. apply (f_equal length) in Heq. simpl in Heq.
  rewrite length_app in Heq. simpl in Heq. lia.
Qed.

(** The boundary of a split path is not among the states before it. *)
Lemma path_boundary ss s x r : is_path ss s (x ++ r) -> top r ∉ x.
Proof.
  intros Hp. destruct r as [|y r]; simpl.
  - intros Hin. assert (-1 ∈ x ++ []) as Hr by (rewrite app_nil_r; done).
    pose proof (path_range _ _ _ _ Hp Hr). lia.
  - apply path_nodup, NoDup_app in Hp as (_ & Hd & _). intros Hin. apply (Hd _ Hin). by left.
Qed.

(** ** What the constructor checks *)

Definition valid h : Prop := validate_topology h = Ret tt.

Lemma check_states_inv h i fuel :
  check_states h i fuel = Ret tt ->
  forall s, i <= s < i + Z.of_nat fuel -> check_state h s = Ret tt.
Proof.
  revert i. induction fuel as [|f IH]; intros i Hc s Hs; [lia|]. simpl in Hc.
  apply bind_ret_inv in Hc as ([] & H1 & H2).
  destruct (decide (s = i)) as [->|Hne]; [done|]. apply (IH _ H2). lia.
Qed.

Lemma valid_state h s d :
  valid h -> state_at (states_ h) s = Ret d ->
  -1 <= parent d /\ -1 <= initial_child d /\
  (0 <= initial_child d -> exists dc, state_at (states_ h) (initial_child d) = Ret dc /\ parent dc = s) /\
  check_chain h (chain_fuel h) s 0 = Ret tt.
Proof.
  intros Hv Hs. unfold valid, validate_topology in Hv. apply bind_ret_inv in Hv as ([] & _ & Hv).
  pose proof (check_states_inv _ _ _ Hv s ltac:(pose proof (state_at_range _ _ _ Hs); lia)) as Hc.
  unfold check_state in Hc. rewrite Hs in Hc. simpl in Hc.
  apply bind_ret_inv in Hc as ([] & H1%coact_assert_inv & Hc).
  apply bind_ret_inv in Hc as ([] & H2%coact_assert_inv & Hc).
  apply bind_ret_inv in Hc as ([] & H3 & Hc). split_bools. split_and!; [done|done| |done].
  intros Hge. rewrite (proj2 (Z.leb_le _ _) Hge) in H3.
  apply bind_ret_inv in H3 as ([] & _ & H3). apply bind_ret_inv in H3 as (dc & Hdc & H3%coact_assert_inv).
  exists dc. split; [done|]. by apply Z.eqb_eq.
Qed.

Lemma check_chain_path h fuel s hops :
  valid h -> -1 <= s -> check_chain h fuel s hops = Ret tt ->
  exists l, is_path (states_ h) s l /\ hops + Z.of_nat (length l) <= Z.max hops (Z.of_nat (length (states_ h))).
Proof.
  intros Hv. revert s hops. induction fuel as [|f IH]; intros s hops Hs Hc; simpl in Hc; [done|].
  destruct (Z.ltb_spec s 0).
  - assert (s = -1) as -> by lia. exists []. split; [constructor|simpl; lia].
  - apply bind_ret_inv in Hc as ([] & _ & Hc). apply bind_ret_inv in Hc as ([] & Hh%coact_assert_inv & Hc).
    apply bind_ret_inv in Hc as (d & Hd & Hc). split_bools. unfold num_states in *.
    destruct (IH (parent d) (hops + 1)) as (l & Hl & Hlen); [by eapply valid_state|done|].
    exists (s :: l). split; [by econstructor|]. simpl. lia.
Qed.

(** Every state of a machine the constructor accepts has a path, no longer
    than the number of states. *)
Lemma valid_path h s :
  valid h -> 0 <= s < num_states h ->
  exists l, is_path (states_ h) s l /\ (length l <= length (states_ h))%nat.
Proof.
  intros Hv Hs. destruct (state_at_some _ _ Hs) as (d & Hd).
  destruct (valid_state _ _ _ Hv Hd) as (_ & _ & _ & Hc).
  destruct (check_chain_path h _ s 0 Hv ltac:(lia) Hc) as (l & Hl & Hlen). exists l. split; [done|lia].
Qed.

Lemma path_length h s l : valid h -> is_path (states_ h) s l -> (length l <= length (states_ h))%nat.
Proof.
  intros Hv Hp. destruct l as [|x l]; [simpl; lia|].
  pose proof (path_range _ _ _ _ Hp ltac:(left)) as Hr. pose proof (path_top _ _ _ Hp) as Ht. simpl in Ht. subst x.
  destruct (valid_path h s Hv Hr) as (l' & Hl' & Hlen). by rewrite (path_det _ _ _ _ Hp Hl').
Qed.
End paths.

(** ** Navigation *)

Section navigation.
Context {Ctx Ev : Type} (h : Hsm Ctx Ev) (Hv : valid h).
Implicit Types (l r : list Z).
Abbreviation path := (is_path (states_ h)).

Lemma parent_of_path s l : path s (s :: l) -> parent_of h s = Ret (top l).
Proof.
  inversion 1; subst. unfold parent_of. match goal with H : state_at _ _ = _ |- _ => rewrite H end.
  simpl. f_equal. by eapply path_top.
Qed.

Lemma path_tail s x r : path s (x :: r) -> s = x /\ path (top r) r.
Proof.
  intros Hp. pose proof (path_top _ _ _ Hp) as Ht. split; [done|]. by apply (path_suffix _ s [x]).
Qed.

Lemma path_neg s l : path s l -> s < 0 -> l = [].
Proof. intros Hp Hs. destruct Hp as [|s d l Hd]; [done|]. apply state_at_range in Hd. lia. Qed.

Lemma path_nonneg s x l : path s (x :: l) -> 0 <= s.
Proof. intros Hp. inversion Hp as [|? ? ? Hd]; subst. apply state_at_range in Hd. lia. Qed.

Lemma chain_depth_spec s l : path s l -> chain_depth h s = Ret (Z.of_nat (length l)).
Proof.
  intros Hp. pose proof (path_length _ _ _ Hv Hp) as Hlen.
  assert (Hgen : forall fuel s l d, path s l -> (length l < fuel)%nat ->
    chain_depth_loop h fuel s d = Ret (d + Z.of_nat (length l))).
  { clear. intros fuel. induction fuel as [|f IH]; intros s l d Hp Hf; [lia|]. simpl.
    destruct l as [|x l].
    - assert (s = -1) as -> by (by apply path_top in Hp). simpl. f_equal. lia.
    - rewrite (proj2 (Z.ltb_ge _ _) (path_nonneg _ _ _ Hp)). destruct (path_tail _ _ _ Hp) as [-> Ht].
      rewrite (parent_of_path _ _ Hp). simpl. rewrite (IH _ l) by (done || (simpl in Hf; lia)). f_equal. simpl. lia. }
  unfold chain_depth. rewrite (Hgen _ _ l) by (done || unfold chain_fuel; lia). done.
Qed.

Lemma climb_spec fuel s l (k : nat) :
  path s l -> (k <= length l)%nat -> (k <= fuel)%nat ->
  climb h fuel s (Z.of_nat (length l)) (Z.of_nat (length l) - Z.of_nat k) = Ret (top (drop k l)).
Proof using Type.
  revert s l k. induction fuel as [|f IH]; intros s l k Hp Hk Hf.
  - assert (k = 0%nat) as -> by lia. simpl. rewrite Z.sub_0_r, Z.leb_refl.
    f_equal. by eapply path_top.
  - destruct k as [|k]; [simpl; rewrite Z.sub_0_r, Z.leb_refl; f_equal; by eapply path_top|].
    destruct l as [|x l]; [simpl in Hk; lia|]. destruct (path_tail _ _ _ Hp) as [-> Ht].
    cbn [climb]. rewrite (proj2 (Z.leb_gt _ _)) by lia. rewrite (parent_of_path _ _ Hp). simpl in Hk.
    cbn [mbind outcome_bind drop]. rewrite <- (IH _ l k Ht) by lia. f_equal; simpl; lia.
Qed.

Lemma climb_le fuel s depth limit : depth <= limit -> climb h fuel s depth limit = Ret s.
Proof using Type. intros Hle. destruct fuel; simpl; by rewrite (proj2 (Z.leb_le _ _) Hle). Qed.

Lemma ancestor_spec s l (k : nat) :
  path s l -> (k <= length l)%nat ->
  ancestor_at_depth h s (Z.of_nat (length l) - Z.of_nat k) = Ret (top (drop k l)).
Proof.
  intros Hp Hk. unfold ancestor_at_depth. rewrite (chain_depth_spec _ _ Hp). cbn [mbind outcome_bind].
  apply climb_spec; [done|done|]. pose proof (path_length _ _ _ Hv Hp). unfold chain_fuel. lia.
Qed.

(** [r] is the longest common suffix of two paths. *)
Definition lcs (la lb r : list Z) : Prop :=
  r `suffix_of` la /\ r `suffix_of` lb /\ forall m, m `suffix_of` la -> m `suffix_of` lb -> m `suffix_of` r.

Lemma suffix_cases (m : list Z) (x : Z) l : m `suffix_of` x :: l -> m = x :: l \/ m `suffix_of` l.
Proof using Type. destruct m; [right; apply suffix_nil|apply suffix_cons_inv]. Qed.

Lemma meet_spec fuel a b la lb :
  path a la -> path b lb -> length la = length lb -> (length la <= fuel)%nat ->
  exists r, meet h fuel a b = Ret (top r) /\ lcs la lb r.
Proof using Type.
  revert a b la lb. induction fuel as [|f IH]; intros a b la lb Ha Hb Hlen Hf.
  - destruct la, lb; simpl in *; try lia. pose proof (path_top _ _ _ Ha) as Ea. pose proof (path_top _ _ _ Hb) as Eb.
    simpl in *. subst. exists []. by split.
  - cbn [meet]. destruct (Z.eqb_spec a b) as [->|Hne].
    + rewrite (path_det _ _ _ _ Hb Ha). exists la. split; [f_equal; by eapply path_top|]. by split.
    + destruct la as [|x la], lb as [|y lb]; simpl in Hlen; try lia.
      { exfalso. apply Hne. by rewrite (path_top _ _ _ Ha), (path_top _ _ _ Hb). }
      rewrite (proj2 (Z.ltb_ge _ _) (path_nonneg _ _ _ Ha)), (proj2 (Z.ltb_ge _ _) (path_nonneg _ _ _ Hb)). simpl.
      destruct (path_tail _ _ _ Ha) as [-> Ta]. destruct (path_tail _ _ _ Hb) as [-> Tb].
      rewrite (parent_of_path _ _ Ha), (parent_of_path _ _ Hb). simpl.
      destruct (IH _ _ _ _ Ta Tb ltac:(lia) ltac:(simpl in Hf; lia)) as (r & Hr & Sa & Sb & Hm).
      exists r. split; [done|]. split_and!; [by apply suffix_cons_r|by apply suffix_cons_r|].
      intros m Hma Hmb. apply suffix_cases in Hma as [->|Hma].
      * apply suffix_cases in Hmb as [Heq|Hmb]; [by simplify_eq|].
        apply suffix_length in Hmb. simpl in Hmb. lia.
      * apply suffix_cases in Hmb as [->|Hmb]; [|auto].
        apply suffix_length in Hma. simpl in Hma. lia.
Qed.

Lemma suffix_drop m l k : m `suffix_of` l -> (length m <= length (drop k l))%nat -> m `suffix_of` drop k l.
Proof using Type.
  destruct m as [|z m]; [intros; apply suffix_nil|]. intros [y ->] Hlen. rewrite length_drop, length_app in Hlen. simpl in Hlen. rewrite drop_app_le by lia. by apply suffix_app_r.
Qed.

Lemma find_lca_spec a b la lb :
  path a la -> path b lb -> exists r, find_lca h a b = Ret (top r) /\ lcs la lb r.
Proof.
  intros Ha Hb. unfold find_lca. rewrite (chain_depth_spec _ _ Ha), (chain_depth_spec _ _ Hb). cbn [mbind outcome_bind].
  pose proof (path_length _ _ _ Hv Ha) as Hla. pose proof (path_length _ _ _ Hv Hb) as Hlb.
  destruct (le_lt_dec (length lb) (length la)) as [Hle|Hlt].
  - set (k := (length la - length lb)%nat).
    assert (climb h (chain_fuel h) a (Z.of_nat (length la)) (Z.of_nat (length lb)) = Ret (top (drop k la))) as ->.
    { replace (Z.of_nat (length lb)) with (Z.of_nat (length la) - Z.of_nat k) by lia.
      apply climb_spec; [done|lia|unfold chain_fuel; lia]. }
    cbn [mbind outcome_bind]. rewrite climb_le by lia. cbn [mbind outcome_bind].
    assert (Hd : path (top (drop k la)) (drop k la)).
    { apply (path_suffix _ a (take k la)). by rewrite take_drop. }
    destruct (meet_spec (chain_fuel h) _ _ _ _ Hd Hb) as (r & Hr & Sa & Sb & Hm); [rewrite length_drop; lia|rewrite length_drop; unfold chain_fuel; lia|].
    exists r. split; [done|]. split_and!; [|done|].
    + etrans; [exact Sa|]. exists (take k la). by rewrite take_drop.
    + intros m Hma Hmb. apply Hm; [|done]. apply suffix_drop; [done|]. apply suffix_length in Hmb. rewrite length_drop. lia.
  - rewrite (climb_le _ a) by lia. cbn [mbind outcome_bind]. set (k := (length lb - length la)%nat).
    assert (climb h (chain_fuel h) b (Z.of_nat (length lb)) (Z.min (Z.of_nat (length la)) (Z.of_nat (length lb))) = Ret (top (drop k lb))) as ->.
    { replace (Z.min _ _) with (Z.of_nat (length lb) - Z.of_nat k) by lia.
      apply climb_spec; [done|lia|unfold chain_fuel; lia]. }
    cbn [mbind outcome_bind].
    assert (Hd : path (top (drop k lb)) (drop k lb)).
    { apply (path_suffix _ b (take k lb)). by rewrite take_drop. }
    destruct (meet_spec (chain_fuel h) _ _ _ _ Ha Hd) as (r & Hr & Sa & Sb & Hm); [rewrite length_drop; lia|unfold chain_fuel; lia|].
    exists r. split; [done|]. split_and!; [done| |].
    + etrans; [exact Sb|]. exists (take k lb). by rewrite take_drop.
    + intros m Hma Hmb. apply Hm; [done|]. apply suffix_drop; [done|]. apply suffix_length in Hma. rewrite length_drop. lia.
Qed.
End navigation.

(** ** Entry and exit sequences *)

Lemma set_current_id {Ctx Ev} (h : Hsm Ctx Ev) : set_current h (current_ h) = h.
Proof. by destruct h. Qed.

Section running.
Context {Ctx Ev : Type} (ev_signal : Ev -> Z) (h : Hsm Ctx Ev) (Hv : valid h).
Implicit Types (l r : list Z) (ctx : Ctx).
Abbreviation path := (is_path (states_ h)).

Definition exit_of (ss : list (StateDef Ctx)) (s : Z) : option (Ctx -> Ctx) :=
  match state_at ss s with Ret d => exit d | Fatal => None end.
Definition entry_of (ss : list (StateDef Ctx)) (s : Z) : option (Ctx -> Ctx) :=
  match state_at ss s with Ret d => entry d | Fatal => None end.

(** Run the exit (entry) actions of a list of states, in its order. *)
Definition run_exits (ss : list (StateDef Ctx)) (l : list Z) (ctx : Ctx) : Ctx :=
  fold_left (fun c s => opt_run (exit_of ss s) c) l ctx.
Definition run_entries (ss : list (StateDef Ctx)) (l : list Z) (ctx : Ctx) : Ctx :=
  fold_left (fun c s => opt_run (entry_of ss s) c) l ctx.

Lemma run_exits_cons ss s d l ctx : state_at ss s = Ret d ->
  run_exits ss (s :: l) ctx = run_exits ss l (opt_run (exit d) ctx).
Proof using Type. intros Hd. unfold run_exits. simpl. unfold exit_of at 2. by rewrite Hd. Qed.

Lemma run_entries_cons ss s d l ctx : state_at ss s = Ret d ->
  run_entries ss (s :: l) ctx = run_entries ss l (opt_run (entry d) ctx).
Proof using Type. intros Hd. unfold run_entries. simpl. unfold entry_of at 2. by rewrite Hd. Qed.

Lemma path_cons_inv s y l : path s (y :: l) ->
  s = y /\ exists d, state_at (states_ h) s = Ret d /\ parent d = top l /\ path (parent d) l.
Proof using Type.
  inversion 1 as [|? d ? Hs Hl]; subst. split; [done|]. exists d. split_and!; [done|by eapply path_top|done].
Qed.

Lemma exit_loop_spec fuel ctx s (x : list Z) r :
  path s (x ++ r) -> (length x <= fuel)%nat ->
  exit_loop h fuel ctx s (top r) = Ret (run_exits (states_ h) x ctx).
Proof using Type.
  revert ctx s fuel. induction x as [|y x IH]; intros ctx s fuel Hp Hf; simpl in Hp.
  - rewrite <- (path_top _ _ _ Hp). destruct fuel; simpl; by rewrite Z.eqb_refl.
  - pose proof (path_boundary _ _ (y :: x) _ Hp) as Hb.
    destruct (path_cons_inv _ _ _ Hp) as (-> & d & Hd & Hpar & Hl).
    destruct fuel as [|f]; [simpl in Hf; lia|]. cbn [exit_loop].
    rewrite (proj2 (Z.eqb_neq _ _)) by (intros ->; apply Hb; by left).
    rewrite Hd. cbn [mbind outcome_bind]. rewrite IH by (done || (simpl in Hf; lia)).
    by rewrite (run_exits_cons _ _ _ _ _ Hd).
Qed.

Lemma exit_through_spec fuel ctx s (x : list Z) src r :
  path s (x ++ src :: r) -> (length x < fuel)%nat ->
  exit_through h fuel ctx s src = Ret (run_exits (states_ h) (x ++ [src]) ctx).
Proof using Type.
  revert ctx s fuel. induction x as [|y x IH]; intros ctx s fuel Hp Hf; simpl in Hp;
    (destruct fuel as [|f]; [simpl in Hf; lia|]).
  - destruct (path_cons_inv _ _ _ Hp) as (-> & d & Hd & _). cbn [exit_through]. rewrite Hd.
    cbn [mbind outcome_bind app]. by rewrite Z.eqb_refl, (run_exits_cons _ _ _ _ _ Hd).
  - pose proof (path_nodup _ _ _ Hp) as Hnd. apply NoDup_cons in Hnd as [Hy _].
    destruct (path_cons_inv _ _ _ Hp) as (-> & d & Hd & Hpar & Hl). cbn [exit_through]. rewrite Hd.
    cbn [mbind outcome_bind]. rewrite (proj2 (Z.eqb_neq _ _)).
    2:{ intros ->. apply Hy. rewrite elem_of_app. right. by left. }
    rewrite IH by (done || (simpl in Hf; lia)). cbn [app]. by rewrite (run_exits_cons _ _ _ _ _ Hd).
Qed.

Lemma take_S_rev (l : list Z) k y : l !! k = Some y -> rev (take (S k) l) = y :: rev (take k l).
Proof using Type. intros Hy. rewrite (take_S_r _ _ _ Hy). by rewrite rev_app_distr. Qed.

Lemma enter_levels_spec fuel ctx s l :
  path s l -> (fuel <= length l)%nat ->
  enter_levels h fuel ctx s (Z.of_nat (length l) - Z.of_nat fuel + 1)
  = Ret (run_entries (states_ h) (rev (take fuel l)) ctx).
Proof.
  revert ctx. induction fuel as [|f IH]; intros ctx Hp Hf; [done|]. cbn [enter_levels].
  replace (Z.of_nat (length l) - Z.of_nat (S f) + 1) with (Z.of_nat (length l) - Z.of_nat f) by lia.
  rewrite (ancestor_spec h Hv _ _ f Hp) by lia. cbn [mbind outcome_bind].
  destruct (lookup_lt_is_Some_2 l f) as [y Hy]; [lia|].
  assert (Ht : top (drop f l) = y) by (by rewrite (drop_S _ _ _ Hy)).
  assert (Hpy : path y (drop f l)).
  { rewrite <- Ht. apply (path_suffix _ s (take f l)). by rewrite take_drop. }
  rewrite (drop_S _ _ _ Hy) in Hpy. destruct (path_cons_inv _ _ _ Hpy) as (_ & d & Hd & _).
  rewrite Ht, Hd. cbn [mbind outcome_bind]. rewrite IH by (done || lia).
  by rewrite (take_S_rev _ _ _ Hy), (run_entries_cons _ _ _ _ _ Hd).
Qed.

Lemma enter_path_spec ctx s (x : list Z) r :
  path s (x ++ r) -> enter_path h ctx (top r) s = Ret (run_entries (states_ h) (rev x) ctx).
Proof.
  intros Hp. unfold enter_path. rewrite (chain_depth_spec h Hv (top r) r) by (by eapply path_suffix).
  rewrite (chain_depth_spec h Hv _ _ Hp). cbn [mbind outcome_bind].
  pose proof (enter_levels_spec (length x) ctx s (x ++ r) Hp) as He. rewrite length_app in He |- *.
  replace (Z.to_nat (Z.of_nat (length x + length r) - Z.of_nat (length r))) with (length x) by lia.
  replace (Z.of_nat (length r) + 1) with (Z.of_nat (length x + length r) - Z.of_nat (length x) + 1) by lia.
  rewrite He by lia. by rewrite take_app_length.
Qed.

(** The chain of initial children from [s] reaches a leaf in [fuel] hops. *)
Fixpoint leaf_within (ss : list (StateDef Ctx)) (fuel : nat) (s : Z) : bool :=
  match state_at ss s with
  | Ret d => (initial_child d <? 0) || match fuel with O => false | S f => leaf_within ss f (initial_child d) end
  | Fatal => false
  end.

Definition is_leaf (ss : list (StateDef Ctx)) (s : Z) : Prop :=
  exists d, state_at ss s = Ret d /\ initial_child d < 0.

Lemma descend_spec fuel ctx s l hops :
  path s l -> leaf_within (states_ h) fuel s = true -> hops + Z.of_nat fuel <= max_depth_ h ->
  exists ds leaf, descend h fuel ctx s hops = Ret (run_entries (states_ h) ds ctx, leaf) /\
    path leaf (rev ds ++ l) /\ is_leaf (states_ h) leaf.
Proof.
  revert ctx s l hops. induction fuel as [|f IH]; intros ctx s l hops Hp Hl Hh; simpl in Hl;
    destruct (state_at (states_ h) s) as [d|] eqn:Hd; try done; cbn [descend]; rewrite Hd; cbn [mbind outcome_bind];
    destruct (Z.ltb_spec (initial_child d) 0) as [Hneg|Hpos]; try done.
  1,2: exists [], s; split_and!; [done|done|by exists d].
  destruct (valid_state _ _ _ Hv Hd) as (_ & _ & Hc & _). destruct (Hc Hpos) as (dc & Hdc & Hpar).
  rewrite (proj2 (Z.ltb_lt (initial_child d) (num_states h))) by (pose proof (state_at_range _ _ _ Hdc); unfold num_states; lia).
  rewrite Hdc. cbn [coact_assert mbind outcome_bind]. rewrite Hpar, Z.eqb_refl. cbn [coact_assert mbind outcome_bind].
  rewrite (proj2 (Z.ltb_lt hops (max_depth_ h))) by lia. cbn [coact_assert mbind outcome_bind].
  destruct (IH (opt_run (entry dc) ctx) (initial_child d) (initial_child d :: l) (hops + 1)) as (ds & leaf & He & Hpl & Hleaf);
    [econstructor; [done|by rewrite Hpar]|done|lia|].
  exists (initial_child d :: ds), leaf. split_and!; [|simpl; by rewrite <- app_assoc|done].
  by rewrite He, (run_entries_cons _ _ _ _ _ Hdc).
Qed.

(** ** Transitions *)

(** The boundary of an external transition: the part [r] of both paths that
    is neither left nor entered. *)
Lemma boundary_spec src tgt ls lt :
  path src (src :: ls) -> path tgt (tgt :: lt) ->
  exists (xs xt : list Z) r, src :: ls = (src :: xs) ++ r /\ tgt :: lt = (tgt :: xt) ++ r /\
    (lca0 ← find_lca h src tgt;
     if (lca0 =? src) || (lca0 =? tgt) then parent_of h lca0 else mret lca0) = Ret (top r) /\
    (forall s, s ∈ src :: ls -> s ∈ tgt :: lt -> s <> src -> s <> tgt -> s ∈ r).
Proof.
  intros Hs Ht. destruct (find_lca_spec h Hv _ _ _ _ Hs Ht) as (r0 & -> & [ys Hys] & [yt Hyt] & Hmax).
  cbn [mbind outcome_bind].
  assert (Hr0 : path (top r0) r0) by (eapply (path_suffix _ _ ys); by rewrite <- Hys).
  destruct (Z.eqb_spec (top r0) src) as [Hsrc|Hsrc]; [|destruct (Z.eqb_spec (top r0) tgt) as [Htgt|Htgt]]; simpl.
  - rewrite Hsrc in Hr0. pose proof (path_det _ _ _ _ Hr0 Hs) as ->. rewrite Hsrc, (parent_of_path h _ _ Hs).
    destruct yt as [|y yt]; simpl in Hyt; injection Hyt as -> Hyt.
    + exists [], [], ls. split_and!; [done|by rewrite Hyt|done|].
      intros s [->|?]%elem_of_cons; done.
    + exists [], (yt ++ [src]), ls. split_and!; [done|rewrite Hyt; simpl; by rewrite <- app_assoc|done|].
      intros s [->|?]%elem_of_cons; done.
  - rewrite Htgt in Hr0. pose proof (path_det _ _ _ _ Hr0 Ht) as ->. rewrite Htgt, (parent_of_path h _ _ Ht).
    destruct ys as [|y ys]; simpl in Hys; injection Hys as -> Hys; [by simpl in Hsrc|].
    exists (ys ++ [tgt]), [], lt. split_and!; [rewrite Hys; simpl; by rewrite <- app_assoc|done|done|].
    intros s _ [->|?]%elem_of_cons; done.
  - destruct ys as [|y ys]; [simpl in Hys; subst r0; by simpl in Hsrc|].
    destruct yt as [|y' yt]; [simpl in Hyt; subst r0; by simpl in Htgt|].
    simpl in Hys, Hyt. injection Hys as <- Hys. injection Hyt as <- Hyt.
    exists ys, yt, r0. split_and!; [by rewrite Hys|by rewrite Hyt|done|].
    intros s Hsl Hst _ _.
    destruct (path_member _ _ _ _ Hs Hsl) as (a & ra & Ea & Pa). destruct (path_member _ _ _ _ Ht Hst) as (b & rb & Eb & Pb).
    pose proof (path_det _ _ _ _ Pa Pb) as Heq. injection Heq as <-.
    destruct (Hmax (s :: ra)) as [z ->]; [by exists a|by exists b|]. rewrite elem_of_app. right. by left.
Qed.

Definition tables_ok (g : Hsm Ctx Ev) : bool :=
  (0 <=? max_depth_ g) && (max_depth_ g <? 256) &&
  forallb (fun i => leaf_within (states_ g) (Z.to_nat (max_depth_ g)) (Z.of_nat i)) (seq 0 (length (states_ g))) &&
  forallb (fun t => match kind t with External => (0 <=? target t) && (target t <? num_states g) | _ => true end)
          (transitions_ g).

Context (Hok : tables_ok h = true).

Lemma tables_depth : 0 <= max_depth_ h < 256.
Proof. unfold tables_ok in Hok. split_bools. lia. Qed.

Lemma tables_leaf s : 0 <= s < num_states h -> leaf_within (states_ h) (Z.to_nat (max_depth_ h)) s = true.
Proof.
  intros Hs. unfold tables_ok in Hok. split_bools.
  match goal with H : forallb _ (seq _ _) = true |- _ => rename H into Hf end.
  rewrite forallb_forall in Hf. rewrite <- (Z2Nat.id s) by lia. apply Hf. apply in_seq. unfold num_states in Hs. lia.
Qed.

Lemma tables_target t : t ∈ transitions_ h -> kind t = External -> 0 <= target t < num_states h.
Proof.
  intros Ht Hk. unfold tables_ok in Hok. split_bools.
  match goal with H : forallb _ (transitions_ _) = true |- _ => rename H into Hf end.
  rewrite forallb_forall in Hf. specialize (Hf t). rewrite Hk in Hf.
  assert (Hb : (0 <=? target t) && (target t <? num_states h) = true) by (by apply Hf, list_elem_of_In).
  split_bools. lia.
Qed.

Lemma descend_from ctx s l :
  path s (s :: l) ->
  exists ds leaf, enter_initial_descendants h ctx s = Ret (run_entries (states_ h) ds ctx, leaf) /\
    path leaf (rev ds ++ s :: l) /\ is_leaf (states_ h) leaf.
Proof.
  intros Hp. unfold enter_initial_descendants. apply descend_spec; [done| |].
  - apply tables_leaf. apply (path_range _ _ _ _ Hp). by left.
  - pose proof tables_depth. lia.
Qed.

(** What a transition [t] taken at [src] does to the active path [lc]:
    [exits] are left innermost first, [entries] entered outermost first. *)
Definition moves (lc : list Z) (src : Z) (t : TransitionDef Ctx Ev) (exits entries rest : list Z) : Prop :=
  lc = exits ++ rest /\
  match kind t with
  | Internal => exits = [] /\ entries = []
  | Self => last exits = Some src /\ head entries = Some src
  | External =>
    src ∈ exits /\ target t ∈ entries /\
    forall s ls lt, path src ls -> path (target t) lt -> s ∈ ls -> s ∈ lt -> s <> src -> s <> target t -> s ∈ rest
  end.

Lemma run_entries_app ss (l l' : list Z) ctx : run_entries ss (l ++ l') ctx = run_entries ss l' (run_entries ss l ctx).
Proof using Type. apply fold_left_app. Qed.

Lemma execute_spec ctx evt lc (y : list Z) src ls t :
  path (current_ h) lc -> lc = y ++ src :: ls -> t ∈ transitions_ h ->
  exists exits entries rest cur', moves lc src t exits entries rest /\
    execute_transition h ctx evt src t =
      Ret (run_entries (states_ h) entries (opt_act (action t) (run_exits (states_ h) exits ctx) evt), set_current h cur') /\
    path cur' (rev entries ++ rest) /\ (kind t <> Internal -> is_leaf (states_ h) cur').
Proof.
  intros Hp -> Ht. pose proof (path_suffix _ _ _ _ Hp) as Hs. simpl in Hs.
  pose proof (path_length _ _ _ Hv Hp) as Hlen. rewrite length_app in Hlen. simpl in Hlen.
  unfold execute_transition, moves. destruct (kind t) eqn:Hk.
  - exists [], [], (y ++ src :: ls), (current_ h). split_and!; try done. by rewrite set_current_id.
  - rewrite (exit_through_spec (chain_fuel h) _ _ y _ ls Hp) by (unfold chain_fuel; lia). cbn [mbind outcome_bind].
    destruct (path_cons_inv _ _ _ Hs) as (_ & d & Hd & _). rewrite Hd. cbn [mbind outcome_bind].
    destruct (descend_from (opt_run (entry d) (opt_act (action t) (run_exits (states_ h) (y ++ [src]) ctx) evt)) _ _ Hs)
      as (ds & leaf & -> & Hpl & Hleaf).
    exists (y ++ [src]), (src :: ds), ls, leaf. split_and!; try done.
    + by rewrite <- app_assoc.
    + by rewrite last_snoc.
    + cbn [mbind outcome_bind fst snd]. by rewrite (run_entries_cons _ _ _ _ _ Hd).
    + simpl. by rewrite <- app_assoc.
  - pose proof (tables_target t Ht Hk) as Htr. destruct (valid_path h _ Hv Htr) as (lt & Hlt & _).
    destruct lt as [|z lt]; [apply path_top in Hlt; simpl in Hlt; lia|].
    destruct (path_tail h _ _ _ Hlt) as [<- _].
    rewrite (proj2 (Z.leb_le _ _)), (proj2 (Z.ltb_lt _ _)) by lia. cbn [coact_assert mbind outcome_bind].
    destruct (boundary_spec src (target t) ls lt Hs Hlt) as (xs & xt & r & Exs & Ext & Hb & Hcommon).
    destruct (find_lca h src (target t)) as [lca0|]; [|done]. cbn [mbind outcome_bind] in Hb |- *. rewrite Hb.
    cbn [mbind outcome_bind]. unfold exit_to_lca.
    rewrite Exs, app_assoc in Hp. rewrite (exit_loop_spec (chain_fuel h) ctx _ _ _ Hp).
    2:{ apply (f_equal length) in Exs. rewrite length_app in Exs |- *. simpl in Exs |- *. unfold chain_fuel. lia. }
    cbn [mbind outcome_bind]. pose proof Hlt as Hlt'. rewrite Ext in Hlt'.
    rewrite (enter_path_spec _ _ _ _ Hlt'). cbn [mbind outcome_bind].
    destruct (descend_from (run_entries (states_ h) (rev (target t :: xt))
      (opt_act (action t) (run_exits (states_ h) (y ++ src :: xs) ctx) evt)) _ _ Hlt) as (ds & leaf & -> & Hpl & Hleaf).
    cbn [mbind outcome_bind fst snd].
    exists (y ++ src :: xs), (rev (target t :: xt) ++ ds), r, leaf. split_and!; try done.
    + rewrite Exs. by rewrite app_assoc.
    + rewrite elem_of_app. right. by left.
    + rewrite elem_of_app. left. simpl. rewrite elem_of_app. right. by left.
    + intros s ls' lt' Hls' Hlt'' H1 H2. rewrite (path_det _ _ _ _ Hls' Hs) in H1. rewrite (path_det _ _ _ _ Hlt'' Hlt) in H2.
      by apply Hcommon.
    + by rewrite run_entries_app.
    + rewrite rev_app_distr, rev_involutive, <- app_assoc. by rewrite <- Ext.
Qed.

(** The innermost active state, at most [max_depth] above the leaf, with an
    enabled transition. *)
Fixpoint handler (g : Hsm Ctx Ev) (ctx : Ctx) (evt : Ev) (l : list Z) : option (Z * TransitionDef Ctx Ev) :=
  match l with
  | [] => None
  | s :: l => match find_transition ev_signal g ctx evt s with Some t => Some (s, t) | None => handler g ctx evt l end
  end.

Lemma handler_some ctx evt l src t :
  handler h ctx evt l = Some (src, t) -> src ∈ l /\ find_transition ev_signal h ctx evt src = Some t.
Proof using Type.
  induction l as [|s l IH]; simpl; [done|]. destruct (find_transition ev_signal h ctx evt s) eqn:E.
  - intros [= -> ->]. split; [by left|done].
  - intros Hh. destruct (IH Hh). split; [by right|done].
Qed.

Lemma find_in_elem ctx evt src (ts : list (TransitionDef Ctx Ev)) t :
  find_in ev_signal ctx evt src ts = Some t -> t ∈ ts.
Proof using Type.
  induction ts as [|u ts IH]; simpl; [done|]. destruct (_ && _); [|intros; right; auto].
  destruct (guard u) as [g|]; [destruct (g ctx evt)|]; intros Hf; simplify_eq; (by left) || (right; auto).
Qed.

Lemma dispatch_loop_spec fuel ctx evt s l hops :
  path s l -> s <> -1 -> (length l <= S fuel)%nat -> 0 <= hops <= max_depth_ h ->
  dispatch_loop ev_signal h fuel ctx evt s hops =
  match handler h ctx evt (take (S (Z.to_nat (max_depth_ h - hops))) l) with
  | None => Ret (false, ctx, h)
  | Some (src, t) => r ← execute_transition h ctx evt src t; mret (true, r.1, r.2)
  end.
Proof.
  pose proof tables_depth as Hd. revert s l hops.
  induction fuel as [|f IH]; intros s l hops Hp Hs Hf Hh;
    (destruct l as [|x l]; [by apply path_top in Hp|]);
    destruct (path_tail h _ _ _ Hp) as [<- Ht]; cbn [dispatch_loop take handler];
    (destruct (find_transition ev_signal h ctx evt s) as [t|]; [done|]);
    rewrite (parent_of_path h _ _ Hp); cbn [mbind outcome_bind].
  - destruct l as [|z l]; [|simpl in Hf; lia]. simpl. by rewrite take_nil.
  - destruct l as [|z l]; [simpl; by rewrite take_nil|].
    rewrite (proj2 (Z.ltb_ge _ _)) by (apply (path_nonneg h _ _ _ Ht)).
    destruct (Z.leb_spec (max_depth_ h) hops).
    + assert (hops = max_depth_ h) as -> by lia. by rewrite Z.sub_diag.
    + rewrite wrap_small by (unfold in_u; lia).
      rewrite (IH _ (z :: l)); [|done|pose proof (path_nonneg h _ _ _ Ht); lia|simpl in Hf |- *; lia|lia].
      by replace (Z.to_nat (max_depth_ h - hops)) with (S (Z.to_nat (max_depth_ h - (hops + 1)))) by lia.
Qed.
End running.

Lemma dispatch_moves {Ctx Ev} (ev_signal : Ev -> Z) (h : Hsm Ctx Ev) (ctx : Ctx) (evt : Ev) (lc : list Z) :
  valid h -> tables_ok h = true -> is_path (states_ h) (current_ h) lc -> lc <> [] ->
  match handler ev_signal h ctx evt (take (S (Z.to_nat (max_depth_ h))) lc) with
  | None => dispatch ev_signal h ctx evt = Ret (false, ctx, h)
  | Some (src, t) =>
    exists exits entries rest cur',
      moves h lc src t exits entries rest /\
      dispatch ev_signal h ctx evt =
        Ret (true, run_entries (states_ h) entries (opt_act (action t) (run_exits (states_ h) exits ctx) evt),
             set_current h cur') /\
      is_path (states_ h) cur' (rev entries ++ rest) /\
      (kind t <> Internal -> is_leaf (states_ h) cur')
  end.
Proof.
  intros Hv Hok Hp Hne. pose proof (tables_depth h Hok) as Hd.
  pose proof (path_length _ _ _ Hv Hp) as Hlen.
  assert (Hpos : 0 <= current_ h) by (destruct lc; [done|by eapply path_nonneg]).
  unfold dispatch. rewrite (proj2 (Z.ltb_ge _ _) Hpos).
  rewrite (dispatch_loop_spec ev_signal h Hok _ _ _ _ lc) by (done || (unfold chain_fuel; lia)).
  rewrite Z.sub_0_r. destruct (handler _ _ _ _ _) as [[src t]|] eqn:Hh; [|done].
  apply handler_some in Hh as [Hsrc Hf]. apply find_in_elem in Hf.
  apply list_elem_of_In, (fun H => proj2 (in_app_iff _ _ _) (or_introl H) : In src (_ ++ drop (S (Z.to_nat (max_depth_ h))) lc)) in Hsrc.
  rewrite take_drop in Hsrc. apply list_elem_of_In, list_elem_of_split in Hsrc as (y & ls & Hy).
  destruct (execute_spec h Hv Hok ctx evt lc y src ls t Hp Hy Hf) as (ex & en & rest & cur' & Hm & He & Hp' & Hleaf).
  exists ex, en, rest, cur'. split; [done|]. rewrite He. done.
Qed.

(** C6: The active configuration is always the path of the current state.  On a
    machine whose topology the constructor accepted and whose tables are
    complete, [dispatch] terminates without an assertion, takes the transition
    of the innermost active state that has an enabled one (within [max_depth]
    levels) or reports the event unhandled and changes nothing; the exits are
    exactly the active states that are left, innermost first, the entries the
    states that become active, outermost first, with the action in between; an
    external transition leaves its source, enters its target and never leaves
    another common ancestor of the two; it ends in a leaf. *)
Theorem dispatch_balanced {Ctx Ev} (ev_signal : Ev -> Z) (h : Hsm Ctx Ev) (ctx : Ctx) (evt : Ev) (lc : list Z) :
  valid h -> tables_ok h = true -> is_path (states_ h) (current_ h) lc -> lc <> [] ->
  match handler ev_signal h ctx evt (take (S (Z.to_nat (max_depth_ h))) lc) with
  | None => dispatch ev_signal h ctx evt = Ret (false, ctx, h)
  | Some (src, t) =>
    exists exits entries rest cur',
      moves h lc src t exits entries rest /\
      dispatch ev_signal h ctx evt =
        Ret (true, run_entries (states_ h) entries (opt_act (action t) (run_exits (states_ h) exits ctx) evt),
             set_current h cur') /\
      is_path (states_ h) cur' (rev entries ++ rest) /\
      (kind t <> Internal -> is_leaf (states_ h) cur')
  end.
Proof. apply dispatch_moves. Qed.

(** A logging machine: 0 root, 1 and 2 below it, 3 below 1, 4 below 2 (its
    initial child); entering [s] logs [s], leaving it logs [-s - 1]. *)
Definition log_state (s p c : Z) : StateDef (list Z) :=
  mkState p (Some (fun log => log ++ [s])) (Some (fun log => log ++ [- s - 1])) c.

Definition log_machine : Hsm (list Z) Z :=
  mkHsm [log_state 0 (-1) (-1); log_state 1 0 3; log_state 2 0 4; log_state 3 1 (-1); log_state 4 2 (-1)]
        [mkTrans 1 7 2 External None (Some (fun log _ => log ++ [100])); mkTrans 0 8 0 Internal None None]
        1 3 3.

Lemma dispatch_balanced_witness :
  dispatch (fun e => e) log_machine [] 7 = Ret (true, [-4; -2; 100; 2; 4], set_current log_machine 4) /\
  exists exits entries rest cur',
    dispatch (fun e => e) log_machine [] 7 =
      Ret (true, run_entries (states_ log_machine) entries (run_exits (states_ log_machine) exits [] ++ [100]),
           set_current log_machine cur') /\
    is_path (states_ log_machine) cur' (rev entries ++ rest).
Proof.
  split; [reflexivity|].
  assert (Hp : is_path (states_ log_machine) (current_ log_machine) [3; 1; 0]).
  { econstructor; [reflexivity|]. econstructor; [reflexivity|]. econstructor; [reflexivity|]. constructor. }
  pose proof (dispatch_balanced (fun e => e) log_machine [] 7 [3; 1; 0] eq_refl eq_refl Hp ltac:(done)) as H.
  cbn [handler take Z.to_nat] in H. destruct H as (ex & en & rest & cur' & _ & Hd & Hp' & _).
  exists ex, en, rest, cur'. split; [exact Hd|exact Hp'].
Defined.

(** [init] enters the initial state from the root down, then its chain of
    initial children: the entered states are exactly the path of the leaf it
    ends in. *)
Theorem init_enters_path {Ctx Ev} (h : Hsm Ctx Ev) (ctx : Ctx) :
  valid h -> tables_ok h = true -> 0 <= initial_state_ h < num_states h ->
  exists entries leaf, hsm_init h ctx = Ret (run_entries (states_ h) entries ctx, set_current h leaf) /\
    is_path (states_ h) leaf (rev entries) /\ is_leaf (states_ h) leaf /\ initial_state_ h ∈ entries.
Proof.
  intros Hv Hok Hi. destruct (valid_path h _ Hv Hi) as (l & Hl & _).
  destruct l as [|x l]; [apply path_top in Hl; simpl in Hl; lia|]. destruct (path_tail h _ _ _ Hl) as [<- _].
  unfold hsm_init. rewrite (proj2 (Z.ltb_ge _ _)), (proj2 (Z.leb_gt _ _)) by lia. cbn [orb].
  pose proof Hl as Hl'. rewrite <- (app_nil_r (_ :: l)) in Hl'.
  pose proof (enter_path_spec h Hv ctx _ _ [] Hl') as He. cbn [top hd] in He. rewrite He. cbn [mbind outcome_bind].
  destruct (descend_from h Hv Hok (run_entries (states_ h) (rev (initial_state_ h :: l)) ctx) _ _ Hl) as (ds & leaf & -> & Hp & Hleaf).
  exists (rev (initial_state_ h :: l) ++ ds), leaf. cbn [mbind outcome_bind fst snd]. rewrite run_entries_app. split_and!; try done.
  - by rewrite rev_app_distr, rev_involutive.
  - rewrite elem_of_app. left. simpl. rewrite elem_of_app. right. by left.
Qed.

Lemma init_enters_path_witness :
  exists entries leaf, hsm_init log_machine [] = Ret (run_entries (states_ log_machine) entries [], set_current log_machine leaf) /\
    is_path (states_ log_machine) leaf (rev entries).
Proof.
  destruct (init_enters_path log_machine [] eq_refl eq_refl) as (en & leaf & H1 & H2 & _); [split; done|].
  exists en, leaf. split; [exact H1|exact H2].
Defined.
