(* ===== verification/Ao.v ===== *)
(** * Active objects (include/coact/ao.hpp)

    The execution lease, the pending counter, the registry and the concrete
    [Ao] that runs its HSM under the lease.  An [AoBase*] is an identity
    ([nat]); the fixed traits of an AO are a function of it. *)

From stdpp Require Import functions.
From S2P Require Import Prelude Vocab Hsm HsmSpec.

(** ** ExecutionLease *)

Inductive AoRunState := Idle | RunningDirect | RunningDispatcher.

#[export] Instance AoRunState_eq_dec : EqDecision AoRunState.
Proof. solve_decision. Defined.

Definition try_acquire (state_ desired : AoRunState) : bool * AoRunState :=
  if bool_decide (desired = Idle) then (false, state_)
  else if bool_decide (state_ = Idle) then (true, desired) else (false, state_).

Definition release (state_ expected : AoRunState) : outcome AoRunState :=
  _ ← coact_assert (bool_decide (state_ = expected)); mret Idle.

(** ** PendingCounter *)

(** The CAS loop; [fails] spurious failures reload the same value. *)
Fixpoint try_increment (fails : nat) (count limit : Z) : bool * Z :=
  if (count =? 0xffff) || (negb (limit =? 0) && (limit <=? count)) then (false, count)
  else match fails with
       | O => (true, u16 (count + 1))
       | S f => try_increment f count limit
       end.

Definition increment (count : Z) : outcome Z :=
  _ ← coact_assert (negb (count =? 0xffff)); mret (u16 (count + 1)).

Definition decrement (count : Z) : outcome Z :=
  _ ← coact_assert (0 <? count); mret (u16 (count - 1)).

(** ** AoRegistry *)

Section registry.
Context (cfg : Config) (logical_prio : nat -> Z).

Definition registry_ctor : list (option nat) := replicate (Z.to_nat (kMaxAo cfg)) None.

Definition lookup (slots_ : list (option nat)) (target : TargetId) : option nat :=
  if target_eqb target kInvalidTarget || (kMaxAo cfg <? raw target) then None
  else mjoin (slots_ !! Z.to_nat (raw target - 1)).

Definition has_prio (prio : Z) (s : option nat) : bool :=
  match s with Some ao => logical_prio ao =? prio | None => false end.
Definition is_free (s : option nat) : bool := bool_decide (s = None).
Definition is_ao (ao : nat) (s : option nat) : bool := bool_decide (s = Some ao).

Definition bind (slots_ : list (option nat)) (ao : option nat) (prio : Z) : bool * list (option nat) :=
  match ao with
  | None => (false, slots_)
  | Some a =>
    if prio =? kInvalidPrio then (false, slots_)
    else match find_idx (has_prio prio) slots_ with
         | Some _ => (false, slots_)
         | None =>
           match find_idx is_free slots_ with
           | Some i => (true, <[i := Some a]> slots_)
           | None => (false, slots_)
           end
         end
  end.

Definition bind_at (slots_ : list (option nat)) (target : TargetId) (ao : nat) (prio : Z) : bool * list (option nat) :=
  if target_eqb target kInvalidTarget || (kMaxAo cfg <? raw target) || (prio =? kInvalidPrio)
     || negb (prio =? logical_prio ao)
     || negb (bool_decide (mjoin (slots_ !! Z.to_nat (raw target - 1)) = None))
  then (false, slots_)
  else match find_idx (has_prio prio) slots_ with
       | Some _ => (false, slots_)
       | None => (true, <[Z.to_nat (raw target - 1) := Some ao]> slots_)
       end.

Definition target_of (slots_ : list (option nat)) (ao : option nat) : TargetId :=
  match ao with
  | None => kInvalidTarget
  | Some a => match find_idx (is_ao a) slots_ with
              | Some i => mkTarget (u8 (Z.of_nat i + 1))
              | None => kInvalidTarget
              end
  end.
End registry.

(** ** Ao *)

Section ao.
Context {Ctx Ev : Type} (ev_signal : Ev -> Z) (default_event : Ev).

Record Ao := mkAo {
  context_ : Ctx; hsm_ : Hsm Ctx Ev; lease_ : AoRunState;
  initialized_ : bool; pending_ : Z; unhandled_events_ : Z
}.

Definition ao_ctor (ctx0 : Ctx) (ss : list (StateDef Ctx)) (ts : list (TransitionDef Ctx Ev))
    (initial max_depth : Z) : outcome Ao :=
  h ← hsm_ctor ss ts initial max_depth; mret (mkAo ctx0 h Idle false 0 0).

Definition ao_init (a : Ao) : outcome Ao :=
  r ← hsm_init (hsm_ a) (context_ a);
  _ ← coact_assert (0 <=? current_ r.2);
  mret (mkAo r.1 r.2 (lease_ a) true (pending_ a) (unhandled_events_ a)).

Definition init_default (a : Ao) : outcome Ao :=
  if initialized_ a then mret a else ao_init a.

(** [held] is [RunningDispatcher] in [try_dispatch_queued] and
    [RunningDirect] in [dispatch_direct]. *)
Definition run_leased (held : AoRunState) (a : Ao) (e : Ev) : outcome (bool * Ao) :=
  let (taken, l) := try_acquire (lease_ a) held in
  if taken then
    '(handled, ctx', h') ← dispatch ev_signal (hsm_ a) (context_ a) e;
    let unhandled := if handled : bool then unhandled_events_ a else u32 (unhandled_events_ a + 1) in
    l' ← release l held;
    mret (true, mkAo ctx' h' l' (initialized_ a) (pending_ a) unhandled)
  else mret (false, a).

Definition try_dispatch_queued : Ao -> Ev -> outcome (bool * Ao) := run_leased RunningDispatcher.
Definition dispatch_direct : Ao -> Ev -> outcome (bool * Ao) := run_leased RunningDirect.

Definition ao_dispatch (a : Ao) (e : Ev) : outcome Ao :=
  r ← try_dispatch_queued a e;
  _ ← coact_assert r.1; mret r.2.
End ao.
Arguments Ao : clear implicits.

(** ** Mutual exclusion of run-to-completion steps

    Any number of threads; [held t] is the state thread [t] acquired the lease
    with while it is inside the HSM. *)

Definition lease_sys : Type := AoRunState * (nat -> option AoRunState).

Inductive lease_step : lease_sys -> lease_sys -> Prop :=
| le_acquire s held t d s' :
    held t = None -> try_acquire s d = (true, s') -> lease_step (s, held) (s', <[t := Some d]> held)
| le_busy s held t d s' :
    held t = None -> try_acquire s d = (false, s') -> lease_step (s, held) (s', held)
| le_release s held t d s' :
    held t = Some d -> release s d = Ret s' -> lease_step (s, held) (s', <[t := None]> held).

Definition lease_inv (x : lease_sys) : Prop :=
  match x.1 with
  | Idle => forall t, x.2 t = None
  | d => exists t, x.2 t = Some d /\ forall t', t' <> t -> x.2 t' = None
  end.

Lemma try_acquire_true s d s' : try_acquire s d = (true, s') -> s = Idle /\ s' = d /\ d <> Idle.
Proof. unfold try_acquire. by destruct s, d; intros [= <-]. Qed.

Lemma try_acquire_false s d s' : try_acquire s d = (false, s') -> s' = s.
Proof. unfold try_acquire. by destruct s, d; intros [= <-]. Qed.

Lemma release_ret s d s' : release s d = Ret s' -> s = d /\ s' = Idle.
Proof. unfold release. by destruct s, d; intros [= <-]. Qed.

Lemma lease_inv_step x y : lease_inv x -> lease_step x y -> lease_inv y.
Proof.
  unfold lease_inv. intros Hx Hst. destruct Hst as [s held t d s' Hn Ha|s held t d s' Hn Ha|s held t d s' Hd Hr]; simpl in *.
  - apply try_acquire_true in Ha as (-> & -> & Hd).
    assert (Hex : exists u, (<[t := Some d]> held) u = Some d /\ forall t', t' <> u -> (<[t := Some d]> held) t' = None).
    { exists t. split; [by rewrite fn_lookup_insert|]. intros t' Ht. by rewrite fn_lookup_insert_ne. }
    by destruct d.
  - by rewrite (try_acquire_false _ _ _ Ha).
  - apply release_ret in Hr as (-> & ->). intros t'. destruct (decide (t' = t)) as [->|Hne]; [by rewrite fn_lookup_insert|].
    rewrite fn_lookup_insert_ne by done.
    assert (Hex : d <> Idle -> exists u, held u = Some d /\ forall t'0, t'0 <> u -> held t'0 = None) by (by destruct d).
    destruct (decide (d = Idle)) as [->|Hdi]; [by rewrite Hx in Hd|].
    destruct (Hex Hdi) as (u & Hu & Ho). destruct (decide (t = u)) as [->|Htu]; [by apply Ho|].
    rewrite Ho in Hd by done. done.
Qed.

(** Single execution of an active object.  Whatever the interleaving of
    direct and dispatcher-driven threads, at most one of them is inside the HSM
    at a time, the lease word names the path it came by, and its release never
    trips the protocol assertion. *)
Theorem lease_mutual_exclusion (s : AoRunState) (held : nat -> option AoRunState) :
  rtc lease_step (Idle, fun _ => None) (s, held) ->
  (forall t1 t2 d1 d2, held t1 = Some d1 -> held t2 = Some d2 -> t1 = t2) /\
  (forall t d, held t = Some d -> s = d /\ release s d = Ret Idle).
Proof.
  intros Hrun. assert (Hi : lease_inv (s, held)).
  { eapply (rtc_invariant lease_step); [intros; by eapply lease_inv_step| |exact Hrun]. done. }
  unfold lease_inv in Hi. simpl in Hi.
  assert (Hc : (forall t, held t = None) \/ exists t, held t = Some s /\ forall t', t' <> t -> held t' = None)
    by (destruct s; auto). clear Hi. destruct Hc as [Hc|(t & Ht & Ho)].
  - split; intros; [|]; by rewrite Hc in *.
  - assert (Honly : forall u d, held u = Some d -> u = t /\ d = s).
    { intros u d Hu. destruct (decide (u = t)) as [->|Hne]; [by rewrite Ht in Hu; simplify_eq|]. by rewrite Ho in Hu. }
    split.
    + intros t1 t2 d1 d2 H1 H2. apply Honly in H1 as [-> _], H2 as [-> _]. done.
    + intros u d Hu. apply Honly in Hu as [_ ->]. split; [done|]. unfold release. by rewrite bool_decide_eq_true_2.
Qed.

Lemma lease_mutual_exclusion_witness :
  release RunningDirect RunningDirect = Ret Idle.
Proof.
  assert (Hrun : rtc lease_step (Idle, fun _ => None) (RunningDirect, <[3%nat := Some RunningDirect]> (fun _ => None))).
  { eapply rtc_l; [eapply (le_acquire _ _ 3%nat RunningDirect); reflexivity|].
    eapply rtc_l; [eapply (le_busy _ _ 5%nat RunningDispatcher); reflexivity|]. apply rtc_refl. }
  destruct (lease_mutual_exclusion _ _ Hrun) as [_ H]. apply (H 3%nat). reflexivity.
Defined.

(** ** The registry *)

Section registry_spec.
Context (cfg : Config) (logical_prio : nat -> Z).

Record registry_ok (slots : list (option nat)) : Prop := {
  ro_len : length slots = Z.to_nat (kMaxAo cfg);
  ro_prio : forall i j a b, slots !! i = Some (Some a) -> slots !! j = Some (Some b) ->
    logical_prio a = logical_prio b -> i = j;
  ro_valid : forall i a, slots !! i = Some (Some a) -> logical_prio a <> kInvalidPrio
}.

Lemma registry_insert slots i a :
  registry_ok slots -> slots !! i = Some None -> logical_prio a <> kInvalidPrio ->
  (forall j x, slots !! j = Some x -> has_prio logical_prio (logical_prio a) x = false) ->
  registry_ok (<[i := Some a]> slots).
Proof.
  intros [Hl Hp Hva] Hi Hv Hn.
  assert (Hno : forall j b, slots !! j = Some (Some b) -> logical_prio b <> logical_prio a).
  { intros j b Hb. specialize (Hn _ _ Hb). simpl in Hn. by apply Z.eqb_neq in Hn. }
  split.
  - by rewrite length_insert.
  - intros j k b c Hj Hk Heq. apply list_lookup_insert_Some in Hj as [(<- & Hb & _)|(? & Hj)], Hk as [(<- & Hc & _)|(? & Hk)];
      simplify_eq; [done| | |by eapply Hp].
    + exfalso. by eapply Hno.
    + exfalso. by eapply Hno.
  - intros j b Hj. apply list_lookup_insert_Some in Hj as [(<- & Hb & _)|(? & Hj)]; [by simplify_eq|by eapply Hva].
Qed.

Lemma target_of_lookup slots i a :
  registry_ok slots -> kMaxAo cfg < 256 -> slots !! i = Some (Some a) ->
  target_of slots (Some a) = mkTarget (Z.of_nat i + 1) /\ lookup cfg slots (mkTarget (Z.of_nat i + 1)) = Some a.
Proof.
  intros Hok Hk Hi. pose proof (lookup_lt_Some _ _ _ Hi) as Hlt. pose proof (ro_len _ Hok) as Hlen.
  assert (Hf : find_idx (is_ao a) slots = Some i).
  { destruct (find_idx_is_Some (is_ao a) slots i (Some a) Hi) as (k & Hk' & _); [by apply bool_decide_eq_true_2|].
    rewrite Hk'. f_equal. apply find_idx_Some in Hk' as (x & Hx & Hp & _). apply bool_decide_eq_true in Hp as ->.
    by eapply (ro_prio _ Hok). }
  unfold target_of, lookup. rewrite Hf. split; [rewrite wrap_small; [done|unfold in_u; lia]|].
  unfold target_eqb. simpl. rewrite (proj2 (Z.eqb_neq _ _)), (proj2 (Z.ltb_ge _ _)) by lia. simpl.
  replace (Z.to_nat (Z.of_nat i + 1 - 1)) with i by lia. by rewrite Hi.
Qed.
End registry_spec.

(** Binding an active object under its own priority keeps the registry
    sound: it succeeds exactly when the priority is valid, unused and a slot is
    left, takes the lowest free slot, [lookup] and [target_of] are then inverse
    on it, every earlier binding keeps its target, and a refused bind changes
    nothing. *)
Theorem registry_bind_sound (cfg : Config) (logical_prio : nat -> Z) (slots : list (option nat)) (a : nat) :
  registry_ok cfg logical_prio slots -> kMaxAo cfg < 256 ->
  let r := bind logical_prio slots (Some a) (logical_prio a) in
  registry_ok cfg logical_prio r.2 /\
  (r.1 = true <-> logical_prio a <> kInvalidPrio /\
     (forall i b, slots !! i = Some (Some b) -> logical_prio b <> logical_prio a) /\
     exists i, slots !! i = Some None) /\
  (r.1 = true -> lookup cfg r.2 (target_of r.2 (Some a)) = Some a) /\
  (r.1 = false -> r.2 = slots) /\
  (forall i b, slots !! i = Some (Some b) -> r.2 !! i = Some (Some b)).
Proof.
  intros Hok Hk. cbv zeta. unfold bind.
  destruct (Z.eqb_spec (logical_prio a) kInvalidPrio) as [Hz|Hz]; cbn [fst snd].
  { split_and!; try done. split; [done|]. by intros (? & _). }
  destruct (find_idx (has_prio logical_prio (logical_prio a)) slots) as [i|] eqn:Hf; cbn [fst snd].
  { apply find_idx_Some in Hf as (x & Hx & Hp & _). split_and!; try done. split; [done|]. intros (_ & Hn & _).
    destruct x as [b|]; [|done]. apply Z.eqb_eq in Hp. by destruct (Hn _ _ Hx). }
  rewrite find_idx_None in Hf.
  destruct (find_idx is_free slots) as [i|] eqn:He; cbn [fst snd].
  - apply find_idx_Some in He as (x & Hx & Hp & _). apply bool_decide_eq_true in Hp as ->.
    pose proof (registry_insert _ _ _ _ _ Hok Hx Hz Hf) as Hok'.
    assert (Hi : <[i := Some a]> slots !! i = Some (Some a)) by (apply list_lookup_insert_eq; by eapply lookup_lt_Some).
    destruct (target_of_lookup _ _ _ _ _ Hok' Hk Hi) as [-> Hl].
    split_and!; try done.
    + split; [|done]. intros _. split_and!; [done| |by exists i].
      intros j b Hb Heq. specialize (Hf _ _ Hb). simpl in Hf. by apply Z.eqb_neq in Hf.
    + intros j b Hb. rewrite list_lookup_insert_ne; [done|]. intros ->. congruence.
  - rewrite find_idx_None in He. split_and!; try done. split; [done|]. intros (_ & _ & i & Hi).
    specialize (He _ _ Hi). by apply bool_decide_eq_false in He.
Qed.

(** An empty four-slot registry; the priority of an AO is its number plus one. *)
Lemma registry_bind_sound_witness :
  let prio := fun a : nat => Z.of_nat a + 1 in
  let cfg := mkConfig 4 8 2 2 2 10 0 0 5 100 0 in
  let r := bind prio (registry_ctor cfg) (Some 6%nat) 7 in
  lookup cfg r.2 (target_of r.2 (Some 6%nat)) = Some 6%nat.
Proof.
  cbv zeta. set (cfg := mkConfig _ _ _ _ _ _ _ _ _ _ _).
  assert (Hok : registry_ok cfg (fun a : nat => Z.of_nat a + 1) (registry_ctor cfg)).
  { split; [done|..]; intros; unfold registry_ctor in *;
      match goal with H : replicate _ _ !! _ = Some (Some _) |- _ => apply lookup_replicate in H as [? _]; done end. }
  destruct (registry_bind_sound cfg (fun a : nat => Z.of_nat a + 1) (registry_ctor cfg) 6%nat Hok) as (_ & _ & H & _); [done|].
  apply H. reflexivity.
Defined.
