(* ===== verification/Breaker.v ===== *)
(** * Circuit breakers (include/coact/monitor.hpp)

    The breaker state machine packed in one 32-bit word, and the bank of one
    breaker per active object.  [update] is the CAS loop: [others] are the
    values a failed exchange loaded, left there by concurrent updates. *)

From S2P Require Import Prelude Vocab.

Inductive BreakerLevel := LNormal | LBrokenL1 | LBrokenL2 | LSafe | LRecovering.

#[export] Instance BreakerLevel_eq_dec : EqDecision BreakerLevel.
Proof. solve_decision. Defined.

Record BState := mkB {
  level : BreakerLevel; cooldown_remaining : Z;
  direct_timeout_consec : Z; rtc_timeout_consec : Z;
  high_watermark_consec : Z; low_watermark_consec : Z;
  healthy_window_count : Z; probe_success : bool
}.

Definition level_code (l : BreakerLevel) : Z :=
  match l with LNormal => 0 | LBrokenL1 => 1 | LBrokenL2 => 2 | LSafe => 3 | LRecovering => 4 end.

(** [static_cast<BreakerLevel>]; codes 5..7 never occur in a packed state. *)
Definition level_of (z : Z) : BreakerLevel :=
  if z =? 0 then LNormal else if z =? 1 then LBrokenL1 else if z =? 2 then LBrokenL2
  else if z =? 3 then LSafe else LRecovering.

Definition kDirectTimeoutThreshold : Z := 3.
Definition kRtcTimeoutThreshold : Z := 3.
Definition kWatermarkViolationPct : Z := 80.
Definition kLowWatermarkPct : Z := 50.
Definition kHighWatermarkPersist : Z := 3.
Definition kLowWatermarkPersist : Z := 3.
Definition kHealthyWindowsRequired : Z := 3.
Definition kCounterMask : Z := 3.

Definition pack (s : BState) : Z :=
  Z.lor (Z.lor (Z.lor (Z.lor (Z.lor (Z.lor (Z.lor
    (Z.shiftl (level_code (level s)) 0)
    (Z.shiftl (cooldown_remaining s) 3))
    (Z.shiftl (direct_timeout_consec s) 19))
    (Z.shiftl (rtc_timeout_consec s) 21))
    (Z.shiftl (high_watermark_consec s) 23))
    (Z.shiftl (low_watermark_consec s) 25))
    (Z.shiftl (healthy_window_count s) 27))
    (Z.shiftl (if probe_success s then 1 else 0) 29).

Definition unpack (p : Z) : BState :=
  mkB (level_of (Z.land (Z.shiftr p 0) 0x7))
      (Z.land (Z.shiftr p 3) 0xffff)
      (Z.land (Z.shiftr p 19) kCounterMask) (Z.land (Z.shiftr p 21) kCounterMask)
      (Z.land (Z.shiftr p 23) kCounterMask) (Z.land (Z.shiftr p 25) kCounterMask)
      (Z.land (Z.shiftr p 27) kCounterMask)
      (negb (Z.land (Z.shiftr p 29) 1 =? 0)).

(** ** Transitions on the unpacked state *)

Definition counter_up (c : Z) : Z := if c <? kCounterMask then c + 1 else c.

Section transitions.
Context (cooldown_cycles_ : Z).

Definition enter (l : BreakerLevel) (s : BState) : BState :=
  mkB l (match l with LRecovering => cooldown_remaining s | _ => cooldown_cycles_ end) 0 0 0 0 0 false.
Definition enter_l1 := enter LBrokenL1.
Definition enter_l2 := enter LBrokenL2.
Definition enter_safe := enter LSafe.
Definition enter_recovering := enter LRecovering.

Definition t_direct_timeout (s : BState) : BState :=
  let s := mkB (level s) (cooldown_remaining s) (counter_up (direct_timeout_consec s)) (rtc_timeout_consec s)
               (high_watermark_consec s) (low_watermark_consec s) (healthy_window_count s) (probe_success s) in
  match level s with
  | LNormal => if kDirectTimeoutThreshold <=? direct_timeout_consec s then enter_l1 s else s
  | LRecovering => enter_l2 s
  | _ => s
  end.

Definition t_rtc_timeout (s : BState) : BState :=
  let s := mkB (level s) (cooldown_remaining s) (direct_timeout_consec s) (counter_up (rtc_timeout_consec s))
               (high_watermark_consec s) (low_watermark_consec s) (healthy_window_count s) (probe_success s) in
  match level s with
  | LNormal | LBrokenL1 => if kRtcTimeoutThreshold <=? rtc_timeout_consec s then enter_l2 s else s
  | LRecovering => enter_l2 s
  | _ => s
  end.

Definition t_watermark (percent : Z) (s : BState) : BState :=
  let hl := if kWatermarkViolationPct <? percent then (counter_up (high_watermark_consec s), 0)
            else if percent <? kLowWatermarkPct then (0, counter_up (low_watermark_consec s))
            else (0, 0) in
  let s := mkB (level s) (cooldown_remaining s) (direct_timeout_consec s) (rtc_timeout_consec s)
               hl.1 hl.2 (healthy_window_count s) (probe_success s) in
  match level s with
  | LNormal => if kHighWatermarkPersist <=? high_watermark_consec s then enter_l2 s else s
  | LBrokenL1 =>
    if kHighWatermarkPersist <=? high_watermark_consec s then enter_l2 s
    else if (cooldown_remaining s =? 0) && (kLowWatermarkPersist <=? low_watermark_consec s)
         then enter_recovering s else s
  | LBrokenL2 =>
    if (cooldown_remaining s =? 0) && (kLowWatermarkPersist <=? low_watermark_consec s)
    then enter_recovering s else s
  | LSafe => s
  | LRecovering => if kLowWatermarkPct <=? percent then enter_l2 s else s
  end.

Definition t_overflow (s : BState) : BState :=
  match level s with LNormal | LBrokenL1 | LRecovering => enter_l2 s | _ => s end.

Definition t_key_reserve_exhausted (s : BState) : BState :=
  if bool_decide (level s = LSafe) then s else enter_safe s.

Definition t_dispatch_cycle (s : BState) : BState :=
  let cd := if 0 <? cooldown_remaining s then cooldown_remaining s - 1 else cooldown_remaining s in
  if bool_decide (level s = LRecovering) && (cd =? 0) && probe_success s then
    let hw := counter_up (healthy_window_count s) in
    if kHealthyWindowsRequired <=? hw
    then mkB LNormal cd (direct_timeout_consec s) (rtc_timeout_consec s)
             (high_watermark_consec s) (low_watermark_consec s) 0 false
    else mkB (level s) cd (direct_timeout_consec s) (rtc_timeout_consec s)
             (high_watermark_consec s) (low_watermark_consec s) hw false
  else mkB (level s) cd (direct_timeout_consec s) (rtc_timeout_consec s)
           (high_watermark_consec s) (low_watermark_consec s) (healthy_window_count s) (probe_success s).

Definition t_probe_success (s : BState) : BState :=
  if bool_decide (level s = LRecovering)
  then mkB (level s) (cooldown_remaining s) (direct_timeout_consec s) (rtc_timeout_consec s)
           (high_watermark_consec s) (low_watermark_consec s) (healthy_window_count s) true
  else s.

Definition t_probe_failure (s : BState) : BState :=
  if bool_decide (level s = LRecovering) then enter_l2 s else s.

Definition t_external_safe_restore (s : BState) : BState :=
  if bool_decide (level s = LSafe) then enter_recovering s else s.

Definition t_rtc_ok (s : BState) : BState :=
  mkB (level s) (cooldown_remaining s) 0 0
      (high_watermark_consec s) (low_watermark_consec s) (healthy_window_count s) (probe_success s).
End transitions.

Inductive breaker_event :=
| DirectTimeout | RtcTimeout | WatermarkViolation | Watermark (percent : Z) | Overflow
| KeyReserveExhausted | Watchdog | DispatchCycle | ProbeSuccess | ProbeFailure
| ExternalSafeRestore | RtcOk.

#[export] Instance breaker_event_eq_dec : EqDecision breaker_event.
Proof. solve_decision. Defined.

Definition transition (cc : Z) (e : breaker_event) : BState -> BState :=
  match e with
  | DirectTimeout => t_direct_timeout cc
  | RtcTimeout => t_rtc_timeout cc
  | WatermarkViolation => t_watermark cc (u8 (kWatermarkViolationPct + 1))
  | Watermark p => t_watermark cc p
  | Overflow => t_overflow cc
  | KeyReserveExhausted => t_key_reserve_exhausted cc
  | Watchdog => t_key_reserve_exhausted cc
  | DispatchCycle => t_dispatch_cycle
  | ProbeSuccess => t_probe_success
  | ProbeFailure => t_probe_failure cc
  | ExternalSafeRestore => t_external_safe_restore cc
  | RtcOk => t_rtc_ok
  end.

(** ** The packed breaker *)

Definition breaker_ctor : Z := pack (mkB LNormal 0 0 0 0 0 0 false).

(** [observed] is the value the loop works on; the exchange writes [desired],
    or it is skipped when nothing changes. *)
Fixpoint update (others : list Z) (observed : Z) (f : BState -> BState) : Z :=
  let desired := pack (f (unpack observed)) in
  match others with
  | [] => if desired =? observed then observed else desired
  | v :: others => if desired =? observed then observed else update others v f
  end.

Definition breaker_on (cc : Z) (e : breaker_event) (w : Z) : Z := update [] w (transition cc e).

Definition breaker_level (w : Z) : BreakerLevel := level (unpack w).

Definition direct_allowed (w : Z) (ao : TargetId) : bool :=
  if target_eqb kInvalidTarget ao then false else bool_decide (breaker_level w = LNormal).

Definition healthy_window_passed (w : Z) : bool :=
  let s := unpack w in
  match level s with
  | LNormal => true
  | LRecovering => kHealthyWindowsRequired <=? healthy_window_count s
  | _ => false
  end.

Definition drop_non_critical (w : Z) : bool :=
  match breaker_level w with LBrokenL2 | LSafe | LRecovering => true | _ => false end.

Definition safe_events_only (w : Z) : bool := bool_decide (breaker_level w = LSafe).

(** ** BreakerBank *)

Section bank.
Context (cfg : Config).

Definition bank := list Z.
Definition bank_ctor : list Z := replicate (Z.to_nat (kMaxAo cfg)) breaker_ctor.

Definition bank_valid (t : TargetId) : bool :=
  negb (target_eqb t kInvalidTarget) && (raw t <=? kMaxAo cfg).
Definition bank_index (t : TargetId) : nat := Z.to_nat (raw t - 1).

Definition bank_on (e : breaker_event) (b : list Z) (t : TargetId) : list Z :=
  if bank_valid t then alter (breaker_on (u16 (kCooldownCycles cfg)) e) (bank_index t) b else b.

Definition bank_broadcast (e : breaker_event) (b : list Z) : list Z :=
  breaker_on (u16 (kCooldownCycles cfg)) e <$> b.

Definition bank_level (b : list Z) (t : TargetId) : BreakerLevel :=
  match b !! bank_index t with
  | Some w => if bank_valid t then breaker_level w else LSafe
  | None => LSafe
  end.
Definition bank_direct_allowed (b : list Z) (t : TargetId) : bool :=
  bank_valid t && match b !! bank_index t with Some w => direct_allowed w t | None => false end.
Definition bank_drop_non_critical (b : list Z) (t : TargetId) : bool :=
  negb (bank_valid t) || match b !! bank_index t with Some w => drop_non_critical w | None => true end.
Definition bank_safe_events_only (b : list Z) (t : TargetId) : bool :=
  negb (bank_valid t) || match b !! bank_index t with Some w => safe_events_only w | None => true end.
End bank.

(** ** Packing *)

Record breaker_ok (s : BState) : Prop := {
  bo_cd : in_u 16 (cooldown_remaining s);
  bo_dt : in_u 2 (direct_timeout_consec s);
  bo_rt : in_u 2 (rtc_timeout_consec s);
  bo_hw : in_u 2 (high_watermark_consec s);
  bo_lw : in_u 2 (low_watermark_consec s);
  bo_hc : in_u 2 (healthy_window_count s)
}.

(** Adjacent bit fields: a low part below [k] bits and a high part. *)
Lemma lor_field lo hi k : 0 <= k -> in_u k lo -> Z.lor lo (Z.shiftl hi k) = lo + hi * 2 ^ k.
Proof.
  intros Hk Hlo. rewrite <- Z.shiftl_mul_pow2 by done. symmetry.
  assert (Hz : Z.land lo (Z.shiftl hi k) = 0).
  { apply Z.bits_inj'. intros i Hi. rewrite Z.land_spec, Z.testbit_0_l, Z.shiftl_spec by done.
    destruct (Z.ltb_spec i k); [rewrite (Z.testbit_neg_r hi) by lia; apply andb_false_r|].
    by rewrite (testbit_above k lo i). }
  by rewrite Z.add_nocarry_lxor, Z.lxor_lor.
Qed.

Lemma pack_sum s : breaker_ok s ->
  pack s = level_code (level s) + cooldown_remaining s * 2 ^ 3 + direct_timeout_consec s * 2 ^ 19
    + rtc_timeout_consec s * 2 ^ 21 + high_watermark_consec s * 2 ^ 23 + low_watermark_consec s * 2 ^ 25
    + healthy_window_count s * 2 ^ 27 + (if probe_success s then 1 else 0) * 2 ^ 29.
Proof.
  intros [Hcd Hdt Hrt Hhw Hlw Hhc]. unfold pack, in_u in *.
  assert (Hl : 0 <= level_code (level s) < 2 ^ 3) by (destruct (level s); simpl; lia).
  rewrite Z.shiftl_0_r. rewrite (lor_field _ _ 3), (lor_field _ _ 19), (lor_field _ _ 21), (lor_field _ _ 23),
    (lor_field _ _ 25), (lor_field _ _ 27), (lor_field _ _ 29) by (unfold in_u; lia). done.
Qed.

Lemma level_of_code l : level_of (level_code l) = l.
Proof. by destruct l. Qed.

Lemma field_at w k n x : 0 <= k -> 0 <= n -> (w / 2 ^ k) `mod` 2 ^ n = x ->
  Z.land (Z.shiftr w k) (Z.ones n) = x.
Proof. intros. by rewrite Z.land_ones, Z.shiftr_div_pow2. Qed.

Lemma unpack_pack s : breaker_ok s -> unpack (pack s) = s.
Proof.
  intros H. rewrite (pack_sum s H). destruct H as [Hcd Hdt Hrt Hhw Hlw Hhc]. unfold in_u in *.
  destruct s as [l cd dt rt hw lw hc ps]. simpl in Hcd, Hdt, Hrt, Hhw, Hlw, Hhc.
  assert (Hl : 0 <= level_code l < 8) by (destruct l; simpl; lia).
  unfold unpack. cbn [level cooldown_remaining direct_timeout_consec rtc_timeout_consec
    high_watermark_consec low_watermark_consec healthy_window_count probe_success].
  change 0x7 with (Z.ones 3). change 0xffff with (Z.ones 16). change kCounterMask with (Z.ones 2). change 1 with (Z.ones 1) at 2.
  set (b := if ps then 1 else 0). assert (Hb : 0 <= b < 2) by (by destruct ps).
  rewrite (field_at _ 0 3 (level_code l)), (field_at _ 3 16 cd), (field_at _ 19 2 dt), (field_at _ 21 2 rt),
    (field_at _ 23 2 hw), (field_at _ 25 2 lw), (field_at _ 27 2 hc), (field_at _ 29 1 b);
    try (Z.to_euclidean_division_equations; lia).
  rewrite level_of_code. f_equal. by destruct ps.
Qed.

(** ** Runs *)

Section runs.
Context (cc : Z) (Hcc : in_u 16 cc).

(** The invariant of every reachable breaker. *)
Record breaker_inv (s : BState) : Prop := {
  bv_ok : breaker_ok s;
  bv_cd : cooldown_remaining s <= cc;
  bv_hc : healthy_window_count s < kHealthyWindowsRequired
}.

Lemma counter_up_range c : in_u 2 c -> in_u 2 (counter_up c).
Proof using Type. unfold counter_up, in_u, kCounterMask. intros. case_test; lia. Qed.

Lemma enter_inv l s : breaker_inv s -> breaker_inv (enter cc l s).
Proof using Hcc.
  intros [[Hcd _ _ _ _ _] Hle _]. unfold in_u in *.
  split; [split|..]; unfold in_u, kHealthyWindowsRequired; simpl; try lia; destruct l; lia.
Qed.

Lemma transition_inv e s : breaker_inv s -> breaker_inv (transition cc e s).
Proof using Hcc.
  intros Hs.
  assert (Hset : forall l cd dt rt hw lw hc ps, in_u 16 cd -> cd <= cc -> in_u 2 dt -> in_u 2 rt -> in_u 2 hw ->
    in_u 2 lw -> in_u 2 hc -> hc < 3 -> breaker_inv (mkB l cd dt rt hw lw hc ps)).
  { intros. split; [by split|done|done]. }
  pose proof Hs as [[Hcd Hdt Hrt Hhw Hlw Hhc] Hle H3]. unfold kHealthyWindowsRequired in H3.
  assert (H0 : in_u 2 0) by (unfold in_u; lia).
  pose proof (counter_up_range _ Hdt) as Udt. pose proof (counter_up_range _ Hrt) as Urt.
  pose proof (counter_up_range _ Hhw) as Uhw. pose proof (counter_up_range _ Hlw) as Ulw.
  pose proof (counter_up_range _ Hhc) as Uhc.
  assert (Hwm : forall p, breaker_inv (t_watermark cc p s)).
  { intros p. unfold t_watermark. set (hl := if _ <? p then _ else _).
    assert (Hhl : in_u 2 hl.1 /\ in_u 2 hl.2) by (subst hl; repeat case_test; done). destruct Hhl.
    cbn [level]. destruct (level s); repeat case_test; try apply enter_inv; auto. }
  destruct e; simpl; try apply Hwm.
  - unfold t_direct_timeout. cbn [level]. destruct (level s); repeat case_test; try apply enter_inv; auto.
  - unfold t_rtc_timeout. cbn [level]. destruct (level s); repeat case_test; try apply enter_inv; auto.
  - unfold t_overflow. destruct (level s); try apply enter_inv; auto.
  - unfold t_key_reserve_exhausted. case_test; try apply enter_inv; auto.
  - unfold t_key_reserve_exhausted. case_test; try apply enter_inv; auto.
  - unfold t_dispatch_cycle, kHealthyWindowsRequired.
    set (cd := if _ <? _ then _ else _). assert (Hcd' : in_u 16 cd /\ cd <= cc).
    { subst cd. unfold in_u in *. case_test; lia. } destruct Hcd'.
    repeat case_test; apply Hset; auto; lia.
  - unfold t_probe_success. case_test; auto.
  - unfold t_probe_failure. case_test; try apply enter_inv; auto.
  - unfold t_external_safe_restore. case_test; try apply enter_inv; auto.
  - unfold t_rtc_ok. auto.
Qed.

Definition state_run (es : list breaker_event) (s : BState) : BState :=
  fold_left (fun s e => transition cc e s) es s.
Definition word_run (es : list breaker_event) (w : Z) : Z :=
  fold_left (fun w e => breaker_on cc e w) es w.

Lemma breaker_on_pack e s : breaker_ok s -> breaker_on cc e (pack s) = pack (transition cc e s).
Proof using Type.
  intros Hs. unfold breaker_on. cbn [update]. rewrite (unpack_pack s Hs).
  by destruct (Z.eqb_spec (pack (transition cc e s)) (pack s)).
Qed.

Lemma word_run_pack es s : breaker_inv s ->
  word_run es (pack s) = pack (state_run es s) /\ breaker_inv (state_run es s).
Proof using Hcc.
  apply (fold_left_sim pack (fun w e => breaker_on cc e w) (fun s e => transition cc e s) breaker_inv).
  intros x e Hx. split; [by apply breaker_on_pack, Hx|by apply transition_inv].
Qed.

(** Probe successes and dispatch cycles still owed before Normal. *)
Definition probes_owed (s : BState) : Z :=
  match level s with
  | LNormal => 0
  | LRecovering => 3 - healthy_window_count s - (if probe_success s then 1 else 0)
  | _ => 3
  end.
Definition cycles_owed (s : BState) : Z :=
  match level s with
  | LNormal => 0
  | LRecovering => 3 - healthy_window_count s + Z.max 0 (cooldown_remaining s - 1)
  | _ => 3 + Z.max 0 (cooldown_remaining s - 1)
  end.

Definition is_probe (e : breaker_event) : bool := match e with ProbeSuccess => true | _ => false end.
Definition is_cycle (e : breaker_event) : bool := match e with DispatchCycle => true | _ => false end.

(** Apart from the two recovery events, a transition keeps what recovery
    depends on, or trips the breaker, or starts a recovery. *)
Inductive shape (s s' : BState) : Prop :=
| sh_same : level s' = level s -> cooldown_remaining s' = cooldown_remaining s ->
    healthy_window_count s' = healthy_window_count s -> probe_success s' = probe_success s -> shape s s'
| sh_trip : level s' <> LNormal -> level s' <> LRecovering -> cooldown_remaining s' = cc -> shape s s'
| sh_recover : level s <> LNormal -> level s <> LRecovering -> level s' = LRecovering ->
    cooldown_remaining s' = cooldown_remaining s -> healthy_window_count s' = 0 -> probe_success s' = false -> shape s s'.

Lemma step_shape e s : is_probe e = false -> is_cycle e = false -> shape s (transition cc e s).
Proof using Type.
  assert (Hwm : forall p, shape s (t_watermark cc p s)).
  { intros p. unfold t_watermark. set (hl := if _ <? p then _ else _). clearbody hl. cbn [level].
    destruct (level s) eqn:El; repeat case_test;
      first [by apply sh_same|by apply sh_trip|by apply sh_recover; rewrite ?El]. }
  destruct e; intros He Hc; try done; simpl; try apply Hwm;
    unfold t_direct_timeout, t_rtc_timeout, t_overflow, t_key_reserve_exhausted, t_probe_failure,
      t_external_safe_restore, t_rtc_ok; cbn [level];
    destruct (level s) eqn:El; try rewrite bool_decide_eq_true_2 by done; try rewrite bool_decide_eq_false_2 by done;
    repeat case_test;
    first [by apply sh_same|by apply sh_trip|by apply sh_recover; rewrite ?El].
Qed.

Lemma owed_bounds s : breaker_inv s ->
  0 <= probes_owed s <= 3 /\ 0 <= cycles_owed s <= 3 + Z.max 0 (cc - 1).
Proof using Hcc.
  intros [[Hcd _ _ _ _ Hhc] Hle H3]. unfold in_u, kHealthyWindowsRequired in *.
  unfold probes_owed, cycles_owed. destruct (level s), (probe_success s); lia.
Qed.

Lemma owed_step e s : breaker_inv s -> level s <> LNormal ->
  probes_owed s <= probes_owed (transition cc e s) + (if is_probe e then 1 else 0) /\
  cycles_owed s <= cycles_owed (transition cc e s) + (if is_cycle e then 1 else 0).
Proof using Hcc.
  intros Hs Hn. pose proof (owed_bounds s Hs) as [Hp Hc]. pose proof Hs as [[Hcd _ _ _ _ Hhc] Hle H3].
  unfold in_u, kHealthyWindowsRequired in *.
  destruct (is_probe e) eqn:Ep; [|destruct (is_cycle e) eqn:Ec].
  - destruct e; try done. simpl. unfold t_probe_success, probes_owed, cycles_owed in *.
    destruct (level s) eqn:El; try done; simpl; rewrite ?El; try lia. destruct (probe_success s); lia.
  - destruct e; try done. simpl. unfold t_dispatch_cycle, kHealthyWindowsRequired, counter_up, kCounterMask.
    set (cd := if 0 <? cooldown_remaining s then _ else _).
    assert (Hcd' : (0 < cooldown_remaining s /\ cd = cooldown_remaining s - 1) \/ (cooldown_remaining s = 0 /\ cd = 0)).
    { subst cd. case_test; lia. } clearbody cd.
    unfold probes_owed, cycles_owed in *. destruct (level s) eqn:El; try done; simpl; rewrite ?El; try lia.
    destruct (Z.eqb_spec cd 0) as [Hz|Hz]; simpl; [|rewrite ?El; lia].
    destruct (probe_success s); simpl; [|rewrite ?El; lia].
    rewrite (proj2 (Z.ltb_lt (healthy_window_count s) 3)) by lia. case_test; simpl; rewrite ?El; lia.
  - destruct (step_shape e s Ep Ec) as [E1 E2 E3 E4|E1 E2 E3|E1 E2 E3 E4 E5 E6].
    + unfold probes_owed, cycles_owed. rewrite E1, E2, E3, E4. lia.
    + assert (probes_owed (transition cc e s) = 3 /\ cycles_owed (transition cc e s) = 3 + Z.max 0 (cc - 1)) as [-> ->]; [|lia].
      unfold probes_owed, cycles_owed. rewrite E3. by destruct (level (transition cc e s)).
    + unfold probes_owed, cycles_owed in *. rewrite E3, E4, E5, E6. destruct (level s); try done; lia.
Qed.

Lemma safe_sticky e s : level s = LSafe -> e <> ExternalSafeRestore -> level (transition cc e s) = LSafe.
Proof using Type.
  intros Hl He. destruct e; try done; simpl;
    unfold t_direct_timeout, t_rtc_timeout, t_watermark, t_overflow, t_key_reserve_exhausted, t_dispatch_cycle,
      t_probe_success, t_probe_failure, t_rtc_ok; rewrite ?Hl; cbn [level]; rewrite ?Hl; try done;
    try (rewrite bool_decide_eq_false_2 by done); try (rewrite bool_decide_eq_true_2 by done); done.
Qed.

Lemma run_owed es s : breaker_inv s -> level (state_run es s) = LNormal ->
  level s = LNormal \/
  (probes_owed s <= Z.of_nat (countb is_probe es) /\ cycles_owed s <= Z.of_nat (countb is_cycle es) /\
   (level s = LSafe -> ExternalSafeRestore ∈ es)).
Proof using Hcc.
  revert s. induction es as [|e es IH]; intros s Hs Hf; simpl in Hf; [by left|].
  destruct (decide (level s = LNormal)) as [?|Hn]; [by left|right].
  destruct (owed_step e s Hs Hn) as [Hp Hc]. pose proof (transition_inv e s Hs) as Hs'.
  simpl. destruct (IH _ Hs' Hf) as [Hl|(H1 & H2 & H3)].
  - assert (Hz : probes_owed (transition cc e s) = 0 /\ cycles_owed (transition cc e s) = 0)
      by (unfold probes_owed, cycles_owed; by rewrite Hl).
    split_and!; [destruct (is_probe e); lia|destruct (is_cycle e); lia|].
    intros Hsafe. destruct (decide (e = ExternalSafeRestore)) as [->|Hne]; [by left|].
    by rewrite (safe_sticky e s Hsafe Hne) in Hl.
  - split_and!; [destruct (is_probe e); lia|destruct (is_cycle e); lia|].
    intros Hsafe. destruct (decide (e = ExternalSafeRestore)) as [->|Hne]; [by left|].
    right. apply H3. by apply safe_sticky.
Qed.
End runs.

Lemma breaker_init_inv cc : in_u 16 cc -> breaker_inv cc (mkB LNormal 0 0 0 0 0 0 false).
Proof. unfold in_u. intros. split; [split|..]; unfold in_u, kHealthyWindowsRequired; simpl; lia. Qed.

(** C8: The breaker packed in one 32-bit word behaves as the unpacked state
    machine: over any sequence of events the word is always the packing of the
    state the transitions give (no field overflows into its neighbour), its
    queries read that state, and a Recovering breaker never holds three healthy
    windows, so [healthy_window_passed] answers exactly "level is Normal". *)
Theorem breaker_word_refines_state (cc : Z) (es : list breaker_event) :
  in_u 16 cc ->
  let s := state_run cc es (mkB LNormal 0 0 0 0 0 0 false) in
  let w := word_run cc es breaker_ctor in
  w = pack s /\ in_u 30 w /\ unpack w = s /\ breaker_level w = level s /\
  healthy_window_passed w = bool_decide (level s = LNormal).
Proof.
  intros Hcc. cbv zeta. destruct (word_run_pack cc Hcc es _ (breaker_init_inv cc Hcc)) as [Hw Hi].
  unfold breaker_ctor. rewrite Hw. set (s := state_run cc es _) in *. clearbody s.
  pose proof (bv_ok _ _ Hi) as Hok. split_and!; [done| |by apply unpack_pack| |].
  - rewrite (pack_sum s Hok). destruct Hok. unfold in_u in *.
    assert (0 <= level_code (level s) < 8) by (destruct (level s); simpl; lia). destruct (probe_success s); lia.
  - unfold breaker_level. by rewrite unpack_pack.
  - unfold healthy_window_passed. rewrite unpack_pack by done. pose proof (bv_hc _ _ Hi).
    destruct (level s); try done. by apply Z.leb_gt.
Qed.

Lemma breaker_word_refines_state_witness :
  breaker_level (word_run 100 [DirectTimeout; DirectTimeout; DirectTimeout] breaker_ctor) = LBrokenL1.
Proof.
  destruct (breaker_word_refines_state 100 [DirectTimeout; DirectTimeout; DirectTimeout]) as (_ & _ & _ & -> & _);
    [unfold in_u; lia|reflexivity].
Defined.


