(* ===== verification/Monitor.v ===== *)
(** * Monitor (include/coact/monitor.hpp)

    The fixed counters, and the sequential parts of the ring of admission
    snapshots: the record, its slot, its published word and the guards of
    [lookup].  The accesses of [record] and [lookup] to the slots are in
    Snapshot.v, under the C++ memory model. *)

From stdpp Require Import functions.
From S2P Require Import Prelude Vocab.

(** ** Counters *)

Inductive RejectReason :=
| kC1Eligibility | kC2Priority | kC3Nesting | kC4Watermark | kC5LeaseBusy | kC6Pending
| kC7Context | kC8ArrivalInterval | kC9BacklogCap.

Definition reject_index (r : RejectReason) : nat :=
  match r with
  | kC1Eligibility => 0 | kC2Priority => 1 | kC3Nesting => 2 | kC4Watermark => 3 | kC5LeaseBusy => 4
  | kC6Pending => 5 | kC7Context => 6 | kC8ArrivalInterval => 7 | kC9BacklogCap => 8
  end.
Definition kRejectCount : nat := 9.

Record AoCounters := mkAoC {
  direct_duration_ns : Z; dispatcher_duration_ns : Z; direct_timeouts : Z; rtc_timeouts : Z;
  rejections : list Z; lease_contention : Z; c_pending : Z; c_pending_max : Z
}.
Definition ao_counters0 : AoCounters := mkAoC 0 0 0 0 (replicate kRejectCount 0) 0 0 0.

Record GlobalCounters := mkGC {
  watermark_pct : list Z; high_water_count : list Z; full_count : list Z;
  disposition_filter : Z; disposition_merge : Z; disposition_rate_limit : Z; disposition_overload : Z;
  overflow : Z; watchdog_heartbeats : Z; platform_faults : Z; g_pending_max : Z
}.
Definition global0 : GlobalCounters := mkGC [0; 0; 0] [0; 0; 0] [0; 0; 0] 0 0 0 0 0 0 0 0.

(** Slot 0 is the unused one of the 1-based array. *)
Record Monitor := mkMonitor { ao_ : list AoCounters; global_ : GlobalCounters }.

Section monitor.
Context (cfg : Config).

Definition monitor_ctor : Monitor := mkMonitor (replicate (Z.to_nat (kMaxAo cfg + 1)) ao_counters0) global0.

Definition slot (ao : TargetId) : option nat :=
  if target_eqb kInvalidTarget ao || (kMaxAo cfg <? raw ao) then None else Some (Z.to_nat (raw ao)).

Definition upd_ao (m : Monitor) (ao : TargetId) (f : AoCounters -> AoCounters) : Monitor :=
  match slot ao with Some i => mkMonitor (alter f i (ao_ m)) (global_ m) | None => m end.

Definition add_direct_duration (m : Monitor) (ao : TargetId) (ns : Z) : Monitor :=
  upd_ao m ao (fun c => mkAoC (u64 (direct_duration_ns c + ns)) (dispatcher_duration_ns c) (direct_timeouts c)
    (rtc_timeouts c) (rejections c) (lease_contention c) (c_pending c) (c_pending_max c)).
Definition add_dispatcher_duration (m : Monitor) (ao : TargetId) (ns : Z) : Monitor :=
  upd_ao m ao (fun c => mkAoC (direct_duration_ns c) (u64 (dispatcher_duration_ns c + ns)) (direct_timeouts c)
    (rtc_timeouts c) (rejections c) (lease_contention c) (c_pending c) (c_pending_max c)).
Definition record_direct_timeout (m : Monitor) (ao : TargetId) : Monitor :=
  upd_ao m ao (fun c => mkAoC (direct_duration_ns c) (dispatcher_duration_ns c) (u32 (direct_timeouts c + 1))
    (rtc_timeouts c) (rejections c) (lease_contention c) (c_pending c) (c_pending_max c)).
Definition record_rtc_timeout (m : Monitor) (ao : TargetId) : Monitor :=
  upd_ao m ao (fun c => mkAoC (direct_duration_ns c) (dispatcher_duration_ns c) (direct_timeouts c)
    (u32 (rtc_timeouts c + 1)) (rejections c) (lease_contention c) (c_pending c) (c_pending_max c)).
Definition record_rejection (m : Monitor) (ao : TargetId) (r : RejectReason) : Monitor :=
  upd_ao m ao (fun c => mkAoC (direct_duration_ns c) (dispatcher_duration_ns c) (direct_timeouts c)
    (rtc_timeouts c) (alter (fun n => u32 (n + 1)) (reject_index r) (rejections c))
    (lease_contention c) (c_pending c) (c_pending_max c)).
Definition record_lease_contention (m : Monitor) (ao : TargetId) : Monitor :=
  upd_ao m ao (fun c => mkAoC (direct_duration_ns c) (dispatcher_duration_ns c) (direct_timeouts c)
    (rtc_timeouts c) (rejections c) (u32 (lease_contention c + 1)) (c_pending c) (c_pending_max c)).

Definition record_pending (m : Monitor) (ao : TargetId) (pending : Z) : Monitor :=
  match slot ao with
  | None => m
  | Some i =>
    let g := global_ m in
    mkMonitor
      (alter (fun c => mkAoC (direct_duration_ns c) (dispatcher_duration_ns c) (direct_timeouts c) (rtc_timeouts c)
         (rejections c) (lease_contention c) pending (if c_pending_max c <? pending then pending else c_pending_max c)) i (ao_ m))
      (mkGC (watermark_pct g) (high_water_count g) (full_count g) (disposition_filter g) (disposition_merge g)
         (disposition_rate_limit g) (disposition_overload g) (overflow g) (watchdog_heartbeats g) (platform_faults g)
         (if g_pending_max g <? pending then pending else g_pending_max g))
  end.

Definition partition_index (p : PriorityClass) : nat := match p with High => 0 | Normal => 1 | Low => 2 end.

Definition sample_watermark (m : Monitor) (p : PriorityClass) (pct : Z) : Monitor :=
  let g := global_ m in
  let idx := partition_index p in
  mkMonitor (ao_ m)
    (mkGC (<[idx := pct]> (watermark_pct g))
      (if 80 <=? pct then alter (fun n => u32 (n + 1)) idx (high_water_count g) else high_water_count g)
      (if 100 <=? pct then alter (fun n => u32 (n + 1)) idx (full_count g) else full_count g)
      (disposition_filter g) (disposition_merge g) (disposition_rate_limit g) (disposition_overload g)
      (overflow g) (watchdog_heartbeats g) (platform_faults g) (g_pending_max g)).

Definition bump_global (m : Monitor) (filter merge rate overload ovf beats faults : Z) : Monitor :=
  let g := global_ m in
  mkMonitor (ao_ m)
    (mkGC (watermark_pct g) (high_water_count g) (full_count g)
      (u32 (disposition_filter g + filter)) (u32 (disposition_merge g + merge))
      (u32 (disposition_rate_limit g + rate)) (u32 (disposition_overload g + overload))
      (u32 (overflow g + ovf)) (u32 (watchdog_heartbeats g + beats)) (u32 (platform_faults g + faults))
      (g_pending_max g)).

Definition record_overflow (m : Monitor) : Monitor := bump_global m 0 0 0 0 1 0 0.
Definition heartbeat (m : Monitor) : Monitor := bump_global m 0 0 0 0 0 1 0.
Definition record_platform_fault (m : Monitor) : Monitor := bump_global m 0 0 0 0 0 0 1.
Definition record_disposition (m : Monitor) (d : SubmitDisposition) : Monitor :=
  match d with
  | Merged => bump_global m 0 1 0 0 0 0 0
  | DroppedPolicy => bump_global m 1 0 0 0 0 0 0
  | DroppedRateLimit => bump_global m 0 0 1 0 0 0 0
  | DroppedOverload => bump_global m 0 0 0 1 0 0 0
  | Direct | Queued | RejectedFull | RejectedState => m
  end.

(** [ao()]: the zero slot for an unknown target. *)
Definition monitor_ao (m : Monitor) (ao : TargetId) : option AoCounters :=
  match slot ao with Some i => ao_ m !! i | None => ao_ m !! 0%nat end.
End monitor.

(** ** AdmissionSnapshotRing *)

Inductive SnapshotError := kEmpty | kOutOfRange | kEvicted | kTorn | kDisabled.

(** The five payload fields of a record, in the order they are stored. *)
Record Snapshot := mkSnap {
  sn_target : Z; sn_disposition : Z; sn_reason : Z; sn_now_ns : Z; sn_budget_ns : Z
}.
Definition fields (s : Snapshot) : list Z :=
  [sn_target s; sn_disposition s; sn_reason s; sn_now_ns s; sn_budget_ns s].

Section ring.
(** [size_bits]: the width of [size_t]. *)
Context (kSlots size_bits : Z).

Definition slot_of (seq : Z) : nat := Z.to_nat (wrap size_bits (seq - 1) `mod` kSlots).
Definition published (seq : Z) : Z := u64 (Z.shiftl seq 1).

(** [lookup]'s guards, before it touches a slot. *)
Definition lookup_guard (total seq : Z) : option SnapshotError :=
  if kSlots =? 0 then Some kDisabled
  else if total =? 0 then Some kEmpty
  else if (seq =? 0) || (total <? seq) then Some kOutOfRange
  else if kSlots <=? u64 (total - seq) then Some kEvicted
  else None.

Inductive snap_event := SReturned (seq : Z) (fs : list Z) | SFailed (e : SnapshotError).

End ring.

(** *** Words, slots and guards *)

Section snap_proof.
Context (kSlots size_bits : Z) (HK : 0 < kSlots).
Abbreviation slot_of := (slot_of kSlots size_bits).

Lemma published_small q : 0 <= q < 2 ^ 63 -> published q = 2 * q.
Proof using Type.
  intros Hq. unfold published. rewrite Z.shiftl_mul_pow2 by lia. rewrite wrap_small; [lia|]. unfold in_u. lia.
Qed.

Lemma published_odd q : 0 <= q < 2 ^ 63 -> Z.lor (published q) 1 = 2 * q + 1.
Proof using Type.
  intros Hq. rewrite published_small by done. change 1 with (2 ^ 0) at 1. rewrite lor_flag by lia.
  rewrite Z.testbit_even_0. done.
Qed.

Lemma slot_of_lt q : (slot_of q < Z.to_nat kSlots)%nat.
Proof using HK. unfold Monitor.slot_of. pose proof (Z.mod_pos_bound (wrap size_bits (q - 1)) kSlots HK). lia. Qed.

Lemma fn_cases {A} (f : nat -> A) t a t' :
  (t' = t /\ (<[t := a]> f) t' = a) \/ (t' <> t /\ (<[t := a]> f) t' = f t').
Proof using Type.
  destruct (decide (t' = t)) as [->|]; [left; by rewrite fn_lookup_insert|right; by rewrite fn_lookup_insert_ne].
Qed.

Lemma guard_range total seq : 0 <= total -> lookup_guard kSlots total seq = None -> seq <= total /\ seq <> 0.
Proof using HK.
  unfold lookup_guard. intros Ht. repeat case_test; try done; intros _; split_bools; lia.
Qed.

End snap_proof.

Lemma lrun_invariant {S E} (step : S -> option E -> S -> Prop) (I : S -> Prop) s tr s' :
  (forall s e s', I s -> step s e s' -> I s') -> I s -> lrun step s tr s' -> I s'.
Proof. intros Hs Hi Hrun. induction Hrun; eauto. Qed.
