(* ===== verification/Snapshot.v ===== *)
(** * Admission snapshots under the C++ memory model (include/coact/monitor.hpp)

    [AdmissionSnapshotRing::record] and [lookup], run by any number of threads on
    a memory with views: every cell keeps the list of its stores in modification
    order, a thread has a position in every list below which it reads no more, a
    relaxed load may return any store from that position on and moves it there, a
    release store carries the positions of its thread and an acquire load takes
    them over.  There are no fences in the source, so the second check of [lookup]
    does not order the loads of the fields before it, nor the odd store of
    [record] the stores after it: [overlapped_lookup_can_tear] shows a mixed
    record.  The theorem states what does hold.  (The load of [count_] may return
    any earlier value, and loads are never delayed past later stores.) *)

From stdpp Require Import functions.
From S2P Require Import Prelude Vocab Monitor.

(** ** Memory *)

(** A cell of a slot: fields 0 to 4, the sequence word 5. *)
Definition loc : Type := nat * nat.
Definition view : Type := loc -> nat.
Definition vjoin (V W : view) : view := fun l => Nat.max (V l) (W l).
Definition vset (V : view) (l : loc) (ts : nat) : view := <[l := ts]> V.

(** A store to a field, with the call that made it (0: the initial value), and a
    store to the sequence word, always with release. *)
Record fstore := mkF { f_val : Z; f_call : Z }.
Record sstore := mkS { s_val : Z; s_rel : view }.

Inductive tpc :=
| TIdle
| TClaim (seq : Z) (x : Snapshot)               (* seq drawn *)
| TOwn (seq : Z) (x : Snapshot) (stage : nat)   (* 0: odd seq next; 1-5: fields; 6: even seq; 7: clear *)
| TCheck (seq : Z)                              (* guards passed *)
| TRead (seq : Z) (acc : list Z).               (* first check passed *)
Record thread := mkT { pc : tpc; cur : view }.

(** [wflag]: whether the flag is set, and the positions its last [clear] released. *)
Record wsys := mkW {
  wfield : loc -> list fstore; wseq : nat -> list sstore; wflag : nat -> bool * view;
  wcount : Z; wdropped : Z; wth : nat -> thread;
  wissued : gmap Z Snapshot                     (* ghost: the call that drew each seq *)
}.

Section ring.
Context (kSlots size_bits : Z).
Abbreviation slot_of := (slot_of kSlots size_bits).
Abbreviation lookup_guard := (lookup_guard kSlots).

(** An acquire load of the sequence word. *)
Definition acquire (V : view) (i ts : nat) (m : sstore) : view := vjoin (vset V (i, 5%nat) ts) (s_rel m).

(** A release store to it. *)
Definition seq_store (s : list sstore) (V : view) (i : nat) (v : Z) : list sstore * view :=
  let V' := vset V (i, 5%nat) (length s) in (s ++ [mkS v V'], V').

Inductive weak_step : wsys -> option snap_event -> wsys -> Prop :=
| wk_draw F S G n d th g t V x :
    th t = mkT TIdle V -> n + 1 < 2 ^ 63 ->
    weak_step (mkW F S G n d th g) None (mkW F S G (u64 (n + 1)) d (<[t := mkT (TClaim (n + 1) x) V]> th) (<[n + 1 := x]> g))
| wk_busy F S G n d th g t V q x W :
    th t = mkT (TClaim q x) V -> G (slot_of q) = (true, W) ->
    weak_step (mkW F S G n d th g) None (mkW F S G n (u32 (d + 1)) (<[t := mkT TIdle (vjoin V W)]> th) g)
| wk_take F S G n d th g t V q x W :
    th t = mkT (TClaim q x) V -> G (slot_of q) = (false, W) ->
    weak_step (mkW F S G n d th g) None
      (mkW F S (<[slot_of q := (true, W)]> G) n d (<[t := mkT (TOwn q x 0) (vjoin V W)]> th) g)
| wk_odd F S G n d th g t V q x r :
    th t = mkT (TOwn q x 0) V -> seq_store (S (slot_of q)) V (slot_of q) (Z.lor (published q) 1) = r ->
    weak_step (mkW F S G n d th g) None (mkW F (<[slot_of q := r.1]> S) G n d (<[t := mkT (TOwn q x 1) r.2]> th) g)
| wk_field F S G n d th g t V q x k v :
    th t = mkT (TOwn q x (Datatypes.S k)) V -> (k < 5)%nat -> fields x !! k = Some v ->
    weak_step (mkW F S G n d th g) None
      (mkW (<[(slot_of q, k) := F (slot_of q, k) ++ [mkF v q]]> F) S G n d
         (<[t := mkT (TOwn q x (Datatypes.S (Datatypes.S k))) (vset V (slot_of q, k) (length (F (slot_of q, k))))]> th) g)
| wk_even F S G n d th g t V q x r :
    th t = mkT (TOwn q x 6) V -> seq_store (S (slot_of q)) V (slot_of q) (published q) = r ->
    weak_step (mkW F S G n d th g) None (mkW F (<[slot_of q := r.1]> S) G n d (<[t := mkT (TOwn q x 7) r.2]> th) g)
| wk_clear F S G n d th g t V q x :
    th t = mkT (TOwn q x 7) V ->
    weak_step (mkW F S G n d th g) None (mkW F S (<[slot_of q := (false, V)]> G) n d (<[t := mkT TIdle V]> th) g)
| rk_refuse F S G n d th g t V q total e :
    th t = mkT TIdle V -> 0 <= total <= n -> lookup_guard total q = Some e ->
    weak_step (mkW F S G n d th g) (Some (SFailed e)) (mkW F S G n d th g)
| rk_start F S G n d th g t V q total :
    th t = mkT TIdle V -> 0 <= total <= n -> 0 <= q -> lookup_guard total q = None ->
    weak_step (mkW F S G n d th g) None (mkW F S G n d (<[t := mkT (TCheck q) V]> th) g)
| rk_first F S G n d th g t V q ts m :
    th t = mkT (TCheck q) V -> (V (slot_of q, 5%nat) <= ts)%nat -> S (slot_of q) !! ts = Some m -> s_val m = published q ->
    weak_step (mkW F S G n d th g) None (mkW F S G n d (<[t := mkT (TRead q []) (acquire V (slot_of q) ts m)]> th) g)
| rk_field F S G n d th g t V q acc ts m :
    th t = mkT (TRead q acc) V -> (length acc < 5)%nat -> (V (slot_of q, length acc) <= ts)%nat ->
    F (slot_of q, length acc) !! ts = Some m ->
    weak_step (mkW F S G n d th g) None
      (mkW F S G n d (<[t := mkT (TRead q (acc ++ [f_val m])) (vset V (slot_of q, length acc) ts)]> th) g)
| rk_torn F S G n d th g t V q p ts m :
    th t = mkT p V -> p = TCheck q \/ (exists acc, p = TRead q acc /\ length acc = 5%nat) ->
    (V (slot_of q, 5%nat) <= ts)%nat -> S (slot_of q) !! ts = Some m -> s_val m <> published q ->
    weak_step (mkW F S G n d th g) (Some (SFailed kTorn)) (mkW F S G n d (<[t := mkT TIdle (acquire V (slot_of q) ts m)]> th) g)
| rk_ok F S G n d th g t V q acc ts m :
    th t = mkT (TRead q acc) V -> length acc = 5%nat ->
    (V (slot_of q, 5%nat) <= ts)%nat -> S (slot_of q) !! ts = Some m -> s_val m = published q ->
    weak_step (mkW F S G n d th g) (Some (SReturned q acc))
      (mkW F S G n d (<[t := mkT TIdle (acquire V (slot_of q) ts m)]> th) g).

Definition view0 : view := fun _ => 0%nat.
Definition weak_init : wsys :=
  mkW (fun _ => [mkF 0 0]) (fun _ => [mkS 0 view0]) (fun _ => (false, view0)) 0 0 (fun _ => mkT TIdle view0) ∅.
End ring.

(** ** The invariant *)

Definition writing (p : tpc) : option (Z * Snapshot) :=
  match p with TClaim q x | TOwn q x _ => Some (q, x) | _ => None end.
(** Drawn and its record not published yet. *)
Definition unpublished (p : tpc) : option Z :=
  match p with TClaim q _ => Some q | TOwn q _ k => if (k <=? 6)%nat then Some q else None | _ => None end.

(** The length of the list of a cell. *)
Definition cell_len (F : loc -> list fstore) (S : nat -> list sstore) (i c : nat) : nat :=
  if decide (c = 5)%nat then length (S i) else length (F (i, c)).

(** The view reaches the end of every list of the slot. *)
Definition at_end (F : loc -> list fstore) (S : nat -> list sstore) (i : nat) (V : view) : Prop :=
  forall c, (c <= 5)%nat -> (cell_len F S i c <= V (i, c) + 1)%nat.

Section proof.
Context (kSlots size_bits : Z) (HK : 0 < kSlots).
Abbreviation slot_of := (slot_of kSlots size_bits).
Abbreviation step := (weak_step kSlots size_bits).

(** The store of field [k] by call [q]. *)
Definition own_store (q : Z) (x : Snapshot) (k : nat) (m : fstore) : Prop := f_call m = q /\ fields x !! k = Some (f_val m).

(** A published record: the release covers all five stores of its call. *)
Definition published_ok (F : loc -> list fstore) (g : gmap Z Snapshot) (i : nat) (m : sstore) : Prop :=
  forall q, 1 <= q -> s_val m = 2 * q -> slot_of q = i /\ exists x, g !! q = Some x /\
    forall k, (k < 5)%nat -> exists p f, (p <= s_rel m (i, k))%nat /\ F (i, k) !! p = Some f /\ own_store q x k f.

(** What the owner at stage [k] has done, all of it the newest of its cells. *)
Definition owner_ok (F : loc -> list fstore) (S : nat -> list sstore) (q : Z) (x : Snapshot) (k : nat) : Prop :=
  match k with
  | O => True
  | Datatypes.S k =>
    (forall j, (j < k)%nat -> (j < 5)%nat -> exists f, last (F (slot_of q, j)) = Some f /\ own_store q x j f) /\
    ((k <= 5)%nat -> exists m, last (S (slot_of q)) = Some m /\ s_val m = 2 * q + 1)
  end.

(** What a reader has loaded is not older than the record it checked. *)
Definition reader_ok (F : loc -> list fstore) (S : nat -> list sstore) (q : Z) (acc : list Z) (V : view) : Prop :=
  exists ts m, S (slot_of q) !! ts = Some m /\ s_val m = 2 * q /\
    (forall k, (k < 5)%nat -> (s_rel m (slot_of q, k) <= V (slot_of q, k))%nat) /\
    forall k v, acc !! k = Some v -> exists p f, (s_rel m (slot_of q, k) <= p)%nat /\ F (slot_of q, k) !! p = Some f /\ f_val f = v.

Record weak_inv (s : wsys) : Prop := {
  wi_count : 0 <= wcount s < 2 ^ 63;
  wi_log : forall q x, wissued s !! q = Some x -> 1 <= q <= wcount s;
  wi_args : forall t q x, writing (pc (wth s t)) = Some (q, x) -> wissued s !! q = Some x;
  wi_uniq : forall t1 t2 q x1 x2, writing (pc (wth s t1)) = Some (q, x1) -> writing (pc (wth s t2)) = Some (q, x2) -> t1 = t2;
  wi_fresh : forall t q i m, unpublished (pc (wth s t)) = Some q -> m ∈ wseq s i -> s_val m <> 2 * q;
  wi_once : forall i p1 p2 m1 m2 q, 1 <= q -> wseq s i !! p1 = Some m1 -> wseq s i !! p2 = Some m2 ->
    s_val m1 = 2 * q -> s_val m2 = 2 * q -> p1 = p2;
  wi_from : forall i k f, (k < 5)%nat -> f ∈ wfield s (i, k) -> f_call f <> 0 ->
    slot_of (f_call f) = i /\ exists y, wissued s !! f_call f = Some y /\ own_store (f_call f) y k f;
  wi_zero : forall i k, (k < 5)%nat -> exists l, wfield s (i, k) = mkF 0 0 :: l /\ Forall (fun f => f_call f <> 0) l;
  wi_pub : forall i m, m ∈ wseq s i -> published_ok (wfield s) (wissued s) i m;
  wi_held : forall t q x k, pc (wth s t) = TOwn q x k -> (k <= 7)%nat /\ (wflag s (slot_of q)).1 = true;
  wi_excl : forall t1 t2 q1 x1 k1 q2 x2 k2, pc (wth s t1) = TOwn q1 x1 k1 -> pc (wth s t2) = TOwn q2 x2 k2 ->
    slot_of q1 = slot_of q2 -> t1 = t2;
  wi_free : forall i, (wflag s i).1 = false -> at_end (wfield s) (wseq s) i (wflag s i).2;
  wi_own : forall t q x k, pc (wth s t) = TOwn q x k ->
    at_end (wfield s) (wseq s) (slot_of q) (cur (wth s t)) /\ owner_ok (wfield s) (wseq s) q x k;
  wi_settled : forall i m q, 1 <= q -> last (wseq s i) = Some m -> s_val m = 2 * q -> exists x, wissued s !! q = Some x /\
    forall k, (k < 5)%nat -> (length (wfield s (i, k)) <= s_rel m (i, k) + 1)%nat /\
      exists f, last (wfield s (i, k)) = Some f /\ own_store q x k f;
  wi_check : forall t q, pc (wth s t) = TCheck q -> 1 <= q <= wcount s;
  wi_read : forall t q acc, pc (wth s t) = TRead q acc -> 1 <= q <= wcount s /\ reader_ok (wfield s) (wseq s) q acc (cur (wth s t))
}.

(** ** It is kept *)

Lemma at_end_join F S i V W : at_end F S i W -> at_end F S i (vjoin V W).
Proof using Type. intros H c Hc. specialize (H c Hc). unfold vjoin. lia. Qed.

Lemma at_end_last F S i k V f : at_end F S i V -> (k < 5)%nat -> last (F (i, k)) = Some f ->
  exists p, (p <= V (i, k))%nat /\ F (i, k) !! p = Some f.
Proof using Type.
  intros He Hk Hl. specialize (He k ltac:(lia)). unfold cell_len in He. rewrite decide_False in He by lia.
  rewrite last_lookup in Hl. exists (pred (length (F (i, k)))). split; [lia|done].
Qed.

Lemma published_ok_mono F F' g g' i m :
  (forall l, F l `prefix_of` F' l) -> g ⊆ g' -> published_ok F g i m -> published_ok F' g' i m.
Proof using Type.
  intros HF Hg Hp q H1 H2. destruct (Hp q H1 H2) as (Hi & x & Hx & Hk). split; [done|]. exists x.
  split; [by eapply lookup_weaken|]. intros k H5. destruct (Hk k H5) as (p & f & Hle & Hf & Ho). exists p, f.
  split_and!; [done|by eapply prefix_lookup_Some|done].
Qed.

Lemma reader_ok_mono F F' (S S' : nat -> list sstore) q acc V :
  (forall l, F l `prefix_of` F' l) -> (forall i, S i `prefix_of` S' i) -> reader_ok F S q acc V -> reader_ok F' S' q acc V.
Proof using Type.
  intros HF HS (ts & m & Hm & Hv & Hle & Hacc). exists ts, m. split_and!; [by eapply prefix_lookup_Some|done|done|].
  intros k v Hk. destruct (Hacc k v Hk) as (p & f & Hp & Hf & Hfv). exists p, f.
  split_and!; [done|by eapply prefix_lookup_Some|done].
Qed.

Lemma weak_init_inv : weak_inv weak_init.
Proof using Type.
  split; simpl; try done.
  - intros i p1 p2 m1 m2 q Hq H1 _ Hv. apply list_lookup_singleton_Some in H1 as [_ <-]. simpl in Hv. lia.
  - intros i k f _ ->%list_elem_of_singleton. done.
  - intros i k _. by exists [].
  - intros i m ->%list_elem_of_singleton q Hq. simpl. lia.
  - intros i _ c Hc. unfold cell_len. case_decide; simpl; lia.
  - intros i m q Hq [= <-]. simpl. lia.
Qed.

(** A thread leaves what it owns, or starts, checks or reads; the cells are kept. *)
Lemma inv_thread F S G n d d' th g t p V :
  weak_inv (mkW F S G n d th g) ->
  match p with
  | TIdle => True | TCheck q => 1 <= q <= n | TRead q acc => 1 <= q <= n /\ reader_ok F S q acc V | _ => False
  end ->
  weak_inv (mkW F S G n d' (<[t := mkT p V]> th) g).
Proof using Type.
  intros Hi Hp. assert (Hfi := fn_cases th t (mkT p V)).
  assert (Hwr : writing p = None /\ unpublished p = None /\ forall q x k, p <> TOwn q x k) by (by destruct p).
  destruct Hwr as (Hwr & Hun & Hown).
  split; try exact (wi_count _ Hi) || exact (wi_log _ Hi) || exact (wi_once _ Hi) || exact (wi_from _ Hi)
    || exact (wi_zero _ Hi) || exact (wi_pub _ Hi) || exact (wi_free _ Hi) || exact (wi_settled _ Hi); simpl.
  - intros t' q x. destruct (Hfi t') as [[_ ->]|[_ ->]]; simpl; [by rewrite Hwr|apply (wi_args _ Hi)].
  - intros t1 t2 q x1 x2. destruct (Hfi t1) as [[_ ->]|[_ ->]], (Hfi t2) as [[_ ->]|[_ ->]]; simpl;
      rewrite ?Hwr; try done. apply (wi_uniq _ Hi).
  - intros t' q i m. destruct (Hfi t') as [[_ ->]|[_ ->]]; simpl; [by rewrite Hun|apply (wi_fresh _ Hi)].
  - intros t' q x k. destruct (Hfi t') as [[_ ->]|[_ ->]]; simpl; [by intros ?%Hown|apply (wi_held _ Hi)].
  - intros t1 t2 q1 x1 k1 q2 x2 k2. destruct (Hfi t1) as [[_ ->]|[_ ->]], (Hfi t2) as [[_ ->]|[_ ->]]; simpl;
      try (by intros ?%Hown); try (by intros _ ?%Hown). apply (wi_excl _ Hi).
  - intros t' q x k. destruct (Hfi t') as [[_ ->]|[_ ->]]; simpl; [by intros ?%Hown|apply (wi_own _ Hi)].
  - intros t' q. destruct (Hfi t') as [[_ ->]|[_ ->]]; simpl; [by intros ->|apply (wi_check _ Hi)].
  - intros t' q acc. destruct (Hfi t') as [[_ ->]|[_ ->]]; simpl; [by intros ->|apply (wi_read _ Hi)].
Qed.

Lemma issued_range F S G n d th g q x t :
  weak_inv (mkW F S G n d th g) -> writing (pc (th t)) = Some (q, x) -> 1 <= q <= n /\ n < 2 ^ 63.
Proof using Type.
  intros Hi Hw. pose proof (wi_log _ Hi _ _ (wi_args _ Hi _ _ _ Hw)). pose proof (wi_count _ Hi). simpl in *. lia.
Qed.

Lemma inv_draw F S G n d th g t V x :
  weak_inv (mkW F S G n d th g) -> n + 1 < 2 ^ 63 ->
  weak_inv (mkW F S G (n + 1) d (<[t := mkT (TClaim (n + 1) x) V]> th) (<[n + 1 := x]> g)).
Proof using Type.
  intros Hi Hn. pose proof (wi_count _ Hi) as Hc. simpl in Hc.
  assert (Hfi := fn_cases th t (mkT (TClaim (n + 1) x) V)).
  assert (Hnew : g !! (n + 1) = None).
  { destruct (g !! (n + 1)) as [y|] eqn:Hy; [|done]. apply (wi_log _ Hi) in Hy. simpl in Hy. lia. }
  assert (Hlt : forall t' q y, writing (pc (th t')) = Some (q, y) -> q <> n + 1).
  { intros t' q y H%(wi_args _ Hi). apply (wi_log _ Hi) in H. simpl in H. lia. }
  assert (Hsub : g ⊆ <[n + 1 := x]> g) by (by apply insert_subseteq).
  split; try exact (wi_once _ Hi) || exact (wi_zero _ Hi) || exact (wi_free _ Hi); simpl.
  - lia.
  - intros q y. destruct (decide (q = n + 1)) as [->|Hne]; [lia|]. rewrite lookup_insert_ne by done.
    intros H%(wi_log _ Hi). simpl in H. lia.
  - intros t' q y. destruct (Hfi t') as [[_ ->]|[_ ->]]; simpl.
    + intros [= <- <-]. apply lookup_insert_eq.
    + intros H. rewrite lookup_insert_ne; [by apply (wi_args _ Hi _ _ _ H)|]. intros <-. by eapply Hlt.
  - intros t1 t2 q x1 x2. destruct (Hfi t1) as [[-> ->]|[_ ->]], (Hfi t2) as [[-> ->]|[_ ->]]; simpl; [done|..].
    + intros [= <- <-] H. by destruct (Hlt _ _ _ H).
    + intros H [= <- <-]. by destruct (Hlt _ _ _ H).
    + apply (wi_uniq _ Hi).
  - intros t' q i m. destruct (Hfi t') as [[_ ->]|[_ ->]]; simpl; [|apply (wi_fresh _ Hi)].
    intros [= <-] Hm Hv. destruct (wi_pub _ Hi _ _ Hm (n + 1) ltac:(lia) Hv) as (_ & y & Hy & _). simpl in Hy. congruence.
  - intros i k f Hk Hf H0. destruct (wi_from _ Hi _ _ _ Hk Hf H0) as (Hs & y & Hy & Ho). split; [done|]. exists y.
    split; [by eapply lookup_weaken|done].
  - intros i m Hm. by apply (published_ok_mono F F g); [|done|apply (wi_pub _ Hi)].
  - intros t' q y k. destruct (Hfi t') as [[_ ->]|[_ ->]]; [done|apply (wi_held _ Hi)].
  - intros t1 t2 q1 x1 k1 q2 x2 k2. destruct (Hfi t1) as [[_ ->]|[_ ->]]; [done|].
    destruct (Hfi t2) as [[_ ->]|[_ ->]]; [done|apply (wi_excl _ Hi)].
  - intros t' q y k. destruct (Hfi t') as [[_ ->]|[_ ->]]; [done|apply (wi_own _ Hi)].
  - intros i m q Hq Hl Hv. destruct (wi_settled _ Hi _ _ _ Hq Hl Hv) as (y & Hy & Hk). exists y.
    split; [by eapply lookup_weaken|done].
  - intros t' q. destruct (Hfi t') as [[_ ->]|[_ ->]]; [done|]. intros H%(wi_check _ Hi). simpl in H. lia.
  - intros t' q acc. destruct (Hfi t') as [[_ ->]|[_ ->]]; [done|]. intros H%(wi_read _ Hi). simpl in H. split; [lia|apply H].
Qed.

(** The owner's moves: [t] goes on to [TOwn q x k], having appended to its own
    slot only; the flags of the other slots are as they were. *)
Section owner.
Context (F F' : loc -> list fstore) (S S' : nat -> list sstore) (G G' : nat -> bool * view) (n d : Z) (th : nat -> thread)
  (g : gmap Z Snapshot) (t : nat) (V0 V : view) (q : Z) (x : Snapshot) (p0 : tpc) (k : nat).
Context (Hi : weak_inv (mkW F S G n d th g)) (Ht : th t = mkT p0 V0) (Hw0 : writing p0 = Some (q, x))
  (Hp0 : p0 = TClaim q x /\ (G (slot_of q)).1 = false \/ exists k0, p0 = TOwn q x k0 /\ (k0 <= k)%nat) (Hk : (k <= 7)%nat)
  (HG : (G' (slot_of q)).1 = true) (HGo : forall i, i <> slot_of q -> G' i = G i)
  (HF : forall l, F l `prefix_of` F' l) (HS : forall i, S i `prefix_of` S' i)
  (HFo : forall i j, i <> slot_of q -> F' (i, j) = F (i, j)) (HSo : forall i, i <> slot_of q -> S' i = S i)
  (Hend : at_end F' S' (slot_of q) V) (Hok : owner_ok F' S' q x k)
  (Hnew : forall j p f, (j < 5)%nat -> F' (slot_of q, j) !! p = Some f ->
    F (slot_of q, j) !! p = Some f \/ f_call f = q /\ own_store q x j f)
  (HSq : S' (slot_of q) = S (slot_of q) \/ exists m, S' (slot_of q) = S (slot_of q) ++ [m] /\
     (s_val m = 2 * q + 1 \/ s_val m = 2 * q /\ k = 7%nat /\ p0 = TOwn q x 6 /\ s_rel m = V))
  (Hset : S' (slot_of q) = S (slot_of q) -> (forall j, F' (slot_of q, j) = F (slot_of q, j)) \/
     exists m, last (S (slot_of q)) = Some m /\ s_val m = 2 * q + 1).

Lemma owner_call : 1 <= q <= n /\ n < 2 ^ 63 /\ g !! q = Some x.
Proof using All.
  assert (Hwt : writing (pc (th t)) = Some (q, x)) by (by rewrite Ht).
  pose proof (issued_range _ _ _ _ _ _ _ _ _ _ Hi Hwt). pose proof (wi_args _ Hi _ _ _ Hwt). simpl in *. tauto.
Qed.

Lemma owner_alone t' q' x' k' : t' <> t -> pc (th t') = TOwn q' x' k' -> slot_of q' <> slot_of q.
Proof using All.
  intros Hne Ho Heq. destruct Hp0 as [[-> Hfree]|(k0 & -> & _)].
  - destruct (wi_held _ Hi _ _ _ _ Ho) as [_ Hh]. simpl in Hh. rewrite Heq in Hh. congruence.
  - apply Hne. eapply (wi_excl _ Hi); [exact Ho|by simpl; rewrite Ht|exact Heq].
Qed.

Lemma owner_seq i m : m ∈ S' i -> m ∈ S i \/ i = slot_of q /\
  (s_val m = 2 * q + 1 \/ s_val m = 2 * q /\ k = 7%nat /\ p0 = TOwn q x 6 /\ s_rel m = V).
Proof using All.
  intros Hm. destruct (decide (i = slot_of q)) as [->|Hne]; [|rewrite (HSo _ Hne) in Hm; by left].
  destruct HSq as [E|(m0 & E & Hv)]; rewrite E in Hm; [by left|]. apply elem_of_app in Hm as [Hm|Hm]; [by left|].
  apply list_elem_of_singleton in Hm as ->. by right.
Qed.

Lemma owner_fresh t' q' i m :
  unpublished (pc ((<[t := mkT (TOwn q x k) V]> th) t')) = Some q' -> m ∈ S' i -> s_val m <> 2 * q'.
Proof using All.
  assert (Hfi := fn_cases th t (mkT (TOwn q x k) V)).
  assert (Hwt : writing (pc (th t)) = Some (q, x)) by (by rewrite Ht).
  intros Hu Hm Hv. destruct (owner_seq _ _ Hm) as [Hold|(-> & Hm')].
  - revert Hu. destruct (Hfi t') as [[_ ->]|[_ ->]]; simpl; [|intros Hu; by eapply (wi_fresh _ Hi)].
    case_match eqn:Hk6; [|done]. intros [= <-]. eapply (wi_fresh _ Hi); [|exact Hold|exact Hv]. simpl. rewrite Ht.
    destruct Hp0 as [[-> _]|(k0 & -> & Hk0)]; simpl; [done|]. apply Nat.leb_le in Hk6. by destruct (Nat.leb_spec k0 6); [|lia].
  - destruct Hm' as [Hm'|(Hm' & -> & _)]; [lia|]. assert (q' = q) as -> by lia. revert Hu.
    destruct (Hfi t') as [[_ ->]|[Hne ->]]; simpl; [done|]. intros Hu. apply Hne.
    destruct (pc (th t')) as [|q2 x2|q2 x2 k2| |] eqn:Hp2; simpl in Hu; try done.
    + injection Hu as ->. eapply (wi_uniq _ Hi); [by simpl; rewrite Hp2|exact Hwt].
    + case_match; [|done]. injection Hu as ->. eapply (wi_uniq _ Hi); [by simpl; rewrite Hp2|exact Hwt].
Qed.

Lemma owner_once i p1 p2 m1 m2 q' : 1 <= q' -> S' i !! p1 = Some m1 -> S' i !! p2 = Some m2 ->
  s_val m1 = 2 * q' -> s_val m2 = 2 * q' -> p1 = p2.
Proof using All.
  intros Hq' H1 H2 Hv1 Hv2.
  destruct (decide (i = slot_of q)) as [->|Hne]; [|rewrite (HSo _ Hne) in H1, H2; by eapply (wi_once _ Hi)].
  destruct HSq as [E|(m0 & E & Hv)]; rewrite E in H1, H2; [by eapply (wi_once _ Hi)|].
  assert (Hfr : forall p m, S (slot_of q) !! p = Some m -> s_val m = s_val m0 -> s_val m0 = 2 * q' -> False).
  { intros p m Hm Hmv Hm0. destruct Hv as [Hv|(Hv & _ & -> & _)]; [lia|].
    eapply (wi_fresh _ Hi t q); [simpl; by rewrite Ht|eapply list_elem_of_lookup_2, Hm|lia]. }
  apply lookup_snoc_Some in H1, H2. destruct H1 as [[_ H1]|[-> ->]], H2 as [[_ H2]|[-> ->]]; [by eapply (wi_once _ Hi)|..|done].
  - by destruct (Hfr _ _ H1); [congruence|].
  - by destruct (Hfr _ _ H2); [congruence|].
Qed.

Lemma owner_from i j f : (j < 5)%nat -> f ∈ F' (i, j) -> f_call f <> 0 ->
  slot_of (f_call f) = i /\ exists y, g !! f_call f = Some y /\ own_store (f_call f) y j f.
Proof using All.
  intros Hj Hf Hc. destruct (decide (i = slot_of q)) as [->|Hne].
  - apply list_elem_of_lookup in Hf as [p Hf].
    destruct (Hnew _ _ _ Hj Hf) as [Hold|[Hcq Hown]]; [by apply (wi_from _ Hi); [|eapply list_elem_of_lookup_2|]|].
    rewrite Hcq. split; [done|]. exists x. split; [apply owner_call|done].
  - rewrite (HFo _ _ Hne) in Hf. by apply (wi_from _ Hi).
Qed.

Lemma owner_zero i j : (j < 5)%nat -> exists l, F' (i, j) = mkF 0 0 :: l /\ Forall (fun f => f_call f <> 0) l.
Proof using All.
  intros Hj. destruct (wi_zero _ Hi i j Hj) as (l & Hl & Hall). simpl in Hl. destruct (HF (i, j)) as [l' Hl']. rewrite Hl in Hl'.
  exists (l ++ l'). split; [done|]. apply Forall_app. split; [done|]. apply Forall_lookup. intros p f Hp.
  destruct (decide (i = slot_of q)) as [->|Hne].
  - assert (HF' : F' (slot_of q, j) !! (length (mkF 0 0 :: l) + p)%nat = Some f).
    { rewrite Hl'. by rewrite lookup_app_r, Nat.add_comm, Nat.add_sub by lia. }
    destruct (Hnew _ _ _ Hj HF') as [Hold|[-> _]]; [|pose proof owner_call; lia].
    rewrite Hl in Hold. apply lookup_lt_Some in Hold. lia.
  - rewrite (HFo _ _ Hne), Hl in Hl'. apply (f_equal length) in Hl'. rewrite length_app in Hl'. apply lookup_lt_Some in Hp. lia.
Qed.

Lemma owner_pub i m : m ∈ S' i -> published_ok F' g i m.
Proof using All.
  destruct owner_call as (_ & _ & Hx). intros Hm. destruct (owner_seq _ _ Hm) as [Hold|(-> & Hv)].
  - by apply (published_ok_mono F F' g); [| |apply (wi_pub _ Hi)].
  - intros q' Hq' Hv'. destruct Hv as [Hv|(Hv & -> & _ & Hr)]; [lia|]. assert (q' = q) as -> by lia.
    split; [done|]. exists x. split; [done|]. intros j Hj. rewrite Hr.
    destruct Hok as [Hfs _]. destruct (Hfs j) as (f & Hf & Ho); [lia|lia|].
    destruct (at_end_last _ _ _ _ _ _ Hend Hj Hf) as (p & Hp & Hpf). by exists p, f.
Qed.

Lemma owner_settled i m q' : 1 <= q' -> last (S' i) = Some m -> s_val m = 2 * q' -> exists y, g !! q' = Some y /\
  forall j, (j < 5)%nat -> (length (F' (i, j)) <= s_rel m (i, j) + 1)%nat /\
    exists f, last (F' (i, j)) = Some f /\ own_store q' y j f.
Proof using All.
  destruct owner_call as (_ & _ & Hx).
  intros Hq' Hl Hv. destruct (decide (i = slot_of q)) as [->|Hne].
  - destruct HSq as [E|(m0 & E & Hm0)]; rewrite E in Hl.
    + destruct (Hset E) as [Hsame|(m0 & Hm0 & Hv0)]; [|assert (m0 = m) as -> by congruence; lia].
      destruct (wi_settled _ Hi _ _ _ Hq' Hl Hv) as (y & Hy & Hj). exists y. split; [done|]. intros j H5. rewrite Hsame. by apply Hj.
    + rewrite last_snoc in Hl. injection Hl as ->. destruct Hm0 as [Hm0|(Hm0 & -> & _ & Hr)]; [lia|].
      assert (q' = q) as -> by lia. exists x. split; [done|]. intros j Hj. rewrite Hr. destruct Hok as [Hfs _].
      split; [|apply Hfs; lia]. specialize (Hend j ltac:(lia)). unfold cell_len in Hend. by rewrite decide_False in Hend by lia.
  - rewrite (HSo _ Hne) in Hl. destruct (wi_settled _ Hi _ _ _ Hq' Hl Hv) as (y & Hy & Hj). exists y. split; [done|].
    intros j H5. rewrite (HFo _ _ Hne). by apply Hj.
Qed.

Lemma inv_owner : weak_inv (mkW F' S' G' n d (<[t := mkT (TOwn q x k) V]> th) g).
Proof using All.
  assert (Hfi := fn_cases th t (mkT (TOwn q x k) V)).
  assert (Hwt : writing (pc (th t)) = Some (q, x)) by (by rewrite Ht). destruct owner_call as (Hq & Hn & Hx).
  split; simpl; try exact (wi_count _ Hi) || exact (wi_log _ Hi) || exact owner_fresh || exact owner_once
    || exact owner_from || exact owner_zero || exact owner_pub || exact owner_settled.
  - intros t' q' x'. destruct (Hfi t') as [[_ ->]|[_ ->]]; simpl; [by intros [= <- <-]|apply (wi_args _ Hi)].
  - intros t1 t2 q' x1 x2. destruct (Hfi t1) as [[-> ->]|[_ ->]], (Hfi t2) as [[-> ->]|[_ ->]]; simpl; [done|..].
    + intros [= <- <-] H. by eapply (wi_uniq _ Hi).
    + intros H [= <- <-]. by eapply (wi_uniq _ Hi).
    + apply (wi_uniq _ Hi).
  - intros t' q' x' k'. destruct (Hfi t') as [[_ ->]|[Hne ->]]; simpl; [by intros [= <- <- <-]|].
    intros Ho. rewrite (HGo _ (owner_alone _ _ _ _ Hne Ho)). by eapply (wi_held _ Hi).
  - intros t1 t2 q1 x1 k1 q2 x2 k2.
    destruct (Hfi t1) as [[-> ->]|[N1 ->]], (Hfi t2) as [[-> ->]|[N2 ->]]; simpl; [done|..].
    + intros [= <- <- <-] Ho Hs. by destruct (owner_alone _ _ _ _ N2 Ho).
    + intros Ho [= <- <- <-] Hs. by destruct (owner_alone _ _ _ _ N1 Ho).
    + apply (wi_excl _ Hi).
  - intros i Hf. destruct (decide (i = slot_of q)) as [->|Hne]; [congruence|]. rewrite (HGo _ Hne) in Hf |- *.
    intros c Hc. unfold cell_len. rewrite (HSo _ Hne), (HFo _ _ Hne). by apply (wi_free _ Hi).
  - intros t' q' x' k'. destruct (Hfi t') as [[_ ->]|[Hne ->]]; simpl; [by intros [= <- <- <-]|].
    intros Ho. pose proof (owner_alone _ _ _ _ Hne Ho) as Hs. destruct (wi_own _ Hi _ _ _ _ Ho) as [He Hk']. simpl in He, Hk'. split.
    + intros c Hc. unfold cell_len. rewrite (HSo _ Hs), (HFo _ _ Hs). by apply He.
    + destruct k' as [|k']; [done|]. simpl in *. rewrite (HSo _ Hs). destruct Hk' as [Hfs Hl]. split; [|done].
      intros j Hj H5. rewrite (HFo _ _ Hs). by apply Hfs.
  - intros t' q'. destruct (Hfi t') as [[_ ->]|[_ ->]]; [done|apply (wi_check _ Hi)].
  - intros t' q' acc. destruct (Hfi t') as [[_ ->]|[_ ->]]; [done|].
    intros H%(wi_read _ Hi). simpl in H. split; [apply H|]. by eapply reader_ok_mono, H.
Qed.
End owner.


Lemma prefix_insert {A K} `{EqDecision K} (F : K -> list A) k l : F k `prefix_of` l -> forall k', F k' `prefix_of` (<[k := l]> F) k'.
Proof using Type.
  intros Hp k'. destruct (decide (k' = k)) as [->|]; [by rewrite fn_lookup_insert|by rewrite fn_lookup_insert_ne].
Qed.

Lemma vset_eq V l p : vset V l p l = p.
Proof using Type. unfold vset, insert, fn_insert. by rewrite decide_True. Qed.
Lemma vset_ne V l l' p : l <> l' -> vset V l p l' = V l'.
Proof using Type. intros H. unfold vset, insert, fn_insert. by rewrite decide_False. Qed.

(** The flag is taken: the positions its last [clear] released reach the end of the slot. *)
Lemma inv_flag_taken F S G n d th g t V q x W :
  weak_inv (mkW F S G n d th g) -> th t = mkT (TClaim q x) V -> G (slot_of q) = (false, W) ->
  weak_inv (mkW F S (<[slot_of q := (true, W)]> G) n d (<[t := mkT (TOwn q x 0) (vjoin V W)]> th) g).
Proof using All.
  intros Hi Ht Hf. eapply (inv_owner F F S S G); [exact Hi|exact Ht|done|left; by rewrite Hf|lia|by rewrite fn_lookup_insert|..]; try done.
  - intros i Hne. by rewrite fn_lookup_insert_ne.
  - apply at_end_join. pose proof (wi_free _ Hi (slot_of q)) as H. simpl in H. rewrite Hf in H. by apply H.
  - by left.
  - by left.
  - intros _. by left.
Qed.

(** A store to the sequence word. *)
Lemma inv_seq F S G n d th g t V q x k v r :
  weak_inv (mkW F S G n d th g) -> th t = mkT (TOwn q x k) V -> seq_store (S (slot_of q)) V (slot_of q) v = r ->
  (k = 0%nat /\ v = 2 * q + 1) \/ (k = 6%nat /\ v = 2 * q) ->
  weak_inv (mkW F (<[slot_of q := r.1]> S) G n d (<[t := mkT (TOwn q x (Datatypes.S k)) r.2]> th) g).
Proof using All.
  intros Hi Ht <- Hv. simpl. set (V' := vset V (slot_of q, 5%nat) _).
  pose proof (wi_held _ Hi t q x k ltac:(simpl; by rewrite Ht)) as [_ Hfl].
  destruct (wi_own _ Hi t q x k ltac:(simpl; by rewrite Ht)) as [He Hok]. simpl in He, Hok, Hfl. rewrite Ht in He. simpl in He.
  eapply (inv_owner F F S _ G); [exact Hi|exact Ht|done|right; exists k; split; [done|lia]|lia|done|done|done|..].
  - apply prefix_insert, prefix_app_r. done.
  - done.
  - intros i Hne. by rewrite fn_lookup_insert_ne.
  - intros c Hc. specialize (He c Hc). unfold cell_len in *. case_decide as Hc5.
    + subst c. rewrite fn_lookup_insert, length_app. unfold V'. rewrite vset_eq. simpl. lia.
    + unfold V'. rewrite vset_ne by congruence. done.
  - destruct Hv as [[-> ->]|[-> ->]]; simpl in *.
    + split; [lia|]. intros _. rewrite fn_lookup_insert, last_snoc. by eexists.
    + split; [|lia]. intros j _ Hj. by apply Hok.
  - intros j p f _ Hf. by left.
  - right. rewrite fn_lookup_insert. eexists. split; [done|]. simpl. destruct Hv as [[-> ->]|[-> ->]]; [by left|right; by split_and!].
  - rewrite fn_lookup_insert. intros H. apply (f_equal length) in H. rewrite length_app in H. simpl in H. lia.
Qed.

(** A store to a field. *)
Lemma inv_field F S G n d th g t V q x k v :
  weak_inv (mkW F S G n d th g) -> th t = mkT (TOwn q x (Datatypes.S k)) V -> (k < 5)%nat -> fields x !! k = Some v ->
  weak_inv (mkW (<[(slot_of q, k) := F (slot_of q, k) ++ [mkF v q]]> F) S G n d
    (<[t := mkT (TOwn q x (Datatypes.S (Datatypes.S k))) (vset V (slot_of q, k) (length (F (slot_of q, k))))]> th) g).
Proof using All.
  intros Hi Ht Hk Hx. set (V' := vset V _ _). set (F' := <[(slot_of q, k) := _]> F).
  pose proof (wi_held _ Hi t q x _ ltac:(simpl; by rewrite Ht)) as [_ Hfl].
  destruct (wi_own _ Hi t q x _ ltac:(simpl; by rewrite Ht)) as [He [Hfs Hodd]]. simpl in He, Hfl. rewrite Ht in He. simpl in He.
  specialize (Hodd ltac:(lia)). simpl in Hfs, Hodd.
  assert (HF : forall l, F l `prefix_of` F' l) by (apply prefix_insert, prefix_app_r; done).
  eapply (inv_owner F F' S S G); [exact Hi|exact Ht|done|right; eexists; split; [done|lia]|lia|done|done|done|done|..].
  - intros i j Hne. unfold F'. rewrite fn_lookup_insert_ne by congruence. done.
  - done.
  - intros c Hc. specialize (He c Hc). unfold cell_len in *. case_decide as Hc5.
    + unfold V'. rewrite vset_ne by (intros [= ]; lia). done.
    + destruct (decide (c = k)) as [->|Hne].
      * unfold F', V'. rewrite vset_eq, fn_lookup_insert, length_app. simpl. lia.
      * unfold F', V'. rewrite vset_ne, fn_lookup_insert_ne by congruence. done.
  - split.
    + intros j Hj H5. destruct (decide (j = k)) as [->|Hne].
      * unfold F'. rewrite fn_lookup_insert, last_snoc. by eexists.
      * unfold F'. rewrite fn_lookup_insert_ne by congruence. apply Hfs; lia.
    + intros _. exact Hodd.
  - intros j p f _ Hf. destruct (decide (j = k)) as [->|Hne].
    + unfold F' in Hf. rewrite fn_lookup_insert in Hf. apply lookup_snoc_Some in Hf as [[_ Hf]|[_ <-]]; [by left|right; done].
    + unfold F' in Hf. rewrite fn_lookup_insert_ne in Hf by congruence. by left.
  - by left.
  - intros _. by right.
Qed.

(** The flag is cleared: what the owner has seen is released with it. *)
Lemma inv_clear F S G n d th g t V q x :
  weak_inv (mkW F S G n d th g) -> th t = mkT (TOwn q x 7) V ->
  weak_inv (mkW F S (<[slot_of q := (false, V)]> G) n d (<[t := mkT TIdle V]> th) g).
Proof using All.
  intros Hi Ht. pose proof (inv_thread _ _ _ _ _ d _ _ t TIdle V Hi I) as Hi'.
  destruct (wi_own _ Hi t q x _ ltac:(simpl; by rewrite Ht)) as [He _]. simpl in He. rewrite Ht in He. simpl in He.
  assert (Hfi := fn_cases th t (mkT TIdle V)).
  split; simpl; try first [exact (wi_count _ Hi')|exact (wi_log _ Hi')|exact (wi_args _ Hi')|exact (wi_uniq _ Hi')
    |exact (wi_fresh _ Hi')|exact (wi_once _ Hi')|exact (wi_from _ Hi')|exact (wi_zero _ Hi')|exact (wi_pub _ Hi')
    |exact (wi_excl _ Hi')|exact (wi_own _ Hi')|exact (wi_settled _ Hi')|exact (wi_check _ Hi')|exact (wi_read _ Hi')].
  - intros t' q' x' k'. destruct (Hfi t') as [[_ ->]|[Hne ->]]; simpl; [done|]. intros Ho. split; [by eapply (wi_held _ Hi)|].
    rewrite fn_lookup_insert_ne; [by eapply (wi_held _ Hi)|]. intros Heq. apply Hne.
    eapply (wi_excl _ Hi); [exact Ho|by simpl; rewrite Ht|done].
  - intros i. destruct (decide (i = slot_of q)) as [->|Hne]; [by rewrite fn_lookup_insert|].
    rewrite fn_lookup_insert_ne by done. apply (wi_free _ Hi).
Qed.

Lemma reader_range F S G n d th g t q : weak_inv (mkW F S G n d th g) ->
  pc (th t) = TCheck q \/ (exists acc, pc (th t) = TRead q acc) -> 1 <= q <= n /\ published q = 2 * q.
Proof using All.
  intros Hi H. assert (Hq : 1 <= q <= n) by (destruct H as [H|(acc & H)]; [apply (wi_check _ Hi _ _ H)|apply (wi_read _ Hi _ _ _ H)]).
  pose proof (wi_count _ Hi) as Hc. simpl in Hc. split; [done|]. apply published_small. lia.
Qed.

Lemma weak_inv_step s e s' : weak_inv s -> step s e s' -> weak_inv s'.
Proof using All.
  intros Hi Hst. destruct Hst as
    [F S G n d th g t V x Ht Hn|F S G n d th g t V q x W Ht Hf|F S G n d th g t V q x W Ht Hf|F S G n d th g t V q x r Ht Hr
    |F S G n d th g t V q x k v Ht Hk Hx|F S G n d th g t V q x r Ht Hr|F S G n d th g t V q x Ht
    |F S G n d th g t V q total e Ht Hn Hg|F S G n d th g t V q total Ht Hn Hq Hg
    |F S G n d th g t V q ts m Ht Hle Hm Hv|F S G n d th g t V q acc ts m Ht Hl Hle Hm
    |F S G n d th g t V q p ts m Ht Hp Hle Hm Hv|F S G n d th g t V q acc ts m Ht Hl Hle Hm Hv].
  - pose proof (wi_count _ Hi) as Hc. simpl in Hc. rewrite wrap_small by (unfold in_u; lia). by apply inv_draw.
  - by apply (inv_thread _ _ _ _ d).
  - by apply inv_flag_taken.
  - destruct (issued_range _ _ _ _ _ _ _ q x t Hi ltac:(by rewrite Ht)) as [Hq Hn].
    eapply inv_seq; [done|done|exact Hr|left; split; [done|apply published_odd; lia]].
  - by eapply inv_field.
  - destruct (issued_range _ _ _ _ _ _ _ q x t Hi ltac:(by rewrite Ht)) as [Hq Hn].
    eapply inv_seq; [done|done|exact Hr|right; split; [done|apply published_small; lia]].
  - by eapply inv_clear.
  - done.
  - apply (inv_thread _ _ _ _ d); [done|]. apply guard_range in Hg; [|done|lia]. lia.
  - destruct (reader_range _ _ _ _ _ _ _ t q Hi ltac:(left; by rewrite Ht)) as [Hq Hpub].
    apply (inv_thread _ _ _ _ d); [done|]. split; [done|]. exists ts, m. rewrite <- Hpub. split_and!; [done|done| |done].
    intros k Hk. unfold acquire, vjoin. lia.
  - pose proof (wi_read _ Hi t q acc ltac:(simpl; by rewrite Ht)) as [Hq (ts0 & m0 & Hm0 & Hv0 & Hrel & Hacc)].
    simpl in Hq, Hm0, Hrel. rewrite Ht in Hrel. simpl in Hrel.
    apply (inv_thread _ _ _ _ d); [done|]. split; [done|]. exists ts0, m0. split_and!; [done|done|..].
    + intros k Hk. destruct (decide (k = length acc)) as [->|Hne].
      * rewrite vset_eq. specialize (Hrel _ Hk). lia.
      * rewrite vset_ne by congruence. by apply Hrel.
    + intros k v Hk. apply lookup_snoc_Some in Hk as [[_ Hk]|[-> <-]]; [by apply Hacc|].
      exists ts, m. split_and!; [|done|done]. specialize (Hrel _ Hl). lia.
  - by apply (inv_thread _ _ _ _ d).
  - by apply (inv_thread _ _ _ _ d).
Qed.

Lemma weak_reachable tr s : lrun step weak_init tr s -> weak_inv s.
Proof using All. intros Hrun. eapply lrun_invariant; [|apply weak_init_inv|exact Hrun]. intros; by eapply weak_inv_step. Qed.
End proof.

(** ** What a lookup returns *)

(** C36: What a returned admission snapshot is worth under the C++ memory model.
    Any number of threads record rejections and look records up at the same time;
    relaxed loads may return old values.  A lookup that returns a record for [q]
    answers for a call that did draw [q], and every field it returns was stored by
    a call that owned the same slot, in [q]'s own store or a later one of that
    cell, never an older one: nothing of the record the slot held before comes
    back, nor an initial value.  When no later call has begun to overwrite the
    slot by the end of the lookup, the five fields are exactly those of call [q]. *)
Theorem lookup_exact_unless_overlapped (kSlots size_bits : Z) (tr : list snap_event) (s s' : wsys) (q : Z) (fs : list Z) :
  0 < kSlots ->
  lrun (weak_step kSlots size_bits) weak_init tr s ->
  weak_step kSlots size_bits s (Some (SReturned q fs)) s' ->
  exists x, wissued s !! q = Some x /\ length fs = 5%nat /\
    (forall k v, fs !! k = Some v -> exists p f p' f' y,
       wfield s (slot_of kSlots size_bits q, k) !! p = Some f /\ f_call f = q /\ fields x !! k = Some (f_val f) /\
       (p <= p')%nat /\ wfield s (slot_of kSlots size_bits q, k) !! p' = Some f' /\
       slot_of kSlots size_bits (f_call f') = slot_of kSlots size_bits q /\
       wissued s !! f_call f' = Some y /\ fields y !! k = Some v) /\
    ((exists m, last (wseq s (slot_of kSlots size_bits q)) = Some m /\ s_val m = published q) -> fs = fields x).
Proof.
  intros HK Hrun Hst. pose proof (weak_reachable kSlots size_bits HK _ _ Hrun) as Hi.
  inversion Hst as [| | | | | | | | | | | |F S G n d th g t V q0 acc ts m Ht Hl Hle Hm Hv]; subst.
  destruct (reader_range kSlots size_bits HK _ _ _ _ _ _ _ t q Hi ltac:(right; exists fs; by rewrite Ht)) as [Hq Hpub].
  destruct (wi_read _ _ _ Hi t q fs ltac:(simpl; by rewrite Ht)) as [_ (ts0 & m0 & Hm0 & Hv0 & Hrel & Hacc)]. simpl in *.
  destruct (wi_pub _ _ _ Hi _ _ (list_elem_of_lookup_2 _ _ _ Hm0) q ltac:(lia) Hv0) as (_ & x & Hx & Hown). simpl in Hx, Hown.
  assert (H5 : forall k v, fs !! k = Some v -> (k < 5)%nat) by (intros k v Hk; apply lookup_lt_Some in Hk; lia).
  exists x. split_and!; [done|done|..].
  - intros k v Hk. destruct (Hown k (H5 _ _ Hk)) as (p & f & Hp & Hf & Hfq & Hfv). destruct (Hacc k v Hk) as (p' & f' & Hp' & Hf' & <-).
    assert (Hnz : f_call f' <> 0).
    { destruct (wi_zero _ _ _ Hi (slot_of kSlots size_bits q) k (H5 _ _ Hk)) as (l & Hlist & Hall). simpl in Hlist.
      rewrite Hlist in Hf, Hf'. destruct p as [|p]; [simpl in Hf; injection Hf as <-; simpl in Hfq; lia|].
      destruct p' as [|p']; [lia|]. by eapply (Forall_lookup_1 _ _ _ _ Hall). }
    destruct (wi_from _ _ _ Hi _ _ _ (H5 _ _ Hk) (list_elem_of_lookup_2 _ _ _ Hf') Hnz) as (Hs & y & Hy & _ & Hyv).
    exists p, f, p', f', y. split_and!; try done. lia.
  - intros (m1 & Hm1 & Hv1). rewrite Hpub in Hv1.
    destruct (wi_settled _ _ _ Hi _ _ q ltac:(lia) Hm1 Hv1) as (y & Hy & Hset). simpl in Hy, Hset.
    assert (y = x) as -> by congruence. rewrite last_lookup in Hm1.
    assert (Hts := wi_once _ _ _ Hi _ _ _ _ _ q ltac:(lia) Hm0 Hm1 Hv0 Hv1). assert (m1 = m0) as -> by (rewrite <- Hts in Hm1; simpl in *; congruence).
    apply list_eq_same_length with 5%nat; [done|done|]. intros k v v' Hk Hkv Hkv'.
    destruct (Hset k Hk) as (Hlen & f & Hlast & _ & Hfv). destruct (Hacc k v Hkv) as (p & f' & Hp & Hf' & <-).
    rewrite last_lookup in Hlast. pose proof (lookup_lt_Some _ _ _ Hf'). assert (p = pred (length (F (slot_of kSlots size_bits q, k)))) as -> by lia.
    congruence.
Qed.

(** One producer's [record] in a one-slot ring, up to its [clear]. *)
Tactic Notation "wstep" hyp(H) uconstr(c) :=
  eapply (lrun_tau (weak_step 1 64)) in H; [|eapply c; first [reflexivity|vm_compute; lia|by left|done]].
Tactic Notation "wtake" hyp(H) constr(x) :=
  wstep H (wk_draw 1 64 _ _ _ _ _ _ _ 0%nat _ x); wstep H (wk_take 1 64 _ _ _ _ _ _ _ 0%nat); wstep H (wk_odd 1 64 _ _ _ _ _ _ _ 0%nat).
Tactic Notation "wfield" hyp(H) := wstep H (wk_field 1 64 _ _ _ _ _ _ _ 0%nat).
Tactic Notation "wdone" hyp(H) := wstep H (wk_even 1 64 _ _ _ _ _ _ _ 0%nat); wstep H (wk_clear 1 64 _ _ _ _ _ _ _ 0%nat).
Tactic Notation "rstart" hyp(H) :=
  wstep H (rk_start 1 64 _ _ _ _ _ _ _ 1%nat _ 1 1); wstep H (rk_first 1 64 _ _ _ _ _ _ _ 1%nat _ _ 2).
Tactic Notation "rload" hyp(H) constr(ts) := wstep H (rk_field 1 64 _ _ _ _ _ _ _ 1%nat _ _ _ ts).

(** One producer records a rejection, another thread fetches it. *)
Lemma lookup_exact_unless_overlapped_witness :
  exists x, (<[1 := mkSnap 3 5 4 77 9]> (∅ : gmap Z Snapshot)) !! 1 = Some x /\ [3; 5; 4; 77; 9] = fields x.
Proof.
  pose proof (lrun_nil (weak_step 1 64) weak_init) as H.
  wtake H (mkSnap 3 5 4 77 9). do 5 wfield H. wdone H. rstart H. do 5 rload H 1%nat.
  match type of H with lrun _ _ _ ?s =>
    assert (Hst : exists s', weak_step 1 64 s (Some (SReturned 1 [3; 5; 4; 77; 9])) s')
      by (eexists; eapply (rk_ok 1 64 _ _ _ _ _ _ _ 1%nat _ _ _ 2); [reflexivity|reflexivity| |reflexivity|reflexivity]; vm_compute; lia)
  end.
  destruct Hst as [s' Hst].
  destruct (lookup_exact_unless_overlapped 1 64 [] _ s' 1 [3; 5; 4; 77; 9] ltac:(lia) H Hst) as (x & Hx & _ & _ & Hf).
  exists x. split; [exact Hx|]. apply Hf. eexists. split; [reflexivity|reflexivity].
Defined.

(** The second check does not keep a mixed record out.  A reader passes the first
    check of record 1; the producer of record 2 takes the slot, stores the odd
    sequence and the first field; the reader's load returns that new field, the
    other loads the old ones, and the second check may still return the old
    sequence word: the loads before it are relaxed and no fence orders them. *)
Lemma overlapped_lookup_can_tear :
  exists tr s s' fs, lrun (weak_step 1 64) weak_init tr s /\ weak_step 1 64 s (Some (SReturned 1 fs)) s' /\
    wissued s !! 1 = Some (mkSnap 3 5 4 77 9) /\ wissued s !! 2 = Some (mkSnap 8 6 2 99 1) /\ fs = [8; 5; 4; 77; 9].
Proof.
  pose proof (lrun_nil (weak_step 1 64) weak_init) as H.
  wtake H (mkSnap 3 5 4 77 9). do 5 wfield H. wdone H. rstart H. wtake H (mkSnap 8 6 2 99 1). wfield H. rload H 2%nat. do 4 rload H 1%nat.
  eexists _, _, _, _. split; [exact H|]. split; [|split_and!; reflexivity].
  eapply (rk_ok 1 64 _ _ _ _ _ _ _ 1%nat _ _ _ 2); [reflexivity|reflexivity| |reflexivity|reflexivity]. vm_compute. lia.
Qed.

(** The owner of a slot has seen every store of it, so its own stores can only be
    the newest of their cells: the model loses no behaviour by appending them. *)
Lemma stores_are_latest (kSlots size_bits : Z) (tr : list snap_event) (s : wsys) (t : nat) (q : Z) (x : Snapshot) (k : nat) :
  0 < kSlots -> lrun (weak_step kSlots size_bits) weak_init tr s -> pc (wth s t) = TOwn q x k ->
  at_end (wfield s) (wseq s) (slot_of kSlots size_bits q) (cur (wth s t)).
Proof. intros HK Hrun Ho. by eapply (wi_own _ _ _ (weak_reachable _ _ HK _ _ Hrun)). Qed.
