(* ===== verification/Policy.v ===== *)
(** * Admission policies (include/coact/policy.hpp)

    [TokenBucketRateLimiter]: a burst-limited refill by whole intervals, at
    [uint64_t] width.  [MergeCell]: the five-state owning slot shared by
    producers and the dispatcher, as a step relation on the atomic accesses of
    its five operations.  [rate_bound] bounds what a bucket admits over any
    sequence of calls; [merge_cell_refines_slot] shows the cell is a one-place
    buffer whatever the interleaving. *)

From stdpp Require Import functions.
From S2P Require Import Prelude Vocab.

(** ** The token bucket *)

Record RateLimitRule := mkRule { capacity : Z; rate : Z; refill_interval : Z; enabled : bool }.

Record TokenBucket := mkBucket { rule_ : RateLimitRule; tokens_ : Z; last_ : Z }.

Definition bucket_init (rule : RateLimitRule) (now : Z) : TokenBucket := mkBucket rule (capacity rule) now.

Definition refill (b : TokenBucket) (now : Z) : TokenBucket :=
  if refill_interval (rule_ b) =? 0 then b
  else if now <=? last_ b then b
  else
    let elapsed := now - last_ b in
    let added := elapsed / refill_interval (rule_ b) in
    if added =? 0 then b
    else
      let gain := u64 (added * rate (rule_ b)) in
      let room := u64 (capacity (rule_ b) - tokens_ b) in
      if room <=? gain then mkBucket (rule_ b) (capacity (rule_ b)) now
      else mkBucket (rule_ b) (u64 (tokens_ b + gain)) now.

Definition acquire (b : TokenBucket) (now : Z) : bool * TokenBucket :=
  if negb (enabled (rule_ b)) then (true, b)
  else
    let b' := refill b now in
    if 0 <? tokens_ b' then (true, mkBucket (rule_ b') (u64 (tokens_ b' - 1)) (last_ b'))
    else (false, b').

(** A caller's sequence of clock readings; the count is what was admitted. *)
Fixpoint acquire_all (b : TokenBucket) (nows : list Z) : Z * TokenBucket :=
  match nows with
  | [] => (0, b)
  | now :: nows =>
    let (ok, b1) := acquire b now in
    let (n, b2) := acquire_all b1 nows in
    ((if ok : bool then 1 else 0) + n, b2)
  end.

Definition rule_ok (r : RateLimitRule) : Prop :=
  in_u 64 (capacity r) /\ in_u 64 (rate r) /\ 0 < refill_interval r.

Record bucket_ok (r : RateLimitRule) (b : TokenBucket) : Prop := {
  bo_rule : rule_ b = r;
  bo_tokens : 0 <= tokens_ b <= capacity r
}.

Lemma wrap_le w x : 0 <= w -> 0 <= x -> wrap w x <= x.
Proof. intros. apply Z.mod_le; [done|by apply pow2_pos]. Qed.

(** What one refill adds: nothing, or at most [rate] per whole interval. *)
Lemma refill_spec r b now :
  rule_ok r -> bucket_ok r b ->
  let b' := refill b now in
  bucket_ok r b' /\ last_ b <= last_ b' <= Z.max (last_ b) now /\
  tokens_ b <= tokens_ b' <= tokens_ b + rate r * ((last_ b' - last_ b) / refill_interval r).
Proof.
  intros (Hc & Hr & Hi) [Hb Ht]. destruct b as [r' t l]. simpl in *. subst r'. unfold refill. simpl.
  assert (Hsame : let b' := mkBucket r t l in bucket_ok r b' /\ l <= last_ b' <= Z.max l now /\
    t <= tokens_ b' <= t + rate r * ((last_ b' - l) / refill_interval r)).
  { simpl. split_and!; [done|lia|lia|lia|]. rewrite Z.sub_diag, Zdiv_0_l. lia. }
  rewrite (proj2 (Z.eqb_neq _ _)) by lia. destruct (Z.leb_spec now l); [done|].
  destruct (Z.eqb_spec ((now - l) / refill_interval r) 0) as [|Hne]; [done|].
  set (n := (now - l) / refill_interval r) in *. assert (Hn : 0 <= n) by (apply Z.div_pos; lia).
  rewrite (wrap_small 64 (capacity r - t)) by (unfold in_u in *; lia).
  pose proof (wrap_range 64 (n * rate r) ltac:(lia)) as [Hg0 Hg1].
  pose proof (wrap_le 64 (n * rate r) ltac:(lia) ltac:(unfold in_u in *; nia)) as Hg.
  destruct (Z.leb_spec (capacity r - t) (u64 (n * rate r))); simpl.
  - fold n. split_and!; [split; [done|simpl; lia]|lia..|nia].
  - fold n. rewrite wrap_small by (unfold in_u in *; lia).
    split_and!; [split; [done|simpl; lia]|lia..|nia].
Qed.

Lemma acquire_spec r b now :
  rule_ok r -> enabled r = true -> bucket_ok r b ->
  let res := acquire b now in
  bucket_ok r res.2 /\ last_ b <= last_ res.2 <= Z.max (last_ b) now /\
  (if res.1 then 1 else 0) + tokens_ res.2 <= tokens_ b + rate r * ((last_ res.2 - last_ b) / refill_interval r).
Proof.
  intros Hr He Hb. unfold acquire. rewrite (bo_rule _ _ Hb), He. simpl.
  destruct (refill_spec r b now Hr Hb) as ([Hr' Ht'] & Hl & Hg).
  destruct (Z.ltb_spec 0 (tokens_ (refill b now))); simpl.
  - rewrite wrap_small by (unfold in_u; destruct Hr as ([? ?] & _ & _); lia).
    split_and!; [split; [done|simpl; lia]|lia..].
  - split_and!; [done|lia..].
Qed.

(** Whole intervals of consecutive windows add up to at most those of the union. *)
Lemma div_superadd a b d : 0 < d -> 0 <= a -> 0 <= b -> a / d + b / d <= (a + b) / d.
Proof.
  intros Hd Ha Hb. apply Z.div_le_lower_bound; [done|].
  pose proof (Z.mul_div_le a d Hd). pose proof (Z.mul_div_le b d Hd). lia.
Qed.

Lemma acquire_all_spec r nows b :
  rule_ok r -> enabled r = true -> bucket_ok r b ->
  let res := acquire_all b nows in
  bucket_ok r res.2 /\ last_ b <= last_ res.2 <= fold_left Z.max nows (last_ b) /\
  res.1 + tokens_ res.2 <= tokens_ b + rate r * ((last_ res.2 - last_ b) / refill_interval r).
Proof.
  intros Hr He. revert b. induction nows as [|now nows IH]; intros b Hb; simpl.
  { split_and!; [done|lia..|]. rewrite Z.sub_diag, Zdiv_0_l. lia. }
  destruct (acquire_spec r b now Hr He Hb) as (Hb1 & Hl1 & Hc1). destruct (acquire b now) as [ok b1]. simpl in *.
  destruct (IH b1 Hb1) as (Hb2 & Hl2 & Hc2). destruct (acquire_all b1 nows) as [n b2]. simpl in *.
  assert (Hmono : forall xs x y, x <= y -> fold_left Z.max xs x <= fold_left Z.max xs y).
  { clear. induction xs as [|z xs IH]; intros x y Hxy; simpl; [done|]. apply IH. lia. }
  specialize (Hmono nows (last_ b1) (Z.max (last_ b) now) ltac:(lia)).
  destruct Hr as (? & [Hrate _] & Hi).
  pose proof (div_superadd (last_ b1 - last_ b) (last_ b2 - last_ b1) _ Hi ltac:(lia) ltac:(lia)) as Hs.
  replace (last_ b1 - last_ b + (last_ b2 - last_ b1)) with (last_ b2 - last_ b) in Hs by lia.
  split_and!; [done|lia|lia|nia].
Qed.

(** C39: The rate contract.  Over any sequence of [acquire] calls, whatever the
    clock readings (repeated, or running backwards), an enabled bucket admits at
    most its burst capacity plus [rate] per whole refill interval between its
    initialisation and the latest reading; the stored tokens never leave
    [0..capacity], even where the 64-bit product of the gain wraps. *)
Theorem rate_bound (r : RateLimitRule) (t0 : Z) (nows : list Z) :
  rule_ok r -> enabled r = true ->
  let res := acquire_all (bucket_init r t0) nows in
  0 <= tokens_ res.2 <= capacity r /\
  res.1 <= capacity r + rate r * ((fold_left Z.max nows t0 - t0) / refill_interval r).
Proof.
  intros Hr He. assert (Hb : bucket_ok r (bucket_init r t0)).
  { split; [done|]. destruct Hr as ([? ?] & _). simpl. lia. }
  destruct (acquire_all_spec r nows _ Hr He Hb) as ([_ Ht] & Hl & Hc). cbv zeta. split; [done|].
  destruct Hr as (_ & [Hrate _] & Hi). simpl in *.
  assert (Hd : (last_ (acquire_all (bucket_init r t0) nows).2 - t0) / refill_interval r
            <= (fold_left Z.max nows t0 - t0) / refill_interval r) by (apply Z.div_le_mono; lia).
  nia.
Qed.

(** Capacity 2, one token per 10 ticks: the two burst tokens, then one at 15. *)
Lemma rate_bound_witness :
  (acquire_all (bucket_init (mkRule 2 1 10 true) 0) [0; 3; 4; 15; 16; 19]).1 = 3 /\
  3 <= 2 + 1 * (19 / 10).
Proof.
  split; [reflexivity|].
  pose proof (rate_bound (mkRule 2 1 10 true) 0 [0; 3; 4; 15; 16; 19]) as H.
  destruct H as [_ H]; [unfold rule_ok, in_u; simpl; lia|reflexivity|exact H].
Defined.

(** The refill product wraps: with a rate of 2^63 tokens per interval, two
    elapsed intervals add nothing at all, and the drained bucket stays closed
    although the rule grants 2^64 tokens; one elapsed interval fills it. *)
Theorem refill_product_wraps :
  let r := mkRule 1000 (2 ^ 63) 10 true in
  let drained := mkBucket r 0 0 in
  (acquire drained 10).1 = true /\ tokens_ (refill drained 10) = 1000 /\
  (acquire drained 20).1 = false /\ tokens_ (refill drained 20) = 0.
Proof. vm_compute. split_and!; reflexivity. Qed.

(** ** The merge cell *)

Inductive MergeCellState := Empty | Publishing | Published | Merging | Consuming.

#[export] Instance MergeCellState_eq_dec : EqDecision MergeCellState.
Proof. solve_decision. Defined.

(** [event_] is an event address; [None] is [nullptr]. *)
Record MergeCell := mkCell { cstate : MergeCellState; cevent : option Z }.

Definition cell_init : MergeCell := mkCell Empty None.

(** [compare_exchange_strong] on the state word. *)
Definition cell_cas (c : MergeCell) (expected desired : MergeCellState) : bool * MergeCell :=
  if bool_decide (cstate c = expected) then (true, mkCell desired (cevent c)) else (false, c).

(** The program point of a thread inside an operation: the pending accesses. *)
Inductive cell_pc :=
| CIdle
| CPubWrite (e : Z)     (* try_publish: claimed, [event_ = e] pending *)
| CPubStore (e : Z)     (* try_publish: store of Published pending *)
| CMergeRead            (* try_acquire_merge: claimed, read of [event_] pending *)
| CMergeHeld (o : option Z)    (* payload being overwritten, release_merge pending *)
| CTakeRead             (* take_owning: claimed, read of [event_] pending *)
| CTakeHeld (o : option Z)     (* handle owned, event_gc and release_empty pending *)
| CEmptyCas.            (* release_empty: [event_ = nullptr] written, CAS pending *)

(** What an operation hands to its caller; the handle read is whatever the
    pointer field holds. *)
Inductive cell_event := EPublish (e : Z) | EMerge (queued : option Z) | ETake (out : option Z).

Record cell_sys := mkSys { cell : MergeCell; pcs : nat -> cell_pc }.

Inductive cell_step : cell_sys -> option cell_event -> cell_sys -> Prop :=
| cs_pub_claim c ps t e c' :
    ps t = CIdle -> cell_cas c Empty Publishing = (true, c') ->
    cell_step (mkSys c ps) None (mkSys c' (<[t := CPubWrite e]> ps))
| cs_pub_write c ps t e :
    ps t = CPubWrite e ->
    cell_step (mkSys c ps) None (mkSys (mkCell (cstate c) (Some e)) (<[t := CPubStore e]> ps))
| cs_pub_store c ps t e :
    ps t = CPubStore e ->
    cell_step (mkSys c ps) (Some (EPublish e)) (mkSys (mkCell Published (cevent c)) (<[t := CIdle]> ps))
| cs_merge_claim c ps t c' :
    ps t = CIdle -> cell_cas c Published Merging = (true, c') ->
    cell_step (mkSys c ps) None (mkSys c' (<[t := CMergeRead]> ps))
| cs_merge_read c ps t :
    ps t = CMergeRead ->
    cell_step (mkSys c ps) (Some (EMerge (cevent c))) (mkSys c (<[t := CMergeHeld (cevent c)]> ps))
| cs_merge_release c ps t o :
    ps t = CMergeHeld o ->
    cell_step (mkSys c ps) None (mkSys (cell_cas c Merging Published).2 (<[t := CIdle]> ps))
| cs_take_claim c ps t c' :
    ps t = CIdle -> cell_cas c Published Consuming = (true, c') ->
    cell_step (mkSys c ps) None (mkSys c' (<[t := CTakeRead]> ps))
| cs_take_read c ps t :
    ps t = CTakeRead ->
    cell_step (mkSys c ps) (Some (ETake (cevent c))) (mkSys c (<[t := CTakeHeld (cevent c)]> ps))
| cs_empty_write c ps t o :
    ps t = CTakeHeld o ->
    cell_step (mkSys c ps) None (mkSys (mkCell (cstate c) None) (<[t := CEmptyCas]> ps))
| cs_empty_cas c ps t :
    ps t = CEmptyCas ->
    cell_step (mkSys c ps) None (mkSys (cell_cas c Consuming Empty).2 (<[t := CIdle]> ps)).

(** A failed claim reads the word and changes nothing, so it is no step. *)
Lemma cell_cas_false c a b c' : cell_cas c a b = (false, c') -> c' = c.
Proof. unfold cell_cas. case_bool_decide; by intros [= <-]. Qed.

Lemma cell_cas_true c a b c' : cell_cas c a b = (true, c') -> cstate c = a /\ c' = mkCell b (cevent c).
Proof. unfold cell_cas. case_bool_decide; [|done]. by intros [= <-]. Qed.

(** ** A one-place buffer *)

Inductive slot_step : option Z -> option cell_event -> option Z -> Prop :=
| ss_publish e : slot_step None (Some (EPublish e)) (Some e)
| ss_merge e : slot_step (Some e) (Some (EMerge (Some e))) (Some e)
| ss_take e : slot_step (Some e) (Some (ETake (Some e))) None.

(** Who may be inside the cell, and what the buffer then holds. *)
Definition owner_pc (s : MergeCellState) (ev : option Z) (b : option Z) (pc : cell_pc) : Prop :=
  match s, pc with
  | Publishing, CPubWrite _ => b = None
  | Publishing, CPubStore e => b = None /\ ev = Some e
  | Merging, CMergeRead => exists e, ev = Some e /\ b = Some e
  | Merging, CMergeHeld o => ev = o /\ b = o /\ is_Some o
  | Consuming, CTakeRead => exists e, ev = Some e /\ b = Some e
  | Consuming, CTakeHeld o => ev = o /\ b = None /\ is_Some o
  | Consuming, CEmptyCas => ev = None /\ b = None
  | _, _ => False
  end.

Definition cell_rel (s : cell_sys) (b : option Z) : Prop :=
  match cstate (cell s) with
  | Empty => b = None /\ forall t, pcs s t = CIdle
  | Published => (exists e, cevent (cell s) = Some e /\ b = Some e) /\ forall t, pcs s t = CIdle
  | st => exists t, owner_pc st (cevent (cell s)) b (pcs s t) /\ forall t', t' <> t -> pcs s t' = CIdle
  end.

Lemma cell_rel_owner s b t :
  cell_rel s b -> pcs s t <> CIdle ->
  owner_pc (cstate (cell s)) (cevent (cell s)) b (pcs s t) /\ forall t', t' <> t -> pcs s t' = CIdle.
Proof.
  unfold cell_rel. intros Hr Ht. destruct (cstate (cell s)) eqn:Hst;
    try (destruct Hr as (_ & Hid); by rewrite Hid in Ht);
    destruct Hr as (u & Ho & Hid); (destruct (decide (t = u)) as [->|Hne]; [done|by rewrite Hid in Ht]).
Qed.

Lemma others_idle (ps : nat -> cell_pc) t pc :
  (forall t', t' <> t -> ps t' = CIdle) -> forall t', t' <> t -> <[t := pc]> ps t' = CIdle.
Proof. intros H t' Ht. rewrite fn_lookup_insert_ne by done. by apply H. Qed.

Lemma all_idle (ps : nat -> cell_pc) t :
  (forall t', t' <> t -> ps t' = CIdle) -> forall t', <[t := CIdle]> ps t' = CIdle.
Proof. intros H t'. destruct (decide (t' = t)) as [->|]; [by rewrite fn_lookup_insert|]. by apply others_idle. Qed.

Lemma cell_rel_claim c ps b t st pc :
  (forall u, ps u = CIdle) -> owner_pc st (cevent c) b pc ->
  cell_rel (mkSys (mkCell st (cevent c)) (<[t := pc]> ps)) b.
Proof.
  intros Hid Ho. unfold cell_rel. simpl.
  assert (Hex : exists u, owner_pc st (cevent c) b (<[t := pc]> ps u) /\ forall t', t' <> u -> <[t := pc]> ps t' = CIdle).
  { exists t. rewrite fn_lookup_insert. split; [done|]. apply others_idle. auto. }
  destruct st; [by destruct pc|exact Hex|by destruct pc|exact Hex|exact Hex].
Qed.

(** An owner that stays inside moves to its next program point. *)
Lemma cell_rel_move s b c' b' t pc :
  cell_rel s b -> pcs s t <> CIdle -> owner_pc (cstate c') (cevent c') b' pc ->
  cell_rel (mkSys c' (<[t := pc]> (pcs s))) b'.
Proof.
  intros Hr Ht Ho. destruct (cell_rel_owner s b t Hr Ht) as [_ Hid]. destruct c' as [st ev]. simpl in *.
  unfold cell_rel. simpl.
  assert (Hex : exists u, owner_pc st ev b' (<[t := pc]> (pcs s) u) /\ forall t', t' <> u -> <[t := pc]> (pcs s) t' = CIdle).
  { exists t. rewrite fn_lookup_insert. split; [done|]. by apply others_idle. }
  destruct st; [by destruct pc|exact Hex|by destruct pc|exact Hex|exact Hex].
Qed.

(** An owner that leaves puts the cell in a resting state. *)
Lemma cell_rel_leave s b c' b' t :
  cell_rel s b -> pcs s t <> CIdle ->
  (cstate c' = Empty /\ b' = None \/ cstate c' = Published /\ exists e, cevent c' = Some e /\ b' = Some e) ->
  cell_rel (mkSys c' (<[t := CIdle]> (pcs s))) b'.
Proof.
  intros Hr Ht Hc. destruct (cell_rel_owner s b t Hr Ht) as [_ Hid]. unfold cell_rel. simpl.
  destruct Hc as [[-> ->]|[-> Hc]]; (split; [done|by apply all_idle]).
Qed.

Ltac owner_of H Ht :=
  let Ho := fresh "Ho" in
  match type of Ht with ?ps ?t = ?pc =>
    match type of H with cell_rel ?s ?b =>
      destruct (cell_rel_owner s b t H) as [Ho _]; [simpl; by rewrite Ht|];
      simpl in Ho; rewrite Ht in Ho; simpl in Ho
    end
  end.

Lemma cell_step_tau s s' b : cell_rel s b -> cell_step s None s' -> cell_rel s' b.
Proof.
  intros Hr Hst. inversion Hst as [c ps t e c' Ht Hc|c ps t e Ht| |c ps t c' Ht Hc| |c ps t o Ht|c ps t c' Ht Hc| |c ps t o Ht|c ps t Ht];
    subst; clear Hst.
  - apply cell_cas_true in Hc as [Hs ->]. unfold cell_rel in Hr. simpl in Hr. rewrite Hs in Hr.
    destruct Hr as [-> Hid]. by apply cell_rel_claim.
  - apply (cell_rel_move _ _ _ _ _ _ Hr); [simpl; congruence|]. owner_of Hr Ht.
    simpl. destruct (cstate c); try done.
  - apply cell_cas_true in Hc as [Hs ->]. unfold cell_rel in Hr. simpl in Hr. rewrite Hs in Hr.
    destruct Hr as [He Hid]. by apply cell_rel_claim.
  - apply (cell_rel_leave _ _ _ _ _ Hr); [simpl; congruence|]. owner_of Hr Ht. right.
    unfold cell_cas. destruct (cstate c) eqn:Hs; try done. simpl. split; [done|]. destruct Ho as (-> & -> & e & ->). eauto.
  - apply cell_cas_true in Hc as [Hs ->]. unfold cell_rel in Hr. simpl in Hr. rewrite Hs in Hr.
    destruct Hr as [He Hid]. by apply cell_rel_claim.
  - apply (cell_rel_move _ _ _ _ _ _ Hr); [simpl; congruence|]. owner_of Hr Ht.
    simpl. destruct (cstate c); try done. by destruct Ho as (_ & -> & _).
  - apply (cell_rel_leave _ _ _ _ _ Hr); [simpl; congruence|]. owner_of Hr Ht. left.
    unfold cell_cas. destruct (cstate c) eqn:Hs; try done. simpl. by destruct Ho.
Qed.

Lemma cell_step_vis s s' b e :
  cell_rel s b -> cell_step s (Some e) s' -> exists b', slot_step b (Some e) b' /\ cell_rel s' b'.
Proof.
  intros Hr Hst. inversion Hst as [| |c ps t x Ht| |c ps t Ht| | |c ps t Ht| |]; subst; clear Hst.
  - exists (Some x). owner_of Hr Ht. destruct (cstate c) eqn:Hs; try done. destruct Ho as [-> Hev].
    split; [constructor|]. apply (cell_rel_leave _ _ _ _ _ Hr); [simpl; congruence|]. right. simpl. eauto.
  - owner_of Hr Ht. destruct (cstate c) eqn:Hs; try done. destruct Ho as (x & Hx & ->). exists (Some x).
    rewrite Hx. split; [constructor|].
    apply (cell_rel_move _ _ _ _ _ _ Hr); [simpl; congruence|]. rewrite Hs. simpl. eauto.
  - owner_of Hr Ht. destruct (cstate c) eqn:Hs; try done. destruct Ho as (x & Hx & ->). exists None.
    rewrite Hx. split; [constructor|].
    apply (cell_rel_move _ _ _ _ _ _ Hr); [simpl; congruence|]. rewrite Hs. simpl. eauto.
Qed.

(** The merge cell owns exactly one handle at a time.  For any number of
    producers and consumers and any interleaving of their atomic accesses, the
    sequence of published, merged and taken handles is one of a one-place
    buffer: a publish finds it empty, a merge and a take see the handle that was
    published, each published handle is taken at most once, and no two threads
    are ever inside an operation of the cell. *)
Theorem merge_cell_refines_slot (tr : list cell_event) (s : cell_sys) :
  lrun cell_step (mkSys cell_init (fun _ => CIdle)) tr s ->
  (exists b, lrun slot_step None tr b) /\
  forall t1 t2, pcs s t1 <> CIdle -> pcs s t2 <> CIdle -> t1 = t2.
Proof.
  intros Hrun.
  assert (H0 : cell_rel (mkSys cell_init (fun _ => CIdle)) None) by done.
  destruct (lrun_refines cell_step slot_step cell_rel _ None tr s
    (fun x y a => cell_step_tau x y a) (fun x y a e => cell_step_vis x y a e) H0 Hrun) as (b & Hb & Hr).
  split; [by exists b|]. intros t1 t2 H1 H2. destruct (cell_rel_owner s b t1 Hr H1) as [_ Hid].
  destruct (decide (t2 = t1)) as [|Hne]; [done|]. by destruct H2; apply Hid.
Qed.

(** Thread 1 publishes, thread 2 merges into the handle, thread 0 takes it. *)
Lemma merge_cell_refines_slot_witness :
  exists b, lrun slot_step None [EPublish 64; EMerge (Some 64); ETake (Some 64)] b.
Proof.
  pose proof (lrun_nil cell_step (mkSys cell_init (fun _ => CIdle))) as H.
  eapply (lrun_tau cell_step) in H; [|eapply (cs_pub_claim _ _ 1%nat 64); reflexivity].
  eapply (lrun_tau cell_step) in H; [|apply (cs_pub_write _ _ 1%nat 64); reflexivity].
  eapply (lrun_vis cell_step) in H; [|apply (cs_pub_store _ _ 1%nat 64); reflexivity].
  eapply (lrun_tau cell_step) in H; [|eapply (cs_merge_claim _ _ 2%nat); reflexivity].
  eapply (lrun_vis cell_step) in H; [|apply (cs_merge_read _ _ 2%nat); reflexivity].
  eapply (lrun_tau cell_step) in H; [|apply (cs_merge_release _ _ 2%nat (Some 64)); reflexivity].
  eapply (lrun_tau cell_step) in H; [|eapply (cs_take_claim _ _ 0%nat); reflexivity].
  eapply (lrun_vis cell_step) in H; [|apply (cs_take_read _ _ 0%nat); reflexivity].
  exact (proj1 (merge_cell_refines_slot _ _ H)).
Defined.
