(* ===== verification/Admission.v ===== *)
(** * Admission control (include/coact/admission.hpp)

    The compile-time rule table with its checks and generated index, the
    per-target [ArrivalGate] whose every update is one critical section, the
    move-only [ArrivalReservation] handle, and [StaticAdmission] on top.  An
    interleaving of producers is a sequence of gate operations on the handles
    they hold.  [limits_for_resolves_rules] relates the index to the table;
    [arrivals_spaced] is the minimum-interval promise. *)

From S2P Require Import Prelude Vocab.

(** ** Rules *)

Record TargetAdmission := mkRow { target : TargetId; min_arrival : Z; max_backlog : Z }.
Record TargetLimits := mkLimits { lim_min_arrival : Z; lim_max_backlog : Z }.

Definition kMaxMinArrivalNs : Z := 3600000000000.

Definition targets_in_range (max_ao : Z) (rows : list TargetAdmission) : bool :=
  forallb (fun r => negb ((raw (target r) =? 0) || (max_ao <? raw (target r)))) rows.

Fixpoint no_duplicate_targets (rows : list TargetAdmission) : bool :=
  match rows with
  | [] => true
  | r :: rs => forallb (fun r' => negb (target_eqb (target r) (target r'))) rs && no_duplicate_targets rs
  end.

Definition intervals_bounded (rows : list TargetAdmission) : bool :=
  forallb (fun r => min_arrival r <=? kMaxMinArrivalNs) rows.

Definition rules_valid (max_ao : Z) (rows : list TargetAdmission) : bool :=
  targets_in_range max_ao rows && no_duplicate_targets rows && intervals_bounded rows.

(** One row written into the index. *)
Definition put_row (idx : list TargetLimits) (r : TargetAdmission) : list TargetLimits :=
  <[Z.to_nat (raw (target r)) := mkLimits (min_arrival r) (max_backlog r)]> idx.

Definition build_index (max_ao : Z) (rows : list TargetAdmission) : list TargetLimits :=
  fold_left put_row rows (replicate (Z.to_nat max_ao + 1) (mkLimits 0 0)).

(** Slot 0 stands for every out-of-range id. *)
Definition slot_index (max_ao : Z) (t : TargetId) : nat :=
  if raw t <=? max_ao then Z.to_nat (raw t) else 0%nat.

Definition limits_at (max_ao : Z) (rows : list TargetAdmission) (i : nat) : TargetLimits :=
  default (mkLimits 0 0) (build_index max_ao rows !! i).

Definition limits_for (max_ao : Z) (rows : list TargetAdmission) (t : TargetId) : TargetLimits :=
  limits_at max_ao rows (slot_index max_ao t).

Definition backlog_cap (max_ao : Z) (rows : list TargetAdmission) (t : TargetId) : Z :=
  lim_max_backlog (limits_for max_ao rows t).

(** ** The gate *)

Record ArrivalGate := mkGate { last_admit_ns_ : Z; hold_ns_ : Z; holds_ : Z; ever_ : bool }.

Definition gate_ctor : ArrivalGate := mkGate 0 0 0 false.
Definition kMaxHolds : Z := 65535.

Definition try_reserve (g : ArrivalGate) (now min_ns : Z) : bool * ArrivalGate :=
  let held := negb (0 =? holds_ g) in
  let barrier := if held then hold_ns_ g else last_admit_ns_ g in
  if (negb (0 =? min_ns) && (held || ever_ g)) &&
     ((now <? barrier) || (u64 (now - barrier) <? min_ns)) then (false, g)
  else if kMaxHolds =? holds_ g then (false, g)
  else (true, mkGate (last_admit_ns_ g) now (u16 (holds_ g + 1)) (ever_ g)).

Definition release_hold (g : ArrivalGate) : ArrivalGate :=
  if 0 =? holds_ g then g
  else
    let h := u16 (holds_ g - 1) in
    mkGate (last_admit_ns_ g) (if 0 =? h then 0 else hold_ns_ g) h (ever_ g).

Definition gate_commit (g : ArrivalGate) (now : Z) : ArrivalGate :=
  release_hold (mkGate (if last_admit_ns_ g <? now then now else last_admit_ns_ g) (hold_ns_ g) (holds_ g) true).

Definition gate_rollback (g : ArrivalGate) : ArrivalGate := release_hold g.

(** ** Reservations and the static policy *)

(** An [ArrivalReservation] is the gate it points at with its timestamp;
    [None] is a handle whose [gate_] is [nullptr]. *)
Abbreviation Reservation := (option (nat * Z)).

Section policy.
Context (max_ao : Z) (rows : list TargetAdmission).

Definition gates_ctor : list ArrivalGate := replicate (Z.to_nat max_ao + 1) gate_ctor.

Definition reservation_rollback (gs : list ArrivalGate) (r : Reservation) : list ArrivalGate :=
  match r with Some (i, _) => alter gate_rollback i gs | None => gs end.

Definition reservation_commit (gs : list ArrivalGate) (r : Reservation) : list ArrivalGate :=
  match r with Some (i, now) => alter (fun g => gate_commit g now) i gs | None => gs end.

(** [out] is the caller's handle: the move assignment rolls back what it held. *)
Definition reserve (gs : list ArrivalGate) (t : TargetId) (now_ns : Z) (out : Reservation) :
    bool * list ArrivalGate * Reservation :=
  let min_ns := lim_min_arrival (limits_for max_ao rows t) in
  if 0 =? min_ns then (true, reservation_rollback gs out, None)
  else
    let i := slot_index max_ao t in
    let (ok, g) := try_reserve (default gate_ctor (gs !! i)) now_ns min_ns in
    let gs' := <[i := g]> gs in
    if ok : bool then (true, reservation_rollback gs' out, Some (i, now_ns))
    else (false, reservation_rollback gs' out, None).
End policy.

(** ** The index resolves the table *)


Lemma length_put_rows rows idx : length (fold_left put_row rows idx) = length idx.
Proof. revert idx. induction rows as [|r rows IH]; intros idx; simpl; [done|]. by rewrite IH; apply length_insert. Qed.

Lemma put_rows_other rows idx i :
  (forall r, r ∈ rows -> Z.to_nat (raw (target r)) <> i) -> fold_left put_row rows idx !! i = idx !! i.
Proof.
  revert idx. induction rows as [|r rows IH]; intros idx Hn; simpl; [done|].
  rewrite IH by (intros; apply Hn; by right). apply list_lookup_insert_ne, Hn. by left.
Qed.

Lemma targets_in_range_elem max_ao rows r :
  targets_in_range max_ao rows = true -> r ∈ rows -> raw (target r) <> 0 /\ raw (target r) <= max_ao.
Proof.
  unfold targets_in_range. rewrite forallb_forall. intros H Hr. apply list_elem_of_In in Hr.
  specialize (H _ Hr). split_bools. lia.
Qed.

Lemma no_duplicate_head r rows r' :
  no_duplicate_targets (r :: rows) = true -> r' ∈ rows -> target r' <> target r.
Proof.
  simpl. intros [H _]%andb_true_iff Hr Heq. rewrite forallb_forall in H. apply list_elem_of_In in Hr.
  specialize (H _ Hr). apply negb_true_iff in H. rewrite Heq in H.
  assert (target_eqb (target r) (target r) = true) by (by apply target_eqb_eq). congruence.
Qed.

(** Every id of the type is an unsigned byte. *)
Definition rows_typed (rows : list TargetAdmission) : Prop :=
  Forall (fun r => in_u 8 (raw (target r)) /\ in_u 64 (min_arrival r) /\ in_u 16 (max_backlog r)) rows.

Lemma put_rows_row rows idx r :
  rows_typed rows -> no_duplicate_targets rows = true -> r ∈ rows -> raw (target r) < Z.of_nat (length idx) ->
  fold_left put_row rows idx !! Z.to_nat (raw (target r)) = Some (mkLimits (min_arrival r) (max_backlog r)).
Proof.
  intros Ht Hd Hr. revert idx. induction rows as [|x rows IH]; intros idx Hlt; simpl; [by apply not_elem_of_nil in Hr|].
  pose proof (proj1 (Forall_forall _ _) Ht) as Hall.
  destruct (Hall _ Hr) as ([Hr0 _] & _).
  apply elem_of_cons in Hr as [->|Hr].
  - rewrite put_rows_other; [apply list_lookup_insert_eq; lia|]. intros y Hy Heq.
    destruct (Hall y) as ([Hy0 _] & _); [by right|]. apply (no_duplicate_head _ _ _ Hd Hy).
    destruct (target y), (target x); f_equal; simpl in *; lia.
  - apply IH; [by inversion Ht|by simpl in Hd; apply andb_true_iff in Hd as [_ Hd]|done|].
    unfold put_row. by rewrite length_insert.
Qed.

(** The compile-time index answers for the rule table: a target with a row
    gets exactly that row's limits, every other target and every id outside
    [1..kMaxAo] (the invalid target included) gets the all-zero limits that
    disable both checks. *)
Theorem limits_for_resolves_rules (max_ao : Z) (rows : list TargetAdmission) (t : TargetId) :
  0 < max_ao < 256 -> rows_typed rows -> rules_valid max_ao rows = true -> in_u 8 (raw t) ->
  (forall r, r ∈ rows -> target r = t -> limits_for max_ao rows t = mkLimits (min_arrival r) (max_backlog r)) /\
  ((forall r, r ∈ rows -> target r <> t) -> limits_for max_ao rows t = mkLimits 0 0).
Proof.
  intros Hm Ht Hv [Ht0 _]. unfold rules_valid in Hv. split_bools.
  unfold limits_for, limits_at, build_index, slot_index.
  split.
  - intros r Hr <-. destruct (targets_in_range_elem _ _ _ H Hr). rewrite (proj2 (Z.leb_le _ _)) by lia.
    rewrite put_rows_row; [done..|]. rewrite length_replicate. lia.
  - intros Hn. rewrite put_rows_other.
    + by destruct (replicate _ _ !! _) eqn:He; [apply lookup_replicate in He as [-> _]|].
    + intros r Hr. pose proof (proj1 (Forall_forall _ _) Ht r Hr) as ([Hr0 _] & _).
      destruct (targets_in_range_elem _ _ _ H Hr) as [Hr1 Hr2]. specialize (Hn r Hr).
      assert (raw (target r) <> raw t) by (intros Heq; apply Hn; destruct (target r), t; simpl in *; congruence).
      case_test; lia.
Qed.

Definition demo_rows : list TargetAdmission := [mkRow (mkTarget 1) 1000 4; mkRow (mkTarget 3) 0 2].

Lemma limits_for_resolves_rules_witness :
  limits_for 4 demo_rows (mkTarget 3) = mkLimits 0 2 /\ limits_for 4 demo_rows (mkTarget 2) = mkLimits 0 0.
Proof.
  assert (Hty : rows_typed demo_rows) by (unfold rows_typed, demo_rows, in_u; repeat constructor; simpl; lia).
  split.
  - apply (proj1 (limits_for_resolves_rules 4 demo_rows (mkTarget 3) ltac:(lia) Hty eq_refl ltac:(unfold in_u; simpl; lia))
      (mkRow (mkTarget 3) 0 2)); [right; left|reflexivity].
  - apply (proj2 (limits_for_resolves_rules 4 demo_rows (mkTarget 2) ltac:(lia) Hty eq_refl ltac:(unfold in_u; simpl; lia))).
    intros r Hr. repeat (apply elem_of_cons in Hr as [->|Hr]; [done|]). by apply not_elem_of_nil in Hr.
Defined.

(** ** Spacing *)

Fixpoint spaced (m : Z) (l : list Z) : Prop :=
  match l with
  | [] => True
  | x :: l => Forall (fun y => m <= Z.abs (x - y)) l /\ spaced m l
  end.

#[export] Instance spaced_perm m : Proper ((≡ₚ) ==> iff) (spaced m).
Proof.
  assert (Hone : forall l l', l ≡ₚ l' -> spaced m l -> spaced m l').
  { induction 1 as [|x l l' Hp IH|x y l|l l' l'' _ IH1 _ IH2]; simpl; [done| | |by auto].
    - intros [H Hs]. split; [by rewrite <- Hp|auto].
    - intros (H & Hx & Hs). inversion H; subst. split_and!; [|done|done].
      constructor; [|done]. by rewrite <- Z.abs_opp, Z.opp_sub_distr, Z.add_comm, Z.add_opp_r. }
  intros l l' Hp. split; by apply Hone.
Qed.

Lemma spaced_app_r m l l' : spaced m (l ++ l') -> spaced m l'.
Proof. induction l as [|x l IH]; simpl; [done|]. intros [_ H]. auto. Qed.

(** A timestamp that clears everything by [m] on the late side joins. *)
Lemma spaced_cons_late m l b now :
  0 <= m -> (forall y, y ∈ l -> y <= b) -> b + m <= now -> spaced m l -> spaced m (now :: l).
Proof.
  intros Hm Hb Hn Hs. simpl. split; [|done]. apply Forall_forall. intros y Hy. specialize (Hb _ Hy). lia.
Qed.

(** ** The gate invariant

    [live] are the timestamps of the reservations in flight on the gate,
    [done] the committed ones. *)

Record gate_inv (m : Z) (g : ArrivalGate) (live done_ : list Z) : Prop := {
  gi_holds : holds_ g = Z.of_nat (length live);
  gi_max : holds_ g <= kMaxHolds;
  gi_none : live = [] -> hold_ns_ g = 0;
  gi_live : forall t, t ∈ live -> 0 <= t <= hold_ns_ g;
  gi_hold64 : in_u 64 (hold_ns_ g);
  gi_ever : ever_ g = negb (bool_decide (done_ = []));
  gi_last64 : in_u 64 (last_admit_ns_ g);
  gi_done : forall t, t ∈ done_ -> 0 <= t <= last_admit_ns_ g;
  gi_last : done_ <> [] -> last_admit_ns_ g ∈ done_;
  gi_last0 : done_ = [] -> last_admit_ns_ g = 0;
  gi_cross : live <> [] -> forall t, t ∈ done_ -> t <= hold_ns_ g;
  gi_spaced : spaced m (live ++ done_)
}.

#[export] Instance gate_inv_perm m g : Proper ((≡ₚ) ==> (=) ==> iff) (gate_inv m g).
Proof.
  assert (Hone : forall l l' d, l ≡ₚ l' -> gate_inv m g l d -> gate_inv m g l' d).
  { intros l l' d Hp [H1 H2 H3 H4 H5 H6 H7 H8 H9 H10 H11 H12]. split; try done.
    - by rewrite H1, Hp.
    - intros ->. by apply H3, Permutation_nil_r.
    - intros t Ht. apply H4. by rewrite Hp.
    - intros Hn. apply H11. intros ->. apply Hn. symmetry. by apply Permutation_nil_l.
    - by rewrite <- Hp. }
  intros l l' Hp d d' <-. split; by apply Hone.
Qed.

Lemma gate_inv_ctor m : gate_inv m gate_ctor [] [].
Proof.
  split; simpl; try done; try (unfold in_u; lia); by intros ? ?%not_elem_of_nil.
Qed.

Lemma try_reserve_inv m g live done_ now g' :
  0 < m -> in_u 64 now -> gate_inv m g live done_ ->
  try_reserve g now m = (true, g') -> gate_inv m g' (now :: live) done_.
Proof.
  intros Hm Hn Hi. unfold try_reserve.
  rewrite (proj2 (Z.eqb_neq 0 m)) by lia. cbn [negb andb].
  set (held := negb (0 =? holds_ g)). set (barrier := if held then hold_ns_ g else last_admit_ns_ g).
  assert (Hb : in_u 64 barrier) by (unfold barrier; destruct held; apply Hi).
  assert (Hcl : live ++ done_ <> [] -> (held || ever_ g) = true).
  { intros Hne. unfold held. rewrite (gi_ever _ _ _ _ Hi), (gi_holds _ _ _ _ Hi).
    destruct live; [|done]. simpl in *. rewrite bool_decide_eq_false_2; done. }
  assert (Hle : forall y, y ∈ live ++ done_ -> y <= barrier).
  { intros y Hy. unfold barrier, held. rewrite (gi_holds _ _ _ _ Hi).
    destruct live as [|x live]; simpl in *.
    - by apply Hi.
    - apply elem_of_cons in Hy as [->|[Hy|Hy]%elem_of_app].
      + apply (gi_live _ _ _ _ Hi). by left.
      + apply (gi_live _ _ _ _ Hi). by right.
      + apply (gi_cross _ _ _ _ Hi); done. }
  destruct ((held || ever_ g) && ((now <? barrier) || (u64 (now - barrier) <? m))) eqn:Hg; [done|].
  destruct (Z.eqb_spec kMaxHolds (holds_ g)) as [|Hmax]; [done|]. intros [= <-].
  assert (Hlate : live ++ done_ <> [] -> barrier + m <= now).
  { intros Hne. rewrite (Hcl Hne) in Hg. cbn [andb] in Hg. split_bools.
    rewrite wrap_small in * by (unfold in_u in *; lia). lia. }
  assert (Hnow : forall y, y ∈ live ++ done_ -> y <= now).
  { intros y Hy. assert (Hne : live ++ done_ <> []) by (intros E; rewrite E in Hy; by apply not_elem_of_nil in Hy).
    specialize (Hle _ Hy). specialize (Hlate Hne). lia. }
  pose proof (gi_holds _ _ _ _ Hi). pose proof (gi_max _ _ _ _ Hi). unfold kMaxHolds in *.
  split; simpl; try (by apply Hi); try done.
  - rewrite wrap_small by (unfold in_u; lia). lia.
  - rewrite wrap_small by (unfold in_u; lia). unfold kMaxHolds. lia.
  - intros t [->|Ht]%elem_of_cons; [unfold in_u in *; lia|].
    pose proof (gi_live _ _ _ _ Hi t Ht). specialize (Hnow t ltac:(apply elem_of_app; by left)). lia.
  - intros _ t Ht. apply Hnow, elem_of_app. by right.
  - destruct (decide (live ++ done_ = [])) as [->|Hne]; [done|].
    apply (spaced_cons_late m _ barrier); [lia|done|auto|apply Hi].
Qed.

Lemma release_hold_inv m g t live done_ :
  gate_inv m g (t :: live) done_ -> gate_inv m (release_hold g) live done_.
Proof.
  intros Hi. pose proof (gi_holds _ _ _ _ Hi) as Hh. pose proof (gi_max _ _ _ _ Hi) as Hm. simpl in Hh.
  unfold release_hold, kMaxHolds in *. rewrite (proj2 (Z.eqb_neq 0 _)) by lia.
  rewrite wrap_small by (unfold in_u; lia).
  assert (Hsp : spaced m (live ++ done_)) by apply (spaced_app_r m [t]), Hi.
  destruct live as [|x live]; cbn [length] in Hh.
  - rewrite (proj2 (Z.eqb_eq 0 _)) by lia.
    split; simpl; try (by apply Hi); try done; try (unfold in_u, kMaxHolds; lia);
      by intros ? ?%not_elem_of_nil.
  - rewrite (proj2 (Z.eqb_neq 0 _)) by lia.
    split; cbn [holds_ hold_ns_ last_admit_ns_ ever_ length]; try (by apply Hi); try done; try lia.
    + unfold kMaxHolds. lia.
    + intros y Hy. apply (gi_live _ _ _ _ Hi). by right.
    + intros _. by apply (gi_cross _ _ _ _ Hi).
Qed.

Lemma gate_commit_unfold g t :
  gate_commit g t =
  let r := release_hold g in
  mkGate (if last_admit_ns_ r <? t then t else last_admit_ns_ r) (hold_ns_ r) (holds_ r) true.
Proof. unfold gate_commit, release_hold. cbn [holds_ hold_ns_ last_admit_ns_ ever_]. by destruct (0 =? holds_ g). Qed.

Lemma record_commit_inv m g t live done_ :
  gate_inv m g live done_ -> in_u 64 t -> (live <> [] -> t <= hold_ns_ g) -> spaced m (live ++ t :: done_) ->
  gate_inv m (mkGate (if last_admit_ns_ g <? t then t else last_admit_ns_ g) (hold_ns_ g) (holds_ g) true) live (t :: done_).
Proof.
  intros Hi Ht Hl Hs. split; simpl; try (by apply Hi); try done.
  - destruct (Z.ltb_spec (last_admit_ns_ g) t); [done|apply Hi].
  - intros y Hy. destruct (Z.ltb_spec (last_admit_ns_ g) t); apply elem_of_cons in Hy as [->|Hy];
      try (pose proof (gi_done _ _ _ _ Hi y Hy)); unfold in_u in *; lia.
  - intros _. destruct (Z.ltb_spec (last_admit_ns_ g) t); [by left|].
    destruct (decide (done_ = [])) as [->|Hne]; [|right; by apply Hi].
    rewrite (gi_last0 _ _ _ _ Hi) in * by done.
    assert (t = 0) as -> by (unfold in_u in *; lia). by left.
  - intros Hne y [->|Hy]%elem_of_cons; [auto|by apply (gi_cross _ _ _ _ Hi)].
Qed.

Lemma release_hold_hold g : holds_ (release_hold g) <> 0 -> hold_ns_ (release_hold g) = hold_ns_ g.
Proof. unfold release_hold. destruct (Z.eqb_spec 0 (holds_ g)); [done|].
  cbn [holds_ hold_ns_]. case_test; [congruence|done]. Qed.

Lemma gate_commit_inv m g t live done_ :
  gate_inv m g (t :: live) done_ -> gate_inv m (gate_commit g t) live (t :: done_).
Proof.
  intros Hi. rewrite gate_commit_unfold. cbv zeta.
  pose proof (gi_live _ _ _ _ Hi t ltac:(by left)) as Ht. pose proof (gi_hold64 _ _ _ _ Hi) as H64.
  pose proof (release_hold_inv _ _ _ _ _ Hi) as Hr. apply record_commit_inv; [done|unfold in_u in *; lia| |].
  - intros Hne. rewrite release_hold_hold; [lia|]. rewrite (gi_holds _ _ _ _ Hr). by destruct live.
  - rewrite <- Permutation_middle. apply Hi.
Qed.

(** ** A system of producers

    [handles] are the reservation handles of the producers, [committed] the log
    of the arrivals that counted.  Each operation is one critical section. *)

Record adm_sys := mkAdm { gates : list ArrivalGate; handles : list Reservation; committed : list (nat * Z) }.

Inductive adm_op :=
| OReserve (h : nat) (t : TargetId) (now : Z)
| OCommit (h : nat)
| ORollback (h : nat).   (* explicit, or the handle's destructor *)

Definition adm_exec (max_ao : Z) (rows : list TargetAdmission) (s : adm_sys) (op : adm_op) : adm_sys :=
  match op with
  | OReserve h t now =>
    match handles s !! h with
    | Some out =>
      let '(_, gs, r) := reserve max_ao rows (gates s) t now out in
      mkAdm gs (<[h := r]> (handles s)) (committed s)
    | None => s
    end
  | OCommit h =>
    match handles s !! h with
    | Some (Some r) => mkAdm (reservation_commit (gates s) (Some r)) (<[h := None]> (handles s)) (r :: committed s)
    | _ => s
    end
  | ORollback h =>
    match handles s !! h with
    | Some r => mkAdm (reservation_rollback (gates s) r) (<[h := None]> (handles s)) (committed s)
    | None => s
    end
  end.

Definition op_typed (op : adm_op) : Prop :=
  match op with OReserve _ t now => in_u 8 (raw t) /\ in_u 64 now | _ => True end.

Definition on_gate (i : nat) (r : nat * Z) : option Z := if bool_decide (r.1 = i) then Some r.2 else None.
Definition live_on (i : nat) (hs : list Reservation) : list Z := omap (fun r => r ≫= on_gate i) hs.
Definition done_on (i : nat) (c : list (nat * Z)) : list Z := omap (on_gate i) c.

(** ** The invariant of the whole policy

    [L i] and [D i] are the live and committed timestamps of gate [i]. *)

Section system.
Context (max_ao : Z) (rows : list TargetAdmission).

Abbreviation min_of i := (lim_min_arrival (limits_at max_ao rows i)).

Definition gates_inv (gs : list ArrivalGate) (L D : nat -> list Z) : Prop :=
  length gs = (Z.to_nat max_ao + 1)%nat /\
  forall i g, gs !! i = Some g -> gate_inv (min_of i) g (L i) (D i).

Lemma gates_inv_perm gs L L' D : (forall i, L i ≡ₚ L' i) -> gates_inv gs L D -> gates_inv gs L' D.
Proof. intros Hp [Hl Hi]. split; [done|]. intros i g Hg. rewrite <- Hp. by apply Hi. Qed.

Definition extra (i : nat) (r : Reservation) : list Z :=
  match r ≫= on_gate i with Some t => [t] | None => [] end.

Lemma extra_hit i t : extra i (Some (i, t)) = [t].
Proof. unfold extra, on_gate. simpl. by rewrite bool_decide_eq_true_2. Qed.

Lemma extra_miss i k t : k <> i -> extra i (Some (k, t)) = [].
Proof. intros. unfold extra, on_gate. simpl. by rewrite bool_decide_eq_false_2. Qed.

Lemma live_split i hs h r : hs !! h = Some r -> live_on i hs ≡ₚ extra i r ++ live_on i (<[h := None]> hs).
Proof.
  intros Hh. unfold extra. destruct (r ≫= on_gate i) as [t|] eqn:Hr.
  - by apply (omap_insert_remove _ _ _ r).
  - simpl. symmetry. unfold live_on. erewrite omap_insert_same; [done|exact Hh|]. by rewrite Hr.
Qed.

Lemma live_put i hs h r r0 :
  hs !! h = Some r0 -> live_on i (<[h := r]> hs) ≡ₚ extra i r ++ live_on i (<[h := None]> hs).
Proof.
  intros Hh. rewrite (live_split i (<[h := r]> hs) h r).
  - by rewrite list_insert_insert_eq.
  - apply list_lookup_insert_eq. by eapply lookup_lt_Some.
Qed.

Lemma rollback_gates gs r L D :
  gates_inv gs (fun i => extra i r ++ L i) D -> gates_inv (reservation_rollback gs r) L D.
Proof.
  intros [Hl Hi]. destruct r as [[k t]|]; [|done]. split; [by simpl; rewrite length_alter|].
  intros i g. simpl. destruct (decide (i = k)) as [->|Hne].
  - rewrite list_lookup_alter_eq. destruct (gs !! k) as [g0|] eqn:Hg; [|done]. intros [= <-].
    specialize (Hi _ _ Hg). rewrite extra_hit in Hi. by eapply release_hold_inv.
  - rewrite list_lookup_alter_ne by done. intros Hg. specialize (Hi _ _ Hg). by rewrite extra_miss in Hi.
Qed.

Lemma commit_gates gs k t L D :
  gates_inv gs (fun i => extra i (Some (k, t)) ++ L i) D ->
  gates_inv (reservation_commit gs (Some (k, t))) L (fun i => extra i (Some (k, t)) ++ D i).
Proof.
  intros [Hl Hi]. split; [by simpl; rewrite length_alter|].
  intros i g. simpl. destruct (decide (i = k)) as [->|Hne].
  - rewrite list_lookup_alter_eq. destruct (gs !! k) as [g0|] eqn:Hg; [|done]. intros [= <-].
    specialize (Hi _ _ Hg). rewrite extra_hit in *. by apply gate_commit_inv.
  - rewrite list_lookup_alter_ne by done. intros Hg. specialize (Hi _ _ Hg). by rewrite extra_miss in *.
Qed.

Lemma slot_index_lt t : 0 <= max_ao -> 0 <= raw t -> (slot_index max_ao t < Z.to_nat max_ao + 1)%nat.
Proof. intros. unfold slot_index. case_test; lia. Qed.

Lemma reserve_gates gs t now out ok gs' r L D :
  0 <= max_ao -> rows_typed rows -> in_u 8 (raw t) -> in_u 64 now ->
  gates_inv gs (fun i => extra i out ++ L i) D ->
  reserve max_ao rows gs t now out = (ok, gs', r) ->
  gates_inv gs' (fun i => extra i r ++ L i) D.
Proof.
  intros Hm Hty [Ht _] Hn Hg. unfold reserve. set (min_ns := lim_min_arrival _).
  assert (H0 : 0 <= min_ns).
  { unfold min_ns, limits_for, limits_at. destruct (build_index _ _ !! _) as [l|] eqn:Hl; [simpl|done].
    revert l Hl. generalize (slot_index max_ao t). intros k.
    assert (Hall : forall rs idx, rows_typed rs -> (forall l, idx !! k = Some l -> 0 <= lim_min_arrival l) ->
      forall l, fold_left put_row rs idx !! k = Some l -> 0 <= lim_min_arrival l).
    { clear. induction rs as [|x rs IH]; intros idx Hrs Hidx; simpl; [done|]. inversion Hrs as [|? ? (_ & [? _] & _) ?]; subst.
      apply IH; [done|]. intros l Hl. apply lookup_insert_cases in Hl as [[_ ->]|[_ Hl]]; [done|by apply Hidx]. }
    apply (Hall rows); [done|]. intros l [-> _]%lookup_replicate. done. }
  destruct (Z.eqb_spec 0 min_ns) as [|Hne].
  { intros [= <- <- <-]. simpl. by apply rollback_gates. }
  pose proof (slot_index_lt t Hm Ht) as Hlt. set (i := slot_index max_ao t) in *.
  destruct Hg as [Hl Hi]. destruct (lookup_lt_is_Some_2 gs i) as [g Hgi]; [lia|]. rewrite Hgi. simpl.
  destruct (try_reserve g now min_ns) as [b g'] eqn:Hr. destruct b; intros [= <- <- <-].
  - apply rollback_gates. split; [by rewrite length_insert|]. intros j x Hx.
    apply lookup_insert_cases in Hx as [[-> ->]|[Hj Hx]].
    + rewrite extra_hit. change ([now] ++ L i) with (now :: L i). rewrite <- Permutation_middle.
      apply (try_reserve_inv _ g); [|done|by apply Hi|done].
      change (min_of i) with min_ns. lia.
    + rewrite (extra_miss j i) by done. by apply Hi.
  - assert (g' = g) as ->.
    { revert Hr. unfold try_reserve. repeat case_match; by intros [= <-]. }
    rewrite list_insert_id by done. simpl. apply rollback_gates. by split.
Qed.

Definition adm_inv (s : adm_sys) : Prop :=
  gates_inv (gates s) (fun i => live_on i (handles s)) (fun i => done_on i (committed s)).

Lemma adm_exec_inv s op :
  0 <= max_ao -> rows_typed rows -> op_typed op -> adm_inv s -> adm_inv (adm_exec max_ao rows s op).
Proof.
  unfold adm_inv. intros Hm Hty Hop Hi. destruct op as [h t now|h|h]; simpl.
  - destruct (handles s !! h) as [out|] eqn:Hh; [|done].
    destruct (reserve max_ao rows (gates s) t now out) as [[ok gs'] r] eqn:Hr. simpl. destruct Hop as [Ht Hn].
    eapply gates_inv_perm; [intros i; symmetry; by eapply live_put|].
    eapply (reserve_gates _ _ _ _ _ _ _ _ _ Hm Hty Ht Hn); [|exact Hr].
    eapply gates_inv_perm; [|exact Hi]. intros i. by apply live_split.
  - destruct (handles s !! h) as [[[k t]|]|] eqn:Hh; [|done|done]. simpl.
    assert (Hd : forall i, done_on i ((k, t) :: committed s) = extra i (Some (k, t)) ++ done_on i (committed s)).
    { intros i. unfold done_on, extra. simpl. by destruct (on_gate i (k, t)). }
    destruct (commit_gates (gates s) k t (fun i => live_on i (<[h := None]> (handles s))) (fun i => done_on i (committed s)))
      as [Hl Hg].
    { eapply gates_inv_perm; [|exact Hi]. intros i. by apply live_split. }
    split; [exact Hl|]. intros i g Hgi. specialize (Hg _ _ Hgi). cbv beta in Hg. rewrite <- Hd in Hg. exact Hg.
  - destruct (handles s !! h) as [r|] eqn:Hh; [|done]. simpl. apply rollback_gates.
    eapply gates_inv_perm; [|exact Hi]. intros i. by apply live_split.
Qed.
End system.

Definition adm_start (max_ao : Z) (n : nat) : adm_sys := mkAdm (gates_ctor max_ao) (replicate n None) [].

Lemma live_on_none i n : live_on i (replicate n None) = [].
Proof. induction n as [|n IH]; [done|]. exact IH. Qed.

Lemma adm_start_inv max_ao rows n : adm_inv max_ao rows (adm_start max_ao n).
Proof.
  split; [apply length_replicate|]. intros i g Hg. apply lookup_replicate in Hg as [-> _]. simpl.
  rewrite live_on_none. apply gate_inv_ctor.
Qed.

(** C9: The minimum-arrival promise, under any interleaving of the producers'
    reserve, commit and rollback sections (overlapping reservations, rollbacks
    in any order, clocks that disagree): two counted arrivals of one target are
    never closer than its configured interval, and each gate is exactly the
    summary of what happened to it: [holds_] is the number of reservations in
    flight, the committed window is the latest counted arrival, and once no
    reservation is in flight no trace of a failed one remains. *)
Theorem arrivals_spaced (max_ao : Z) (rows : list TargetAdmission) (n : nat) (ops : list adm_op) (i : nat) (g : ArrivalGate) :
  0 <= max_ao -> rows_typed rows -> Forall op_typed ops ->
  let s := fold_left (adm_exec max_ao rows) ops (adm_start max_ao n) in
  gates s !! i = Some g ->
  spaced (lim_min_arrival (limits_at max_ao rows i)) (done_on i (committed s)) /\
  holds_ g = Z.of_nat (length (live_on i (handles s))) /\
  ever_ g = negb (bool_decide (done_on i (committed s) = [])) /\
  (forall t, t ∈ done_on i (committed s) -> t <= last_admit_ns_ g) /\
  (done_on i (committed s) <> [] -> last_admit_ns_ g ∈ done_on i (committed s)) /\
  (live_on i (handles s) = [] -> g = mkGate (last_admit_ns_ g) 0 0 (ever_ g)).
Proof.
  intros Hm Hty Hops s Hg. assert (Hinv : adm_inv max_ao rows s).
  { unfold s. clear Hg s. generalize (adm_start_inv max_ao rows n). generalize (adm_start max_ao n) as s.
    induction Hops as [|op ops Hop _ IH]; intros s Hs; simpl; [done|]. apply IH. by apply adm_exec_inv. }
  destruct Hinv as [_ Hinv]. specialize (Hinv _ _ Hg).
  split_and!; [|apply (gi_holds _ _ _ _ Hinv)|apply (gi_ever _ _ _ _ Hinv)| |apply (gi_last _ _ _ _ Hinv)|].
  - eapply spaced_app_r, (gi_spaced _ _ _ _ Hinv).
  - intros t Ht. by apply (gi_done _ _ _ _ Hinv).
  - intros He. pose proof (gi_holds _ _ _ _ Hinv) as Hh. rewrite He in Hh. simpl in Hh.
    pose proof (gi_none _ _ _ _ Hinv He) as Hz. destruct g; simpl in *. by subst.
Qed.

(** Two producers on target 1 (interval 1000): the second reserves, the first
    arrival fails, the second commits; a third arrival 999 later is refused. *)
Lemma arrivals_spaced_witness :
  let s := fold_left (adm_exec 4 demo_rows)
    [OReserve 0 (mkTarget 1) 5000; OReserve 1 (mkTarget 1) 6000; ORollback 0; OCommit 1;
     OReserve 0 (mkTarget 1) 6999; OReserve 0 (mkTarget 1) 7000; OCommit 0] (adm_start 4 2) in
  committed s = [(1%nat, 7000); (1%nat, 6000)] /\ spaced 1000 [7000; 6000].
Proof.
  cbv zeta. split; [reflexivity|].
  refine (proj1 (arrivals_spaced 4 demo_rows 2
    [OReserve 0 (mkTarget 1) 5000; OReserve 1 (mkTarget 1) 6000; ORollback 0; OCommit 1;
     OReserve 0 (mkTarget 1) 6999; OReserve 0 (mkTarget 1) 7000; OCommit 0] 1 (mkGate 7000 0 0 true) _ _ _ _)).
  - lia.
  - unfold rows_typed, demo_rows, in_u; repeat constructor; simpl; lia.
  - repeat constructor; simpl; unfold in_u; try lia; done.
  - reflexivity.
Defined.
