(* ===== verification/Prog.v ===== *)
(** * Programs over component calls

    The coordinator and the dispatcher do their work through calls on other
    components that many threads share (queues, counters, leases, gates).  A
    [prog] is such a function as a tree: a call, then a continuation for every
    answer.  [runs p tr a] lets every answer be anything, so what holds for all
    runs holds whatever the other threads do between two calls; [interp] runs
    the same tree against one concrete state.  [wp] is the proof rule: it walks
    the tree and accumulates what the calls did in a ghost account. *)

From S2P Require Import Prelude.

Section prog.
Context {C : Type} (ans : C -> Type).

Inductive prog (A : Type) : Type :=
| Done (a : A)
| Call (c : C) (k : ans c -> prog A).

Fixpoint pbind {A B} (p : prog A) (f : A -> prog B) : prog B :=
  match p with
  | Done _ a => f a
  | Call _ c k => Call _ c (fun r => pbind (k r) f)
  end.

(** A call with its answer. *)
Definition obs : Type := sigT ans.

Fixpoint runs {A} (p : prog A) (tr : list obs) (a : A) : Prop :=
  match p with
  | Done _ a0 => tr = [] /\ a = a0
  | Call _ c k => exists r tr', tr = existT c r :: tr' /\ runs (k r) tr' a
  end.

Lemma runs_bind_inv {A B} (p : prog A) (f : A -> prog B) tr b :
  runs (pbind p f) tr b -> exists tr1 tr2 a, tr = tr1 ++ tr2 /\ runs p tr1 a /\ runs (f a) tr2 b.
Proof.
  revert tr. induction p as [a|c k IH]; intros tr Hr; simpl in *.
  - exists [], tr, a. done.
  - destruct Hr as (r & tr' & -> & Hk). destruct (IH r tr' Hk) as (t1 & t2 & a & -> & H1 & H2).
    exists (existT c r :: t1), t2, a. eauto 10.
Qed.

(** The sequential reading: a handler performs each call on a state. *)
Section interp.
Context {S : Type} (handle : forall c, S -> outcome (ans c * S)).

Fixpoint interp {A} (p : prog A) (s : S) : outcome (A * S) :=
  match p with
  | Done _ a => mret (a, s)
  | Call _ c k => r ← handle c s; interp (k r.1) r.2
  end.

Lemma interp_bind {A B} (p : prog A) (f : A -> prog B) s :
  interp (pbind p f) s = r ← interp p s; interp (f r.1) r.2.
Proof.
  revert s. induction p as [a|c k IH]; intros s; simpl; [done|].
  destruct (handle c s) as [[r s']|]; simpl; [apply IH|done].
Qed.

(** A sequential run is one of the runs with arbitrary answers. *)
Lemma interp_runs {A} (p : prog A) s a s' :
  interp p s = Ret (a, s') -> exists tr, runs p tr a.
Proof.
  revert s. induction p as [a0|c k IH]; intros s; simpl.
  - intros [= -> ->]. by exists [].
  - destruct (handle c s) as [[r s1]|]; simpl; [|done]. intros Hr. destruct (IH _ _ Hr) as [tr Htr].
    exists (existT c r :: tr). simpl. eauto.
Qed.
End interp.

(** The run in which call [n] is answered by [o n]. *)
Fixpoint play {A} (o : nat -> forall c, ans c) (n : nat) (p : prog A) : list obs * A :=
  match p with
  | Done _ a => ([], a)
  | Call _ c k => let res := play o (S n) (k (o n c)) in (existT c (o n c) :: res.1, res.2)
  end.

Lemma play_runs {A} o n (p : prog A) : runs p (play o n p).1 (play o n p).2.
Proof. revert n. induction p as [a|c k IH]; intros n; simpl; [done|]. eauto. Qed.

(** ** Accounts

    [post g c r] is the account after call [c] was answered [r]. *)
Section wp.
Context {G : Type} (post : G -> forall c, ans c -> G).

Definition account (g : G) (tr : list obs) : G := fold_left (fun g o => post g (projT1 o) (projT2 o)) tr g.

Fixpoint wp {A} (p : prog A) (Q : G -> A -> Prop) (g : G) : Prop :=
  match p with
  | Done _ a => Q g a
  | Call _ c k => forall r, wp (k r) Q (post g c r)
  end.

Lemma wp_call {A} c (k : ans c -> prog A) Q g : (forall r, wp (k r) Q (post g c r)) -> wp (Call _ c k) Q g.
Proof. done. Qed.

Lemma wp_done {A} (a : A) Q g : Q g a -> wp (Done _ a) Q g.
Proof. done. Qed.

Lemma wp_runs {A} (p : prog A) Q g tr a : wp p Q g -> runs p tr a -> Q (account g tr) a.
Proof.
  revert g tr. induction p as [a0|c k IH]; intros g tr Hwp Hr; simpl in *.
  - by destruct Hr as [-> ->].
  - destruct Hr as (r & tr' & -> & Hk). apply (IH r (post g c r)); [apply Hwp|done].
Qed.

Lemma wp_bind {A B} (p : prog A) (f : A -> prog B) Q g :
  wp p (fun g' a => wp (f a) Q g') g -> wp (pbind p f) Q g.
Proof. revert g. induction p as [a|c k IH]; intros g; simpl; [done|]. intros H r. by apply IH. Qed.

Lemma wp_mono {A} (p : prog A) (Q Q' : G -> A -> Prop) g :
  (forall g' a, Q g' a -> Q' g' a) -> wp p Q g -> wp p Q' g.
Proof. intros HQ. revert g. induction p; intros g; simpl; eauto. Qed.
End wp.
End prog.

Arguments Done {C ans A} a.
Arguments Call {C ans A} c k.
Arguments pbind {C ans A B} p f.
