(* ===== verification/Calls.v ===== *)
(** * The calls between the submit path, the dispatcher and their components

    One constructor per call that [coordinator.hpp], [dispatcher.hpp] and
    [timer.hpp] make on an object other threads share; [answer] is its result type.  The components
    behind the calls are modelled in their own files. *)

From S2P Require Import Prelude Vocab Staging Ao Breaker Monitor Admission Prog.

Record PolicyResult := mkPR { accept : bool; try_merge : bool; pr_reason : Z }.

Inductive call :=
(* registry, active objects *)
| RegistryLookup (t : TargetId)
| LeaseState (ao : nat)
| DispatchDirect (ao : nat) (e : Z)
| TryDispatchQueued (ao : nat) (e : Z)
| PendingLoad (ao : nat)
| PendingTryIncrement (ao : nat) (limit : Z)
| PendingIncrement (ao : nat)
| PendingDecrement (ao : nat)
(* event references *)
| PoolAlloc (signal : Z)
| EventGc (e : Z)
| ReclaimRelease (e : Z)
| ReclaimFlush
(* staging *)
| AcquireSubmission
| ReleaseSubmission
| Enqueue (t : TargetId) (e : Z) (cls : PriorityClass) (now_ns : Z) (critical : bool) (adm : StagingAdmission)
| DequeueOne (now_ns : Z)
| BeginBatch
| BatchUsed
| ArmDispatcherWait
| RequestDispatcherWake
| AnyReady
| AnyBuffered
| SubmissionsIdle
| CloseAdmission
(* breaker *)
| DropNonCritical (t : TargetId)
| DirectAllowed (t : TargetId)
| BreakerOn (t : TargetId) (ev : breaker_event)
| BreakerIdleCycle
(* admission *)
| Reserve (t : TargetId) (now_ns : Z)
| ArrivalCommit (r : nat * Z)
| ArrivalRollback (r : nat * Z)
(* policy *)
| Evaluate (t : TargetId) (e : Z) (qos : EventQos) (now_ns : Z)
(* monitor *)
| RecordDisposition (d : SubmitDisposition)
| RecordRejection (t : TargetId) (r : RejectReason)
| RecordLeaseContention (t : TargetId)
| RecordOverflow
| RecordPending (t : TargetId) (n : Z)
| RecordSnapshot (t : TargetId) (d : SubmitDisposition) (reason now_ns budget_ns : Z)
(* PAL *)
| MonotonicNs
| EnterDirect
| LeaveDirect
| SignalDispatcher (from_isr : bool)
| WaitDispatcher (timeout_ms : Z)
(* the dispatcher's stop flag *)
| StopLoad
| StopStore.

Definition answer (c : call) : Type :=
  match c with
  | RegistryLookup _ => option nat
  | LeaseState _ => AoRunState
  | DispatchDirect _ _ | TryDispatchQueued _ _ => bool
  | PendingLoad _ => Z
  | PendingTryIncrement _ _ => bool
  | PoolAlloc _ => option Z
  | AcquireSubmission | ReleaseSubmission => bool
  | Enqueue _ _ _ _ _ _ => bool
  | DequeueOne _ => option StagingSlot
  | BatchUsed => Z
  | RequestDispatcherWake | AnyReady | AnyBuffered | SubmissionsIdle => bool
  | DropNonCritical _ | DirectAllowed _ => bool
  | Reserve _ _ => option Reservation   (* [None]: refused; [Some r]: granted with handle [r] *)
  | Evaluate _ _ _ _ => PolicyResult
  | MonotonicNs => Z
  | StopLoad => bool
  | _ => unit
  end.

Abbreviation cprog := (prog answer).

(** [if (cond) call();] *)
Definition pwhen (b : bool) (c : call) : cprog unit :=
  if b then Call c (fun _ => Done tt) else Done tt.

(** [x <- p ;; q] sequences programs, [x <~ c ;; q] makes a call, [c ;;; q]
    makes one and ignores its answer. *)
Declare Scope prog_scope.
Delimit Scope prog_scope with prog.
Notation "x <- p ;; q" := (@pbind call answer _ _ p (fun x => q))
  (at level 100, p at next level, right associativity) : prog_scope.
Notation "x <~ c ;; q" := (@Call call answer _ c (fun x => q))
  (at level 100, c at next level, right associativity) : prog_scope.
Notation "c ;;; q" := (@Call call answer _ c (fun _ => q))
  (at level 100, right associativity) : prog_scope.
