(* ===== verification/Coordinator.v ===== *)
(** * The submit path (include/coact/coordinator.hpp)

    [submit_internal] as a program over the calls of [Calls]: every guard, early
    return and destructor of the source, in its order.  The theorems quantify
    over every answer of every call, so they hold whatever the other producers,
    the dispatcher and the interrupt handlers do in between. *)

From S2P Require Import Prelude Vocab Staging Ao Breaker Monitor Admission Prog Calls.

#[local] Open Scope prog_scope.
#[local] Arguments Z.eqb : simpl never.

Section coordinator.
(** The board configuration; the admission rule table, [None] for
    [NoAdmission]; whether a policy table is bound; the constants of an AO. *)
Context (cfg : Config) (rules : option (list TargetAdmission)) (policy_ops : bool).
Context (priority_class : nat -> PriorityClass) (direct_eligible : nat -> bool) (rtc_budget_ns : nat -> Z).

(** [now_ns] with [now_init]: sampled at most once. *)
Definition sample_now (now : option Z) : cprog Z :=
  match now with Some n => Done n | None => n <~ MonotonicNs ;; Done n end.

Definition admission_min (t : TargetId) : Z :=
  match rules with Some rows => lim_min_arrival (limits_for (kMaxAo cfg) rows t) | None => 0 end.
Definition admission_cap (t : TargetId) : Z :=
  match rules with Some rows => backlog_cap (kMaxAo cfg) rows t | None => 0 end.
Definition admission_enabled : bool := bool_decide (is_Some rules).

Definition submit_commit (arrival : Reservation) : cprog unit :=
  match arrival with Some r => pwhen admission_enabled (ArrivalCommit r) | None => Done tt end.

(** The staging tail: pending, queue publication, wake.  The second component
    of the result is the reservation still held when the scope is left. *)
Definition submit_staged (t : TargetId) (e : Z) (qos : EventQos) (adm : StagingAdmission) (from_isr : bool)
    (ao : nat) (now : option Z) (arrival : Reservation) : cprog (SubmitResult * Reservation) :=
  now <- (if bool_decide (priority_class ao = Low) then n <- sample_now now ;; Done (Some n) else Done now) ;;
  now <- (if admission_enabled && negb (admission_cap t =? 0) then n <- sample_now now ;; Done (Some n) else Done now) ;;
  let now_ns := default 0 now in
  granted <- (if admission_enabled then ok <~ PendingTryIncrement ao (admission_cap t) ;; Done ok
              else PendingIncrement ao ;;; Done true) ;;
  if negb granted then
    EventGc e ;;;
    RecordRejection t kC9BacklogCap ;;;
    RecordDisposition RejectedFull ;;;
    RecordSnapshot t RejectedFull kBacklogFull now_ns (rtc_budget_ns ao) ;;;
    Done (mkSubmit RejectedFull kBacklogFull, arrival)
  else
    queued <~ Enqueue t e (priority_class ao) now_ns (critical qos) adm ;;
    if negb queued then
      PendingDecrement ao ;;;
      EventGc e ;;;
      RecordOverflow ;;;
      BreakerOn t Overflow ;;;
      RecordDisposition RejectedFull ;;;
      _ <- pwhen admission_enabled (RecordSnapshot t RejectedFull kStagingFull now_ns (rtc_budget_ns ao)) ;;
      Done (mkSubmit RejectedFull 0, arrival)
    else
      _ <- submit_commit arrival ;;
      wake <~ RequestDispatcherWake ;;
      _ <- pwhen wake (SignalDispatcher from_isr) ;;
      RecordDisposition Queued ;;;
      n <~ PendingLoad ao ;;
      RecordPending t n ;;;
      Done (mkSubmit Queued 0, None).

(** Direct dispatch, falling through to staging when it is not taken. *)
Definition submit_direct (t : TargetId) (e : Z) (qos : EventQos) (adm : StagingAdmission) (from_isr : bool)
    (ao : nat) (now : option Z) (arrival : Reservation) : cprog (SubmitResult * Reservation) :=
  let staged := submit_staged t e qos adm from_isr ao now arrival in
  try_direct <- (if negb from_isr && direct_eligible ao then ok <~ DirectAllowed t ;; Done ok else Done false) ;;
  if negb try_direct then staged
  else
    st <~ LeaseState ao ;;
    if bool_decide (st = Idle) then
      EnterDirect ;;;
      t0 <~ MonotonicNs ;;
      taken <~ DispatchDirect ao e ;;
      t1 <~ MonotonicNs ;;
      LeaveDirect ;;;
      if taken then
        BreakerOn t (if rtc_budget_ns ao <? u64 (t1 - t0) then DirectTimeout else RtcOk) ;;;
        n <~ PendingLoad ao ;;
        wake <- (if 0 <? n then w <~ RequestDispatcherWake ;; Done w else Done false) ;;
        _ <- pwhen wake (SignalDispatcher false) ;;
        EventGc e ;;;
        RecordDisposition Direct ;;;
        _ <- submit_commit arrival ;;
        Done (mkSubmit Direct 0, None)
      else RecordLeaseContention t ;;; staged
    else RecordLeaseContention t ;;; staged.

(** The arrival gate. *)
Definition submit_gated (t : TargetId) (e : Z) (qos : EventQos) (adm : StagingAdmission) (from_isr : bool)
    (ao : nat) (now : option Z) : cprog (SubmitResult * Reservation) :=
  if admission_enabled && negb (admission_min t =? 0) then
    now_ns <- sample_now now ;;
    r <~ Reserve t now_ns ;;
    match r with
    | None =>
      EventGc e ;;;
      RecordRejection t kC8ArrivalInterval ;;;
      RecordDisposition DroppedRateLimit ;;;
      RecordSnapshot t DroppedRateLimit kArrivalTooSoon now_ns (rtc_budget_ns ao) ;;;
      Done (mkSubmit DroppedRateLimit kArrivalTooSoon, None)
    | Some arrival => submit_direct t e qos adm from_isr ao (Some now_ns) arrival
    end
  else submit_direct t e qos adm from_isr ao now None.

(** Overload guard and policy, inside the submission lease. *)
Definition submit_leased (t : TargetId) (e : Z) (qos : EventQos) (adm : StagingAdmission) (from_isr : bool)
    (ao : nat) : cprog (SubmitResult * Reservation) :=
  drop <- (if negb (critical qos) then d <~ DropNonCritical t ;; Done d else Done false) ;;
  if drop then
    RecordDisposition DroppedOverload ;;; EventGc e ;;; Done (mkSubmit DroppedOverload 0, None)
  else if policy_ops then
    now_ns <~ MonotonicNs ;;
    pr <~ Evaluate t e qos now_ns ;;
    if negb (accept pr) then
      let disp := if negb (0 =? pr_reason pr) then DroppedRateLimit else DroppedPolicy in
      RecordRejection t kC7Context ;;;
      RecordDisposition disp ;;;
      EventGc e ;;;
      Done (mkSubmit disp (pr_reason pr), None)
    else submit_gated t e qos adm from_isr ao (Some now_ns)
  else submit_gated t e qos adm from_isr ao None.

(** Scope exit: [~SubmissionLease], then [~ArrivalReservation]. *)
Definition submit_exit (from_isr : bool) (r : SubmitResult * Reservation) : cprog SubmitResult :=
  last <~ ReleaseSubmission ;;
  _ <- pwhen last (SignalDispatcher from_isr) ;;
  match r.2 with Some h => ArrivalRollback h ;;; Done r.1 | None => Done r.1 end.

Definition submit_internal (t : TargetId) (e : Z) (qos : EventQos) (adm : StagingAdmission) (from_isr : bool) :
    cprog SubmitResult :=
  ao <~ RegistryLookup t ;;
  match ao with
  | None => EventGc e ;;; Done (mkSubmit RejectedState 0)
  | Some ao =>
    if negb (admission_valid cfg (priority_class ao) adm) then
      EventGc e ;;; RecordDisposition RejectedState ;;; Done (mkSubmit RejectedState 0)
    else
      admitted <~ AcquireSubmission ;;
      if negb admitted then
        EventGc e ;;; RecordDisposition RejectedState ;;; Done (mkSubmit RejectedState 0)
      else
        r <- submit_leased t e qos adm from_isr ao ;;
        submit_exit from_isr r
  end.

Definition submit_from_task (t : TargetId) (e : Z) (qos : EventQos) (adm : StagingAdmission) : cprog SubmitResult :=
  submit_internal t e qos adm false.
Definition try_submit_from_isr (t : TargetId) (e : Z) (qos : EventQos) (adm : StagingAdmission) : cprog SubmitResult :=
  submit_internal t e qos adm true.
End coordinator.

(** ** What a submission did

    The account of one submission, updated call by call. *)

Record acct := mkAcct {
  owned : bool;          (* the submission still holds the event reference *)
  gcs : nat;             (* references given back *)
  staged_n : nat;        (* successful queue publications *)
  ran : nat;             (* direct run-to-completion steps taken *)
  in_lease : bool;       (* inside the submission lease *)
  leases_n : nat;        (* leases taken *)
  pend : Z;              (* net change of the AO's pending counter *)
  holding : Reservation; (* the live arrival reservation *)
  committed_n : nat; rolled_n : nat; reserved_n : nat;
  owed : nat;            (* wake tokens won and not yet signalled *)
  requests : nat;        (* wake requests made after publication *)
  in_direct : bool;      (* between enter_direct and leave_direct *)
  recorded : list SubmitDisposition;
  misuse : bool          (* a call outside its protocol *)
}.

Definition acct0 : acct := mkAcct true 0 0 0 false 0 0 None 0 0 0 0 0 false [] false.

(** [from_isr] tells which signal is the right one and forbids direct runs. *)
Definition post (from_isr : bool) (e : Z) (g : acct) (c : call) : answer c -> acct :=
  let '(mkAcct ow gc st rn il ln pd hd cn rb rs od rq di rc mu) := g in
  match c with
  | EventGc x => fun _ => mkAcct false (S gc) st rn il ln pd hd cn rb rs od rq di rc (mu || negb ow || negb (x =? e))
  | Enqueue _ x _ _ _ _ => fun ok =>
      mkAcct (if ok then false else ow) gc (if ok then S st else st) rn il ln pd hd cn rb rs od rq di rc
        (mu || negb ow || negb il || negb (x =? e) || negb (pd =? 1))
  | DispatchDirect _ x => fun taken =>
      mkAcct ow gc st (if taken then S rn else rn) il ln pd hd cn rb rs od rq di rc
        (mu || negb ow || negb il || negb di || from_isr || negb (x =? e))
  | Evaluate _ x _ _ => fun _ => mkAcct ow gc st rn il ln pd hd cn rb rs od rq di rc (mu || negb ow || negb (x =? e))
  | AcquireSubmission => fun ok => mkAcct ow gc st rn ok (if ok then S ln else ln) pd hd cn rb rs od rq di rc (mu || il)
  | ReleaseSubmission => fun last =>
      mkAcct ow gc st rn false ln pd hd cn rb rs (if last then S od else od) rq di rc (mu || negb il)
  | PendingTryIncrement _ _ => fun ok =>
      mkAcct ow gc st rn il ln (if ok then pd + 1 else pd) hd cn rb rs od rq di rc (mu || negb il)
  | PendingIncrement _ => fun _ => mkAcct ow gc st rn il ln (pd + 1) hd cn rb rs od rq di rc (mu || negb il)
  | PendingDecrement _ => fun _ => mkAcct ow gc st rn il ln (pd - 1) hd cn rb rs od rq di rc (mu || negb il)
  | Reserve _ _ => fun r =>
      mkAcct ow gc st rn il ln pd (mjoin r) cn rb (match r with Some (Some _) => S rs | _ => rs end) od rq di rc
        (mu || bool_decide (is_Some hd))
  | ArrivalCommit r => fun _ =>
      mkAcct ow gc st rn il ln pd None (S cn) rb rs od rq di rc (mu || negb (bool_decide (hd = Some r)))
  | ArrivalRollback r => fun _ =>
      mkAcct ow gc st rn il ln pd None cn (S rb) rs od rq di rc (mu || negb (bool_decide (hd = Some r)))
  | RequestDispatcherWake => fun won =>
      mkAcct ow gc st rn il ln pd hd cn rb rs (if won then S od else od) (if negb ow && (0 <? st)%nat then S rq else rq) di rc mu
  | SignalDispatcher isr => fun _ =>
      mkAcct ow gc st rn il ln pd hd cn rb rs (od - 1) rq di rc (mu || bool_decide (od = 0%nat) || negb (Bool.eqb isr from_isr))
  | EnterDirect => fun _ => mkAcct ow gc st rn il ln pd hd cn rb rs od rq true rc (mu || di)
  | LeaveDirect => fun _ => mkAcct ow gc st rn il ln pd hd cn rb rs od rq false rc (mu || negb di)
  | RecordDisposition d => fun _ => mkAcct ow gc st rn il ln pd hd cn rb rs od rq di (rc ++ [d]) mu
  | WaitDispatcher _ | ReclaimRelease _ | ReclaimFlush | DequeueOne _ | TryDispatchQueued _ _ | PoolAlloc _ =>
      fun _ => mkAcct ow gc st rn il ln pd hd cn rb rs od rq di rc true
  | _ => fun _ => g
  end.

Definition submit_account (from_isr : bool) (e : Z) (tr : list (obs answer)) : acct :=
  account answer (post from_isr e) acct0 tr.

Definition admitted_disp (d : SubmitDisposition) : bool :=
  match d with Direct | Queued => true | _ => false end.

(** The account every submission with result [r] ends with; [bound] is whether
    the target resolved, [ln] and [rs] what it was granted on the way. *)
Definition settled_account (r : SubmitResult) (bound : bool) (ln rs : nat) : acct :=
  let d := disposition r in
  let q := bool_decide (d = Queued) in
  mkAcct false (if q then 0 else 1) (if q then 1 else 0) (if bool_decide (d = Direct) then 1 else 0)
    false ln (if q then 1 else 0) None
    (if admitted_disp d then rs else 0) (if admitted_disp d then 0 else rs) rs
    0 (if q then 1 else 0) false (if bound then [d] else []) false.

Lemma held_self (r : nat * Z) : bool_decide (Some r = Some r) = true.
Proof. by apply bool_decide_eq_true_2. Qed.

(** Symbolic execution of a program: one answer, one branch at a time; a leaf
    compares the account reached with the one claimed. *)
Ltac wp_leaf := simpl; rewrite ?Z.eqb_refl, ?Bool.eqb_reflx, ?held_self; simpl; try done.
Ltac wp_step :=
  match goal with
  | |- forall _ : bool, _ => intros []
  | |- forall _ : unit, _ => intros []
  | |- forall _, _ => intros ?
  | |- wp _ _ (pbind _ _) _ _ => apply wp_bind
  | |- wp _ _ (if ?b then _ else _) _ _ => destruct b eqn:?
  | |- wp _ _ (match ?x with _ => _ end) _ _ => destruct x eqn:?
  end; simpl.
Ltac wp_go := simpl; repeat wp_step.

Section accounts.
Context (cfg : Config) (rules : option (list TargetAdmission)) (policy_ops : bool).
Context (priority_class : nat -> PriorityClass) (direct_eligible : nat -> bool) (rtc_budget_ns : nat -> Z).
Context (from_isr : bool) (e : Z).

Abbreviation swp := (wp answer (post from_isr e)).

Definition holds_of (h : Reservation) : nat := match h with Some _ => 1 | None => 0 end.

(** Inside the lease, holding [h], nothing else done yet. *)
Definition entered (h : Reservation) : acct :=
  mkAcct true 0 0 0 true 1 0 h 0 0 (holds_of h) 0 0 false [] false.

(** At scope exit with result [r]; [h] was reserved. *)
Definition leaving (h : Reservation) (g : acct) (r : SubmitResult * Reservation) : Prop :=
  let d := disposition r.1 in
  let q := bool_decide (d = Queued) in
  r.2 = (if admitted_disp d then None else h) /\
  g = mkAcct false (if q then 0 else 1) (if q then 1 else 0) (if bool_decide (d = Direct) then 1 else 0)
        true 1 (if q then 1 else 0) r.2 (if admitted_disp d then holds_of h else 0) 0 (holds_of h)
        0 (if q then 1 else 0) false [d] false.

Lemma sample_now_wp now (Q : acct -> Z -> Prop) g : (forall n, Q g n) -> swp (sample_now now) Q g.
Proof. intros HQ. destruct now, g; simpl; auto. Qed.

Lemma submit_staged_wp t qos adm ao now h :
  (is_Some h -> admission_enabled rules = true) ->
  swp (submit_staged cfg rules priority_class rtc_budget_ns t e qos adm from_isr ao now h) (leaving h) (entered h).
Proof.
  intros Hen. unfold submit_staged. apply wp_bind.
  assert (Hnow : forall (b : bool) nw (Q : acct -> option Z -> Prop) g, (forall n, Q g n) ->
    swp (if b then pbind (sample_now nw) (fun n => Done (Some n)) else Done nw) Q g).
  { intros b nw Q g HQ. destruct b; [|apply HQ]. apply wp_bind, sample_now_wp. intros n. apply HQ. }
  apply Hnow. intros n1. apply wp_bind, Hnow. intros n2. cbv zeta. unfold submit_commit.
  destruct (admission_enabled rules) eqn:Ha; [|destruct h as [h|]; [by discriminate (Hen (mk_is_Some _ _ eq_refl))|]].
  all: wp_go; unfold leaving; wp_leaf.
Qed.

Lemma submit_direct_wp t qos adm ao now h :
  (is_Some h -> admission_enabled rules = true) ->
  swp (submit_direct cfg rules priority_class direct_eligible rtc_budget_ns t e qos adm from_isr ao now h)
    (leaving h) (entered h).
Proof.
  intros Hen. pose proof (submit_staged_wp t qos adm ao now h Hen) as Hst. unfold submit_direct.
  destruct from_isr; [exact Hst|]. cbn [negb andb].
  destruct (direct_eligible ao); [|exact Hst]. simpl. intros []; [|exact Hst]. simpl. intros st.
  case_bool_decide; [|intros []; exact Hst]. simpl. intros _ t0 [] t1 []; rewrite Z.eqb_refl; [|intros []; exact Hst].
  unfold submit_commit.
  destruct (admission_enabled rules) eqn:Ha; [|destruct h as [h|]; [by discriminate (Hen (mk_is_Some _ _ eq_refl))|]].
  all: wp_go; unfold leaving; wp_leaf.
Qed.

Lemma submit_gated_wp t qos adm ao now :
  swp (submit_gated cfg rules priority_class direct_eligible rtc_budget_ns t e qos adm from_isr ao now)
    (fun g r => exists h, leaving h g r) (entered None).
Proof.
  unfold submit_gated. destruct (admission_enabled rules) eqn:Ha; cbn [andb].
  - destruct (negb _).
    + apply wp_bind, sample_now_wp. intros n. simpl. intros [h|]; simpl.
      * eapply wp_mono; [intros g r Hg; exists h; exact Hg|].
        pose proof (submit_direct_wp t qos adm ao (Some n) h ltac:(done)) as Hd. by destruct h.
      * intros _ _ _ _. exists None. unfold leaving. wp_leaf.
    + eapply wp_mono; [intros g r Hg; exists None; exact Hg|]. by apply submit_direct_wp.
  - eapply wp_mono; [intros g r Hg; exists None; exact Hg|]. apply submit_direct_wp. by intros [? ?].
Qed.

Lemma submit_leased_wp t qos adm ao :
  swp (submit_leased cfg rules policy_ops priority_class direct_eligible rtc_budget_ns t e qos adm from_isr ao)
    (fun g r => exists h, leaving h g r) (entered None).
Proof.
  unfold submit_leased. apply wp_bind.
  assert (Hrest : swp (if policy_ops then now_ns <~ MonotonicNs ;; pr <~ Evaluate t e qos now_ns ;;
    if negb (accept pr) then
      let disp := if negb (0 =? pr_reason pr) then DroppedRateLimit else DroppedPolicy in
      RecordRejection t kC7Context ;;; RecordDisposition disp ;;; EventGc e ;;;
      Done (mkSubmit disp (pr_reason pr), None)
    else submit_gated cfg rules priority_class direct_eligible rtc_budget_ns t e qos adm from_isr ao (Some now_ns)
    else submit_gated cfg rules priority_class direct_eligible rtc_budget_ns t e qos adm from_isr ao None)
    (fun g r => exists h, leaving h g r) (entered None)).
  { destruct policy_ops; [|apply submit_gated_wp]. simpl. intros n pr. rewrite Z.eqb_refl. simpl.
    destruct (accept pr); simpl; [apply submit_gated_wp|]. intros _ _ _. exists None. unfold leaving. simpl.
    rewrite Z.eqb_refl. by destruct (negb (0 =? pr_reason pr)). }
  destruct (negb (critical qos)); simpl; [|exact Hrest]. intros [|]; [|exact Hrest].
  simpl. intros _ _. exists None. unfold leaving. wp_leaf.
Qed.

Lemma submit_exit_wp h g r :
  leaving h g r ->
  swp (submit_exit from_isr r) (fun g' res => res = r.1 /\ g' = settled_account r.1 true 1 (holds_of h)) g.
Proof.
  destruct r as [res k]. intros [Hk ->]. simpl in Hk. unfold submit_exit. cbn [snd fst].
  destruct (admitted_disp (disposition res)) eqn:Hd; subst k; [|destruct h as [r0|]];
    wp_go; unfold settled_account; rewrite Hd; wp_leaf.
Qed.

(** What a whole submission leaves behind. *)
Lemma submit_internal_wp t qos adm :
  swp (submit_internal cfg rules policy_ops priority_class direct_eligible rtc_budget_ns t e qos adm from_isr)
    (fun g r => exists bound ln rs, g = settled_account r bound ln rs /\
      (ln <= 1)%nat /\ (rs <= 1)%nat /\
      (bound = true \/ disposition r = RejectedState) /\
      (ln = 0%nat -> disposition r = RejectedState)) acct0.
Proof.
  unfold submit_internal. simpl. intros [ao|]; simpl.
  2: { intros _. exists false, 0%nat, 0%nat. unfold settled_account. simpl. rewrite Z.eqb_refl. split_and!; auto; lia. }
  assert (Hrej : settled_account (mkSubmit RejectedState 0) true 0 0 =
    mkAcct false 1 0 0 false 0 0 None 0 0 0 0 0 false [RejectedState] false) by done.
  destruct (negb (admission_valid _ _ _)); simpl.
  { intros _ _. exists true, 0%nat, 0%nat. rewrite Z.eqb_refl, Hrej. split_and!; auto; lia. }
  intros []; simpl.
  - apply wp_bind. eapply wp_mono; [|apply submit_leased_wp]. intros g r [h Hl].
    eapply wp_mono; [|by eapply submit_exit_wp]. intros g' res [-> ->].
    exists true, 1%nat, (holds_of h). split_and!; auto; [destruct h; simpl; lia|done].
  - intros _ _. exists true, 0%nat, 0%nat. rewrite Z.eqb_refl, Hrej. split_and!; auto; lia.
Qed.
End accounts.

Section submit_theorems.
Context (cfg : Config) (rules : option (list TargetAdmission)) (policy_ops : bool).
Context (priority_class : nat -> PriorityClass) (direct_eligible : nat -> bool) (rtc_budget_ns : nat -> Z).

Abbreviation submit := (submit_internal cfg rules policy_ops priority_class direct_eligible rtc_budget_ns).

Lemma submit_settles t e qos adm from_isr tr r :
  runs answer (submit t e qos adm from_isr) tr r ->
  exists bound ln rs, submit_account from_isr e tr = settled_account r bound ln rs /\
    (ln <= 1)%nat /\ (rs <= 1)%nat /\ (bound = true \/ disposition r = RejectedState) /\
    (ln = 0%nat -> disposition r = RejectedState).
Proof.
  intros Hr.
  exact (wp_runs answer (post from_isr e) _ _ _ _ _
    (submit_internal_wp cfg rules policy_ops priority_class direct_eligible rtc_budget_ns from_isr e t qos adm) Hr).
Qed.

(** C1: The event reference is accounted for exactly once.  Whatever every
    queue, counter, lease, breaker and policy answers along the way, a
    submission ends owning nothing: it gave its reference back exactly once, or
    published the event to staging exactly once and reported [Queued]; it ran
    the event directly exactly when it reports [Direct]; and it never used,
    released or queued the event after giving the reference away. *)
Theorem submit_reference_once t e qos adm from_isr tr r :
  runs answer (submit t e qos adm from_isr) tr r ->
  let g := submit_account from_isr e tr in
  misuse g = false /\ owned g = false /\ (gcs g + staged_n g = 1)%nat /\
  (staged_n g = 1%nat <-> disposition r = Queued) /\
  (ran g = 1%nat <-> disposition r = Direct).
Proof.
  intros Hr. destruct (submit_settles _ _ _ _ _ _ _ Hr) as (b & ln & rs & -> & _). cbv zeta.
  destruct r as [[] z]; simpl; split_and!; done.
Qed.

(** C7: Every scope is left as it was entered, on all paths.  The submission
    lease is released exactly when it was taken; the active object's pending
    count is one higher exactly when the event is queued; a reserved arrival
    window is committed exactly on [Direct] and [Queued] and rolled back
    otherwise; the direct region is closed. *)
Theorem submit_scopes_balanced t e qos adm from_isr tr r :
  runs answer (submit t e qos adm from_isr) tr r ->
  let g := submit_account from_isr e tr in
  misuse g = false /\ in_lease g = false /\ in_direct g = false /\ holding g = None /\
  pend g = (if bool_decide (disposition r = Queued) then 1 else 0) /\
  (committed_n g + rolled_n g = reserved_n g)%nat /\
  (if admitted_disp (disposition r) then rolled_n g = 0%nat else committed_n g = 0%nat) /\
  (leases_n g = 0%nat -> disposition r = RejectedState).
Proof.
  intros Hr. destruct (submit_settles _ _ _ _ _ _ _ Hr) as (b & ln & rs & -> & _ & _ & _ & Hl). cbv zeta.
  destruct r as [[] z]; simpl in *; split_and!; done || lia.
Qed.

(** No wake is lost at the producer side.  After a publication the wake
    latch is requested exactly once; every wake token the submission wins (from
    the latch, or as the last submission of a closing lane) is signalled
    exactly once, through the ISR entry in an ISR and the task entry otherwise;
    an ISR submission never runs an active object; the monitor gets exactly the
    disposition returned, unless the target was never bound. *)
Theorem submit_wakes_and_records t e qos adm from_isr tr r :
  runs answer (submit t e qos adm from_isr) tr r ->
  let g := submit_account from_isr e tr in
  misuse g = false /\ owed g = 0%nat /\ requests g = staged_n g /\
  (recorded g = [disposition r] \/ recorded g = [] /\ disposition r = RejectedState).
Proof.
  intros Hr. destruct (submit_settles _ _ _ _ _ _ _ Hr) as (b & ln & rs & -> & _ & _ & Hb & _). cbv zeta.
  split_and!; [done|done|by simpl; case_bool_decide|]. destruct b; [by left|]. right. by destruct Hb.
Qed.

(** The verdict of the policy, as the ghost state of a run. *)
Definition verdict (g : option PolicyResult) (c : call) : answer c -> option PolicyResult :=
  match c with Evaluate _ _ _ _ => fun pr => Some pr | _ => fun _ => g end.

Definition refused_as (g : option PolicyResult) (r : SubmitResult) : Prop :=
  forall pr, g = Some pr -> accept pr = false ->
  r = mkSubmit (if 0 =? pr_reason pr then DroppedPolicy else DroppedRateLimit) (pr_reason pr).

(** A program that never evaluates a policy keeps the verdict. *)
Fixpoint no_policy {A} (p : cprog A) : Prop :=
  match p with
  | Done _ => True
  | Call c k => (match c with Evaluate _ _ _ _ => False | _ => True end) /\ forall r, no_policy (k r)
  end.

Lemma no_policy_wp {A} (p : cprog A) (Q : option PolicyResult -> A -> Prop) g :
  no_policy p -> (forall a, Q g a) -> wp answer verdict p Q g.
Proof.
  intros Hp HQ. induction p as [a|c k IH]; simpl; [apply HQ|].
  destruct Hp as [Hc Hk]. intros r. replace (verdict g c r) with g by (by destruct c). auto.
Qed.

Lemma no_policy_bind {A B} (p : cprog A) (f : A -> cprog B) :
  no_policy p -> (forall a, no_policy (f a)) -> no_policy (pbind p f).
Proof. intros Hp Hf. induction p as [a|c k IH]; simpl in *; [apply Hf|]. destruct Hp. split; auto. Qed.

Ltac no_policy_go :=
  repeat match goal with
  | |- no_policy (pbind _ _) => apply no_policy_bind
  | |- no_policy (Call _ _) => split; [exact I|]
  | |- no_policy (Done _) => exact I
  | |- forall _, _ => intros ?
  | |- no_policy (if ?b then _ else _) => destruct b
  | |- no_policy (match ?x with _ => _ end) => destruct x
  | |- no_policy (let _ := _ in _) => cbv zeta
  end.

Lemma staged_no_policy t e qos adm isr ao now h :
  no_policy (submit_staged cfg rules priority_class rtc_budget_ns t e qos adm isr ao now h).
Proof. unfold submit_staged, submit_commit, pwhen, sample_now. no_policy_go. Qed.

Lemma gated_no_policy t e qos adm isr ao now :
  no_policy (submit_gated cfg rules priority_class direct_eligible rtc_budget_ns t e qos adm isr ao now).
Proof.
  unfold submit_gated, submit_direct, submit_commit, pwhen, sample_now.
  no_policy_go; apply staged_no_policy.
Qed.

Lemma exit_no_policy isr r : no_policy (submit_exit isr r).
Proof. unfold submit_exit, pwhen. no_policy_go. Qed.

Lemma leased_verdict t e qos adm isr ao :
  wp answer verdict (submit_leased cfg rules policy_ops priority_class direct_eligible rtc_budget_ns t e qos adm isr ao)
    (fun g r => refused_as g r.1) None.
Proof.
  unfold submit_leased. apply wp_bind.
  assert (Hdrop : forall b : bool, wp answer verdict
    (if negb b then d <~ DropNonCritical t ;; Done d else Done false) (fun g _ => g = None) None) by (by intros []).
  eapply wp_mono; [|apply Hdrop]. intros g drop ->. destruct drop; simpl; [by intros _ _ pr|].
  destruct policy_ops; [|apply no_policy_wp; [apply gated_no_policy|done]].
  simpl. intros now pr. destruct (accept pr) eqn:Ha; simpl.
  - apply no_policy_wp; [apply gated_no_policy|]. intros r pr' [= <-]. congruence.
  - intros _ _ _ pr' [= <-] _. simpl. by destruct (0 =? pr_reason pr).
Qed.

Lemma submit_verdict t e qos adm isr : wp answer verdict (submit t e qos adm isr) refused_as None.
Proof.
  unfold submit_internal. simpl. intros [ao|]; simpl; [|by intros _ pr].
  destruct (negb (admission_valid _ _ _)); simpl; [by intros _ _ pr|].
  intros []; simpl; [|by intros _ _ pr]. apply wp_bind. eapply wp_mono; [|apply leased_verdict]. intros g r Hr.
  assert (Hres : wp answer verdict (submit_exit isr r) (fun g' res => g' = g /\ res = r.1) g).
  { unfold submit_exit. simpl. intros last. apply wp_bind. unfold pwhen. destruct last; simpl; [intros _|];
      (destruct r.2; simpl; [intros _|]; done). }
  eapply wp_mono; [|exact Hres]. by intros g' res [-> ->].
Qed.

(** A policy refusal is reported by its reason code alone: reason 0 becomes
    [DroppedPolicy] and every other reason [DroppedRateLimit], so an event the
    policy filtered out ([kReasonFiltered], 1) is reported and counted as
    rate-limited; whatever the policy refuses is dropped with the policy's
    reason code. *)
Theorem policy_refusal_disposition t e qos adm from_isr tr r pr :
  runs answer (submit t e qos adm from_isr) tr r ->
  account answer verdict None tr = Some pr -> accept pr = false ->
  r = mkSubmit (if 0 =? pr_reason pr then DroppedPolicy else DroppedRateLimit) (pr_reason pr).
Proof. intros Hr. apply (wp_runs answer verdict _ _ _ _ _ (submit_verdict t e qos adm from_isr) Hr). Qed.
End submit_theorems.

(** ** References handed out and consumed

    The balance of a longer program: events allocated, and references either
    given back or handed to staging. *)
Definition balance (g : nat * nat) (c : call) : answer c -> nat * nat :=
  match c with
  | PoolAlloc _ => fun r => match r with Some _ => (S g.1, g.2) | None => g end
  | EventGc _ => fun _ => (g.1, S g.2)
  | Enqueue _ _ _ _ _ _ => fun ok => if ok then (g.1, S g.2) else g
  | _ => fun _ => g
  end.

Lemma post_balance from_isr e g c r a k :
  misuse (post from_isr e g c r) = false ->
  misuse g = false /\
  balance (a, k + gcs g + staged_n g)%nat c r =
    (a, k + gcs (post from_isr e g c r) + staged_n (post from_isr e g c r))%nat.
Proof.
  destruct g as [ow gc st rn il ln pd hd cn rb rs od rq di rc mu]. destruct mu.
  - destruct c; simpl in *; try discriminate; repeat case_match; done.
  - intros Hm. split; [done|]. destruct c; simpl in *; try discriminate; try done;
      repeat case_match; simplify_eq/=; f_equal; lia.
Qed.

Lemma account_balance from_isr e tr g a k :
  misuse (account answer (post from_isr e) g tr) = false ->
  misuse g = false /\
  account answer balance (a, k + gcs g + staged_n g)%nat tr =
    (a, k + gcs (account answer (post from_isr e) g tr) + staged_n (account answer (post from_isr e) g tr))%nat.
Proof.
  unfold account. revert g. induction tr as [|[c r] tr IH]; intros g Hm; simpl in *; [done|].
  destruct (IH _ Hm) as [Hm1 Hb]. destruct (post_balance from_isr e g c r a k Hm1) as [? ->]. done.
Qed.

(** ** Sample runs

    An environment that grants everything: the target is bound to AO 0, leases
    and queues accept, the clock reads 5000. *)
Definition granting (c : call) : answer c :=
  match c with
  | RegistryLookup _ => Some 0%nat
  | LeaseState _ => Idle
  | DispatchDirect _ _ | TryDispatchQueued _ _ => true
  | PendingLoad _ => 1
  | PoolAlloc _ => Some 640
  | PendingTryIncrement _ _ => true
  | AcquireSubmission => true
  | ReleaseSubmission => false
  | Enqueue _ _ _ _ _ _ => true
  | DequeueOne _ => None
  | BatchUsed => 0
  | RequestDispatcherWake => true
  | AnyReady | AnyBuffered => false
  | SubmissionsIdle => true
  | DropNonCritical _ => false
  | DirectAllowed _ => true
  | Reserve t now => Some (Some (Z.to_nat (raw t), now))
  | Evaluate _ _ _ _ => mkPR true false 0
  | MonotonicNs => 5000
  | StopLoad => false
  | _ => tt
  end.

(** The same with a full queue. *)
Definition full_queue (c : call) : answer c :=
  match c with Enqueue _ _ _ _ _ _ => false | c => granting c end.

Definition demo_submit (direct : bool) : cprog SubmitResult :=
  submit_internal DefaultConfig (Some demo_rows) true (fun _ => Normal) (fun _ => direct) (fun _ => 100)
    (mkTarget 1) 640 (mkQos false false) Ordinary false.

Lemma submit_reference_once_witness :
  let tr := (play answer (fun _ => granting) 0 (demo_submit false)).1 in
  (gcs (submit_account false 640 tr) + staged_n (submit_account false 640 tr) = 1)%nat.
Proof.
  pose proof (submit_reference_once DefaultConfig (Some demo_rows) true (fun _ => Normal) (fun _ => false) (fun _ => 100)
    (mkTarget 1) 640 (mkQos false false) Ordinary false _ _
    (play_runs answer (fun _ => granting) 0 (demo_submit false))) as H.
  destruct H as (_ & _ & H & _). exact H.
Defined.

(** A full queue: the window is rolled back, the pending count restored. *)
Lemma submit_scopes_balanced_witness :
  let p := play answer (fun _ => full_queue) 0 (demo_submit false) in
  let g := submit_account false 640 p.1 in
  p.2 = mkSubmit RejectedFull 0 /\ reserved_n g = 1%nat /\ committed_n g = 0%nat /\ pend g = 0.
Proof.
  pose proof (submit_scopes_balanced DefaultConfig (Some demo_rows) true (fun _ => Normal) (fun _ => false) (fun _ => 100)
    (mkTarget 1) 640 (mkQos false false) Ordinary false _ _
    (play_runs answer (fun _ => full_queue) 0 (demo_submit false))) as H.
  cbv zeta. split_and!; [reflexivity|reflexivity|apply H|apply H].
Defined.

(** A direct run: the event is released, the waiting dispatcher woken. *)
Lemma submit_wakes_and_records_witness :
  let p := play answer (fun _ => granting) 0 (demo_submit true) in
  p.2 = mkSubmit Direct 0 /\ owed (submit_account false 640 p.1) = 0%nat.
Proof.
  pose proof (submit_wakes_and_records DefaultConfig (Some demo_rows) true (fun _ => Normal) (fun _ => true) (fun _ => 100)
    (mkTarget 1) 640 (mkQos false false) Ordinary false _ _
    (play_runs answer (fun _ => granting) 0 (demo_submit true))) as H.
  cbv zeta. split; [reflexivity|apply H].
Defined.

(** A filtering policy. *)
Definition filtering (c : call) : answer c :=
  match c with Evaluate _ _ _ _ => mkPR false false 1 | c => granting c end.

Lemma policy_refusal_disposition_witness :
  (play answer (fun _ => filtering) 0 (demo_submit false)).2 = mkSubmit DroppedRateLimit 1.
Proof.
  apply (policy_refusal_disposition DefaultConfig (Some demo_rows) true (fun _ => Normal) (fun _ => false) (fun _ => 100)
    (mkTarget 1) 640 (mkQos false false) Ordinary false _ _ (mkPR false false 1)
    (play_runs answer (fun _ => filtering) 0 (demo_submit false))); reflexivity.
Defined.
