(* ===== verification/Dispatcher.v ===== *)
(** * The dispatcher (include/coact/dispatcher.hpp)

    [run] with its batches, the retained (deferred) event that lost the lease of
    its active object, the idle wait and the shutdown drain, as programs over
    the calls of [Calls].  A loop takes fuel and reports [None] when it runs
    out: a theorem for every fuel speaks of every prefix of an endless run. *)

From S2P Require Import Prelude Vocab Staging Ao Breaker Monitor Admission Prog Calls.

#[local] Open Scope prog_scope.
#[local] Arguments Z.eqb : simpl never.

Section dispatcher.
Context (cfg : Config) (rtc_budget_ns : nat -> Z).

Definition try_dispatch_slot (slot : StagingSlot) : cprog bool :=
  let t := s_target slot in
  ao <~ RegistryLookup t ;;
  match ao with
  | Some ao =>
    t0 <~ MonotonicNs ;;
    ok <~ TryDispatchQueued ao (s_event slot) ;;
    if negb ok then Done false
    else
      t1 <~ MonotonicNs ;;
      BreakerOn t (if rtc_budget_ns ao <? u64 (t1 - t0) then RtcTimeout else RtcOk) ;;;
      PendingDecrement ao ;;;
      n <~ PendingLoad ao ;;
      RecordPending t n ;;;
      BreakerOn t DispatchCycle ;;;
      RecordDisposition Queued ;;;
      ReclaimRelease (s_event slot) ;;;
      Done true
  | None => ReclaimRelease (s_event slot) ;;; Done true
  end.

(** The inner loop: the flag [any] and the slot that lost its lease. *)
Fixpoint batch_loop (fuel : nat) (any : bool) : cprog (option (bool * option StagingSlot)) :=
  match fuel with
  | O => Done None
  | S fuel =>
    stop <~ StopLoad ;;
    if stop then Done (Some (any, None))
    else
      used <~ BatchUsed ;;
      if used <? kBatchSizeMax cfg then
        now_ns <~ MonotonicNs ;;
        got <~ DequeueOne now_ns ;;
        match got with
        | None => Done (Some (any, None))
        | Some slot =>
          ok <- try_dispatch_slot slot ;;
          if ok : bool then batch_loop fuel true else Done (Some (true, Some slot))
        end
      else Done (Some (any, None))
  end.

Inductive verdict := Continue (deferred : option StagingSlot) | Break (deferred : option StagingSlot) | OutOfFuel.

(** From the inner loop to the end of the iteration. *)
Definition run_batch (fuel : nat) (any : bool) : cprog verdict :=
  res <- batch_loop fuel any ;;
  match res with
  | None => Done OutOfFuel
  | Some (any, deferred) =>
    ReclaimFlush ;;;
    stop <~ StopLoad ;;
    if stop then Done (Break deferred)
    else match deferred with
    | Some slot =>
      ArmDispatcherWait ;;;
      ok <- try_dispatch_slot slot ;;
      ReclaimFlush ;;;
      if ok : bool then Done (Continue None)
      else WaitDispatcher (kBatchTimeoutMs cfg) ;;; Done (Continue (Some slot))
    | None =>
      if any then Done (Continue None)
      else
        BreakerIdleCycle ;;;
        ArmDispatcherWait ;;;
        ready <~ AnyReady ;;
        if ready then Done (Continue None)
        else WaitDispatcher 0 ;;; Done (Continue None)
    end
  end.

(** The body of the outer [while]. *)
Definition run_iteration (fuel : nat) (deferred : option StagingSlot) : cprog verdict :=
  BeginBatch ;;;
  match deferred with
  | Some slot =>
    ArmDispatcherWait ;;;
    ok <- try_dispatch_slot slot ;;
    if ok : bool then run_batch fuel true
    else ReclaimFlush ;;; WaitDispatcher (kBatchTimeoutMs cfg) ;;; Done (Continue (Some slot))
  | None => run_batch fuel false
  end.

(** One inner batch of the drain; the answer is [released]. *)
Fixpoint drain_batch (fuel : nat) (now_ns : Z) (released : bool) : cprog (option bool) :=
  match fuel with
  | O => Done None
  | S fuel =>
    used <~ BatchUsed ;;
    if used <? kBatchSizeMax cfg then
      got <~ DequeueOne now_ns ;;
      match got with
      | None => Done (Some released)
      | Some slot =>
        ao <~ RegistryLookup (s_target slot) ;;
        _ <- match ao with
             | Some ao => PendingDecrement ao ;;; n <~ PendingLoad ao ;; RecordPending (s_target slot) n ;;; Done tt
             | None => Done tt
             end ;;
        ReclaimRelease (s_event slot) ;;;
        drain_batch fuel now_ns true
      end
    else Done (Some released)
  end.

(** [any_buffered() || !submissions_idle()], short-circuit. *)
Definition drain_pending : cprog bool :=
  b <~ AnyBuffered ;;
  if b then Done true else i <~ SubmissionsIdle ;; Done (negb i).

(** [true]: drained; [false]: out of fuel. *)
Fixpoint drain_loop (fuel : nat) (now_ns : Z) : cprog bool :=
  match fuel with
  | O => Done false
  | S fuel =>
    more <- drain_pending ;;
    if more : bool then
      BeginBatch ;;;
      res <- drain_batch (S fuel) now_ns false ;;
      match res with
      | None => Done false
      | Some released =>
        ReclaimFlush ;;;
        again <- (if negb released then drain_pending else Done false) ;;
        _ <- pwhen again (WaitDispatcher (kBatchTimeoutMs cfg)) ;;
        drain_loop fuel now_ns
      end
    else Done true
  end.

Definition drain_queued_on_stop (fuel : nat) : cprog bool :=
  now_ns <~ MonotonicNs ;; drain_loop fuel now_ns.

(** After the loop: the retained event, then the drain. *)
Definition run_exit (fuel : nat) (deferred : option StagingSlot) : cprog bool :=
  _ <- match deferred with
       | Some slot =>
         ao <~ RegistryLookup (s_target slot) ;;
         _ <- match ao with Some ao => PendingDecrement ao ;;; Done tt | None => Done tt end ;;
         ReclaimRelease (s_event slot) ;;;
         ReclaimFlush ;;; Done tt
       | None => Done tt
       end ;;
  drain_queued_on_stop fuel.

Fixpoint run_loop (fuel : nat) (deferred : option StagingSlot) : cprog bool :=
  match fuel with
  | O => Done false
  | S fuel =>
    stop <~ StopLoad ;;
    if stop then run_exit (S fuel) deferred
    else
      v <- run_iteration (S fuel) deferred ;;
      match v with
      | Continue d => run_loop fuel d
      | Break d => run_exit (S fuel) d
      | OutOfFuel => Done false
      end
  end.

(** [true]: [run] returned; [false]: still going when the fuel ended. *)
Definition dispatcher_run (fuel : nat) : cprog bool := run_loop fuel None.

Definition request_stop : cprog unit :=
  CloseAdmission ;;; StopStore ;;; SignalDispatcher false ;;; Done tt.
End dispatcher.

(** ** What a run did *)

Inductive latch := Disarmed | Armed | ArmedEmpty | ArmedBusy.

#[export] Instance latch_eq_dec : EqDecision latch.
Proof. solve_decision. Defined.

Record dacct := mkD {
  cur : option StagingSlot;         (* dequeued, not yet released *)
  looked : option (option nat);     (* what its target resolved to *)
  decremented : bool;               (* its pending count was given back *)
  taken : list StagingSlot;         (* everything dequeued, in order *)
  released : list Z;                (* every reference released, in order *)
  executed : list (nat * Z);        (* run-to-completion steps: AO, event *)
  unflushed : bool;                 (* released since the last flush *)
  latch_ : latch;                   (* wake latch, as the dispatcher left it *)
  faulty : bool                     (* a call outside its protocol *)
}.

Definition dacct0 : dacct := mkD None None false [] [] [] false Disarmed false.

Definition owns (c : option StagingSlot) (e : Z) : bool :=
  match c with Some s => s_event s =? e | None => false end.

(** Sleeping is sound when nothing released is held back and either a retained
    event was retried after arming, for a bounded time, or nothing was ready
    after arming; the shutdown drain may also sleep for a bounded time. *)
Definition may_sleep (g : dacct) (timeout_ms : Z) : bool :=
  negb (unflushed g) &&
  match cur g with
  | Some _ => bool_decide (latch_ g = ArmedBusy)
  | None => negb (timeout_ms =? 0) || bool_decide (latch_ g = ArmedEmpty)
  end.

Definition dpost (g : dacct) (c : call) : answer c -> dacct :=
  let '(mkD cu lk de tk rl ex uf la fa) := g in
  match c with
  | RegistryLookup t => fun r =>
      match cu with Some s => if target_eqb (s_target s) t then mkD cu (Some r) de tk rl ex uf la fa else g | None => g end
  | TryDispatchQueued ao e => fun ok =>
      mkD cu lk de tk rl (if ok then ex ++ [(ao, e)] else ex) uf
        (if ok then la else match la with Armed => ArmedBusy | l => l end)
        (fa || negb (owns cu e) || negb (bool_decide (lk = Some (Some ao))) || de)
  | PendingDecrement ao => fun _ =>
      mkD cu lk true tk rl ex uf la (fa || negb (bool_decide (lk = Some (Some ao))) || de)
  | ReclaimRelease e => fun _ =>
      mkD None None false tk (rl ++ [e]) ex true la
        (fa || negb (owns cu e) || match lk with Some (Some _) => negb de | Some None => false | None => true end)
  | ReclaimFlush => fun _ => mkD cu lk de tk rl ex false la fa
  | DequeueOne _ => fun got =>
      match got with
      | Some s => mkD (Some s) None false (tk ++ [s]) rl ex uf la (fa || bool_decide (is_Some cu))
      | None => g
      end
  | ArmDispatcherWait => fun _ => mkD cu lk de tk rl ex uf Armed fa
  | AnyReady => fun r =>
      mkD cu lk de tk rl ex uf (match la with Armed => if r then Armed else ArmedEmpty | l => l end) fa
  | WaitDispatcher ms => fun _ => mkD cu lk de tk rl ex uf Disarmed (fa || negb (may_sleep g ms))
  | EventGc _ | Enqueue _ _ _ _ _ _ | DispatchDirect _ _ | AcquireSubmission => fun _ =>
      mkD cu lk de tk rl ex uf la true
  | _ => fun _ => g
  end.

Definition dispatch_account (tr : list (obs answer)) : dacct := account answer dpost dacct0 tr.

(** Everything dequeued was released, in order, but the slot still held. *)
Record dinv (d : option StagingSlot) (flushed : bool) (g : dacct) : Prop := {
  di_cur : cur g = d;
  di_dec : decremented g = false;
  di_flow : map s_event (taken g) = released g ++ option_list (s_event <$> d);
  di_ran : sublist (map snd (executed g)) (released g);
  di_flush : flushed = true -> unflushed g = false;
  di_ok : faulty g = false
}.

Section run.
Context (cfg : Config) (rtc_budget_ns : nat -> Z).
Context (Htimeout : kBatchTimeoutMs cfg <> 0).

Abbreviation dwp := (wp answer dpost).

Lemma target_eqb_refl t : target_eqb t t = true.
Proof. by apply target_eqb_eq. Qed.

Lemma release_flow (tk : list StagingSlot) (rl : list Z) s :
  map s_event tk = rl ++ [s_event s] -> map s_event tk = (rl ++ [s_event s]) ++ [].
Proof. by rewrite app_nil_r. Qed.

Lemma try_dispatch_slot_wp slot f la g :
  dinv (Some slot) f g -> latch_ g = la ->
  dwp (try_dispatch_slot rtc_budget_ns slot)
    (fun g' ok => if ok : bool then dinv None false g' else
      dinv (Some slot) f g' /\ latch_ g' = (match la with Armed => ArmedBusy | l => l end)) g.
Proof.
  intros [Hc Hd Hf Hr Hfl Hok] Hl. destruct g as [cu lk de tk rl ex uf la0 fa]; simpl in *; subst.
  unfold try_dispatch_slot. simpl. intros [ao|]; rewrite target_eqb_refl; simpl; rewrite Z.eqb_refl; simpl.
  - intros t0. rewrite bool_decide_eq_true_2 by done. intros []; simpl; [|by split].
    intros. rewrite Z.eqb_refl, bool_decide_eq_true_2 by done. simpl.
    split; simpl; try done; [by apply release_flow|]. rewrite map_app. by apply sublist_app.
  - intros _. split; simpl; try done; [by apply release_flow|]. by apply sublist_inserts_r.
Qed.

(** Calls that touch neither the held slot nor the latch. *)
Definition neutral (c : call) : bool :=
  match c with
  | StopLoad | BatchUsed | MonotonicNs | BeginBatch | BreakerIdleCycle | AnyBuffered | SubmissionsIdle
  | PendingLoad _ | RecordPending _ _ => true
  | _ => false
  end.

Lemma dpost_neutral g c r : neutral c = true -> dpost g c r = g.
Proof. by destruct g, c. Qed.

Lemma dinv_flush d f g : dinv d f g -> dinv d true (dpost g ReclaimFlush tt).
Proof. intros [Hc Hd Hf Hr Hfl Hok]. destruct g. by split. Qed.

Lemma dinv_arm d f g : dinv d f g -> dinv d f (dpost g ArmDispatcherWait tt) /\ latch_ (dpost g ArmDispatcherWait tt) = Armed.
Proof. intros [Hc Hd Hf Hr Hfl Hok]. destruct g. by split. Qed.

Lemma dinv_weaken d f g : dinv d f g -> dinv d false g.
Proof. intros [Hc Hd Hf Hr Hfl Hok]. by split. Qed.

Lemma dinv_dequeue now slot f g :
  dinv None f g -> dinv (Some slot) f (dpost g (DequeueOne now) (Some slot)).
Proof.
  intros [Hc Hd Hf Hr Hfl Hok]. destruct g as [cu lk de tk rl ex uf la fa]; simpl in *; subst.
  split; simpl; try done. by rewrite map_app, Hf, app_nil_r.
Qed.

Lemma dinv_dequeue_none now g : dpost g (DequeueOne now) None = g.
Proof. by destruct g. Qed.

(** A sleep with the retained slot, retried after arming. *)
Lemma dinv_sleep_busy slot g :
  dinv (Some slot) true g -> latch_ g = ArmedBusy ->
  dinv (Some slot) true (dpost g (WaitDispatcher (kBatchTimeoutMs cfg)) tt).
Proof using Type.
  intros [Hc Hd Hf Hr Hfl Hok] Hl. destruct g as [cu lk de tk rl ex uf la fa]; simpl in *; subst.
  specialize (Hfl eq_refl). subst. by split.
Qed.

Lemma dinv_sleep_bounded g :
  dinv None true g -> dinv None true (dpost g (WaitDispatcher (kBatchTimeoutMs cfg)) tt).
Proof using Htimeout.
  intros [Hc Hd Hf Hr Hfl Hok]. destruct g as [cu lk de tk rl ex uf la fa]; simpl in *; subst.
  specialize (Hfl eq_refl). subst. split; simpl; try done. unfold may_sleep. simpl.
  by rewrite (proj2 (Z.eqb_neq _ _) Htimeout).
Qed.

Lemma dinv_sleep_idle g :
  dinv None true g -> dinv None true (dpost (dpost (dpost g ArmDispatcherWait tt) AnyReady false) (WaitDispatcher 0) tt).
Proof using Type.
  intros [Hc Hd Hf Hr Hfl Hok]. destruct g as [cu lk de tk rl ex uf la fa]; simpl in *; subst.
  specialize (Hfl eq_refl). subst. by split.
Qed.

Lemma dinv_peek g : dinv None true g -> dinv None true (dpost (dpost g ArmDispatcherWait tt) AnyReady true).
Proof using Type. intros [Hc Hd Hf Hr Hfl Hok]. destruct g. by split. Qed.

(** Walk one neutral call. *)
Ltac neutral_step :=
  match goal with
  | |- wp _ _ (Call ?c _) _ _ => apply wp_call; intros ?; rewrite (dpost_neutral _ c) by done
  end.

Lemma batch_loop_wp fuel any g :
  dinv None false g ->
  dwp (batch_loop cfg rtc_budget_ns fuel any)
    (fun g' res => match res with None => exists d, dinv d false g' | Some (_, d) => dinv d false g' end) g.
Proof using Type.
  revert any g. induction fuel as [|fuel IH]; intros any g Hg; cbn [batch_loop]; [by exists None|].
  neutral_step. destruct r; [done|]. neutral_step. case_test; [|done]. neutral_step.
  apply wp_call. intros [slot|]; [|by rewrite dinv_dequeue_none].
  apply wp_bind. eapply wp_mono; [|eapply try_dispatch_slot_wp; [by apply dinv_dequeue|done]].
  intros g' [|]; [apply IH|]. by intros [Hd _].
Qed.

Definition verdict_ok (g : dacct) (v : verdict) : Prop :=
  match v with Continue d | Break d => dinv d true g | OutOfFuel => exists d, dinv d false g end.

Lemma run_batch_wp fuel any g :
  dinv None false g -> dwp (run_batch cfg rtc_budget_ns fuel any) verdict_ok g.
Proof using Type.
  intros Hg. unfold run_batch. apply wp_bind. eapply wp_mono; [|by apply batch_loop_wp].
  clear g Hg. intros g [[any' d]|] Hg; [|done]. apply wp_call. intros []. apply dinv_flush in Hg.
  revert Hg. generalize (dpost g ReclaimFlush tt). clear g. intros g Hg.
  neutral_step. destruct r; [done|]. destruct d as [slot|].
  - apply wp_call. intros []. destruct (dinv_arm _ _ _ Hg) as [Ha Hl]. apply wp_bind.
    eapply wp_mono; [|by eapply try_dispatch_slot_wp]. cbn beta. intros g' [|].
    + intros Hn. apply wp_call. intros []. by apply (dinv_flush None false).
    + intros [Hd Hb]. apply wp_call. intros []. apply wp_call. intros []. apply dinv_sleep_busy; [by eapply dinv_flush|]. by destruct g'.
  - destruct any'; [done|]. neutral_step. apply wp_call. intros []. apply wp_call. intros []; [by apply dinv_peek|].
    apply wp_call. intros []. by apply dinv_sleep_idle.
Qed.

Lemma run_iteration_wp fuel d g :
  dinv d true g -> dwp (run_iteration cfg rtc_budget_ns fuel d) verdict_ok g.
Proof using Type.
  intros Hg. unfold run_iteration. neutral_step. destruct d as [slot|]; [|by eapply run_batch_wp, dinv_weaken].
  apply wp_call. intros []. destruct (dinv_arm _ _ _ Hg) as [Ha Hl]. apply wp_bind.
  eapply wp_mono; [|by eapply try_dispatch_slot_wp]. cbn beta. intros g' [|]; [apply run_batch_wp|].
  intros [Hd Hb]. apply wp_call. intros []. apply wp_call. intros []. apply dinv_sleep_busy; [by eapply dinv_flush|]. by destruct g'.
Qed.

(** Giving a held slot back without running it. *)
Lemma dinv_giveback slot f g r :
  dinv (Some slot) f g ->
  let g1 := dpost g (RegistryLookup (s_target slot)) r in
  let g2 := match r with Some ao => dpost g1 (PendingDecrement ao) tt | None => g1 end in
  dinv None false (dpost g2 (ReclaimRelease (s_event slot)) tt).
Proof using Type.
  intros [Hc Hd Hf Hr Hfl Hok]. destruct g as [cu lk de tk rl ex uf la fa]; simpl in *; subst.
  rewrite target_eqb_refl.
  destruct r as [ao|]; simpl; rewrite Z.eqb_refl; [rewrite bool_decide_eq_true_2 by done|]; simpl;
    split; simpl; try done; (by apply release_flow) || by apply sublist_inserts_r.
Qed.

Lemma drain_batch_wp fuel now rel g :
  dinv None false g ->
  dwp (drain_batch cfg fuel now rel)
    (fun g' res => match res with None => exists d, dinv d false g' | Some _ => dinv None false g' end) g.
Proof using Type.
  revert rel g. induction fuel as [|fuel IH]; intros rel g Hg; cbn [drain_batch]; [by exists None|].
  neutral_step. case_test; [|done]. apply wp_call. intros [slot|]; [|by rewrite dinv_dequeue_none].
  apply wp_call. intros o.
  pose proof (dinv_giveback slot false _ o (dinv_dequeue now slot false g Hg)) as Hgb. cbv zeta in Hgb.
  apply wp_bind. destruct o as [ao|].
  - apply wp_call. intros []. neutral_step. neutral_step. apply wp_call. intros []. by apply IH.
  - apply wp_call. intros []. by apply IH.
Qed.

Lemma drain_pending_wp (Q : dacct -> bool -> Prop) g : (forall b, Q g b) -> dwp drain_pending Q g.
Proof using Type. intros HQ. unfold drain_pending. neutral_step. destruct r; [apply HQ|]. neutral_step. apply HQ. Qed.

Lemma drain_loop_wp fuel now g :
  dinv None true g ->
  dwp (drain_loop cfg fuel now) (fun g' (b : bool) => if b then dinv None true g' else exists d, dinv d false g') g.
Proof using Htimeout.
  revert g. induction fuel as [|fuel IH]; intros g Hg; cbn [drain_loop].
  { exists None. by eapply dinv_weaken. }
  apply wp_bind, drain_pending_wp. intros [|]; [|done]. neutral_step.
  apply wp_bind. eapply wp_mono; [|by eapply drain_batch_wp, dinv_weaken].
  intros g' [released|] Hg'; [|done]. apply wp_call. intros []. apply dinv_flush in Hg'.
  apply wp_bind. assert (Hp : forall b : bool, dwp (if b then drain_pending else Done false)
    (fun g2 _ => g2 = dpost g' ReclaimFlush tt) (dpost g' ReclaimFlush tt)).
  { intros []; [by apply drain_pending_wp|done]. }
  eapply wp_mono; [|apply Hp]. intros g2 again ->. apply wp_bind. destruct again; [|by apply IH].
  apply wp_call. intros []. by apply IH, dinv_sleep_bounded.
Qed.

Lemma run_exit_wp fuel d g :
  dinv d true g ->
  dwp (run_exit cfg fuel d) (fun g' (b : bool) => if b then dinv None true g' else exists d, dinv d false g') g.
Proof using Htimeout.
  intros Hg. unfold run_exit, drain_queued_on_stop. apply wp_bind. destruct d as [slot|].
  - apply wp_call. intros r. pose proof (dinv_giveback slot true _ r Hg) as Hgb. cbv zeta in Hgb. apply wp_bind.
    destruct r as [ao|]; [apply wp_call; intros []|]; apply wp_done;
      (apply wp_call; intros []; apply wp_call; intros []; apply wp_done; neutral_step; apply drain_loop_wp; by eapply dinv_flush).
  - apply wp_done. neutral_step. by apply drain_loop_wp.
Qed.

Lemma run_loop_wp fuel d g :
  dinv d true g ->
  dwp (run_loop cfg rtc_budget_ns fuel d)
    (fun g' (b : bool) => if b then dinv None true g' else exists d, dinv d false g') g.
Proof using Htimeout.
  revert d g. induction fuel as [|fuel IH]; intros d g Hg; cbn [run_loop]; [exists d; by eapply dinv_weaken|].
  neutral_step. destruct r; [by apply run_exit_wp|]. apply wp_bind. eapply wp_mono; [|by apply run_iteration_wp].
  intros g' [d'|d'|] Hv; [by apply IH|by apply run_exit_wp|done].
Qed.
End run.

(** ** When [run] returns

    The last answers of [any_buffered] and [submissions_idle]. *)

Definition qpost (g : bool * bool) (c : call) : answer c -> bool * bool :=
  match c with
  | AnyBuffered => fun b => (b, false)
  | SubmissionsIdle => fun i => (g.1, i)
  | DequeueOne _ => fun _ => (true, false)
  | _ => fun _ => g
  end.

Section returned.
Context (cfg : Config) (rtc_budget_ns : nat -> Z).

Abbreviation qwp := (wp answer qpost).

(** Only the answer of the last test of the loop matters. *)
Lemma qwp_any {A} (p : cprog A) (Q : bool * bool -> A -> Prop) g : (forall g a, Q g a) -> qwp p Q g.
Proof. intros HQ. revert g. induction p; intros g; simpl; auto. Qed.

Lemma drain_loop_quiet fuel now g :
  qwp (drain_loop cfg fuel now) (fun g' (b : bool) => b = true -> g' = (false, true)) g.
Proof.
  revert g. induction fuel as [|fuel IH]; intros g; cbn [drain_loop]; [done|].
  apply wp_bind. assert (Hp : qwp drain_pending (fun g' (b : bool) => b = false -> g' = (false, true)) g).
  { unfold drain_pending. simpl. intros []; [done|]. simpl. by intros []. }
  eapply wp_mono; [|exact Hp]. intros g1 [|] H1; [|by intros _; apply H1]. apply wp_call. intros [].
  apply wp_bind, qwp_any. intros g2 [released|]; [|done]. apply wp_call. intros [].
  apply wp_bind, qwp_any. intros g3 again. apply wp_bind, qwp_any. intros g4 _. apply IH.
Qed.

Lemma run_exit_quiet fuel d g :
  qwp (run_exit cfg fuel d) (fun g' (b : bool) => b = true -> g' = (false, true)) g.
Proof.
  unfold run_exit, drain_queued_on_stop. apply wp_bind, qwp_any. intros g1 _. apply wp_call. intros. apply drain_loop_quiet.
Qed.

Lemma run_loop_quiet fuel d g :
  qwp (run_loop cfg rtc_budget_ns fuel d) (fun g' (b : bool) => b = true -> g' = (false, true)) g.
Proof.
  revert d g. induction fuel as [|fuel IH]; intros d g; cbn [run_loop]; [done|].
  apply wp_call. intros []; [apply run_exit_quiet|]. apply wp_bind, qwp_any.
  intros g' [d'|d'|]; [apply IH|apply run_exit_quiet|done].
Qed.
End returned.

(** C4: The dispatcher is the final releaser of every queued event.  For every
    prefix of every run of its loop, whatever the queues, leases, registry and
    the stop flag answer: the events dequeued are the events released, once each
    and in the same order, but for the at most one slot retained while its
    active object is busy; the events executed are among them, in that order;
    every release of a bound target's event gave its pending count back exactly
    once before; it goes to sleep only with every release flushed, and then
    either after arming the wake latch and finding nothing ready, or after arming
    and retrying the retained event, or for a bounded time in the drain.  When
    [run] returns nothing is retained, everything is flushed, and its last
    observation was that no event is buffered and no submission in flight. *)
Theorem dispatcher_releases_once (cfg : Config) (rtc_budget_ns : nat -> Z) (fuel : nat)
    (tr : list (obs answer)) (returned : bool) :
  kBatchTimeoutMs cfg <> 0 ->
  runs answer (dispatcher_run cfg rtc_budget_ns fuel) tr returned ->
  let g := dispatch_account tr in
  faulty g = false /\
  map s_event (taken g) = released g ++ option_list (s_event <$> cur g) /\
  sublist (map snd (executed g)) (released g) /\
  (returned = true -> cur g = None /\ unflushed g = false /\ account answer qpost (true, false) tr = (false, true)).
Proof.
  intros Ht Hr. assert (H0 : dinv None true dacct0) by (split; simpl; done || constructor).
  pose proof (wp_runs answer dpost _ _ _ _ _ (run_loop_wp cfg rtc_budget_ns Ht fuel None dacct0 H0) Hr) as Hd.
  pose proof (wp_runs answer qpost _ _ _ _ _ (run_loop_quiet cfg rtc_budget_ns fuel None (true, false)) Hr) as Hq.
  cbv zeta. change (account answer dpost dacct0 tr) with (dispatch_account tr) in Hd.
  assert (Hex : exists d f, dinv d f (dispatch_account tr)) by (destruct returned; [by exists None, true|destruct Hd; eauto]).
  destruct Hex as (d & f & [Hc _ Hf He _ Hok]). rewrite Hc. split_and!; [done|done|done|].
  intros ->. destruct Hd as [Hc' _ _ _ Hfl _]. rewrite Hc in Hc'. split_and!; [done|by apply Hfl|by apply Hq].
Qed.

(** A run: one event is executed, a second one finds its active object busy and
    is retained; then the stop flag rises and the retained event is released. *)
Definition demo_slot (e : Z) : StagingSlot := mkSlot (mkTarget 1) ClaimNone e 0.

Definition demo_env (n : nat) (c : call) : answer c :=
  match c with
  | RegistryLookup _ => Some 0%nat
  | TryDispatchQueued _ e => e =? 100
  | DequeueOne _ => if (n <=? 5)%nat then Some (demo_slot 100) else if (n <=? 20)%nat then Some (demo_slot 200) else None
  | StopLoad => (25 <=? n)%nat
  | MonotonicNs => 7
  | BatchUsed => 0
  | LeaseState _ => Idle
  | PendingLoad _ => 0
  | SubmissionsIdle => true
  | Reserve _ _ => None
  | PoolAlloc _ => None
  | Evaluate _ _ _ _ => mkPR true false 0
  | DispatchDirect _ _ | PendingTryIncrement _ _ | AcquireSubmission | ReleaseSubmission | Enqueue _ _ _ _ _ _
  | RequestDispatcherWake | AnyReady | AnyBuffered | DropNonCritical _ | DirectAllowed _ => false
  | _ => tt
  end.

Lemma dispatcher_releases_once_witness :
  let p := play answer demo_env 0 (dispatcher_run DefaultConfig (fun _ => 1000) 5) in
  p.2 = true /\ map s_event (taken (dispatch_account p.1)) = [100; 200] /\
  released (dispatch_account p.1) = [100; 200] /\ cur (dispatch_account p.1) = None.
Proof.
  pose proof (dispatcher_releases_once DefaultConfig (fun _ => 1000) 5 _ _ ltac:(done)
    (play_runs answer demo_env 0 (dispatcher_run DefaultConfig (fun _ => 1000) 5))) as (_ & _ & _ & H).
  cbv zeta. split_and!; [vm_compute; reflexivity..|]. apply H. vm_compute. reflexivity.
Defined.
