(* ===== verification/WakeLatch.v ===== *)
(** * The wake protocol (include/coact/staging.hpp, src/core/pal_posix.cpp)

    The coalesced wake latch of [Staging] together with the dispatcher's idle
    branch and the condition-variable wait of the POSIX PAL, one step per atomic
    access or mutex section.  Producers publish, exchange the latch, and signal
    when they own the wake; the dispatcher arms the latch, checks for ready
    events and waits without a timeout.  [no_lost_wakeup] is what makes that
    unbounded wait safe. *)

From stdpp Require Import functions.
From S2P Require Import Prelude.

(** ** The latch and the PAL *)

Definition arm_dispatcher_wait (wake_pending_ : bool) : bool := false.
Definition request_dispatcher_wake (wake_pending_ : bool) : bool * bool := (negb wake_pending_, true).

(** The dispatcher: running batches; armed, before the ready check; before
    [wait_dispatcher]; inside [pthread_cond_wait]; woken, before it clears [wake_]. *)
Inductive disp_pc := DActive | DArmed | DWaitCall | DBlocked | DWaking.

(** A producer: outside; published, before the latch exchange; owning the signal. *)
Inductive prod_pc := POutside | PPublished | PSignal.

#[export] Instance disp_pc_eq_dec : EqDecision disp_pc.
Proof. solve_decision. Defined.

Record wake_sys := mkWake {
  latch : bool;          (* Staging::wake_pending_ *)
  ready : nat;           (* published, not yet dequeued *)
  wake : bool;           (* Posix::wake_ *)
  disp : disp_pc;
  prods : nat -> prod_pc
}.

(** [signal_dispatcher_*]: set the flag and wake the waiter, if there is one. *)
Definition signal_dispatcher (s : wake_sys) : bool * disp_pc :=
  (true, match disp s with DBlocked => DWaking | d => d end).

(** [wait_dispatcher(0)] up to the first blocking point. *)
Definition wait_dispatcher (s : wake_sys) : bool * disp_pc :=
  if wake s then (false, DActive) else (false, DBlocked).

Inductive wake_step : wake_sys -> wake_sys -> Prop :=
| ws_publish l r w d ps t :
    ps t = POutside -> wake_step (mkWake l r w d ps) (mkWake l (S r) w d (<[t := PPublished]> ps))
| ws_exchange l r w d ps t won l' :
    ps t = PPublished -> request_dispatcher_wake l = (won, l') ->
    wake_step (mkWake l r w d ps) (mkWake l' r w d (<[t := if won then PSignal else POutside]> ps))
| ws_signal s t w' d' :
    prods s t = PSignal -> signal_dispatcher s = (w', d') ->
    wake_step s (mkWake (latch s) (ready s) w' d' (<[t := POutside]> (prods s)))
| ws_dequeue l r w ps :
    wake_step (mkWake l (S r) w DActive ps) (mkWake l r w DActive ps)
| ws_arm l r w ps :
    wake_step (mkWake l r w DActive ps) (mkWake (arm_dispatcher_wait l) r w DArmed ps)
| ws_check_some l r w ps :
    wake_step (mkWake l (S r) w DArmed ps) (mkWake l (S r) w DActive ps)
| ws_check_none l w ps :
    wake_step (mkWake l 0 w DArmed ps) (mkWake l 0 w DWaitCall ps)
| ws_wait s w' d' :
    disp s = DWaitCall -> wait_dispatcher s = (w', d') ->
    wake_step s (mkWake (latch s) (ready s) w' d' (prods s))
| ws_spurious l r w ps :
    wake_step (mkWake l r w DBlocked ps) (mkWake l r w DWaking ps)
| ws_woken l r w ps :
    wake_step (mkWake l r w DWaking ps) (mkWake l r false DActive ps).

Definition wake_init : wake_sys := mkWake true 0 false DActive (fun _ => POutside).

(** ** The invariant *)

Record wake_inv (s : wake_sys) : Prop := {
  wi_owned : disp s = DArmed \/ disp s = DWaitCall \/ disp s = DBlocked -> latch s = true ->
    wake s = true \/ exists t, prods s t = PSignal;
  wi_seen : disp s = DWaitCall \/ disp s = DBlocked -> (0 < ready s)%nat -> latch s = false ->
    exists t, prods s t = PPublished;
  wi_blocked : disp s = DBlocked -> wake s = false
}.

(** Another thread keeps its program point. *)
Lemma prods_keep (ps : nat -> prod_pc) t t' pc pc' :
  ps t' = pc' -> ps t <> pc' -> <[t := pc]> ps t' = pc'.
Proof. intros Ht' Ht. rewrite fn_lookup_insert_ne; [done|]. by intros <-. Qed.

Lemma wake_inv_step s s' : wake_inv s -> wake_step s s' -> wake_inv s'.
Proof.
  intros [Ho Hs Hb] Hst.
  destruct Hst as [l r w d ps t Ht|l r w d ps t won l' Ht He|s t w' d' Ht He|l r w ps|l r w ps|l r w ps|l w ps|s w' d' Hd He|l r w ps|l r w ps];
    simpl in *.
  - split; simpl; [|eauto using fn_lookup_insert|done].
    intros Hd Hl. destruct (Ho Hd Hl) as [|[u Hu]]; [by left|]. right. exists u. apply prods_keep; congruence.
  - unfold request_dispatcher_wake in He. simplify_eq. split; simpl; [|done|done].
    intros Hd _. destruct l; simpl; [|right; exists t; by rewrite fn_lookup_insert].
    destruct (Ho Hd eq_refl) as [|[u Hu]]; [by left|]. right. exists u. apply prods_keep; congruence.
  - unfold signal_dispatcher in He. simplify_eq. split; simpl; [by left| |by destruct (disp s)].
    intros Hd Hr Hl. destruct (Hs ltac:(destruct (disp s); naive_solver) Hr Hl) as [u Hu].
    exists u. apply prods_keep; congruence.
  - split; simpl; naive_solver.
  - split; simpl; naive_solver.
  - split; simpl; naive_solver.
  - split; simpl; [naive_solver|lia|naive_solver].
  - unfold wait_dispatcher in He. destruct (wake s) eqn:Hw; simplify_eq; split; simpl; naive_solver.
  - split; simpl; naive_solver.
  - split; simpl; naive_solver.
Qed.

(** C5: No wake is lost.  In every reachable state of the wake protocol, for any
    number of producers and any interleaving, a dispatcher blocked in its
    unbounded wait while an event is ready always has a producer that still owes
    it the wake, and that producer's own next steps (at most the latch exchange
    and the signal) wake it; once every producer is done, a blocked dispatcher
    means an empty staging. *)
Theorem no_lost_wakeup (s : wake_sys) :
  rtc wake_step wake_init s -> disp s = DBlocked -> (0 < ready s)%nat ->
  exists t, prods s t <> POutside /\
    exists s1 s2, (prods s t = PPublished /\ wake_step s s1 \/ prods s t = PSignal /\ s1 = s) /\
      prods s1 t = PSignal /\ wake_step s1 s2 /\ disp s2 = DWaking.
Proof.
  intros Hrun Hd Hr. assert (Hi : wake_inv s).
  { eapply (rtc_invariant wake_step); [intros; by eapply wake_inv_step| |exact Hrun].
    split; simpl; naive_solver. }
  destruct s as [l r w d ps]. simpl in *. subst d. destruct Hi as [Ho Hs Hb]. simpl in *.
  assert (Hsig : forall l0 ps0 t, ps0 t = PSignal -> wake_step (mkWake l0 r w DBlocked ps0)
    (mkWake l0 r true DWaking (<[t := POutside]> ps0))).
  { intros l0 ps0 t Ht. by apply (ws_signal (mkWake l0 r w DBlocked ps0) t). }
  destruct l.
  - destruct (Ho ltac:(auto) eq_refl) as [Hw|[t Ht]]; [rewrite Hb in Hw; done|].
    exists t. split; [congruence|]. eexists _, _. split; [by right|]. split; [done|]. split; [by apply Hsig|done].
  - destruct (Hs ltac:(auto) Hr eq_refl) as [t Ht]. exists t. split; [congruence|].
    eexists _, _. split; [left; split; [done|]; by eapply (ws_exchange false r w DBlocked ps t)|].
    split; [simpl; by rewrite fn_lookup_insert|]. split; [apply Hsig; simpl; by rewrite fn_lookup_insert|done].
Qed.

(** The dispatcher blocks; producer 4 publishes: it holds the wake. *)
Lemma no_lost_wakeup_witness :
  exists t, (<[4%nat := PPublished]> (fun _ : nat => POutside)) t <> POutside.
Proof.
  assert (Hrun : rtc wake_step wake_init (mkWake false 1 false DBlocked (<[4%nat := PPublished]> (fun _ => POutside)))).
  { eapply rtc_l; [apply ws_arm|]. eapply rtc_l; [apply ws_check_none|].
    eapply rtc_l; [eapply ws_wait; reflexivity|]. eapply rtc_l; [by apply (ws_publish _ _ _ _ _ 4%nat)|]. apply rtc_refl. }
  destruct (no_lost_wakeup _ Hrun eq_refl ltac:(simpl; lia)) as (t & Ht & _). exists t. exact Ht.
Defined.
