(* ===== verification/Timer.v ===== *)
(** * The timer service (include/coact/timer.hpp)

    [TimerScheduler]: the slot table under its mutex ([schedule], [cancel],
    [ns_to_next_task], the collect phase of [fire_expired] with its catch-up
    loop) and the submit phase outside it, a program over [Calls] that goes
    through the submit path of [Coordinator].  The clock is the argument [now].
    The catch-up loop has the fuel its period needs; [timer_poll_exact] shows
    that it is enough. *)

From S2P Require Import Prelude Vocab Staging Ao Breaker Monitor Admission Prog Calls Coordinator.

#[local] Open Scope prog_scope.

Inductive TimerError := kInvalidPeriod | kSlotsFull | kNotFound | kAlreadyRunning | kThreadStartFailed.

Definition kInvalidTimerTaskId : Z := 0.
Definition kNsPerMs : Z := 1000000.

Record TaskSlot := mkTask {
  t_target : TargetId; t_signal : Z; t_qos : EventQos;
  period_ns : Z; next_fire_ns : Z; t_id : Z; active : bool; one_shot : bool
}.

Definition task_slot0 : TaskSlot := mkTask kInvalidTarget 0 (mkQos false false) 0 0 0 false false.

Record Timer := mkTimer { slots : list TaskSlot; next_id_ : Z }.

Definition timer_ctor (MaxTasks : nat) : Timer := mkTimer (replicate MaxTasks task_slot0) 1.

Record PendingFire := mkFire { f_target : TargetId; f_signal : Z; f_qos : EventQos }.

(** ** The table *)

Definition schedule (T : Timer) (now : Z) (target : TargetId) (signal interval_ms : Z) (qos : EventQos)
    (once : bool) : (Z + TimerError) * Timer :=
  if 0 =? interval_ms then (inr kInvalidPeriod, T)
  else match find_idx (fun s => negb (active s)) (slots T) with
  | Some i =>
    let interval_ns := u64 (interval_ms * kNsPerMs) in
    let s := mkTask target signal qos interval_ns (u64 (now + interval_ns)) (next_id_ T) true once in
    (inl (next_id_ T), mkTimer (<[i := s]> (slots T)) (u32 (next_id_ T + 1)))
  | None => (inr kSlotsFull, T)
  end.

Definition schedule_periodic (T : Timer) (now : Z) (target : TargetId) (signal period_ms : Z) (qos : EventQos) :=
  schedule T now target signal period_ms qos false.
Definition schedule_once (T : Timer) (now : Z) (target : TargetId) (signal delay_ms : Z) (qos : EventQos) :=
  schedule T now target signal delay_ms qos true.

Definition deactivate (s : TaskSlot) : TaskSlot :=
  mkTask (t_target s) (t_signal s) (t_qos s) (period_ns s) (next_fire_ns s) (t_id s) false (one_shot s).

Definition cancel (T : Timer) (task_id : Z) : (unit + TimerError) * Timer :=
  match find_idx (fun s => active s && (t_id s =? task_id)) (slots T) with
  | Some i => (inl tt, mkTimer (alter deactivate i (slots T)) (next_id_ T))
  | None => (inr kNotFound, T)
  end.

Definition task_count (T : Timer) : Z := Z.of_nat (countb active (slots T)).

Fixpoint ns_to_next (now min_remaining : Z) (l : list TaskSlot) : Z :=
  match l with
  | [] => min_remaining
  | s :: l =>
    if negb (active s) then ns_to_next now min_remaining l
    else if next_fire_ns s <=? now then 0
    else
      let remaining := next_fire_ns s - now in
      ns_to_next now (if remaining <? min_remaining then remaining else min_remaining) l
  end.

Definition ns_to_next_task (T : Timer) (now : Z) : Z := ns_to_next now (2 ^ 64 - 1) (slots T).

(** ** One pass of [fire_expired] *)

(** [while (next <= now) next += period;]; [None]: still looping. *)
Fixpoint catch_up (fuel : nat) (period now next : Z) : option Z :=
  if next <=? now then
    match fuel with O => None | S fuel => catch_up fuel period now (u64 (next + period)) end
  else Some next.

Definition catch_up_fuel (s : TaskSlot) (now : Z) : nat := Z.to_nat ((now - next_fire_ns s) / period_ns s + 1).

Definition advance (s : TaskSlot) (now : Z) : option TaskSlot :=
  n ← catch_up (catch_up_fuel s now) (period_ns s) now (u64 (next_fire_ns s + period_ns s));
  Some (mkTask (t_target s) (t_signal s) (t_qos s) (period_ns s) n (t_id s) (active s) (one_shot s)).

(** One slot: what it fires and what it becomes. *)
Definition fire_slot (now : Z) (s : TaskSlot) : option (list PendingFire * TaskSlot) :=
  if negb (active s) then Some ([], s)
  else if now <? next_fire_ns s then Some ([], s)
  else
    s' ← (if one_shot s then Some (deactivate s) else advance s now);
    Some ([mkFire (t_target s) (t_signal s) (t_qos s)], s').

Fixpoint collect (now : Z) (l : list TaskSlot) : option (list PendingFire * list TaskSlot) :=
  match l with
  | [] => Some ([], [])
  | s :: l =>
    r ← fire_slot now s;
    rs ← collect now l;
    Some (r.1 ++ rs.1, r.2 :: rs.2)
  end.

(** The submissions, outside the mutex; the result is (fired, skipped). *)
Section fire.
Context (submit : TargetId -> Z -> EventQos -> cprog SubmitResult).

Fixpoint fire_pending (ps : list PendingFire) (fired skipped : Z) : cprog (Z * Z) :=
  match ps with
  | [] => Done (fired, skipped)
  | p :: ps =>
    e <~ PoolAlloc (f_signal p) ;;
    match e with
    | None => fire_pending ps fired (u32 (skipped + 1))
    | Some e =>
      _ <- submit (f_target p) e (f_qos p) ;;
      fire_pending ps (u32 (fired + 1)) skipped
    end
  end.
End fire.

(** ** Invariant and theorems *)

Definition due (now : Z) (s : TaskSlot) : bool := active s && (next_fire_ns s <=? now).

(** The clock stays far enough from the end of its 64 bits (2^32 ms, 50 days). *)
Definition clock_ok (now : Z) : Prop := 0 <= now /\ now + 2 ^ 32 * kNsPerMs < 2 ^ 64.

Record slot_ok (now : Z) (s : TaskSlot) : Prop := {
  so_period : active s = true -> 0 < period_ns s <= (2 ^ 32 - 1) * kNsPerMs;
  so_next : active s = true -> 0 <= next_fire_ns s <= now + period_ns s
}.

Definition timer_ok (now : Z) (T : Timer) : Prop := Forall (slot_ok now) (slots T).

Lemma catch_up_spec fuel period now next :
  0 < period -> now + period < 2 ^ 64 -> 0 <= next <= now + period ->
  (next <= now -> (Z.to_nat ((now - next) / period + 1) <= fuel)%nat) ->
  exists k, 0 <= k /\ catch_up fuel period now next = Some (next + k * period) /\
    now < next + k * period <= now + period.
Proof.
  intros Hp Hc. revert next. induction fuel as [|fuel IH]; intros next Hn Hf; simpl.
  - destruct (Z.leb_spec next now) as [Hle|Hgt].
    + exfalso. specialize (Hf Hle). pose proof (Z.div_pos (now - next) period ltac:(lia) Hp). lia.
    + exists 0. split_and!; [lia|f_equal; lia|lia|lia].
  - destruct (Z.leb_spec next now) as [Hle|Hgt].
    + rewrite wrap_small by (unfold in_u; lia).
      destruct (IH (next + period)) as (k & Hk & He & Hr); [lia| |].
      * intros Hle'. specialize (Hf Hle).
        replace (now - next) with (now - (next + period) + 1 * period) in Hf by lia.
        rewrite Z.div_add in Hf by lia. pose proof (Z.div_pos (now - (next + period)) period ltac:(lia) Hp). lia.
      * exists (k + 1). split_and!; [lia|rewrite He; f_equal; lia|lia|lia].
    + exists 0. split_and!; [lia|f_equal; lia|lia|lia].
Qed.

(** What one pass does to one slot. *)
Definition polled (now : Z) (s s' : TaskSlot) : Prop :=
  if due now s then
    if one_shot s then s' = deactivate s
    else exists k, 1 <= k /\ now < next_fire_ns s + k * period_ns s <= now + period_ns s /\
      s' = mkTask (t_target s) (t_signal s) (t_qos s) (period_ns s) (next_fire_ns s + k * period_ns s)
             (t_id s) (active s) (one_shot s)
  else s' = s.

Lemma fire_slot_spec now s :
  clock_ok now -> slot_ok now s ->
  exists s', fire_slot now s = Some (if due now s then [mkFire (t_target s) (t_signal s) (t_qos s)] else [], s') /\
    polled now s s'.
Proof.
  intros [H0 Hc] [Hp Hn]. unfold fire_slot, polled, due. destruct (active s) eqn:Ha; simpl; [|eauto].
  specialize (Hp eq_refl). specialize (Hn eq_refl). unfold kNsPerMs in *.
  destruct (Z.ltb_spec now (next_fire_ns s)), (Z.leb_spec (next_fire_ns s) now); try lia; [eauto|].
  destruct (one_shot s) eqn:Ho; simpl; [eauto|]. unfold advance.
  rewrite (wrap_small 64 (next_fire_ns s + period_ns s)) by (unfold in_u; lia).
  destruct (catch_up_spec (catch_up_fuel s now) (period_ns s) now (next_fire_ns s + period_ns s)) as (k & Hk & -> & Hr);
    [lia|lia|lia| |].
  - intros Hle. unfold catch_up_fuel. apply Z2Nat.inj_le;
      try (apply Z.add_nonneg_nonneg; [apply Z.div_pos|]; lia).
    apply Z.add_le_mono_r, Z.div_le_mono; lia.
  - simpl. eexists. split; [reflexivity|]. exists (k + 1). split_and!; [lia|lia|lia|]. rewrite Ha, Ho. f_equal. lia.
Qed.

Lemma collect_spec now l :
  clock_ok now -> Forall (slot_ok now) l ->
  exists l', collect now l = Some (map (fun s => mkFire (t_target s) (t_signal s) (t_qos s)) (filter (due now) l), l') /\
    Forall2 (polled now) l l'.
Proof.
  intros Hc Hl. induction Hl as [|s l Hs _ (l' & IH & IHp)]; simpl; [by exists []|].
  destruct (fire_slot_spec now s Hc Hs) as (s' & -> & Hp). simpl. rewrite IH. simpl.
  exists (s' :: l'). split; [|by constructor]. rewrite filter_cons.
  destruct (due now s) eqn:Hd; [by rewrite decide_True by done|].
  by rewrite decide_False by (intros []).
Qed.

Lemma polled_ok now s s' : clock_ok now -> slot_ok now s -> polled now s s' -> slot_ok now s' /\ due now s' = false.
Proof.
  intros Hc [Hp Hn] Hpl. unfold polled in Hpl. destruct (due now s) eqn:Hd; [|subst; done].
  destruct (one_shot s); [subst; done|]. destruct Hpl as (k & Hk & Hr & ->). unfold due in Hd. simpl. split_bools.
  split; [split; simpl; intros; [by apply Hp|]|].
  - specialize (Hp H). specialize (Hn H). nia.
  - unfold due. simpl. rewrite H. simpl. apply Z.leb_gt. lia.
Qed.

Lemma ns_to_next_pos now m l :
  0 < m -> Forall (fun s => due now s = false) l -> 0 < ns_to_next now m l.
Proof.
  intros Hm Hl. revert m Hm. induction Hl as [|s l Hs _ IH]; intros m Hm; simpl; [done|].
  unfold due in Hs. destruct (active s); simpl in *; [|auto]. rewrite Hs. apply Z.leb_gt in Hs. apply IH.
  case_test; lia.
Qed.

(** The remaining time: the least over the active tasks. *)
Lemma ns_to_next_min now m l :
  Forall (fun s => due now s = false) l ->
  ns_to_next now m l <= m /\
  (forall s, s ∈ l -> active s = true -> ns_to_next now m l <= next_fire_ns s - now) /\
  (ns_to_next now m l = m \/ exists s, s ∈ l /\ active s = true /\ ns_to_next now m l = next_fire_ns s - now).
Proof.
  intros Hl. revert m. induction Hl as [|s l Hs _ IH]; intros m; simpl.
  { split_and!; [lia|by intros s ?%not_elem_of_nil|by left]. }
  unfold due in Hs. destruct (active s) eqn:Ha; simpl in *.
  - rewrite Hs. set (m' := if _ <? m then _ else m). destruct (IH m') as (H1 & H2 & H3).
    assert (Hm' : m' <= m /\ m' <= next_fire_ns s - now /\ (m' = m \/ m' = next_fire_ns s - now))
      by (unfold m'; case_test; lia).
    split_and!; [lia| |].
    + intros x [->|Hx]%elem_of_cons Hax; [lia|by apply H2].
    + destruct H3 as [H3|(x & Hx & Hax & H3)].
      * destruct Hm' as (_ & _ & [E|E]); [left; lia|right; exists s; split_and!; [by left|done|lia]].
      * right. exists x. split_and!; [by right|done|done].
  - destruct (IH m) as (H1 & H2 & H3). split_and!; [done| |].
    + intros x [->|Hx]%elem_of_cons Hax; [congruence|by apply H2].
    + destruct H3 as [H3|(x & Hx & Hax & H3)]; [by left|]. right. exists x. split_and!; [by right|done|done].
Qed.

(** C10: One poll is exact.  With well-formed tasks and a clock away from the end
    of its range, the collect pass of [fire_expired] terminates; every due task
    fires exactly once, in slot order, however many of its periods were missed,
    and no other does; a one-shot task is freed; a periodic one moves by a whole
    number of periods to the first instant of its own schedule after [now] (no
    drift, no burst); afterwards no task is overdue and [ns_to_next_task] is the
    positive distance to the earliest active task, or [UINT64_MAX]. *)
Theorem timer_poll_exact (now : Z) (T : Timer) :
  clock_ok now -> timer_ok now T ->
  exists fires l', collect now (slots T) = Some (fires, l') /\
    fires = map (fun s => mkFire (t_target s) (t_signal s) (t_qos s)) (filter (due now) (slots T)) /\
    Forall2 (polled now) (slots T) l' /\
    timer_ok now (mkTimer l' (next_id_ T)) /\
    let wait := ns_to_next_task (mkTimer l' (next_id_ T)) now in
    0 < wait /\ (forall s, s ∈ l' -> active s = true -> wait <= next_fire_ns s - now) /\
    (wait = 2 ^ 64 - 1 \/ exists s, s ∈ l' /\ active s = true /\ wait = next_fire_ns s - now).
Proof.
  intros Hc Hok. destruct (collect_spec now (slots T) Hc Hok) as (l' & Hcol & Hp).
  assert (Hok' : Forall (slot_ok now) l' /\ Forall (fun s => due now s = false) l').
  { clear Hcol. unfold timer_ok in Hok. induction Hp as [|s s' l l' Hs Hp IH]; [done|]. inversion Hok; subst.
    destruct (polled_ok now s s' Hc) as [? ?]; [done|done|]. destruct IH; [done|]. by split; constructor. }
  destruct Hok' as [Hok' Hd]. eexists _, l'. split; [exact Hcol|]. split; [done|]. split; [done|]. split; [done|].
  cbv zeta. unfold ns_to_next_task. simpl. destruct (ns_to_next_min now (2 ^ 64 - 1) l' Hd) as (_ & H2 & H3).
  split_and!; [by apply ns_to_next_pos; [lia|]|done|done].
Qed.

(** A 10 ms periodic task, first due at 10 ms, polled late at 37 ms: one firing,
    next due at 40 ms; a one-shot task not yet due stays. *)
Definition demo_timer : Timer :=
  let q := mkQos false false in
  (schedule (schedule (timer_ctor 3) 0 (mkTarget 1) 7 10 q false).2 0 (mkTarget 2) 8 50 q true).2.

Lemma timer_poll_exact_witness :
  exists fires l', collect 37000000 (slots demo_timer) = Some (fires, l') /\
    fires = [mkFire (mkTarget 1) 7 (mkQos false false)] /\
    ns_to_next_task (mkTimer l' 3) 37000000 = 3000000.
Proof.
  destruct (timer_poll_exact 37000000 demo_timer) as (fires & l' & Hcol & Hf & _).
  - unfold clock_ok, kNsPerMs. lia.
  - repeat constructor; simpl; unfold kNsPerMs; try lia; done.
  - exists fires, l'. split; [exact Hcol|]. split; [exact Hf|].
    assert (Hc : collect 37000000 (slots demo_timer) = Some (fires, l')) by exact Hcol.
    vm_compute in Hc. injection Hc as <- <-. reflexivity.
Defined.

(** ** Task ids *)

Record ids_ok (T : Timer) : Prop := {
  io_range : forall i s, slots T !! i = Some s -> active s = true -> 1 <= t_id s < next_id_ T;
  io_distinct : forall i j s s', slots T !! i = Some s -> slots T !! j = Some s' ->
    active s = true -> active s' = true -> t_id s = t_id s' -> i = j;
  io_next : 1 <= next_id_ T
}.

Lemma alter_as_insert {A} (f : A -> A) (l : list A) i x : l !! i = Some x -> alter f i l = <[i := f x]> l.
Proof.
  intros Hi. apply list_eq. intros j. destruct (decide (j = i)) as [->|Hne].
  - rewrite list_lookup_alter_eq, Hi, list_lookup_insert_eq; [done|]. by eapply lookup_lt_Some.
  - by rewrite list_lookup_alter_ne, list_lookup_insert_ne by done.
Qed.

Lemma count_alter_off l i s :
  l !! i = Some s -> active s = true ->
  (countb active (alter deactivate i l) + 1 = countb active l)%nat.
Proof.
  intros Hi Ha. rewrite (alter_as_insert _ _ _ _ Hi).
  pose proof (countb_insert active l i s (deactivate s) Hi) as Hc. rewrite Ha in Hc. simpl in Hc. lia.
Qed.

(** Cancelling finds the one task with that id. *)
Lemma cancel_hit T i s :
  ids_ok T -> slots T !! i = Some s -> active s = true ->
  cancel T (t_id s) = (inl tt, mkTimer (alter deactivate i (slots T)) (next_id_ T)).
Proof.
  intros Hok Hi Ha. unfold cancel.
  destruct (find_idx_is_Some (fun x => active x && (t_id x =? t_id s)) (slots T) i s Hi) as (k & Hk & _).
  { by rewrite Ha, Z.eqb_refl. }
  rewrite Hk. apply find_idx_Some in Hk as (x & Hx & Hp & _). split_bools.
  by rewrite (io_distinct T Hok k i x s).
Qed.

Lemma cancel_miss T id :
  (forall i s, slots T !! i = Some s -> active s = true -> t_id s <> id) -> cancel T id = (inr kNotFound, T).
Proof.
  intros Hn. unfold cancel. destruct (find_idx _ (slots T)) as [i|] eqn:Hf; [|done].
  apply find_idx_Some in Hf as (s & Hs & Hp & _). split_bools. by destruct (Hn i s Hs).
Qed.

Lemma schedule_ids T now t sg ms q once id T' :
  ids_ok T -> next_id_ T < 2 ^ 32 - 1 -> schedule T now t sg ms q once = (inl id, T') ->
  ids_ok T' /\ id = next_id_ T /\ exists i s, slots T' !! i = Some s /\ active s = true /\ t_id s = id /\
    (countb active (slots T') = countb active (slots T) + 1)%nat.
Proof.
  intros [Hr Hd Hn] Hlt. unfold schedule. destruct (0 =? ms); [done|].
  destruct (find_idx _ (slots T)) as [i|] eqn:Hf; [|done]. apply find_idx_Some in Hf as (x & Hx & Ha & _). split_bools.
  intros [= <- <-]. set (s := mkTask _ _ _ _ _ _ _ _). rewrite (wrap_small 32 (next_id_ T + 1)) by (unfold in_u; lia).
  split; [split|]; simpl.
  - intros j y Hy Hay. apply lookup_insert_cases in Hy as [[-> ->]|[_ Hy]]; [simpl; lia|].
    specialize (Hr j y Hy Hay). lia.
  - intros j k y z Hy Hz Hay Haz He.
    apply lookup_insert_cases in Hy as [[-> ->]|[Hj Hy]], Hz as [[-> ->]|[Hk Hz]]; [done| | |by eapply Hd].
    + specialize (Hr k z Hz Haz). simpl in He. lia.
    + specialize (Hr j y Hy Hay). simpl in He. lia.
  - lia.
  - split; [done|]. exists i, s. split_and!; [apply list_lookup_insert_eq; by eapply lookup_lt_Some|done|done|].
    pose proof (countb_insert active (slots T) i x s Hx) as Hc. rewrite Ha in Hc. simpl in Hc. lia.
Qed.

(** A task id names one task.  While fewer than 2^32 - 1 ids were handed
    out, a successful [schedule] returns a fresh, valid id and adds one task;
    cancelling that id succeeds exactly once and takes the count back, and a
    second cancel reports [kNotFound]. *)
Theorem schedule_cancel_exact (T : Timer) (now : Z) (t : TargetId) (sg ms : Z) (q : EventQos) (once : bool)
    (id : Z) (T' : Timer) :
  ids_ok T -> next_id_ T < 2 ^ 32 - 1 -> schedule T now t sg ms q once = (inl id, T') ->
  id <> kInvalidTimerTaskId /\ (forall i s, slots T !! i = Some s -> active s = true -> t_id s <> id) /\
  ids_ok T' /\ task_count T' = task_count T + 1 /\
  exists T'', cancel T' id = (inl tt, T'') /\ task_count T'' = task_count T /\ cancel T'' id = (inr kNotFound, T'').
Proof.
  intros Hok Hlt Hs. destruct (schedule_ids _ _ _ _ _ _ _ _ _ Hok Hlt Hs) as (Hok' & -> & i & s & Hi & Ha & Hid & Hc).
  split_and!.
  - pose proof (io_next T Hok). unfold kInvalidTimerTaskId. lia.
  - intros j x Hx Hax. pose proof (io_range T Hok j x Hx Hax). lia.
  - done.
  - unfold task_count. lia.
  - pose proof (cancel_hit T' i s Hok' Hi Ha) as Hcan. rewrite Hid in Hcan. eexists. split; [exact Hcan|].
    pose proof (count_alter_off (slots T') i s Hi Ha) as Hoff. split; [unfold task_count; simpl; lia|].
    apply cancel_miss. simpl. intros j x Hx Hax Hx'. destruct (decide (j = i)) as [->|Hne].
    + rewrite list_lookup_alter_eq, Hi in Hx. simplify_eq/=.
    + rewrite list_lookup_alter_ne in Hx by done. apply Hne. eapply (io_distinct T' Hok'); [done|done|done|done|congruence].
Qed.

Lemma schedule_cancel_exact_witness :
  task_count (schedule (timer_ctor 3) 0 (mkTarget 1) 7 10 (mkQos false false) false).2 = 0 + 1.
Proof.
  destruct (schedule_cancel_exact (timer_ctor 3) 0 (mkTarget 1) 7 10 (mkQos false false) false 1
    (schedule (timer_ctor 3) 0 (mkTarget 1) 7 10 (mkQos false false) false).2) as (_ & _ & _ & H & _).
  - split; simpl; [| |lia].
    + intros i s Hs Ha. apply (lookup_replicate 3) in Hs as [-> _]. done.
    + intros i j s s' Hs _ Ha. apply (lookup_replicate 3) in Hs as [-> _]. done.
  - simpl. lia.
  - reflexivity.
  - exact H.
Defined.

(** ** Id exhaustion *)

(** One task scheduled and cancelled again. *)
Definition churn (T : Timer) : Timer :=
  match schedule T 0 (mkTarget 1) 1 1 (mkQos false false) true with
  | (inl id, T') => (cancel T' id).2
  | (inr _, T') => T'
  end.

Lemma churn_spec T s :
  slots T = [s] -> active s = false ->
  exists s', churn T = mkTimer [s'] (u32 (next_id_ T + 1)) /\ active s' = false.
Proof.
  destruct T as [l n]. simpl. intros -> Ha. unfold churn, schedule, cancel. simpl. rewrite Ha. simpl.
  rewrite Z.eqb_refl. simpl. eauto.
Qed.

Lemma churn_iter n :
  exists s, Nat.iter n churn (timer_ctor 1) = mkTimer [s] (u32 (1 + Z.of_nat n)) /\ active s = false.
Proof.
  induction n as [|n (s & Hn & Ha)]; simpl; [by exists task_slot0|]. rewrite Hn.
  destruct (churn_spec (mkTimer [s] (u32 (1 + Z.of_nat n))) s eq_refl Ha) as (s' & -> & Ha').
  exists s'. split; [|done]. f_equal. simpl. rewrite wrap_add_wrap_l by lia. f_equal. lia.
Qed.

(** The id counter wraps without a guard: after 2^32 - 1 tasks have come and
    gone, [schedule] succeeds with id 0, which is [kInvalidTimerTaskId]. *)
Theorem timer_id_wraps_to_invalid :
  let T := Nat.iter (Z.to_nat (2 ^ 32 - 1)) churn (timer_ctor 1) in
  (schedule T 0 (mkTarget 1) 1 1 (mkQos false false) true).1 = inl kInvalidTimerTaskId.
Proof.
  cbv zeta. destruct (churn_iter (Z.to_nat (2 ^ 32 - 1))) as (s & -> & Ha).
  rewrite Z2Nat.id by lia. unfold schedule. simpl. by rewrite Ha.
Qed.

(** ** The submissions of a pass *)

Section fire_balance.
Context (cfg : Config) (rules : option (list TargetAdmission)) (policy_ops : bool).
Context (priority_class : nat -> PriorityClass) (direct_eligible : nat -> bool) (rtc_budget_ns : nat -> Z).

(** [coordinator_.submit_from_task(target, e, qos)] *)
Definition timer_submit (t : TargetId) (e : Z) (q : EventQos) : cprog SubmitResult :=
  submit_from_task cfg rules policy_ops priority_class direct_eligible rtc_budget_ns t e q Ordinary.

Lemma timer_submit_balance t e q tr r a c :
  runs answer (timer_submit t e q) tr r -> account answer balance (a, c) tr = (a, S c).
Proof.
  intros Hr. unfold timer_submit, submit_from_task in Hr.
  destruct (submit_settles _ _ _ _ _ _ _ _ _ _ _ _ _ Hr) as (b & ln & rs & Hs & _).
  unfold submit_account in Hs.
  assert (Hm : misuse (account answer (post false e) acct0 tr) = false) by (by rewrite Hs).
  destruct (account_balance false e tr acct0 a c Hm) as [_ Hb]. rewrite Hs in Hb. simpl in Hb.
  rewrite !Nat.add_0_r in Hb. rewrite Hb. f_equal. destruct r as [[] z]; simpl; lia.
Qed.

Lemma account_app {G} (f : G -> forall c, answer c -> G) g tr1 tr2 :
  account answer f g (tr1 ++ tr2) = account answer f (account answer f g tr1) tr2.
Proof. apply fold_left_app. Qed.

Lemma fire_pending_balance ps fired skipped tr res a c :
  in_u 32 fired -> in_u 32 skipped -> fired + skipped + Z.of_nat (length ps) < 2 ^ 32 ->
  runs answer (fire_pending timer_submit ps fired skipped) tr res ->
  exists n : nat, account answer balance (a, c) tr = (a + n, c + n)%nat /\
    res.1 = fired + Z.of_nat n /\ res.1 + res.2 = fired + skipped + Z.of_nat (length ps).
Proof.
  revert fired skipped tr a c. induction ps as [|p ps IH]; intros fired skipped tr a c Hf Hs Hb Hr; cbn [length] in *.
  - destruct Hr as [-> ->]. exists 0%nat. simpl. split_and!; [f_equal; lia|lia|lia].
  - destruct Hr as ([e|] & tr' & -> & Hr).
    + apply (runs_bind_inv answer) in Hr as (tr1 & tr2 & r & -> & H1 & H2).
      rewrite (wrap_small 32 (fired + 1)) in H2 by (unfold in_u in *; lia).
      destruct (IH (fired + 1) skipped tr2 (S a) (S c)) as (n & Hn & Hf' & Ht); [unfold in_u in *; lia|done|lia|done|].
      exists (S n). change (existT (PoolAlloc (f_signal p)) (Some e) :: tr1 ++ tr2)
        with ([existT (PoolAlloc (f_signal p)) (Some e) : obs answer] ++ tr1 ++ tr2).
      rewrite !account_app. cbn [account fold_left projT1 projT2 balance fst snd].
      rewrite (timer_submit_balance _ _ _ _ _ _ _ H1), Hn. split_and!; [f_equal; lia|lia|lia].
    + cbn [fire_pending] in Hr. rewrite (wrap_small 32 (skipped + 1)) in Hr by (unfold in_u in *; lia).
      destruct (IH fired (skipped + 1) tr' a c) as (n & Hn & Hf' & Ht); [done|unfold in_u in *; lia|lia|done|].
      exists n. split_and!; [exact Hn|lia|lia].
Qed.
End fire_balance.

(** The timer never leaks an event.  Whatever the pool and the submit path
    answer, one pass over the collected firings accounts for each of them: the
    fired and the skipped counts add up to the firings, the fired count is the
    number of events allocated, and exactly that many references were given back
    or handed to staging. *)
Theorem timer_fire_balanced (cfg : Config) (rules : option (list TargetAdmission)) (policy_ops : bool)
    (priority_class : nat -> PriorityClass) (direct_eligible : nat -> bool) (rtc_budget_ns : nat -> Z)
    (ps : list PendingFire) (tr : list (obs answer)) (res : Z * Z) :
  Z.of_nat (length ps) < 2 ^ 32 ->
  runs answer (fire_pending (timer_submit cfg rules policy_ops priority_class direct_eligible rtc_budget_ns) ps 0 0) tr res ->
  res.1 + res.2 = Z.of_nat (length ps) /\
  account answer balance (0, 0)%nat tr = (Z.to_nat res.1, Z.to_nat res.1).
Proof.
  intros Hl Hr. destruct (fire_pending_balance cfg rules policy_ops priority_class direct_eligible rtc_budget_ns
    ps 0 0 tr res 0 0) as (n & -> & Hf & Ht); [unfold in_u; lia|unfold in_u; lia|lia|exact Hr|]. split; [lia|]. rewrite Hf, Z.add_0_l, Nat2Z.id. done.
Qed.

(** Two firings in the environment that grants everything. *)
Lemma timer_fire_balanced_witness :
  let prog := fire_pending (timer_submit DefaultConfig None false (fun _ => Normal) (fun _ => false) (fun _ => 100))
    [mkFire (mkTarget 1) 7 (mkQos false false); mkFire (mkTarget 2) 8 (mkQos true false)] 0 0 in
  (play answer (fun _ => granting) 0 prog).2 = (2, 0) /\
  account answer balance (0, 0)%nat (play answer (fun _ => granting) 0 prog).1 = (2, 2)%nat.
Proof.
  cbv zeta. split; [reflexivity|].
  refine (proj2 (timer_fire_balanced DefaultConfig None false (fun _ => Normal) (fun _ => false) (fun _ => 100)
    [mkFire (mkTarget 1) 7 (mkQos false false); mkFire (mkTarget 2) 8 (mkQos true false)] _ (2, 0) _ _)).
  - simpl. lia.
  - apply (play_runs answer (fun _ => granting) 0).
Defined.
