(* ===== verification/RegCache.v ===== *)
(** * Register fields and the register cache (include/coact/bitfield.hpp, reg_cache.hpp)

    [BitFieldView] on 32-bit words, and [PeriphRegCache]: a software shadow and
    the hardware registers behind a three-mode write protocol.  A field is its
    offset and width.  [bitfield_independent] is the read-modify-write contract;
    [cache_converges] says when the two copies agree. *)

From S2P Require Import Prelude.

#[local] Arguments Z.shiftl : simpl never.
#[local] Arguments Z.shiftr : simpl never.

(** ** BitFieldView *)

Record field := mkField { offset : Z; width : Z }.

(** The [static_assert]s of the view. *)
Definition field_ok (f : field) : bool :=
  (0 <? width f) && (0 <=? offset f) && (offset f + width f <=? 32).

Definition mask (f : field) : Z := u32 (Z.shiftl (u32 (Z.shiftl 1 (width f) - 1)) (offset f)).

Definition field_read (f : field) (reg : Z) : Z := u32 (Z.shiftr (Z.land reg (mask f)) (offset f)).

Definition field_write (f : field) (reg val : Z) : Z :=
  u32 (Z.lor (Z.land reg (Z.ldiff (2 ^ 32 - 1) (mask f))) (Z.land (u32 (Z.shiftl val (offset f))) (mask f))).

Definition fields_disjoint (a b : field) : bool := Z.land (mask a) (mask b) =? 0.

Lemma mask_bits f i :
  field_ok f = true -> 0 <= i ->
  Z.testbit (mask f) i = (offset f <=? i) && (i <? offset f + width f).
Proof.
  intros Hf Hi. unfold field_ok in Hf. split_bools. unfold mask.
  rewrite wrap_spec by lia. rewrite Z.shiftl_spec by lia.
  destruct (Z.leb_spec (offset f) i).
  - rewrite wrap_spec by lia. rewrite Z.shiftl_1_l, Z.sub_1_r, <- Z.ones_equiv.
    destruct (Z.ltb_spec i (offset f + width f)); simpl.
    + rewrite Z.ones_spec_low by lia.
      by rewrite (proj2 (Z.ltb_lt i 32)), (proj2 (Z.ltb_lt (i - offset f) 32)) by lia.
    + rewrite Z.ones_spec_high by lia. by rewrite !andb_false_r.
  - rewrite (Z.testbit_neg_r _ (i - offset f)) by lia. simpl. by rewrite andb_false_r.
Qed.

Lemma field_write_bits f reg val i :
  field_ok f = true -> 0 <= i ->
  Z.testbit (field_write f reg val) i =
  (i <? 32) && (if (offset f <=? i) && (i <? offset f + width f)
                then Z.testbit val (i - offset f) else Z.testbit reg i).
Proof.
  intros Hf Hi. unfold field_write. rewrite wrap_spec by lia. destruct (Z.ltb_spec i 32) as [H32|]; [|done]. cbn [andb].
  rewrite Z.lor_spec, !Z.land_spec, Z.ldiff_spec, wrap_spec, (mask_bits f i Hf Hi) by lia.
  change (2 ^ 32 - 1) with (Z.ones 32). rewrite Z.ones_spec_low by lia. rewrite (proj2 (Z.ltb_lt i 32) H32).
  destruct ((offset f <=? i) && (i <? offset f + width f)) eqn:Hin; cbn [andb negb].
  - split_bools. rewrite Z.shiftl_spec by lia. by rewrite andb_false_r, andb_true_r.
  - by rewrite !andb_false_r, andb_true_r, orb_false_r.
Qed.

Lemma field_read_bits f reg i :
  field_ok f = true -> 0 <= i ->
  Z.testbit (field_read f reg) i = (i <? width f) && Z.testbit reg (i + offset f).
Proof.
  intros Hf Hi. pose proof Hf as Hf'. unfold field_ok in Hf. split_bools. unfold field_read.
  rewrite wrap_spec by lia. rewrite Z.shiftr_spec by lia. rewrite Z.land_spec, mask_bits by (done || lia).
  rewrite (proj2 (Z.leb_le (offset f) (i + offset f))) by lia. simpl.
  destruct (Z.ltb_spec i (width f)).
  - rewrite (proj2 (Z.ltb_lt i 32)), (proj2 (Z.ltb_lt (i + offset f) _)) by lia. by rewrite andb_true_r.
  - rewrite (proj2 (Z.ltb_ge (i + offset f) _)) by lia. by rewrite !andb_false_r.
Qed.

Lemma fields_disjoint_bits a b i :
  field_ok a = true -> field_ok b = true -> fields_disjoint a b = true -> 0 <= i ->
  offset a <= i < offset a + width a -> ~ (offset b <= i < offset b + width b).
Proof.
  intros Ha Hb Hd Hi Hia Hib. unfold fields_disjoint in Hd. apply Z.eqb_eq in Hd.
  assert (Hbit : Z.testbit (Z.land (mask a) (mask b)) i = true).
  { rewrite Z.land_spec, !mask_bits by done. 
    by rewrite (proj2 (Z.leb_le (offset a) i)), (proj2 (Z.leb_le (offset b) i)), (proj2 (Z.ltb_lt i (offset a + width a))),
      (proj2 (Z.ltb_lt i (offset b + width b))) by lia. }
  rewrite Hd, Z.testbit_0_l in Hbit. done.
Qed.

(** A field write is an independent read-modify-write.  Reading the field
    back gives the written value cut to the field's width; every disjoint field
    reads as before, whatever bits the value had; the word stays 32 bits; and
    writing back the value a field holds changes nothing. *)
Theorem bitfield_independent (f g : field) (reg val : Z) :
  field_ok f = true -> field_ok g = true -> in_u 32 reg -> 0 <= val ->
  field_read f (field_write f reg val) = wrap (width f) val /\
  (fields_disjoint f g = true -> field_read g (field_write f reg val) = field_read g reg) /\
  in_u 32 (field_write f reg val) /\
  field_write f reg (field_read f reg) = reg.
Proof.
  intros Hf Hg Hr Hv. pose proof Hf as Hf'. unfold field_ok in Hf'. split_bools. split_and!.
  - apply Z.bits_inj'. intros i Hi. rewrite field_read_bits, field_write_bits, wrap_spec by (done || lia).
    destruct (Z.ltb_spec i (width f)); [|done]. simpl.
    rewrite (proj2 (Z.ltb_lt (i + offset f) 32)), (proj2 (Z.leb_le (offset f) _)), (proj2 (Z.ltb_lt (i + offset f) _)) by lia.
    simpl. f_equal. lia.
  - intros Hd. apply Z.bits_inj'. intros i Hi. pose proof Hg as Hg'. unfold field_ok in Hg'. split_bools.
    rewrite !field_read_bits by done. destruct (Z.ltb_spec i (width g)); [|done]. simpl.
    rewrite field_write_bits by (done || lia). rewrite (proj2 (Z.ltb_lt (i + offset g) 32)) by lia. simpl.
    destruct ((offset f <=? i + offset g) && (i + offset g <? offset f + width f)) eqn:Hin; [|done].
    split_bools. exfalso. apply (fields_disjoint_bits f g (i + offset g)); [done..|lia|lia|lia].
  - apply wrap_range. lia.
  - apply Z.bits_inj'. intros i Hi. rewrite field_write_bits by done. destruct (Z.ltb_spec i 32); simpl.
    + destruct ((offset f <=? i) && (i <? offset f + width f)) eqn:Hin; [|done]. split_bools.
      rewrite field_read_bits by (done || lia). rewrite (proj2 (Z.ltb_lt (i - offset f) _)) by lia. simpl. f_equal. lia.
    + symmetry. apply (testbit_above 32); [done|lia].
Qed.

Lemma bitfield_independent_witness :
  field_read (mkField 4 3) (field_write (mkField 4 3) 0xFF00 0x1D) = 5 /\
  field_read (mkField 8 8) (field_write (mkField 4 3) 0xFF00 0x1D) = 0xFF.
Proof.
  destruct (bitfield_independent (mkField 4 3) (mkField 8 8) 0xFF00 0x1D) as (H1 & H2 & _);
    [reflexivity|reflexivity|unfold in_u; lia|lia|].
  split; [rewrite H1; reflexivity|rewrite (H2 eq_refl); reflexivity].
Defined.

(** ** PeriphRegCache *)

Definition kPeriphRegCount : nat := 8.

Record RegCache := mkCache {
  shadow : list Z; hardware : list Z;
  cache_only : bool; cache_bypass : bool; cache_dirty : bool;
  dirty_regs : list bool;
  bypass_writes : Z; drift_events : Z; syncs : Z
}.

Definition cache_ctor : RegCache :=
  mkCache (replicate kPeriphRegCount 0) (replicate kPeriphRegCount 0) false false false
    (replicate kPeriphRegCount false) 0 0 0.

Definition modes_legal (c : RegCache) : bool := negb (cache_only c && cache_bypass c).

(** [write] is [write_with (fun _ => val)]; [write_field] is
    [write_with (fun w => field_write f w val)].  A register outside the block is
    undefined behaviour in the source (an index past a [std::array]); no call site
    has one, and here it changes neither copy. *)
Definition write_with (c : RegCache) (reg : nat) (upd : Z -> Z) : RegCache :=
  if cache_bypass c then
    mkCache (shadow c) (alter upd reg (hardware c)) (cache_only c) (cache_bypass c) (cache_dirty c)
      (dirty_regs c) (u32 (bypass_writes c + 1)) (drift_events c) (syncs c)
  else if cache_only c then
    mkCache (alter upd reg (shadow c)) (hardware c) (cache_only c) (cache_bypass c) true
      (<[reg := true]> (dirty_regs c)) (bypass_writes c) (drift_events c) (syncs c)
  else
    mkCache (alter upd reg (shadow c)) (alter upd reg (hardware c)) (cache_only c) (cache_bypass c) (cache_dirty c)
      (dirty_regs c) (bypass_writes c) (drift_events c) (syncs c).

Definition write (c : RegCache) (reg : nat) (val : Z) : RegCache := write_with c reg (fun _ => val).
Definition write_field (f : field) (c : RegCache) (reg : nat) (val : Z) : RegCache :=
  write_with c reg (fun w => field_write f w val).

Definition read_field (f : field) (c : RegCache) (reg : nat) : Z := field_read f (default 0 (shadow c !! reg)).

Definition full_repush (c : RegCache) : RegCache :=
  mkCache (shadow c) (shadow c) (cache_only c) (cache_bypass c) (cache_dirty c) (dirty_regs c)
    (bypass_writes c) (drift_events c) (syncs c).

Definition resync_from_hw (c : RegCache) : RegCache :=
  mkCache (hardware c) (hardware c) (cache_only c) (cache_bypass c) (cache_dirty c) (dirty_regs c)
    (bypass_writes c) (drift_events c) (syncs c).

(** The commit loop of [sync]: the dirty registers are copied. *)
Fixpoint commit_dirty (dirty : list bool) (sh hw : list Z) : list Z :=
  match dirty, sh, hw with
  | d :: dirty, s :: sh, h :: hw => (if d : bool then s else h) :: commit_dirty dirty sh hw
  | _, _, _ => hw
  end.

Definition sync (c : RegCache) : bool * RegCache :=
  if cache_only c then (false, c)
  else (true, mkCache (shadow c) (commit_dirty (dirty_regs c) (shadow c) (hardware c)) (cache_only c) (cache_bypass c)
                false (replicate kPeriphRegCount false) (bypass_writes c) (drift_events c) (u32 (syncs c + 1))).

Fixpoint drifted (sh hw : list Z) : Z :=
  match sh, hw with
  | s :: sh, h :: hw => (if s =? h then 0 else 1) + drifted sh hw
  | _, _ => 0
  end.

Definition audit (c : RegCache) : RegCache :=
  mkCache (shadow c) (hardware c) (cache_only c) (cache_bypass c) (cache_dirty c) (dirty_regs c)
    (bypass_writes c) (u32 (drift_events c + drifted (shadow c) (hardware c))) (syncs c).

Definition set_modes (c : RegCache) (only bypass : bool) : RegCache :=
  mkCache (shadow c) (hardware c) only bypass (cache_dirty c) (dirty_regs c) (bypass_writes c) (drift_events c) (syncs c).

(** [BypassGuard]: entering and leaving. *)
Definition guard_enter (c : RegCache) : RegCache := set_modes c (cache_only c) true.
Definition guard_exit (c : RegCache) : RegCache := resync_from_hw (set_modes c (cache_only c) false).

(** ** When the copies agree *)

Inductive cache_op :=
| CWrite (reg : nat) (val : Z)
| CWriteField (f : field) (reg : nat) (val : Z)
| CSetOnly (b : bool)
| CGuardEnter
| CGuardExit
| CRepush
| CSync
| CAudit.

Definition cache_exec (c : RegCache) (o : cache_op) : RegCache :=
  match o with
  | CWrite r v => write c r v
  | CWriteField f r v => write_field f c r v
  | CSetOnly b => set_modes c b (cache_bypass c)
  | CGuardEnter => guard_enter c
  | CGuardExit => guard_exit c
  | CRepush => full_repush c
  | CSync => (sync c).2
  | CAudit => audit c
  end.

Record cache_inv (c : RegCache) : Prop := {
  ci_sh : length (shadow c) = kPeriphRegCount;
  ci_hw : length (hardware c) = kPeriphRegCount;
  ci_di : length (dirty_regs c) = kPeriphRegCount;
  ci_agree : cache_bypass c = false -> forall r, dirty_regs c !! r = Some false -> shadow c !! r = hardware c !! r
}.

Lemma commit_dirty_lookup (dirty : list bool) (sh hw : list Z) (r : nat) (d : bool) :
  length sh = length dirty -> length hw = length dirty -> dirty !! r = Some d ->
  commit_dirty dirty sh hw !! r = (if d then sh !! r else hw !! r).
Proof.
  revert sh hw r. induction dirty as [|x dirty IH]; intros [|s sh] [|h hw] [|r] Hs Hh Hd; simplify_eq/=; [by destruct d|].
  apply IH; [lia|lia|done].
Qed.

Lemma length_commit_dirty dirty sh hw : length (commit_dirty dirty sh hw) = length hw.
Proof. revert sh hw. induction dirty as [|d dirty IH]; intros [|s sh] [|h hw]; simpl; auto. Qed.

Lemma write_with_inv c reg upd : cache_inv c -> cache_inv (write_with c reg upd).
Proof.
  intros [Hs Hh Hd Ha]. unfold write_with. destruct (cache_bypass c) eqn:Hb; [|destruct (cache_only c)].
  - split; simpl; [done|by rewrite length_alter|done|congruence].
  - split; simpl; [by rewrite length_alter|done|by rewrite length_insert|]. intros _ r Hr.
    apply lookup_insert_cases in Hr as [[_ ?]|[Hne Hr]]; [done|]. rewrite list_lookup_alter_ne by done. by apply Ha.
  - split; simpl; [by rewrite length_alter|by rewrite length_alter|done|]. intros _ r Hr.
    destruct (decide (reg = r)) as [->|Hne].
    + by rewrite !list_lookup_alter_eq, (Ha eq_refl r Hr).
    + rewrite !list_lookup_alter_ne by done. by apply Ha.
Qed.

(** A successful commit outside a bypass leaves the copies equal. *)
Lemma sync_agrees c : cache_inv c -> cache_only c = false -> cache_bypass c = false -> shadow (sync c).2 = hardware (sync c).2.
Proof.
  intros [Hs Hh Hd Ha] Ho Hb. unfold sync. rewrite Ho. simpl. apply list_eq. intros r.
  destruct (dirty_regs c !! r) as [d|] eqn:Hr.
  - rewrite (commit_dirty_lookup _ _ _ r d) by (done || congruence). destruct d; [done|by apply Ha].
  - apply lookup_ge_None in Hr. rewrite !lookup_ge_None_2; [done| |]; rewrite ?length_commit_dirty; lia.
Qed.

Lemma cache_exec_inv c o : cache_inv c -> cache_inv (cache_exec c o).
Proof.
  intros Hi. pose proof Hi as [Hs Hh Hd Ha]. destruct o; simpl.
  - by apply write_with_inv.
  - by apply write_with_inv.
  - by split.
  - by split.
  - by split.
  - by split.
  - destruct (cache_only c) eqn:Ho; unfold sync; rewrite Ho; [done|]. simpl.
    split; simpl; [done|by rewrite length_commit_dirty|done|].
    intros Hb r _. pose proof (sync_agrees c Hi Ho Hb) as He. unfold sync in He. rewrite Ho in He. simpl in He. by rewrite <- He.
  - by split.
Qed.

(** C40: The shadow and the hardware converge.  After any sequence of scalar and
    field writes, freeze windows, bypass guards, repushes, commits and audits:
    outside a bypass guard, a register that is not marked dirty holds the same
    value in both copies; a commit outside a freeze window and a guard makes the
    copies equal and clears every mark, and a commit inside a freeze window is
    refused and changes nothing; leaving a guard makes them equal. *)
Theorem cache_converges (os : list cache_op) :
  let c := fold_left cache_exec os cache_ctor in
  (cache_bypass c = false -> forall r, dirty_regs c !! r = Some false -> shadow c !! r = hardware c !! r) /\
  (cache_only c = false -> cache_bypass c = false ->
     (sync c).1 = true /\ shadow (sync c).2 = hardware (sync c).2 /\ dirty_regs (sync c).2 = replicate kPeriphRegCount false) /\
  (cache_only c = true -> sync c = (false, c)) /\
  shadow (guard_exit c) = hardware (guard_exit c).
Proof.
  assert (Hinv : forall os c, cache_inv c -> cache_inv (fold_left cache_exec os c)).
  { clear. induction os as [|o os IH]; intros c Hc; simpl; [done|]. by apply IH, cache_exec_inv. }
  assert (H0 : cache_inv cache_ctor) by (by split).
  specialize (Hinv os _ H0). cbv zeta. split_and!.
  - apply Hinv.
  - intros Ho Hb. split_and!; [unfold sync; by rewrite Ho|by apply sync_agrees|unfold sync; by rewrite Ho].
  - intros Ho. unfold sync. by rewrite Ho.
  - done.
Qed.

(** A guard between a freeze window and its commit loses the pending write:
    the register written as 5 while frozen reads 0 in both copies after the
    guard, and the following commit reports success without writing 5. *)
Theorem guard_exit_discards_pending :
  let frozen := fold_left cache_exec [CSetOnly true; CWrite 2 5; CSetOnly false] cache_ctor in
  shadow frozen !! 2%nat = Some 5 /\ dirty_regs frozen !! 2%nat = Some true /\
  (let c := fold_left cache_exec [CGuardEnter; CGuardExit] frozen in
   (sync c).1 = true /\ shadow (sync c).2 !! 2%nat = Some 0 /\ hardware (sync c).2 !! 2%nat = Some 0).
Proof. vm_compute. split_and!; reflexivity. Qed.
