(* ===== verification/TaskRegistry.v ===== *)
(** * Async tasks (include/coact/coro/task_id.hpp, detail/task_slot.hpp, task_registry.hpp)

    The packed [TaskId], the per-slot state machine and the registry operations
    under its mutex.  What the completion event meets on its way out (an empty
    pool, or the disposition of the submit path) is the argument [delivery].
    [registry_refines_table] compares whole histories of calls with a table of
    tasks written without the slots' flags and generations; it covers cells that
    gave out at most 255 names, [slot_lost_after_255] shows what happens then. *)

From S2P Require Import Prelude Vocab.

#[local] Arguments Z.land : simpl never.
#[local] Arguments Z.lor : simpl never.
#[local] Arguments Z.shiftl : simpl never.
#[local] Arguments Z.shiftr : simpl never.
#[local] Arguments Z.eqb : simpl never.

(** ** TaskId *)

Definition id_slot (value : Z) : Z := u16 (Z.land value 0xFF).
Definition id_generation (value : Z) : Z := u16 (Z.shiftr value 8).
Definition id_make (slot gen : Z) : Z := u16 (Z.lor (Z.shiftl (Z.land gen 0xFF) 8) (Z.land slot 0xFF)).
Definition kInvalidTaskId : Z := 0.

Lemma low_byte x : Z.land x 0xFF = x `mod` 256.
Proof. change 0xFF with (Z.ones 8). by rewrite Z.land_ones by lia. Qed.

Lemma id_make_sum slot gen : in_u 8 slot -> id_make slot gen = (gen `mod` 256) * 256 + slot.
Proof.
  intros Hs. unfold id_make. rewrite !low_byte, (Z.mod_small slot) by (unfold in_u in Hs; lia).
  pose proof (Z.mod_pos_bound gen 256 ltac:(lia)). unfold in_u in Hs.
  rewrite Z.shiftl_mul_pow2 by lia. change (2 ^ 8) with 256.
  rewrite <- Z.lxor_lor, <- Z.add_nocarry_lxor.
  - apply wrap_small. unfold in_u. lia.
  - apply Z.bits_inj'. intros i Hi. rewrite Z.land_spec, Z.testbit_0_l. change 256 with (2 ^ 8).
    destruct (Z.lt_ge_cases i 8); [rewrite Z.mul_pow2_bits_low by lia; done|].
    by rewrite (testbit_above 8 slot), andb_false_r by (unfold in_u; lia).
  - apply Z.bits_inj'. intros i Hi. rewrite Z.land_spec, Z.testbit_0_l. change 256 with (2 ^ 8).
    destruct (Z.lt_ge_cases i 8); [rewrite Z.mul_pow2_bits_low by lia; done|].
    by rewrite (testbit_above 8 slot), andb_false_r by (unfold in_u; lia).
Qed.

Lemma id_make_slot slot gen : in_u 8 slot -> id_slot (id_make slot gen) = slot.
Proof.
  intros Hs. rewrite id_make_sum by done. unfold id_slot. rewrite low_byte.
  replace (gen `mod` 256 * 256 + slot) with (slot + gen `mod` 256 * 256) by lia. rewrite Z.mod_add by lia.
  rewrite (Z.mod_small slot) by (unfold in_u in Hs; lia). apply wrap_small. unfold in_u in *. lia.
Qed.

Lemma id_make_generation slot gen : in_u 8 slot -> id_generation (id_make slot gen) = gen `mod` 256.
Proof.
  intros Hs. rewrite id_make_sum by done. unfold id_generation. rewrite Z.shiftr_div_pow2 by lia. change (2 ^ 8) with 256.
  rewrite Z.div_add_l, (Z.div_small slot), Z.add_0_r by (unfold in_u in Hs; lia). apply wrap_small.
  pose proof (Z.mod_pos_bound gen 256 ltac:(lia)). unfold in_u. lia.
Qed.

(** ** Slots *)

Inductive TaskSlotState := kFree | kCreated | kWaiting | kCompleted.

#[export] Instance TaskSlotState_eq_dec : EqDecision TaskSlotState.
Proof. solve_decision. Defined.

Inductive TaskError :=
| kOk | kSlotsFull | kInvalidId | kAlreadyCompleted | kCancelled | kTargetRejected
| kPoolExhausted | kResultUnavailable | kResultTaken | kAwaiterBusy.

#[export] Instance TaskError_eq_dec : EqDecision TaskError.
Proof. solve_decision. Defined.

Section registry.
(** The result type; [zero] is the wiped storage. *)
Context {V : Type} (zero : V).

Record TaskSlot := mkSlot {
  generation : Z; state : TaskSlotState; error : TaskError;
  waiter : TargetId; waiter_signal : Z; slot_qos : EventQos;
  has_result : bool; has_error : bool; result : V
}.

Definition task_slot_ctor : TaskSlot := mkSlot 1 kFree kOk kInvalidTarget 0 (mkQos false false) false false zero.

Definition next_generation (g : Z) : Z := let g' := u16 (g + 1) in if 0 =? g' then 1 else g'.

Definition slot_release (s : TaskSlot) : TaskSlot :=
  mkSlot (next_generation (generation s)) kFree kOk kInvalidTarget 0 (slot_qos s) false false zero.

Record Registry := mkReg { rslots : list TaskSlot; rejected_count_ : Z; submit_failures_ : Z }.

Definition registry_ctor (Capacity : nat) : Registry := mkReg (replicate Capacity task_slot_ctor) 0 0.

Definition find_locked (R : Registry) (id : Z) : option TaskSlot :=
  if kInvalidTaskId =? id then None
  else
    let index := id_slot id in
    if Z.of_nat (length (rslots R)) <=? index then None
    else
      s ← rslots R !! Z.to_nat index;
      if bool_decide (state s = kFree) then None
      else if negb (generation s =? id_generation id) then None
      else Some s.

Definition put_slot (R : Registry) (id : Z) (s : TaskSlot) (rejected failed : Z) : Registry :=
  mkReg (<[Z.to_nat (id_slot id) := s]> (rslots R)) (u32 (rejected_count_ R + rejected)) (u32 (submit_failures_ R + failed)).

Inductive delivery := PoolEmpty | Submitted (d : SubmitDisposition).

Definition delivered (d : SubmitDisposition) : bool :=
  match d with Direct | Queued | Merged => true | _ => false end.

(** The completion event of a slot that just completed; the number of
    failures counted. *)
Definition post_completion_locked (s : TaskSlot) (dv : delivery) : (unit + TaskError) * TaskSlot * Z :=
  if target_eqb kInvalidTarget (waiter s) then (inl tt, s, 0)
  else match dv with
  | PoolEmpty => (inr kPoolExhausted, slot_release s, 1)
  | Submitted d => if delivered d then (inl tt, s, 0) else (inr kTargetRejected, slot_release s, 1)
  end.

Definition create (R : Registry) (w : TargetId) (signal : Z) (q : EventQos) : (Z + TaskError) * Registry :=
  match find_idx (fun s => bool_decide (state s = kFree)) (rslots R) with
  | Some i =>
    match rslots R !! i with
    | Some s =>
      let s' := mkSlot (generation s) kCreated (error s) w signal q (has_result s) (has_error s) (result s) in
      (inl (id_make (Z.of_nat i) (generation s)), mkReg (<[i := s']> (rslots R)) (rejected_count_ R) (submit_failures_ R))
    | None => (inr kSlotsFull, R)
    end
  | None => (inr kSlotsFull, R)
  end.

(** An operation on a slot: its answer, the slot afterwards, the rejections
    and the delivery failures it counts. *)
Definition slot_op (A : Type) : Type := TaskSlot -> (A + TaskError) * TaskSlot * Z * Z.

Definition with_slot {A} (R : Registry) (id : Z) (f : slot_op A) : (A + TaskError) * Registry :=
  match find_locked R id with
  | None => (inr kInvalidId, R)
  | Some s => let '(a, s', rej, fl) := f s in (a, put_slot R id s' rej fl)
  end.

Definition settle (dv : delivery) (s : TaskSlot) : (unit + TaskError) * TaskSlot * Z * Z :=
  let '(a, s', fl) := post_completion_locked s dv in (a, s', 0, fl).

Definition complete_op (value : V) (dv : delivery) : slot_op unit := fun s =>
  if bool_decide (state s = kCompleted) then
    (inr (if has_error s && bool_decide (error s = kCancelled) then kCancelled else kAlreadyCompleted), s, 1, 0)
  else settle dv (mkSlot (generation s) kCompleted (error s) (waiter s) (waiter_signal s) (slot_qos s) true false value).

Definition fail_op (err : TaskError) (dv : delivery) : slot_op unit := fun s =>
  if bool_decide (state s = kCompleted) then (inr kAlreadyCompleted, s, 1, 0)
  else settle dv (mkSlot (generation s) kCompleted err (waiter s) (waiter_signal s) (slot_qos s) false true (result s)).

Definition cancel_op (dv : delivery) : slot_op unit := fail_op kCancelled dv.

Definition set_awaiter_op (w : TargetId) (signal : Z) : slot_op unit := fun s =>
  if bool_decide (state s = kWaiting) then (inr kAwaiterBusy, s, 1, 0)
  else if bool_decide (state s = kCompleted) then (inr kAlreadyCompleted, s, 0, 0)
  else (inl tt, mkSlot (generation s) kWaiting (error s) w signal (slot_qos s) (has_result s) (has_error s) (result s), 0, 0).

Definition take_result_op : slot_op V := fun s =>
  if negb (bool_decide (state s = kCompleted)) then (inr kResultUnavailable, s, 0, 0)
  else if has_error s then (inr (error s), s, 0, 0)
  else if negb (has_result s) then (inr kResultTaken, s, 0, 0)
  else (inl (result s),
        mkSlot (generation s) (state s) (error s) (waiter s) (waiter_signal s) (slot_qos s) false (has_error s) (result s),
        0, 0).

Definition release_op : slot_op unit := fun s => (inl tt, slot_release s, 0, 0).

Definition complete (R : Registry) (id : Z) (value : V) (dv : delivery) := with_slot R id (complete_op value dv).
Definition fail (R : Registry) (id : Z) (err : TaskError) (dv : delivery) := with_slot R id (fail_op err dv).
Definition cancel (R : Registry) (id : Z) (dv : delivery) := with_slot R id (cancel_op dv).
Definition set_awaiter (R : Registry) (id : Z) (w : TargetId) (signal : Z) := with_slot R id (set_awaiter_op w signal).
Definition take_result (R : Registry) (id : Z) := with_slot R id take_result_op.
Definition release_task (R : Registry) (id : Z) := with_slot R id release_op.

Definition is_ready (R : Registry) (id : Z) : bool :=
  match find_locked R id with Some s => bool_decide (state s = kCompleted) | None => false end.
Definition task_has_error (R : Registry) (id : Z) : bool :=
  match find_locked R id with Some s => has_error s | None => false end.
Definition take_error (R : Registry) (id : Z) : TaskError :=
  match find_locked R id with Some s => if has_error s then error s else kOk | None => kOk end.
Definition used (R : Registry) : Z := Z.of_nat (countb (fun s => negb (bool_decide (state s = kFree))) (rslots R)).
End registry.

Arguments TaskSlot : clear implicits.
Arguments Registry : clear implicits.

(** ** The table view *)

Section table.
Context {V : Type} (zero : V).
Implicit Types (R : Registry V) (s : TaskSlot V).

(** No slot has outlived the 8 generation bits of its ids. *)
Record reg_ok (R : Registry V) : Prop := {
  ro_cap : (length (rslots R) <= 256)%nat;
  ro_gen : forall i s, rslots R !! i = Some s -> 1 <= generation s <= 255
}.

Lemma id_split id : in_u 16 id -> in_u 8 (id_slot id) /\ id = id_generation id * 256 + id_slot id /\ 0 <= id_generation id < 256.
Proof.
  intros Hid. unfold id_slot, id_generation. rewrite low_byte, Z.shiftr_div_pow2 by lia. change (2 ^ 8) with 256.
  unfold in_u in *. pose proof (Z.mod_pos_bound id 256 ltac:(lia)). pose proof (Z.div_mod id 256 ltac:(lia)).
  assert (0 <= id / 256 < 256) by (split; [apply Z.div_pos|apply Z.div_lt_upper_bound]; lia).
  rewrite !wrap_small by (unfold in_u; lia). lia.
Qed.

Lemma find_locked_Some R id s :
  find_locked R id = Some s <->
  id <> kInvalidTaskId /\ rslots R !! Z.to_nat (id_slot id) = Some s /\
  Z.of_nat (length (rslots R)) > id_slot id /\ state s <> kFree /\ generation s = id_generation id.
Proof.
  unfold find_locked. destruct (Z.eqb_spec kInvalidTaskId id); [naive_solver|].
  destruct (Z.leb_spec (Z.of_nat (length (rslots R))) (id_slot id)); [naive_solver lia|].
  destruct (rslots R !! Z.to_nat (id_slot id)) as [x|]; simpl; [|naive_solver].
  case_bool_decide; [naive_solver|]. destruct (Z.eqb_spec (generation x) (id_generation id)); simpl; naive_solver lia.
Qed.

(** An occupied slot is found under the id made for it. *)
Lemma find_made R i s :
  reg_ok R -> rslots R !! i = Some s -> state s <> kFree ->
  find_locked R (id_make (Z.of_nat i) (generation s)) = Some s.
Proof.
  intros [Hc Hg] Hi Hs. specialize (Hg _ _ Hi). pose proof (lookup_lt_Some _ _ _ Hi) as Hlt.
  assert (H8 : in_u 8 (Z.of_nat i)) by (unfold in_u; lia).
  apply find_locked_Some. rewrite id_make_slot, id_make_generation, Nat2Z.id by done.
  rewrite (Z.mod_small (generation s)) by lia. split_and!; [|done|lia|done|done].
  rewrite id_make_sum, Z.mod_small by (done || lia). unfold kInvalidTaskId. lia.
Qed.

(** What a slot operation may do to an occupied slot. *)
Definition slot_step s s' : Prop :=
  (generation s' = generation s /\ state s' <> kFree) \/ s' = slot_release zero s.

Inductive reg_op :=
| RComplete (v : V) (dv : delivery) | RFail (err : TaskError) (dv : delivery) | RCancel (dv : delivery)
| RSetAwaiter (w : TargetId) (signal : Z) | RTake | RRelease.

Definition as_option {A} (g : A -> option V) (r : (A + TaskError) * TaskSlot V * Z * Z) :
    (option V + TaskError) * TaskSlot V * Z * Z :=
  let '(a, s, rej, fl) := r in
  (match a with inl x => inl (g x) | inr e => inr e end, s, rej, fl).

Definition op_of (o : reg_op) : slot_op (option V) := fun s =>
  match o with
  | RComplete v dv => as_option (fun _ => None) (complete_op zero v dv s)
  | RFail e dv => as_option (fun _ => None) (fail_op zero e dv s)
  | RCancel dv => as_option (fun _ => None) (cancel_op zero dv s)
  | RSetAwaiter w sg => as_option (fun _ => None) (set_awaiter_op w sg s)
  | RTake => as_option Some (take_result_op s)
  | RRelease => as_option (fun _ => None) (release_op zero s)
  end.

Lemma settle_step dv s s0 :
  generation s = generation s0 -> slot_qos s = slot_qos s0 -> state s = kCompleted -> slot_step s0 (settle zero dv s).1.1.2.
Proof.
  intros Hg Hq Hc. unfold settle, post_completion_locked, slot_step.
  assert (Hr : slot_release zero s = slot_release zero s0) by (unfold slot_release; by rewrite Hg, Hq).
  destruct (target_eqb _ _); simpl; [left; split; [done|congruence]|]. destruct dv as [|d]; simpl; [by right|].
  destruct (delivered d); simpl; [left; split; [done|congruence]|by right].
Qed.

Lemma op_of_step o s : state s <> kFree -> slot_step s (op_of o s).1.1.2.
Proof.
  intros Hs. assert (Hsame : slot_step s s) by (left; done).
  assert (Has : forall A (g : A -> option V) r, (as_option g r).1.1.2 = r.1.1.2) by (by intros A g [[[a x] y] z]).
  destruct o as [v dv|e dv|dv|w sg| |]; cbn [op_of]; rewrite Has.
  - unfold complete_op. case_bool_decide; [done|]. by apply settle_step.
  - unfold fail_op. case_bool_decide; [done|]. by apply settle_step.
  - unfold cancel_op, fail_op. case_bool_decide; [done|]. by apply settle_step.
  - unfold set_awaiter_op. do 2 (case_bool_decide; [done|]). by left.
  - unfold take_result_op. case_bool_decide as Hc; simpl; [|done]. destruct (has_error s); [done|].
    destruct (has_result s); simpl; [|done]. left. simpl. by rewrite Hc.
  - by right.
Qed.

Lemma find_put R id s s' rej fl id' :
  in_u 16 id -> in_u 16 id' -> find_locked R id = Some s -> slot_step s s' ->
  find_locked (put_slot R id s' rej fl) id' =
    if decide (id' = id) then (if bool_decide (state s' = kFree) then None else Some s') else find_locked R id'.
Proof.
  intros Hid Hid' Hf Hst. destruct (id_split id Hid) as (Hs8 & Hsum & _), (id_split id' Hid') as (Hs8' & Hsum' & _).
  apply find_locked_Some in Hf as (Hnz & Hi & Hlt & Hs & Hg). unfold find_locked, put_slot. simpl. rewrite length_insert.
  destruct (decide (id' = id)) as [->|Hne].
  - rewrite (proj2 (Z.eqb_neq _ _)) by congruence. rewrite (proj2 (Z.leb_gt _ _)) by lia.
    rewrite list_lookup_insert_eq by (by eapply lookup_lt_Some). simpl.
    case_bool_decide as Hfree; [done|]. destruct Hst as [[-> _] | ->]; [|done]. by rewrite Hg, Z.eqb_refl.
  - destruct (Z.eqb_spec kInvalidTaskId id'); [done|].
    destruct (Z.leb_spec (Z.of_nat (length (rslots R))) (id_slot id')); [done|].
    destruct (decide (id_slot id' = id_slot id)) as [He|Hsl].
    + assert (Hgne : id_generation id' <> generation s) by (rewrite Hg; intros E; apply Hne; lia).
      rewrite He, Hi, list_lookup_insert_eq by (by eapply lookup_lt_Some). simpl.
      rewrite (bool_decide_eq_false_2 _ Hs), (proj2 (Z.eqb_neq (generation s) _)) by congruence. simpl.
      destruct Hst as [[-> Hs'] | ->]; [|done].
      by rewrite (bool_decide_eq_false_2 _ Hs'), (proj2 (Z.eqb_neq (generation s) _)) by congruence.
    + rewrite list_lookup_insert_ne; [done|]. unfold in_u in *. lia.
Qed.

Lemma find_create R (id : Z) s0 (i : nat) w sg q (id' : Z) :
  reg_ok R -> in_u 16 id' -> rslots R !! i = Some s0 -> state s0 = kFree -> id = id_make (Z.of_nat i) (generation s0) ->
  let s' := mkSlot (generation s0) kCreated (error s0) w sg q (has_result s0) (has_error s0) (result s0) in
  let R' := mkReg (<[i := s']> (rslots R)) (rejected_count_ R) (submit_failures_ R) in
  reg_ok R' /\ find_locked R id = None /\
  find_locked R' id' = if decide (id' = id) then Some s' else find_locked R id'.
Proof.
  intros Hok Hid' Hi Hfree -> s' R'. pose proof Hok as [Hc Hg]. pose proof (Hg _ _ Hi) as Hgi.
  pose proof (lookup_lt_Some _ _ _ Hi) as Hlt. assert (H8 : in_u 8 (Z.of_nat i)) by (unfold in_u; lia).
  assert (Hok' : reg_ok R').
  { split; simpl; [by rewrite length_insert|]. intros j x Hx.
    apply lookup_insert_cases in Hx as [[-> ->]|[_ Hx]]; [done|by eapply Hg]. }
  assert (Hi' : rslots R' !! i = Some s') by (by apply list_lookup_insert_eq).
  split_and!; [done| |].
  - destruct (find_locked R _) as [x|] eqn:Hf; [|done]. apply find_locked_Some in Hf as (_ & Hx & _ & Hs & _).
    rewrite id_make_slot, Nat2Z.id, Hi in Hx by done. by simplify_eq.
  - destruct (decide (id' = _)) as [->|Hne]; [by apply (find_made R' i s')|].
    destruct (id_split id' Hid') as (Hs8 & Hsum & Hgb). unfold find_locked. simpl. rewrite length_insert.
    destruct (Z.eqb_spec kInvalidTaskId id'); [done|].
    destruct (Z.leb_spec (Z.of_nat (length (rslots R))) (id_slot id')); [done|].
    destruct (decide (Z.to_nat (id_slot id') = i)) as [He|Hsl]; [|by rewrite list_lookup_insert_ne by done].
    rewrite He, Hi, list_lookup_insert_eq by done. simpl. rewrite (bool_decide_eq_true_2 _ Hfree).
    rewrite (proj2 (Z.eqb_neq (generation s0) _)); [done|]. intros Hge. apply Hne.
    rewrite id_make_sum, Z.mod_small by (done || lia). unfold in_u in *. lia.
Qed.
End table.

(** A call acts on the task found under its id and on no other. *)
Lemma calls_are_local {V} (zero : V) (R : Registry V) (o : reg_op) (w : TargetId) (sg : Z) (q : EventQos)
    (id id' : Z) :
  reg_ok R -> in_u 16 id -> in_u 16 id' ->
  (let r := with_slot R id (op_of zero o) in
   match find_locked R id with
   | None => r = (inr kInvalidId, R)
   | Some s =>
     let s' := (op_of zero o s).1.1.2 in
     r.1 = (op_of zero o s).1.1.1 /\
     find_locked r.2 id' =
       if decide (id' = id) then (if bool_decide (state s' = kFree) then None else Some s') else find_locked R id'
   end) /\
  match create R w sg q with
  | (inl nid, R') =>
    reg_ok R' /\ find_locked R nid = None /\
    exists s, state s = kCreated /\ waiter s = w /\ waiter_signal s = sg /\
      find_locked R' id' = if decide (id' = nid) then Some s else find_locked R id'
  | (inr e, R') => e = kSlotsFull /\ R' = R /\ forall i s, rslots R !! i = Some s -> state s <> kFree
  end.
Proof.
  intros Hok Hid Hid'. split.
  - cbv zeta. unfold with_slot. destruct (find_locked R id) as [s|] eqn:Hf; [|done].
    pose proof Hf as Hf'. apply find_locked_Some in Hf' as (_ & _ & _ & Hs & _).
    pose proof (op_of_step zero o s Hs) as Hst. destruct (op_of zero o s) as [[[a s'] rej] fl]. simpl in *.
    split; [done|]. by apply (find_put zero R id s s').
  - unfold create. destruct (find_idx _ (rslots R)) as [i|] eqn:Hf.
    + apply find_idx_Some in Hf as (s & Hi & Hfree & _). apply bool_decide_eq_true in Hfree. rewrite Hi.
      destruct (find_create R _ s i w sg q id' Hok Hid' Hi Hfree eq_refl) as (Hok' & Hn & Hv).
      split_and!; [done|done|]. eexists. split; [|split; [|split; [|exact Hv]]]; done.
    + split_and!; [done|done|]. rewrite find_idx_None in Hf. intros i s Hi. specialize (Hf i s Hi).
      by apply bool_decide_eq_false in Hf.
Qed.

(** ** The specification: cells that hold one task after another

    A cell counts the tasks that ended in it; the [k]-th task of cell [i] is named
    [256 * (k + 1) + i], so no name is given twice. *)

Section cells.
Context {V : Type}.

Inductive task_phase := TPending | TAwaited | TSucceeded (r : option V) | TFailed (e : TaskError).
Record task := mkTask { t_phase : task_phase; t_waiter : TargetId; t_signal : Z; t_qos : EventQos }.

Record table := mkTable { cells : list (nat * option task); tb_rejected : Z; tb_failures : Z }.

Definition name_of (i k : nat) : Z := Z.of_nat (256 * (k + 1) + i).

Definition occupant (T : table) (id : Z) : option task :=
  let i := Z.to_nat (id `mod` 256) in
  match cells T !! i with
  | Some (k, Some t) => if id =? name_of i k then Some t else None
  | _ => None
  end.

(** The answer, the task afterwards ([None]: it ended), the rejections and the
    delivery failures counted. *)
Definition outcome_of : Type := (option V + TaskError) * option task * Z * Z.

Definition set_phase (t : task) (p : task_phase) : task := mkTask p (t_waiter t) (t_signal t) (t_qos t).

(** A settled task stays for its result, unless somebody waits for its event and
    the event cannot be handed over. *)
Definition hand_over (dv : delivery) (t : task) : outcome_of :=
  if bool_decide (raw (t_waiter t) = 0) then (inl None, Some t, 0, 0)
  else match dv with
       | PoolEmpty => (inr kPoolExhausted, None, 0, 1)
       | Submitted (Direct | Queued | Merged) => (inl None, Some t, 0, 0)
       | Submitted _ => (inr kTargetRejected, None, 0, 1)
       end.

Definition open_phase (p : task_phase) : bool := match p with TPending | TAwaited => true | _ => false end.

Definition task_op (o : reg_op) (t : task) : outcome_of :=
  match o with
  | RComplete v dv =>
    match t_phase t with
    | TPending | TAwaited => hand_over dv (set_phase t (TSucceeded (Some v)))
    | TFailed kCancelled => (inr kCancelled, Some t, 1, 0)
    | _ => (inr kAlreadyCompleted, Some t, 1, 0)
    end
  | RFail e dv => if open_phase (t_phase t) then hand_over dv (set_phase t (TFailed e)) else (inr kAlreadyCompleted, Some t, 1, 0)
  | RCancel dv => if open_phase (t_phase t) then hand_over dv (set_phase t (TFailed kCancelled)) else (inr kAlreadyCompleted, Some t, 1, 0)
  | RSetAwaiter w sg =>
    match t_phase t with
    | TPending => (inl None, Some (mkTask TAwaited w sg (t_qos t)), 0, 0)
    | TAwaited => (inr kAwaiterBusy, Some t, 1, 0)
    | _ => (inr kAlreadyCompleted, Some t, 0, 0)
    end
  | RTake =>
    match t_phase t with
    | TSucceeded (Some v) => (inl (Some v), Some (set_phase t (TSucceeded None)), 0, 0)
    | TSucceeded None => (inr kResultTaken, Some t, 0, 0)
    | TFailed e => (inr e, Some t, 0, 0)
    | _ => (inr kResultUnavailable, Some t, 0, 0)
    end
  | RRelease => (inl None, None, 0, 0)
  end.

Definition is_vacant (c : nat * option task) : bool := match c.2 with None => true | Some _ => false end.

(** [None]: the lowest vacant cell has used up its names. *)
Definition table_create (T : table) (w : TargetId) (sg : Z) (q : EventQos) : option ((Z + TaskError) * table) :=
  match find_idx is_vacant (cells T) with
  | None => Some (inr kSlotsFull, T)
  | Some i =>
    let k := default 0%nat (fst <$> cells T !! i) in
    if (254 <? k)%nat then None
    else Some (inl (name_of i k), mkTable (<[i := (k, Some (mkTask TPending w sg q))]> (cells T)) (tb_rejected T) (tb_failures T))
  end.

Definition table_op (T : table) (id : Z) (o : reg_op) : (option V + TaskError) * table :=
  match occupant T id with
  | None => (inr kInvalidId, T)
  | Some t =>
    let i := Z.to_nat (id `mod` 256) in
    let k := default 0%nat (fst <$> cells T !! i) in
    let '(a, t', rej, fl) := task_op o t in
    (a, mkTable (<[i := match t' with Some t' => (k, Some t') | None => (S k, None) end]> (cells T))
          (u32 (tb_rejected T + rej)) (u32 (tb_failures T + fl)))
  end.

Inductive reg_call := CCreate (w : TargetId) (sg : Z) (q : EventQos) | COp (id : Z) (o : reg_op (V := V)).
Inductive reg_answer := AId (r : Z + TaskError) | AOp (r : option V + TaskError).

Definition table_call (T : table) (c : reg_call) : option (reg_answer * table) :=
  match c with
  | CCreate w sg q => '(r, T') ← table_create T w sg q; Some (AId r, T')
  | COp id o => let '(r, T') := table_op T id o in Some (AOp r, T')
  end.
Fixpoint table_run (T : table) (cs : list reg_call) : option (list reg_answer * table) :=
  match cs with
  | [] => Some ([], T)
  | c :: cs => '(a, T1) ← table_call T c; '(r, T2) ← table_run T1 cs; Some (a :: r, T2)
  end.
Definition table0 (Capacity : nat) : table := mkTable (replicate Capacity (0%nat, None)) 0 0.

(** The queries. *)
Definition t_ready (o : option task) : bool := match o with Some t => negb (open_phase (t_phase t)) | None => false end.
Definition t_failed (o : option task) : bool := match o with Some t => match t_phase t with TFailed _ => true | _ => false end | None => false end.
Definition t_error (o : option task) : TaskError :=
  match o with Some t => match t_phase t with TFailed e => e | _ => kOk end | None => kOk end.

Definition issued_ids (l : list reg_answer) : list Z := omap (fun a => match a with AId (inl id) => Some id | _ => None end) l.
Definition call_ok (c : reg_call) : Prop := match c with COp id _ => in_u 16 id | CCreate _ _ _ => True end.
End cells.
Arguments task : clear implicits.
Arguments table : clear implicits.
Arguments reg_call : clear implicits.
Arguments reg_answer : clear implicits.

(** The same calls on the registry. *)
Section calls.
Context {V : Type} (zero : V).

Definition reg_apply (R : Registry V) (c : reg_call V) : reg_answer V * Registry V :=
  match c with
  | CCreate w sg q => let '(r, R') := create R w sg q in (AId r, R')
  | COp id o => let '(r, R') := with_slot R id (op_of zero o) in (AOp r, R')
  end.
Fixpoint reg_run (R : Registry V) (cs : list (reg_call V)) : list (reg_answer V) * Registry V :=
  match cs with
  | [] => ([], R)
  | c :: cs => let '(a, R1) := reg_apply R c in let '(l, R2) := reg_run R1 cs in (a :: l, R2)
  end.

(** ** The slots stand for the cells *)

Definition task_rel (s : TaskSlot V) (t : task V) : Prop :=
  waiter s = t_waiter t /\ waiter_signal s = t_signal t /\ slot_qos s = t_qos t /\
  match t_phase t with
  | TPending => state s = kCreated /\ has_result s = false /\ has_error s = false
  | TAwaited => state s = kWaiting /\ has_result s = false /\ has_error s = false
  | TSucceeded r => state s = kCompleted /\ has_error s = false /\
      match r with Some v => has_result s = true /\ result s = v | None => has_result s = false end
  | TFailed e => state s = kCompleted /\ has_error s = true /\ error s = e
  end.

Definition cell_rel (s : TaskSlot V) (c : nat * option (task V)) : Prop :=
  generation s = Z.of_nat c.1 + 1 /\
  match c.2 with
  | None => (c.1 <= 255)%nat /\ state s = kFree /\ has_result s = false /\ has_error s = false
  | Some t => (c.1 <= 254)%nat /\ task_rel s t
  end.

Record cells_for (R : Registry V) (T : table V) : Prop := {
  cf_cells : Forall2 cell_rel (rslots R) (cells T);
  cf_len : (length (rslots R) <= 256)%nat;
  cf_rej : rejected_count_ R = tb_rejected T;
  cf_fail : submit_failures_ R = tb_failures T
}.

Lemma id_parts id : in_u 16 id -> id_slot id = id `mod` 256 /\ id_generation id = id / 256 /\ 0 <= id / 256 < 256.
Proof using Type.
  intros Hid. destruct (id_split id Hid) as (_ & Hs & Hg). unfold id_slot, id_generation in *.
  rewrite low_byte, Z.shiftr_div_pow2 in * by lia. change (2 ^ 8) with 256 in *.
  pose proof (Z.mod_pos_bound id 256 ltac:(lia)). unfold in_u in Hid.
  assert (0 <= id / 256 < 256) by (split; [apply Z.div_pos|apply Z.div_lt_upper_bound]; lia).
  rewrite !wrap_small by (unfold in_u; lia). done.
Qed.

Lemma find_occupant R T id : cells_for R T -> in_u 16 id ->
  match occupant T id with
  | None => find_locked R id = None
  | Some t => exists s k, find_locked R id = Some s /\ rslots R !! Z.to_nat (id `mod` 256) = Some s /\
      cells T !! Z.to_nat (id `mod` 256) = Some (k, Some t) /\ cell_rel s (k, Some t)
  end.
Proof using Type.
  intros [Hc Hl _ _] Hid. destruct (id_parts id Hid) as (Hs & Hg & Hgr). pose proof (Z.mod_pos_bound id 256 ltac:(lia)) as Hm.
  pose proof (Z.div_mod id 256 ltac:(lia)) as Hdm. unfold occupant, find_locked. rewrite Hs, Hg.
  pose proof (Forall2_length _ _ _ Hc) as Hlen. set (i := Z.to_nat (id `mod` 256)) in *.
  destruct (cells T !! i) as [[k o]|] eqn:Hi.
  - destruct (Forall2_lookup_r _ _ _ _ _ Hc Hi) as (s & Hsl & Hrel). pose proof Hrel as [Hgen Ho]. cbn [fst snd] in Hgen, Ho.
    assert (Hlt : (i < length (rslots R))%nat) by (by eapply lookup_lt_Some).
    rewrite (proj2 (Z.leb_gt _ _)) by lia. rewrite Hsl. cbn [mbind option_bind].
    destruct o as [t|].
    + destruct Ho as [Hk Ht]. assert (Hnf : state s <> kFree) by (unfold task_rel in Ht; destruct (t_phase t); intuition congruence).
      rewrite (bool_decide_eq_false_2 _ Hnf), Hgen. unfold name_of. destruct (Z.eqb_spec id (Z.of_nat (256 * (k + 1) + i))) as [E|E].
      * rewrite (proj2 (Z.eqb_neq kInvalidTaskId id)) by (unfold kInvalidTaskId; lia).
        assert (E2 : Z.of_nat k + 1 = id / 256) by lia. rewrite (proj2 (Z.eqb_eq _ _) E2). cbn [negb]. by exists s, k.
      * destruct (kInvalidTaskId =? id); [done|]. rewrite (proj2 (Z.eqb_neq (Z.of_nat k + 1) (id / 256))) by lia. done.
    + destruct Ho as (_ & Hf & _). rewrite (bool_decide_eq_true_2 _ Hf). by destruct (kInvalidTaskId =? id).
  - apply lookup_ge_None in Hi. rewrite (proj2 (Z.leb_le _ _)) by lia. by destruct (kInvalidTaskId =? id).
Qed.

(** ** A call on a task *)

Definition agrees (s : TaskSlot V) (r : (option V + TaskError) * TaskSlot V * Z * Z) (x : outcome_of (V := V)) : Prop :=
  let '(a, s', rej, fl) := r in let '(a', t', rej', fl') := x in
  a = a' /\ rej = rej' /\ fl = fl' /\
  match t' with Some t' => task_rel s' t' /\ generation s' = generation s | None => generation s' = next_generation (generation s) /\ state s' = kFree /\ has_result s' = false /\ has_error s' = false end.

Lemma settle_agrees s s1 dv t1 : task_rel s1 t1 -> generation s1 = generation s ->
  agrees s (as_option (fun _ => None) (settle zero dv s1)) (hand_over dv t1).
Proof using Type.
  intros Ht Hg. unfold settle, post_completion_locked, hand_over, target_eqb. pose proof Ht as (Hw & _). rewrite Hw.
  change (raw kInvalidTarget) with 0. destruct (Z.eqb_spec 0 (raw (t_waiter t1))) as [E|E].
  - rewrite bool_decide_eq_true_2 by done. by split_and!.
  - rewrite bool_decide_eq_false_2 by done. destruct dv as [|[]]; cbn [delivered]; split_and!; try done; cbn; by rewrite Hg.
Qed.

Lemma op_agrees o s t : task_rel s t -> agrees s (op_of zero o s) (task_op o t).
Proof using Type.
  intros Ht. pose proof Ht as (Hw & Hsg & Hq & Hp). destruct o as [v dv|e dv|dv|w sg| |]; cbn [op_of task_op].
  - unfold complete_op. destruct (t_phase t) as [| |r|e] eqn:E.
    1,2: destruct Hp as (Hs & _); rewrite Hs; cbn; by apply settle_agrees.
    + destruct Hp as (Hs & He & _). rewrite Hs, He. cbn. by split_and!.
    + destruct Hp as (Hs & He & Hx). rewrite Hs, He, Hx. cbn. by destruct e; split_and!.
  - unfold fail_op. destruct (t_phase t) as [| |r|e'] eqn:E; cbn [open_phase].
    1,2: destruct Hp as (Hs & _); rewrite Hs; cbn; by apply settle_agrees.
    all: destruct Hp as (Hs & _); rewrite Hs; cbn; by split_and!.
  - unfold cancel_op, fail_op. destruct (t_phase t) as [| |r|e'] eqn:E; cbn [open_phase].
    1,2: destruct Hp as (Hs & _); rewrite Hs; cbn; by apply settle_agrees.
    all: destruct Hp as (Hs & _); rewrite Hs; cbn; by split_and!.
  - unfold set_awaiter_op. destruct (t_phase t) as [| |r|e'] eqn:E; destruct Hp as (Hs & Hp); rewrite Hs; cbn; split_and!; try done.
  - unfold take_result_op. destruct (t_phase t) as [| |r|e'] eqn:E.
    1,2: destruct Hp as (Hs & Hp); rewrite Hs; cbn; by split_and!.
    + destruct Hp as (Hs & He & Hr). rewrite Hs, He. cbn. destruct r as [v|].
      * destruct Hr as [Hr Hv]. rewrite Hr. cbn. rewrite Hv. split_and!; try done.
      * rewrite Hr. cbn. by split_and!.
    + destruct Hp as (Hs & He & Hx). rewrite Hs, He. cbn. rewrite Hx. by split_and!.
  - cbn. by split_and!.
Qed.

Lemma next_generation_small k : (k <= 254)%nat -> next_generation (Z.of_nat k + 1) = Z.of_nat (S k) + 1.
Proof using Type.
  intros Hk. unfold next_generation. rewrite wrap_small by (unfold in_u; change (2 ^ 16) with 65536; lia).
  rewrite (proj2 (Z.eqb_neq _ _)) by lia. lia.
Qed.

Lemma op_step R T id o : cells_for R T -> in_u 16 id ->
  let r := with_slot R id (op_of zero o) in let x := table_op T id o in r.1 = x.1 /\ cells_for r.2 x.2.
Proof using Type.
  intros Hc Hid. pose proof (find_occupant R T id Hc Hid) as Hf. unfold with_slot, table_op. cbv zeta.
  destruct (occupant T id) as [t|]; [|by rewrite Hf]. destruct Hf as (s & k & -> & Hi & Hci & Hg & Hk & Ht).
  rewrite Hci. cbn [fmap option_fmap option_map fst from_option Datatypes.id].
  pose proof (op_agrees o s t Ht) as Ha. destruct (op_of zero o s) as [[[a s'] rej] fl], (task_op o t) as [[[a' t'] rej'] fl'].
  destruct Ha as (-> & -> & -> & Ht'). split; [done|]. cbn [snd]. destruct (id_parts id Hid) as (Hsl & _). destruct Hc as [Hcc Hl Hr Hfl].
  unfold put_slot. rewrite Hsl. split; cbn [rslots cells rejected_count_ submit_failures_ tb_rejected tb_failures].
  - apply Forall2_insert; [done|]. cbn [fst] in Hg. destruct t' as [t'|]; (split; cbn [fst snd]).
    + destruct Ht' as [_ ->]. done.
    + by destruct Ht'.
    + destruct Ht' as (-> & _). rewrite Hg. by apply next_generation_small.
    + destruct Ht' as (_ & ? & ? & ?). split_and!; [cbn [fst] in Hk; lia|done..].
  - by rewrite length_insert.
  - by rewrite Hr.
  - by rewrite Hfl.
Qed.

Lemma create_step R T w sg q x T' : cells_for R T -> table_create T w sg q = Some (x, T') ->
  let r := create R w sg q in r.1 = x /\ cells_for r.2 T'.
Proof using Type.
  intros [Hcc Hl Hr Hfl]. unfold table_create, create. cbv zeta.
  assert (Hfi : find_idx (fun s => bool_decide (state s = kFree)) (rslots R) = find_idx is_vacant (cells T)).
  { clear -Hcc. induction Hcc as [|s c ss cs Hrel _ IH]; [done|]. cbn [find_idx]. rewrite IH. destruct c as [k [t|]], Hrel as [_ Ho]; cbn in Ho |- *.
    - destruct Ho as (_ & _ & _ & _ & Hp). rewrite bool_decide_eq_false_2; [done|]. destruct (t_phase t); intuition congruence.
    - destruct Ho as (_ & -> & _). done. }
  rewrite Hfi. destruct (find_idx is_vacant (cells T)) as [i|] eqn:Hi; [|by intros [= <- <-]].
  apply find_idx_Some in Hi as ([k o] & Hci & Hv & _). rewrite Hci. cbn [fmap option_fmap option_map fst from_option Datatypes.id].
  destruct o as [t|]; [done|]. destruct (Forall2_lookup_r _ _ _ _ _ Hcc Hci) as (s & Hs & Hg & _ & Hfree & Hre & Her).
  cbn [fst] in Hg. rewrite Hs. destruct (Nat.ltb_spec 254 k) as [|Hk]; [done|]. intros [= <- <-]. cbn [fst snd].
  pose proof (lookup_lt_Some _ _ _ Hs). split.
  - f_equal. rewrite id_make_sum, Hg by (unfold in_u; lia). rewrite Z.mod_small by lia. unfold name_of. lia.
  - split; cbn [rslots cells rejected_count_ submit_failures_ tb_rejected tb_failures]; [|by rewrite length_insert|done|done].
    apply Forall2_insert; [done|]. split; [done|]. cbn. split; [done|]. by split_and!.
Qed.

Lemma run_step cs : forall R T as_ T', cells_for R T -> Forall call_ok cs -> table_run T cs = Some (as_, T') ->
  (reg_run R cs).1 = as_ /\ cells_for (reg_run R cs).2 T'.
Proof using Type.
  induction cs as [|c cs IH]; intros R T as_ T' Hc Hok Hrun; cbn [reg_run table_run] in *; [by injection Hrun as <- <-|].
  apply Forall_cons in Hok as [Hok Hoks]. destruct (table_call T c) as [[a T1]|] eqn:Hcall; [|done]. cbn [mbind option_bind] in Hrun.
  destruct (table_run T1 cs) as [[l T2]|] eqn:Hrest; [|done]. cbn [mbind option_bind] in Hrun. injection Hrun as <- <-.
  assert (Hstep : (reg_apply R c).1 = a /\ cells_for (reg_apply R c).2 T1).
  { destruct c as [w sg q|id o]; cbn [table_call reg_apply] in *.
    - destruct (table_create T w sg q) as [[x T0]|] eqn:Hcr; [|done]. cbn in Hcall. injection Hcall as <- <-.
      destruct (create_step R T w sg q x T0 Hc Hcr) as [E Hc']. destruct (create R w sg q). cbn in *. by subst.
    - destruct (op_step R T id o Hc Hok) as [E Hc']. destruct (table_op T id o). injection Hcall as <- <-.
      destruct (with_slot R id (op_of zero o)). cbn in *. by subst. }
  destruct (reg_apply R c) as [a' R1]. destruct Hstep as [E Hc1]. cbn in E, Hc1. subst a'.
  destruct (IH R1 T1 l T2 Hc1 Hoks Hrest) as [E2 Hc2]. destruct (reg_run R1 cs). cbn in *. by subst.
Qed.

(** ** No name is given twice *)

Definition given (T : table V) (id : Z) : Prop :=
  exists i k o, cells T !! i = Some (k, o) /\ exists k', id = name_of i k' /\ (k' < k \/ (k' = k /\ is_Some o))%nat.

Lemma name_inj i j k l : (i < 256)%nat -> (j < 256)%nat -> name_of i k = name_of j l -> i = j /\ k = l.
Proof using Type. unfold name_of. intros. lia. Qed.

Lemma given_op T id o id' : given T id' -> given (table_op T id o).2 id'.
Proof using Type.
  intros Hg. unfold table_op. destruct (occupant T id) as [t|] eqn:Ho; [|done]. destruct (task_op o t) as [[[a t'] rej] fl]. cbn [snd].
  destruct Hg as (i & k & x & Hi & k' & -> & Hk). unfold given. cbn [cells].
  set (j := Z.to_nat (id `mod` 256)). destruct (decide (i = j)) as [->|Hne].
  - rewrite Hi. cbn [fmap option_fmap option_map fst from_option Datatypes.id]. destruct t' as [t'|].
    + eexists j, k, (Some t'). rewrite list_lookup_insert_eq by (by eapply lookup_lt_Some). split; [done|]. exists k'. split; [done|].
      destruct Hk as [?|[? _]]; [by left|right; split; [done|by eexists]].
    + eexists j, (S k), None. rewrite list_lookup_insert_eq by (by eapply lookup_lt_Some). split; [done|]. exists k'. split; [done|]. left. lia.
  - exists i, k, x. rewrite list_lookup_insert_ne by done. split; [done|]. by exists k'.
Qed.
Lemma create_given (T : table V) w sg q x T' : (length (cells T) <= 256)%nat -> table_create T w sg q = Some (x, T') ->
  length (cells T') = length (cells T) /\ (forall id, given T id -> given T' id) /\
  forall id, x = inl id -> given T' id /\ ~ given T id.
Proof using Type.
  intros Hl. unfold table_create. destruct (find_idx is_vacant (cells T)) as [i|] eqn:Hf; [|by intros [= <- <-]].
  apply find_idx_Some in Hf as ([k o] & Hi & Hv & _). rewrite Hi. cbn [fmap option_fmap option_map fst from_option Datatypes.id].
  destruct o as [t|]; [done|]. destruct (254 <? k)%nat; [done|]. intros [= <- <-]. cbn [cells].
  pose proof (lookup_lt_Some _ _ _ Hi) as Hlt. split_and!; [by rewrite length_insert| |].
  - intros id' (j & l & o & Hj & k' & -> & Hk). unfold given. cbn [cells]. destruct (decide (j = i)) as [->|Hne].
    + rewrite Hi in Hj. injection Hj as <- <-. eexists i, k, _. rewrite list_lookup_insert_eq by done. split; [done|].
      exists k'. split; [done|]. destruct Hk as [?|[_ Hx]]; [by left|by destruct (is_Some_None Hx)].
    + exists j, l, o. rewrite list_lookup_insert_ne by done. split; [done|]. by exists k'.
  - intros id' [= <-]. split.
    + eexists i, k, _. cbn [cells]. rewrite list_lookup_insert_eq by done. split; [done|]. exists k. split; [done|]. right. split; [done|by eexists].
    + intros (j & l & o & Hj & k' & E & Hk). pose proof (lookup_lt_Some _ _ _ Hj).
      apply name_inj in E as [-> ->]; [|lia..]. rewrite Hi in Hj. injection Hj as <- <-.
      destruct Hk as [?|[_ Hx]]; [lia|by destruct (is_Some_None Hx)].
Qed.

Lemma table_op_length (T : table V) id o : length (cells (table_op T id o).2) = length (cells T).
Proof using Type.
  unfold table_op. destruct (occupant T id) as [t|]; [|done]. destruct (task_op o t) as [[[a t'] rej] fl]. cbn. by rewrite length_insert.
Qed.

Lemma names_distinct cs : forall (T : table V) as_ T', (length (cells T) <= 256)%nat -> table_run T cs = Some (as_, T') ->
  NoDup (issued_ids as_) /\ forall id, given T id -> id ∉ issued_ids as_.
Proof using Type.
  induction cs as [|c cs IH]; intros T as_ T' Hl Hrun; cbn [table_run] in Hrun.
  { injection Hrun as <- <-. split; [constructor|intros ? _; apply not_elem_of_nil]. }
  destruct (table_call T c) as [[a T1]|] eqn:Hcall; [|done]. cbn [mbind option_bind] in Hrun.
  destruct (table_run T1 cs) as [[l T2]|] eqn:Hrest; [|done]. cbn [mbind option_bind] in Hrun. injection Hrun as <- <-.
  destruct c as [w sg q|id o]; cbn [table_call] in Hcall.
  - destruct (table_create T w sg q) as [[x T0]|] eqn:Hcr; [|done]. cbn [mbind option_bind] in Hcall. injection Hcall as <- <-.
    destruct (create_given T w sg q x T0 Hl Hcr) as (Hl' & Hkeep & Hnew). rewrite <- Hl' in Hl.
    destruct (IH T0 l T2 Hl Hrest) as [Hnd Hout]. destruct x as [id|e]; cbn [issued_ids omap list_omap].
    + destruct (Hnew id eq_refl) as [Hg Hng]. split; [constructor; [by apply Hout|done]|].
      intros id' Hg'. apply not_elem_of_cons. split; [by intros ->|]. by apply Hout, Hkeep.
    + split; [done|]. intros id' Hg'. by apply Hout, Hkeep.
  - pose proof (fun id' => given_op T id o id') as Hkeep. pose proof (table_op_length T id o) as Hl'. destruct (table_op T id o) as [r T0].
    injection Hcall as <- <-. cbn [snd] in Hkeep, Hl'. rewrite <- Hl' in Hl. destruct (IH T0 l T2 Hl Hrest) as [Hnd Hout].
    split; [done|]. intros id' Hg'. by apply Hout, Hkeep.
Qed.

(** 255 creations never use up a cell's names. *)
Definition is_create (c : reg_call V) : bool := match c with CCreate _ _ _ => true | _ => false end.
Definition names_used (c : nat * option (task V)) : nat := (c.1 + match c.2 with Some _ => 1 | None => 0 end)%nat.

Lemma names_suffice cs : forall (T : table V) n, Forall (fun c => names_used c <= n)%nat (cells T) -> (n + countb is_create cs <= 255)%nat ->
  is_Some (table_run T cs).
Proof using Type.
  induction cs as [|c cs IH]; intros T n Hn Hc; cbn [table_run countb] in *; [by eexists|].
  assert (Hcall : exists a T1, table_call T c = Some (a, T1) /\
    Forall (fun x => names_used x <= n + if is_create c then 1 else 0)%nat (cells T1)).
  { destruct c as [w sg q|id o]; cbn [table_call is_create] in *.
    - unfold table_create. destruct (find_idx is_vacant (cells T)) as [i|] eqn:Hf.
      + apply find_idx_Some in Hf as ([k o] & Hi & Hv & _). rewrite Hi. cbn [fmap option_fmap option_map fst from_option Datatypes.id].
        destruct o as [t|]; [done|]. pose proof (proj1 (Forall_lookup _ _) Hn _ _ Hi) as Hk. unfold names_used in Hk. cbn in Hk.
        destruct (Nat.ltb_spec 254 k) as [|_]; [lia|]. eexists _, _. split; [reflexivity|]. cbn [cells].
        apply Forall_insert; [eapply Forall_impl; [exact Hn|]; intros; cbn in *; lia|]. unfold names_used. cbn. lia.
      + eexists _, _. split; [reflexivity|]. eapply Forall_impl; [exact Hn|]. intros; cbn in *; lia.
    - destruct (table_op T id o) as [r T0] eqn:Ho. eexists _, _. split; [reflexivity|]. rewrite Nat.add_0_r.
      unfold table_op in Ho. destruct (occupant T id) as [t|] eqn:Hocc; [|by injection Ho as <- <-].
      destruct (task_op o t) as [[[a t'] rej] fl]. injection Ho as <- <-. cbn [cells]. unfold occupant in Hocc.
      destruct (cells T !! Z.to_nat (id `mod` 256)) as [[k [t0|]]|] eqn:Hi; try done. cbn [fmap option_fmap option_map fst from_option Datatypes.id].
      pose proof (proj1 (Forall_lookup _ _) Hn _ _ Hi) as Hk. unfold names_used in Hk. cbn in Hk.
      apply Forall_insert; [done|]. unfold names_used. destruct t'; cbn; lia. }
  destruct Hcall as (a & T1 & -> & Hn1). cbn [mbind option_bind].
  destruct (IH T1 _ Hn1) as [[l T2] ->]; [destruct (is_create c); lia|]. by eexists.
Qed.

Lemma used_count R T : cells_for R T -> used R = Z.of_nat (countb (fun c => negb (is_vacant c)) (cells T)).
Proof using Type.
  intros [Hc _ _ _]. unfold used. f_equal. induction Hc as [|s c ss cs Hrel _ IH]; [done|]. cbn [countb]. rewrite IH. f_equal.
  destruct c as [k [t|]], Hrel as [_ Ho]; cbn in Ho |- *.
  - destruct Ho as (_ & _ & _ & _ & Hp). rewrite bool_decide_eq_false_2; [done|]. destruct (t_phase t); intuition congruence.
  - destruct Ho as (_ & -> & _). done.
Qed.

Lemma queries_agree R T id : cells_for R T -> in_u 16 id ->
  is_ready R id = t_ready (occupant T id) /\ task_has_error R id = t_failed (occupant T id) /\ take_error R id = t_error (occupant T id).
Proof using Type.
  intros Hc Hid. pose proof (find_occupant R T id Hc Hid) as Hf. unfold is_ready, task_has_error, take_error.
  destruct (occupant T id) as [t|]; [|by rewrite Hf]. destruct Hf as (s & k & -> & _ & _ & _ & _ & Ht).
  destruct Ht as (_ & _ & _ & Hp). unfold t_ready, t_failed, t_error. destruct (t_phase t); cbn [open_phase negb].
  - destruct Hp as (-> & _ & ->). done.
  - destruct Hp as (-> & _ & ->). done.
  - destruct Hp as (-> & -> & _). done.
  - destruct Hp as (-> & -> & ->). done.
Qed.
End calls.

(** C38: The registry is a table of tasks with names that never come back.  A
    registry of up to 256 slots answers every sequence of calls (create, complete,
    fail, cancel, set an awaiter, take the result, release, with whatever the
    completion events meet on their way out) as the table of [table_run] does, in
    which each cell counts the tasks that ended in it, a new task gets the lowest
    vacant cell and the cell's next name, a call on a name that is not, or no
    longer, that of a living task is answered [kInvalidId] and changes nothing, and
    a task settles once, yields its result once and ends when it is released or
    when its event cannot be handed over.  No two tasks get the same id, so a stale
    id never reaches a later task.  After the calls every query and counter agrees
    too.  The hypothesis on the table says that no cell is asked for a 256th name;
    [names_suffice] shows that it holds for up to 255 creations. *)
Theorem registry_refines_table {V} (zero : V) (Capacity : nat) (calls : list (reg_call V)) (answers : list (reg_answer V)) (T : table V) :
  (Capacity <= 256)%nat -> Forall call_ok calls -> table_run (table0 Capacity) calls = Some (answers, T) ->
  let r := reg_run zero (registry_ctor zero Capacity) calls in
  r.1 = answers /\ NoDup (issued_ids answers) /\
  (forall id, in_u 16 id ->
     is_ready r.2 id = t_ready (occupant T id) /\ task_has_error r.2 id = t_failed (occupant T id) /\
     take_error r.2 id = t_error (occupant T id)) /\
  used r.2 = Z.of_nat (countb (fun c => negb (is_vacant c)) (cells T)) /\
  rejected_count_ r.2 = tb_rejected T /\ submit_failures_ r.2 = tb_failures T.
Proof.
  intros Hcap Hok Hrun. cbv zeta.
  assert (H0 : cells_for (registry_ctor zero Capacity) (table0 Capacity)).
  { split; cbn; [|by rewrite length_replicate|done|done]. apply Forall2_replicate. split; cbn; [done|]. split; [lia|done]. }
  destruct (run_step zero calls _ _ _ _ H0 Hok Hrun) as [Ha Hc]. split; [done|]. split.
  - eapply names_distinct; [|exact Hrun]. cbn. by rewrite length_replicate.
  - split_and!; [intros id Hid; by apply queries_agree|by apply used_count|apply Hc..].
Qed.

(** One slot: a task is completed and released, and its id used again on the next
    task of the slot. *)
Definition reuse_calls : list (reg_call Z) :=
  [CCreate (mkTarget 1) 9 (mkQos false false); COp 256 (RComplete 42 (Submitted Queued)); COp 256 RTake; COp 256 RRelease;
   CCreate (mkTarget 1) 9 (mkQos false false); COp 256 (RComplete 7 (Submitted Queued)); COp 512 (RCancel PoolEmpty)].

Lemma registry_refines_table_witness :
  (reg_run 0 (registry_ctor 0 1) reuse_calls).1 =
  [AId (inl 256); AOp (inl None); AOp (inl (Some 42)); AOp (inl None); AId (inl 512); AOp (inr kInvalidId); AOp (inr kPoolExhausted)].
Proof.
  destruct (table_run (table0 1) reuse_calls) as [[answers T]|] eqn:Hrun; [|by vm_compute in Hrun].
  destruct (registry_refines_table 0 1 reuse_calls answers T ltac:(lia)) as [-> _]; [|exact Hrun|].
  - repeat (apply Forall_cons; split; [first [exact I|split; [lia|reflexivity]]|]). apply Forall_nil.
    done.
  - vm_compute in Hrun. by injection Hrun as <- _.
Defined.

(** A task's life.  On a registry within its generations, a created task that
    is completed (its event delivered) is ready and yields its value exactly
    once; a second completion is rejected; after its release the id is dead: every
    operation on it answers [kInvalidId]. *)
Theorem task_lifecycle {V} (zero : V) (R : Registry V) (w : TargetId) (sg : Z) (q : EventQos) (v v2 : V)
    (d : SubmitDisposition) (id : Z) (R1 : Registry V) :
  reg_ok R -> delivered d = true -> create R w sg q = (inl id, R1) ->
  exists R2 R3 R4,
    complete zero R1 id v (Submitted d) = (inl tt, R2) /\ is_ready R2 id = true /\
    take_result R2 id = (inl v, R3) /\ (take_result R3 id).1 = inr kResultTaken /\
    (complete zero R2 id v2 (Submitted d)).1 = inr kAlreadyCompleted /\
    release_task zero R3 id = (inl tt, R4) /\
    find_locked R4 id = None /\ (complete zero R4 id v2 (Submitted d)).1 = inr kInvalidId /\
    (take_result R4 id).1 = inr kInvalidId /\ (release_task zero R4 id).1 = inr kInvalidId.
Proof.
  intros Hok Hd. unfold create. destruct (find_idx _ (rslots R)) as [i|] eqn:Hf; [|done].
  apply find_idx_Some in Hf as (s & Hi & Hfree & _). apply bool_decide_eq_true in Hfree. rewrite Hi. intros [= <- <-].
  pose proof (ro_gen R Hok _ _ Hi) as Hg. pose proof (ro_cap R Hok) as Hc. pose proof (lookup_lt_Some _ _ _ Hi) as Hlt.
  assert (H8 : in_u 8 (Z.of_nat i)) by (unfold in_u; lia).
  set (id := id_make (Z.of_nat i) (generation s)). assert (Hid : in_u 16 id) by (by apply wrap_range).
  destruct (find_create R id s i w sg q id Hok Hid Hi Hfree eq_refl) as (_ & _ & Hv1). rewrite decide_True in Hv1 by done.
  set (s1 := mkSlot _ _ _ _ _ _ _ _ _) in *. set (R1 := mkReg _ _ _) in *.
  set (s2 := mkSlot (generation s) kCompleted (error s) w sg q true false v).
  set (s3 := mkSlot (generation s) kCompleted (error s) w sg q false false v).
  assert (Hc2 : complete_op zero v (Submitted d) s1 = (inl tt, s2, 0, 0)).
  { unfold complete_op. simpl. unfold settle, post_completion_locked. simpl. rewrite Hd. by destruct (target_eqb _ _). }
  set (R2 := put_slot R1 id s2 0 0).
  assert (Hv2 : find_locked R2 id = Some s2).
  { unfold R2. rewrite (find_put zero R1 id s1 s2) by (done || by left). by rewrite decide_True. }
  set (R3 := put_slot R2 id s3 0 0).
  assert (Hv3 : find_locked R3 id = Some s3).
  { unfold R3. rewrite (find_put zero R2 id s2 s3) by (done || by left). by rewrite decide_True. }
  set (R4 := put_slot R3 id (slot_release zero s3) 0 0).
  assert (Hv4 : find_locked R4 id = None).
  { unfold R4. rewrite (find_put zero R3 id s3 (slot_release zero s3)) by (done || by right). by rewrite decide_True. }
  exists R2, R3, R4. unfold complete, take_result, release_task, is_ready, with_slot.
  rewrite Hv1, Hv2, Hv3, Hv4, Hc2. split_and!; done.
Qed.

Lemma task_lifecycle_witness :
  exists R2, complete 0 (create (registry_ctor 0 4) (mkTarget 2) 5 (mkQos false false)).2 256 77 (Submitted Queued) = (inl tt, R2) /\
    (take_result R2 256).1 = inl 77.
Proof.
  destruct (task_lifecycle 0 (registry_ctor 0 4) (mkTarget 2) 5 (mkQos false false) 77 78 Queued 256
    (create (registry_ctor 0 4) (mkTarget 2) 5 (mkQos false false)).2) as (R2 & R3 & R4 & H1 & _ & H3 & _).
  - split; [simpl; lia|]. intros i s Hi. apply (lookup_replicate 4) in Hi as [-> _]. simpl. lia.
  - reflexivity.
  - reflexivity.
  - exists R2. split; [exact H1|]. by rewrite H3.
Defined.

(** ** Generation overflow *)

(** One task created and released again. *)
Definition task_churn (R : Registry Z) : Registry Z :=
  match create R (mkTarget 1) 1 (mkQos false false) with
  | (inl id, R') => (release_task 0 R' id).2
  | (inr _, R') => R'
  end.

(** A slot dies after 255 releases.  The slot's generation is 16 bits wide
    and goes on to 256, but an id carries only 8 of them: the next task created
    in the slot gets an id that [find_locked] rejects, so it can be neither
    completed, cancelled nor released, its slot stays occupied for good, and a
    one-slot registry is full forever. *)
Theorem slot_lost_after_255 :
  let R := Nat.iter 255 task_churn (registry_ctor 0 1) in
  let r := create R (mkTarget 1) 1 (mkQos false false) in
  used R = 0 /\ r.1 = inl 0 /\ used r.2 = 1 /\
  (complete 0 r.2 0 7 (Submitted Queued)).1 = inr kInvalidId /\
  (cancel 0 r.2 0 (Submitted Queued)).1 = inr kInvalidId /\
  (release_task 0 r.2 0).1 = inr kInvalidId /\
  (create r.2 (mkTarget 1) 1 (mkQos false false)).1 = inr kSlotsFull.
Proof. vm_compute. split_and!; reflexivity. Qed.
