(* ===== verification/Runtime.v ===== *)
(** * The runtime lifecycle (include/coact/runtime.hpp)

    Three-phase start-up over the registry of [Ao], the submission word of
    [Staging] and the dispatcher's stop flag; the platform's answer to a thread
    start is an argument.  Producers and run-to-completion steps interleave
    freely with the lifecycle calls. *)

From stdpp Require Import functions.
From S2P Require Import Prelude Vocab Hsm HsmSpec Ao Staging.

(** The calls that reached the platform: thread starts with their answers, and joins. *)
Inductive pal_call := StartDispatcher (ok : bool) | JoinDispatcher.

Section runtime.
Context (cfg : Config) (logical_prio : nat -> Z).
Context {Ctx Ev : Type} (ev_signal : Ev -> Z).

Record Runtime := mkRuntime {
  registry_ : list (option nat);   (* AoRegistry::slots_ *)
  aos : nat -> Ao Ctx Ev;          (* the board's active objects *)
  admission_ : Z;                  (* Staging::admission_ *)
  stop_ : bool;                    (* Dispatcher::stop_ *)
  rt_initialized : bool;
  started_ : bool;
  pal_log : list pal_call
}.

Definition runtime_ctor (board : nat -> Ao Ctx Ev) : Runtime :=
  mkRuntime (registry_ctor cfg) board 0 false false false [].

Definition rt_bind (s : Runtime) (ao : option nat) : bool * Runtime :=
  if rt_initialized s then (false, s)
  else match ao with
       | None => (false, s)
       | Some a =>
         let r := bind logical_prio (registry_ s) (Some a) (logical_prio a) in
         (r.1, mkRuntime r.2 (aos s) (admission_ s) (stop_ s) (rt_initialized s) (started_ s) (pal_log s))
       end.

Definition rt_bind_at (s : Runtime) (target : TargetId) (ao : nat) : bool * Runtime :=
  if rt_initialized s then (false, s)
  else let r := bind_at cfg logical_prio (registry_ s) target ao (logical_prio ao) in
       (r.1, mkRuntime r.2 (aos s) (admission_ s) (stop_ s) (rt_initialized s) (started_ s) (pal_log s)).

(** [for (i = 1; i <= kMaxAo; ++i)]: the targets still to visit. *)
Fixpoint init_bound (slots_ : list (option nat)) (n : nat) (i : Z) (st : nat -> Ao Ctx Ev) :
    outcome (nat -> Ao Ctx Ev) :=
  match n with
  | O => mret st
  | S n =>
    match lookup cfg slots_ (mkTarget (u8 i)) with
    | Some a => o ← init_default (st a); init_bound slots_ n (u16 (i + 1)) (<[a := o]> st)
    | None => init_bound slots_ n (u16 (i + 1)) st
    end
  end.

Definition initialize (s : Runtime) : outcome (bool * Runtime) :=
  if rt_initialized s then mret (true, s)
  else
    st ← init_bound (registry_ s) (Z.to_nat (kMaxAo cfg)) 1 (aos s);
    mret (true, mkRuntime (registry_ s) st (admission_ s) (stop_ s) true (started_ s) (pal_log s)).

(** [pal_ok] is what [pal_start_dispatcher] answers. *)
Definition start (s : Runtime) (pal_ok : bool) : outcome (bool * Runtime) :=
  _ ← coact_assert (rt_initialized s);
  if started_ s then mret (false, s)
  else
    let s' := mkRuntime (registry_ s) (aos s) (admission_ s) (stop_ s) (rt_initialized s) pal_ok
                (pal_log s ++ [StartDispatcher pal_ok]) in
    mret (pal_ok, s').

Definition stop (s : Runtime) : Runtime :=
  if started_ s then
    mkRuntime (registry_ s) (aos s) (close_admission (admission_ s)) true (rt_initialized s) false
      (pal_log s ++ [JoinDispatcher])
  else s.

(** The lifecycle calls, a producer entering or leaving its submission, and a
    run-to-completion step of some active object. *)
Inductive rt_step : Runtime -> Runtime -> Prop :=
| rs_bind s ao : rt_step s (rt_bind s ao).2
| rs_bind_at s t ao : rt_step s (rt_bind_at s t ao).2
| rs_initialize s r : initialize s = Ret r -> rt_step s r.2
| rs_start s ok r : start s ok = Ret r -> rt_step s r.2
| rs_stop s : rt_step s (stop s)
| rs_acquire s :
    rt_step s (mkRuntime (registry_ s) (aos s) (acquire_submission (admission_ s)).2 (stop_ s)
                 (rt_initialized s) (started_ s) (pal_log s))
| rs_release s :
    submissions_idle (admission_ s) = false ->
    rt_step s (mkRuntime (registry_ s) (aos s) (release_submission (admission_ s)).2 (stop_ s)
                 (rt_initialized s) (started_ s) (pal_log s))
| rs_rtc s held a e r :
    run_leased ev_signal held (aos s a) e = Ret r ->
    rt_step s (mkRuntime (registry_ s) (<[a := r.2]> (aos s)) (admission_ s) (stop_ s)
                 (rt_initialized s) (started_ s) (pal_log s)).

End runtime.
Arguments Runtime : clear implicits.

(** ** The invariant *)

Definition starts (l : list pal_call) : nat :=
  countb (fun c => match c with StartDispatcher ok => ok | JoinDispatcher => false end) l.
Definition joins (l : list pal_call) : nat :=
  countb (fun c => match c with StartDispatcher _ => false | JoinDispatcher => true end) l.

Section lifecycle.
Context (cfg : Config) (logical_prio : nat -> Z).
Context {Ctx Ev : Type} (ev_signal : Ev -> Z).
Hypothesis few_aos : 0 <= kMaxAo cfg < 256.

#[local] Abbreviation step := (rt_step cfg logical_prio ev_signal).

Record rt_inv (s : Runtime Ctx Ev) : Prop := {
  ri_registry : registry_ok cfg logical_prio (registry_ s);
  ri_word : exists L, lease_ok L /\ admission_ s = lease_word L /\ closed L = stop_ s;
  ri_started : started_ s = true -> rt_initialized s = true;
  ri_aos : rt_initialized s = true ->
    forall i a, registry_ s !! i = Some (Some a) -> initialized_ (aos s a) = true;
  ri_starts : starts (pal_log s) = (joins (pal_log s) + Nat.b2n (started_ s))%nat;
  ri_stop : stop_ s = true <-> (0 < joins (pal_log s))%nat
}.

Lemma bind_own_ok slots a :
  registry_ok cfg logical_prio slots ->
  registry_ok cfg logical_prio (bind logical_prio slots (Some a) (logical_prio a)).2.
Proof.
  intros Hok. unfold bind. destruct (Z.eqb_spec (logical_prio a) kInvalidPrio) as [|Hz]; [done|].
  destruct (find_idx (has_prio _ _) slots) as [i|] eqn:Hf; [done|]. rewrite find_idx_None in Hf.
  destruct (find_idx is_free slots) as [i|] eqn:He; [|done]. simpl.
  apply find_idx_Some in He as (x & Hx & Hp & _). apply bool_decide_eq_true in Hp as ->. by apply registry_insert.
Qed.

Lemma bind_at_ok slots t a :
  registry_ok cfg logical_prio slots ->
  registry_ok cfg logical_prio (bind_at cfg logical_prio slots t a (logical_prio a)).2.
Proof.
  intros Hok. unfold bind_at. destruct (_ || _ || _ || _ || _) eqn:Hg; [done|].
  destruct (find_idx _ slots) as [i|] eqn:Hf; [done|]. simpl. rewrite find_idx_None in Hf.
  repeat (apply orb_false_iff in Hg as [Hg ?]). split_bools.
  destruct (slots !! Z.to_nat (raw t - 1)) as [[b|]|] eqn:Hs; [done| |].
  - by apply registry_insert.
  - by rewrite list_insert_ge by (by apply lookup_ge_None).
Qed.

Lemma init_default_initialized (o o' : Ao Ctx Ev) : init_default o = Ret o' -> initialized_ o' = true.
Proof.
  unfold init_default. destruct (initialized_ o) eqn:Hi; [by intros [= <-]|]. unfold ao_init.
  intros (r & _ & H)%bind_ret_inv. apply bind_ret_inv in H as (? & _ & H). by injection H as <-.
Qed.

Lemma init_bound_initialized slots n : forall i (st st' : nat -> Ao Ctx Ev),
  0 < i -> i + Z.of_nat n <= 256 -> init_bound cfg slots n i st = Ret st' ->
  (forall a, initialized_ (st a) = true -> initialized_ (st' a) = true) /\
  (forall k a, i <= k < i + Z.of_nat n -> lookup cfg slots (mkTarget k) = Some a -> initialized_ (st' a) = true).
Proof.
  induction n as [|n IH]; intros i st st' Hi Hb; cbn [init_bound].
  { intros [= <-]. split; [done|lia]. }
  rewrite (wrap_small 8), (wrap_small 16) by (unfold in_u; lia).
  destruct (lookup cfg slots (mkTarget i)) as [a|] eqn:Hl.
  - intros (o & Ho%init_default_initialized & Hr)%bind_ret_inv. apply IH in Hr as [Hk Hn]; [|lia..].
    assert (Ha : initialized_ (st' a) = true) by (apply Hk; by rewrite fn_lookup_insert).
    split.
    + intros b Hb'. destruct (decide (a = b)) as [->|Hne]; [done|]. apply Hk. by rewrite fn_lookup_insert_ne.
    + intros k b Hk' Hlb. destruct (decide (k = i)) as [->|]; [by simplify_eq|]. apply (Hn k); [lia|done].
  - intros Hr. apply IH in Hr as [Hk Hn]; [|lia..]. split; [done|].
    intros k b Hk' Hlb. destruct (decide (k = i)) as [->|]; [congruence|]. apply (Hn k); [lia|done].
Qed.

Lemma run_leased_keeps_init held (o : Ao Ctx Ev) e r :
  run_leased ev_signal held o e = Ret r -> initialized_ r.2 = initialized_ o.
Proof.
  unfold run_leased. destruct (try_acquire _ _) as [[] l]; [|by intros [= <-]].
  intros ([[h c] h'] & _ & H)%bind_ret_inv. apply bind_ret_inv in H as (l' & _ & H). by injection H as <-.
Qed.

(** The submission word follows its lease. *)
Lemma word_step (o : lease_op) w b :
  (exists L, lease_ok L /\ w = lease_word L /\ closed L = b) ->
  match o with LRelease => submissions_idle w = false | _ => True end ->
  exists L, lease_ok L /\ (lease_word_op o w).2 = lease_word L /\
    closed L = match o with LClose => true | _ => b end.
Proof.
  intros (L & HL & -> & Hc) Hr. destruct (lease_word_bits L HL) as [_ Hm].
  assert (Hpos : match o with LRelease => 0 < leases L | _ => True end).
  { destruct o; try done. unfold submissions_idle in Hr. rewrite Hm in Hr. apply Z.eqb_neq in Hr. unfold lease_ok in HL. lia. }
  destruct (lease_step o L HL Hpos) as [-> HL']. exists (lease_abs_op o L).2. split_and!; [done|done|].
  destruct o; simpl; [|done..]. by destruct (_ || _).
Qed.

Lemma rt_inv_step s s' : rt_inv s -> step s s' -> rt_inv s'.
Proof.
  intros Hinv Hst. pose proof Hinv as [Hr Hw Hs Ha Hl Ht]. destruct Hst as [s ao|s t ao|s r Hi|s ok r Hi|s|s|s Hn|s held a e r Hi].
  - unfold rt_bind. destruct (rt_initialized s) eqn:Hin; [exact Hinv|]. destruct ao as [a|]; [|exact Hinv].
    split; simpl; try done. by apply bind_own_ok.
  - unfold rt_bind_at. destruct (rt_initialized s) eqn:Hin; [exact Hinv|]. split; simpl; try done. by apply bind_at_ok.
  - unfold initialize in Hi. destruct (rt_initialized s) eqn:Hin; [injection Hi as <-; exact Hinv|].
    apply bind_ret_inv in Hi as (st & Hst & [= <-]). apply init_bound_initialized in Hst as [_ Hn]; [|lia..].
    split; simpl; try done. intros _ i a Hia. pose proof (lookup_lt_Some _ _ _ Hia) as Hlt. rewrite (ro_len _ _ _ Hr) in Hlt.
    apply (Hn (Z.of_nat i + 1)); [lia|]. by eapply target_of_lookup; [|lia|].
  - unfold start in Hi. destruct (rt_initialized s) eqn:Hin; [|done]. cbn in Hi.
    destruct (started_ s) eqn:Hsd; injection Hi as <-; [exact Hinv|].
    split; simpl; try done; unfold starts, joins in *; rewrite !countb_app; simpl.
    + rewrite Hl. destruct ok; simpl; lia.
    + rewrite Ht. lia.
  - unfold stop. destruct (started_ s) eqn:Hsd; [|exact Hinv].
    split; simpl; try done; unfold starts, joins in *; rewrite ?countb_app; simpl in *.
    + by apply (word_step LClose _ (stop_ s)).
    + lia.
    + split; [lia|done].
  - split; try done. by apply (word_step LAcquire _ (stop_ s)).
  - split; try done. by apply (word_step LRelease _ (stop_ s)).
  - split; try done. simpl. intros Hin i b Hb. destruct (decide (a = b)) as [->|Hne].
    + rewrite fn_lookup_insert, (run_leased_keeps_init _ _ _ _ Hi). by eapply Ha.
    + rewrite fn_lookup_insert_ne by done. by eapply Ha.
Qed.

Lemma rt_inv_ctor board : rt_inv (runtime_ctor cfg board).
Proof.
  split; simpl; try done.
  - split; [by apply length_replicate|..]; intros *; unfold registry_ctor; rewrite lookup_replicate; naive_solver.
  - by exists (mkLease false 0).
  - unfold joins. simpl. split; [done|lia].
Qed.

(** Phase 1 is over once [initialize] ran. *)
Lemma registry_frozen (s s' : Runtime Ctx Ev) :
  rtc step s s' -> rt_initialized s = true -> registry_ s' = registry_ s /\ rt_initialized s' = true.
Proof.
  intros Hrun Hin. apply (rtc_invariant step (fun x => registry_ x = registry_ s /\ rt_initialized x = true) s); [|done..].
  intros x y [Hr Hx] Hst. destruct Hst as [x ao|x t ao|x r Hi|x ok r Hi|x|x|x Hn|x held a e r Hi]; try done.
  - unfold rt_bind. by rewrite Hx.
  - unfold rt_bind_at. by rewrite Hx.
  - unfold initialize in Hi. rewrite Hx in Hi. by injection Hi as <-.
  - unfold start in Hi. rewrite Hx in Hi. cbn in Hi. by destruct (started_ x); injection Hi as <-.
  - unfold stop. by destruct (started_ x).
Qed.

(** A closed word admits nobody. *)
Lemma closed_refuses L : lease_ok L -> closed L = true -> acquire_submission (lease_word L) = (false, lease_word L).
Proof.
  intros HL Hc. destruct (lease_step LAcquire L HL I) as [H _]. cbn [lease_word_op lease_abs_op] in H. by rewrite H, Hc.
Qed.
End lifecycle.

(** The phases of the runtime.  However the lifecycle calls, the producers
    and the run-to-completion steps interleave: the registry stays sound and is
    frozen once [initialize] returned; every active object bound is initialised
    from then on; the runtime is started only when initialised and only by a
    thread start the platform confirmed, starts and joins pair up (a thread is
    never started twice nor joined twice); and once a [stop] took effect no
    submission is ever admitted again. *)
Theorem runtime_phases (cfg : Config) (logical_prio : nat -> Z) {Ctx Ev} (ev_signal : Ev -> Z)
    (board : nat -> Ao Ctx Ev) (s : Runtime Ctx Ev) :
  0 <= kMaxAo cfg < 256 ->
  rtc (rt_step cfg logical_prio ev_signal) (runtime_ctor cfg board) s ->
  registry_ok cfg logical_prio (registry_ s) /\
  (rt_initialized s = true ->
     (forall s', rtc (rt_step cfg logical_prio ev_signal) s s' -> registry_ s' = registry_ s) /\
     forall t a, lookup cfg (registry_ s) t = Some a -> initialized_ (aos s a) = true) /\
  (started_ s = true -> rt_initialized s = true) /\
  starts (pal_log s) = (joins (pal_log s) + Nat.b2n (started_ s))%nat /\
  ((0 < joins (pal_log s))%nat -> acquire_submission (admission_ s) = (false, admission_ s)).
Proof.
  intros Hk Hrun.
  assert (Hinv : rt_inv cfg logical_prio s).
  { apply (rtc_invariant (rt_step cfg logical_prio ev_signal) _ (runtime_ctor cfg board)); [|by apply rt_inv_ctor|done].
    intros x y Hx Hst. by apply (rt_inv_step cfg logical_prio ev_signal Hk x). }
  destruct Hinv as [Hr (L & HL & Hw & Hc) Hs Ha Hl Ht]. split_and!; try done.
  - intros Hin. split; [intros s' Hs'; by eapply registry_frozen|]. intros t a Hla.
    unfold lookup in Hla. destruct (_ || _); [done|].
    destruct (registry_ s !! Z.to_nat (raw t - 1)) as [[b|]|] eqn:Hb; simplify_eq/=. by eapply Ha.
  - intros Hj. rewrite Hw. apply closed_refuses; [done|]. rewrite Hc. by apply Ht.
Qed.

(** Bind, initialise, start, stop and start again on a one-object board. *)
Definition demo_cfg : Config := mkConfig 4 8 2 2 2 10 0 0 5 100 0.
Definition demo_board : nat -> Ao (list Z) Z := fun _ => mkAo [] (set_current log_machine (-1)) Idle false 0 0.
Definition demo_life : outcome (Runtime (list Z) Z) :=
  let s := (rt_bind (fun a => Z.of_nat a + 1) (runtime_ctor demo_cfg demo_board) (Some 6%nat)).2 in
  i ← initialize demo_cfg s;
  r ← start i.2 true;
  q ← start (stop r.2) true;
  mret q.2.

Lemma runtime_phases_witness :
  exists s, demo_life = Ret s /\ started_ s = true /\ acquire_submission (admission_ s) = (false, admission_ s).
Proof.
  destruct (demo_life) as [s|] eqn:Hd; [|vm_compute in Hd; discriminate Hd].
  exists s. split; [reflexivity|].
  unfold demo_life in Hd. apply bind_ret_inv in Hd as (i & Hi & Hd).
  apply bind_ret_inv in Hd as (r & Hr & Hd). apply bind_ret_inv in Hd as (q & Hq & Hs). injection Hs as <-.
  assert (Hrun : rtc (rt_step demo_cfg (fun a => Z.of_nat a + 1) (fun e : Z => e)) (runtime_ctor demo_cfg demo_board) q.2).
  { eapply rtc_l; [apply (rs_bind _ _ _ _ (Some 6%nat))|]. eapply rtc_l; [eapply rs_initialize; exact Hi|].
    eapply rtc_l; [eapply rs_start; exact Hr|]. eapply rtc_l; [apply rs_stop|].
    eapply rtc_l; [eapply rs_start; exact Hq|]. apply rtc_refl. }
  assert (Hlog : pal_log q.2 = [StartDispatcher true; JoinDispatcher; StartDispatcher true] /\ started_ q.2 = true).
  { clear Hrun. vm_compute in Hi. injection Hi as <-. vm_compute in Hr. injection Hr as <-.
    vm_compute in Hq. injection Hq as <-. done. }
  destruct Hlog as [Hlog Hst]. split; [exact Hst|].
  destruct (runtime_phases demo_cfg (fun a => Z.of_nat a + 1) (fun e : Z => e) demo_board q.2 ltac:(done) Hrun)
    as (_ & _ & _ & _ & H). apply H. rewrite Hlog. vm_compute. lia.
Defined.
