(* ===== verification/Drain.v ===== *)
(** * The shutdown drain over the real staging

    [drain_queued_on_stop] of the dispatcher, run against the staging of
    [Staging.v], the registry and the pending counters of [Ao.v], once producers
    are gone: a composition of the components, and its termination. *)

From S2P Require Import Prelude Vocab QueueSpec CriticalRing Staging StagingSpec Ao Prog Calls Dispatcher.

Section drain.
Context (cfg : Config) {QH QN QL : Type}.
Context `{!QueueBackend (kHighCapacity cfg) StagingSlot QH, !FifoLaws (kHighCapacity cfg) StagingSlot QH}.
Context `{!QueueBackend (kNormalCapacity cfg) StagingSlot QN, !FifoLaws (kNormalCapacity cfg) StagingSlot QN}.
Context `{!QueueBackend (kLowCapacity cfg) StagingSlot QL, !FifoLaws (kLowCapacity cfg) StagingSlot QL}.
Abbreviation ST := (Staging QH QN QL).

(** The board at shutdown; [ds_released]: the references given back, in order. *)
Record board := mkBoard {
  b_staging : ST; b_slots : list (option nat); b_pending : nat -> Z; b_released : list Z; b_clock : Z
}.

Definition set_staging (b : board) (s : ST) : board := mkBoard s (b_slots b) (b_pending b) (b_released b) (b_clock b).

(** The calls the drain makes, on the board. *)
Definition board_handle (c : call) (b : board) : outcome (answer c * board) :=
  match c return outcome (answer c * board) with
  | MonotonicNs => Ret (b_clock b, b)
  | AnyBuffered => Ret (any_buffered cfg (b_staging b), b)
  | SubmissionsIdle => Ret (submissions_idle (admission_ (b_staging b)), b)
  | BeginBatch => Ret (tt, set_staging b (begin_batch (b_staging b)))
  | BatchUsed => Ret (batch_used_ (b_staging b), b)
  | DequeueOne now =>
    match dequeue_one cfg (b_staging b) now with Ret (o, s) => Ret (o, set_staging b s) | Fatal => Fatal end
  | RegistryLookup t => Ret (lookup cfg (b_slots b) t, b)
  | PendingDecrement ao =>
    match decrement (b_pending b ao) with
    | Ret n => Ret (tt, mkBoard (b_staging b) (b_slots b) (fun x => if decide (x = ao) then n else b_pending b x) (b_released b) (b_clock b))
    | Fatal => Fatal
    end
  | PendingLoad ao => Ret (b_pending b ao, b)
  | RecordPending _ _ => Ret (tt, b)
  | ReclaimRelease e => Ret (tt, mkBoard (b_staging b) (b_slots b) (b_pending b) (b_released b ++ [e]) (b_clock b))
  | ReclaimFlush => Ret (tt, b)
  | WaitDispatcher _ => Ret (tt, b)
  | _ => Fatal
  end.

Abbreviation run := (interp answer board_handle).

Definition all_slots (a : staged) : list StagingSlot := ah a ++ an a ++ al a.

(** The pending count an active object owes to the queued slots. *)
Definition owed (slots : list (option nat)) (ao : nat) (l : list StagingSlot) : Z :=
  Z.of_nat (countb (fun s => bool_decide (lookup cfg slots (s_target s) = Some ao)) l).

Record board_ok (n : nat) (b : board) (a : staged) : Prop := {
  bo_staging : staging_repr cfg n (b_staging b) a;
  bo_idle : submissions_idle (admission_ (b_staging b)) = true;
  bo_pending : forall ao, b_pending b ao = owed (b_slots b) ao (all_slots a) /\ in_u 16 (b_pending b ao)
}.

Context (Hcfg : config_ok cfg = true) (Hbatch : 0 < kBatchSizeMax cfg).

Lemma next_slot_some a now :
  abatch a < kBatchSizeMax cfg -> all_slots a <> [] ->
  exists x a', next_slot cfg a now = Some (x, a') /\ Permutation (all_slots a) (x :: all_slots a').
Proof.
  intros Hb Hne. unfold next_slot. rewrite (proj2 (Z.leb_gt _ _)) by lia. unfold all_slots in *.
  destruct a as [h m l u]; simpl in *. destruct l as [|z l], h as [|x h], m as [|y m]; simpl in *; try done;
    try (destruct (aged cfg z now)); eexists _, _; (split; [reflexivity|]); simpl; solve_Permutation.
Qed.

Lemma next_slot_empty a now : all_slots a = [] -> next_slot cfg a now = None.
Proof.
  destruct a as [h m l u]. unfold all_slots, next_slot. simpl. intros H. destruct h, m, l; try done. by case_match.
Qed.

Lemma owed_perm slots ao l l' : Permutation l l' -> owed slots ao l = owed slots ao l'.
Proof. intros Hp. unfold owed. f_equal. induction Hp; simpl; lia. Qed.

(** One slot taken out and given back. *)
Lemma give_back n b a x a' s' :
  board_ok n b a -> Permutation (all_slots a) (x :: all_slots a') -> staging_repr cfg n s' a' -> admission_ s' = admission_ (b_staging b) ->
  exists b', run (_ <- match lookup cfg (b_slots b) (s_target x) with
       | Some ao => PendingDecrement ao ;;; m <~ PendingLoad ao ;; RecordPending (s_target x) m ;;; Done tt
       | None => Done tt
       end ;; ReclaimRelease (s_event x) ;;; Done tt)%prog (set_staging b s') = Ret (tt, b') /\
    board_ok n b' a' /\ b_released b' = b_released b ++ [s_event x] /\ b_clock b' = b_clock b /\ b_slots b' = b_slots b.
Proof.
  intros [Hs Hi Hp] Hperm Hs' Hadm.
  assert (Howed : forall ao, owed (b_slots b) ao (all_slots a) =
    owed (b_slots b) ao (all_slots a') + (if bool_decide (lookup cfg (b_slots b) (s_target x) = Some ao) then 1 else 0)).
  { intros ao. rewrite (owed_perm _ _ _ _ Hperm). unfold owed. simpl. case_bool_decide; lia. }
  assert (Hnn : forall ao, 0 <= owed (b_slots b) ao (all_slots a')) by (intros; unfold owed; lia).
  destruct (lookup cfg (b_slots b) (s_target x)) as [ao|] eqn:Hl; cbn.
  - destruct (Hp ao) as [Hpa Hr]. pose proof (Howed ao) as Ho. rewrite bool_decide_eq_true_2 in Ho by done. pose proof (Hnn ao).
    unfold decrement, coact_assert. rewrite (proj2 (Z.ltb_lt _ _)) by lia. cbn. rewrite wrap_small by (unfold in_u in *; lia).
    eexists. split; [reflexivity|]. split; [|done]. split; cbn; [done|by rewrite Hadm|].
    intros ao'. destruct (decide (ao' = ao)) as [->|Hne]; [unfold in_u in *; lia|]. destruct (Hp ao') as [Hpa' Hr'].
    specialize (Howed ao'). rewrite bool_decide_eq_false_2 in Howed by congruence. split; [lia|done].
  - eexists. split; [reflexivity|]. split; [|done]. split; cbn; [done|by rewrite Hadm|].
    intros ao'. destruct (Hp ao') as [Hpa' Hr']. specialize (Howed ao'). rewrite bool_decide_eq_false_2 in Howed by done. split; [lia|done].
Qed.

Lemma drain_batch_run fuel n b a now rel :
  board_ok n b a -> (length (all_slots a) < fuel)%nat ->
  exists b' a' done_, run (drain_batch cfg fuel now rel) b = Ret (Some (rel || negb (bool_decide (done_ = []))), b') /\
    board_ok n b' a' /\ Permutation (all_slots a) (done_ ++ all_slots a') /\ b_released b' = b_released b ++ map s_event done_ /\
    b_clock b' = b_clock b /\ (abatch a < kBatchSizeMax cfg -> all_slots a <> [] -> done_ <> []).
Proof.
  revert b a rel. induction fuel as [|fuel IH]; intros b a rel Hb Hf; [lia|]. pose proof Hb as [Hs Hi Hp].
  cbn [drain_batch]. cbn [interp board_handle mbind outcome_bind fst snd].
  rewrite (sr_batch _ _ _ _ Hs). destruct (Z.ltb_spec (abatch a) (kBatchSizeMax cfg)) as [Hlt|Hge].
  2: { exists b, a, []. cbn. rewrite orb_false_r, app_nil_r. split_and!; try done. lia. }
  destruct (dequeue_spec cfg Hcfg n (b_staging b) a now Hs) as (s' & Hd & Hs' & Hlatch).
  cbn [interp board_handle]. rewrite Hd.
  destruct (decide (all_slots a = [])) as [He|Hne].
  { rewrite next_slot_empty in Hs' |- * by done. cbn. exists (set_staging b s'), a, []. cbn. rewrite orb_false_r, app_nil_r.
    split_and!; try done. split; cbn; [done|by destruct Hlatch as [_ ->]|done]. }
  destruct (next_slot_some a now Hlt Hne) as (x & a1 & Hn & Hperm). rewrite Hn in Hs' |- *. cbn [fmap option_fmap option_map fst].
  cbn [mbind outcome_bind fst snd].
  destruct (give_back n b a x a1 s' Hb Hperm Hs' (proj2 Hlatch)) as (b1 & Hg & Hb1 & Hr1 & Hc1 & Hsl1).
  cbn [interp board_handle mbind outcome_bind fst snd b_slots set_staging]. rewrite interp_bind in Hg |- *.
  destruct (interp answer board_handle _ _) as [[[] b0]|] eqn:Hm in Hg; [|done]. rewrite Hm.
  cbn [interp board_handle mbind outcome_bind fst snd] in Hg |- *. injection Hg as Hg. rewrite Hg.
  assert (Hlen : length (all_slots a) = S (length (all_slots a1))) by (by rewrite Hperm).
  destruct (IH b1 a1 true Hb1 ltac:(lia)) as (b2 & a2 & dn & Hr & Hb2 & Hp2 & Hrel2 & Hc2 & _).
  exists b2, a2, (x :: dn). rewrite Hr. split_and!; try done.
  - by rewrite orb_true_r.
  - rewrite Hperm, Hp2. done.
  - rewrite Hrel2, Hr1, <- app_assoc. done.
  - congruence.
Qed.

Lemma buffered_spec n b a : board_ok n b a -> any_buffered cfg (b_staging b) = negb (bool_decide (all_slots a = [])).
Proof.
  intros [Hs _ _]. unfold any_buffered, partition_size, all_slots.
  rewrite (fifo_size _ _ _ (sr_h _ _ _ _ Hs)), (fifo_size _ _ _ (sr_n _ _ _ _ Hs)), (fifo_size _ _ _ (sr_l _ _ _ _ Hs)).
  by destruct (ah a), (an a), (al a).
Qed.

Lemma drain_pending_run n b a : board_ok n b a -> run drain_pending b = Ret (negb (bool_decide (all_slots a = [])), b).
Proof.
  intros Hb. unfold drain_pending. cbn [interp board_handle mbind outcome_bind fst snd]. rewrite (buffered_spec n b a Hb).
  case_bool_decide; [|done]. cbn. by rewrite (bo_idle _ _ _ Hb).
Qed.

Lemma begin_batch_ok n b a :
  board_ok n b a -> board_ok n (set_staging b (begin_batch (b_staging b))) (mkStaged (ah a) (an a) (al a) 0).
Proof. intros [[H1 H2 H3 H4 H5 H6 H7 H8 [O1 O2 O3 O4 O5 O6]] Hi Hp]. split; cbn; [|done|done]. split; try done. Qed.

Lemma drain_loop_run fuel n b a now :
  board_ok n b a -> (length (all_slots a) < fuel)%nat ->
  exists b' a', run (drain_loop cfg fuel now) b = Ret (true, b') /\ board_ok n b' a' /\ all_slots a' = [] /\
    Permutation (b_released b') (b_released b ++ map s_event (all_slots a)).
Proof.
  revert b a. induction fuel as [|fuel IH]; intros b a Hb Hf; [lia|]. cbn [drain_loop].
  rewrite interp_bind, (drain_pending_run n b a Hb). cbn [mbind outcome_bind fst snd].
  case_bool_decide as He; cbn [negb].
  { exists b, a. rewrite He, app_nil_r. done. }
  cbn [interp board_handle mbind outcome_bind fst snd]. pose proof (begin_batch_ok n b a Hb) as Hb0.
  destruct (drain_batch_run (S fuel) n _ _ now false Hb0 Hf) as (b1 & a1 & dn & Hr & Hb1 & Hp1 & Hrel1 & _ & Hdn).
  specialize (Hdn Hbatch He). rewrite interp_bind, Hr. cbn [mbind outcome_bind fst snd].
  rewrite (bool_decide_eq_false_2 (dn = [])) by done. cbn -[drain_loop].
  change (Permutation (all_slots a) (dn ++ all_slots a1)) in Hp1.
  assert (Hlen : (length (all_slots a1) < fuel)%nat).
  { rewrite Hp1, length_app in Hf. destruct dn; [done|]. simpl in Hf. lia. }
  destruct (IH b1 a1 Hb1 Hlen) as (b2 & a2 & Hr2 & Hb2 & He2 & Hp2). exists b2, a2. split_and!; try done.
  rewrite Hp2, Hrel1. cbn. rewrite <- app_assoc, <- map_app, <- Hp1. done.
Qed.
End drain.

(** The shutdown drain ends, with nothing left.  Once admission is closed and
    no producer holds a submission, [drain_queued_on_stop] over a staging with any
    contents, on any queue backends, returns after at most one outer round per
    queued event and one more: it has released the reference of every queued event
    exactly once, the three partitions are empty and every active object's pending
    count is back at zero. *)
Theorem drain_terminates (cfg : Config) {QH QN QL : Type}
    `{!QueueBackend (kHighCapacity cfg) StagingSlot QH, !FifoLaws (kHighCapacity cfg) StagingSlot QH}
    `{!QueueBackend (kNormalCapacity cfg) StagingSlot QN, !FifoLaws (kNormalCapacity cfg) StagingSlot QN}
    `{!QueueBackend (kLowCapacity cfg) StagingSlot QL, !FifoLaws (kLowCapacity cfg) StagingSlot QL}
    (fuel n : nat) (b : board (QH := QH) (QN := QN) (QL := QL)) (a : staged) :
  config_ok cfg = true -> 0 < kBatchSizeMax cfg -> board_ok cfg n b a -> (length (all_slots a) < fuel)%nat ->
  exists b', interp answer (board_handle cfg) (drain_queued_on_stop cfg fuel) b = Ret (true, b') /\
    Permutation (b_released b') (b_released b ++ map s_event (all_slots a)) /\
    any_buffered cfg (b_staging b') = false /\ forall ao, b_pending b' ao = 0.
Proof.
  intros Hc Hm Hb Hf. unfold drain_queued_on_stop. cbn [interp board_handle mbind outcome_bind fst snd].
  destruct (drain_loop_run cfg Hc Hm fuel n b a (b_clock b) Hb Hf) as (b' & a' & Hr & Hb' & He & Hp).
  exists b'. split_and!; [done|done| |].
  - by rewrite (buffered_spec cfg n b' a' Hb'), He.
  - intros ao. destruct (bo_pending _ _ _ _ Hb' ao) as [-> _]. by rewrite He.
Qed.

(** Two events of one active object, in two partitions. *)
Definition queued_pair : staged :=
  mkStaged [mkSlot (mkTarget 1) ClaimNone 10 0] [] [mkSlot (mkTarget 1) ClaimNone 11 0] 0.

Definition plain_board : Config := mkConfig 4 2 2 2 2 10 0 0 5 100 0.

Definition stopped_board : board (QH := CriticalRing StagingSlot) (QN := CriticalRing StagingSlot) (QL := CriticalRing StagingSlot) :=
  mkBoard
    (mkStaging (cr_try_push 2 (mkSlot (mkTarget 1) ClaimNone 10 0) (cr_ctor 2)).2 (cr_ctor 2)
       (cr_try_push 2 (mkSlot (mkTarget 1) ClaimNone 11 0) (cr_ctor 2)).2 true kAdmissionClosed 0 0 0 0 false 0)
    [Some 0%nat] (fun ao => if decide (ao = 0%nat) then 2 else 0) [] 5.

Lemma pushed_repr (x : StagingSlot) n : cr_repr 2 n (cr_try_push 2 x (cr_ctor 2)).2 [x].
Proof.
  destruct (cr_push_ok 2 0 n (cr_ctor 2) [] x) as (q & -> & Hq); [apply cr_ctor_repr; lia|done|exact Hq].
Qed.

Lemma stopped_board_ok : board_ok plain_board 1 stopped_board queued_pair.
Proof.
  split.
  - split; try done; [apply (pushed_repr _ 1)|apply (cr_ctor_repr 2); lia|apply (pushed_repr _ 1)|].
    split; try done; try (apply Forall_cons; split; [by left|by apply Forall_nil]); by apply Forall_cons.
  - reflexivity.
  - intros ao. destruct ao as [|ao]; (split; [reflexivity|done]).
Qed.

Lemma drain_terminates_witness :
  exists b', interp answer (board_handle plain_board) (drain_queued_on_stop plain_board 3) stopped_board = Ret (true, b') /\
    Permutation (b_released b') [10; 11] /\ any_buffered plain_board (b_staging b') = false /\ forall ao, b_pending b' ao = 0.
Proof.
  apply (drain_terminates plain_board 3 1 stopped_board queued_pair); [reflexivity|reflexivity|exact stopped_board_ok|simpl; lia].
Defined.
