(* ===== verification/Mem.v ===== *)
(** * Bytes in memory

    Arrays of bytes as lists, with the copies and little-endian words the source
    moves through them.  An access outside an array is undefined in the source
    and [Fatal] here. *)

From S2P Require Import Prelude.

(** ** Buffers *)

Definition store (buf : list Z) (i v : Z) : outcome (list Z) :=
  if (0 <=? i) && (i <? Z.of_nat (length buf)) then Ret (<[Z.to_nat i := v]> buf) else Fatal.

(** [memcpy(&buf[i], data, n)] and a span [(&buf[i], n)]. *)
Definition copy_to (buf : list Z) (i : Z) (data : list Z) : outcome (list Z) :=
  if (0 <=? i) && (i + Z.of_nat (length data) <=? Z.of_nat (length buf))
  then Ret (take (Z.to_nat i) buf ++ data ++ drop (Z.to_nat i + length data) buf) else Fatal.

Definition span (buf : list Z) (i n : Z) : outcome (list Z) :=
  if (0 <=? i) && (i + n <=? Z.of_nat (length buf)) then Ret (take (Z.to_nat n) (drop (Z.to_nat i) buf)) else Fatal.

(** ** Words in memory *)

Fixpoint le (bytes : list Z) : Z :=
  match bytes with [] => 0 | b :: bytes => b + 256 * le bytes end.

Fixpoint le_bytes (n : nat) (x : Z) : list Z :=
  match n with O => [] | S n => x mod 256 :: le_bytes n (x / 256) end.

(** [memcpy(&x, &buf[i], n)]. *)
Definition read_word (buf : list Z) (i n : Z) : outcome Z := s ← span buf i n; mret (le s).

(** ** By prefix *)

Lemma store_at pre x post v :
  store (pre ++ x :: post) (Z.of_nat (length pre)) v = Ret (pre ++ v :: post).
Proof.
  unfold store. rewrite length_app. simpl. rewrite (proj2 (Z.leb_le _ _)), (proj2 (Z.ltb_lt _ _)) by lia. simpl.
  rewrite Nat2Z.id, insert_app_r_alt, Nat.sub_diag by lia. done.
Qed.

Lemma store_out buf i v : Z.of_nat (length buf) <= i -> store buf i v = Fatal.
Proof. intros. unfold store. by rewrite (proj2 (Z.ltb_ge _ _)), andb_false_r by lia. Qed.

Lemma store_ret buf i v :
  0 <= i < Z.of_nat (length buf) -> store buf i v = Ret (<[Z.to_nat i := v]> buf).
Proof. intros. unfold store. by rewrite (proj2 (Z.leb_le _ _)), (proj2 (Z.ltb_lt _ _)) by lia. Qed.

Lemma copy_at pre old post data :
  length old = length data -> copy_to (pre ++ old ++ post) (Z.of_nat (length pre)) data = Ret (pre ++ data ++ post).
Proof.
  intros Hl. unfold copy_to. rewrite !length_app, Hl. rewrite (proj2 (Z.leb_le 0 _)), (proj2 (Z.leb_le (_ + _) _)) by lia. simpl.
  rewrite Nat2Z.id, take_app_length, drop_app, drop_ge by lia. simpl.
  replace (length pre + length data - length pre)%nat with (length old) by lia. by rewrite drop_app_length.
Qed.

Lemma span_at pre s post n :
  n = Z.of_nat (length s) -> span (pre ++ s ++ post) (Z.of_nat (length pre)) n = Ret s.
Proof.
  intros ->. unfold span. rewrite !length_app. rewrite (proj2 (Z.leb_le 0 _)), (proj2 (Z.leb_le (_ + _) _)) by lia. simpl.
  by rewrite !Nat2Z.id, drop_app_length, take_app_length.
Qed.

Lemma split_length {A} n (l : list A) : (n <= length l)%nat -> exists l1 l2, l = l1 ++ l2 /\ length l1 = n.
Proof. intros. exists (take n l), (drop n l). rewrite take_drop, length_take. split; [done|lia]. Qed.

(** A store at a literal index of a literal prefix. *)
Ltac head_store :=
  rewrite store_ret by (cbn [length app]; rewrite ?length_app; cbn [length]; lia);
  match goal with |- context [Z.to_nat ?z] =>
    let n := eval vm_compute in (Z.to_nat z) in change (Z.to_nat z) with n end;
  cbn [insert list_insert app mbind outcome_bind].

(** ** Words *)

Lemma le_le_bytes n x : 0 <= x < 256 ^ Z.of_nat n -> le (le_bytes n x) = x.
Proof.
  revert x. induction n as [|n IH]; intros x Hx; [simpl in *; lia|]. cbn [le_bytes le].
  rewrite Nat2Z.inj_succ, Z.pow_succ_r in Hx by lia.
  rewrite IH by (split; [apply Z.div_pos; lia|apply Z.div_lt_upper_bound; lia]).
  rewrite (Z.div_mod x 256) at 3 by lia. lia.
Qed.

Lemma le_bytes_length n x : length (le_bytes n x) = n.
Proof. revert x. induction n; intros x; simpl; [done|by rewrite IHn]. Qed.

Lemma read_word_at buf pre n x post :
  buf = pre ++ le_bytes n x ++ post -> 0 <= x < 256 ^ Z.of_nat n ->
  read_word buf (Z.of_nat (length pre)) (Z.of_nat n) = Ret x.
Proof.
  intros -> Hx. unfold read_word. rewrite span_at by (by rewrite le_bytes_length). cbn [mbind outcome_bind].
  unfold mret, outcome_ret. by rewrite le_le_bytes.
Qed.

(** ** Copies, by position *)

Lemma copy_to_ret buf i data :
  0 <= i -> i + Z.of_nat (length data) <= Z.of_nat (length buf) ->
  copy_to buf i data = Ret (take (Z.to_nat i) buf ++ data ++ drop (Z.to_nat i + length data) buf).
Proof. intros. unfold copy_to. by rewrite (proj2 (Z.leb_le _ _)), (proj2 (Z.leb_le _ _)) by lia. Qed.

Lemma copy_to_length buf i data buf' : copy_to buf i data = Ret buf' -> length buf' = length buf.
Proof.
  unfold copy_to. case_match eqn:Hg; [|done]. intros [= <-]. split_bools. rewrite !length_app, length_take, length_drop. lia.
Qed.

Lemma copy_to_outside buf i data buf' (j : nat) :
  copy_to buf i data = Ret buf' -> Z.of_nat j < i \/ i + Z.of_nat (length data) <= Z.of_nat j -> buf' !! j = buf !! j.
Proof.
  unfold copy_to. case_match eqn:Hg; [|done]. intros [= <-] Hj. split_bools. destruct Hj as [Hj|Hj].
  - rewrite lookup_app_l, lookup_take_lt by (rewrite ?length_take; lia). done.
  - rewrite !lookup_app_r by (rewrite ?length_take; lia). rewrite lookup_drop, length_take. f_equal. lia.
Qed.

Lemma span_ret buf i n : 0 <= i -> i + n <= Z.of_nat (length buf) -> span buf i n = Ret (take (Z.to_nat n) (drop (Z.to_nat i) buf)).
Proof. intros. unfold span. by rewrite (proj2 (Z.leb_le _ _)), (proj2 (Z.leb_le _ _)) by lia. Qed.

Lemma le_bytes_range n x : Forall (in_u 8) (le_bytes n x).
Proof.
  revert x. induction n as [|n IH]; intros x; simpl; constructor; [|apply IH]. unfold in_u. apply Z.mod_pos_bound. lia.
Qed.
