(* ===== verification/Crc.v ===== *)
(** * The frame checksum (examples/serial_ota/protocol.hpp)

    CRC-CCITT as the source computes it, one table lookup per byte, and the
    bit-serial division it stands for.  The round is linear over exclusive or
    and invertible, from which follow the equality of the two and the errors
    the checksum is certain to catch. *)

From S2P Require Import Prelude.

(** ** The table *)

(** [crc = (crc & 0x8000U) ? (crc << 1) ^ 0x1021U : crc << 1]. *)
Definition crc_round (crc : Z) : Z :=
  if Z.land crc 0x8000 =? 0 then u16 (Z.shiftl crc 1) else u16 (Z.lxor (Z.shiftl crc 1) 0x1021).

Fixpoint crc_rounds (n : nat) (crc : Z) : Z :=
  match n with O => crc | S n => crc_rounds n (crc_round crc) end.

Definition kCrc16Table : list Z := (fun i => crc_rounds 8 (u16 (Z.shiftl i 8))) <$> seqZ 0 256.

Definition crc_byte (crc byte : Z) : Z :=
  u16 (Z.lxor (Z.shiftl crc 8) (default 0 (kCrc16Table !! Z.to_nat (u8 (Z.lxor (Z.shiftr crc 8) byte))))).

Definition CalcCrc16 (data : list Z) : Z := foldl crc_byte 0 data.

(** ** The reference: polynomial division, bit by bit *)

Definition crc_byte_serial (crc byte : Z) : Z := crc_rounds 8 (Z.lxor crc (Z.shiftl byte 8)).
Definition crc_serial (data : list Z) : Z := foldl crc_byte_serial 0 data.

(** ** The round is linear and injective *)

Lemma in_u_testbit w x : 0 <= w -> in_u w x <-> 0 <= x /\ forall i, w <= i -> Z.testbit x i = false.
Proof.
  intros Hw. unfold in_u. split.
  - intros Hx. split; [lia|]. intros i Hi. destruct (decide (x = 0)) as [->|]; [apply Z.bits_0|].
    apply Z.bits_above_log2; [lia|]. apply Z.log2_lt_pow2; [lia|].
    apply (Z.lt_le_trans _ (2 ^ w)); [lia|]. apply Z.pow_le_mono_r; lia.
  - intros [Hx Hb]. split; [done|]. destruct (decide (x = 0)) as [->|]; [by apply pow2_pos|].
    apply Z.log2_lt_pow2; [lia|]. destruct (Z.lt_ge_cases (Z.log2 x) w) as [|Hge]; [done|].
    specialize (Hb _ Hge). rewrite Z.bit_log2 in Hb by lia. done.
Qed.

Lemma lxor_in_u w x y : 0 <= w -> in_u w x -> in_u w y -> in_u w (Z.lxor x y).
Proof.
  intros Hw [Hx Hxb]%in_u_testbit [Hy Hyb]%in_u_testbit; try done. apply in_u_testbit; [done|]. split.
  - by apply Z.lxor_nonneg.
  - intros i Hi. by rewrite Z.lxor_spec, Hxb, Hyb.
Qed.

Lemma lxor16 x y : in_u 16 x -> in_u 16 y -> in_u 16 (Z.lxor x y).
Proof. by apply lxor_in_u. Qed.

Lemma wrap_testbit w x i : 0 <= w -> 0 <= i -> Z.testbit (wrap w x) i = (i <? w) && Z.testbit x i.
Proof.
  intros Hw Hi. unfold wrap. destruct (Z.ltb_spec i w); simpl; [by rewrite Z.mod_pow2_bits_low|].
  by rewrite Z.mod_pow2_bits_high by lia.
Qed.

Lemma crc_round_xor x :
  in_u 16 x -> crc_round x = Z.lxor (u16 (Z.shiftl x 1)) (if Z.testbit x 15 then 0x1021 else 0).
Proof.
  intros Hx. unfold crc_round. change 0x8000 with (2 ^ 15). rewrite land_flag by lia.
  destruct (Z.testbit x 15); simpl; [|by rewrite Z.lxor_0_r].
  apply Z.bits_inj'. intros i Hi. rewrite wrap_testbit, !Z.lxor_spec, wrap_testbit by lia.
  destruct (Z.ltb_spec i 16); simpl; [done|]. symmetry.
  by apply (proj2 (proj1 (in_u_testbit 16 0x1021 ltac:(done)) ltac:(done))).
Qed.

Lemma crc_round_in x : in_u 16 (crc_round x).
Proof. unfold crc_round. destruct (_ =? _); by apply wrap_range. Qed.

Lemma crc_round_lxor x y :
  in_u 16 x -> in_u 16 y -> crc_round (Z.lxor x y) = Z.lxor (crc_round x) (crc_round y).
Proof.
  intros Hx Hy. rewrite !crc_round_xor by (done || by apply lxor_in_u).
  apply Z.bits_inj'. intros i Hi. rewrite !Z.lxor_spec, !wrap_testbit, !Z.shiftl_spec, !Z.lxor_spec by lia.
  destruct (Z.testbit x 15), (Z.testbit y 15); simpl; rewrite ?Z.bits_0;
    destruct (i <? 16), (Z.testbit x (i - 1)), (Z.testbit y (i - 1)), (Z.testbit 0x1021 i); done.
Qed.

Lemma crc_round_zero x : in_u 16 x -> crc_round x = 0 -> x = 0.
Proof.
  intros Hx H0. rewrite crc_round_xor in H0 by done.
  assert (H15 : Z.testbit x 15 = false).
  { destruct (Z.testbit x 15); [|done]. apply (f_equal (fun z => Z.testbit z 0)) in H0.
    rewrite Z.lxor_spec, wrap_testbit, Z.shiftl_spec_low in H0 by lia. done. }
  rewrite H15, Z.lxor_0_r in H0. apply Z.bits_inj'. intros i Hi. rewrite Z.bits_0.
  destruct (decide (i < 15)); [|destruct (decide (i = 15)) as [->|]; [done|apply (in_u_testbit 16); [done|done|lia]]].
  apply (f_equal (fun z => Z.testbit z (i + 1))) in H0.
  rewrite wrap_testbit, Z.shiftl_spec, Z.bits_0, (proj2 (Z.ltb_lt _ _)) in H0 by lia. simpl in H0.
  by replace (i + 1 - 1) with i in H0 by lia.
Qed.

Lemma crc_rounds_in n x : in_u 16 x -> in_u 16 (crc_rounds n x).
Proof. revert x. induction n; simpl; auto using crc_round_in. Qed.

Lemma crc_rounds_lxor n x y :
  in_u 16 x -> in_u 16 y -> crc_rounds n (Z.lxor x y) = Z.lxor (crc_rounds n x) (crc_rounds n y).
Proof.
  revert x y. induction n as [|n IH]; intros x y Hx Hy; simpl; [done|].
  rewrite crc_round_lxor by done. auto using crc_round_in.
Qed.

Lemma crc_rounds_zero n x : in_u 16 x -> crc_rounds n x = 0 -> x = 0.
Proof.
  revert x. induction n as [|n IH]; intros x Hx; simpl; [done|]. intros H. apply crc_round_zero; [done|].
  apply IH; [apply crc_round_in|done].
Qed.

Lemma crc_rounds_inj n x y : in_u 16 x -> in_u 16 y -> crc_rounds n x = crc_rounds n y -> x = y.
Proof.
  intros Hx Hy Heq. apply Z.lxor_eq, (crc_rounds_zero n); [by apply lxor_in_u|].
  rewrite crc_rounds_lxor, Heq by done. apply Z.lxor_nilpotent.
Qed.

(** Nothing is divided while the leading bits are zero. *)
Lemma crc_rounds_shift n l : (n <= 16)%nat -> in_u (16 - Z.of_nat n) l -> crc_rounds n l = Z.shiftl l (Z.of_nat n).
Proof.
  revert l. induction n as [|n IH]; intros l Hn Hl; [by rewrite Z.shiftl_0_r|]. unfold in_u in Hl.
  assert (Hp : 2 ^ (16 - Z.of_nat (S n)) * 2 = 2 ^ (16 - Z.of_nat n)).
  { replace (16 - Z.of_nat n) with (Z.succ (16 - Z.of_nat (S n))) by lia. rewrite Z.pow_succ_r; lia. }
  assert (Hle : 2 ^ (16 - Z.of_nat n) <= 2 ^ 16) by (apply Z.pow_le_mono_r; lia).
  assert (Hu : in_u 16 l) by (unfold in_u; lia).
  assert (Hr : crc_round l = Z.shiftl l 1).
  { rewrite crc_round_xor by done. rewrite (testbit_top 15) by (unfold in_u; lia).
    rewrite (proj2 (Z.leb_gt _ _)) by lia. rewrite Z.lxor_0_r, Z.shiftl_mul_pow2 by lia. apply wrap_small. unfold in_u. lia. }
  cbn [crc_rounds]. rewrite Hr, IH; [|lia|].
  - rewrite Z.shiftl_shiftl by lia. f_equal. lia.
  - rewrite Z.shiftl_mul_pow2 by lia. unfold in_u. lia.
Qed.

Lemma shiftl8_in b : in_u 8 b -> in_u 16 (Z.shiftl b 8).
Proof. unfold in_u. rewrite Z.shiftl_mul_pow2 by lia. lia. Qed.

Lemma shiftr8_in c : in_u 16 c -> in_u 8 (Z.shiftr c 8).
Proof.
  unfold in_u. rewrite Z.shiftr_div_pow2 by lia. intros Hc. split; [apply Z.div_pos; lia|].
  apply Z.div_lt_upper_bound; lia.
Qed.

Lemma crc_table_entry k : in_u 8 k -> kCrc16Table !! Z.to_nat k = Some (crc_rounds 8 (Z.shiftl k 8)).
Proof.
  intros Hk. unfold kCrc16Table. rewrite list_lookup_fmap, lookup_seqZ_lt by (unfold in_u in Hk; lia).
  simpl. rewrite Z.add_0_l, Z2Nat.id by (unfold in_u in Hk; lia). by rewrite (wrap_small 16) by (by apply shiftl8_in).
Qed.

(** The upper byte goes through the table, the lower one is shifted up. *)
Lemma split_byte c b :
  in_u 16 c -> Z.lxor c (Z.shiftl b 8) = Z.lxor (Z.shiftl (Z.lxor (Z.shiftr c 8) b) 8) (u8 c).
Proof.
  intros Hc. apply Z.bits_inj'. intros i Hi. rewrite !Z.lxor_spec, wrap_testbit, !Z.shiftl_spec by lia.
  destruct (Z.ltb_spec i 8); simpl.
  - rewrite !(Z.testbit_neg_r _ (i - 8)) by lia. by destruct (Z.testbit c i).
  - rewrite Z.lxor_spec, Z.shiftr_spec by lia. replace (i - 8 + 8) with i by lia. by rewrite xorb_false_r.
Qed.

Lemma crc_byte_is_serial c b : in_u 16 c -> in_u 8 b -> crc_byte c b = crc_byte_serial c b.
Proof.
  intros Hc Hb. pose proof (shiftr8_in c Hc) as Hr. set (k := Z.lxor (Z.shiftr c 8) b).
  assert (Hk : in_u 8 k) by (by apply lxor_in_u).
  assert (Hl : in_u 8 (u8 c)) by (by apply wrap_range). assert (Hl16 : in_u 16 (u8 c)) by (unfold in_u in *; lia).
  unfold crc_byte, crc_byte_serial. fold k. rewrite (wrap_small 8 k), crc_table_entry, split_byte by done. fold k. simpl default.
  rewrite crc_rounds_lxor, (crc_rounds_shift 8 (u8 c)) by (done || lia || by apply shiftl8_in).
  pose proof (crc_rounds_in 8 _ (shiftl8_in k Hk)) as HT. rewrite Z.lxor_comm.
  apply Z.bits_inj'. intros i Hi. change (Z.of_nat 8) with 8.
  rewrite wrap_testbit, !Z.lxor_spec, !Z.shiftl_spec by lia.
  destruct (Z.ltb_spec i 16); simpl.
  - f_equal. destruct (decide (i < 8)); [by rewrite !(Z.testbit_neg_r _ (i - 8)) by lia|].
    rewrite wrap_testbit, (proj2 (Z.ltb_lt _ _)) by lia. done.
  - rewrite (proj2 (proj1 (in_u_testbit 16 _ ltac:(done)) HT)) by lia.
    rewrite wrap_testbit, (proj2 (Z.ltb_ge _ _)) by lia. done.
Qed.

Lemma crc_byte_serial_in c b : in_u 16 c -> in_u 8 b -> in_u 16 (crc_byte_serial c b).
Proof. intros. apply crc_rounds_in, lxor_in_u; auto using shiftl8_in. done. Qed.

Lemma crc_foldl data c :
  in_u 16 c -> Forall (in_u 8) data -> foldl crc_byte c data = foldl crc_byte_serial c data /\ in_u 16 (foldl crc_byte c data).
Proof.
  intros Hc Hd. revert c Hc. induction Hd as [|b data Hb _ IH]; intros c Hc; simpl; [done|].
  rewrite crc_byte_is_serial by done. apply IH. by apply crc_byte_serial_in.
Qed.

Lemma CalcCrc16_in data : Forall (in_u 8) data -> in_u 16 (CalcCrc16 data).
Proof. intros. by apply crc_foldl. Qed.

(** Different remainders stay different over the same bytes. *)
Lemma crc_suffix_inj data c1 c2 :
  in_u 16 c1 -> in_u 16 c2 -> Forall (in_u 8) data ->
  foldl crc_byte_serial c1 data = foldl crc_byte_serial c2 data -> c1 = c2.
Proof.
  intros H1 H2 Hd. revert c1 c2 H1 H2. induction Hd as [|b data Hb _ IH]; intros c1 c2 H1 H2; simpl; [done|].
  intros Heq. apply IH in Heq; [|by apply crc_byte_serial_in..].
  apply crc_rounds_inj in Heq; [|apply lxor_in_u; auto using shiftl8_in; done..].
  apply (f_equal (fun z => Z.lxor z (Z.shiftl b 8))) in Heq.
  by rewrite !Z.lxor_assoc, Z.lxor_nilpotent, !Z.lxor_0_r in Heq.
Qed.

(** Two bytes change the remainder unless both are zero differences: for any
    linear, injective [M] that shifts single bytes up. *)
Lemma pair_inj (M : Z -> Z) c x1 x2 y1 y2 :
  (forall x y, in_u 16 x -> in_u 16 y -> M (Z.lxor x y) = Z.lxor (M x) (M y)) ->
  (forall x y, in_u 16 x -> in_u 16 y -> M x = M y -> x = y) ->
  (forall x, in_u 16 x -> in_u 16 (M x)) ->
  (forall l, in_u 8 l -> M l = Z.shiftl l 8) ->
  in_u 16 c -> in_u 8 x1 -> in_u 8 x2 -> in_u 8 y1 -> in_u 8 y2 ->
  M (Z.lxor (M (Z.lxor c (Z.shiftl x1 8))) (Z.shiftl x2 8)) =
  M (Z.lxor (M (Z.lxor c (Z.shiftl y1 8))) (Z.shiftl y2 8)) -> x1 = y1 /\ x2 = y2.
Proof.
  intros Hlin Hinj Hin Hsh Hc Hx1 Hx2 Hy1 Hy2 Heq.
  assert (H1 : in_u 8 (Z.lxor x1 y1)) by (by apply lxor_in_u).
  assert (H2 : in_u 8 (Z.lxor x2 y2)) by (by apply lxor_in_u).
  assert (H2' : in_u 16 (Z.lxor x2 y2)) by (unfold in_u in *; lia).
  apply Hinj in Heq; [|auto 10 using shiftl8_in, lxor16..].
  rewrite !Hlin in Heq by auto using shiftl8_in.
  assert (Hd : M (Z.shiftl (Z.lxor x1 y1) 8) = M (Z.lxor x2 y2)).
  { rewrite (Hsh _ H2), !Z.shiftl_lxor, Hlin by auto using shiftl8_in.
    apply Z.bits_inj'. intros i Hi. apply (f_equal (fun z => Z.testbit z i)) in Heq. rewrite !Z.lxor_spec in *.
    by destruct (Z.testbit (M c) i), (Z.testbit (M (Z.shiftl x1 8)) i),
      (Z.testbit (M (Z.shiftl y1 8)) i), (Z.testbit (Z.shiftl x2 8) i), (Z.testbit (Z.shiftl y2 8) i). }
  apply Hinj in Hd; [|by apply shiftl8_in|done].
  rewrite Z.shiftl_mul_pow2 in Hd by lia. unfold in_u in *. split; apply Z.lxor_eq; lia.
Qed.

Lemma crc_pair_inj c x1 x2 y1 y2 :
  in_u 16 c -> in_u 8 x1 -> in_u 8 x2 -> in_u 8 y1 -> in_u 8 y2 ->
  foldl crc_byte_serial c [x1; x2] = foldl crc_byte_serial c [y1; y2] -> x1 = y1 /\ x2 = y2.
Proof.
  apply (pair_inj (crc_rounds 8)); [apply crc_rounds_lxor|apply crc_rounds_inj|apply crc_rounds_in|].
  intros l Hl. by apply (crc_rounds_shift 8 l); [lia|].
Qed.

(** C33: The checksum is the polynomial division it claims to be, and it is
    certain to notice local damage.  On every byte string the table-driven loop
    equals the bit-serial remainder modulo x^16 + x^12 + x^5 + 1, and two strings
    that differ in nothing but up to two adjacent bytes never have the same
    checksum. *)
Theorem crc_exact_and_detects (pre post : list Z) (x1 x2 y1 y2 : Z) :
  Forall (in_u 8) (pre ++ [x1; x2; y1; y2] ++ post) ->
  let s := pre ++ [x1; x2] ++ post in
  let t := pre ++ [y1; y2] ++ post in
  CalcCrc16 s = crc_serial s /\ (CalcCrc16 s = CalcCrc16 t -> s = t).
Proof.
  intros Hall. apply Forall_app in Hall as [Hpre Hall]. apply Forall_app in Hall as [H4 Hpost].
  rewrite !Forall_cons in H4. destruct H4 as (Hx1 & Hx2 & Hy1 & Hy2 & _). cbv zeta.
  assert (Hs : forall a b, in_u 8 a -> in_u 8 b -> Forall (in_u 8) (pre ++ [a; b] ++ post)).
  { intros a b Ha Hb. rewrite !Forall_app. split_and!; [done| |done]. apply Forall_cons; split; [done|]. apply Forall_cons; by split. }
  assert (H0 : in_u 16 0) by done. pose proof (crc_foldl pre 0 H0 Hpre) as [Hp Hin]. rewrite Hp in Hin. clear Hp.
  unfold CalcCrc16, crc_serial. split; [apply crc_foldl; [done|by apply Hs]|].
  rewrite (proj1 (crc_foldl _ 0 H0 (Hs x1 x2 Hx1 Hx2))), (proj1 (crc_foldl _ 0 H0 (Hs y1 y2 Hy1 Hy2))), !foldl_app. intros Heq.
  apply crc_suffix_inj in Heq; [|simpl; auto using crc_byte_serial_in..|exact Hpost].
  apply crc_pair_inj in Heq as [-> ->]; [reflexivity|assumption..].
Qed.

Lemma crc_exact_and_detects_witness :
  CalcCrc16 [0x31; 0x32; 0x33; 0x34] = crc_serial [0x31; 0x32; 0x33; 0x34] /\
  CalcCrc16 [0x31; 0x32; 0x33; 0x34] <> CalcCrc16 [0x31; 0x12; 0x30; 0x34].
Proof.
  assert (H : Forall (in_u 8) ([0x31] ++ [0x32; 0x33; 0x12; 0x30] ++ [0x34])) by (repeat constructor; unfold in_u; lia).
  destruct (crc_exact_and_detects [0x31] [0x34] 0x32 0x33 0x12 0x30 H) as [H1 H2].
  split; [exact H1|]. intros Heq. discriminate (H2 Heq).
Defined.
