(* ===== verification/OtaFrame.v ===== *)
(** * Frames on the wire (examples/serial_ota/protocol.hpp, parser.hpp)

    The frame builder over a caller-provided buffer and the byte-by-byte frame
    parser.  A store outside a buffer is undefined in the source and [Fatal]
    here.  The parser runs on [osp::StateMachine], a component outside this
    repository: [OspMachine] is its interface for flat machines and
    [OspMachineOk] what the parser relies on.

      0xAA | LEN_LO | LEN_HI | CMD_CLASS | CMD | DATA | CRC_LO | CRC_HI | 0x55 *)

From S2P Require Import Prelude Mem Crc.

(** ** Constants *)

Definition kFrameHeader : Z := 0xAA.
Definition kFrameTail : Z := 0x55.
Definition kMaxPayloadLen : Z := 256.
Definition kFrameOverhead : Z := 6.

(** ** BuildFrame *)

(** The length returned and the buffer left behind; [None] is a null span. *)
Definition BuildFrame (buf : option (list Z)) (cmd_class cmd : Z) (data : list Z) : outcome (Z * list Z) :=
  let data_len := u16 (Z.of_nat (length data)) in
  let payload_len := u16 (2 + data_len) in
  let total := payload_len + kFrameOverhead in
  match buf with
  | None => mret (0, [])
  | Some b =>
    if negb (data_len =? Z.of_nat (length data)) || (Z.of_nat (length b) <? total) then mret (0, b)
    else
      b ← store b 0 kFrameHeader;
      b ← store b 1 (Z.land payload_len 0xFF);
      b ← store b 2 (Z.land (Z.shiftr payload_len 8) 0xFF);
      b ← store b 3 cmd_class;
      b ← store b 4 cmd;
      b ← copy_to b 5 data;
      let idx := 5 + data_len in
      s ← span b 3 payload_len;
      let crc := CalcCrc16 s in
      b ← store b idx (Z.land crc 0xFF);
      b ← store b (idx + 1) (Z.land (Z.shiftr crc 8) 0xFF);
      b ← store b (idx + 2) kFrameTail;
      mret (idx + 3, b)
  end.

(** ** The state machine the parser runs on *)

Inductive TransitionResult (S : Type) := kHandled | kUnhandled | kTransition (s : S).
Arguments kHandled {S}.
Arguments kUnhandled {S}.
Arguments kTransition {S} s.

Definition Handler (S E C : Type) : Type := S -> E -> C -> outcome (TransitionResult S * C).
Definition OnEnter (S C : Type) : Type := S -> C -> outcome C.

(** [StateMachine::Dispatch] on a machine without parent states and exit
    actions: current state, event, context. *)
Class OspMachine := {
  Dispatch : forall {S E C : Type}, Handler S E C -> OnEnter S C -> S -> E -> C -> outcome (S * C)
}.

(** An event goes to the handler of the current state, once; a requested
    transition to another state runs that state's entry action. *)
Class OspMachineOk (M : OspMachine) : Prop := {
  dispatch_stays : forall {S E C} (h : Handler S E C) (en : OnEnter S C) s e c c',
    h s e c = Ret (kHandled, c') \/ h s e c = Ret (kUnhandled, c') -> Dispatch h en s e c = Ret (s, c');
  dispatch_moves : forall {S E C} (h : Handler S E C) (en : OnEnter S C) s e c s' c',
    h s e c = Ret (kTransition s', c') -> s' <> s -> Dispatch h en s e c = (c'' ← en s' c'; mret (s', c''));
  dispatch_fatal : forall {S E C} (h : Handler S E C) (en : OnEnter S C) s e c,
    h s e c = Fatal -> Dispatch h en s e c = Fatal
}.

(** ** The parser *)

Record Frame := mkFrame { f_class : Z; f_cmd : Z; f_len : Z; f_data : list Z; f_crc : Z }.

Record ParserStats := mkStats {
  bytes_received : Z; frames_received : Z; sync_errors : Z; crc_errors : Z; tail_errors : Z; length_errors : Z
}.

(** [delivered]: what the callback was given; [callback]: whether one is set. *)
Record ParserContext := mkCtx {
  current_byte : Z; frame : Frame; expected_len : Z; payload_index : Z; payload_buf : list Z;
  stats : ParserStats; callback : bool; delivered : list Frame
}.

Inductive PState := PIdle | PLenLo | PLenHi | PCmdClass | PCmd | PData | PCrcLo | PCrcHi | PTail.

#[export] Instance PState_eq_dec : EqDecision PState.
Proof. solve_decision. Defined.

Definition kEvtByte : Z := 1.
Definition kEvtReset : Z := 2.
Definition kEvtTimeout : Z := 3.

Definition frame0 : Frame := mkFrame 0 0 0 (replicate 256 0) 0.
Definition ctx0 : ParserContext :=
  mkCtx 0 frame0 0 0 (replicate 258 0) (mkStats 0 0 0 0 0 0) false [].

Definition set_stats (c : ParserContext) (s : ParserStats) : ParserContext :=
  mkCtx (current_byte c) (frame c) (expected_len c) (payload_index c) (payload_buf c) s (callback c) (delivered c).
Definition set_frame (c : ParserContext) (f : Frame) : ParserContext :=
  mkCtx (current_byte c) f (expected_len c) (payload_index c) (payload_buf c) (stats c) (callback c) (delivered c).

(** [payload_buf[payload_index++] = current_byte]. *)
Definition append_payload (c : ParserContext) : outcome ParserContext :=
  b ← store (payload_buf c) (payload_index c) (current_byte c);
  mret (mkCtx (current_byte c) (frame c) (expected_len c) (u16 (payload_index c + 1)) b (stats c) (callback c) (delivered c)).

Abbreviation presult := (outcome (TransitionResult PState * ParserContext)).

Definition to_state (s : PState) (c : ParserContext) : presult := mret (kTransition s, c).

(** What every state but Idle does with the other events. *)
Definition reset_or_unhandled (e : Z) (c : ParserContext) : presult :=
  if (e =? kEvtReset) || (e =? kEvtTimeout) then to_state PIdle c else mret (kUnhandled, c).

Definition HandleIdle (e : Z) (c : ParserContext) : presult :=
  if e =? kEvtByte then
    if current_byte c =? kFrameHeader then
      to_state PLenLo (mkCtx (current_byte c) frame0 0 0 (payload_buf c) (stats c) (callback c) (delivered c))
    else
      let s := stats c in
      mret (kHandled, set_stats c (mkStats (bytes_received s) (frames_received s) (u32 (sync_errors s + 1))
                                     (crc_errors s) (tail_errors s) (length_errors s)))
  else if (e =? kEvtReset) || (e =? kEvtTimeout) then mret (kHandled, c)
  else mret (kUnhandled, c).

Definition set_expected (c : ParserContext) (n : Z) : ParserContext :=
  mkCtx (current_byte c) (frame c) n (payload_index c) (payload_buf c) (stats c) (callback c) (delivered c).

Definition HandleLenLo (e : Z) (c : ParserContext) : presult :=
  if e =? kEvtByte then to_state PLenHi (set_expected c (current_byte c)) else reset_or_unhandled e c.

Definition HandleLenHi (e : Z) (c : ParserContext) : presult :=
  if e =? kEvtByte then
    let n := u16 (Z.lor (expected_len c) (u16 (Z.shiftl (current_byte c) 8))) in
    let c := set_expected c n in
    if (n <? 2) || (kMaxPayloadLen <? n - 2) then
      let s := stats c in
      to_state PIdle (set_stats c (mkStats (bytes_received s) (frames_received s) (sync_errors s)
                                     (crc_errors s) (tail_errors s) (u32 (length_errors s + 1))))
    else to_state PCmdClass c
  else reset_or_unhandled e c.

Definition HandleCmdClass (e : Z) (c : ParserContext) : presult :=
  if e =? kEvtByte then
    let f := frame c in
    c ← append_payload (set_frame c (mkFrame (current_byte c) (f_cmd f) (f_len f) (f_data f) (f_crc f)));
    to_state PCmd c
  else reset_or_unhandled e c.

Definition HandleCmd (e : Z) (c : ParserContext) : presult :=
  if e =? kEvtByte then
    let f := frame c in
    c ← append_payload (set_frame c (mkFrame (f_class f) (current_byte c) (f_len f) (f_data f) (f_crc f)));
    let f := frame c in
    let n := u16 (expected_len c - 2) in
    let c := set_frame c (mkFrame (f_class f) (f_cmd f) n (f_data f) (f_crc f)) in
    if 0 <? n then to_state PData c else to_state PCrcLo c
  else reset_or_unhandled e c.

Definition HandleData (e : Z) (c : ParserContext) : presult :=
  if e =? kEvtByte then
    let f := frame c in
    d ← store (f_data f) (u16 (payload_index c - 2)) (current_byte c);
    c ← append_payload (set_frame c (mkFrame (f_class f) (f_cmd f) (f_len f) d (f_crc f)));
    if expected_len c <=? payload_index c then to_state PCrcLo c else mret (kHandled, c)
  else reset_or_unhandled e c.

Definition set_crc (c : ParserContext) (n : Z) : ParserContext :=
  let f := frame c in set_frame c (mkFrame (f_class f) (f_cmd f) (f_len f) (f_data f) n).

Definition HandleCrcLo (e : Z) (c : ParserContext) : presult :=
  if e =? kEvtByte then to_state PCrcHi (set_crc c (current_byte c)) else reset_or_unhandled e c.

Definition HandleCrcHi (e : Z) (c : ParserContext) : presult :=
  if e =? kEvtByte then
    to_state PTail (set_crc c (u16 (Z.lor (f_crc (frame c)) (u16 (Z.shiftl (current_byte c) 8)))))
  else reset_or_unhandled e c.

Definition HandleTail (e : Z) (c : ParserContext) : presult :=
  if e =? kEvtByte then
    let s := stats c in
    if negb (current_byte c =? kFrameTail) then
      to_state PIdle (set_stats c (mkStats (bytes_received s) (frames_received s) (sync_errors s)
                                     (crc_errors s) (u32 (tail_errors s + 1)) (length_errors s)))
    else
      p ← span (payload_buf c) 0 (expected_len c);
      if negb (CalcCrc16 p =? f_crc (frame c)) then
        to_state PIdle (set_stats c (mkStats (bytes_received s) (frames_received s) (sync_errors s)
                                       (u32 (crc_errors s + 1)) (tail_errors s) (length_errors s)))
      else
        let c := set_stats c (mkStats (bytes_received s) (u32 (frames_received s + 1)) (sync_errors s)
                                (crc_errors s) (tail_errors s) (length_errors s)) in
        to_state PIdle (mkCtx (current_byte c) (frame c) (expected_len c) (payload_index c) (payload_buf c) (stats c)
                          (callback c) (if callback c then delivered c ++ [frame c] else delivered c))
  else reset_or_unhandled e c.

Definition parser_handler : Handler PState Z ParserContext := fun s e c =>
  match s with
  | PIdle => HandleIdle e c | PLenLo => HandleLenLo e c | PLenHi => HandleLenHi e c
  | PCmdClass => HandleCmdClass e c | PCmd => HandleCmd e c | PData => HandleData e c
  | PCrcLo => HandleCrcLo e c | PCrcHi => HandleCrcHi e c | PTail => HandleTail e c
  end.

(** No state of the parser has an entry action. *)
Definition parser_enter : OnEnter PState ParserContext := fun _ c => mret c.

Definition SetCallback (c : ParserContext) (cb : bool) : ParserContext :=
  mkCtx (current_byte c) (frame c) (expected_len c) (payload_index c) (payload_buf c) (stats c) cb (delivered c).

Section parser.
Context {M : OspMachine}.

Definition take_byte (c : ParserContext) (b : Z) : ParserContext :=
  let s := stats c in
  mkCtx b (frame c) (expected_len c) (payload_index c) (payload_buf c)
    (mkStats (u32 (bytes_received s + 1)) (frames_received s) (sync_errors s) (crc_errors s) (tail_errors s)
       (length_errors s)) (callback c) (delivered c).

Definition PutByte (p : PState * ParserContext) (b : Z) : outcome (PState * ParserContext) :=
  Dispatch parser_handler parser_enter p.1 kEvtByte (take_byte p.2 b).

Fixpoint PutData (p : PState * ParserContext) (bytes : list Z) : outcome (PState * ParserContext) :=
  match bytes with
  | [] => mret p
  | b :: bytes => p ← PutByte p b; PutData p bytes
  end.

Definition Reset (p : PState * ParserContext) : outcome (PState * ParserContext) :=
  Dispatch parser_handler parser_enter p.1 kEvtReset p.2.
End parser.
