(* ===== verification/OtaFrameSpec.v ===== *)
(** * Correctness of the wire format (examples/serial_ota/protocol.hpp, parser.hpp)

    [frame_bytes] is the frame format.  The builder writes exactly it; the
    parser, fed any bytes, never leaves its buffers and reports exactly the
    frames that are on the wire. *)

From S2P Require Import Prelude Mem Crc OtaFrame.

Definition lo8 (n : Z) : Z := Z.land n 0xFF.
Definition hi8 (n : Z) : Z := Z.land (Z.shiftr n 8) 0xFF.

Definition frame_bytes (cls cmd : Z) (data : list Z) : list Z :=
  let payload := cls :: cmd :: data in
  let n := Z.of_nat (length payload) in
  [kFrameHeader; lo8 n; hi8 n] ++ payload ++ [lo8 (CalcCrc16 payload); hi8 (CalcCrc16 payload); kFrameTail].

(** ** BuildFrame *)

Lemma build_frame_spec (b : list Z) cls cmd data :
  Z.of_nat (length data) <= 65533 -> (length data + 8 <= length b)%nat ->
  BuildFrame (Some b) cls cmd data =
    Ret (Z.of_nat (length data) + 8, frame_bytes cls cmd data ++ drop (length data + 8) b).
Proof.
  intros Hd Hb. destruct (split_length 5 b) as (h & r & -> & Hh); [lia|].
  rewrite length_app in Hb. destruct (split_length (length data) r) as (old & r' & -> & Hold); [lia|].
  rewrite length_app in Hb. destruct (split_length 3 r') as (t & rest & -> & Ht); [lia|].
  destruct h as [|h0 [|h1 [|h2 [|h3 [|h4 [|]]]]]]; try done. destruct t as [|t0 [|t1 [|t2 [|]]]]; try done.
  unfold BuildFrame, kFrameOverhead. rewrite !wrap_small by (unfold in_u; lia). rewrite Z.eqb_refl.
  rewrite length_app in Hb. cbn [length] in *.
  rewrite (proj2 (Z.ltb_ge _ _)) by (rewrite !length_app; cbn [length]; lia). cbn [negb orb].
  do 5 head_store. fold (lo8 (2 + Z.of_nat (length data))) (hi8 (2 + Z.of_nat (length data))).
  set (H := [kFrameHeader; lo8 (2 + Z.of_nat (length data)); hi8 (2 + Z.of_nat (length data))]).
  pose proof (copy_at (H ++ [cls; cmd]) old (t0 :: t1 :: t2 :: rest) data Hold) as E. cbn in E. change (Z.of_nat 5) with 5 in E. rewrite E. clear E.
  cbn [mbind outcome_bind].
  pose proof (span_at H (cls :: cmd :: data) (t0 :: t1 :: t2 :: rest) (2 + Z.of_nat (length data)) ltac:(cbn [length]; lia)) as E.
  cbn in E. change (Z.of_nat 3) with 3 in E. rewrite E. clear E. cbn [mbind outcome_bind].
  set (P := H ++ cls :: cmd :: data). set (crc := CalcCrc16 (cls :: cmd :: data)).
  change (Z.land crc 255) with (lo8 crc). change (Z.land (Z.shiftr crc 8) 255) with (hi8 crc).
  change (kFrameHeader :: _) with (P ++ t0 :: t1 :: t2 :: rest).
  assert (HP : Z.of_nat (length P) = 5 + Z.of_nat (length data)) by (subst P H; cbn [length app]; lia).
  rewrite <- HP, store_at. cbn [mbind outcome_bind].
  pose proof (store_at (P ++ [lo8 crc]) t1 (t2 :: rest) (hi8 crc)) as E. rewrite length_app, Nat2Z.inj_add, <- app_assoc in E.
  cbn [app length] in E. change (Z.of_nat 1) with 1 in E. rewrite E. clear E. cbn [mbind outcome_bind].
  pose proof (store_at (P ++ [lo8 crc; hi8 crc]) t2 rest kFrameTail) as E. rewrite length_app, Nat2Z.inj_add, <- !app_assoc in E.
  cbn [app length] in E. change (Z.of_nat 2) with 2 in E. rewrite <- app_assoc. cbn [app]. rewrite E. cbn [mbind outcome_bind]. unfold mret, outcome_ret. do 2 f_equal; [lia|].
  replace (length data + 8)%nat with (5 + (length old + 3))%nat by lia. cbn [drop Nat.add].
  rewrite drop_app_add. cbn [drop]. unfold frame_bytes. cbv zeta.
  replace (Z.of_nat (length (cls :: cmd :: data))) with (2 + Z.of_nat (length data)) by (cbn [length]; lia).
  fold H crc. subst P. by rewrite <- !app_assoc.
Qed.

(** A payload length that wraps: the guard sees 6 bytes, the copy takes 65534. *)
Lemma build_frame_wraps (b : list Z) cls cmd data :
  Z.of_nat (length data) = 65534 -> 6 <= Z.of_nat (length b) < 65539 -> BuildFrame (Some b) cls cmd data = Fatal.
Proof.
  intros Hd Hb. unfold BuildFrame, kFrameOverhead. rewrite Hd. rewrite (wrap_small 16 65534) by done.
  change (u16 (2 + 65534)) with 0. rewrite Z.eqb_refl, (proj2 (Z.ltb_ge _ _)) by lia. cbn [negb orb].
  do 5 (rewrite store_ret by (rewrite ?length_insert; lia); cbn [mbind outcome_bind]).
  unfold copy_to at 1. rewrite Hd, !length_insert, (proj2 (Z.leb_gt (5 + 65534) _)) by lia. by rewrite andb_false_r.
Qed.

(** ** One byte *)

(** The handler's verdict, applied. *)
Definition parser_step (s : PState) (b : Z) (c : ParserContext) : outcome (PState * ParserContext) :=
  r ← parser_handler s kEvtByte (take_byte c b);
  mret (match r.1 with kTransition s' => s' | _ => s end, r.2).

Lemma put_byte_step {M : OspMachine} {HM : OspMachineOk M} s c b : PutByte (s, c) b = parser_step s b c.
Proof.
  unfold PutByte, parser_step. cbn [fst snd]. destruct (parser_handler s kEvtByte (take_byte c b)) as [[r c']|] eqn:Hh.
  - destruct r as [| |s']; cbn [mbind outcome_bind fst snd].
    + apply dispatch_stays. by left.
    + apply dispatch_stays. by right.
    + rewrite (dispatch_moves _ _ _ _ _ s' c' Hh); [done|]. intros ->. revert Hh. clear.
      destruct s; simpl; unfold HandleIdle, HandleLenLo, HandleLenHi, HandleCmdClass, HandleCmd, HandleData, HandleCrcLo,
        HandleCrcHi, HandleTail, to_state; rewrite Z.eqb_refl; repeat case_match; try done;
        intros (? & ? & Hx)%bind_ret_inv || intros Hx; try done; revert Hx; repeat case_match; try done;
        intros (? & ? & Hx)%bind_ret_inv; revert Hx; repeat case_match; done.
  - by apply dispatch_fatal.
Qed.

(** Two bytes make a 16-bit word. *)
Lemma word_of_bytes lo hi :
  in_u 8 lo -> in_u 8 hi ->
  let n := u16 (Z.lor lo (u16 (Z.shiftl hi 8))) in in_u 16 n /\ lo8 n = lo /\ hi8 n = hi.
Proof.
  intros Hl Hh. cbv zeta. assert (Hn : u16 (Z.lor lo (u16 (Z.shiftl hi 8))) = lo + hi * 256).
  { rewrite (wrap_small 16 (Z.shiftl hi 8)) by (by apply shiftl8_in).
    assert (Hor : Z.lor lo (Z.shiftl hi 8) = lo + hi * 256).
    { assert (Hand : Z.land lo (Z.shiftl hi 8) = 0).
      { apply Z.bits_inj'. intros i Hi. rewrite Z.land_spec, Z.shiftl_spec, Z.bits_0 by lia.
        destruct (decide (i < 8)); [by rewrite (Z.testbit_neg_r hi), andb_false_r by lia|].
        by rewrite (proj2 (proj1 (in_u_testbit 8 lo ltac:(done)) Hl)) by lia. }
      rewrite <- Z.lxor_lor, <- Z.add_nocarry_lxor by done. by rewrite Z.shiftl_mul_pow2 by lia. }
    rewrite Hor. apply wrap_small. unfold in_u in *. lia. }
  rewrite Hn. unfold lo8, hi8, in_u in *. split; [lia|]. change 255 with (Z.ones 8).
  rewrite !Z.land_ones, Z.shiftr_div_pow2 by lia. rewrite Z.mod_add, Z.mod_small by lia. split; [done|].
  rewrite Z.div_add, Z.div_small, Z.add_0_l by lia. apply Z.mod_small. lia.
Qed.

Lemma lo8_small n : in_u 8 n -> lo8 n = n.
Proof. intros. unfold lo8. change 255 with (Z.ones 8). rewrite Z.land_ones by lia. by apply Z.mod_small. Qed.

(** ** What the parser holds *)

Definition frame_data (f : Frame) : list Z := take (Z.to_nat (f_len f)) (f_data f).
Definition frame_wire (f : Frame) : list Z := frame_bytes (f_class f) (f_cmd f) (frame_data f).

(** [on_wire w fs]: the frames [fs] occur in [w], complete, in order and
    without overlap. *)
Inductive on_wire : list Z -> list Frame -> Prop :=
| ow_noise w : on_wire w []
| ow_frame w fs f noise : on_wire w fs -> on_wire (w ++ frame_wire f ++ noise) (fs ++ [f]).

Lemma on_wire_noise w fs noise : on_wire w fs -> on_wire (w ++ noise) fs.
Proof.
  destruct 1 as [|w fs f n Hw]; [constructor|]. rewrite <- !app_assoc. by constructor.
Qed.

(** The bytes of the frame under construction, as the context remembers them. *)
Definition length_prefix (c : ParserContext) : list Z := [kFrameHeader; lo8 (expected_len c); hi8 (expected_len c)].
Definition got (c : ParserContext) : list Z :=
  f_class (frame c) :: f_cmd (frame c) :: take (Z.to_nat (payload_index c - 2)) (f_data (frame c)).

Definition partial (s : PState) (c : ParserContext) : list Z :=
  let crc := f_crc (frame c) in
  match s with
  | PIdle => []
  | PLenLo => [kFrameHeader]
  | PLenHi => [kFrameHeader; expected_len c]
  | PCmdClass => length_prefix c
  | PCmd => length_prefix c ++ [f_class (frame c)]
  | PData | PCrcLo => length_prefix c ++ got c
  | PCrcHi => length_prefix c ++ got c ++ [crc]
  | PTail => length_prefix c ++ got c ++ [lo8 crc; hi8 crc]
  end.

(** The payload so far, in both copies. *)
Definition payload_ok (c : ParserContext) : Prop :=
  2 <= expected_len c <= 258 /\ f_len (frame c) = expected_len c - 2 /\
  2 <= payload_index c <= expected_len c /\ take (Z.to_nat (payload_index c)) (payload_buf c) = got c.

Definition in_state (s : PState) (c : ParserContext) : Prop :=
  match s with
  | PIdle => True
  | PLenLo => payload_index c = 0
  | PLenHi => payload_index c = 0 /\ in_u 8 (expected_len c)
  | PCmdClass => payload_index c = 0 /\ 2 <= expected_len c <= 258
  | PCmd => payload_index c = 1 /\ 2 <= expected_len c <= 258 /\ take 1 (payload_buf c) = [f_class (frame c)]
  | PData => payload_ok c /\ payload_index c < expected_len c
  | PCrcLo => payload_ok c /\ payload_index c = expected_len c
  | PCrcHi => payload_ok c /\ payload_index c = expected_len c /\ in_u 8 (f_crc (frame c))
  | PTail => payload_ok c /\ payload_index c = expected_len c /\ in_u 16 (f_crc (frame c))
  end.

Record parser_inv (consumed : list Z) (s : PState) (c : ParserContext) : Prop := {
  pi_buf : length (payload_buf c) = 258%nat;
  pi_data : length (f_data (frame c)) = 256%nat;
  pi_cb : callback c = true;
  pi_state : in_state s c;
  pi_wire : exists before, consumed = before ++ partial s c /\ on_wire before (delivered c)
}.

(** Back to Idle: whatever was collected becomes noise. *)
Lemma inv_idle consumed s c b c' :
  parser_inv consumed s c -> length (payload_buf c') = 258%nat -> length (f_data (frame c')) = 256%nat ->
  callback c' = true -> delivered c' = delivered c -> parser_inv (consumed ++ [b]) PIdle c'.
Proof.
  intros [_ _ _ _ (w & -> & Hw)] H1 H2 H3 H4. split; try done. exists ((w ++ partial s c) ++ [b]).
  rewrite app_nil_r. split; [done|]. rewrite H4. by apply on_wire_noise, on_wire_noise.
Qed.

(** One more byte of a frame. *)
Lemma inv_next consumed s c b s' c' :
  parser_inv consumed s c -> length (payload_buf c') = 258%nat -> length (f_data (frame c')) = 256%nat ->
  callback c' = callback c -> delivered c' = delivered c -> in_state s' c' -> partial s' c' = partial s c ++ [b] ->
  parser_inv (consumed ++ [b]) s' c'.
Proof.
  intros [_ _ H0 _ (w & -> & Hw)] H1 H2 H3 H4 H5 H6. split; try done; [congruence|]. exists w.
  rewrite H6, H4, <- app_assoc. done.
Qed.

Lemma take_insert_snoc {A} (l : list A) n x : (n < length l)%nat -> take (S n) (<[n := x]> l) = take n l ++ [x].
Proof.
  intros Hn. rewrite (take_S_r _ _ x) by (by apply list_lookup_insert_eq). by rewrite take_insert_ge by lia.
Qed.

Lemma append_payload_ret c :
  0 <= payload_index c < 258 -> length (payload_buf c) = 258%nat ->
  append_payload c = Ret (mkCtx (current_byte c) (frame c) (expected_len c) (payload_index c + 1)
    (<[Z.to_nat (payload_index c) := current_byte c]> (payload_buf c)) (stats c) (callback c) (delivered c)).
Proof.
  intros Hi Hb. unfold append_payload. rewrite store_ret by lia. cbn [mbind outcome_bind].
  by rewrite wrap_small by (unfold in_u; lia).
Qed.

Lemma step_idle consumed c b :
  parser_inv consumed PIdle c -> exists s' c', parser_step PIdle b c = Ret (s', c') /\ parser_inv (consumed ++ [b]) s' c'.
Proof.
  intros Hi. pose proof Hi as [Hb Hd Hc _ _]. unfold parser_step, parser_handler, HandleIdle. rewrite Z.eqb_refl.
  cbn [current_byte take_byte]. destruct (Z.eqb_spec b kFrameHeader) as [->|Hne]; eexists _, _; (split; [reflexivity|]).
  - by eapply inv_next.
  - by eapply inv_idle.
Qed.

Lemma step_length consumed s c b :
  s = PLenLo \/ s = PLenHi -> in_u 8 b -> parser_inv consumed s c ->
  exists s' c', parser_step s b c = Ret (s', c') /\ parser_inv (consumed ++ [b]) s' c'.
Proof.
  intros [-> | ->] Hb Hi; pose proof Hi as [Hbuf Hd Hc Hst _]; unfold parser_step, parser_handler, HandleLenLo, HandleLenHi;
    rewrite Z.eqb_refl; cbn [current_byte take_byte].
  - eexists _, _. split; [reflexivity|]. eapply inv_next; try done.
  - destruct Hst as [Hix He]. cbn [expected_len set_expected].
    destruct (word_of_bytes _ _ He Hb) as (Hn & Hlo & Hhi). set (n := u16 _) in *.
    destruct ((n <? 2) || _) eqn:Hg; eexists _, _; (split; [reflexivity|]).
    + by eapply inv_idle.
    + split_bools. unfold kMaxPayloadLen in *. eapply inv_next; try done; simpl; [lia|]. unfold length_prefix. simpl. by rewrite Hlo, Hhi.
Qed.

Lemma step_command consumed s c b :
  s = PCmdClass \/ s = PCmd -> parser_inv consumed s c ->
  exists s' c', parser_step s b c = Ret (s', c') /\ parser_inv (consumed ++ [b]) s' c'.
Proof.
  intros [-> | ->] Hi; pose proof Hi as [Hbuf Hd Hc Hst _]; unfold parser_step, parser_handler, HandleCmdClass, HandleCmd;
    rewrite Z.eqb_refl; cbn [current_byte take_byte]; simpl in Hst.
  - destruct Hst as [Hix He]. rewrite append_payload_ret by (simpl; rewrite ?Hix; lia || done).
    cbn [mbind outcome_bind]. eexists _, _. split; [reflexivity|].
    eapply inv_next; try done; simpl; rewrite ?Hix; [by rewrite length_insert|].
    split_and!; [done|lia|lia|]. change (Z.to_nat 0) with 0%nat. by rewrite (take_insert_snoc _ 0) by lia.
  - destruct Hst as (Hix & He & Hb0). rewrite append_payload_ret by (simpl; rewrite ?Hix; lia || done).
    cbn [mbind outcome_bind].
    match goal with |- context [to_state PData ?x] => set (c1 := x) end.
    assert (Hn : u16 (expected_len c - 2) = expected_len c - 2) by (apply wrap_small; unfold in_u; lia).
    assert (Hpay : payload_ok c1).
    { subst c1. split_and!; simpl; rewrite ?Hix; try lia. change (Z.to_nat (1 + 1)) with 2%nat.
      change (Z.to_nat 1) with 1%nat. rewrite take_insert_snoc, Hb0 by lia. unfold got. simpl. by rewrite ?Hix. }
    assert (Hpart : length_prefix c1 ++ got c1 = partial PCmd c ++ [b]).
    { unfold got, length_prefix. simpl. rewrite ?Hix. done. }
    match goal with |- context [if ?x then _ else _] => change x with (0 <? u16 (expected_len c - 2)) end. rewrite Hn.
    destruct (Z.ltb_spec 0 (expected_len c - 2)); eexists _, _; (split; [reflexivity|]);
      eapply inv_next; try done; try (simpl; by rewrite length_insert); (split; [done|]); subst c1; simpl; rewrite Hix; lia.
Qed.

Lemma got_snoc c b d' :
  payload_ok c -> d' = <[Z.to_nat (payload_index c - 2) := b]> (f_data (frame c)) ->
  (Z.to_nat (payload_index c - 2) < length (f_data (frame c)))%nat ->
  take (Z.to_nat (payload_index c + 1 - 2)) d' = take (Z.to_nat (payload_index c - 2)) (f_data (frame c)) ++ [b].
Proof.
  intros (_ & _ & Hi & _) -> Hlt. replace (Z.to_nat (payload_index c + 1 - 2)) with (S (Z.to_nat (payload_index c - 2))) by lia.
  by apply take_insert_snoc.
Qed.

(** One data byte, stored in both copies. *)
Definition after_data (c : ParserContext) (b : Z) : ParserContext :=
  let f := frame c in
  mkCtx b (mkFrame (f_class f) (f_cmd f) (f_len f) (<[Z.to_nat (payload_index c - 2) := b]> (f_data f)) (f_crc f))
    (expected_len c) (payload_index c + 1) (<[Z.to_nat (payload_index c) := b]> (payload_buf c))
    (stats (take_byte c b)) (callback c) (delivered c).

Lemma data_byte c b :
  payload_ok c -> payload_index c < expected_len c -> length (payload_buf c) = 258%nat -> length (f_data (frame c)) = 256%nat ->
  payload_ok (after_data c b) /\ got (after_data c b) = got c ++ [b].
Proof.
  intros Hp Hlt Hb Hd. pose proof Hp as (He & Hl & Hix & Htk). pose proof (got_snoc c b _ Hp eq_refl ltac:(lia)) as Hsn.
  assert (Hgot : got (after_data c b) = got c ++ [b]) by (unfold got; simpl; by rewrite Hsn).
  split; [|done]. split_and!; simpl; try lia. rewrite Hgot.
  replace (Z.to_nat (payload_index c + 1)) with (S (Z.to_nat (payload_index c))) by lia.
  rewrite take_insert_snoc by lia. by rewrite Htk.
Qed.

Lemma step_data consumed c b :
  parser_inv consumed PData c ->
  exists s' c', parser_step PData b c = Ret (s', c') /\ parser_inv (consumed ++ [b]) s' c'.
Proof.
  intros Hi. pose proof Hi as [Hbuf Hd Hc [Hp Hlt] _]. pose proof Hp as (He & Hl & Hix & Htk).
  unfold parser_step, parser_handler, HandleData. rewrite Z.eqb_refl. cbn [current_byte take_byte frame payload_index].
  rewrite wrap_small by (unfold in_u; lia). rewrite store_ret by lia. cbn [mbind outcome_bind].
  rewrite append_payload_ret by (simpl; lia || done). cbn [mbind outcome_bind]. change (mkCtx _ _ _ _ _ _ _ _) with (after_data c b). set (c1 := after_data c b).
  destruct (data_byte c b Hp ltac:(lia) ltac:(lia) ltac:(lia)) as [Hpay Hgot]. fold c1 in Hpay, Hgot.
  assert (Hpart : length_prefix c1 ++ got c1 = partial PData c ++ [b]) by (change (partial PData c) with (length_prefix c ++ got c); by rewrite Hgot, app_assoc).
  destruct (Z.leb_spec (expected_len c1) (payload_index c1)); eexists _, _; (split; [reflexivity|]);
    eapply inv_next; try done; try (simpl; by rewrite length_insert); (split; [done|]); simpl in *; lia.
Qed.

Lemma step_crc consumed s c b :
  s = PCrcLo \/ s = PCrcHi -> in_u 8 b -> parser_inv consumed s c ->
  exists s' c', parser_step s b c = Ret (s', c') /\ parser_inv (consumed ++ [b]) s' c'.
Proof.
  intros [-> | ->] Hb Hi; pose proof Hi as [Hbuf Hd Hc Hst _]; unfold parser_step, parser_handler, HandleCrcLo, HandleCrcHi;
    rewrite Z.eqb_refl; cbn [current_byte take_byte]; simpl in Hst; eexists _, _; (split; [reflexivity|]).
  - destruct Hst as [Hp Hix]. by eapply inv_next.
  - destruct Hst as (Hp & Hix & Hcr). destruct (word_of_bytes _ _ Hcr Hb) as (Hn & Hlo & Hhi).
    eapply inv_next; try done. simpl. unfold got, length_prefix. simpl. rewrite Hlo, Hhi, <- !app_assoc. done.
Qed.

Lemma payload_span c :
  length (payload_buf c) = 258%nat -> payload_ok c -> payload_index c = expected_len c ->
  span (payload_buf c) 0 (expected_len c) = Ret (got c).
Proof.
  intros Hbuf (He & _ & _ & Htk) Hix. rewrite <- Htk, Hix.
  rewrite <- (take_drop (Z.to_nat (expected_len c)) (payload_buf c)) at 1.
  apply (span_at [] (take _ _)). rewrite length_take. lia.
Qed.

Lemma step_tail consumed c b :
  parser_inv consumed PTail c ->
  exists s' c', parser_step PTail b c = Ret (s', c') /\ parser_inv (consumed ++ [b]) s' c'.
Proof.
  intros Hi. pose proof Hi as [Hbuf Hd Hc Hst (w & Hw & How)]. simpl in Hst. destruct Hst as (Hp & Hix & Hcr).
  pose proof Hp as (He & Hl & _ & Htk).
  unfold parser_step, parser_handler, HandleTail. rewrite Z.eqb_refl. cbn [current_byte take_byte payload_buf frame expected_len].
  destruct (Z.eqb_spec b kFrameTail) as [->|Hne]; cbn [negb]; [|eexists _, _; split; [reflexivity|]; by eapply inv_idle].
  pose proof (payload_span c Hbuf Hp Hix) as Hs.
  rewrite Hs. cbn [mbind outcome_bind]. destruct (Z.eqb_spec (CalcCrc16 (got c)) (f_crc (frame c))) as [Hcrc|Hne]; cbn [negb];
    eexists _, _; (split; [reflexivity|]); [|by eapply inv_idle].
  split; try done. simpl. rewrite Hc. exists (consumed ++ [kFrameTail]). split; [by rewrite app_nil_r|].
  assert (Hfw : partial PTail c ++ [kFrameTail] = frame_wire (frame c)).
  { unfold frame_wire, frame_bytes, frame_data. rewrite Hl. cbv zeta. simpl partial.
    assert (Hg : got c = f_class (frame c) :: f_cmd (frame c) :: take (Z.to_nat (expected_len c - 2)) (f_data (frame c)))
      by (unfold got; by rewrite Hix).
    rewrite <- Hg, Hcrc. unfold length_prefix. cbn [app]. rewrite <- app_assoc.
    assert (Hlen : Z.of_nat (length (got c)) = expected_len c) by (rewrite Hg; simpl; rewrite length_take; lia).
    by rewrite Hlen. }
  rewrite Hw, <- app_assoc, Hfw, <- (app_nil_r (frame_wire _)). by constructor.
Qed.

Lemma parser_inv_step consumed s c b :
  in_u 8 b -> parser_inv consumed s c ->
  exists s' c', parser_step s b c = Ret (s', c') /\ parser_inv (consumed ++ [b]) s' c'.
Proof. intros Hb Hi. destruct s; eauto using step_idle, step_length, step_command, step_data, step_crc, step_tail. Qed.

Lemma put_data_inv {M : OspMachine} {HM : OspMachineOk M} bytes consumed s c :
  Forall (in_u 8) bytes -> parser_inv consumed s c ->
  exists s' c', PutData (s, c) bytes = Ret (s', c') /\ parser_inv (consumed ++ bytes) s' c'.
Proof.
  intros Hb. revert consumed s c. induction Hb as [|b bytes Hb _ IH]; intros consumed s c Hi; simpl.
  { exists s, c. by rewrite app_nil_r. }
  destruct (parser_inv_step _ _ _ _ Hb Hi) as (s1 & c1 & Hst & Hi1). rewrite put_byte_step, Hst. cbn [mbind outcome_bind].
  destruct (IH _ _ _ Hi1) as (s2 & c2 & Hr & Hi2). exists s2, c2. split; [done|]. by rewrite <- app_assoc in Hi2.
Qed.

(** A machine with the promised behaviour. *)
#[local] Instance plain_machine : OspMachine := {|
  Dispatch := fun S E C h en s e c =>
    r ← h s e c;
    match r.1 with kTransition s' => c' ← en s' r.2; mret (s', c') | _ => mret (s, r.2) end
|}.

#[local] Instance plain_machine_ok : OspMachineOk plain_machine.
Proof.
  split; intros; simpl.
  - by destruct H as [-> | ->].
  - by rewrite H.
  - by rewrite H.
Qed.

(** C31: The parser is safe and sound on every byte stream.  Whatever bytes
    arrive at a fresh parser, it never writes or reads outside its buffers, and
    the frames it hands to the callback are exactly frames of the wire format
    that occur in the stream, complete, in order and without overlap, each with a
    matching checksum. *)
Theorem parser_safe_and_sound {M : OspMachine} {HM : OspMachineOk M} (bytes : list Z) :
  Forall (in_u 8) bytes ->
  exists s c, PutData (PIdle, SetCallback ctx0 true) bytes = Ret (s, c) /\ on_wire bytes (delivered c).
Proof.
  intros Hb. destruct (put_data_inv bytes [] PIdle (SetCallback ctx0 true) Hb) as (s & c & Hr & [_ _ _ _ (w & Hw & How)]).
  { split; try done. exists []. split; [done|]. constructor. }
  exists s, c. split; [done|]. change ([] ++ bytes) with bytes in Hw. rewrite Hw. by apply on_wire_noise.
Qed.

Lemma parser_safe_and_sound_witness :
  exists s c, PutData (PIdle, SetCallback ctx0 true) [1; 0xAA; 3; 0; 4] = Ret (s, c) /\ on_wire [1; 0xAA; 3; 0; 4] (delivered c).
Proof.
  apply (parser_safe_and_sound [1; 0xAA; 3; 0; 4]). repeat (apply Forall_cons; split; [done|]). by apply Forall_nil.
Defined.

(** ** Round trip *)

Definition count_bytes (k : Z) (s : ParserStats) : ParserStats :=
  mkStats (u32 (bytes_received s + k)) (frames_received s) (sync_errors s) (crc_errors s) (tail_errors s) (length_errors s).

Lemma count_bytes_more k j s : count_bytes j (count_bytes k s) = count_bytes (k + j) s.
Proof. unfold count_bytes. simpl. by rewrite wrap_add_wrap_l, Z.add_assoc by lia. Qed.

Definition buffers_ok (c : ParserContext) : Prop := length (payload_buf c) = 258%nat /\ length (f_data (frame c)) = 256%nat.

(** Nothing reported, [k] more bytes counted. *)
Definition quietly (k : Z) (c c' : ParserContext) : Prop :=
  callback c' = callback c /\ delivered c' = delivered c /\ stats c' = count_bytes k (stats c).

Lemma quietly_trans k j c c' c'' : quietly k c c' -> quietly j c' c'' -> quietly (k + j) c c''.
Proof. intros (H1 & H2 & H3) (H4 & H5 & H6). unfold quietly. rewrite H6, H3, count_bytes_more. split_and!; congruence. Qed.

Lemma word_split n : in_u 16 n -> u16 (Z.lor (lo8 n) (u16 (Z.shiftl (hi8 n) 8))) = n.
Proof.
  intros Hn. assert (Hlo : in_u 8 (lo8 n)) by (apply land_in_u_r; unfold in_u; lia). assert (Hhi : in_u 8 (hi8 n)) by (apply land_in_u_r; unfold in_u; lia).
  destruct (word_of_bytes _ _ Hlo Hhi) as (Hw & El & Eh). cbv zeta in *. set (m := u16 (Z.lor _ _)) in *.
  unfold lo8, hi8 in El, Eh. change 255 with (Z.ones 8) in El, Eh. rewrite !Z.land_ones, !Z.shiftr_div_pow2 in * by lia.
  change (2 ^ 8) with 256 in *. unfold in_u in *.
  rewrite (Z.mod_small (m / 256)), (Z.mod_small (n / 256)) in Eh by (split; [apply Z.div_pos|apply Z.div_lt_upper_bound]; lia).
  rewrite (Z.div_mod m 256), (Z.div_mod n 256) by lia. lia.
Qed.

(** The five bytes before the data. *)
Lemma header_run {M : OspMachine} {HM : OspMachineOk M} c cls cmd n :
  length (payload_buf c) = 258%nat -> 2 <= n <= 258 ->
  exists c', PutData (PIdle, c) [kFrameHeader; lo8 n; hi8 n; cls; cmd] = Ret (if 2 <? n then PData else PCrcLo, c') /\
    buffers_ok c' /\ payload_ok c' /\ expected_len c' = n /\ payload_index c' = 2 /\ got c' = [cls; cmd] /\ quietly 5 c c'.
Proof.
  intros Hb Hn. do 3 (cbn -[u16 lo8 hi8 u32 frame0]; rewrite put_byte_step; cbn -[u16 lo8 hi8 u32 frame0]).
  rewrite word_split by (unfold in_u; lia). unfold kMaxPayloadLen.
  rewrite (proj2 (Z.ltb_ge n 2)), (proj2 (Z.ltb_ge 256 (n - 2))) by lia. cbn -[u16 lo8 hi8 u32 frame0].
  rewrite put_byte_step. unfold parser_step, parser_handler, HandleCmdClass. rewrite Z.eqb_refl.
  rewrite append_payload_ret by (simpl; lia || done). cbn -[u16 lo8 hi8 u32 frame0].
  rewrite put_byte_step. unfold parser_step, parser_handler, HandleCmd. rewrite Z.eqb_refl.
  rewrite append_payload_ret by (simpl; rewrite ?length_insert; lia || done). cbn -[u16 lo8 hi8 u32 frame0].
  rewrite wrap_small by (unfold in_u; lia).
  replace (0 <? n - 2) with (2 <? n) by (destruct (Z.ltb_spec 2 n), (Z.ltb_spec 0 (n - 2)); lia || done).
  set (d := f_data frame0). assert (Hd : length d = 256%nat) by done.
  destruct (2 <? n); eexists; (split; [reflexivity|]); unfold buffers_ok, payload_ok, got, quietly; simpl; rewrite !length_insert;
    (split_and!; try done; try lia);
    try (destruct (payload_buf c) as [|? [|? l]]; done); change 5 with (1 + 1 + 1 + 1 + 1); by rewrite <- !count_bytes_more.
Qed.

(** The data bytes. *)
Lemma data_run {M : OspMachine} {HM : OspMachineOk M} rest c :
  rest <> [] -> buffers_ok c -> payload_ok c -> expected_len c = payload_index c + Z.of_nat (length rest) ->
  exists c', PutData (PData, c) rest = Ret (PCrcLo, c') /\ buffers_ok c' /\ payload_ok c' /\
    expected_len c' = expected_len c /\ payload_index c' = expected_len c /\ got c' = got c ++ rest /\
    quietly (Z.of_nat (length rest)) c c'.
Proof.
  revert c. induction rest as [|b rest IH]; [done|]. intros c _ [Hb Hd] Hp Hl. pose proof Hp as (He & Hf & Hix & Htk).
  cbn [PutData]. rewrite put_byte_step. unfold parser_step, parser_handler, HandleData. rewrite Z.eqb_refl.
  cbn [current_byte take_byte frame payload_index]. cbn [length] in Hl.
  rewrite wrap_small by (unfold in_u; lia). rewrite store_ret by lia. cbn [mbind outcome_bind].
  rewrite append_payload_ret by (simpl; lia || done). cbn [mbind outcome_bind]. change (mkCtx _ _ _ _ _ _ _ _) with (after_data c b). set (c1 := after_data c b).
  assert (H1 : buffers_ok c1) by (split; simpl; by rewrite length_insert).
  destruct (data_byte c b Hp ltac:(lia) ltac:(lia) ltac:(lia)) as [Hpay Hgot].
  assert (Hq : quietly 1 c c1) by done.
  destruct (Z.leb_spec (expected_len c1) (payload_index c1)) as [Hle|Hgt]; simpl in Hle || simpl in Hgt.
  - destruct rest as [|b2 rest]; [|cbn [length] in Hl; lia]. exists c1. split; [done|]. split_and!; try done; simpl; lia.
  - destruct rest as [|b2 rest]; [cbn [length] in Hl; lia|].
    destruct (IH c1) as (c2 & Hr & H2 & Hp2 & He2 & Hi2 & Hg2 & Hq2); try done; [simpl in *; lia|].
    exists c2. split; [exact Hr|]. split_and!; try done.
    + rewrite Hg2. fold c1 in Hgot. by rewrite Hgot, <- app_assoc.
    + replace (Z.of_nat (length (b :: b2 :: rest))) with (1 + Z.of_nat (length (b2 :: rest))) by (cbn [length]; lia).
      by eapply quietly_trans.
Qed.

(** What the trailer does to the counters: a frame more, or a checksum error more. *)
Definition count_frame (ok : bool) (k : Z) (s : ParserStats) : ParserStats :=
  let n := u32 (bytes_received s + k) in
  if ok then mkStats n (u32 (frames_received s + 1)) (sync_errors s) (crc_errors s) (tail_errors s) (length_errors s)
  else mkStats n (frames_received s) (sync_errors s) (u32 (crc_errors s + 1)) (tail_errors s) (length_errors s).

Lemma trailer_run {M : OspMachine} {HM : OspMachineOk M} c v :
  buffers_ok c -> payload_ok c -> payload_index c = expected_len c -> callback c = true -> in_u 16 v ->
  let ok := CalcCrc16 (got c) =? v in
  exists f, PutData (PCrcLo, c) [lo8 v; hi8 v; kFrameTail] =
      Ret (PIdle, mkCtx kFrameTail f (expected_len c) (payload_index c) (payload_buf c) (count_frame ok 3 (stats c))
        (callback c) (delivered c ++ (if ok then [f] else []))) /\
    f_class f :: f_cmd f :: frame_data f = got c /\ f_len f = expected_len c - 2 /\ length (f_data f) = 256%nat.
Proof.
  intros [Hb Hd] Hp Hix Hcb Hv. pose proof Hp as (He & Hf & _ & _). cbv zeta.
  do 3 (cbn -[u16 lo8 hi8 u32 span CalcCrc16]; rewrite put_byte_step; cbn -[u16 lo8 hi8 u32 span CalcCrc16]).
  rewrite word_split by done. rewrite payload_span by done. cbn -[u16 lo8 hi8 u32 span CalcCrc16].
  assert (Hw : u32 (u32 (u32 (bytes_received (stats c) + 1) + 1) + 1) = u32 (bytes_received (stats c) + 3)).
  { rewrite (wrap_add_wrap_l 32 (bytes_received (stats c) + 1) 1) by lia. rewrite wrap_add_wrap_l by lia. f_equal. lia. }
  unfold count_frame.
  destruct (CalcCrc16 (got c) =? v); [rewrite Hcb|]; cbn -[u16 lo8 hi8 u32 span CalcCrc16]; rewrite Hw, ?app_nil_r;
    (eexists; split; [reflexivity|]); unfold got, frame_data; simpl; by rewrite Hf, Hix.
Qed.

Lemma put_data_app {M : OspMachine} p bs1 bs2 : PutData p (bs1 ++ bs2) = (p' ← PutData p bs1; PutData p' bs2).
Proof.
  revert p. induction bs1 as [|b bs1 IH]; intros p; [done|]. simpl. destruct (PutByte p b); cbn [mbind outcome_bind]; done.
Qed.

Lemma frame_bytes_length cls cmd data : length (frame_bytes cls cmd data) = (length data + 8)%nat.
Proof. unfold frame_bytes. cbv zeta. rewrite !length_app. simpl. lia. Qed.

Lemma take_frame cls cmd data rest :
  take (Z.to_nat (Z.of_nat (length data) + 8)) (frame_bytes cls cmd data ++ rest) = frame_bytes cls cmd data.
Proof.
  replace (Z.to_nat (Z.of_nat (length data) + 8)) with (length (frame_bytes cls cmd data)) by (rewrite frame_bytes_length; lia).
  by rewrite take_app_length.
Qed.

(** A frame with the checksum [v]. *)
Definition wire (cls cmd : Z) (data : list Z) (v : Z) : list Z :=
  let payload := cls :: cmd :: data in
  let n := Z.of_nat (length payload) in [kFrameHeader; lo8 n; hi8 n] ++ payload ++ [lo8 v; hi8 v; kFrameTail].

(** Header and data, from Idle. *)
Lemma payload_run {M : OspMachine} {HM : OspMachineOk M} c cls cmd data n :
  (length data <= 256)%nat -> length (payload_buf c) = 258%nat -> n = Z.of_nat (length data) + 2 ->
  exists c', PutData (PIdle, c) ([kFrameHeader; lo8 n; hi8 n] ++ cls :: cmd :: data) = Ret (PCrcLo, c') /\ buffers_ok c' /\
    payload_ok c' /\ expected_len c' = n /\ payload_index c' = n /\ got c' = cls :: cmd :: data /\
    quietly (5 + Z.of_nat (length data)) c c'.
Proof.
  intros Hlen Hc Hn.
  change ([kFrameHeader; lo8 n; hi8 n] ++ (cls :: cmd :: data)) with ([kFrameHeader; lo8 n; hi8 n; cls; cmd] ++ data).
  rewrite put_data_app. destruct (header_run c cls cmd n Hc ltac:(lia)) as (c1 & -> & Hb1 & Hp1 & He1 & Hi1 & Hg1 & Hq1).
  cbn [mbind outcome_bind]. destruct data as [|d ds].
  - rewrite (proj2 (Z.ltb_ge 2 n)) by (simpl in Hn; lia). exists c1. split_and!; try done; simpl in Hn; lia.
  - rewrite (proj2 (Z.ltb_lt 2 n)) by (simpl in Hn; lia).
    destruct (data_run (d :: ds) c1) as (c2 & Hr & Hb2 & Hp2 & He2 & Hi2 & Hg2 & Hq2); try done; [lia|].
    exists c2. split_and!; try done; try congruence; [by rewrite Hg2, Hg1|]. by eapply quietly_trans.
Qed.

(** A frame on the wire, parsed from Idle: reported when the checksum is right,
    counted as a checksum error when it is not. *)
Lemma parse_wire {M : OspMachine} {HM : OspMachineOk M} c cls cmd data v :
  in_u 16 v -> (length data <= 256)%nat -> length (payload_buf c) = 258%nat -> callback c = true ->
  let ok := CalcCrc16 (cls :: cmd :: data) =? v in
  exists f c', PutData (PIdle, c) (wire cls cmd data v) = Ret (PIdle, c') /\
    delivered c' = delivered c ++ (if ok then [f] else []) /\
    f_class f = cls /\ f_cmd f = cmd /\ f_len f = Z.of_nat (length data) /\ frame_data f = data /\
    stats c' = count_frame ok (Z.of_nat (length data) + 8) (stats c) /\
    length (payload_buf c') = 258%nat /\ callback c' = true /\ length (f_data f) = 256%nat.
Proof.
  intros Hv Hlen Hc Hcb. cbv zeta. unfold wire. cbv zeta. set (n := Z.of_nat (length (cls :: cmd :: data))).
  assert (Hn : n = Z.of_nat (length data) + 2) by (subst n; cbn [length]; lia).
  rewrite app_assoc, put_data_app.
  destruct (payload_run c cls cmd data n Hlen Hc Hn) as (c2 & -> & Hb2 & Hp2 & He2 & Hi2 & Hg2 & Hcb2 & Hdel2 & Hst2).
  cbn [mbind outcome_bind].
  destruct (trailer_run c2 v Hb2 Hp2 ltac:(congruence) ltac:(congruence) Hv) as (f & Hr & Hf & Hfl & Hfd).
  rewrite Hg2 in Hr, Hf. injection Hf as Hf1 Hf2 Hf3. exists f. eexists. split; [exact Hr|]. cbn [delivered stats payload_buf callback].
  split_and!; try done; [congruence|lia| |apply Hb2|congruence].
  rewrite Hst2. unfold count_frame, count_bytes. cbn [bytes_received frames_received sync_errors crc_errors tail_errors length_errors].
  rewrite wrap_add_wrap_l by lia. by replace (bytes_received (stats c) + (5 + Z.of_nat (length data)) + 3)
    with (bytes_received (stats c) + (Z.of_nat (length data) + 8)) by lia.
Qed.

Lemma parse_frame {M : OspMachine} {HM : OspMachineOk M} c cls cmd data :
  Forall (in_u 8) (cls :: cmd :: data) -> (length data <= 256)%nat -> length (payload_buf c) = 258%nat -> callback c = true ->
  exists f c', PutData (PIdle, c) (frame_bytes cls cmd data) = Ret (PIdle, c') /\
    delivered c' = delivered c ++ [f] /\
    f_class f = cls /\ f_cmd f = cmd /\ f_len f = Z.of_nat (length data) /\ frame_data f = data /\
    stats c' = count_frame true (Z.of_nat (length data) + 8) (stats c) /\
    length (payload_buf c') = 258%nat /\ callback c' = true /\ length (f_data f) = 256%nat.
Proof.
  intros Hby Hlen Hc Hcb.
  pose proof (parse_wire c cls cmd data _ (CalcCrc16_in _ Hby) Hlen Hc Hcb) as H. by rewrite Z.eqb_refl in H.
Qed.

(** C32: Round trip.  For any command and at most 256 bytes of data, the bytes
    [BuildFrame] leaves in a large enough buffer, fed to a parser that waits for
    a frame, make it report exactly one frame, with that class, command, data and
    length, and wait for the next; its frame counter goes up by one and no error
    counter moves. *)
Theorem frame_round_trip {M : OspMachine} {HM : OspMachineOk M} (buf : list Z) (c : ParserContext) (cls cmd : Z) (data : list Z) :
  Forall (in_u 8) (cls :: cmd :: data) -> (length data <= 256)%nat -> (length data + 8 <= length buf)%nat ->
  length (payload_buf c) = 258%nat -> callback c = true ->
  exists n out f c',
    BuildFrame (Some buf) cls cmd data = Ret (n, out) /\ n = Z.of_nat (length data) + 8 /\
    PutData (PIdle, c) (take (Z.to_nat n) out) = Ret (PIdle, c') /\
    delivered c' = delivered c ++ [f] /\ f_class f = cls /\ f_cmd f = cmd /\ f_len f = Z.of_nat (length data) /\ frame_data f = data /\
    stats c' = mkStats (u32 (bytes_received (stats c) + n)) (u32 (frames_received (stats c) + 1)) (sync_errors (stats c))
      (crc_errors (stats c)) (tail_errors (stats c)) (length_errors (stats c)).
Proof.
  intros Hby Hlen Hbuf Hc Hcb. rewrite build_frame_spec by lia.
  destruct (parse_frame c cls cmd data Hby Hlen Hc Hcb) as (f & c' & Hr & Hd & Hfc & Hfm & Hfl & Hfd & Hst & _).
  eexists _, _, f, c'. split; [reflexivity|]. split; [done|]. rewrite take_frame. split_and!; try done.
Qed.

Lemma frame_round_trip_witness : exists n out f c',
  BuildFrame (Some (replicate 16 0)) 4 2 [7; 0xAA; 0x55] = Ret (n, out) /\ n = 11 /\
  PutData (PIdle, SetCallback ctx0 true) (take (Z.to_nat n) out) = Ret (PIdle, c') /\ delivered c' = [f] /\
  frame_data f = [7; 0xAA; 0x55].
Proof.
  destruct (frame_round_trip (replicate 16 0) (SetCallback ctx0 true) 4 2 [7; 0xAA; 0x55])
    as (n & out & f & c' & H1 & H2 & H3 & H4 & _ & _ & _ & H5 & _).
  - repeat (apply Forall_cons; split; [done|]). by apply Forall_nil.
  - simpl. lia.
  - simpl. lia.
  - done.
  - done.
  - exists n, out, f, c'. done.
Defined.
