(* ===== verification/OtaDevice.v ===== *)
(** * The device side of the serial update (examples/serial_ota/device.hpp)

    The simulated flash, the update state machine and the command handlers.
    Integers of the wire structures are little-endian, as the packed structs lie
    in memory on the targets; [std::size_t] has 64 bits.  A read or a store
    outside an array is [Fatal]. *)

From S2P Require Import Prelude Mem Crc OtaFrame.

(** ** Protocol constants *)

Definition CLASS_SYS : Z := 1.
Definition CLASS_SPI : Z := 2.
Definition CLASS_OTA : Z := 4.
Definition kGetInfo : Z := 0x81.
Definition kReadId : Z := 0x81.
Definition kRead : Z := 0x82.
Definition kWrite : Z := 0xC1.
Definition kErase : Z := 0x44.
Definition kGetCrc : Z := 0x84.
Definition kStart : Z := 1.
Definition kData : Z := 2.
Definition kEnd : Z := 3.
Definition kVerify : Z := 4.
Definition kAckFlag : Z := 0x80.

Inductive Status := kSuccess | kUnknown | kParamErr | kCrcErr | kHwErr | kBusy | kTimeout.
Definition status_code (s : Status) : Z :=
  match s with
  | kSuccess => 0 | kUnknown => 1 | kParamErr => 2 | kCrcErr => 3 | kHwErr => 4 | kBusy => 5 | kTimeout => 6
  end.

Definition kEvtOtaStart : Z := 10.
Definition kEvtOtaData : Z := 11.
Definition kEvtOtaEnd : Z := 12.
Definition kEvtOtaVerify : Z := 13.
Definition kEvtOtaReset : Z := 20.

(** ** Flash *)

(** The template parameters of [FlashSim]. *)
Class FlashGeometry := { FlashSize : Z; SectorSize : Z }.

Section flash.
Context {G : FlashGeometry}.

Definition flash_init : list Z := replicate (Z.to_nat FlashSize) 0xFF.

(** [None] is [false]. *)
Definition flash_Read (fl : list Z) (addr len : Z) : outcome (option (list Z)) :=
  if FlashSize <? u64 (addr + len) then mret None else s ← span fl addr len; mret (Some s).

(** The source is the span [(&src[i], len)]. *)
Definition flash_Write (fl : list Z) (addr : Z) (src : list Z) (i len : Z) : outcome (option (list Z)) :=
  if FlashSize <? u64 (addr + len) then mret None
  else data ← span src i len; fl' ← copy_to fl addr data; mret (Some fl').

Definition EraseSector (fl : list Z) (addr : Z) : outcome (option (list Z)) :=
  let aligned := Z.land addr (u32 (Z.lnot (SectorSize - 1))) in
  if FlashSize <? u32 (aligned + SectorSize) then mret None
  else fl' ← copy_to fl aligned (replicate (Z.to_nat SectorSize) 0xFF); mret (Some fl').

Definition flash_CalcCrc (fl : list Z) (addr len : Z) : outcome Z :=
  if FlashSize <? u32 (addr + len) then mret 0 else s ← span fl addr len; mret (CalcCrc16 s).

(** ** The device *)

(** [sent]: what the response callback was given; [has_cb]: whether one is set. *)
Record DeviceContext := mkDev {
  flash : list Z; total_size : Z; start_addr : Z; received_size : Z; exp_crc : Z; calc_crc : Z; erase_ok : bool;
  has_cb : bool; sent : list (list Z)
}.

Inductive DState := DIdle | DErasing | DReceiving | DVerifying | DComplete | DError.

#[export] Instance DState_eq_dec : EqDecision DState.
Proof. solve_decision. Defined.

Definition DEvent : Type := Z * option (list Z).
Definition dresult : Type := outcome (TransitionResult DState * DeviceContext).

Definition set_flash (d : DeviceContext) (fl : list Z) : DeviceContext :=
  mkDev fl (total_size d) (start_addr d) (received_size d) (exp_crc d) (calc_crc d) (erase_ok d) (has_cb d) (sent d).
Definition set_received (d : DeviceContext) (n : Z) : DeviceContext :=
  mkDev (flash d) (total_size d) (start_addr d) n (exp_crc d) (calc_crc d) (erase_ok d) (has_cb d) (sent d).

Definition OnIdle (e : DEvent) (d : DeviceContext) : dresult :=
  match e with
  | (id, Some data) =>
    if id =? kEvtOtaStart then
      size ← read_word data 0 4; addr ← read_word data 4 4; crc ← read_word data 8 2;
      mret (kTransition DErasing, mkDev (flash d) size addr 0 crc 0 true (has_cb d) (sent d))
    else mret (kUnhandled, d)
  | _ => mret (kUnhandled, d)
  end.

(** [for (a = start; a < end; a += SectorSize)]: the flash so far and whether
    every sector was erased; [None] is a loop that did not end within [fuel]. *)
Fixpoint erase_loop (fuel : nat) (fl : list Z) (a end_addr : Z) : option (outcome (list Z * bool)) :=
  if negb (a <? end_addr) then Some (Ret (fl, true))
  else match fuel with
  | O => None
  | S fuel =>
    match EraseSector fl a with
    | Fatal => Some Fatal
    | Ret None => Some (Ret (fl, false))
    | Ret (Some fl) => erase_loop fuel fl (u32 (a + SectorSize)) end_addr
    end
  end.

Definition erase_fuel : nat := S (Z.to_nat (FlashSize / SectorSize)).

Definition OnEnterErasing (d : DeviceContext) : outcome DeviceContext :=
  let end_addr := u32 (start_addr d + total_size d) in
  match erase_loop erase_fuel (flash d) (start_addr d) end_addr with
  | None | Some Fatal => Fatal
  | Some (Ret (fl, ok)) =>
    Ret (mkDev fl (total_size d) (start_addr d) (received_size d) (exp_crc d) (calc_crc d)
           (if ok then erase_ok d else false) (has_cb d) (sent d))
  end.

Definition OnErasing (_ : DEvent) (d : DeviceContext) : dresult :=
  mret (kTransition (if negb (erase_ok d) then DError else DReceiving), d).

Definition OnReceiving (e : DEvent) (d : DeviceContext) : dresult :=
  match e with
  | (id, Some data) =>
    if id =? kEvtOtaData then
      off ← read_word data 0 4; len ← read_word data 4 2;
      if negb (off =? received_size d) then mret (kTransition DError, d)
      else
        let wa := u32 (start_addr d + off) in
        w ← flash_Write (flash d) wa data 6 len;
        match w with
        | None => mret (kTransition DError, d)
        | Some fl => mret (kHandled, set_received (set_flash d fl) (u32 (received_size d + len)))
        end
    else if id =? kEvtOtaEnd then
      mret (kTransition (if negb (received_size d =? total_size d) then DError else DVerifying), d)
    else mret (kUnhandled, d)
  | (id, None) =>
    if id =? kEvtOtaEnd then
      mret (kTransition (if negb (received_size d =? total_size d) then DError else DVerifying), d)
    else mret (kUnhandled, d)
  end.

Definition OnEnterVerifying (d : DeviceContext) : outcome DeviceContext :=
  crc ← flash_CalcCrc (flash d) (start_addr d) (total_size d);
  mret (mkDev (flash d) (total_size d) (start_addr d) (received_size d) (exp_crc d) crc (erase_ok d) (has_cb d) (sent d)).

Definition OnVerifying (e : DEvent) (d : DeviceContext) : dresult :=
  if e.1 =? kEvtOtaVerify then
    mret (kTransition (if calc_crc d =? exp_crc d then DComplete else DError), d)
  else mret (kUnhandled, d).

Definition OnComplete (e : DEvent) (d : DeviceContext) : dresult :=
  if e.1 =? kEvtOtaReset then mret (kTransition DIdle, d) else mret (kHandled, d).

Definition OnError (e : DEvent) (d : DeviceContext) : dresult :=
  if e.1 =? kEvtOtaReset then mret (kTransition DIdle, d) else mret (kHandled, d).

(** [BuildStateMachine]. *)
Definition device_handler : Handler DState DEvent DeviceContext := fun s e d =>
  match s with
  | DIdle => OnIdle e d | DErasing => OnErasing e d | DReceiving => OnReceiving e d
  | DVerifying => OnVerifying e d | DComplete => OnComplete e d | DError => OnError e d
  end.

Definition device_enter : OnEnter DState DeviceContext := fun s d =>
  match s with DErasing => OnEnterErasing d | DVerifying => OnEnterVerifying d | _ => mret d end.

(** ** Responses *)

Definition SendResp (d : DeviceContext) (cls cmd : Z) (data : list Z) : outcome DeviceContext :=
  if negb (has_cb d) then mret d
  else
    '(n, buf) ← BuildFrame (Some (replicate 512 0)) cls cmd data;
    if 0 <? n then
      s ← span buf 0 n;
      mret (mkDev (flash d) (total_size d) (start_addr d) (received_size d) (exp_crc d) (calc_crc d) (erase_ok d) (has_cb d)
              (sent d ++ [s]))
    else mret d.

Definition SendStatus (d : DeviceContext) (cls cmd : Z) (s : Status) : outcome DeviceContext :=
  SendResp d cls cmd [status_code s].

Definition ack_bytes (cmd : Z) (s : Status) (received : Z) : list Z :=
  [CLASS_OTA; Z.lor cmd kAckFlag; status_code s] ++ le_bytes 4 received.

Definition SendOtaAck (d : DeviceContext) (cmd : Z) (s : Status) : outcome DeviceContext :=
  SendResp d CLASS_OTA (Z.lor cmd kAckFlag) (ack_bytes cmd s (received_size d)).

(** ** Commands *)

(** [put_str]: a length byte and the characters, into [buf] at [off]. *)
Definition put_str (b : list Z * Z) (s : list Z) : outcome (list Z * Z) :=
  let len := u8 (Z.of_nat (length s)) in
  buf ← store b.1 b.2 len;
  buf ← copy_to buf (b.2 + 1) (take (Z.to_nat len) s);
  mret (buf, b.2 + 1 + len).

Definition put_word (b : list Z * Z) (x : Z) : outcome (list Z * Z) :=
  buf ← copy_to b.1 b.2 (le_bytes 2 x); mret (buf, b.2 + 2).

(** "OTA-Device-V1", "1.0.0", "0.9.5", "SN20250214001". *)
Definition info_name : list Z := [79; 84; 65; 45; 68; 101; 118; 105; 99; 101; 45; 86; 49].
Definition info_fw_version : list Z := [49; 46; 48; 46; 48].
Definition info_boot_version : list Z := [48; 46; 57; 46; 53].
Definition info_serial : list Z := [83; 78; 50; 48; 50; 53; 48; 50; 49; 52; 48; 48; 49].
Definition info_vendor : Z := 0x1234.
Definition info_product : Z := 0x5678.

Definition HandleSys (d : DeviceContext) (f : Frame) : outcome DeviceContext :=
  if f_cmd f =? kGetInfo then
    b ← put_str (replicate 128 0, 0) info_name;
    b ← put_str b info_fw_version;
    b ← put_str b info_boot_version;
    b ← put_word b info_vendor;
    b ← put_word b info_product;
    b ← put_str b info_serial;
    s ← span b.1 0 b.2;
    SendResp d (f_class f) (f_cmd f) s
  else SendStatus d (f_class f) (f_cmd f) kUnknown.

Definition HandleSpi (d : DeviceContext) (f : Frame) : outcome DeviceContext :=
  let reply := SendStatus d (f_class f) (f_cmd f) in
  if f_cmd f =? kReadId then SendResp d (f_class f) (f_cmd f) [0xEF; 0x40; 0x18]
  else if f_cmd f =? kRead then
    if f_len f <? 6 then reply kParamErr
    else
      addr ← read_word (f_data f) 0 4; len ← read_word (f_data f) 4 2;
      if 256 <? len then reply kParamErr
      else
        r ← flash_Read (flash d) addr len;
        match r with
        | None => reply kParamErr
        | Some rb => SendResp d (f_class f) (f_cmd f) rb
        end
  else if f_cmd f =? kWrite then
    if f_len f <? 7 then reply kParamErr
    else
      addr ← read_word (f_data f) 0 4; len ← read_word (f_data f) 4 2;
      w ← flash_Write (flash d) addr (f_data f) 6 len;
      match w with
      | None => reply kHwErr
      | Some fl => SendStatus (set_flash d fl) (f_class f) (f_cmd f) kSuccess
      end
  else if f_cmd f =? kErase then
    if f_len f <? 4 then reply kParamErr
    else
      addr ← read_word (f_data f) 0 4;
      w ← EraseSector (flash d) addr;
      match w with
      | None => reply kHwErr
      | Some fl => SendStatus (set_flash d fl) (f_class f) (f_cmd f) kSuccess
      end
  else if f_cmd f =? kGetCrc then
    if f_len f <? 8 then reply kParamErr
    else
      addr ← read_word (f_data f) 0 4; len ← read_word (f_data f) 4 4;
      crc ← flash_CalcCrc (flash d) addr len;
      SendResp d (f_class f) (f_cmd f) (le_bytes 2 crc)
  else reply kUnknown.

Section handler.
Context {M : OspMachine}.

Definition device_dispatch (p : DState * DeviceContext) (e : DEvent) : outcome (DState * DeviceContext) :=
  Dispatch device_handler device_enter p.1 e p.2.

(** Answer from the device's context. *)
Definition answering (p : DState * DeviceContext) (send : DeviceContext -> outcome DeviceContext) : outcome (DState * DeviceContext) :=
  d ← send p.2; mret (p.1, d).

Definition verify_bytes (d : DeviceContext) (cmd : Z) : list Z :=
  [CLASS_OTA; Z.lor cmd kAckFlag; status_code (if calc_crc d =? exp_crc d then kSuccess else kCrcErr)] ++ le_bytes 2 (calc_crc d).

Definition HandleOta (p : DState * DeviceContext) (f : Frame) : outcome (DState * DeviceContext) :=
  let ack p s := answering p (fun d => SendOtaAck d (f_cmd f) s) in
  if f_cmd f =? kStart then
    if f_len f <? 10 then ack p kParamErr
    else
      p ← device_dispatch p (kEvtOtaStart, Some (f_data f));
      p ← device_dispatch p (0, None);
      ack p kSuccess
  else if f_cmd f =? kData then
    if f_len f <? 6 then ack p kParamErr
    else
      off ← read_word (f_data f) 0 4;
      if negb (off =? received_size p.2) then ack p kParamErr
      else
        p ← device_dispatch p (kEvtOtaData, Some (f_data f));
        ack p kSuccess
  else if f_cmd f =? kEnd then
    if negb (received_size p.2 =? total_size p.2) then ack p kParamErr
    else
      p ← device_dispatch p (kEvtOtaEnd, None);
      ack p kSuccess
  else if f_cmd f =? kVerify then
    p ← device_dispatch p (kEvtOtaVerify, None);
    answering p (fun d => SendResp d CLASS_OTA (Z.lor (f_cmd f) kAckFlag) (verify_bytes d (f_cmd f)))
  else answering p (fun d => SendStatus d (f_class f) (f_cmd f) kUnknown).

Definition ProcessFrame (p : DState * DeviceContext) (f : Frame) : outcome (DState * DeviceContext) :=
  if f_class f =? CLASS_SYS then answering p (fun d => HandleSys d f)
  else if f_class f =? CLASS_SPI then answering p (fun d => HandleSpi d f)
  else if f_class f =? CLASS_OTA then HandleOta p f
  else answering p (fun d => SendStatus d (f_class f) (f_cmd f) kUnknown).

Fixpoint ProcessFrames (p : DState * DeviceContext) (fs : list Frame) : outcome (DState * DeviceContext) :=
  match fs with
  | [] => mret p
  | f :: fs => p ← ProcessFrame p f; ProcessFrames p fs
  end.
End handler.

Definition device0 : DState * DeviceContext := (DIdle, mkDev flash_init 0 0 0 0 0 true true []).
End flash.
