(* ===== verification/OtaDeviceSpec.v ===== *)
(** * Correctness of the update device (examples/serial_ota/device.hpp)

    An update session seen from the device: whatever genuine frames arrive, in
    whatever order, with losses and repetitions, the flash holds a prefix of the
    firmware, and all of it once the device says it is complete. *)

From S2P Require Import Prelude Mem Crc OtaFrame OtaFrameSpec OtaDevice.

(** ** The geometry of a flash part *)

Class GeometryOk (G : FlashGeometry) : Prop := {
  sector_pow2 : exists k, 0 <= k < 31 /\ SectorSize = 2 ^ k;
  sector_divides : (SectorSize | FlashSize);
  flash_size_range : 0 < FlashSize < 2 ^ 31
}.

Section device.
Context {M : OspMachine} {HM : OspMachineOk M} {G : FlashGeometry} {HG : GeometryOk G}.

Lemma sector_range : 0 < SectorSize < 2 ^ 31.
Proof.
  destruct sector_pow2 as (k & Hk & ->). split; [apply Z.pow_pos_nonneg; lia|]. apply Z.pow_lt_mono_r; lia.
Qed.

(** The sector of an address. *)
Lemma sector_mask a : in_u 32 a -> Z.land a (u32 (Z.lnot (SectorSize - 1))) = a - a mod SectorSize.
Proof.
  intros Ha. destruct sector_pow2 as (k & Hk & ->).
  assert (Hm : a - a mod 2 ^ k = Z.land a (Z.lnot (Z.ones k))).
  { rewrite <- Z.land_ones by lia. rewrite <- Z.ldiff_land. rewrite Z.sub_nocarry_ldiff.
    - apply Z.bits_inj'. intros i Hi. rewrite !Z.ldiff_spec, Z.land_spec. by destruct (Z.testbit a i), (Z.testbit (Z.ones k) i).
    - apply Z.bits_inj'. intros i Hi. rewrite Z.ldiff_spec, Z.land_spec, Z.bits_0. by destruct (Z.testbit a i), (Z.testbit (Z.ones k) i). }
  rewrite Hm. replace (2 ^ k - 1) with (Z.ones k) by (rewrite Z.ones_equiv; lia).
  apply Z.bits_inj'. intros i Hi. rewrite !Z.land_spec, wrap_testbit by lia. destruct (Z.ltb_spec i 32); [done|].
  by rewrite (testbit_above 32 a i Ha) by lia.
Qed.

Definition sector_of (a : Z) : Z := a - a mod SectorSize.

Lemma sector_of_range a : 0 <= a -> 0 <= sector_of a <= a /\ a < sector_of a + SectorSize.
Proof. intros. unfold sector_of. pose proof sector_range. pose proof (Z.mod_pos_bound a SectorSize). pose proof (Z.mod_le a SectorSize). lia. Qed.

(** A sector that starts inside the flash ends inside it. *)
Lemma sector_fits a : 0 <= a < FlashSize -> sector_of a + SectorSize <= FlashSize.
Proof.
  intros Ha. pose proof sector_range. destruct sector_divides as [q Hq]. unfold sector_of.
  assert (Hnz : SectorSize <> 0) by lia. pose proof (Z.div_mod a SectorSize Hnz). assert (a / SectorSize < q) by (apply Z.div_lt_upper_bound; lia). nia.
Qed.

Lemma erase_in fl a :
  Z.of_nat (length fl) = FlashSize -> 0 <= a < FlashSize ->
  exists fl', EraseSector fl a = Ret (Some fl') /\ length fl' = length fl /\
    forall j : nat, Z.of_nat j < sector_of a \/ sector_of a + SectorSize <= Z.of_nat j -> fl' !! j = fl !! j.
Proof.
  intros Hl Ha. pose proof sector_range. pose proof flash_size_range. pose proof (sector_fits a Ha). pose proof (sector_of_range a ltac:(lia)).
  unfold EraseSector. rewrite sector_mask by (unfold in_u; lia). fold (sector_of a).
  rewrite wrap_small by (unfold in_u; lia). rewrite (proj2 (Z.ltb_ge _ _)) by lia.
  destruct (copy_to fl (sector_of a) (replicate (Z.to_nat SectorSize) 255)) as [fl'|] eqn:Hc.
  - exists fl'. cbn [mbind outcome_bind]. split_and!; [done|by eapply copy_to_length|].
    intros j Hj. eapply copy_to_outside; [done|]. rewrite length_replicate. lia.
  - rewrite copy_to_ret in Hc by (rewrite ?length_replicate; lia). done.
Qed.

Lemma erase_out fl a fl' : Z.of_nat (length fl) = FlashSize -> in_u 32 a -> EraseSector fl a = Ret (Some fl') -> a < FlashSize.
Proof.
  intros Hl Ha. destruct (Z.lt_ge_cases a FlashSize) as [|Hge]; [done|]. pose proof sector_range. pose proof flash_size_range.
  unfold EraseSector. rewrite sector_mask by done. fold (sector_of a). pose proof (sector_of_range a ltac:(lia)).
  case_match eqn:Hw; [done|]. split_bools. unfold copy_to. rewrite (proj2 (Z.leb_gt (_ + _) _)), andb_false_r; [done|].
  rewrite length_replicate. lia.
Qed.

Lemma erase_keeps_length fl a fl' : EraseSector fl a = Ret (Some fl') -> length fl' = length fl.
Proof.
  unfold EraseSector. case_match; [done|]. intros (f & Hc & [= <-])%bind_ret_inv. by eapply copy_to_length.
Qed.

(** The sweep ends. *)
Lemma erase_loop_ends fuel fl a e :
  Z.of_nat (length fl) = FlashSize -> in_u 32 a ->
  Z.of_nat fuel >= 1 + (FlashSize - a + SectorSize - 1) / SectorSize -> (0 < fuel)%nat -> erase_loop fuel fl a e <> None.
Proof.
  pose proof sector_range as Hs. pose proof flash_size_range as Hf.
  revert fl a. induction fuel as [|fuel IH]; intros fl a Hl Ha Hfuel Hpos; [lia|]. cbn [erase_loop].
  destruct (negb _); [done|]. destruct (EraseSector fl a) as [[fl'|]|] eqn:He; try done.
  pose proof (erase_out _ _ _ Hl Ha He) as Hlt. pose proof (erase_keeps_length _ _ _ He) as Hl'.
  destruct Ha as [Ha _]. rewrite wrap_small by (unfold in_u; lia).
  replace (FlashSize - a + SectorSize - 1) with (FlashSize - (a + SectorSize) + SectorSize - 1 + 1 * SectorSize) in Hfuel by lia.
  rewrite Z.div_add in Hfuel by lia.
  assert (0 <= (FlashSize - (a + SectorSize) + SectorSize - 1) / SectorSize) by (apply Z.div_pos; lia).
  apply IH; [lia|unfold in_u; lia|lia|lia].
Qed.

Lemma erase_fuel_enough a : 0 <= a -> Z.of_nat erase_fuel >= 1 + (FlashSize - a + SectorSize - 1) / SectorSize.
Proof.
  intros Ha. pose proof sector_range as Hs.
  unfold erase_fuel. rewrite Nat2Z.inj_succ, Z2Nat.id by (apply Z.div_pos; pose proof flash_size_range; lia).
  assert ((FlashSize - a + SectorSize - 1) / SectorSize <= FlashSize / SectorSize); [|lia].
  destruct sector_divides as [q Hq]. rewrite Hq, Z.div_mul by lia. apply Z.lt_succ_r, Z.div_lt_upper_bound; nia.
Qed.

Lemma erase_terminates fl a e :
  Z.of_nat (length fl) = FlashSize -> in_u 32 a -> erase_loop erase_fuel fl a e <> None.
Proof.
  intros Hl Ha. apply erase_loop_ends; [done|done|apply erase_fuel_enough, Ha|unfold erase_fuel; lia].
Qed.

(** Inside the flash it erases the sectors it visits and nothing else. *)
Lemma erase_loop_in fuel fl a e :
  Z.of_nat (length fl) = FlashSize -> 0 <= a -> e <= FlashSize ->
  Z.of_nat fuel >= 1 + (FlashSize - a + SectorSize - 1) / SectorSize -> (0 < fuel)%nat ->
  exists fl', erase_loop fuel fl a e = Some (Ret (fl', true)) /\ length fl' = length fl /\
    forall j : nat, Z.of_nat j < sector_of a \/ e + SectorSize <= Z.of_nat j -> fl' !! j = fl !! j.
Proof.
  pose proof sector_range as Hs. pose proof flash_size_range as Hf.
  revert fl a. induction fuel as [|fuel IH]; intros fl a Hl Ha He Hfuel Hpos; [lia|]. cbn [erase_loop].
  destruct (Z.ltb_spec a e) as [Hlt|]; cbn [negb]; [|by exists fl].
  destruct (erase_in fl a Hl ltac:(lia)) as (fl1 & -> & Hl1 & Hout). rewrite wrap_small by (unfold in_u; lia).
  replace (FlashSize - a + SectorSize - 1) with (FlashSize - (a + SectorSize) + SectorSize - 1 + 1 * SectorSize) in Hfuel by lia.
  rewrite Z.div_add in Hfuel by lia.
  assert (0 <= (FlashSize - (a + SectorSize) + SectorSize - 1) / SectorSize) by (apply Z.div_pos; lia).
  destruct (IH fl1 (a + SectorSize)) as (fl2 & Hr & Hl2 & Hout2); [lia..|].
  exists fl2. split_and!; [done|lia|]. intros j Hj. pose proof (sector_of_range a Ha) as Hsa.
  assert (Hnext : sector_of (a + SectorSize) = sector_of a + SectorSize).
  { unfold sector_of. replace (a + SectorSize) with (a + 1 * SectorSize) by lia. rewrite Z.mod_add by lia. lia. }
  rewrite Hout2 by lia. apply Hout. lia.
Qed.

(** ** Dispatch *)

Definition device_step (s : DState) (e : DEvent) (d : DeviceContext) : outcome (DState * DeviceContext) :=
  r ← device_handler s e d;
  match r.1 with kTransition s' => d' ← device_enter s' r.2; mret (s', d') | _ => mret (s, r.2) end.

(** No handler asks for the state it is in. *)
Lemma handler_moves s e d s' d' : device_handler s e d = Ret (kTransition s', d') -> s' <> s.
Proof.
  intros H ->. destruct e as [id data]. destruct s; simpl in H; unfold OnIdle, OnErasing, OnReceiving, OnVerifying, OnComplete, OnError in H;
    repeat case_match; try done; repeat (apply bind_ret_inv in H as (? & ? & H)); repeat case_match; try done;
    repeat (apply bind_ret_inv in H as (? & ? & H)); repeat case_match; done.
Qed.

Lemma dispatch_step s e d : device_dispatch (s, d) e = device_step s e d.
Proof.
  unfold device_dispatch, device_step. cbn [fst snd]. destruct (device_handler s e d) as [[r d']|] eqn:Hh.
  - destruct r as [| |s']; cbn [mbind outcome_bind fst snd].
    + apply dispatch_stays. by left.
    + apply dispatch_stays. by right.
    + apply dispatch_moves; [done|]. by eapply handler_moves.
  - by apply dispatch_fatal.
Qed.

(** ** Responses *)

Definition responded (d : DeviceContext) (r : list Z) : DeviceContext :=
  mkDev (flash d) (total_size d) (start_addr d) (received_size d) (exp_crc d) (calc_crc d) (erase_ok d) (has_cb d)
    (if has_cb d then sent d ++ [r] else sent d).

Lemma send_resp_ret d cls cmd data :
  (length data <= 504)%nat -> SendResp d cls cmd data = Ret (responded d (frame_bytes cls cmd data)).
Proof.
  intros Hl. unfold SendResp, responded. destruct (has_cb d) eqn:Hcb; cbn [negb]; [|by destruct d; simpl in *; subst].
  rewrite build_frame_spec by (rewrite ?length_replicate; lia). cbn [mbind outcome_bind].
  rewrite (proj2 (Z.ltb_lt _ _)) by lia.
  pose proof (span_at [] (frame_bytes cls cmd data) (drop (length data + 8) (replicate 512 0)) (Z.of_nat (length data) + 8)) as Hsp.
  cbn [app length] in Hsp. change (Z.of_nat 0) with 0 in Hsp. rewrite Hsp by (rewrite frame_bytes_length; lia). done.
Qed.

Definition ack_frame (cmd : Z) (s : Status) (received : Z) : list Z :=
  frame_bytes CLASS_OTA (Z.lor cmd kAckFlag) (ack_bytes cmd s received).

Lemma send_ack_ret d cmd s : SendOtaAck d cmd s = Ret (responded d (ack_frame cmd s (received_size d))).
Proof. apply send_resp_ret. simpl. lia. Qed.

(** ** The frames of a session *)

Definition start_payload (fw : list Z) (addr : Z) : list Z :=
  le_bytes 4 (Z.of_nat (length fw)) ++ le_bytes 4 addr ++ le_bytes 2 (CalcCrc16 fw).
Definition data_payload (off : Z) (chunk : list Z) : list Z :=
  le_bytes 4 off ++ le_bytes 2 (Z.of_nat (length chunk)) ++ chunk.

(** A parsed frame of the update class. *)
Record carries (f : Frame) (cmd : Z) (payload : list Z) : Prop := {
  ca_class : f_class f = CLASS_OTA;
  ca_cmd : f_cmd f = cmd;
  ca_len : f_len f = Z.of_nat (length payload);
  ca_data : exists rest, f_data f = payload ++ rest
}.

(** The frames the host sends for [fw] at [addr]; a data frame carries any piece
    of the firmware, at its offset. *)
Inductive genuine (fw : list Z) (addr : Z) (f : Frame) : Prop :=
| g_start : carries f kStart (start_payload fw addr) -> genuine fw addr f
| g_data pre chunk post :
    fw = pre ++ chunk ++ post -> Z.of_nat (length chunk) < 2 ^ 16 ->
    carries f kData (data_payload (Z.of_nat (length pre)) chunk) -> genuine fw addr f
| g_end : carries f kEnd [] -> genuine fw addr f
| g_verify : carries f kVerify [] -> genuine fw addr f.

(** The region of the flash that is being written. *)
Definition holds (fl : list Z) (addr : Z) (data : list Z) : Prop :=
  take (length data) (drop (Z.to_nat addr) fl) = data.

Record session_parameters (fw : list Z) (addr : Z) (d : DeviceContext) : Prop := {
  sp_total : total_size d = Z.of_nat (length fw);
  sp_start : start_addr d = addr;
  sp_crc : exp_crc d = CalcCrc16 fw
}.

(** The invariant of a session: no state but these is ever reached. *)
Definition session_inv (fw : list Z) (addr : Z) (p : DState * DeviceContext) : Prop :=
  let d := p.2 in
  Z.of_nat (length (flash d)) = FlashSize /\
  match p.1 with
  | DIdle => received_size d = 0 /\ total_size d = 0
  | DReceiving =>
    session_parameters fw addr d /\ 0 <= received_size d <= Z.of_nat (length fw) /\
    holds (flash d) addr (take (Z.to_nat (received_size d)) fw)
  | DVerifying | DComplete =>
    session_parameters fw addr d /\ received_size d = Z.of_nat (length fw) /\ calc_crc d = CalcCrc16 fw /\ holds (flash d) addr fw
  | DErasing | DError => False
  end.

Lemma holds_extend fl addr pre chunk fl' :
  holds fl addr pre -> 0 <= addr -> copy_to fl (addr + Z.of_nat (length pre)) chunk = Ret fl' -> holds fl' addr (pre ++ chunk).
Proof.
  unfold holds, copy_to. intros Hp Ha. case_match eqn:Hg; [|done]. intros [= <-]. split_bools.
  replace (Z.to_nat (addr + Z.of_nat (length pre))) with (Z.to_nat addr + length pre)%nat by lia.
  assert (Ht : drop (Z.to_nat addr) (take (Z.to_nat addr + length pre) fl) = pre) by (by rewrite <- take_drop_commute).
  rewrite drop_app_le by (rewrite length_take; lia). rewrite Ht, app_assoc.
  rewrite take_app_le by (rewrite !length_app; lia). by rewrite firstn_all2 by (rewrite !length_app; lia).
Qed.

Section session.
Context (fw : list Z) (addr : Z).
Hypothesis fw_bytes : Forall (in_u 8) fw.
Hypothesis fw_fits : 0 <= addr /\ addr + Z.of_nat (length fw) <= FlashSize.

Lemma start_words f :
  carries f kStart (start_payload fw addr) ->
  read_word (f_data f) 0 4 = Ret (Z.of_nat (length fw)) /\ read_word (f_data f) 4 4 = Ret addr /\
  read_word (f_data f) 8 2 = Ret (CalcCrc16 fw).
Proof.
  intros [_ _ _ [rest Hd]]. unfold start_payload in Hd. rewrite <- !app_assoc in Hd. pose proof flash_size_range.
  pose proof (CalcCrc16_in _ fw_bytes) as Hcrc. split_and!.
  - apply (read_word_at _ [] 4) with (post := le_bytes 4 addr ++ le_bytes 2 (CalcCrc16 fw) ++ rest); [done|lia].
  - apply (read_word_at _ (le_bytes 4 (Z.of_nat (length fw))) 4) with (post := le_bytes 2 (CalcCrc16 fw) ++ rest); [done|lia].
  - apply (read_word_at _ (le_bytes 4 (Z.of_nat (length fw)) ++ le_bytes 4 addr) 2) with (post := rest); [by rewrite <- app_assoc|].
    unfold in_u in Hcrc. change (256 ^ Z.of_nat 2) with (2 ^ 16). lia.
Qed.

Lemma class_ota p f cmd payload : carries f cmd payload -> ProcessFrame p f = HandleOta p f.
Proof. intros [Hc _ _ _]. unfold ProcessFrame. by rewrite Hc. Qed.

(** START in Idle: the region is erased, the session is open. *)
Lemma start_step d f :
  carries f kStart (start_payload fw addr) -> Z.of_nat (length (flash d)) = FlashSize ->
  exists d', ProcessFrame (DIdle, d) f = Ret (DReceiving, d') /\ Z.of_nat (length (flash d')) = FlashSize /\
    session_parameters fw addr d' /\ received_size d' = 0 /\
    (forall j : nat, Z.of_nat j < sector_of addr \/ addr + Z.of_nat (length fw) + SectorSize <= Z.of_nat j ->
      flash d' !! j = flash d !! j) /\
    has_cb d' = has_cb d /\ sent d' = if has_cb d then sent d ++ [ack_frame kStart kSuccess 0] else sent d.
Proof.
  intros Hf Hl. rewrite (class_ota _ _ _ _ Hf). pose proof (start_words f Hf) as (H0 & H4 & H8).
  unfold HandleOta. rewrite (ca_cmd _ _ _ Hf), (ca_len _ _ _ Hf). change (Z.of_nat (length (start_payload fw addr)) <? 10) with false.
  cbn -[read_word device_dispatch]. rewrite dispatch_step. unfold device_step. cbn -[read_word device_dispatch OnEnterErasing].
  rewrite H0, H4, H8. cbn -[device_dispatch OnEnterErasing]. unfold OnEnterErasing.
  cbn [flash start_addr total_size received_size exp_crc calc_crc erase_ok has_cb sent].
  pose proof flash_size_range as Hfs. rewrite wrap_small by (unfold in_u; lia).
  destruct (erase_loop_in erase_fuel (flash d) addr (addr + Z.of_nat (length fw))) as (fl' & -> & Hl' & Hout); try lia.
  { apply erase_fuel_enough. lia. }
  { unfold erase_fuel. lia. }
  cbn -[device_dispatch]. rewrite dispatch_step. cbn. unfold answering. rewrite send_ack_ret. cbn -[ack_frame].
  eexists. split; [reflexivity|]. cbn -[ack_frame]. split_and!; try done; lia.
Qed.

Lemma data_words f off chunk :
  carries f kData (data_payload off chunk) -> in_u 32 off -> Z.of_nat (length chunk) < 2 ^ 16 ->
  read_word (f_data f) 0 4 = Ret off /\ read_word (f_data f) 4 2 = Ret (Z.of_nat (length chunk)) /\
  span (f_data f) 6 (Z.of_nat (length chunk)) = Ret chunk.
Proof.
  intros [_ _ _ [rest Hd]] Hoff Hc. unfold data_payload in Hd. rewrite <- !app_assoc in Hd. unfold in_u in Hoff. split_and!.
  - eapply (read_word_at _ [] 4); [exact Hd|]. change (256 ^ Z.of_nat 4) with (2 ^ 32). lia.
  - eapply (read_word_at _ (le_bytes 4 off) 2); [exact Hd|]. change (256 ^ Z.of_nat 2) with (2 ^ 16). lia.
  - rewrite app_assoc in Hd. rewrite Hd. by apply (span_at (le_bytes 4 off ++ le_bytes 2 (Z.of_nat (length chunk)))).
Qed.

(** DATA at the expected offset: one more piece of the firmware is in place. *)
Lemma data_step d f pre chunk post :
  fw = pre ++ chunk ++ post -> Z.of_nat (length chunk) < 2 ^ 16 ->
  carries f kData (data_payload (Z.of_nat (length pre)) chunk) ->
  Z.of_nat (length (flash d)) = FlashSize -> session_parameters fw addr d -> received_size d = Z.of_nat (length pre) ->
  holds (flash d) addr pre ->
  exists d', ProcessFrame (DReceiving, d) f = Ret (DReceiving, d') /\ Z.of_nat (length (flash d')) = FlashSize /\
    session_parameters fw addr d' /\ received_size d' = Z.of_nat (length (pre ++ chunk)) /\ holds (flash d') addr (pre ++ chunk) /\
    (forall j : nat, Z.of_nat j < addr \/ addr + Z.of_nat (length fw) <= Z.of_nat j -> flash d' !! j = flash d !! j) /\
    has_cb d' = has_cb d /\
    sent d' = if has_cb d then sent d ++ [ack_frame kData kSuccess (Z.of_nat (length (pre ++ chunk)))] else sent d.
Proof.
  intros Hfw Hc Hf Hl Hp Hr Hh. pose proof flash_size_range as Hfs. destruct fw_fits as [Ha Hle].
  assert (Hlen : (length fw = length pre + length chunk + length post)%nat) by (rewrite Hfw, !length_app; lia).
  rewrite (class_ota _ _ _ _ Hf). destruct (data_words _ _ _ Hf ltac:(unfold in_u; lia) Hc) as (H0 & H4 & Hs).
  unfold HandleOta. rewrite (ca_cmd _ _ _ Hf), (ca_len _ _ _ Hf).
  rewrite (proj2 (Z.ltb_ge _ 6)) by (unfold data_payload; rewrite !length_app, !le_bytes_length; lia).
  cbn -[read_word device_dispatch]. rewrite H0. cbn [mbind outcome_bind]. rewrite Hr, Z.eqb_refl. cbn [negb].
  rewrite dispatch_step. unfold device_step. cbn -[read_word flash_Write]. rewrite H0, H4. cbn -[flash_Write]. rewrite Hr, Z.eqb_refl.
  cbn [negb]. rewrite (sp_start _ _ _ Hp), (wrap_small 32 (addr + _)) by (unfold in_u; lia). unfold flash_Write.
  rewrite (wrap_small 64) by (unfold in_u; lia). rewrite (proj2 (Z.ltb_ge _ _)) by lia. rewrite Hs. cbn [mbind outcome_bind].
  destruct (copy_to (flash d) (addr + Z.of_nat (length pre)) chunk) as [fl'|] eqn:Hcp; [|rewrite copy_to_ret in Hcp by lia; done].
  cbn -[answering u32]. unfold answering. rewrite send_ack_ret. cbn -[ack_frame u32].
  rewrite ?Hr, ?wrap_small by (unfold in_u; lia). eexists. split; [reflexivity|]. cbn -[ack_frame]. destruct Hp as [Hp1 Hp2 Hp3].
  rewrite length_app, Nat2Z.inj_add. split_and!; try done.
  - apply copy_to_length in Hcp. lia.
  - by eapply holds_extend.
  - intros j Hj. eapply copy_to_outside; [exact Hcp|]. lia.
Qed.

Lemma end_step d f :
  carries f kEnd [] -> Z.of_nat (length (flash d)) = FlashSize -> session_parameters fw addr d ->
  received_size d = Z.of_nat (length fw) -> holds (flash d) addr fw ->
  exists d', ProcessFrame (DReceiving, d) f = Ret (DVerifying, d') /\ flash d' = flash d /\ session_parameters fw addr d' /\
    received_size d' = received_size d /\ calc_crc d' = CalcCrc16 fw /\ has_cb d' = has_cb d /\
    sent d' = if has_cb d then sent d ++ [ack_frame kEnd kSuccess (Z.of_nat (length fw))] else sent d.
Proof.
  intros Hf Hl Hp Hr Hh. pose proof flash_size_range as Hfs. destruct fw_fits as [Ha Hle]. destruct Hp as [Hp1 Hp2 Hp3].
  rewrite (class_ota _ _ _ _ Hf). unfold HandleOta. rewrite (ca_cmd _ _ _ Hf). cbn -[device_dispatch]. rewrite Hp1, Hr, Z.eqb_refl.
  cbn -[device_dispatch]. rewrite dispatch_step. unfold device_step. cbn -[OnEnterVerifying]. rewrite Hp1, Hr, Z.eqb_refl.
  cbn -[OnEnterVerifying]. unfold OnEnterVerifying, flash_CalcCrc. rewrite Hp1, Hp2, wrap_small by (unfold in_u; lia).
  rewrite (proj2 (Z.ltb_ge _ _)) by lia. rewrite span_ret, Nat2Z.id by lia. unfold holds in Hh. rewrite Hh.
  cbn -[answering]. unfold answering. rewrite send_ack_ret. cbn -[ack_frame]. eexists. split; [reflexivity|]. cbn -[ack_frame].
  rewrite Hr. split_and!; done.
Qed.

Definition verify_frame (s : Status) (crc : Z) : list Z :=
  frame_bytes CLASS_OTA (Z.lor kVerify kAckFlag) ([CLASS_OTA; Z.lor kVerify kAckFlag; status_code s] ++ le_bytes 2 crc).

Lemma verify_step d f :
  carries f kVerify [] -> calc_crc d = exp_crc d ->
  ProcessFrame (DVerifying, d) f = Ret (DComplete, responded d (verify_frame kSuccess (calc_crc d))).
Proof.
  intros Hf Hc. rewrite (class_ota _ _ _ _ Hf). unfold HandleOta. rewrite (ca_cmd _ _ _ Hf). cbn -[device_dispatch].
  rewrite dispatch_step. unfold device_step. cbn. rewrite Hc, Z.eqb_refl. cbn -[answering verify_bytes]. unfold answering. cbn [fst snd].
  rewrite send_resp_ret by (simpl; lia). cbn -[frame_bytes verify_bytes]. unfold verify_frame, verify_bytes. rewrite Hc, Z.eqb_refl. done.
Qed.

Lemma inv_responded s d r : session_inv fw addr (s, d) -> session_inv fw addr (s, responded d r).
Proof. intros [Hl Hs]. split; [done|]. destruct s; simpl in *; try done; destruct Hs as ([? ? ?] & Hs); done. Qed.

Lemma answer_inv s d cmd st :
  session_inv fw addr (s, d) ->
  exists p', answering (s, d) (fun d => SendOtaAck d cmd st) = Ret p' /\ session_inv fw addr p'.
Proof. intros Hi. unfold answering. cbn [fst snd]. rewrite send_ack_ret. eexists. split; [reflexivity|]. by apply inv_responded. Qed.

(** A frame the state machine does not react to. *)
Lemma start_ignored p f :
  session_inv fw addr p -> p.1 <> DIdle -> carries f kStart (start_payload fw addr) ->
  exists p', ProcessFrame p f = Ret p' /\ session_inv fw addr p'.
Proof.
  intros Hi Hne Hf. destruct p as [s d]. rewrite (class_ota _ _ _ _ Hf). unfold HandleOta. rewrite (ca_cmd _ _ _ Hf), (ca_len _ _ _ Hf).
  change (Z.of_nat (length (start_payload fw addr)) <? 10) with false. cbn -[device_dispatch answering].
  assert (Hd : forall e, e.1 = kEvtOtaStart \/ e.1 = 0 -> device_dispatch (s, d) e = Ret (s, d)).
  { intros [id data] He. rewrite dispatch_step. destruct Hi as [_ Hs]. simpl in Hs, He, Hne.
    destruct s, data; try done; destruct He as [-> | ->]; done. }
  rewrite Hd by auto. cbn [mbind outcome_bind]. rewrite Hd by auto. cbn [mbind outcome_bind]. by apply answer_inv.
Qed.

Lemma data_inv p f pre chunk post :
  session_inv fw addr p -> fw = pre ++ chunk ++ post -> Z.of_nat (length chunk) < 2 ^ 16 ->
  carries f kData (data_payload (Z.of_nat (length pre)) chunk) ->
  exists p', ProcessFrame p f = Ret p' /\ session_inv fw addr p'.
Proof.
  intros Hi Hfw Hc Hf. destruct p as [s d]. pose proof flash_size_range as Hfs.
  assert (Hlen : (length fw = length pre + length chunk + length post)%nat) by (rewrite Hfw, !length_app; lia).
  destruct (data_words _ _ _ Hf ltac:(unfold in_u; lia) Hc) as (H0 & H4 & Hs).
  destruct (decide (s = DReceiving /\ received_size d = Z.of_nat (length pre))) as [[-> Hr]|Hno].
  { destruct Hi as (Hl & Hp & Hrange & Hh). cbn [fst snd] in *. rewrite Hr, Nat2Z.id, Hfw, take_app_length in Hh.
    destruct (data_step d f pre chunk post) as (d' & Hd & Hl' & Hp' & Hr' & Hh' & _); try done.
    exists (DReceiving, d'). split; [done|]. split; [done|]. cbn [fst snd]. rewrite Hr'. split_and!; [done|lia|rewrite length_app; lia|].
    rewrite Nat2Z.id. rewrite Hfw at 1. rewrite app_assoc, take_app_length. done. }
  rewrite (class_ota _ _ _ _ Hf). unfold HandleOta. rewrite (ca_cmd _ _ _ Hf), (ca_len _ _ _ Hf).
  rewrite (proj2 (Z.ltb_ge _ 6)) by (unfold data_payload; rewrite !length_app, !le_bytes_length; lia).
  cbn -[read_word device_dispatch answering]. rewrite H0. cbn [mbind outcome_bind].
  destruct (Z.eqb_spec (Z.of_nat (length pre)) (received_size d)) as [Heq|]; cbn [negb]; [|by apply answer_inv].
  rewrite dispatch_step. destruct s; try (destruct Hno; done); cbn -[answering]; by apply answer_inv || (by destruct Hi).
Qed.

Lemma end_inv p f :
  session_inv fw addr p -> carries f kEnd [] -> exists p', ProcessFrame p f = Ret p' /\ session_inv fw addr p'.
Proof.
  intros Hi Hf. destruct p as [s d]. destruct (decide (s = DReceiving /\ received_size d = total_size d)) as [[-> Hr]|Hno].
  { destruct Hi as (Hl & Hp & Hrange & Hh). cbn [fst snd] in *. rewrite (sp_total _ _ _ Hp) in Hr.
    rewrite Hr, Nat2Z.id, firstn_all2 in Hh by lia. destruct (end_step d f) as (d' & Hd & Hfl & Hp' & Hr' & Hc' & _); try done.
    exists (DVerifying, d'). split; [done|]. split; cbn [fst snd]; rewrite Hfl; [done|]. split_and!; try done. congruence. }
  rewrite (class_ota _ _ _ _ Hf). unfold HandleOta. rewrite (ca_cmd _ _ _ Hf). cbn -[device_dispatch answering].
  destruct (Z.eqb_spec (received_size d) (total_size d)) as [Heq|]; cbn [negb]; [|by apply answer_inv].
  rewrite dispatch_step. destruct s; try (destruct Hno; done); cbn -[answering]; by apply answer_inv || (by destruct Hi).
Qed.

Lemma verify_inv p f :
  session_inv fw addr p -> carries f kVerify [] -> exists p', ProcessFrame p f = Ret p' /\ session_inv fw addr p'.
Proof.
  intros Hi Hf. destruct p as [s d]. destruct (decide (s = DVerifying)) as [->|Hno].
  { pose proof Hi as (Hl & [Hp1 Hp2 Hp3] & Hr & Hc & Hh). cbn [fst snd] in *. rewrite verify_step by (done || congruence).
    eexists. split; [reflexivity|]. apply (inv_responded DComplete d). done. }
  rewrite (class_ota _ _ _ _ Hf). unfold HandleOta. rewrite (ca_cmd _ _ _ Hf). cbn -[device_dispatch answering].
  assert (Hd : device_dispatch (s, d) (kEvtOtaVerify, None) = Ret (s, d)).
  { rewrite dispatch_step. destruct Hi as [_ Hs]. by destruct s. }
  rewrite Hd. cbn [mbind outcome_bind]. unfold answering. cbn [fst snd]. rewrite send_resp_ret by (simpl; lia).
  eexists. split; [reflexivity|]. by apply inv_responded.
Qed.

Lemma session_step p f :
  session_inv fw addr p -> genuine fw addr f -> exists p', ProcessFrame p f = Ret p' /\ session_inv fw addr p'.
Proof.
  intros Hi [Hf|pre chunk post Hfw Hc Hf|Hf|Hf]; eauto using data_inv, end_inv, verify_inv.
  destruct (decide (p.1 = DIdle)) as [Hs|]; [|by apply (start_ignored p f)].
  destruct p as [s d]. simpl in Hs. subst s. destruct Hi as [Hl _].
  destruct (start_step d f Hf Hl) as (d' & Hd & Hl' & Hp' & Hr' & _). exists (DReceiving, d'). split; [done|]. split; [done|].
  cbn [fst snd]. rewrite Hr'. split_and!; [done|lia|lia|]. done.
Qed.

Lemma session_frames p fs :
  session_inv fw addr p -> Forall (genuine fw addr) fs -> exists p', ProcessFrames p fs = Ret p' /\ session_inv fw addr p'.
Proof.
  intros Hi Hfs. revert p Hi. induction Hfs as [|f fs Hf _ IH]; intros p Hi; [by exists p|]. simpl.
  destruct (session_step p f Hi Hf) as (p1 & -> & Hi1). by apply IH.
Qed.

(** The data phase, in order. *)
Fixpoint data_cmds (off : Z) (chunks : list (list Z)) : list (Z * list Z) :=
  match chunks with
  | [] => []
  | c :: cs => (kData, data_payload off c) :: data_cmds (off + Z.of_nat (length c)) cs
  end.

Fixpoint data_acks (off : Z) (chunks : list (list Z)) : list (list Z) :=
  match chunks with
  | [] => []
  | c :: cs => ack_frame kData kSuccess (off + Z.of_nat (length c)) :: data_acks (off + Z.of_nat (length c)) cs
  end.

Definition carries_cmd (f : Frame) (c : Z * list Z) : Prop := carries f c.1 c.2.

Lemma data_phase chunks pre d fs :
  fw = pre ++ concat chunks -> Forall (fun c => Z.of_nat (length c) < 2 ^ 16) chunks ->
  Forall2 carries_cmd fs (data_cmds (Z.of_nat (length pre)) chunks) ->
  Z.of_nat (length (flash d)) = FlashSize -> session_parameters fw addr d -> received_size d = Z.of_nat (length pre) ->
  holds (flash d) addr pre -> has_cb d = true ->
  exists d', ProcessFrames (DReceiving, d) fs = Ret (DReceiving, d') /\ Z.of_nat (length (flash d')) = FlashSize /\
    session_parameters fw addr d' /\ received_size d' = Z.of_nat (length fw) /\ holds (flash d') addr fw /\
    (forall j : nat, Z.of_nat j < addr \/ addr + Z.of_nat (length fw) <= Z.of_nat j -> flash d' !! j = flash d !! j) /\
    has_cb d' = true /\ sent d' = sent d ++ data_acks (Z.of_nat (length pre)) chunks.
Proof.
  revert pre d fs. induction chunks as [|c cs IH]; intros pre d fs Hfw Hc Hfs Hl Hp Hr Hh Hcb.
  { apply Forall2_nil_inv_r in Hfs as ->. simpl in Hfw. rewrite app_nil_r in Hfw. rewrite <- Hfw in *. exists d. split; [done|]. simpl. rewrite app_nil_r. done. }
  apply Forall_cons in Hc as [Hc1 Hc2]. simpl in Hfs. apply Forall2_cons_inv_r in Hfs as (f & fs' & Hf & Hfs' & ->).
  simpl in Hfw. destruct (data_step d f pre c (concat cs) Hfw Hc1 Hf Hl Hp Hr Hh) as (d1 & Hd & Hl1 & Hp1 & Hr1 & Hh1 & Ho1 & Hcb1 & Hs1).
  cbn [ProcessFrames]. rewrite Hd. cbn [mbind outcome_bind]. rewrite Hcb in Hs1, Hcb1.
  destruct (IH (pre ++ c) d1 fs') as (d2 & Hr2 & Hl2 & Hp2 & Hrec & Hh2 & Ho2 & Hcb2 & Hs2); try done.
  { by rewrite <- app_assoc. }
  { by rewrite length_app, Nat2Z.inj_add. }
  exists d2. split_and!; try done.
  - intros j Hj. rewrite Ho2, Ho1 by done. done.
  - rewrite Hs2, Hs1, <- app_assoc, length_app, Nat2Z.inj_add. done.
Qed.

Definition session_cmds (chunks : list (list Z)) : list (Z * list Z) :=
  (kStart, start_payload fw addr) :: data_cmds 0 chunks ++ [(kEnd, []); (kVerify, [])].

Definition session_acks (chunks : list (list Z)) : list (list Z) :=
  ack_frame kStart kSuccess 0 :: data_acks 0 chunks ++
  [ack_frame kEnd kSuccess (Z.of_nat (length fw)); verify_frame kSuccess (CalcCrc16 fw)].

Lemma process_frames_app p fs1 fs2 : ProcessFrames p (fs1 ++ fs2) = (p' ← ProcessFrames p fs1; ProcessFrames p' fs2).
Proof. revert p. induction fs1 as [|f fs1 IH]; intros p; [done|]. simpl. destruct (ProcessFrame p f); cbn [mbind outcome_bind]; done. Qed.

Lemma session_run chunks d fs :
  fw = concat chunks -> Forall (fun c => Z.of_nat (length c) < 2 ^ 16) chunks ->
  Forall2 carries_cmd fs (session_cmds chunks) -> Z.of_nat (length (flash d)) = FlashSize -> has_cb d = true ->
  exists d', ProcessFrames (DIdle, d) fs = Ret (DComplete, d') /\ holds (flash d') addr fw /\
    (forall j : nat, Z.of_nat j < sector_of addr \/ addr + Z.of_nat (length fw) + SectorSize <= Z.of_nat j -> flash d' !! j = flash d !! j) /\
    sent d' = sent d ++ session_acks chunks.
Proof.
  intros Hfw Hc Hfs Hl Hcb. unfold session_cmds in Hfs. apply Forall2_cons_inv_r in Hfs as (f0 & fs' & Hf0 & Hfs & ->).
  apply Forall2_app_inv_r in Hfs as (fd & ft & Hfd & Hft & ->).
  apply Forall2_cons_inv_r in Hft as (fe & ft' & Hfe & Hft & ->). apply Forall2_cons_inv_r in Hft as (fv & ft'' & Hfv & Hft & ->).
  apply Forall2_nil_inv_r in Hft as ->.
  destruct (start_step d f0 Hf0 Hl) as (d1 & Hd1 & Hl1 & Hp1 & Hr1 & Ho1 & Hcb1 & Hs1). rewrite Hcb in Hcb1, Hs1.
  cbn [ProcessFrames]. rewrite Hd1. cbn [mbind outcome_bind]. rewrite process_frames_app.
  destruct (data_phase chunks [] d1 fd) as (d2 & -> & Hl2 & Hp2 & Hr2 & Hh2 & Ho2 & Hcb2 & Hs2); try done.
  cbn [mbind outcome_bind ProcessFrames].
  destruct (end_step d2 fe Hfe Hl2 Hp2 Hr2 Hh2) as (d3 & -> & Hfl3 & [Hp3 _ Hp3'] & Hr3 & Hc3 & Hcb3 & Hs3). rewrite Hcb2 in Hs3, Hcb3.
  cbn [mbind outcome_bind]. rewrite verify_step by (done || congruence). cbn [mbind outcome_bind]. eexists. split; [reflexivity|].
  unfold responded. cbn [flash sent]. rewrite Hcb3. split_and!.
  - by rewrite Hfl3.
  - intros j Hj. pose proof (sector_of_range addr (proj1 fw_fits)). pose proof sector_range. rewrite Hfl3, Ho2, Ho1 by lia. done.
  - rewrite Hs3, Hs2, Hs1, Hc3. unfold session_acks. rewrite <- !app_assoc. done.
Qed.
End session.

(** ** Over the wire *)

Definition wire_of (cmds : list (Z * list Z)) : list Z := concat (map (fun c => frame_bytes CLASS_OTA c.1 c.2) cmds).

Lemma parse_cmds cmds c :
  Forall (fun x => Forall (in_u 8) (x.1 :: x.2) /\ (length x.2 <= 256)%nat) cmds ->
  length (payload_buf c) = 258%nat -> callback c = true ->
  exists fs c', PutData (PIdle, c) (wire_of cmds) = Ret (PIdle, c') /\ delivered c' = delivered c ++ fs /\ Forall2 carries_cmd fs cmds.
Proof.
  intros Hall. revert c. induction Hall as [|[cmd payload] cmds [Hb Hlen] _ IH]; intros c Hpb Hcb.
  { exists [], c. rewrite app_nil_r. split_and!; [done..|constructor]. }
  unfold wire_of. cbn [map concat fst snd]. rewrite put_data_app.
  destruct (parse_frame c CLASS_OTA cmd payload) as (f & c1 & -> & Hd & Hf1 & Hf2 & Hf3 & Hf4 & _ & Hpb1 & Hcb1 & Hfl); try done.
  { apply Forall_cons. split; [done|exact Hb]. }
  cbn [mbind outcome_bind]. destruct (IH c1 Hpb1 Hcb1) as (fs & c2 & Hr & Hd2 & Hfs).
  exists (f :: fs), c2. split; [done|]. split; [by rewrite Hd2, Hd, <- app_assoc|]. constructor; [|done]. split; try done.
  exists (drop (length payload) (f_data f)). rewrite <- (take_drop (length payload) (f_data f)) at 1. f_equal.
  unfold frame_data in Hf4. by rewrite Hf3, Nat2Z.id in Hf4.
Qed.

Lemma session_wire_ok fw addr chunks :
  Forall (in_u 8) fw -> fw = concat chunks -> Forall (fun c => (length c <= 250)%nat) chunks ->
  Forall (fun x => Forall (in_u 8) (x.1 :: x.2) /\ (length x.2 <= 256)%nat) (session_cmds fw addr chunks).
Proof.
  intros Hb Hfw Hc. unfold session_cmds. apply Forall_cons; split; [|apply Forall_app; split].
  - split; [|simpl; lia]. apply Forall_cons. split; [done|]. cbn [snd]. unfold start_payload. rewrite !Forall_app. auto using le_bytes_range.
  - rewrite Hfw in Hb. clear Hfw. generalize 0 as off. revert Hb. induction Hc as [|c cs Hc _ IH]; intros Hb off; simpl; [done|].
    simpl in Hb. apply Forall_app in Hb as [Hb1 Hb2]. constructor; [|by apply IH]. cbn [fst snd]. unfold data_payload. split.
    + apply Forall_cons. split; [done|]. rewrite !Forall_app. auto using le_bytes_range.
    + rewrite !length_app, !le_bytes_length. lia.
  - repeat (apply Forall_cons; split); try done; (split; [apply Forall_cons; by split|simpl; lia]).
Qed.

(** A whole update over the serial line.  For every firmware that fits the
    flash, cut into pieces of at most 250 bytes, the byte stream START, DATA for
    each piece, END, VERIFY, fed to the frame parser of a fresh device, drives the
    state machine to Complete with exactly the firmware at its address, leaves
    the flash outside the erased sectors alone, and is answered frame by frame
    with success and the number of bytes received. *)
Theorem update_installs_firmware (fw : list Z) (addr : Z) (chunks : list (list Z)) (c : ParserContext) (d : DeviceContext) :
  Forall (in_u 8) fw -> 0 <= addr -> addr + Z.of_nat (length fw) <= FlashSize ->
  fw = concat chunks -> Forall (fun x => (length x <= 250)%nat) chunks ->
  length (payload_buf c) = 258%nat -> callback c = true -> delivered c = [] ->
  Z.of_nat (length (flash d)) = FlashSize -> has_cb d = true ->
  exists c' d',
    PutData (PIdle, c) (wire_of (session_cmds fw addr chunks)) = Ret (PIdle, c') /\
    ProcessFrames (DIdle, d) (delivered c') = Ret (DComplete, d') /\
    holds (flash d') addr fw /\
    (forall j : nat, Z.of_nat j < sector_of addr \/ addr + Z.of_nat (length fw) + SectorSize <= Z.of_nat j -> flash d' !! j = flash d !! j) /\
    sent d' = sent d ++ session_acks fw chunks.
Proof.
  intros Hb Ha Hle Hfw Hc Hpb Hcb Hdel Hl Hh.
  destruct (parse_cmds (session_cmds fw addr chunks) c) as (fs & c' & Hr & Hd & Hfs); try done; [by apply session_wire_ok|].
  destruct (session_run fw addr Hb (conj Ha Hle) chunks d fs) as (d' & Hp & H1 & H2 & H3); try done.
  { eapply Forall_impl; [exact Hc|]. simpl. intros x Hx. lia. }
  exists c', d'. rewrite Hd, Hdel. done.
Qed.

(** C27: Integrity whatever the line does.  Let the device be given any sequence
    of genuine frames of one update, in any order, with frames lost or repeated.
    No frame makes it fault or reach its error state; while it receives, the flash
    holds the firmware up to the reported size; once it has been told to verify,
    and when it is complete, the flash holds the firmware. *)
Theorem update_integrity_any_order (fw : list Z) (addr : Z) (fs : list Frame) :
  Forall (in_u 8) fw -> 0 <= addr -> addr + Z.of_nat (length fw) <= FlashSize -> Forall (genuine fw addr) fs ->
  exists s d, ProcessFrames device0 fs = Ret (s, d) /\
    match s with
    | DIdle => received_size d = 0
    | DReceiving => 0 <= received_size d <= Z.of_nat (length fw) /\ holds (flash d) addr (take (Z.to_nat (received_size d)) fw)
    | DVerifying | DComplete => received_size d = Z.of_nat (length fw) /\ calc_crc d = CalcCrc16 fw /\ holds (flash d) addr fw
    | DErasing | DError => False
    end.
Proof.
  intros Hb Ha Hle Hfs. pose proof flash_size_range as Hf. destruct (session_frames fw addr Hb (conj Ha Hle) device0 fs) as ([s d] & Hr & Hi); try done.
  { split; [|done]. simpl. unfold flash_init. rewrite length_replicate. lia. }
  exists s, d. split; [done|]. destruct Hi as [_ Hi]. destruct s; cbn [fst snd] in Hi; tauto.
Qed.

(** The erase sweep always ends.  For every start address and every size,
    also those whose end wraps around 2^32, [OnEnterErasing] runs its loop at most
    one time more than the flash has sectors before it has swept the range, met an
    address it refuses, or left the array. *)
Theorem erase_sweep_terminates (fl : list Z) (a size : Z) :
  Z.of_nat (length fl) = FlashSize -> in_u 32 a -> erase_loop erase_fuel fl a (u32 (a + size)) <> None.
Proof. apply erase_terminates. Qed.

(** Complete and Error are final.  No frame of any class, well formed or
    not, takes the device out of either state, since nothing ever dispatches the
    reset event that their handlers wait for: a device takes one update per power
    cycle, and START is still answered with success. *)
Theorem final_states_absorb (s : DState) (d : DeviceContext) (f : Frame) (s' : DState) (d' : DeviceContext) :
  s = DComplete \/ s = DError -> ProcessFrame (s, d) f = Ret (s', d') -> s' = s.
Proof.
  intros Hs. assert (Hd : forall e, e.1 <> kEvtOtaReset -> device_dispatch (s, d) e = Ret (s, d)).
  { intros [id data] He. rewrite dispatch_step. simpl in He. destruct Hs as [-> | ->]; unfold device_step; simpl;
      unfold OnComplete, OnError; simpl; by rewrite (proj2 (Z.eqb_neq _ _) He). }
  assert (Ha : forall g, answering (s, d) g = Ret (s', d') -> s' = s).
  { unfold answering. cbn [fst snd]. intros g (x & _ & Hx)%bind_ret_inv. by injection Hx. }
  unfold ProcessFrame, HandleOta. repeat case_match; eauto.
  - rewrite Hd by done. cbn [mbind outcome_bind]. rewrite Hd by done. cbn [mbind outcome_bind]. eauto.
  - intros (off & _ & Hx)%bind_ret_inv. revert Hx. case_match; eauto. rewrite Hd by done. cbn [mbind outcome_bind]. eauto.
  - rewrite Hd by done. cbn [mbind outcome_bind]. eauto.
  - rewrite Hd by done. cbn [mbind outcome_bind]. eauto.
Qed.

(** VERIFY answers for the checksums, not for the update.  In every state
    but Verifying a VERIFY frame moves nothing, and its answer is success whenever
    the two checksums on record agree, as they do on a device that has just
    started and received nothing. *)
Theorem verify_without_update (s : DState) (d : DeviceContext) (f : Frame) :
  s = DIdle \/ s = DReceiving \/ s = DComplete \/ s = DError -> carries f kVerify [] -> calc_crc d = exp_crc d ->
  ProcessFrame (s, d) f = Ret (s, responded d (verify_frame kSuccess (calc_crc d))).
Proof.
  intros Hs Hf Hc. rewrite (class_ota _ _ _ _ Hf). unfold HandleOta. rewrite (ca_cmd _ _ _ Hf). cbn -[device_dispatch answering].
  assert (Hd : device_dispatch (s, d) (kEvtOtaVerify, None) = Ret (s, d)).
  { rewrite dispatch_step. by destruct Hs as [-> | [-> | [-> | ->]]]. }
  rewrite Hd. cbn [mbind outcome_bind]. unfold answering. cbn [fst snd]. rewrite send_resp_ret by (simpl; lia).
  cbn -[frame_bytes verify_bytes]. unfold verify_frame, verify_bytes. rewrite Hc, Z.eqb_refl. done.
Qed.
End device.

#[local] Existing Instance plain_machine.
#[local] Existing Instance plain_machine_ok.

(** ** The part in device.hpp *)

#[export] Instance default_geometry : FlashGeometry := {| FlashSize := 65536; SectorSize := 4096 |}.

#[export] Instance default_geometry_ok : GeometryOk default_geometry.
Proof. split; simpl; [exists 12; lia|exists 16; lia|lia]. Qed.

Lemma flash_init_length : Z.of_nat (length flash_init) = FlashSize.
Proof. unfold flash_init. rewrite length_replicate. reflexivity. Qed.

Lemma update_installs_firmware_witness :
  exists c' d',
    PutData (PIdle, SetCallback ctx0 true) (wire_of (session_cmds [9; 8; 7] 4098 [[9; 8]; [7]])) = Ret (PIdle, c') /\
    ProcessFrames device0 (delivered c') = Ret (DComplete, d') /\ holds (flash d') 4098 [9; 8; 7].
Proof.
  destruct (update_installs_firmware [9; 8; 7] 4098 [[9; 8]; [7]] (SetCallback ctx0 true) device0.2)
    as (c' & d' & H1 & H2 & H3 & _); [| | | | | | | | | |exact (ex_intro _ c' (ex_intro _ d' (conj H1 (conj H2 H3))))].
  - repeat (apply Forall_cons; split; [done|]). by apply Forall_nil.
  - lia.
  - simpl. lia.
  - reflexivity.
  - repeat (apply Forall_cons; split; [simpl; lia|]). by apply Forall_nil.
  - reflexivity.
  - reflexivity.
  - reflexivity.
  - exact flash_init_length.
  - reflexivity.
Defined.

Lemma update_integrity_any_order_witness :
  exists s d, ProcessFrames device0 [mkFrame CLASS_OTA kEnd 0 [] 0; mkFrame CLASS_OTA kVerify 0 [] 0] = Ret (s, d).
Proof.
  destruct (update_integrity_any_order [9; 8; 7] 4096 [mkFrame CLASS_OTA kEnd 0 [] 0; mkFrame CLASS_OTA kVerify 0 [] 0])
    as (s & d & H & _); [| | | |exact (ex_intro _ s (ex_intro _ d H))].
  - repeat (apply Forall_cons; split; [done|]). by apply Forall_nil.
  - lia.
  - simpl. lia.
  - repeat (apply Forall_cons; split); [apply g_end|apply g_verify|by apply Forall_nil]; (split; [done..|by exists []]).
Defined.

Lemma erase_sweep_terminates_witness : erase_loop erase_fuel flash_init 4294967295 (u32 (4294967295 + 2)) <> None.
Proof. apply (erase_sweep_terminates flash_init 4294967295 2); [exact flash_init_length|done]. Defined.

Lemma final_states_absorb_witness : exists d', ProcessFrame (DError, device0.2) (mkFrame 9 9 0 [] 0) = Ret (DError, d').
Proof.
  assert (H : exists s' d', ProcessFrame (DError, device0.2) (mkFrame 9 9 0 [] 0) = Ret (s', d')).
  { change (ProcessFrame _ _) with (answering (DError, device0.2) (fun d => SendResp d 9 9 [1])). unfold answering. cbn [fst snd].
    rewrite send_resp_ret by (simpl; lia). eexists _, _. reflexivity. }
  destruct H as (s' & d' & H). exists d'. pose proof (final_states_absorb DError device0.2 _ s' d' (or_intror eq_refl) H) as E. rewrite E in H. exact H.
Defined.

Lemma verify_without_update_witness :
  ProcessFrame device0 (mkFrame CLASS_OTA kVerify 0 [] 0) = Ret (DIdle, responded device0.2 (verify_frame kSuccess 0)).
Proof.
  apply (verify_without_update DIdle device0.2).
  - by left.
  - split; [done..|by exists []].
  - reflexivity.
Defined.

Definition spi_frame (cmd : Z) (payload : list Z) : Frame :=
  mkFrame CLASS_SPI cmd (Z.of_nat (length payload)) (payload ++ replicate (256 - length payload) 0) 0.

(** Well-formed frames that leave the arrays.  On the 64 KiB part: erasing
    the sector at 0xFFFFF000, whose end wraps to 0; the checksum of one byte at
    0xFFFFFFFF, likewise; and a flash write that announces more data than a frame
    can carry, which reads on behind it. *)
Theorem hostile_frames_leave_the_arrays :
  HandleSpi device0.2 (spi_frame kErase (le_bytes 4 0xFFFFF000)) = Fatal /\
  HandleSpi device0.2 (spi_frame kGetCrc (le_bytes 4 0xFFFFFFFF ++ le_bytes 4 1)) = Fatal /\
  HandleSpi device0.2 (spi_frame kWrite (le_bytes 4 0 ++ le_bytes 2 300 ++ [1])) = Fatal.
Proof. vm_compute. done. Qed.
