(* ===== verification/OtaHost.v ===== *)
(** * The host side of the serial update (examples/serial_ota/host.hpp)

    The four actions of the upgrade and the response handler.  [send_fn] hands
    the bytes to the line and comes back: what it was given is kept in [out].
    The actions run under [osp::BehaviorTree], a component outside this
    repository: [OspTree] is its interface for a sequence of actions and
    [OspTreeOk] what host.hpp relies on. *)

From S2P Require Import Prelude Mem Crc OtaFrame OtaDevice.

Inductive NodeStatus := nSuccess | nFailure | nRunning.
Inductive ActionPhase := pSend | pWait | pDone.

#[export] Instance ActionPhase_eq_dec : EqDecision ActionPhase.
Proof. solve_decision. Defined.

(** The transfer: what is sent, and how far it has got. *)
Record Transfer := mkTransfer {
  firmware : list Z; h_start_addr : Z; h_expected_crc : Z; chunk_size : Z; bytes_sent : Z; current_offset : Z
}.

(** What the responses said. *)
Record Responses := mkResponses {
  ack_received : bool; last_status : Z; last_received_size : Z; verify_crc : Z; verify_received : bool; verify_ok : bool;
  chunk_retry_count : Z; total_retries : Z; total_drops : Z; data_nak_received : bool
}.

Record HostContext := mkHost {
  xfer : Transfer; resp : Responses; start_phase : ActionPhase; end_phase : ActionPhase; verify_phase : ActionPhase;
  has_send : bool; out : list (list Z)
}.

Definition kMaxChunkRetries : Z := 3.

Definition set_resp (h : HostContext) (r : Responses) : HostContext :=
  mkHost (xfer h) r (start_phase h) (end_phase h) (verify_phase h) (has_send h) (out h).
Definition set_xfer (h : HostContext) (t : Transfer) : HostContext :=
  mkHost t (resp h) (start_phase h) (end_phase h) (verify_phase h) (has_send h) (out h).
Definition set_phases (h : HostContext) (s e v : ActionPhase) : HostContext :=
  mkHost (xfer h) (resp h) s e v (has_send h) (out h).
Definition send_fn (h : HostContext) (bytes : list Z) : HostContext :=
  mkHost (xfer h) (resp h) (start_phase h) (end_phase h) (verify_phase h) (has_send h) (out h ++ [bytes]).

Definition set_offset (t : Transfer) (sent off : Z) : Transfer :=
  mkTransfer (firmware t) (h_start_addr t) (h_expected_crc t) (chunk_size t) sent off.
Definition set_ack (r : Responses) (b : bool) : Responses :=
  mkResponses b (last_status r) (last_received_size r) (verify_crc r) (verify_received r) (verify_ok r)
    (chunk_retry_count r) (total_retries r) (total_drops r) (data_nak_received r).

(** [BuildFrame] into a local buffer of [size] bytes; [None]: it returned 0. *)
Definition build (size : nat) (cmd : Z) (data : list Z) : outcome (option (list Z)) :=
  '(n, buf) ← BuildFrame (Some (replicate size 0)) CLASS_OTA cmd data;
  if n =? 0 then mret None else s ← span buf 0 n; mret (Some s).

Definition hresult : Type := outcome (NodeStatus * HostContext).

Definition start_req (h : HostContext) : list Z :=
  le_bytes 4 (u32 (Z.of_nat (length (firmware (xfer h))))) ++ le_bytes 4 (h_start_addr (xfer h)) ++ le_bytes 2 (h_expected_crc (xfer h)).

Definition SendStart (h : HostContext) : hresult :=
  if negb (has_send h) then mret (nFailure, h)
  else match start_phase h with
  | pDone => mret (nSuccess, h)
  | pSend =>
    f ← build 64 kStart (start_req h);
    match f with
    | None => mret (nFailure, h)
    | Some bytes =>
      let h := set_resp h (set_ack (resp h) false) in
      let h := set_xfer h (set_offset (xfer h) 0 0) in
      let h := set_phases h pWait (end_phase h) (verify_phase h) in
      mret (nRunning, send_fn h bytes)
    end
  | pWait =>
    if negb (ack_received (resp h)) then mret (nRunning, h)
    else if last_status (resp h) =? status_code kSuccess then
      mret (nSuccess, set_phases h pDone (end_phase h) (verify_phase h))
    else mret (nFailure, h)
  end.

(** The reaction to a NAK: [None] when the retries are used up. *)
Definition rewind (h : HostContext) : option HostContext * HostContext :=
  let r := resp h in
  if negb (data_nak_received r) then (Some h, h)
  else
    let r := mkResponses (ack_received r) (last_status r) (last_received_size r) (verify_crc r) (verify_received r) (verify_ok r)
               (u32 (chunk_retry_count r + 1)) (u32 (total_retries r + 1)) (u32 (total_drops r + 1)) false in
    let h := set_resp h r in
    if kMaxChunkRetries <? chunk_retry_count r then (None, h)
    else
      let t := xfer h in
      let to := last_received_size r in
      let sent := if to <? current_offset t then u32 (bytes_sent t - (current_offset t - to)) else bytes_sent t in
      let h := set_xfer h (set_offset t sent to) in (Some h, h).

Definition SendChunks (h : HostContext) : hresult :=
  if negb (has_send h) then mret (nFailure, h)
  else match rewind h with
  | (None, h) => mret (nFailure, h)
  | (Some h, _) =>
    let t := xfer h in
    let size := Z.of_nat (length (firmware t)) in
    if size <=? current_offset t then mret (nSuccess, h)
    else
      let remaining := u32 (u32 size - current_offset t) in
      let this_chunk := if remaining <? chunk_size t then remaining else chunk_size t in
      p ← copy_to (replicate 256 0) 0 (le_bytes 4 (current_offset t) ++ le_bytes 2 (u16 this_chunk));
      data ← span (firmware t) (current_offset t) this_chunk;
      p ← copy_to p 6 data;
      payload ← span p 0 (6 + this_chunk);
      f ← build 266 kData payload;
      match f with
      | None => mret (nFailure, h)
      | Some bytes =>
        let h := send_fn h bytes in
        let h := set_xfer h (set_offset (xfer h) (u32 (bytes_sent t + this_chunk)) (u32 (current_offset t + this_chunk))) in
        (* the progress message divides by chunk_size * 8 *)
        if u32 (chunk_size t * 8) =? 0 then Fatal else mret (nRunning, h)
      end
  end.

Definition SendEnd (h : HostContext) : hresult :=
  if negb (has_send h) then mret (nFailure, h)
  else match end_phase h with
  | pDone => mret (nSuccess, h)
  | pSend =>
    f ← build 32 kEnd [];
    match f with
    | None => mret (nFailure, h)
    | Some bytes =>
      let h := set_resp h (set_ack (resp h) false) in
      mret (nRunning, send_fn (set_phases h (start_phase h) pWait (verify_phase h)) bytes)
    end
  | pWait =>
    let r := resp h in
    if negb (ack_received r) then mret (nRunning, h)
    else if last_status r =? status_code kSuccess then mret (nSuccess, set_phases h (start_phase h) pDone (verify_phase h))
    else if last_received_size r <? Z.of_nat (length (firmware (xfer h))) then
      let h := set_xfer h (set_offset (xfer h) (bytes_sent (xfer h)) (last_received_size r)) in
      let h := set_phases h (start_phase h) pSend (verify_phase h) in
      mret (nRunning, set_resp h (mkResponses false (last_status r) (last_received_size r) (verify_crc r) (verify_received r)
                        (verify_ok r) (chunk_retry_count r) (total_retries r) (total_drops r) false))
    else mret (nFailure, h)
  end.

Definition SendVerify (h : HostContext) : hresult :=
  if negb (has_send h) then mret (nFailure, h)
  else match verify_phase h with
  | pDone => mret (nSuccess, h)
  | pSend =>
    f ← build 32 kVerify [];
    match f with
    | None => mret (nFailure, h)
    | Some bytes =>
      let r := resp h in
      let h := set_resp h (mkResponses (ack_received r) (last_status r) (last_received_size r) (verify_crc r) false false
                             (chunk_retry_count r) (total_retries r) (total_drops r) (data_nak_received r)) in
      mret (nRunning, send_fn (set_phases h (start_phase h) (end_phase h) pWait) bytes)
    end
  | pWait =>
    if negb (verify_received (resp h)) then mret (nRunning, h)
    else
      let h := set_phases h (start_phase h) (end_phase h) pDone in
      mret (if verify_ok (resp h) then nSuccess else nFailure, h)
  end.

Definition OnResponse (h : HostContext) (f : Frame) : outcome HostContext :=
  if negb (f_class f =? CLASS_OTA) then mret h
  else if Z.land (f_cmd f) kAckFlag =? 0 then mret h
  else
    let base_cmd := Z.land (f_cmd f) (u8 (Z.lnot kAckFlag)) in
    let r := resp h in
    if base_cmd =? kVerify then
      if 5 <=? f_len f then
        st ← read_word (f_data f) 2 1; crc ← read_word (f_data f) 3 2;
        mret (set_resp h (mkResponses (ack_received r) (last_status r) (last_received_size r) crc true (st =? status_code kSuccess)
                            (chunk_retry_count r) (total_retries r) (total_drops r) (data_nak_received r)))
      else mret h
    else if base_cmd =? kData then
      if 7 <=? f_len f then
        st ← read_word (f_data f) 2 1; rec ← read_word (f_data f) 3 4;
        if negb (st =? status_code kSuccess) then
          mret (set_resp h (mkResponses (ack_received r) (last_status r) rec (verify_crc r) (verify_received r) (verify_ok r)
                              (chunk_retry_count r) (total_retries r) (total_drops r) true))
        else
          mret (set_resp h (mkResponses (ack_received r) (last_status r) (last_received_size r) (verify_crc r) (verify_received r)
                              (verify_ok r) 0 (total_retries r) (total_drops r) (data_nak_received r)))
      else mret h
    else if 7 <=? f_len f then
      st ← read_word (f_data f) 2 1; rec ← read_word (f_data f) 3 4;
      mret (set_resp h (mkResponses true st rec (verify_crc r) (verify_received r) (verify_ok r)
                          (chunk_retry_count r) (total_retries r) (total_drops r) (data_nak_received r)))
    else mret h.

Fixpoint OnResponses (h : HostContext) (fs : list Frame) : outcome HostContext :=
  match fs with
  | [] => mret h
  | f :: fs => h ← OnResponse h f; OnResponses h fs
  end.

(** ** The tree *)

Definition Action (C : Type) : Type := C -> outcome (NodeStatus * C).

Class OspTree := { Tick : forall {C : Type}, list (Action C) -> C -> outcome (NodeStatus * C) }.

(** A sequence ticks its children from the first on, each time, and stops at
    the first that does not succeed. *)
Class OspTreeOk (T : OspTree) : Prop := {
  tick_nil : forall {C} (c : C), Tick [] c = Ret (nSuccess, c);
  tick_cons : forall {C} (a : Action C) rest c,
    Tick (a :: rest) c = (r ← a c; match r.1 with nSuccess => Tick rest r.2 | s => mret (s, r.2) end)
}.

Definition upgrade : list (Action HostContext) := [SendStart; SendChunks; SendEnd; SendVerify].

(** The constructor and [Start]. *)
Definition responses0 : Responses := mkResponses false 0 0 0 false false 0 0 0 false.
Definition host0 (fw : list Z) (addr chunk : Z) : HostContext :=
  mkHost (mkTransfer fw addr 0 chunk 0 0) responses0 pSend pSend pSend true [].
Definition host_start (h : HostContext) : bool * HostContext :=
  let t := xfer h in
  if bool_decide (firmware t = []) || negb (has_send h) then (false, h)
  else (true, set_xfer h (mkTransfer (firmware t) (h_start_addr t) (CalcCrc16 (firmware t)) (chunk_size t) (bytes_sent t) (current_offset t))).
