(* ===== verification/OtaSystem.v ===== *)
(** * The serial update as a whole (examples/serial_ota)

    Host, line, frame parsers and device in one loop: a tick of the host, its
    bytes through the device's parser into the command handler, the answers
    through the host's parser into the response handler.  The line delivers
    everything; what losses do is the subject of [OtaDeviceSpec.v]. *)

From S2P Require Import Prelude Mem Crc OtaFrame OtaFrameSpec OtaDevice OtaDeviceSpec OtaHost.

Record system := mkSystem { y_host : HostContext; y_hp : PState * ParserContext; y_dp : PState * ParserContext; y_dev : DState * DeviceContext }.

Definition clear_delivered (c : ParserContext) : ParserContext :=
  mkCtx (current_byte c) (frame c) (expected_len c) (payload_index c) (payload_buf c) (stats c) (callback c) [].
Definition clear_out (h : HostContext) : HostContext :=
  mkHost (xfer h) (resp h) (start_phase h) (end_phase h) (verify_phase h) (has_send h) [].
Definition clear_sent (d : DeviceContext) : DeviceContext :=
  mkDev (flash d) (total_size d) (start_addr d) (received_size d) (exp_crc d) (calc_crc d) (erase_ok d) (has_cb d) [].

Section system.
Context {M : OspMachine} {T : OspTree} {G : FlashGeometry}.

(** Bytes into a parser: the frames it reports. *)
Definition feed (p : PState * ParserContext) (bytes : list Z) : outcome (list Frame * (PState * ParserContext)) :=
  match PutData (p.1, clear_delivered p.2) bytes with Ret q => Ret (delivered q.2, q) | Fatal => Fatal end.

Definition round (y : system) : outcome (NodeStatus * system) :=
  match Tick upgrade (clear_out (y_host y)) with
  | Fatal => Fatal
  | Ret (st, h) =>
    match feed (y_dp y) (concat (out h)) with
    | Fatal => Fatal
    | Ret (fs, dp) =>
      match ProcessFrames (fst (y_dev y), clear_sent (snd (y_dev y))) fs with
      | Fatal => Fatal
      | Ret dev =>
        match feed (y_hp y) (concat (sent (snd dev))) with
        | Fatal => Fatal
        | Ret (rs, hp) => h' ← OnResponses h rs; mret (st, mkSystem h' hp dp dev)
        end
      end
    end
  end.

Fixpoint rounds (n : nat) (y : system) : outcome (list NodeStatus * system) :=
  match n with
  | O => mret ([], y)
  | S n =>
    match round y with
    | Fatal => Fatal
    | Ret (st, y') => match rounds n y' with Fatal => Fatal | Ret (sts, y'') => Ret (st :: sts, y'') end
    end
  end.

Context {HM : OspMachineOk M} {HT : OspTreeOk T} {HG : GeometryOk G}.

(** ** The line *)

Definition waiting (p : PState * ParserContext) : Prop :=
  p.1 = PIdle /\ length (payload_buf p.2) = 258%nat /\ callback p.2 = true.

Lemma feed_frame p cmd payload :
  waiting p -> Forall (in_u 8) (cmd :: payload) -> (length payload <= 256)%nat ->
  exists f p', feed p (frame_bytes CLASS_OTA cmd payload) = Ret ([f], p') /\ waiting p' /\ carries f cmd payload.
Proof.
  intros (H1 & H2 & H3) Hb Hl. destruct p as [s c]. simpl in *. subst s. unfold feed. cbn [fst snd].
  destruct (parse_frame (clear_delivered c) CLASS_OTA cmd payload) as (f & c1 & -> & Hd & Hf1 & Hf2 & Hf3 & Hf4 & _ & Hpb & Hcb & Hfl);
    try done; [by apply Forall_cons|].
  exists f, (PIdle, c1). cbn [snd]. rewrite Hd. split_and!; try done. split; try done.
  exists (drop (length payload) (f_data f)). rewrite <- (take_drop (length payload) (f_data f)) at 1. f_equal.
  unfold frame_data in Hf4. by rewrite Hf3, Nat2Z.id in Hf4.
Qed.

Lemma feed_nothing p : waiting p -> exists p', feed p [] = Ret ([], p') /\ waiting p'.
Proof. intros (H1 & H2 & H3). destruct p as [s c]. eexists. split; [reflexivity|done]. Qed.

Lemma build_ok size cmd data :
  (length data + 8 <= size)%nat -> Z.of_nat (length data) <= 65533 -> build size cmd data = Ret (Some (frame_bytes CLASS_OTA cmd data)).
Proof.
  intros Hs Hd. unfold build. rewrite build_frame_spec by (rewrite ?length_replicate; lia). cbn [mbind outcome_bind].
  rewrite (proj2 (Z.eqb_neq _ _)) by lia.
  pose proof (span_at [] (frame_bytes CLASS_OTA cmd data) (drop (length data + 8) (replicate size 0)) (Z.of_nat (length data) + 8)) as Hsp.
  cbn [app length] in Hsp. change (Z.of_nat 0) with 0 in Hsp. rewrite Hsp by (rewrite frame_bytes_length; lia). done.
Qed.

(** ** What the host makes of the answers *)

Lemma ack_words f cmd st rec :
  carries f (Z.lor cmd kAckFlag) (ack_bytes cmd st rec) -> in_u 32 rec ->
  read_word (f_data f) 2 1 = Ret (status_code st) /\ read_word (f_data f) 3 4 = Ret rec.
Proof.
  intros [_ _ _ [rest Hd]] Hr. unfold ack_bytes in Hd. rewrite <- app_assoc in Hd. split.
  - apply (read_word_at _ [CLASS_OTA; Z.lor cmd kAckFlag] 1 (status_code st)) with (post := le_bytes 4 rec ++ rest); [|by destruct st].
    rewrite Hd. cbn [app le_bytes]. do 3 f_equal. by destruct st.
  - eapply (read_word_at _ [CLASS_OTA; Z.lor cmd kAckFlag; status_code st] 4); [exact Hd|]. unfold in_u in Hr.
    change (256 ^ Z.of_nat 4) with (2 ^ 32). lia.
Qed.

Definition acked (h : HostContext) (st : Status) (rec : Z) : HostContext :=
  let r := resp h in
  set_resp h (mkResponses true (status_code st) rec (verify_crc r) (verify_received r) (verify_ok r) (chunk_retry_count r)
                (total_retries r) (total_drops r) (data_nak_received r)).

Definition chunk_acked (h : HostContext) : HostContext :=
  let r := resp h in
  set_resp h (mkResponses (ack_received r) (last_status r) (last_received_size r) (verify_crc r) (verify_received r) (verify_ok r) 0
                (total_retries r) (total_drops r) (data_nak_received r)).

Lemma on_ack h f cmd st rec :
  cmd = kStart \/ cmd = kEnd -> carries f (Z.lor cmd kAckFlag) (ack_bytes cmd st rec) -> in_u 32 rec ->
  OnResponse h f = Ret (acked h st rec).
Proof.
  intros Hc Hf Hr. destruct (ack_words f cmd st rec Hf Hr) as [H2 H3]. unfold OnResponse.
  rewrite (ca_class _ _ _ Hf), (ca_cmd _ _ _ Hf), (ca_len _ _ _ Hf).
  destruct Hc as [-> | ->]; cbn -[read_word]; rewrite H2, H3; done.
Qed.

Lemma on_chunk_ack h f rec :
  carries f (Z.lor kData kAckFlag) (ack_bytes kData kSuccess rec) -> in_u 32 rec -> OnResponse h f = Ret (chunk_acked h).
Proof.
  intros Hf Hr. destruct (ack_words f kData kSuccess rec Hf Hr) as [H2 H3]. unfold OnResponse.
  rewrite (ca_class _ _ _ Hf), (ca_cmd _ _ _ Hf), (ca_len _ _ _ Hf). cbn -[read_word]. rewrite H2, H3. done.
Qed.

Definition verified (h : HostContext) (crc : Z) : HostContext :=
  let r := resp h in
  set_resp h (mkResponses (ack_received r) (last_status r) (last_received_size r) crc true true (chunk_retry_count r)
                (total_retries r) (total_drops r) (data_nak_received r)).

Lemma on_verify h f crc :
  carries f (Z.lor kVerify kAckFlag) ([CLASS_OTA; Z.lor kVerify kAckFlag; status_code kSuccess] ++ le_bytes 2 crc) -> in_u 16 crc ->
  OnResponse h f = Ret (verified h crc).
Proof.
  intros Hf Hr. pose proof Hf as [_ _ _ [rest Hd]].
  assert (H2 : read_word (f_data f) 2 1 = Ret 0).
  { eapply (read_word_at _ [CLASS_OTA; Z.lor kVerify kAckFlag] 1 0); [|done]. rewrite Hd. reflexivity. }
  assert (H3 : read_word (f_data f) 3 2 = Ret crc).
  { rewrite <- app_assoc in Hd. eapply (read_word_at _ [CLASS_OTA; Z.lor kVerify kAckFlag; status_code kSuccess] 2); [exact Hd|].
    unfold in_u in Hr. change (256 ^ Z.of_nat 2) with (2 ^ 16). lia. }
  unfold OnResponse. rewrite (ca_class _ _ _ Hf), (ca_cmd _ _ _ Hf), (ca_len _ _ _ Hf). cbn -[read_word]. rewrite H2, H3. done.
Qed.

(** ** One exchange *)

Lemma round_exchange y st h cmd payload s' rcmd rpayload h' (Q : DeviceContext -> Prop) :
  Tick upgrade (clear_out (y_host y)) = Ret (st, h) -> out h = [frame_bytes CLASS_OTA cmd payload] ->
  waiting (y_hp y) -> waiting (y_dp y) ->
  Forall (in_u 8) (cmd :: payload) -> (length payload <= 256)%nat -> Forall (in_u 8) (rcmd :: rpayload) -> (length rpayload <= 256)%nat ->
  (forall f, carries f cmd payload -> exists d', ProcessFrame ((y_dev y).1, clear_sent (y_dev y).2) f = Ret (s', d') /\
    sent d' = [frame_bytes CLASS_OTA rcmd rpayload] /\ Q d') ->
  (forall f, carries f rcmd rpayload -> OnResponse h f = Ret h') ->
  exists hp dp d', round y = Ret (st, mkSystem h' hp dp (s', d')) /\ waiting hp /\ waiting dp /\ Q d'.
Proof.
  intros HT1 Hout Whp Wdp Hb Hl Hrb Hrl Hdev Hhost. unfold round. rewrite HT1, Hout. cbn [concat]. rewrite app_nil_r.
  destruct (feed_frame _ _ _ Wdp Hb Hl) as (f & dp & -> & Wdp' & Hf). destruct (Hdev f Hf) as (d' & HP & Hs & HQ).
  cbn [ProcessFrames fst snd] in *. rewrite HP. cbn [mbind outcome_bind mret outcome_ret snd]. rewrite Hs. cbn [concat]. rewrite app_nil_r.
  destruct (feed_frame _ _ _ Whp Hrb Hrl) as (rf & hp & -> & Whp' & Hrf). cbn [OnResponses]. rewrite (Hhost rf Hrf). cbn [mbind outcome_bind].
  exists hp, dp, d'. done.
Qed.

Lemma ack_bytes_ok cmd st rec : in_u 8 (Z.lor cmd kAckFlag) ->
  Forall (in_u 8) (Z.lor cmd kAckFlag :: ack_bytes cmd st rec) /\ (length (ack_bytes cmd st rec) <= 256)%nat.
Proof.
  intros Hc. assert (in_u 8 (status_code st)) by (by destruct st). split; [|simpl; lia].
  constructor; [exact Hc|]. constructor; [done|]. constructor; [exact Hc|]. constructor; [done|]. apply le_bytes_range.
Qed.

(** The payload array: header, then data. *)
Lemma chunk_payload off piece :
  (length piece <= 250)%nat ->
  exists p p', copy_to (replicate 256 0) 0 (le_bytes 4 off ++ le_bytes 2 (Z.of_nat (length piece))) = Ret p /\
    copy_to p 6 piece = Ret p' /\ span p' 0 (6 + Z.of_nat (length piece)) = Ret (data_payload off piece).
Proof.
  intros Hl. assert (Hh : length (le_bytes 4 off ++ le_bytes 2 (Z.of_nat (length piece))) = 6%nat) by (by rewrite length_app, !le_bytes_length).
  eexists. eexists. split; [apply copy_to_ret; rewrite ?Hh, ?length_replicate; lia|]. rewrite Hh. change (take (Z.to_nat 0) (replicate 256 0)) with (@nil Z).
  cbn [app]. split; [apply copy_to_ret; rewrite ?length_app, ?length_drop, ?length_replicate, ?le_bytes_length; lia|].
  change (Z.to_nat 6) with 6%nat. rewrite take_app_le by (rewrite Hh; done). rewrite firstn_all2 by (rewrite Hh; done). rewrite app_assoc.
  replace (data_payload off piece) with ((le_bytes 4 off ++ le_bytes 2 (Z.of_nat (length piece))) ++ piece) by (unfold data_payload; by rewrite <- app_assoc).
  apply (span_at []). rewrite length_app, Hh. lia.
Qed.

(** ** The host between two rounds *)

Section update.
Context (fw : list Z) (addr chunk : Z).
Hypothesis fw_bytes : Forall (in_u 8) fw.
Hypothesis fw_fits : 0 <= addr /\ addr + Z.of_nat (length fw) <= FlashSize.
Hypothesis chunk_fits : 1 <= chunk <= 250.

Local Abbreviation size := (Z.of_nat (length fw)).

(** The transfer stands at [off], no chunk was refused. *)
Record transferring (off : Z) (h : HostContext) : Prop := {
  tr_send : has_send h = true;
  tr_fw : firmware (xfer h) = fw;
  tr_chunk : chunk_size (xfer h) = chunk;
  tr_off : current_offset (xfer h) = off;
  tr_nak : data_nak_received (resp h) = false
}.

Definition acknowledged (h : HostContext) : Prop := ack_received (resp h) = true /\ last_status (resp h) = 0.
Definition started (h : HostContext) : Prop := start_phase h = pDone \/ (start_phase h = pWait /\ acknowledged h).

Lemma start_passes h : has_send h = true -> started h -> SendStart h = Ret (nSuccess, set_phases h pDone (end_phase h) (verify_phase h)).
Proof.
  intros Hs [Hp | [Hp [H1 H2]]]; unfold SendStart; rewrite Hs, Hp; cbn [negb].
  - destruct h. simpl in *. by subst.
  - by rewrite H1, H2.
Qed.

Lemma chunks_pass h : transferring size h -> SendChunks h = Ret (nSuccess, h).
Proof.
  intros [H1 H2 H3 H4 H5]. unfold SendChunks, rewind. rewrite H1, H5. cbn [negb]. rewrite H2, H4, Z.leb_refl. done.
Qed.

Lemma end_passes h :
  has_send h = true -> end_phase h = pDone \/ (end_phase h = pWait /\ acknowledged h) ->
  SendEnd h = Ret (nSuccess, set_phases h (start_phase h) pDone (verify_phase h)).
Proof.
  intros Hs [Hp | [Hp [H1 H2]]]; unfold SendEnd; rewrite Hs, Hp; cbn [negb].
  - destruct h. simpl in *. by subst.
  - by rewrite H1, H2.
Qed.

(** A chunk: the next bytes of the firmware, at their offset. *)
Lemma chunk_sent off h :
  transferring off h -> 0 <= off < size ->
  let n := Z.min chunk (size - off) in
  let piece := take (Z.to_nat n) (drop (Z.to_nat off) fw) in
  exists h', SendChunks h = Ret (nRunning, h') /\ out h' = out h ++ [frame_bytes CLASS_OTA kData (data_payload off piece)] /\
    transferring (off + n) h' /\ start_phase h' = start_phase h /\ end_phase h' = end_phase h /\ verify_phase h' = verify_phase h.
Proof.
  intros [H1 H2 H3 H4 H5] Hoff n piece. pose proof flash_size_range as Hfs.
  assert (Hn : 1 <= n <= 250) by (subst n; lia).
  assert (Hpl : length piece = Z.to_nat n) by (subst piece; rewrite length_take, length_drop; lia).
  unfold SendChunks, rewind. rewrite H1, H5. cbn [negb]. rewrite H2, H3, H4. rewrite (proj2 (Z.leb_gt _ _)) by lia.
  rewrite (wrap_small 32 (Z.of_nat (length fw))), (wrap_small 32 (Z.of_nat (length fw) - off)) by (unfold in_u; lia).
  assert (Hif : (if Z.of_nat (length fw) - off <? chunk then Z.of_nat (length fw) - off else chunk) = n)
    by (subst n; destruct (Z.ltb_spec (Z.of_nat (length fw) - off) chunk); lia).
  rewrite Hif, (wrap_small 16 n) by (unfold in_u; lia). rewrite span_ret by lia. fold piece.
  assert (Hz : n = Z.of_nat (length piece)) by lia. clear Hif. clearbody piece. assert (off + n <= Z.of_nat (length fw)) by (subst n; lia). clearbody n. subst n.
  destruct (chunk_payload off piece) as (p & p' & -> & Hp' & Hsp); [lia|]. cbn [mbind outcome_bind]. rewrite Hp'. cbn [mbind outcome_bind].
  rewrite Hsp. cbn [mbind outcome_bind].
  assert (length (data_payload off piece) = (6 + length piece)%nat) by (unfold data_payload; rewrite !length_app, !le_bytes_length; lia).
  rewrite build_ok by lia. cbn [mbind outcome_bind]. rewrite (wrap_small 32 (chunk * 8)) by (unfold in_u; lia).
  rewrite (proj2 (Z.eqb_neq _ _)) by lia. eexists. split; [reflexivity|]. split_and!; try done. split; try done. cbn. 
  apply wrap_small. unfold in_u. lia.
Qed.

(** ** The rounds of an update *)

(** The device while the first [off] bytes are in place. *)
Record device_at (off : Z) (d : DeviceContext) : Prop := {
  da_flash : Z.of_nat (length (flash d)) = FlashSize;
  da_params : session_parameters fw addr d;
  da_received : received_size d = off;
  da_holds : holds (flash d) addr (take (Z.to_nat off) fw);
  da_cb : has_cb d = true
}.

Record sending (off : Z) (y : system) : Prop := {
  se_host : transferring off (y_host y);
  se_started : started (y_host y);
  se_end : end_phase (y_host y) = pSend;
  se_verify : verify_phase (y_host y) = pSend;
  se_hp : waiting (y_hp y);
  se_dp : waiting (y_dp y);
  se_state : (y_dev y).1 = DReceiving;
  se_dev : device_at off (y_dev y).2
}.

Lemma size_u32 : in_u 32 size.
Proof. pose proof flash_size_range. unfold in_u. lia. Qed.

Lemma tick_upgrade h :
  Tick upgrade h = (r ← SendStart h; match r.1 with nSuccess => Tick [SendChunks; SendEnd; SendVerify] r.2 | s => mret (s, r.2) end).
Proof. exact (tick_cons SendStart _ h). Qed.

Lemma tick_end (h : HostContext) : Tick (@nil (HostContext -> hresult)) h = Ret (nSuccess, h).
Proof. exact (tick_nil h). Qed.

(** A phase of the host: what it has after a tick. *)
Record ticked (h h1 : HostContext) (cmd : Z) (payload : list Z) (off : Z) : Prop := {
  ti_tick : Tick upgrade (clear_out h) = Ret (nRunning, h1);
  ti_out : out h1 = [frame_bytes CLASS_OTA cmd payload];
  ti_host : transferring off h1
}.

Lemma start_tick :
  fw <> [] -> exists h1, ticked (host_start (host0 fw addr chunk)).2 h1 kStart (start_payload fw addr) 0 /\
    start_phase h1 = pWait /\ end_phase h1 = pSend /\ verify_phase h1 = pSend.
Proof.
  intros Hne. unfold host_start. cbn [host0 xfer firmware has_send negb]. rewrite bool_decide_eq_false_2, orb_false_r by done. cbn [snd].
  assert (Hreq : forall h, xfer h = mkTransfer fw addr (CalcCrc16 fw) chunk 0 0 -> start_req h = start_payload fw addr).
  { intros h Hh. unfold start_req, start_payload. rewrite Hh. cbn [firmware h_start_addr h_expected_crc]. by rewrite wrap_small by apply size_u32. }
  eexists. split; [split; [rewrite tick_upgrade; unfold SendStart|..]|].
  - cbn [has_send clear_out set_xfer host0 negb start_phase]. rewrite Hreq by done. rewrite build_ok by (simpl; lia).
    cbn [mbind outcome_bind mret outcome_ret fst snd]. reflexivity.
  - reflexivity.
  - split; done.
  - done.
Qed.

Lemma start_round hp dp d :
  waiting hp -> waiting dp -> Z.of_nat (length (flash d)) = FlashSize -> has_cb d = true -> fw <> [] ->
  exists y', round (mkSystem (host_start (host0 fw addr chunk)).2 hp dp (DIdle, d)) = Ret (nRunning, y') /\ sending 0 y'.
Proof.
  intros Whp Wdp Hl Hcb Hne. destruct (start_tick Hne) as (h1 & [Ht Ho Hh] & Hp1 & Hp2 & Hp3).
  destruct (ack_bytes_ok kStart kSuccess 0) as [Hab Hal]; [done|].
  destruct (round_exchange (mkSystem (host_start (host0 fw addr chunk)).2 hp dp (DIdle, d)) nRunning h1 kStart (start_payload fw addr)
    DReceiving (Z.lor kStart kAckFlag) (ack_bytes kStart kSuccess 0) (acked h1 kSuccess 0) (device_at 0))
    as (hp' & dp' & d' & Hr & W1 & W2 & HQ); try done.
  - constructor; [done|]. unfold start_payload. rewrite !Forall_app. auto using le_bytes_range.
  - simpl. lia.
  - intros f Hf. destruct (start_step fw addr fw_bytes fw_fits (clear_sent d) f Hf Hl) as (d' & HP & Hl' & Hsp & Hr & _ & Hc & Hs).
    cbn [has_cb clear_sent sent] in Hs, Hc. rewrite Hcb in Hs, Hc. by exists d'.
  - intros f Hf. by apply (on_ack h1 f kStart kSuccess 0 (or_introl eq_refl) Hf).
  - eexists. split; [exact Hr|]. split; try done; [by destruct Hh|]. right. done.
Qed.

Lemma cleared off h : transferring off h -> transferring off (clear_out h).
Proof. by intros [? ? ? ? ?]. Qed.

Lemma chunk_tick off h :
  transferring off h -> started h -> 0 <= off < size ->
  let n := Z.min chunk (size - off) in
  exists h1, ticked h h1 kData (data_payload off (take (Z.to_nat n) (drop (Z.to_nat off) fw))) (off + n) /\
    start_phase h1 = pDone /\ end_phase h1 = end_phase h /\ verify_phase h1 = verify_phase h.
Proof.
  intros Ht Hs Hoff n. pose proof (tr_send _ _ Ht) as Hsend.
  destruct (chunk_sent off (set_phases (clear_out h) pDone (end_phase h) (verify_phase h))) as (h1 & Hc & Ho & Ht1 & Hp1 & Hp2 & Hp3); [by destruct Ht|done|].
  exists h1. split; [split|]; try done. rewrite tick_upgrade, start_passes by done. cbn [mbind outcome_bind fst snd].
  rewrite (tick_cons SendChunks). cbn [end_phase verify_phase clear_out]. rewrite Hc. done.
Qed.

Lemma chunk_round off y :
  sending off y -> 0 <= off < size ->
  exists y', round y = Ret (nRunning, y') /\ sending (off + Z.min chunk (size - off)) y'.
Proof.
  intros [Hh Hs He Hv Whp Wdp Hst [Hfl Hp Hrec Hho Hcb]] Hoff. pose proof size_u32 as Hu. unfold in_u in Hu.
  destruct (chunk_tick off _ Hh Hs Hoff) as (h1 & [Ht Ho Hh1] & Hp1 & Hp2 & Hp3).
  set (n := Z.min chunk (size - off)) in *. set (piece := take (Z.to_nat n) (drop (Z.to_nat off) fw)) in *.
  assert (Hn : 1 <= n <= 250 /\ off + n <= size) by lia.
  assert (Hpl : length piece = Z.to_nat n) by (subst piece; rewrite length_take, length_drop; lia).
  assert (Hdec : fw = take (Z.to_nat off) fw ++ piece ++ drop (Z.to_nat n) (drop (Z.to_nat off) fw)) by (subst piece; by rewrite !take_drop).
  assert (Hpre : take (Z.to_nat off) fw ++ piece = take (Z.to_nat (off + n)) fw).
  { subst piece. rewrite Z2Nat.inj_add, <- take_take_drop by lia. done. }
  assert (Hbp : Forall (in_u 8) piece) by (subst piece; by apply Forall_take, Forall_drop).
  clearbody piece n.
  destruct (ack_bytes_ok kData kSuccess (off + n)) as [Hab Hal]; [done|].
  destruct (round_exchange y nRunning h1 kData (data_payload off piece)
    DReceiving (Z.lor kData kAckFlag) (ack_bytes kData kSuccess (off + n)) (chunk_acked h1) (device_at (off + n)))
    as (hp' & dp' & d' & Hr & W1 & W2 & HQ); try done.
  - constructor; [done|]. unfold data_payload. rewrite !Forall_app. auto using le_bytes_range.
  - unfold data_payload. rewrite !length_app, !le_bytes_length. lia.
  - intros f Hf. rewrite Hst. assert (Hlp : Z.of_nat (length (take (Z.to_nat off) fw)) = off) by (rewrite length_take; lia).
    destruct (data_step fw addr fw_fits (clear_sent (y_dev y).2) f (take (Z.to_nat off) fw) piece _ Hdec)
      as (d' & HP & Hl' & Hp' & Hr' & Hh' & _ & Hc' & Hs'); try done; [lia|by rewrite Hlp|by destruct Hp|by rewrite Hlp|].
    cbn [has_cb clear_sent sent] in Hc', Hs'. rewrite Hcb in Hc', Hs'. rewrite Hpre in *.
    assert (Hlen : Z.of_nat (length (take (Z.to_nat (off + n)) fw)) = off + n) by (rewrite length_take; lia). rewrite Hlen in *.
    exists d'. done.
  - intros f Hf. apply (on_chunk_ack h1 f (off + n) Hf). unfold in_u. lia.
  - eexists. split; [exact Hr|]. split; try done; cbn [y_host]; [by destruct Hh1|by left|by rewrite <- He|by rewrite <- Hv].
Qed.

Lemma chunk_rounds off y :
  sending off y -> 0 <= off <= size ->
  exists y', rounds (Z.to_nat ((size - off + chunk - 1) / chunk)) y
    = Ret (replicate (Z.to_nat ((size - off + chunk - 1) / chunk)) nRunning, y') /\ sending size y'.
Proof.
  intros Hs Hoff. remember (Z.to_nat ((size - off + chunk - 1) / chunk)) as k eqn:Hk. revert off y Hs Hoff Hk.
  induction k as [|k IH]; intros off y Hs Hoff Hk.
  - pose proof (Z.mul_succ_div_gt (size - off + chunk - 1) chunk ltac:(lia)) as Hd.
    assert (size - off + chunk - 1 < chunk) by nia. exists y. split; [done|]. by replace size with off by lia.
  - assert (1 <= (size - off + chunk - 1) / chunk) as Hd by lia.
    pose proof (Z.mul_div_le (size - off + chunk - 1) chunk ltac:(lia)).
    destruct (chunk_round off y Hs ltac:(nia)) as (y1 & Hr & Hs1). cbn [rounds]. rewrite Hr.
    destruct (IH _ _ Hs1) as (y2 & -> & Hs2); [lia| |by exists y2].
    destruct (Z.min_spec chunk (size - off)) as [[? ->]|[? ->]].
    + replace (size - (off + chunk) + chunk - 1) with ((size - off + chunk - 1) + (-1) * chunk) by lia. rewrite Z.div_add by lia. lia.
    + replace (size - (off + (size - off)) + chunk - 1) with (chunk - 1) by lia. rewrite (Z.div_small (chunk - 1)) by lia.
      assert ((size - off + chunk - 1) / chunk < 2) by (apply Z.div_lt_upper_bound; lia). lia.
Qed.


(** END is acknowledged, then VERIFY; then every action reports success. *)
Record ended (y : system) : Prop := {
  en_host : transferring size (y_host y);
  en_start : start_phase (y_host y) = pDone;
  en_end : end_phase (y_host y) = pWait /\ acknowledged (y_host y);
  en_verify : verify_phase (y_host y) = pSend;
  en_hp : waiting (y_hp y);
  en_dp : waiting (y_dp y);
  en_state : (y_dev y).1 = DVerifying;
  en_dev : device_at size (y_dev y).2;
  en_crc : calc_crc (y_dev y).2 = CalcCrc16 fw
}.

Lemma end_tick h :
  transferring size h -> started h -> end_phase h = pSend ->
  exists h1, ticked h h1 kEnd [] size /\ start_phase h1 = pDone /\ end_phase h1 = pWait /\ verify_phase h1 = verify_phase h.
Proof.
  intros Ht Hs He. pose proof (tr_send _ _ Ht) as Hsend.
  eexists. split; [split; [rewrite tick_upgrade, start_passes by done; cbn [mbind outcome_bind fst snd]|..]|].
  - rewrite (tick_cons SendChunks), chunks_pass by (by destruct Ht). cbn [mbind outcome_bind fst snd]. rewrite (tick_cons SendEnd).
    unfold SendEnd. cbn [has_send set_phases clear_out end_phase]. rewrite Hsend, He. cbn [negb]. rewrite build_ok by (simpl; lia).
    cbn [mbind outcome_bind mret outcome_ret fst snd]. reflexivity.
  - reflexivity.
  - by destruct Ht.
  - done.
Qed.

Lemma end_round y : sending size y -> exists y', round y = Ret (nRunning, y') /\ ended y'.
Proof.
  intros [Hh Hs He Hv Whp Wdp Hst [Hfl Hp Hrec Hho Hcb]]. pose proof size_u32 as Hu. rewrite Nat2Z.id, firstn_all in Hho.
  destruct (end_tick _ Hh Hs He) as (h1 & [Ht Ho Hh1] & Hp1 & Hp2 & Hp3).
  destruct (ack_bytes_ok kEnd kSuccess size) as [Hab Hal]; [done|].
  destruct (round_exchange y nRunning h1 kEnd [] DVerifying (Z.lor kEnd kAckFlag) (ack_bytes kEnd kSuccess size) (acked h1 kSuccess size)
    (fun d => device_at size d /\ calc_crc d = CalcCrc16 fw)) as (hp' & dp' & d' & Hr & W1 & W2 & HQ1 & HQ2); try done.
  - constructor; done.
  - simpl. lia.
  - intros f Hf. rewrite Hst. destruct (end_step fw addr fw_fits (clear_sent (y_dev y).2) f Hf) as (d' & HP & Hl' & Hp' & Hr' & Hcr & Hc' & Hs');
      try done; [by destruct Hp|].
    cbn [has_cb clear_sent sent flash received_size] in *. rewrite Hcb in Hc', Hs'. exists d'. split_and!; try done. split; try done.
    + by rewrite Hl'.
    + congruence.
    + by rewrite Hl', Nat2Z.id, firstn_all.
  - intros f Hf. apply (on_ack h1 f kEnd kSuccess size (or_intror eq_refl) Hf Hu).
  - eexists. split; [exact Hr|]. split; try done; cbn [y_host]; [by destruct Hh1|by rewrite <- Hv].
Qed.

Lemma verify_tick h :
  transferring size h -> start_phase h = pDone -> end_phase h = pWait /\ acknowledged h -> verify_phase h = pSend ->
  exists h1, ticked h h1 kVerify [] size /\ start_phase h1 = pDone /\ end_phase h1 = pDone /\ verify_phase h1 = pWait.
Proof.
  intros Ht Hs He Hv. pose proof (tr_send _ _ Ht) as Hsend.
  eexists. split; [split; [rewrite tick_upgrade, start_passes by (try done; by left); cbn [mbind outcome_bind fst snd]|..]|].
  - rewrite (tick_cons SendChunks), chunks_pass by (by destruct Ht). cbn [mbind outcome_bind fst snd].
    rewrite (tick_cons SendEnd), end_passes by (try done; by right). cbn [mbind outcome_bind fst snd]. rewrite (tick_cons SendVerify).
    unfold SendVerify. cbn [has_send set_phases clear_out verify_phase]. rewrite Hsend, Hv. cbn [negb]. rewrite build_ok by (simpl; lia).
    cbn [mbind outcome_bind mret outcome_ret fst snd]. reflexivity.
  - reflexivity.
  - by destruct Ht.
  - done.
Qed.

Record finished (y : system) : Prop := {
  fi_host : transferring size (y_host y);
  fi_phases : start_phase (y_host y) = pDone /\ end_phase (y_host y) = pDone /\ verify_phase (y_host y) = pWait;
  fi_verified : verify_received (resp (y_host y)) = true /\ verify_ok (resp (y_host y)) = true;
  fi_hp : waiting (y_hp y);
  fi_dp : waiting (y_dp y);
  fi_state : (y_dev y).1 = DComplete;
  fi_flash : holds (flash (y_dev y).2) addr fw
}.

Lemma verify_round y : ended y -> exists y', round y = Ret (nRunning, y') /\ finished y'.
Proof.
  intros [Hh Hs He Hv Whp Wdp Hst [Hfl Hp Hrec Hho Hcb] Hcrc]. pose proof (CalcCrc16_in _ fw_bytes) as Hcu. rewrite Nat2Z.id, firstn_all in Hho.
  destruct (verify_tick _ Hh Hs He Hv) as (h1 & [Ht Ho Hh1] & Hp1 & Hp2 & Hp3).
  destruct (round_exchange y nRunning h1 kVerify [] DComplete (Z.lor kVerify kAckFlag)
    ([CLASS_OTA; Z.lor kVerify kAckFlag; status_code kSuccess] ++ le_bytes 2 (CalcCrc16 fw)) (verified h1 (CalcCrc16 fw))
    (fun d => holds (flash d) addr fw)) as (hp' & dp' & d' & Hr & W1 & W2 & HQ); try done.
  - constructor; done.
  - simpl. lia.
  - repeat (constructor; [done|]). apply le_bytes_range.
  - simpl. lia.
  - intros f Hf. rewrite Hst. rewrite verify_step by (done || (cbn; destruct Hp; congruence)). eexists. split; [reflexivity|].
    cbn [calc_crc clear_sent]. rewrite Hcrc. unfold responded. cbn [has_cb clear_sent sent flash]. by rewrite Hcb.
  - intros f Hf. by apply on_verify.
  - eexists. split; [exact Hr|]. split; try done. by destruct Hh1.
Qed.

Lemma final_round y :
  finished y -> exists y', round y = Ret (nSuccess, y') /\ (y_dev y').1 = DComplete /\ holds (flash (y_dev y').2) addr fw.
Proof.
  intros [Hh (Hp1 & Hp2 & Hp3) [Hv1 Hv2] Whp Wdp Hst Hfl]. pose proof (tr_send _ _ Hh) as Hsend. unfold round.
  rewrite tick_upgrade, start_passes by (try done; by left). cbn [mbind outcome_bind fst snd].
  rewrite (tick_cons SendChunks), chunks_pass by (by destruct Hh). cbn [mbind outcome_bind fst snd].
  rewrite (tick_cons SendEnd), end_passes by (try done; by left). cbn [mbind outcome_bind fst snd]. rewrite (tick_cons SendVerify).
  unfold SendVerify. cbn [has_send set_phases clear_out verify_phase resp]. rewrite Hsend, Hp3, Hv1, Hv2. cbn [negb].
  cbn [mbind outcome_bind mret outcome_ret fst snd verify_ok resp set_phases]. rewrite tick_end. cbn [out set_phases clear_out concat].
  destruct (feed_nothing _ Wdp) as (dp' & -> & _). cbn [ProcessFrames mret outcome_ret snd clear_sent sent concat].
  destruct (feed_nothing _ Whp) as (hp' & -> & _). cbn [OnResponses mbind outcome_bind mret outcome_ret]. eexists. split; [reflexivity|]. done.
Qed.

Lemma rounds_app m n y ys y' :
  rounds m y = Ret (ys, y') -> rounds (m + n) y = match rounds n y' with Fatal => Fatal | Ret (ys', y'') => Ret (ys ++ ys', y'') end.
Proof.
  revert y ys. induction m as [|m IH]; intros y ys; cbn [rounds Nat.add].
  - intros [= <- <-]. by destruct (rounds n y) as [[? ?]|].
  - destruct (round y) as [[st y1]|]; [|done]. destruct (rounds m y1) as [[sts y2]|] eqn:Hm; [|done]. intros [= <- <-].
    rewrite (IH _ _ Hm). by destruct (rounds n y2) as [[? ?]|].
Qed.
End update.

(** C26: The two sides together complete an update.  A host started with a
    non-empty firmware that fits the flash and a chunk size of at most 250, a
    fresh device, and a line that loses nothing: after one round per chunk and
    three more every round has reported Running; the next one reports Success,
    with the device in Complete and the firmware in its flash.  No array is left
    on the way. *)
Theorem update_completes (fw : list Z) (addr chunk : Z) (hp dp : PState * ParserContext) (d : DeviceContext) :
  Forall (in_u 8) fw -> fw <> [] -> 0 <= addr -> addr + Z.of_nat (length fw) <= FlashSize -> 1 <= chunk <= 250 ->
  waiting hp -> waiting dp -> Z.of_nat (length (flash d)) = FlashSize -> has_cb d = true ->
  let n := (Z.to_nat ((Z.of_nat (length fw) + chunk - 1) / chunk) + 3)%nat in
  exists y', rounds (n + 1) (mkSystem (host_start (host0 fw addr chunk)).2 hp dp (DIdle, d)) = Ret (replicate n nRunning ++ [nSuccess], y') /\
    (y_dev y').1 = DComplete /\ holds (flash (y_dev y').2) addr fw.
Proof.
  intros Hb Hne Ha Hle Hc Whp Wdp Hl Hcb n. pose proof (conj Ha Hle) as Hfit.
  destruct (start_round fw addr chunk Hb Hfit hp dp d Whp Wdp Hl Hcb Hne) as (y1 & H1 & S1).
  destruct (chunk_rounds fw addr chunk Hb Hfit Hc 0 y1 S1) as (y2 & H2 & S2); [lia|]. rewrite Z.sub_0_r in H2.
  destruct (end_round fw addr chunk Hfit y2 S2) as (y3 & H3 & S3).
  destruct (verify_round fw addr chunk Hb y3 S3) as (y4 & H4 & S4).
  destruct (final_round fw addr chunk y4 S4) as (y5 & H5 & S5 & S6).
  exists y5. split; [|done]. subst n. set (k := Z.to_nat _) in *.
  replace (k + 3 + 1)%nat with (S (k + 3))%nat by lia. cbn [rounds]. rewrite H1, (rounds_app _ _ _ _ _ H2).
  cbn [rounds]. rewrite H3, H4, H5. replace (k + 3)%nat with (S (k + 2))%nat by lia. cbn [replicate app]. rewrite replicate_add, <- app_assoc. done.
Qed.
End system.

(** ** A concrete update *)

(** A tree that ticks its children in turn. *)
Fixpoint tick_all {C : Type} (l : list (Action C)) (c : C) : outcome (NodeStatus * C) :=
  match l with
  | [] => Ret (nSuccess, c)
  | a :: rest => match a c with Ret (nSuccess, c') => tick_all rest c' | r => r end
  end.

#[local] Instance plain_tree : OspTree := {| Tick := @tick_all |}.

#[local] Instance plain_tree_ok : OspTreeOk plain_tree.
Proof. split; [done|]. intros C a rest c. cbn. by destruct (a c) as [[[] c']|]. Qed.

#[local] Existing Instance plain_machine.
#[local] Existing Instance plain_machine_ok.

Lemma update_completes_witness :
  exists y', rounds 6 (mkSystem (host_start (host0 [9; 8; 7] 4098 2)).2 (PIdle, SetCallback ctx0 true) (PIdle, SetCallback ctx0 true) device0)
    = Ret ([nRunning; nRunning; nRunning; nRunning; nRunning; nSuccess], y') /\ (y_dev y').1 = DComplete.
Proof.
  destruct (update_completes [9; 8; 7] 4098 2 (PIdle, SetCallback ctx0 true) (PIdle, SetCallback ctx0 true) device0.2)
    as (y' & H1 & H2 & _); [| | | | | | | | |exact (ex_intro _ y' (conj H1 H2))].
  - repeat (apply Forall_cons; split; [done|]). by apply Forall_nil.
  - intros [=].
  - lia.
  - simpl. lia.
  - lia.
  - split_and!; reflexivity.
  - split_and!; reflexivity.
  - exact flash_init_length.
  - reflexivity.
Defined.
