(* ===== verification/Log.v ===== *)
(** * Static logging (include/coact/diag/log.hpp)

    Fixed-length records, two bounded lanes behind one critical section, the
    writer's compact rendering.  An operation of the logger is one atomic step:
    everything but the clock reading before it and the wake signal after it runs
    inside the critical section.  The platform hooks are function pointers: which
    of them are set is part of the state, the counter a clock returns is an
    argument, a signal to the writer is part of the answer. *)

From S2P Require Import Prelude Mem.

(** ** Levels and lanes *)

Inductive LogLevel := kDebug | kInfo | kWarn | kError.
Inductive LogLane := kCritical | kNormal.

#[export] Instance LogLevel_eq_dec : EqDecision LogLevel.
Proof. solve_decision. Defined.
#[export] Instance LogLane_eq_dec : EqDecision LogLane.
Proof. solve_decision. Defined.

Definition lane_of (level : LogLevel) : LogLane :=
  if bool_decide (level = kError) then kCritical else kNormal.

Record LogRecord := mkRec {
  counter : Z; event_id : Z; source_id : Z; arg0 : Z; arg1 : Z; arg2 : Z; arg3 : Z
}.

(** ** CompactHexPolicy *)

Record LogRenderResult := mkRender { length_ : Z; handled : bool; truncated : bool }.

Definition kEncodedLength : Z := 56.
Definition kBufferSize : Z := kEncodedLength + 1.

(** "0123456789ABCDEF". *)
Definition kHex : list Z := [48; 49; 50; 51; 52; 53; 54; 55; 56; 57; 65; 66; 67; 68; 69; 70].

(** The loop of [append_hex]: [remaining] digits still to write. *)
Fixpoint append_digits (buffer : list Z) (offset value : Z) (remaining : nat) : outcome (list Z * Z) :=
  match remaining with
  | O => mret (buffer, offset)
  | S k =>
    let shift := Z.of_nat k * 4 in
    match kHex !! Z.to_nat (Z.land (Z.shiftr value shift) 0xF) with
    | None => Fatal
    | Some ch => b ← store buffer offset ch; append_digits b (u16 (offset + 1)) value k
    end
  end.

Definition append_hex (bo : list Z * Z) (value : Z) (digits : nat) : outcome (list Z * Z) :=
  '(buffer, offset) ← append_digits bo.1 bo.2 value digits;
  b ← store buffer offset 58;
  mret (b, u16 (offset + 1)).

(** [None] is a null buffer; [capacity] is the length of the array. *)
Definition render (record : LogRecord) (buffer : option (list Z)) (capacity : Z) : outcome (list Z * LogRenderResult) :=
  match buffer with
  | None => mret ([], mkRender 0 true true)
  | Some b =>
    if kBufferSize <=? capacity then
      b ← store b 0 64;
      bo ← append_hex (b, 1) (counter record) 8;
      bo ← append_hex bo (event_id record) 4;
      bo ← append_hex bo (source_id record) 4;
      bo ← append_hex bo (arg0 record) 8;
      bo ← append_hex bo (arg1 record) 8;
      bo ← append_hex bo (arg2 record) 8;
      '(b, offset) ← append_hex bo (arg3 record) 8;
      b ← store b (offset - 1) 10;
      b ← store b offset 0;
      mret (b, mkRender offset true false)
    else if 0 <? capacity then b ← store b 0 0; mret (b, mkRender 0 true true)
    else mret (b, mkRender 0 true true)
  end.

(** ** DiagRing *)

(** [None] is a slot that has never been written. *)
Record DiagRing := mkDR { dr_cells : list (option LogRecord); dr_index : Z; dr_count : Z }.

Section ring.
Context (Capacity : Z).

Definition dr_init : DiagRing := mkDR (replicate (Z.to_nat Capacity) None) 0 0.

Definition dr_try_push (v : LogRecord) (q : DiagRing) : bool * DiagRing :=
  if Capacity <=? dr_count q then (false, q)
  else (true, mkDR (<[Z.to_nat ((dr_index q + dr_count q) mod Capacity) := Some v]> (dr_cells q)) (dr_index q) (u16 (dr_count q + 1))).

Definition dr_try_pop (q : DiagRing) : bool * option LogRecord * DiagRing :=
  if dr_count q =? 0 then (false, None, q)
  else (true, mjoin (dr_cells q !! Z.to_nat (dr_index q)),
        mkDR (dr_cells q) (u16 ((dr_index q + 1) mod Capacity)) (u16 (dr_count q - 1))).

Definition dr_size (q : DiagRing) : Z := dr_count q.
Definition dr_clear (q : DiagRing) : DiagRing := mkDR (dr_cells q) 0 0.
End ring.

(** ** LogCatalog *)

Record LogDescriptor := mkDesc { d_event : Z; d_level : LogLevel; d_args : Z }.

(** The index of the entry; [None] is a catalog miss. *)
Fixpoint catalog_find (entries : list LogDescriptor) (id : Z) : option nat :=
  match entries with
  | [] => None
  | e :: es => if d_event e =? id then Some O else S <$> catalog_find es id
  end.

(** ** Logger *)

Record LogStats := mkLStats {
  accepted_critical : Z; accepted_normal : Z; dropped_critical : Z; dropped_normal : Z;
  drained_critical : Z; drained_normal : Z; critical_high_watermark : Z; normal_high_watermark : Z;
  catalog_miss : Z; formatter_truncated : Z; sink_failed : Z; wake_signal : Z; panic_count : Z
}.

Definition stats0 : LogStats := mkLStats 0 0 0 0 0 0 0 0 0 0 0 0 0.

(** The hooks of [bind]: [true] is a function pointer that is not null. *)
Record LogHooks := mkHooks { h_clock : bool; h_signal_task : bool; h_signal_isr : bool; h_save : bool; h_restore : bool }.

Record Logger := mkLogger {
  normal_ring_ : DiagRing; critical_ring_ : DiagRing; hooks_ : LogHooks; stats_ : LogStats; critical_hwm_ : Z; normal_hwm_ : Z
}.

(** The template parameters. *)
Class LogConfig := {
  NormalCapacity : Z; CriticalCapacity : Z; NormalDebugWatermarkPercent : Z; NormalInfoWatermarkPercent : Z
}.

Section logger.
Context {K : LogConfig}.

Definition kPercentFull : Z := 100.
Definition kFullWatermark : Z := kPercentFull.

(** The static assertions of the class. *)
Definition log_config_ok : bool :=
  (0 <? NormalCapacity) && (NormalCapacity <? 2 ^ 16) && (0 <? CriticalCapacity) && (CriticalCapacity <? 2 ^ 16) &&
  (0 <=? NormalDebugWatermarkPercent) && (NormalDebugWatermarkPercent <=? kPercentFull) &&
  (0 <=? NormalInfoWatermarkPercent) && (NormalInfoWatermarkPercent <=? kPercentFull).

Definition logger0 : Logger :=
  mkLogger (dr_init NormalCapacity) (dr_init CriticalCapacity) (mkHooks false false false false false) stats0 0 0.

Definition bound (l : Logger) : bool := h_save (hooks_ l).

Definition bind (l : Logger) (h : LogHooks) : bool * Logger :=
  if bound l then (false, l)
  else if negb (h_save h) || negb (h_restore h) then (false, l)
  else if negb (h_signal_task h) then (false, l)
  else (true, mkLogger (normal_ring_ l) (critical_ring_ l) h (stats_ l) (critical_hwm_ l) (normal_hwm_ l)).

(** [clock_value]: what the clock hook would return. *)
Definition read_counter (l : Logger) (clock_value : Z) : Z := if h_clock (hooks_ l) then clock_value else 0.

Definition saturating_increment (v : Z) : Z := if v <? 0xFFFFFFFF then v + 1 else v.

(** The ring and the three counters it is given by reference: accepted,
    dropped, high watermark. *)
Definition push_lane (q : DiagRing) (r : LogRecord) (watermark_percent cap accepted dropped hwm : Z)
  : bool * (DiagRing * Z * Z * Z) :=
  let threshold := u16 (Z.quot (watermark_percent * cap) kPercentFull) in
  if threshold <=? dr_size q then (false, (q, accepted, u32 (dropped + 1), hwm))
  else
    let '(ok, q') := dr_try_push cap r q in
    if ok then
      let now := dr_size q' in
      (true, (q', u32 (accepted + 1), dropped, if hwm <? now then now else hwm))
    else (false, (q', accepted, u32 (dropped + 1), hwm)).

Definition watermark_of (level : LogLevel) : Z :=
  match level with
  | kDebug => NormalDebugWatermarkPercent
  | kInfo => NormalInfoWatermarkPercent
  | _ => kFullWatermark
  end.

(** The signal sent to the writer, if any. *)
Inductive Signal := SignalTask | SignalIsr.

(** The body of every [record] and [record_from_isr]: whether the record was
    accepted, the signal, the logger. *)
Definition record_impl (level : LogLevel) (event : Z) (isr : bool) (source clock_value a0 a1 a2 a3 : Z) (l : Logger)
  : (bool * option Signal) * Logger :=
  if negb (bound l) then ((false, None), l)
  else
    let r := mkRec (read_counter l clock_value) event source a0 a1 a2 a3 in
    let s := stats_ l in
    let can_signal := if isr then h_signal_isr (hooks_ l) else h_signal_task (hooks_ l) in
    let '(accepted, l') :=
      match lane_of level with
      | kCritical =>
        let '(ok, (q, acc, dropped, hwm)) :=
          push_lane (critical_ring_ l) r kFullWatermark CriticalCapacity (accepted_critical s) (dropped_critical s) (critical_hwm_ l) in
        (ok, mkLogger (normal_ring_ l) q (hooks_ l)
               (mkLStats acc (accepted_normal s) dropped (dropped_normal s) (drained_critical s) (drained_normal s)
                  (critical_high_watermark s) (normal_high_watermark s) (catalog_miss s) (formatter_truncated s) (sink_failed s)
                  (wake_signal s) (panic_count s)) hwm (normal_hwm_ l))
      | kNormal =>
        let '(ok, (q, acc, dropped, hwm)) :=
          push_lane (normal_ring_ l) r (watermark_of level) NormalCapacity (accepted_normal s) (dropped_normal s) (normal_hwm_ l) in
        (ok, mkLogger q (critical_ring_ l) (hooks_ l)
               (mkLStats (accepted_critical s) acc (dropped_critical s) dropped (drained_critical s) (drained_normal s)
                  (critical_high_watermark s) (normal_high_watermark s) (catalog_miss s) (formatter_truncated s) (sink_failed s)
                  (wake_signal s) (panic_count s)) (critical_hwm_ l) hwm)
      end in
    let s' := stats_ l' in
    let l'' :=
      if accepted && can_signal then
        mkLogger (normal_ring_ l') (critical_ring_ l') (hooks_ l')
          (mkLStats (accepted_critical s') (accepted_normal s') (dropped_critical s') (dropped_normal s') (drained_critical s')
             (drained_normal s') (critical_high_watermark s') (normal_high_watermark s') (catalog_miss s') (formatter_truncated s')
             (sink_failed s') (saturating_increment (wake_signal s')) (panic_count s')) (critical_hwm_ l') (normal_hwm_ l')
      else l' in
    ((accepted, if accepted && can_signal then Some (if isr then SignalIsr else SignalTask) else None), l'').

(** [record] and [record_from_isr], by arity: the arguments not given are 0. *)
Definition record (level : LogLevel) (event : Z) (isr : bool) (source clock_value : Z) (args : list Z) (l : Logger)
  : (bool * option Signal) * Logger :=
  let a k := default 0 (args !! k) in
  record_impl level event isr source clock_value (a 0%nat) (a 1%nat) (a 2%nat) (a 3%nat) l.

Definition pop_from_lane (lane : LogLane) (l : Logger) : (bool * option LogRecord) * Logger :=
  if negb (bound l) then ((false, None), l)
  else
    let s := stats_ l in
    match lane with
    | kCritical =>
      let '(ok, out, q) := dr_try_pop CriticalCapacity (critical_ring_ l) in
      ((ok, out), mkLogger (normal_ring_ l) q (hooks_ l)
         (if ok then mkLStats (accepted_critical s) (accepted_normal s) (dropped_critical s) (dropped_normal s)
                       (u32 (drained_critical s + 1)) (drained_normal s) (critical_high_watermark s) (normal_high_watermark s)
                       (catalog_miss s) (formatter_truncated s) (sink_failed s) (wake_signal s) (panic_count s) else s)
         (critical_hwm_ l) (normal_hwm_ l))
    | kNormal =>
      let '(ok, out, q) := dr_try_pop NormalCapacity (normal_ring_ l) in
      ((ok, out), mkLogger q (critical_ring_ l) (hooks_ l)
         (if ok then mkLStats (accepted_critical s) (accepted_normal s) (dropped_critical s) (dropped_normal s)
                       (drained_critical s) (u32 (drained_normal s + 1)) (critical_high_watermark s) (normal_high_watermark s)
                       (catalog_miss s) (formatter_truncated s) (sink_failed s) (wake_signal s) (panic_count s) else s)
         (critical_hwm_ l) (normal_hwm_ l))
    end.

Definition log_size (lane : LogLane) (l : Logger) : Z :=
  if negb (bound l) then 0
  else match lane with kCritical => dr_size (critical_ring_ l) | kNormal => dr_size (normal_ring_ l) end.

(** [snapshot] enters the critical section without asking [bound]: before
    [bind] that is a call through a null pointer. *)
Definition snapshot (l : Logger) : outcome LogStats :=
  if negb (bound l) then Fatal
  else
    let s := stats_ l in
    Ret (mkLStats (accepted_critical s) (accepted_normal s) (dropped_critical s) (dropped_normal s) (drained_critical s)
           (drained_normal s) (critical_hwm_ l) (normal_hwm_ l) (catalog_miss s) (formatter_truncated s) (sink_failed s)
           (wake_signal s) (panic_count s)).

Definition with_stats (l : Logger) (s : LogStats) : Logger :=
  mkLogger (normal_ring_ l) (critical_ring_ l) (hooks_ l) s (critical_hwm_ l) (normal_hwm_ l).

Definition note_formatter_truncated (l : Logger) : Logger :=
  if negb (bound l) then l
  else let s := stats_ l in
    with_stats l (mkLStats (accepted_critical s) (accepted_normal s) (dropped_critical s) (dropped_normal s) (drained_critical s)
      (drained_normal s) (critical_high_watermark s) (normal_high_watermark s) (catalog_miss s) (u32 (formatter_truncated s + 1))
      (sink_failed s) (wake_signal s) (panic_count s)).

Definition note_sink_failed (l : Logger) : Logger :=
  if negb (bound l) then l
  else let s := stats_ l in
    with_stats l (mkLStats (accepted_critical s) (accepted_normal s) (dropped_critical s) (dropped_normal s) (drained_critical s)
      (drained_normal s) (critical_high_watermark s) (normal_high_watermark s) (catalog_miss s) (formatter_truncated s)
      (u32 (sink_failed s + 1)) (wake_signal s) (panic_count s)).

Definition note_catalog_miss (l : Logger) : Logger :=
  if negb (bound l) then l
  else let s := stats_ l in
    with_stats l (mkLStats (accepted_critical s) (accepted_normal s) (dropped_critical s) (dropped_normal s) (drained_critical s)
      (drained_normal s) (critical_high_watermark s) (normal_high_watermark s) (u32 (catalog_miss s + 1)) (formatter_truncated s)
      (sink_failed s) (wake_signal s) (panic_count s)).

Definition log_reset (l : Logger) : Logger :=
  if negb (bound l) then l
  else mkLogger (dr_clear (normal_ring_ l)) (dr_clear (critical_ring_ l)) (hooks_ l) stats0 0 0.
End logger.
