(* ===== verification/LogSpec.v ===== *)
(** * Correctness of the static logger (include/coact/diag/log.hpp)

    Each lane is a bounded FIFO; what was accepted is what was drained followed
    by what is queued, for every sequence of calls; the compact rendering can be
    read back. *)

From S2P Require Import Prelude Mem QueueSpec Log.

(** ** The ring holds the queue [l] *)

Definition diag_repr (C : Z) (q : DiagRing) (l : list LogRecord) : Prop :=
  0 < C < 2 ^ 16 /\ 0 <= dr_index q < C /\ dr_count q = Z.of_nat (length l) /\ Z.of_nat (length l) <= C /\
  length (dr_cells q) = Z.to_nat C /\
  forall (i : nat) x, l !! i = Some x -> dr_cells q !! pos C (dr_index q + Z.of_nat i) = Some (Some x).

Lemma diag_init C : 0 < C < 2 ^ 16 -> diag_repr C (dr_init C) [].
Proof. intros HC. split_and!; simpl; try lia; [by rewrite length_replicate|]. intros i x Hx. done. Qed.

Lemma diag_clear C q l : diag_repr C q l -> diag_repr C (dr_clear q) [].
Proof. intros (HC & _ & _ & _ & Hl & _). split_and!; simpl; try lia. intros i x Hx. done. Qed.

Lemma diag_push C q l v :
  diag_repr C q l ->
  (dr_try_push C v q).1 = (Z.of_nat (length l) <? C) /\
  diag_repr C (dr_try_push C v q).2 (if Z.of_nat (length l) <? C then l ++ [v] else l).
Proof.
  intros Hq. pose proof Hq as (HC & Hi & Hc & Hle & Hl & Hcells). unfold dr_try_push. rewrite Hc.
  destruct (Z.ltb_spec (Z.of_nat (length l)) C) as [Hlt|Hge].
  - rewrite (proj2 (Z.leb_gt _ _)) by lia. split; [done|]. cbn [snd]. split_and!; cbn [dr_index dr_count dr_cells]; try lia.
    + rewrite wrap_small, length_app by (unfold in_u; lia). simpl. lia.
    + rewrite length_app. simpl. lia.
    + by rewrite length_insert.
    + intros i x Hx. fold (pos C (dr_index q + Z.of_nat (length l))). apply lookup_app_Some in Hx as [Hx|[Hge Hx]].
      * pose proof (lookup_lt_Some _ _ _ Hx). rewrite list_lookup_insert_ne; [by apply Hcells|].
        intros E. apply pos_inj in E; lia.
      * destruct (i - length l)%nat as [|k] eqn:Hk; [|done]. injection Hx as ->. replace i with (length l) by lia.
        apply list_lookup_insert_eq. rewrite Hl. apply pos_lt. lia.
  - by rewrite (proj2 (Z.leb_le _ _)) by lia.
Qed.

Lemma diag_pop C q l :
  diag_repr C q l ->
  exists q', dr_try_pop C q = (negb (bool_decide (l = [])), head l, q') /\ diag_repr C q' (tail l).
Proof.
  intros Hq. pose proof Hq as (HC & Hi & Hc & Hle & Hl & Hcells). unfold dr_try_pop. rewrite Hc.
  destruct l as [|x l]; [by exists q|]. cbn [length] in *. rewrite (proj2 (Z.eqb_neq _ _)) by lia. cbn [head tail].
  pose proof (Hcells 0%nat x eq_refl) as H0. rewrite Z.add_0_r in H0. unfold pos in H0. rewrite Z.mod_small in H0 by lia. rewrite H0.
  eexists. split; [done|]. pose proof (Z.mod_pos_bound (dr_index q + 1) C ltac:(lia)) as Hm.
  split_and!; cbn [dr_index dr_count dr_cells]; rewrite ?wrap_small by (unfold in_u; lia); try lia.
  intros i y Hy. rewrite <- (Hcells (S i) y Hy). unfold pos. rewrite Zplus_mod_idemp_l. do 2 f_equal. f_equal. lia.
Qed.

(** ** One lane of the logger *)

Section logger.
Context {K : LogConfig} (HK : log_config_ok = true).

Definition cap (lane : LogLane) : Z := match lane with kCritical => CriticalCapacity | kNormal => NormalCapacity end.
Definition ring (lane : LogLane) (l : Logger) : DiagRing :=
  match lane with kCritical => critical_ring_ l | kNormal => normal_ring_ l end.
Definition accepted (lane : LogLane) (l : Logger) : Z :=
  match lane with kCritical => accepted_critical (stats_ l) | kNormal => accepted_normal (stats_ l) end.
Definition dropped (lane : LogLane) (l : Logger) : Z :=
  match lane with kCritical => dropped_critical (stats_ l) | kNormal => dropped_normal (stats_ l) end.
Definition drained (lane : LogLane) (l : Logger) : Z :=
  match lane with kCritical => drained_critical (stats_ l) | kNormal => drained_normal (stats_ l) end.
Definition hwm (lane : LogLane) (l : Logger) : Z :=
  match lane with kCritical => critical_hwm_ l | kNormal => normal_hwm_ l end.

(** The lane is the same in both. *)
Definition same_lane (lane : LogLane) (l l' : Logger) : Prop :=
  ring lane l' = ring lane l /\ accepted lane l' = accepted lane l /\ dropped lane l' = dropped lane l /\
  drained lane l' = drained lane l /\ hwm lane l' = hwm lane l.

(** The fill level from which a level is refused. *)
Definition threshold (level : LogLevel) : Z := watermark_of level * cap (lane_of level) / 100.

Lemma threshold_range level : 0 <= threshold level <= cap (lane_of level).
Proof using HK.
  unfold log_config_ok, kPercentFull in HK. split_bools. unfold threshold, cap, watermark_of, kFullWatermark, kPercentFull.
  destruct level; unfold lane_of; simpl; (split; [apply Z.div_pos; nia|apply Z.div_le_upper_bound; nia]).
Qed.

Lemma cap_range lane : 0 < cap lane < 2 ^ 16.
Proof using HK. unfold log_config_ok in HK. split_bools. destruct lane; simpl; lia. Qed.

Definition the_record (l : Logger) (event source clock_value a0 a1 a2 a3 : Z) : LogRecord :=
  mkRec (read_counter l clock_value) event source a0 a1 a2 a3.

Lemma push_lane_spec C q l r pct acc dr hw :
  diag_repr C q l -> 0 <= pct <= 100 ->
  let ok := Z.of_nat (length l) <? pct * C / 100 in
  exists q', push_lane q r pct C acc dr hw =
      (ok, (q', if ok then u32 (acc + 1) else acc, if ok then dr else u32 (dr + 1),
            if ok then Z.max hw (Z.of_nat (length l) + 1) else hw)) /\
    diag_repr C q' (if ok then l ++ [r] else l).
Proof.
  intros Hq Hp. pose proof Hq as (HC & _ & Hc & Hle & _). cbv zeta. unfold push_lane, kPercentFull, dr_size.
  rewrite Z.quot_div_nonneg by nia. assert (Hth : 0 <= pct * C / 100 <= C) by (split; [apply Z.div_pos|apply Z.div_le_upper_bound]; nia).
  rewrite wrap_small by (unfold in_u; lia). rewrite Hc.
  destruct (Z.ltb_spec (Z.of_nat (length l)) (pct * C / 100)) as [Hlt|Hge].
  - rewrite (proj2 (Z.leb_gt _ _)) by lia. destruct (diag_push C q l r Hq) as [H1 H2].
    destruct (dr_try_push C r q) as [ok q']. cbn [fst snd] in *. rewrite (proj2 (Z.ltb_lt _ _)) in H1, H2 by lia. subst ok.
    exists q'. split; [|done]. pose proof H2 as (_ & _ & Hc' & _). rewrite Hc', length_app, Nat2Z.inj_add. cbn [length].
    do 3 f_equal. change (Z.of_nat 1) with 1. case_match eqn:Hm; split_bools; lia.
  - rewrite (proj2 (Z.leb_le _ _)) by lia. by exists q.
Qed.

(** What recording does to the lanes. *)
Lemma record_effect level event isr source cv a0 a1 a2 a3 l q :
  bound l = true -> diag_repr (cap (lane_of level)) (ring (lane_of level) l) q ->
  let lane := lane_of level in
  let ok := Z.of_nat (length q) <? threshold level in
  let r := the_record l event source cv a0 a1 a2 a3 in
  let a := record_impl level event isr source cv a0 a1 a2 a3 l in
  a.1.1 = ok /\ hooks_ a.2 = hooks_ l /\
  diag_repr (cap lane) (ring lane a.2) (if ok then q ++ [r] else q) /\
  accepted lane a.2 = (if ok then u32 (accepted lane l + 1) else accepted lane l) /\
  dropped lane a.2 = (if ok then dropped lane l else u32 (dropped lane l + 1)) /\
  drained lane a.2 = drained lane l /\
  hwm lane a.2 = (if ok then Z.max (hwm lane l) (Z.of_nat (length q) + 1) else hwm lane l) /\
  forall other, other <> lane -> same_lane other l a.2.
Proof using HK.
  intros Hb Hq. cbv zeta. unfold record_impl. rewrite Hb. cbn [negb]. unfold threshold.
  assert (Hw : 0 <= watermark_of level <= 100).
  { unfold log_config_ok, kPercentFull in HK. split_bools. destruct level; simpl; unfold kFullWatermark, kPercentFull; lia. }
  fold (the_record l event source cv a0 a1 a2 a3). set (r := the_record l event source cv a0 a1 a2 a3).
  destruct (lane_of level) eqn:Hlane; cbn [cap ring] in *.
  - assert (watermark_of level = kFullWatermark) as Hfull by (by destruct level). rewrite Hfull in *.
    destruct (push_lane_spec _ _ _ r kFullWatermark (accepted_critical (stats_ l)) (dropped_critical (stats_ l)) (critical_hwm_ l) Hq Hw)
      as (q' & -> & Hq').
    destruct (_ <? _); cbn; repeat case_match; cbn; split_and!; try done; intros [] ?; try done; split_and!; done.
  - destruct (push_lane_spec _ _ _ r (watermark_of level) (accepted_normal (stats_ l)) (dropped_normal (stats_ l)) (normal_hwm_ l) Hq Hw)
      as (q' & -> & Hq').
    destruct (_ <? _); cbn; repeat case_match; cbn; split_and!; try done; intros [] ?; try done; split_and!; done.
Qed.

Lemma pop_effect lane l q :
  bound l = true -> diag_repr (cap lane) (ring lane l) q ->
  let a := pop_from_lane lane l in
  a.1 = (negb (bool_decide (q = [])), head q) /\ hooks_ a.2 = hooks_ l /\ diag_repr (cap lane) (ring lane a.2) (tail q) /\
  accepted lane a.2 = accepted lane l /\ dropped lane a.2 = dropped lane l /\
  drained lane a.2 = (if bool_decide (q = []) then drained lane l else u32 (drained lane l + 1)) /\
  hwm lane a.2 = hwm lane l /\ forall other, other <> lane -> same_lane other l a.2.
Proof.
  intros Hb Hq. cbv zeta. unfold pop_from_lane. rewrite Hb. cbn [negb].
  destruct lane; cbn [cap ring] in *; destruct (diag_pop _ _ _ Hq) as (q' & -> & Hq'); cbn;
    split_and!; try done; try (by case_bool_decide); intros [] ?; try done; split_and!; try done; by case_bool_decide.
Qed.

(** ** Any sequence of calls *)

Inductive lop :=
| LRecord (level : LogLevel) (event : Z) (isr : bool) (source clock_value a0 a1 a2 a3 : Z)
| LPop (lane : LogLane)
| LTruncated | LSinkFailed | LMiss
| LReset.

(** What a lane has been given since the last reset, as the caller sees it. *)
Record history := mkHist { h_accepted : list LogRecord; h_popped : list LogRecord; h_refused : list LogRecord }.
Definition history0 : history := mkHist [] [] [].

Definition on_lane (lane lane' : LogLane) (f : history -> history) (h : history) : history :=
  if bool_decide (lane = lane') then f h else h.

Definition log_step (o : lop) (x : Logger * (LogLane -> history)) : Logger * (LogLane -> history) :=
  let '(l, h) := x in
  match o with
  | LRecord level event isr source cv a0 a1 a2 a3 =>
    let a := record_impl level event isr source cv a0 a1 a2 a3 l in
    let r := the_record l event source cv a0 a1 a2 a3 in
    (a.2, fun lane => on_lane lane (lane_of level) (fun g =>
       if a.1.1 then mkHist (h_accepted g ++ [r]) (h_popped g) (h_refused g)
       else mkHist (h_accepted g) (h_popped g) (h_refused g ++ [r])) (h lane))
  | LPop lane =>
    let a := pop_from_lane lane l in
    (a.2, fun lane' => on_lane lane' lane (fun g =>
       match a.1 with (true, Some r) => mkHist (h_accepted g) (h_popped g ++ [r]) (h_refused g) | _ => g end) (h lane'))
  | LTruncated => (note_formatter_truncated l, h)
  | LSinkFailed => (note_sink_failed l, h)
  | LMiss => (note_catalog_miss l, h)
  | LReset => (log_reset l, fun _ => history0)
  end.

Definition lane_inv (lane : LogLane) (l : Logger) (h : history) : Prop :=
  exists q, diag_repr (cap lane) (ring lane l) q /\ h_accepted h = h_popped h ++ q /\
    accepted lane l = u32 (Z.of_nat (length (h_accepted h))) /\ drained lane l = u32 (Z.of_nat (length (h_popped h))) /\
    dropped lane l = u32 (Z.of_nat (length (h_refused h))) /\ Z.of_nat (length q) <= hwm lane l <= cap lane.

Lemma lane_inv_same lane l l' h : same_lane lane l l' -> lane_inv lane l h -> lane_inv lane l' h.
Proof. intros (E1 & E2 & E3 & E4 & E5) (q & H). exists q. by rewrite E1, E2, E3, E4, E5. Qed.

Lemma count_next {A} (l : list A) x : u32 (u32 (Z.of_nat (length l)) + 1) = u32 (Z.of_nat (length (l ++ [x]))).
Proof. rewrite wrap_add_wrap_l, length_app by lia. f_equal. simpl. lia. Qed.

Lemma record_inv level event isr source cv a0 a1 a2 a3 l h lane :
  bound l = true -> (forall lane, lane_inv lane l (h lane)) ->
  let x := log_step (LRecord level event isr source cv a0 a1 a2 a3) (l, h) in
  bound x.1 = true /\ lane_inv lane x.1 (x.2 lane).
Proof using HK.
  intros Hb Hi. cbn [log_step fst snd]. destruct (Hi (lane_of level)) as (q & Hq & Hacc & Ha & Hd & Hr & Hh).
  destruct (record_effect level event isr source cv a0 a1 a2 a3 l q Hb Hq) as (Ho & Hhk & Hq' & Ha' & Hdr' & Hd' & Hh' & Hother).
  split; [unfold bound; by rewrite Hhk|]. unfold on_lane. case_bool_decide as Hl; [subst lane|by eapply lane_inv_same; auto].
  rewrite Ho. pose proof (threshold_range level) as Ht.
  destruct (Z.ltb_spec (Z.of_nat (length q)) (threshold level)) as [Hlt|Hge]; eexists; (split; [exact Hq'|]);
    cbn [h_accepted h_popped h_refused]; rewrite Ha', Hdr', Hd', Hh', Ha, Hd, Hr.
  - rewrite (count_next _ (the_record l event source cv a0 a1 a2 a3)). rewrite Hacc, <- app_assoc. split_and!; try done; rewrite ?length_app; simpl; first [lia|f_equal; lia].
  - rewrite (count_next _ (the_record l event source cv a0 a1 a2 a3)). split_and!; try done; lia.
Qed.

Lemma pop_inv lane l h lane' :
  bound l = true -> (forall lane, lane_inv lane l (h lane)) ->
  let x := log_step (LPop lane) (l, h) in bound x.1 = true /\ lane_inv lane' x.1 (x.2 lane').
Proof.
  intros Hb Hi. cbn [log_step fst snd]. destruct (Hi lane) as (q & Hq & Hacc & Ha & Hd & Hr & Hh).
  destruct (pop_effect lane l q Hb Hq) as (Ho & Hhk & Hq' & Ha' & Hdr' & Hd' & Hh' & Hother).
  split; [unfold bound; by rewrite Hhk|]. unfold on_lane. destruct (bool_decide_reflect (lane' = lane)) as [Hl|Hl]; [subst lane'|by eapply lane_inv_same; auto].
  rewrite Ho. destruct q as [|r q]; eexists; (split; [exact Hq'|]); rewrite Ha', Hdr', Hh', Hd', Ha, Hd, Hr; [done|].
  cbn [head negb bool_decide]. rewrite bool_decide_false by done. cbn [negb h_accepted h_popped h_refused tail].
  rewrite (count_next _ r), Hacc, <- app_assoc. simpl in Hh. split_and!; try done; lia.
Qed.

Lemma note_same o l h lane :
  o = LTruncated \/ o = LSinkFailed \/ o = LMiss -> bound l = true ->
  bound (log_step o (l, h)).1 = true /\ same_lane lane l (log_step o (l, h)).1 /\ (log_step o (l, h)).2 = h.
Proof.
  intros Ho Hb. destruct Ho as [-> | [-> | ->]]; cbn [log_step fst snd];
    unfold note_formatter_truncated, note_sink_failed, note_catalog_miss; rewrite Hb; by destruct lane.
Qed.

Lemma note_inv o l h :
  o = LTruncated \/ o = LSinkFailed \/ o = LMiss -> bound l = true -> (forall lane, lane_inv lane l (h lane)) ->
  bound (log_step o (l, h)).1 = true /\ forall lane, lane_inv lane (log_step o (l, h)).1 ((log_step o (l, h)).2 lane).
Proof.
  intros Ho Hb Hi. split; [by apply (note_same o l h kNormal)|]. intros lane. destruct (note_same o l h lane Ho Hb) as (_ & Hs & ->).
  by eapply lane_inv_same.
Qed.

Lemma log_step_inv o l h :
  bound l = true -> (forall lane, lane_inv lane l (h lane)) ->
  let x := log_step o (l, h) in bound x.1 = true /\ forall lane, lane_inv lane x.1 (x.2 lane).
Proof using HK.
  intros Hb Hi. cbv zeta. destruct o as [level event isr source cv a0 a1 a2 a3|lane| | | |].
  - split; [by apply (record_inv _ _ _ _ _ _ _ _ _ _ _ kNormal)|]. intros lane. by apply record_inv.
  - split; [by apply (pop_inv _ _ _ kNormal)|]. intros lane'. by apply pop_inv.
  - by apply note_inv; auto.
  - by apply note_inv; auto.
  - by apply note_inv; auto.
  - cbn [log_step fst snd]. unfold log_reset. rewrite Hb. cbn [negb]. split; [done|]. intros lane. destruct (Hi lane) as (q & Hq & _).
    exists []. pose proof (cap_range lane). split_and!; [destruct lane; by eapply diag_clear|..]; destruct lane; simpl in *; done || lia.
Qed.

Lemma log_run_inv ops l h :
  bound l = true -> (forall lane, lane_inv lane l (h lane)) ->
  let x := foldl (fun x o => log_step o x) (l, h) ops in forall lane, lane_inv lane x.1 (x.2 lane).
Proof using HK.
  revert l h. induction ops as [|o ops IH]; intros l h Hb Hi; [done|]. cbn [foldl].
  destruct (log_step o (l, h)) as [l' h'] eqn:Hx. pose proof (log_step_inv o l h Hb Hi) as [Hb' Hi']. rewrite Hx in Hb', Hi'. by apply IH.
Qed.
End logger.

(** The lanes conserve.  Bind a logger and run any sequence of records of any
    level, from tasks and interrupts, pops, notes and resets.  In each lane the
    records accepted since the last reset are those drained, in order, followed by
    those still queued: nothing accepted is lost, altered or reordered.  The
    counters are the exact numbers of records accepted, drained and refused modulo
    2^32, and the high watermark lies between the fill level and the capacity. *)
Theorem log_lanes_conserve {K : LogConfig} (hooks : LogHooks) (ops : list lop) (lane : LogLane) :
  log_config_ok = true -> h_save hooks = true -> h_restore hooks = true -> h_signal_task hooks = true ->
  let x := foldl (fun x o => log_step o x) ((bind logger0 hooks).2, fun _ => history0) ops in
  lane_inv lane x.1 (x.2 lane).
Proof.
  intros HK Hs Hr Hw. apply log_run_inv; [done| |].
  - unfold bind. simpl. by rewrite Hs, Hr, Hw.
  - intros ln. pose proof (cap_range HK ln). exists []. unfold bind. simpl. rewrite Hs, Hr, Hw.
    destruct ln; simpl in *; split_and!; try done; try lia; by apply diag_init.
Qed.

(** Four and two records, refused from half and from three quarters on. *)
#[local] Instance small_logger : LogConfig := Build_LogConfig 4 2 50 75.

Definition demo_ops : list lop :=
  [LRecord kError 7 false 1 100 0 0 0 0; LRecord kError 8 true 1 101 0 0 0 0; LPop kCritical].

Definition demo_run : Logger * (LogLane -> history) :=
  foldl (fun x o => log_step o x) ((bind logger0 (mkHooks true true true true true)).2, fun _ => history0) demo_ops.

Lemma log_lanes_conserve_witness :
  demo_run.2 kCritical = mkHist [mkRec 100 7 1 0 0 0 0; mkRec 101 8 1 0 0 0 0] [mkRec 100 7 1 0 0 0 0] [] /\
  lane_inv kCritical demo_run.1 (demo_run.2 kCritical).
Proof.
  split; [vm_compute; reflexivity|].
  exact (log_lanes_conserve (mkHooks true true true true true) demo_ops kCritical eq_refl eq_refl eq_refl eq_refl).
Defined.

(** ** Rendering *)

Definition hex_char (d : Z) : Z := if d <? 10 then 48 + d else 55 + d.

Fixpoint hex (n : nat) (v : Z) : list Z :=
  match n with O => [] | S k => hex_char (Z.land (Z.shiftr v (Z.of_nat k * 4)) 0xF) :: hex k v end.

Lemma hex_length n v : length (hex n v) = n.
Proof. induction n; simpl; by rewrite ?IHn. Qed.

Lemma nibble_range x : 0 <= Z.land x 0xF < 16.
Proof. change 15 with (Z.ones 4). rewrite Z.land_ones by lia. apply Z.mod_pos_bound. lia. Qed.

Lemma kHex_lookup d : 0 <= d < 16 -> kHex !! Z.to_nat d = Some (hex_char d).
Proof.
  intros Hd. assert (Hin : forall d, (d < 16)%nat -> kHex !! d = Some (hex_char (Z.of_nat d))).
  { intros k Hk. do 16 (destruct k as [|k]; [done|]). lia. }
  rewrite Hin by lia. by rewrite Z2Nat.id by lia.
Qed.

Lemma append_digits_spec n v pre old post :
  length old = n -> Z.of_nat (length pre + n) < 2 ^ 16 ->
  append_digits (pre ++ old ++ post) (Z.of_nat (length pre)) v n = Ret (pre ++ hex n v ++ post, Z.of_nat (length pre + n)).
Proof.
  revert pre old. induction n as [|n IH]; intros pre old Ho Hb; cbn [append_digits hex].
  { destruct old; [|done]. by rewrite Nat.add_0_r. }
  destruct old as [|o old]; [done|]. simpl in Ho. rewrite kHex_lookup by apply nibble_range.
  pose proof (store_at pre o (old ++ post) (hex_char (Z.land (Z.shiftr v (Z.of_nat n * 4)) 15))) as Hst.
  cbn [app] in *. rewrite Hst. cbn [mbind outcome_bind].
  rewrite wrap_small by (unfold in_u; lia). specialize (IH (pre ++ [hex_char (Z.land (Z.shiftr v (Z.of_nat n * 4)) 15)]) old).
  rewrite length_app, <- !app_assoc in IH. cbn [length app] in IH.
  replace (Z.of_nat (length pre) + 1) with (Z.of_nat (length pre + 1)) by lia. rewrite IH by lia. do 2 f_equal. lia.
Qed.

Lemma append_hex_spec n v pre old post :
  length old = S n -> Z.of_nat (length pre + S n) < 2 ^ 16 ->
  append_hex (pre ++ old ++ post, Z.of_nat (length pre)) v n =
    Ret (pre ++ (hex n v ++ [58]) ++ post, Z.of_nat (length (pre ++ hex n v ++ [58]))).
Proof.
  intros Ho Hb. destruct (split_length n old) as (o1 & o2 & -> & Ho1); [lia|]. rewrite length_app in Ho.
  destruct o2 as [|x [|]]; simpl in Ho; try lia. unfold append_hex. cbn [fst snd]. rewrite <- !app_assoc.
  rewrite append_digits_spec by lia. cbn [mbind outcome_bind app].
  pose proof (store_at (pre ++ hex n v) x post 58) as Hst. rewrite length_app, hex_length, <- app_assoc in Hst. rewrite Hst.
  cbn [mbind outcome_bind]. rewrite wrap_small by (unfold in_u; lia). unfold mret, outcome_ret.
  rewrite <- !app_assoc, !length_app, hex_length. cbn [length]. do 2 f_equal. lia.
Qed.

Definition fields (r : LogRecord) : list Z :=
  [64] ++ (hex 8 (counter r) ++ [58]) ++ (hex 4 (event_id r) ++ [58]) ++ (hex 4 (source_id r) ++ [58]) ++
  (hex 8 (arg0 r) ++ [58]) ++ (hex 8 (arg1 r) ++ [58]) ++ (hex 8 (arg2 r) ++ [58]) ++ hex 8 (arg3 r).

Definition line (r : LogRecord) : list Z := fields r ++ [10].

Lemma line_length r : length (line r) = 56%nat.
Proof. unfold line, fields. rewrite !length_app, !hex_length. done. Qed.

(** The same, chained: [pre] is written, [rest] is still free. *)
Lemma append_hex_next n v pre rest :
  (S n <= length rest)%nat -> Z.of_nat (length pre + S n) < 2 ^ 16 ->
  append_hex (pre ++ rest, Z.of_nat (length pre)) v n =
    Ret ((pre ++ (hex n v ++ [58])) ++ drop (S n) rest, Z.of_nat (length (pre ++ (hex n v ++ [58])))).
Proof.
  intros Hr Hb. rewrite <- (take_drop (S n) rest) at 1. rewrite append_hex_spec; [by rewrite <- !app_assoc|rewrite length_take; lia|done].
Qed.

Lemma render_line r b cap_ :
  Z.of_nat (length b) = cap_ -> 57 <= cap_ < 2 ^ 16 ->
  render r (Some b) cap_ = Ret (line r ++ [0] ++ drop 57 b, mkRender 56 true false).
Proof.
  intros Hl Hc. unfold render, kBufferSize, kEncodedLength. rewrite (proj2 (Z.leb_le _ _)) by lia.
  destruct b as [|x b]; [simpl in Hl; lia|]. cbn [length] in Hl. rewrite (store_at [] x b 64 : store (x :: b) 0 64 = _). cbn [app mbind outcome_bind].
  change (64 :: b, 1) with ([64] ++ b, Z.of_nat (length [64])).
  do 7 (rewrite append_hex_next; [cbn [mbind outcome_bind]; rewrite ?drop_drop
                                 |rewrite ?length_drop; lia|rewrite ?length_app, ?hex_length; cbn [length]; lia]).
  match goal with |- context [store (?p ++ ?d) _ 10] => set (P := p); set (rest := d) end.
  assert (HP : P = fields r ++ [58]) by (unfold P, fields; by rewrite <- !app_assoc).
  assert (Hf : length (fields r) = 55%nat) by (pose proof (line_length r) as H; unfold line in H; rewrite length_app in H; cbn [length] in H; lia).
  assert (Hlp : Z.of_nat (length P) = 56) by (rewrite HP, length_app, Hf; done).
  destruct rest as [|y rest'] eqn:Hrest.
  { apply (f_equal length) in Hrest. unfold rest in Hrest. rewrite length_drop in Hrest. cbn [length Nat.add] in Hrest. lia. }
  rewrite Hlp, HP, <- app_assoc. cbn [app]. replace (56 - 1) with (Z.of_nat (length (fields r))) by (rewrite Hf; done).
  rewrite store_at. cbn [mbind outcome_bind].
  pose proof (store_at (line r) y rest' 0) as Hst. rewrite line_length in Hst. unfold line in Hst. rewrite <- app_assoc in Hst.
  cbn [app] in Hst. change (Z.of_nat 56) with 56 in Hst. rewrite Hst. cbn [mbind outcome_bind].
  unfold line, mret, outcome_ret. change (drop 57 (x :: b)) with (drop 56 b). do 4 f_equal.
  replace (drop 56 b) with (drop 1 (drop 55 b)) by (by rewrite drop_drop). change (drop 55 b) with rest. by rewrite Hrest.
Qed.

(** ** Reading a line back *)

Definition hex_value (c : Z) : Z := if c <? 58 then c - 48 else c - 55.
Definition unhex (cs : list Z) : Z := foldl (fun acc c => acc * 16 + hex_value c) 0 cs.

Definition read_line (l : list Z) : LogRecord :=
  let field i n := unhex (take n (drop i l)) in
  (mkRec (field 1 8) (field 10 4) (field 15 4) (field 20 8) (field 29 8) (field 38 8) (field 47 8))%nat.

Lemma hex_value_char d : 0 <= d < 16 -> hex_value (hex_char d) = d.
Proof. intros. unfold hex_value, hex_char. destruct (Z.ltb_spec d 10); case_match eqn:Hm; split_bools; lia. Qed.

Lemma unhex_fold n v acc : 0 <= v ->
  foldl (fun acc c => acc * 16 + hex_value c) acc (hex n v) = acc * 16 ^ Z.of_nat n + v mod 16 ^ Z.of_nat n.
Proof.
  intros Hv. revert acc. induction n as [|n IH]; intros acc; [simpl; rewrite Z.mod_1_r; lia|]. cbn [hex foldl].
  rewrite IH, hex_value_char by apply nibble_range. change 15 with (Z.ones 4). rewrite Z.land_ones, Z.shiftr_div_pow2 by lia.
  rewrite Nat2Z.inj_succ, Z.pow_succ_r, (Z.mul_comm 16 (16 ^ _)) by lia.
  rewrite (Z.rem_mul_r v (16 ^ Z.of_nat n) 16) by lia.
  replace (2 ^ (Z.of_nat n * 4)) with (16 ^ Z.of_nat n) by (rewrite (Z.mul_comm _ 4), Z.pow_mul_r by lia; done).
  change (2 ^ 4) with 16. ring.
Qed.

Lemma unhex_hex n v : 0 <= v < 16 ^ Z.of_nat n -> unhex (hex n v) = v.
Proof. intros Hv. unfold unhex. rewrite unhex_fold, Z.mul_0_l, Z.add_0_l by lia. by apply Z.mod_small. Qed.

Definition record_ok (r : LogRecord) : Prop :=
  in_u 32 (counter r) /\ in_u 16 (event_id r) /\ in_u 16 (source_id r) /\ in_u 32 (arg0 r) /\ in_u 32 (arg1 r) /\
  in_u 32 (arg2 r) /\ in_u 32 (arg3 r).

Lemma read_line_line r : record_ok r -> read_line (line r) = r.
Proof.
  intros (H0 & H1 & H2 & H3 & H4 & H5 & H6). unfold in_u in *.
  transitivity (mkRec (unhex (hex 8 (counter r))) (unhex (hex 4 (event_id r))) (unhex (hex 4 (source_id r))) (unhex (hex 8 (arg0 r)))
    (unhex (hex 8 (arg1 r))) (unhex (hex 8 (arg2 r))) (unhex (hex 8 (arg3 r)))); [reflexivity|].
  rewrite !unhex_hex by (simpl Z.of_nat; lia). by destruct r.
Qed.

(** The compact rendering loses nothing.  Into a buffer of at least 57 bytes
    a record is written as one line of 56 characters and a terminator, nothing
    behind them is touched, and reading the seven fields back gives the record.
    A smaller buffer is left with an empty string and the result says truncated. *)
Theorem render_round_trip (r : LogRecord) (b : list Z) :
  record_ok r -> 0 < Z.of_nat (length b) < 2 ^ 16 ->
  exists b' res, render r (Some b) (Z.of_nat (length b)) = Ret (b', res) /\ length b' = length b /\
    if 57 <=? Z.of_nat (length b)
    then res = mkRender 56 true false /\ read_line (take 56 b') = r /\ b' !! 56%nat = Some 0 /\ drop 57 b' = drop 57 b
    else res = mkRender 0 true true /\ head b' = Some 0 /\ tail b' = tail b.
Proof.
  intros Hr Hb. destruct (Z.leb_spec 57 (Z.of_nat (length b))) as [Hge|Hlt].
  - rewrite render_line by lia. eexists _, _. split; [done|].
    pose proof (line_length r) as Hl. split; [|split_and!; [done|..]].
    + rewrite !length_app, length_drop, Hl. cbn [length]. lia.
    + rewrite take_app_le, firstn_all2 by lia. by apply read_line_line.
    + rewrite lookup_app_r, Hl by lia. done.
    + rewrite app_assoc, drop_app_ge by (rewrite length_app, Hl; cbn [length]; lia).
      rewrite length_app, Hl. cbn [length]. by rewrite drop_0.
  - unfold render, kBufferSize, kEncodedLength. rewrite (proj2 (Z.leb_gt _ _)), (proj2 (Z.ltb_lt _ _)) by lia.
    destruct b as [|x b]; [simpl in Hb; lia|]. rewrite (store_at [] x b 0 : store (x :: b) 0 0 = _). by eexists _, _.
Qed.

Lemma render_round_trip_witness : exists b' res,
  render (mkRec 0xDEADBEEF 0x12 0xFFFF 1 2 3 4) (Some (replicate 64 7)) 64 = Ret (b', res) /\
  read_line (take 56 b') = mkRec 0xDEADBEEF 0x12 0xFFFF 1 2 3 4.
Proof.
  destruct (render_round_trip (mkRec 0xDEADBEEF 0x12 0xFFFF 1 2 3 4) (replicate 64 7)) as (b' & res & H1 & _ & _ & H2 & _).
  - unfold record_ok, in_u. simpl. lia.
  - simpl. lia.
  - exists b', res. split; [exact H1|exact H2].
Defined.
