(* ===== verification/Groups.v ===== *)
(** * Task handles and task groups (include/coact/coro/task.hpp, combinators.hpp)

    The move-only handles over a task registry, and the fixed-capacity groups
    behind [when_all], [when_any] and [when_some].  A group polls the registry of
    its inputs and completes one aggregate task in the registry of groups; the two
    are separate arguments.  [group_refines_votes] shows that a group is a table
    of votes, one per input, that is cast once and settles once; [documented] is
    the first-error policy of the header comment, which the code does not follow. *)

From S2P Require Import Prelude Vocab TaskRegistry.

(** ** Handles *)

(** [Task], [Promise] and [AwaitableRef] are a registry pointer and an id;
    [h_bound] says that the pointer is not null. *)
Record handle := mkHandle { h_bound : bool; h_id : Z }.

Definition null_handle : handle := mkHandle false kInvalidTaskId.

(** The move constructor: the new handle and what is left of the old one. *)
Definition handle_move (h : handle) : handle * handle := (h, null_handle).

Definition h_valid (h : handle) : bool := h_bound h && negb (h_id h =? 0).

Section handles.
Context {V : Type} (zero : V).
Implicit Types (R : Registry V) (h : handle).

Definition h_is_ready (h : handle) (R : Registry V) : bool := h_valid h && is_ready R (h_id h).
Definition h_has_error (h : handle) (R : Registry V) : bool := h_valid h && task_has_error R (h_id h).

Definition h_set_awaiter (h : handle) (R : Registry V) (w : TargetId) (signal : Z) : (unit + TaskError) * Registry V :=
  if negb (h_valid h) then (inr kInvalidId, R) else set_awaiter R (h_id h) w signal.

(** The handle is invalid afterwards, whatever the registry answered. *)
Definition h_release (h : handle) (R : Registry V) : (unit + TaskError) * handle * Registry V :=
  if negb (h_valid h) then (inr kInvalidId, h, R)
  else let '(a, R') := release_task zero R (h_id h) in (a, null_handle, R').

Definition h_complete (h : handle) (R : Registry V) (value : V) (dv : delivery) : (unit + TaskError) * Registry V :=
  if negb (h_valid h) then (inr kInvalidId, R) else complete zero R (h_id h) value dv.

Definition h_fail (h : handle) (R : Registry V) (err : TaskError) (dv : delivery) : (unit + TaskError) * Registry V :=
  if negb (h_valid h) then (inr kInvalidId, R) else fail zero R (h_id h) err dv.

Definition h_cancel (h : handle) (R : Registry V) (dv : delivery) : (unit + TaskError) * Registry V :=
  if negb (h_valid h) then (inr kInvalidId, R) else cancel zero R (h_id h) dv.

Definition h_take_result (h : handle) (R : Registry V) : (V + TaskError) * Registry V :=
  if negb (h_valid h) then (inr kInvalidId, R) else take_result R (h_id h).

Definition h_take_error (h : handle) (R : Registry V) : TaskError :=
  if negb (h_valid h) then kInvalidId else take_error R (h_id h).
End handles.

(** ** Groups *)

Record GroupStatus := mkStatus { succeeded : Z; failed : Z; first_error : TaskError }.
Definition no_status : GroupStatus := mkStatus 0 0 kOk.

Inductive GroupMode := kAll | kAny | kSome.
(** [kOk] is never returned. *)
Inductive GroupError := kZeroCount | kTooManyInputs | kRegistryFull | kInvalidTask.

(** The waiter fields of the class are copied and never read. *)
Record TaskGroup := mkGroup {
  inputs_ : list Z; group_id_ : Z; completed_mask_ : Z; success_count_ : Z; failure_count_ : Z;
  first_error_ : TaskError; settled_ : bool; live_count_ : Z; promise_ : handle
}.

Definition group_valid (g : TaskGroup) : bool := negb (group_id_ g =? 0).

Definition group_ctor (Capacity : nat) : TaskGroup :=
  mkGroup (replicate Capacity kInvalidTaskId) kInvalidTaskId 0 0 0 kOk false 0 null_handle.

(** The move constructor: the new group and what is left of the old one. *)
Definition group_move (g : TaskGroup) : TaskGroup * TaskGroup :=
  let '(p, p0) := handle_move (promise_ g) in
  (mkGroup (inputs_ g) (group_id_ g) (completed_mask_ g) (success_count_ g) (failure_count_ g) (first_error_ g) (settled_ g)
     (live_count_ g) p,
   mkGroup (inputs_ g) kInvalidTaskId (completed_mask_ g) (success_count_ g) (failure_count_ g) (first_error_ g) false 0 p0).

Definition group_status (g : TaskGroup) : GroupStatus := mkStatus (success_count_ g) (failure_count_ g) (first_error_ g).
Definition satisfied_count (g : TaskGroup) : Z := u16 (success_count_ g + failure_count_ g).

Definition group_release (g : TaskGroup) (GR : Registry GroupStatus) : (unit + TaskError) * TaskGroup * Registry GroupStatus :=
  if negb (group_valid g) then (inr kInvalidId, g, GR)
  else
    let '(a, GR') := release_task no_status GR (group_id_ g) in
    (a, mkGroup (inputs_ g) kInvalidTaskId (completed_mask_ g) (success_count_ g) (failure_count_ g) (first_error_ g) false
          (live_count_ g) (promise_ g), GR').

(** [dv]: what the aggregate's completion event meets on its way out. *)
Definition group_settle (g : TaskGroup) (GR : Registry GroupStatus) (dv : delivery)
  : (bool + TaskError) * TaskGroup * Registry GroupStatus :=
  if settled_ g || negb (group_valid g) || negb (h_valid (promise_ g)) then (inl false, g, GR)
  else
    let g' := mkGroup (inputs_ g) (group_id_ g) (completed_mask_ g) (success_count_ g) (failure_count_ g) (first_error_ g) true
                (live_count_ g) (promise_ g) in
    let '(a, GR') := h_complete no_status (promise_ g) GR (group_status g') dv in
    (match a with inl _ => inl true | inr e => inr e end, g', GR').

(** [inputs]: the whole array, [Capacity] entries. *)
Definition group_make (Capacity : nat) (GR : Registry GroupStatus) (inputs : list Z) (count : Z) (w : TargetId) (signal : Z)
  : (TaskGroup + GroupError) * Registry GroupStatus :=
  if count =? 0 then (inr kZeroCount, GR)
  else if Z.of_nat Capacity <? count then (inr kTooManyInputs, GR)
  else
    match create GR w signal (mkQos false false) with
    | (inr _, GR') => (inr kRegistryFull, GR')
    | (inl id, GR') =>
      let live := take (Z.to_nat count) inputs in
      if existsb (fun i => kInvalidTaskId =? i) live then (inr kInvalidTask, (release_task no_status GR' id).2)
      else
        (inl (mkGroup (live ++ drop (Z.to_nat count) (replicate Capacity kInvalidTaskId)) id 0 0 0 kOk false count (mkHandle true id)),
         GR')
    end.

(** The entry points; the policy is chosen at evaluation. *)
Definition make_task_group := group_make.
Definition when_all := make_task_group.
Definition when_any := make_task_group.
Definition when_some Capacity GR inputs count (threshold : Z) w signal := make_task_group Capacity GR inputs count w signal.

Section evaluate.
Context {V : Type}.

(** One input of the polling loop. *)
Definition poll_input (IR : Registry V) (g : TaskGroup) (i : nat) : TaskGroup :=
  let bit := Z.shiftl 1 (Z.of_nat i) in
  if negb (Z.land (completed_mask_ g) bit =? 0) then g
  else
    let id := default kInvalidTaskId (inputs_ g !! i) in
    if negb (is_ready IR id) then g
    else
      let mask := Z.lor (completed_mask_ g) bit in
      if task_has_error IR id then
        mkGroup (inputs_ g) (group_id_ g) mask (success_count_ g) (u16 (failure_count_ g + 1))
          (if bool_decide (first_error_ g = kOk) then take_error IR id else first_error_ g) (settled_ g) (live_count_ g) (promise_ g)
      else
        mkGroup (inputs_ g) (group_id_ g) mask (u16 (success_count_ g + 1)) (failure_count_ g) (first_error_ g) (settled_ g)
          (live_count_ g) (promise_ g).

Definition satisfied (mode : GroupMode) (threshold : Z) (g : TaskGroup) : bool :=
  match mode with
  | kAll => satisfied_count g =? live_count_ g
  | kAny => negb (satisfied_count g =? 0)
  | kSome => threshold <=? satisfied_count g
  end.

Definition group_evaluate (GR : Registry GroupStatus) (IR : Registry V) (g : TaskGroup) (mode : GroupMode) (threshold : Z) (dv : delivery)
  : (bool + GroupError) * TaskGroup * Registry GroupStatus :=
  if negb (group_valid g) then (inr kInvalidTask, g, GR)
  else if settled_ g then (inl true, g, GR)
  else
    let g := foldl (poll_input IR) g (seq 0 (Z.to_nat (live_count_ g))) in
    if satisfied mode threshold g then
      let '(a, g', GR') := group_settle g GR dv in
      (match a with inl _ => inl true | inr _ => inr kRegistryFull end, g', GR')
    else (inl false, g, GR).

Definition evaluate_all GR IR g dv := group_evaluate GR IR g kAll 0 dv.
Definition evaluate_any GR IR g dv := group_evaluate GR IR g kAny 0 dv.
Definition evaluate_some GR IR g threshold dv := group_evaluate GR IR g kSome threshold dv.
End evaluate.

(** ** The table of votes *)

(** [Some true] is an input seen failed, [Some false] one seen succeeded. *)
Record votes := mkVotes { v_seen : list (option bool); v_first : TaskError; v_done : bool }.

Definition is_success (o : option bool) : bool := match o with Some false => true | _ => false end.
Definition is_failure (o : option bool) : bool := match o with Some true => true | _ => false end.
Definition is_seen (o : option bool) : bool := match o with Some _ => true | None => false end.

Section spec.
Context {V : Type}.
Implicit Types (IR : Registry V) (g : TaskGroup) (ids : list Z).

(** A vote is cast once, the first time the input is seen ready. *)
Definition cast (IR : Registry V) (id : Z) (o : option bool) : option bool :=
  match o with
  | Some b => Some b
  | None => if is_ready IR id then Some (task_has_error IR id) else None
  end.

(** The errors of the inputs that fail now, in order. *)
Definition new_errors (IR : Registry V) (ids : list Z) (seen : list (option bool)) : list TaskError :=
  omap (fun x : Z * option bool =>
    match x.2 with
    | None => if is_ready IR x.1 && task_has_error IR x.1 then Some (take_error IR x.1) else None
    | Some _ => None
    end) (zip ids seen).

Definition first_of (e : TaskError) (es : list TaskError) : TaskError :=
  foldl (fun e x => if bool_decide (e = kOk) then x else e) e es.

Definition poll_votes (IR : Registry V) (ids : list Z) (v : votes) : votes :=
  mkVotes (zip_with (cast IR) ids (v_seen v)) (first_of (v_first v) (new_errors IR ids (v_seen v))) (v_done v).

Definition votes_status (v : votes) : GroupStatus :=
  mkStatus (Z.of_nat (countb is_success (v_seen v))) (Z.of_nat (countb is_failure (v_seen v))) (v_first v).

(** The condition of each mode, on the inputs seen. *)
Definition quorum (mode : GroupMode) (threshold : Z) (v : votes) : bool :=
  let n := Z.of_nat (countb is_seen (v_seen v)) in
  match mode with
  | kAll => bool_decide (Forall (fun o => is_seen o = true) (v_seen v))
  | kAny => 0 <? n
  | kSome => threshold <=? n
  end.

Definition close_votes (mode : GroupMode) (threshold : Z) (v : votes) : votes :=
  mkVotes (v_seen v) (v_first v) (quorum mode threshold v).

(** ** The group holds the table [v] over the inputs [ids] *)

Record group_repr (ids : list Z) (id : Z) (g : TaskGroup) (v : votes) : Prop := {
  gr_ids : exists rest, inputs_ g = ids ++ rest;
  gr_len : length (v_seen v) = length ids /\ (length ids <= 32)%nat;
  gr_live : live_count_ g = Z.of_nat (length ids);
  gr_mask : forall i o, v_seen v !! i = Some o -> Z.testbit (completed_mask_ g) (Z.of_nat i) = is_seen o;
  gr_succ : success_count_ g = Z.of_nat (countb is_success (v_seen v));
  gr_fail : failure_count_ g = Z.of_nat (countb is_failure (v_seen v));
  gr_first : first_error_ g = v_first v;
  gr_id : group_id_ g = id /\ id <> 0 /\ promise_ g = mkHandle true id;
  gr_done : settled_ g = v_done v
}.

Lemma count_seen l : countb is_seen l = (countb is_success l + countb is_failure l)%nat.
Proof. induction l as [|[[]|] l IH]; simpl; lia. Qed.

Lemma bit_test m (i : nat) : negb (Z.land m (Z.shiftl 1 (Z.of_nat i)) =? 0) = Z.testbit m (Z.of_nat i).
Proof.
  destruct (Z.testbit m (Z.of_nat i)) eqn:Hb.
  - apply negb_true_iff, Z.eqb_neq. intros Hz. apply (f_equal (fun z => Z.testbit z (Z.of_nat i))) in Hz.
    rewrite Z.land_spec, Hb, Z.shiftl_spec, Z.sub_diag, Z.bits_0 in Hz by lia. done.
  - apply negb_false_iff, Z.eqb_eq, Z.bits_inj'. intros j Hj. rewrite Z.land_spec, Z.shiftl_spec, Z.bits_0 by lia.
    destruct (Z.eq_dec j (Z.of_nat i)) as [->|Hne]; [by rewrite Hb|]. apply andb_false_iff. right.
    destruct (Z.lt_ge_cases j (Z.of_nat i)); [by apply Z.testbit_neg_r; lia|].
    change 1 with (2 ^ 0). apply Z.pow2_bits_false. lia.
Qed.

Lemma bit_set m (i j : nat) :
  Z.testbit (Z.lor m (Z.shiftl 1 (Z.of_nat i))) (Z.of_nat j) = if bool_decide (i = j) then true else Z.testbit m (Z.of_nat j).
Proof.
  rewrite Z.lor_spec, Z.shiftl_spec by lia. case_bool_decide as Hij.
  - subst j. by rewrite Z.sub_diag, orb_true_r.
  - destruct (Z.lt_ge_cases (Z.of_nat j) (Z.of_nat i)); [by rewrite (Z.testbit_neg_r 1), orb_false_r by lia|].
    change 1 with (2 ^ 0). rewrite Z.pow2_bits_false, orb_false_r by lia. done.
Qed.

(** One input: its vote is cast if it has not been. *)
Lemma poll_input_vote IR ids id g v i x o :
  group_repr ids id g v -> ids !! i = Some x -> v_seen v !! i = Some o ->
  group_repr ids id (poll_input IR g i)
    (mkVotes (<[i := cast IR x o]> (v_seen v))
       (match o with
        | None => if is_ready IR x && task_has_error IR x then first_of (v_first v) [take_error IR x] else v_first v
        | Some _ => v_first v
        end) (v_done v)).
Proof.
  intros [[rest Hids] [Hl1 Hl2] Hlive Hmask Hs Hf Hfe Hid Hd] Hx Ho. unfold poll_input. rewrite bit_test, (Hmask _ _ Ho).
  pose proof (lookup_lt_Some _ _ _ Hx) as Hi. rewrite Hids, lookup_app_l, Hx by done. change (default kInvalidTaskId (Some x)) with x.
  destruct o as [b|]; cbn [is_seen cast].
  { rewrite list_insert_id by done. split; eauto. }
  pose proof (countb_insert is_success _ _ _ (cast IR x None) Ho) as Hcs. pose proof (countb_insert is_failure _ _ _ (cast IR x None) Ho) as Hcf.
  pose proof (countb_le is_success (v_seen v)). pose proof (countb_le is_failure (v_seen v)).
  cbn [cast is_success is_failure] in Hcs, Hcf.
  destruct (is_ready IR x) eqn:Hrdy; cbn [negb andb]; [|rewrite list_insert_id by done; split; eauto].
  assert (Hm : forall j o', <[i := Some (task_has_error IR x)]> (v_seen v) !! j = Some o' ->
    Z.testbit (Z.lor (completed_mask_ g) (Z.shiftl 1 (Z.of_nat i))) (Z.of_nat j) = is_seen o').
  { intros j o' Hj. rewrite bit_set. case_bool_decide as Hij.
    - subst j. rewrite list_lookup_insert_eq in Hj by lia. by injection Hj as <-.
    - rewrite list_lookup_insert_ne in Hj by done. by apply Hmask. }
  destruct (task_has_error IR x) eqn:Herr; cbn [is_success is_failure] in Hcs, Hcf; split; cbn [inputs_ group_id_ completed_mask_ success_count_ failure_count_ first_error_ settled_
    live_count_ promise_ v_seen v_first v_done]; eauto; rewrite ?length_insert; try done; rewrite ?wrap_small by (unfold in_u; lia); try lia.
  cbn [first_of foldl]. by rewrite Hfe.
Qed.

Lemma poll_rest IR ids2 ids1 id g v seen1 seen2 :
  group_repr (ids1 ++ ids2) id g v -> v_seen v = seen1 ++ seen2 -> length seen1 = length ids1 ->
  group_repr (ids1 ++ ids2) id (foldl (poll_input IR) g (seq (length ids1) (length ids2)))
    (mkVotes (seen1 ++ zip_with (cast IR) ids2 seen2) (first_of (v_first v) (new_errors IR ids2 seen2)) (v_done v)).
Proof.
  revert ids1 g v seen1 seen2. induction ids2 as [|x ids2 IH]; intros ids1 g v seen1 seen2 Hr Hs Hl.
  { pose proof (gr_len _ _ _ _ Hr) as [Hlen _]. rewrite Hs, app_nil_r, length_app in Hlen. destruct seen2; [|simpl in Hlen; lia].
    simpl. destruct v as [sv fv dv]. simpl in *. by subst sv. }
  pose proof (gr_len _ _ _ _ Hr) as [Hlen _]. rewrite Hs, !length_app in Hlen. destruct seen2 as [|o seen2]; [simpl in Hlen; lia|].
  cbn [length seq foldl]. assert (Hx : (ids1 ++ x :: ids2) !! length ids1 = Some x) by (by rewrite lookup_app_r, Nat.sub_diag).
  assert (Ho : v_seen v !! length ids1 = Some o) by (by rewrite Hs, lookup_app_r, Hl, Nat.sub_diag by lia).
  pose proof (poll_input_vote IR _ _ _ _ _ _ _ Hr Hx Ho) as Hr1. rewrite Hs, insert_app_r_alt, Hl, Nat.sub_diag in Hr1 by lia.
  cbn [insert list_insert] in Hr1. replace (ids1 ++ x :: ids2) with ((ids1 ++ [x]) ++ ids2) in * by (by rewrite <- app_assoc).
  specialize (IH (ids1 ++ [x]) _ _ (seen1 ++ [cast IR x o]) seen2 Hr1). cbn [v_seen v_first v_done] in IH.
  rewrite <- (app_assoc seen1), !length_app in IH. cbn [length] in IH. specialize (IH eq_refl ltac:(lia)).
  rewrite <- (app_assoc seen1) in IH. cbn [app zip_with] in *.
  assert (Hfe : first_of (match o with None => if is_ready IR x && task_has_error IR x then first_of (v_first v) [take_error IR x] else v_first v
        | Some _ => v_first v end) (new_errors IR ids2 seen2) = first_of (v_first v) (new_errors IR (x :: ids2) (o :: seen2))).
  { unfold new_errors. destruct o; simpl; [done|]. by destruct (is_ready IR x && task_has_error IR x). }
  rewrite Nat.add_1_r in IH. by rewrite <- Hfe.
Qed.

Lemma poll_all IR ids id g v :
  group_repr ids id g v ->
  group_repr ids id (foldl (poll_input IR) g (seq 0 (Z.to_nat (live_count_ g)))) (poll_votes IR ids v).
Proof. intros Hr. rewrite (gr_live _ _ _ _ Hr), Nat2Z.id. by apply (poll_rest IR ids [] id g v [] (v_seen v)). Qed.

Lemma quorum_satisfied ids id g v mode threshold :
  group_repr ids id g v -> satisfied mode threshold g = quorum mode threshold v.
Proof.
  intros [_ [Hl1 Hl2] Hlive _ Hs Hf _ _ _]. unfold satisfied, quorum, satisfied_count. pose proof (count_seen (v_seen v)) as Hc.
  pose proof (countb_le is_seen (v_seen v)). rewrite wrap_small by (unfold in_u; lia). rewrite Hs, Hf, Hlive.
  destruct mode.
  - rewrite bool_decide_decide. destruct (decide (Forall _ _)) as [Hall|Hno].
    + apply Z.eqb_eq. assert (countb is_seen (v_seen v) = length (v_seen v)); [|lia].
      apply countb_full. intros i x Hx. rewrite Forall_lookup in Hall. by eapply Hall.
    + apply Z.eqb_neq. intros Heq. apply Hno, Forall_lookup. apply countb_full. lia.
  - destruct (Z.ltb_spec 0 (Z.of_nat (countb is_seen (v_seen v)))); [apply negb_true_iff, Z.eqb_neq|apply negb_false_iff, Z.eqb_eq]; lia.
  - rewrite <- Nat2Z.inj_add, <- Hc. done.
Qed.

(** ** Refinement *)

(** One call on the table: the new table, the answer, and the status the
    aggregate is completed with, if it is completed now. *)
Definition votes_evaluate (IR : Registry V) (ids : list Z) (mode : GroupMode) (threshold : Z) (v : votes)
  : votes * bool * option GroupStatus :=
  if v_done v then (v, true, None)
  else
    let v' := poll_votes IR ids v in
    if quorum mode threshold v' then (mkVotes (v_seen v') (v_first v') true, true, Some (votes_status v'))
    else (v', false, None).

(** What that means for the registry of groups. *)
Definition aggregate (GR : Registry GroupStatus) (id : Z) (dv : delivery) (done_now : option GroupStatus) : option TaskError * Registry GroupStatus :=
  match done_now with
  | None => (None, GR)
  | Some st => let '(a, GR') := complete no_status GR id st dv in (match a with inl _ => None | inr e => Some e end, GR')
  end.

Lemma evaluate_refines IR ids id g v GR mode threshold dv :
  group_repr ids id g v ->
  let '(v', answer, now) := votes_evaluate IR ids mode threshold v in
  let '(err, GR') := aggregate GR id dv now in
  exists g', group_evaluate GR IR g mode threshold dv = (match err with None => inl answer | Some _ => inr kRegistryFull end, g', GR') /\
    group_repr ids id g' v'.
Proof.
  intros Hr. unfold votes_evaluate, group_evaluate. destruct (gr_id _ _ _ _ Hr) as (Hid & Hnz & Hp).
  unfold group_valid. rewrite Hid, (proj2 (Z.eqb_neq _ _) Hnz). cbn [negb]. rewrite (gr_done _ _ _ _ Hr).
  destruct (v_done v) eqn:Hd; [by exists g|]. pose proof (poll_all IR ids id g v Hr) as Hr'.
  set (g1 := foldl _ _ _) in *. rewrite (quorum_satisfied _ _ _ _ mode threshold Hr').
  destruct (quorum mode threshold (poll_votes IR ids v)); [|by exists g1].
  unfold aggregate, group_settle, group_valid. destruct (gr_id _ _ _ _ Hr') as (Hid' & _ & Hp').
  rewrite (gr_done _ _ _ _ Hr'), Hid', Hp'. cbn [v_done poll_votes]. rewrite Hd. unfold h_valid. cbn [h_bound h_id].
  rewrite (proj2 (Z.eqb_neq _ _) Hnz). cbn [negb orb andb]. unfold h_complete, h_valid. cbn [h_bound h_id].
  rewrite (proj2 (Z.eqb_neq _ _) Hnz). cbn [negb andb]. unfold group_status. cbn [success_count_ failure_count_ first_error_].
  assert (Hst : mkStatus (success_count_ g1) (failure_count_ g1) (first_error_ g1) = votes_status (poll_votes IR ids v))
    by (by rewrite (gr_succ _ _ _ _ Hr'), (gr_fail _ _ _ _ Hr'), (gr_first _ _ _ _ Hr')).
  rewrite Hst.
  destruct (complete no_status GR id (votes_status (poll_votes IR ids v)) dv) as [a GR'] eqn:Hc.
  assert (Hx : group_repr ids id (mkGroup (inputs_ g1) id (completed_mask_ g1) (success_count_ g1) (failure_count_ g1)
      (first_error_ g1) true (live_count_ g1) (mkHandle true id))
    (mkVotes (v_seen (poll_votes IR ids v)) (v_first (poll_votes IR ids v)) true)).
  { destruct Hr' as [H1 H2 H3 H4 H5 H6 H7 H8 H9]. split; done. }
  destruct a; eexists; (split; [reflexivity|exact Hx]).
Qed.
End spec.

(** ** Whole runs *)

Section runs.
Context {V : Type}.

(** A call of [evaluate]: what the input registry shows, the policy, the fate
    of the completion event. *)
Record call := mkCall { c_inputs : Registry V; c_mode : GroupMode; c_threshold : Z; c_delivery : delivery }.

Fixpoint run_group (GR : Registry GroupStatus) (g : TaskGroup) (calls : list call)
  : list (bool + GroupError) * Registry GroupStatus :=
  match calls with
  | [] => ([], GR)
  | c :: cs =>
    let '(a, g', GR') := group_evaluate GR (c_inputs c) g (c_mode c) (c_threshold c) (c_delivery c) in
    let '(as_, GR'') := run_group GR' g' cs in (a :: as_, GR'')
  end.

(** The same on the table; the last component lists the completions of the aggregate. *)
Fixpoint run_votes (GR : Registry GroupStatus) (ids : list Z) (id : Z) (v : votes) (calls : list call)
  : list (bool + GroupError) * Registry GroupStatus * list GroupStatus :=
  match calls with
  | [] => ([], GR, [])
  | c :: cs =>
    let '(v', answer, now) := votes_evaluate (c_inputs c) ids (c_mode c) (c_threshold c) v in
    let '(err, GR') := aggregate GR id (c_delivery c) now in
    let '(as_, GR'', sts) := run_votes GR' ids id v' cs in
    ((match err with None => inl answer | Some _ => inr kRegistryFull end) :: as_, GR'', option_list now ++ sts)
  end.

Lemma run_refines calls GR g ids id v :
  group_repr ids id g v -> run_group GR g calls = (run_votes GR ids id v calls).1.
Proof.
  revert GR g v. induction calls as [|c cs IH]; intros GR g v Hr; [done|]. cbn [run_group run_votes].
  pose proof (evaluate_refines (c_inputs c) ids id g v GR (c_mode c) (c_threshold c) (c_delivery c) Hr) as He.
  destruct (votes_evaluate (c_inputs c) ids (c_mode c) (c_threshold c) v) as [[v' answer] now].
  destruct (aggregate GR id (c_delivery c) now) as [err GR']. destruct He as (g' & -> & Hr'). rewrite (IH GR' g' v' Hr').
  by destruct (run_votes GR' ids id v' cs) as [[as_ GR''] sts].
Qed.

Lemma done_is_final calls GR ids id v : v_done v = true -> (run_votes GR ids id v calls).2 = [] /\ (run_votes GR ids id v calls).1.2 = GR.
Proof.
  intros Hd. revert GR. induction calls as [|c cs IH]; intros GR; [done|]. cbn [run_votes]. unfold votes_evaluate. rewrite Hd. cbn [aggregate].
  specialize (IH GR). by destruct (run_votes GR ids id v cs) as [[as_ GR''] sts].
Qed.

Lemma settles_once calls GR ids id v : (length (run_votes GR ids id v calls).2 <= 1)%nat.
Proof.
  revert GR v. induction calls as [|c cs IH]; intros GR v; [simpl; lia|]. cbn [run_votes]. unfold votes_evaluate.
  destruct (v_done v); [|destruct (quorum _ _ _)].
  - cbn [aggregate]. specialize (IH GR v). by destruct (run_votes GR ids id v cs) as [[as_ GR''] sts].
  - destruct (aggregate _ _ _ _) as [err GR']. set (v' := mkVotes _ _ true).
    pose proof (done_is_final cs GR' ids id v' eq_refl) as [Hf _]. destruct (run_votes GR' ids id v' cs) as [[as_ GR''] sts].
    simpl in *. subst sts. simpl. lia.
  - cbn [aggregate]. specialize (IH GR (poll_votes (c_inputs c) ids v)).
    by destruct (run_votes GR ids id (poll_votes (c_inputs c) ids v) cs) as [[as_ GR''] sts].
Qed.
End runs.

Lemma create_id_nonzero {V} (R : Registry V) w sg q id R' : reg_ok R -> create R w sg q = (inl id, R') -> id <> 0.
Proof.
  intros [Hc Hg] H. unfold create in H. destruct (find_idx _ _) as [i|]; [|done]. destruct (rslots R !! i) as [s|] eqn:Hi; [|done].
  injection H as <- _. specialize (Hg _ _ Hi). pose proof (lookup_lt_Some _ _ _ Hi).
  rewrite id_make_sum, Z.mod_small by (unfold in_u; lia). lia.
Qed.

Lemma make_repr (Capacity : nat) GR inputs count w sg g GR' :
  reg_ok GR -> (Capacity <= 32)%nat -> length inputs = Capacity -> 0 <= count ->
  group_make Capacity GR inputs count w sg = (inl g, GR') ->
  group_repr (take (Z.to_nat count) inputs) (group_id_ g) g (mkVotes (replicate (Z.to_nat count) None) kOk false).
Proof.
  intros Hok Hcap Hlen Hcnt. unfold group_make. destruct (Z.eqb_spec count 0); [done|]. destruct (Z.ltb_spec (Z.of_nat Capacity) count); [done|].
  destruct (create GR w sg (mkQos false false)) as [[id|] GR1] eqn:Hc; [|done]. destruct (existsb _ _); [done|]. intros [= <- <-].
  pose proof (create_id_nonzero _ _ _ _ _ _ Hok Hc). split; cbn [inputs_ group_id_ completed_mask_ success_count_ failure_count_ first_error_
    settled_ live_count_ promise_ v_seen v_first v_done]; try done; eauto.
  - rewrite length_replicate, length_take. lia.
  - rewrite length_take. lia.
  - intros i o [-> _]%lookup_replicate. by rewrite Z.bits_0.
  - by induction (Z.to_nat count).
  - by induction (Z.to_nat count).
Qed.

(** *** The documented policy

    The file's header (combinators.hpp:18) and the comment at [when_all] promise a
    first-error policy: a failure settles [when_all], and settles [when_any] and
    [when_some] only when all inputs failed.  [evaluate] has no such branch; the
    comments at [when_any] and [when_some] describe what it does. *)
Definition documented (mode : GroupMode) (threshold : Z) (v : votes) : bool :=
  let ok := Z.of_nat (countb is_success (v_seen v)) in
  let failed := Z.of_nat (countb is_failure (v_seen v)) in
  let all_failed := failed =? Z.of_nat (length (v_seen v)) in
  match mode with
  | kAll => (0 <? failed) || (ok =? Z.of_nat (length (v_seen v)))
  | kAny => (0 <? ok) || all_failed
  | kSome => (threshold <=? ok) || all_failed
  end.

Lemma all_seen l : Forall (fun o => is_seen o = true) l <-> countb is_seen l = length l.
Proof.
  induction l as [|o l IH]; simpl; [split; done|]. pose proof (countb_le is_seen l). rewrite Forall_cons, IH.
  destruct (is_seen o); split; [lia|lia|intros [? _]; done|lia].
Qed.

(** The two policies agree as long as no input has failed. *)
Lemma policies_agree mode threshold v : countb is_failure (v_seen v) = 0%nat -> v_seen v <> [] ->
  documented mode threshold v = quorum mode threshold v.
Proof.
  intros Hf Hne. unfold documented, quorum. rewrite count_seen, Hf, Nat.add_0_r.
  assert (Hl : (0 < length (v_seen v))%nat) by (destruct (v_seen v); simpl; [done|lia]).
  change (Z.of_nat 0) with 0. rewrite (proj2 (Z.eqb_neq 0 _)), !orb_false_r by lia. destruct mode; [|done|done].
  simpl. symmetry. case_bool_decide as H; rewrite all_seen, count_seen, Hf, Nat.add_0_r in H.
  - rewrite H. symmetry. apply Z.eqb_refl.
  - symmetry. apply Z.eqb_neq. lia.
Qed.

(** A failure does not settle [when_all] while an input is outstanding. *)
Lemma failure_does_not_settle_all threshold v : (0 < countb is_failure (v_seen v))%nat -> None ∈ v_seen v ->
  documented kAll threshold v = true /\ quorum kAll threshold v = false.
Proof.
  intros Hf Hn. unfold documented, quorum. split; [rewrite (proj2 (Z.ltb_lt 0 _)) by lia; done|].
  apply bool_decide_eq_false_2. intros H. rewrite Forall_forall in H. by specialize (H None Hn).
Qed.

(** A failed input settles [when_any], and counts for [when_some], while others
    are outstanding. *)
Lemma failure_settles_any mode threshold v : mode = kAny \/ (mode = kSome /\ threshold = 1) ->
  countb is_success (v_seen v) = 0%nat -> (0 < countb is_failure (v_seen v))%nat -> None ∈ v_seen v ->
  documented mode threshold v = false /\ quorum mode threshold v = true.
Proof.
  intros Hm Hs Hf Hn.
  assert (Hlt : (countb is_failure (v_seen v) < length (v_seen v))%nat).
  { apply list_elem_of_lookup in Hn as [i Hi]. apply take_drop_middle in Hi. rewrite <- Hi, countb_app, length_app. simpl.
    pose proof (countb_le is_failure (take i (v_seen v))). pose proof (countb_le is_failure (drop (S i) (v_seen v))). lia. }
  unfold documented, quorum. rewrite count_seen, Hs. change (Z.of_nat 0) with 0.
  destruct Hm as [-> |[-> ->]]; rewrite (proj2 (Z.eqb_neq (Z.of_nat _) _)) by lia; split; try done; [apply Z.ltb_lt|apply Z.leb_le]; lia.
Qed.

(** C28: A task group is a table of votes that settles once.  Whatever the input
    registry shows over any sequence of [evaluate] calls, with any policy at each
    call, a group made by [when_all], [when_any] or [when_some] answers and acts
    as a table in which each input's vote, success or failure, is cast once, the
    first time the input is seen ready.  The call that first finds the quorum (all
    inputs seen, one seen, or the threshold) completes the aggregate task with the
    number of successes, of failures and the first error; no other call touches
    the registry of groups, and the aggregate is completed at most once.  A failed
    input counts as seen and nothing else: this is the code's quorum, which agrees
    with the first-error policy of the file's header comment while no input has
    failed and contradicts it in both halves afterwards, as
    [failure_does_not_settle_all] and [failure_settles_any] show. *)
Theorem group_refines_votes {V} (Capacity : nat) (GR GR1 : Registry GroupStatus) (inputs : list Z) (count : Z) (w : TargetId)
  (sg : Z) (g : TaskGroup) (calls : list (@call V)) :
  reg_ok GR -> (Capacity <= 32)%nat -> length inputs = Capacity -> 0 <= count ->
  group_make Capacity GR inputs count w sg = (inl g, GR1) ->
  let spec := run_votes GR1 (take (Z.to_nat count) inputs) (group_id_ g) (mkVotes (replicate (Z.to_nat count) None) kOk false) calls in
  run_group GR1 g calls = spec.1 /\ (length spec.2 <= 1)%nat.
Proof.
  intros Hok Hcap Hlen Hcnt Hm. cbv zeta. split; [|apply settles_once]. apply run_refines. by eapply make_repr.
Qed.

Lemma group_refines_votes_witness :
  let GR := registry_ctor no_status 2 in
  let IR := registry_ctor (0 : Z) 2 in
  exists g GR1, group_make 2 GR [0x100; 0x101] 2 (mkTarget 1) 5 = (inl g, GR1) /\
    run_group GR1 g [mkCall IR kAll 0 PoolEmpty] = ([inl false], GR1).
Proof.
  cbv zeta.
  assert (Hok : reg_ok (registry_ctor no_status 2)).
  { split; [simpl; lia|]. intros i s [-> _]%lookup_replicate. simpl. lia. }
  eexists _, _. split; [reflexivity|].
  refine (eq_trans (proj1 (group_refines_votes 2 (registry_ctor no_status 2) _ [0x100; 0x101] 2 (mkTarget 1) 5 _
    [mkCall (registry_ctor (0 : Z) 2) kAll 0 PoolEmpty] Hok _ eq_refl _ eq_refl)) _); [lia|lia|reflexivity].
Defined.
