(* ===== verification/Executor.v ===== *)
(** * The stackful executor (include/coact/coro/posix.hpp)

    One thread runs every coroutine cooperatively.  A coroutine body is code of
    the application: here it is a resumable step, [body_step], that runs from one
    yield to the next on its own stack and may change the world outside ([A]: the
    semaphores, for instance, and the executor's notify sequence, which any thread
    may bump); [waiter_sequence] reads the sequence of a waiter in that world.
    [now_ns()] is an argument of each pass. *)

From S2P Require Import Prelude.

Inductive WaitReason := kNone | kSleep | kWaitTask | kDone.

#[export] Instance WaitReason_eq_dec : EqDecision WaitReason.
Proof. solve_decision. Defined.

(** [waiter]: [None] is a null [WaiterSeq::self]. *)
Record YieldRequest := mkYield { reason : WaitReason; param_ns : Z; param_task : Z; seq_snapshot : Z; y_waiter : option nat }.
Definition yield_done : YieldRequest := mkYield kDone 0 0 0 None.

Record ResumeArg := mkArg { task_succeeded : bool; task_id : Z }.
Definition no_arg : ResumeArg := mkArg false 0.

(** [notify_seq_] and what the bodies share. *)
Record World (A : Type) := mkWorld { notify_seq_ : Z; app : A }.
Arguments mkWorld {A} notify_seq_ app.
Arguments notify_seq_ {A} w.
Arguments app {A} w.

Definition notify {A} (w : World A) : World A := mkWorld (u32 (notify_seq_ w + 1)) (app w).

(** What the application supplies. *)
Class Coroutines (A Body : Type) := {
  body_step : Body -> ResumeArg -> list Z -> World A -> YieldRequest * Body * list Z * World A;
  waiter_sequence : A -> nat -> Z
}.

Definition kGuard : list Z := [0xBE; 0xBA; 0xFE; 0xCA; 0xEF; 0xBE; 0xAD; 0xDE].

Section executor.
Context {A Body : Type} `{!Coroutines A Body}.
Abbreviation W := (World A).

(** ** Coroutine *)

Record Coroutine := mkCo { armed_ : bool; running_ : bool; started_ : bool; co_body : option Body; co_arg : ResumeArg }.
Definition co_ctor : Coroutine := mkCo false false false None no_arg.

(** [getcontext] and [swapcontext] are taken to succeed. *)
Definition co_arm (stack_ok : bool) (stack_bytes : Z) (body : option Body) (arg : ResumeArg) (co : Coroutine) : bool * Coroutine :=
  if negb stack_ok || bool_decide (body = None) || (stack_bytes =? 0) then (false, co)
  else (true, mkCo true false false body arg).

(** From the switch into the coroutine to the switch back.  A body that
    returns is reported as done; a yield of [kDone] ends it too. *)
Definition co_run (arg : ResumeArg) (co : Coroutine) (stack : list Z) (w : W) : YieldRequest * Coroutine * list Z * W :=
  match co_body co with
  | None => (yield_done, co, stack, w)
  | Some b =>
    let '(y, b', stack', w') := body_step b arg stack w in
    (y, mkCo (armed_ co) (negb (bool_decide (reason y = kDone))) (started_ co) (Some b') arg, stack', w')
  end.

Definition co_start (arg : ResumeArg) (co : Coroutine) (stack : list Z) (w : W) : YieldRequest * Coroutine * list Z * W :=
  if negb (armed_ co) || running_ co then (yield_done, co, stack, w)
  else co_run arg (mkCo (armed_ co) true true (co_body co) arg) stack w.

Definition co_resume (arg : ResumeArg) (co : Coroutine) (stack : list Z) (w : W) : YieldRequest * Coroutine * list Z * W :=
  if negb (armed_ co) || negb (running_ co) then (yield_done, co, stack, w) else co_run arg co stack w.

(** ** Slots *)

Inductive SlotState := sFree | sRun | sSleep | sWaitTask.

#[export] Instance SlotState_eq_dec : EqDecision SlotState.
Proof. solve_decision. Defined.

Record Slot := mkSlot {
  co : Coroutine; state : SlotState; deadline_ns : Z; pending_arg : ResumeArg; park_seq : Z; waiter : option nat; stack : list Z
}.

Record Executor := mkExec { slots_ : list Slot; corrupted_guards_ : Z }.

(** Both ends of the stack carry the guard word. *)
Definition put_guards (s : list Z) : list Z := kGuard ++ take (length s - 16) (drop 8 s) ++ kGuard.
Definition guards_intact (s : list Z) : bool :=
  bool_decide (take 8 s = kGuard) && bool_decide (drop (length s - 8) s = kGuard).

Definition exec_ctor (MaxCoroutines StackBytes : nat) : Executor :=
  mkExec (replicate MaxCoroutines (mkSlot co_ctor sFree 0 no_arg 0 None (put_guards (replicate StackBytes 0)))) 0.
Definition notify_init : Z := 1.

(** [arm]: the index of the slot taken. *)
Definition exec_arm (body : option Body) (initial_arg : ResumeArg) (e : Executor) : option nat * Executor :=
  match find_idx (fun s => bool_decide (state s = sFree)) (slots_ e) with
  | None => (None, e)
  | Some i =>
    match slots_ e !! i with
    | None => (None, e)
    | Some s =>
      let '(ok, c) := co_arm true (Z.of_nat (length (stack s))) body initial_arg (co s) in
      if ok then
        (Some i, mkExec (<[i := mkSlot c sRun 0 (pending_arg s) (park_seq s) (waiter s) (put_guards (stack s))]> (slots_ e))
                   (corrupted_guards_ e))
      else (None, e)
    end
  end.

(** [wake(co, arg)] of the coroutine in slot [i]. *)
Definition exec_wake (i : nat) (arg : ResumeArg) (e : Executor) : Executor :=
  match slots_ e !! i with
  | Some s =>
    if bool_decide (state s = sWaitTask) then
      mkExec (<[i := mkSlot (co s) sRun (deadline_ns s) arg (park_seq s) (waiter s) (stack s)]> (slots_ e))
        (corrupted_guards_ e)
    else e
  | None => e
  end.

(** The test of a sleeping slot: [true] when it is to run in this pass. *)
Definition sleep_over (now cur_seq deadline park : Z) : bool :=
  if now <? deadline then negb ((park =? 0) || (park =? cur_seq)) else true.

Definition slot_due (now notify_seq : Z) (w : W) (s : Slot) : bool :=
  let cur_seq := match waiter s with Some x => waiter_sequence (app w) x | None => notify_seq end in
  sleep_over now cur_seq (deadline_ns s) (park_seq s).

(** The switch on the yield reason: the slot, whether it is live, and the
    guard failures found. *)
Definition after_yield (y : YieldRequest) (s : Slot) (c : Coroutine) (stk : list Z) : Slot * bool * Z :=
  match reason y with
  | kDone | kNone => (mkSlot c sFree (deadline_ns s) no_arg (park_seq s) (waiter s) stk, false, if guards_intact stk then 0 else 1)
  | kSleep => (mkSlot c sSleep (param_ns y) no_arg (seq_snapshot y) (y_waiter y) stk, true, 0)
  | kWaitTask => (mkSlot c sWaitTask (deadline_ns s) no_arg (park_seq s) (waiter s) stk, true, 0)
  end.

(** A slot that runs: one resume. *)
Definition run_slot (s : Slot) (w : W) : Slot * bool * Z * W :=
  let '(y, c, stk, w') :=
    (if started_ (co s) then co_resume else co_start) (pending_arg s) (co s) (stack s) w in
  let '(s', live, bad) := after_yield y s c stk in (s', live, bad, w').

(** The body of the loop of [run_once]. *)
Definition visit (now notify_seq : Z) (s : Slot) (w : W) : Slot * bool * Z * W :=
  match state s with
  | sFree => (s, false, 0, w)
  | sSleep =>
    if slot_due now notify_seq w s
    then run_slot (mkSlot (co s) sRun (deadline_ns s) no_arg (park_seq s) (waiter s) (stack s)) w
    else (s, true, 0, w)
  | sWaitTask => (s, true, 0, w)
  | sRun => run_slot s w
  end.

Fixpoint pass (now notify_seq : Z) (ss : list Slot) (w : W) : list Slot * Z * Z * W :=
  match ss with
  | [] => ([], 0, 0, w)
  | s :: ss =>
    let '(s', live, bad, w1) := visit now notify_seq s w in
    let '(ss', n, bads, w2) := pass now notify_seq ss w1 in
    (s' :: ss', u16 ((if live then 1 else 0) + n), bad + bads, w2)
  end.

Definition run_once (now : Z) (e : Executor) (w : W) : Z * Executor * W :=
  let '(ss, live, bads, w') := pass now (notify_seq_ w) (slots_ e) w in
  (live, mkExec ss (u16 (corrupted_guards_ e + bads)), w').

Definition live_count (e : Executor) : Z := u16 (Z.of_nat (countb (fun s => negb (bool_decide (state s = sFree))) (slots_ e))).

(** The scan of [stack_watermark]: from below the top guard down to index 1. *)
Fixpoint watermark_scan (s : list Z) (i : nat) : Z :=
  match i with
  | O => 0
  | S k => if negb (bool_decide (s !! i = Some 0)) then Z.of_nat i + 1 else watermark_scan s k
  end.

Definition stack_watermark (e : Executor) (slot : nat) : Z :=
  match slots_ e !! slot with
  | None => 0
  | Some s => watermark_scan (stack s) (length (stack s) - 9)
  end.
End executor.
Arguments Slot : clear implicits.
Arguments Coroutine : clear implicits.
Arguments Executor : clear implicits.

(** ** A pass *)

Section passes.
Context {A Body : Type} `{!Coroutines A Body}.
Implicit Types (s : Slot Body) (w : World A).

Definition occupied (s : Slot Body) : bool := negb (bool_decide (state s = sFree)).

Lemma visit_live now seq s w : (visit now seq s w).1.1.2 = occupied (visit now seq s w).1.1.1.
Proof.
  assert (Hrun : forall s, (run_slot s w).1.1.2 = occupied (run_slot s w).1.1.1).
  { intros s0. unfold run_slot. destruct ((if started_ (co s0) then _ else _) _ _ _ _) as [[[y c] stk] w']. unfold after_yield.
    by destruct (reason y). }
  unfold visit. destruct (state s) eqn:Hs; try done; [|case_match; [done|]|]; unfold occupied; simpl; by rewrite Hs.
Qed.

Lemma pass_spec now seq ss w :
  let '(ss', n, bads, w') := pass now seq ss w in
  length ss' = length ss /\ n = u16 (Z.of_nat (countb occupied ss')) /\
  forall i s, ss !! i = Some s -> ss' !! i = Some (visit now seq s (pass now seq (take i ss) w).2).1.1.1.
Proof.
  revert w. induction ss as [|s ss IH]; intros w; [done|]. cbn [pass]. pose proof (visit_live now seq s w) as Hv.
  destruct (visit now seq s w) as [[[s1 live] bad] w1] eqn:Hvis. cbn [fst snd] in Hv. specialize (IH w1).
  destruct (pass now seq ss w1) as [[[ss' n] bads] w2]. destruct IH as (Hl & Hn & Hp). cbn [length countb]. split_and!.
  - by rewrite Hl.
  - rewrite Hn, Z.add_comm, wrap_add_wrap_l by lia. f_equal. rewrite Hv. destruct (occupied s1); lia.
  - intros [|i] x Hx; simpl in Hx.
    + injection Hx as <-. cbn [take pass snd]. rewrite Hvis. done.
    + cbn [take pass]. rewrite Hvis. change ((s1 :: ss') !! S i) with (ss' !! i). rewrite (Hp i x Hx).
      by destruct (pass now seq (take i ss) w1) as [[[? ?] ?] ?].
Qed.

(** A slot whose coroutine has a body to run, and the argument of its next step. *)
Definition resumable (s : Slot Body) (b : Body) : Prop :=
  co_body (co s) = Some b /\ armed_ (co s) = true /\ running_ (co s) = started_ (co s).

Lemma run_slot_step s b w :
  resumable s b ->
  exists y b' stk w', body_step b (pending_arg s) (stack s) w = (y, b', stk, w') /\
    (run_slot s w).2 = w' /\ co_body (co (run_slot s w).1.1.1) = Some b' /\ stack (run_slot s w).1.1.1 = stk /\
    state (run_slot s w).1.1.1 = (match reason y with kSleep => sSleep | kWaitTask => sWaitTask | _ => sFree end) /\
    pending_arg (run_slot s w).1.1.1 = no_arg /\
    (reason y = kSleep -> deadline_ns (run_slot s w).1.1.1 = param_ns y /\ park_seq (run_slot s w).1.1.1 = seq_snapshot y /\
      waiter (run_slot s w).1.1.1 = y_waiter y) /\
    (state (run_slot s w).1.1.1 <> sFree -> resumable (run_slot s w).1.1.1 b').
Proof.
  intros (Hb & Ha & Hr). unfold run_slot.
  assert (Hco : (if started_ (co s) then co_resume else co_start) (pending_arg s) (co s) (stack s) w =
    co_run (pending_arg s) (mkCo true true true (Some b) (co_arg (if started_ (co s) then co s else mkCo true true true (Some b) (pending_arg s)))) (stack s) w).
  { destruct (started_ (co s)) eqn:Hst; unfold co_resume, co_start; rewrite Ha, Hr; cbn [negb orb]; [|by rewrite Hb].
    destruct (co s). simpl in *. by subst. }
  rewrite Hco. unfold co_run. cbn [co_body]. destruct (body_step b (pending_arg s) (stack s) w) as [[[y b'] stk] w'] eqn:Hstep.
  exists y, b', stk, w'. unfold after_yield. destruct (reason y) eqn:Hy; simpl; (split_and!; try done); intros ?; done.
Qed.
End passes.

(** One pass of the executor.  The number it returns is the number of
    coroutines still alive; every slot is visited once, in order, in the world
    the earlier ones left.  A free slot, a coroutine waiting for a task and a
    sleeper whose deadline has not come and whose waiter has not moved are left as
    they are.  Every other coroutine takes exactly one step of its body, with the
    argument that was waiting for it, and is parked or retired as it asked. *)
Theorem run_once_round {A Body} `{!Coroutines A Body} (now : Z) (e : Executor Body) (w : World A) :
  let '(live, e', w') := run_once now e w in
  live = live_count e' /\ length (slots_ e') = length (slots_ e) /\
  forall i s, slots_ e !! i = Some s ->
    let wi := (pass now (notify_seq_ w) (take i (slots_ e)) w).2 in
    exists s', slots_ e' !! i = Some s' /\
      if bool_decide (state s = sFree) || bool_decide (state s = sWaitTask) ||
         (bool_decide (state s = sSleep) && negb (slot_due now (notify_seq_ w) wi s))
      then s' = s
      else forall b, resumable s b ->
        exists y b' stk w1,
          body_step b (if bool_decide (state s = sSleep) then no_arg else pending_arg s) (stack s) wi = (y, b', stk, w1) /\
          co_body (co s') = Some b' /\ stack s' = stk /\
          state s' = (match reason y with kSleep => sSleep | kWaitTask => sWaitTask | _ => sFree end) /\
          (reason y = kSleep -> deadline_ns s' = param_ns y /\ park_seq s' = seq_snapshot y /\ waiter s' = y_waiter y).
Proof.
  unfold run_once. pose proof (pass_spec now (notify_seq_ w) (slots_ e) w) as Hp.
  destruct (pass now (notify_seq_ w) (slots_ e) w) as [[[ss n] bads] w']. destruct Hp as (Hl & Hn & Hp).
  split_and!; [done|done|]. intros i s Hs. cbv zeta. specialize (Hp i s Hs).
  set (wi := (pass now (notify_seq_ w) (take i (slots_ e)) w).2) in *. eexists. split; [exact Hp|].
  unfold visit. destruct (state s) eqn:Hst; simpl; try done.
  - intros b Hb. destruct (run_slot_step s b wi Hb) as (y & b' & stk & w1 & H1 & H2 & H3 & H4 & H5 & H6 & H7 & H8).
    exists y, b', stk, w1. done.
  - destruct (slot_due now (notify_seq_ w) wi s); simpl; [|done]. intros b Hb.
    destruct (run_slot_step (mkSlot (co s) sRun (deadline_ns s) no_arg (park_seq s) (waiter s) (stack s)) b wi Hb)
      as (y & b' & stk & w1 & H1 & H2 & H3 & H4 & H5 & H6 & H7 & H8). exists y, b', stk, w1. done.
Qed.
