(* ===== verification/CoroSem.v ===== *)
(** * The coroutine semaphore (include/coact/coro/posix.hpp)

    [CoroSem]: an atomic permit count and a notify sequence.  Takers run as
    coroutines of one executor, releasers on any thread; the step relation
    interleaves them at their shared accesses.  A compare-exchange loop is one
    step, at the exchange that succeeds or the load that finds no permit.  The
    executor resumes a parked taker exactly when [sleep_over] of [Executor.v] says
    so, at any time of its own. *)

From S2P Require Import Prelude Executor.

(** ** The semaphore *)

Record Sem := mkSem { permits_ : Z; seq_ : Z; binary_ : bool }.

Definition sem_ctor (initial : Z) (binary : bool) : Sem := mkSem initial 1 binary.

Definition try_consume (s : Sem) : bool * Sem :=
  if permits_ s =? 0 then (false, s) else (true, mkSem (u32 (permits_ s - 1)) (seq_ s) (binary_ s)).

(** The two accesses of [release]. *)
Definition release_permit (s : Sem) : Sem := mkSem (if binary_ s then 1 else u32 (permits_ s + 1)) (seq_ s) (binary_ s).
Definition release_notify (s : Sem) : Sem := mkSem (permits_ s) (u32 (seq_ s + 1)) (binary_ s).

(** ** Takers *)

(** Where a taker stands in [take]; a snapshot carries the number of bumps
    there had been when it was taken. *)
Inductive taker :=
| TTry | TSnap | TTry2 (snap : Z) (bumps : Z) | TParked (snap : Z) (bumps : Z) | TTry3 | TTook | TTimedOut.

(** [deadline]: of the take; [pending]: releasers between their two accesses;
    [bumps], [released]: how often each access has happened. *)
Record sys := mkSys { sem : Sem; takers : list (taker * Z); pending : nat; bumps : Z; released : Z }.

Definition with_taker (st : sys) (i : nat) (t : taker) (d : Z) (s : Sem) : sys :=
  mkSys s (<[i := (t, d)]> (takers st)) (pending st) (bumps st) (released st).

Inductive step : sys -> sys -> Prop :=
| st_try st i d : takers st !! i = Some (TTry, d) ->
    step st (let '(ok, s) := try_consume (sem st) in with_taker st i (if ok then TTook else TSnap) d s)
| st_snap st i d : takers st !! i = Some (TSnap, d) ->
    step st (with_taker st i (TTry2 (seq_ (sem st)) (bumps st)) d (sem st))
| st_try2 st i d snap n : takers st !! i = Some (TTry2 snap n, d) ->
    step st (let '(ok, s) := try_consume (sem st) in with_taker st i (if ok then TTook else TParked snap n) d s)
| st_wake st i d snap n now : takers st !! i = Some (TParked snap n, d) -> sleep_over now (seq_ (sem st)) d snap = true ->
    step st (with_taker st i TTry3 d (sem st))
| st_try3 st i d now : takers st !! i = Some (TTry3, d) ->
    step st (let '(ok, s) := try_consume (sem st) in
             with_taker st i (if ok then TTook else if d <=? now then TTimedOut else TTry) d s)
| st_release st :
    step st (mkSys (release_permit (sem st)) (takers st) (S (pending st)) (bumps st) (released st + 1))
| st_notify st k : pending st = S k ->
    step st (mkSys (release_notify (sem st)) (takers st) k (bumps st + 1) (released st)).

Definition start (initial : Z) (binary : bool) (deadlines : list Z) : sys :=
  mkSys (sem_ctor initial binary) ((fun d => (TTry, d)) <$> deadlines) 0 0 0.

(** ** The invariant *)

Definition taker_inv (st : sys) (t : taker) : Prop :=
  match t with
  | TTry2 snap n => snap = u32 (1 + n) /\ 0 <= n <= bumps st
  | TParked snap n =>
    snap = u32 (1 + n) /\ 0 <= n <= bumps st /\ (permits_ (sem st) <> 0 -> n < bumps st \/ (0 < pending st)%nat)
  | _ => True
  end.

Definition took (x : taker * Z) : bool := match x.1 with TTook => true | _ => false end.

Record inv (initial : Z) (st : sys) : Prop := {
  i_seq : seq_ (sem st) = u32 (1 + bumps st);
  i_bumps : 0 <= bumps st /\ 0 <= released st;
  i_takers : forall i t d, takers st !! i = Some (t, d) -> taker_inv st t;
  i_range : in_u 32 (permits_ (sem st));
  i_conserve : binary_ (sem st) = false -> initial + released st < 2 ^ 32 ->
    permits_ (sem st) + Z.of_nat (countb took (takers st)) = initial + released st
}.

(** A step of one taker keeps the others' invariants: the sequence is as it was
    and there is no permit that was not there. *)
Lemma taker_inv_mono st st' t :
  bumps st <= bumps st' -> (pending st <= pending st')%nat \/ bumps st < bumps st' ->
  (permits_ (sem st') <> 0 -> permits_ (sem st) <> 0 \/ (0 < pending st')%nat) -> taker_inv st t -> taker_inv st' t.
Proof.
  intros Hb Hp Hm Ht. destruct t as [| |snap n|snap n| | |]; simpl in *; try done.
  - destruct Ht as [-> Hn]. split; [done|lia].
  - destruct Ht as (-> & Hn & Hw). split; [done|]. split; [lia|]. intros H0. destruct (Hm H0) as [H1|]; [|by right].
    destruct (Hw H1); [left; lia|]. destruct Hp; [right; lia|left; lia].
Qed.

Lemma with_taker_inv initial st i t t' d s' :
  inv initial st -> takers st !! i = Some (t, d) -> took (t, d) = false ->
  seq_ s' = seq_ (sem st) -> binary_ s' = binary_ (sem st) -> in_u 32 (permits_ s') ->
  (permits_ s' <> 0 -> permits_ (sem st) <> 0) ->
  permits_ s' + (if took (t', d) then 1 else 0) = permits_ (sem st) ->
  taker_inv (with_taker st i t' d s') t' -> inv initial (with_taker st i t' d s').
Proof.
  intros [Hseq Hb Ht Hr Hc] Hi Htk Es Eb Hr' Hmono Hcons Hnew. split; cbn [sem takers pending bumps released with_taker]; try done.
  - by rewrite Es.
  - intros j x dj Hj. destruct (decide (i = j)) as [<-|Hne].
    + rewrite list_lookup_insert_eq in Hj by (by eapply lookup_lt_Some). injection Hj as <- <-. exact Hnew.
    + rewrite list_lookup_insert_ne in Hj by done. eapply (taker_inv_mono st); [| | |by eapply Ht]; simpl; lia || tauto.
  - intros Hbin Hlt. rewrite Eb in Hbin. specialize (Hc Hbin Hlt).
    pose proof (countb_insert took (takers st) i (t, d) (t', d) Hi) as Hx. rewrite Htk in Hx. destruct (took (t', d)); lia.
Qed.

Lemma consume_facts s ok s' :
  in_u 32 (permits_ s) -> try_consume s = (ok, s') ->
  seq_ s' = seq_ s /\ binary_ s' = binary_ s /\ in_u 32 (permits_ s') /\ (permits_ s' <> 0 -> permits_ s <> 0) /\
  permits_ s' + (if ok then 1 else 0) = permits_ s /\ (ok = false -> permits_ s' = 0).
Proof.
  unfold try_consume, in_u. intros Hr. destruct (Z.eqb_spec (permits_ s) 0) as [H0|H0]; intros [= <- <-]; simpl.
  - split_and!; try done; lia.
  - rewrite wrap_small by (unfold in_u; lia). split_and!; try done; lia.
Qed.

Lemma inv_step initial st st' : inv initial st -> step st st' -> inv initial st'.
Proof.
  intros Hi Hs. pose proof Hi as [Hseq [Hb Hrel] Ht Hr Hc].
  destruct Hs as [st i d H|st i d H|st i d snap n H|st i d snap n now H _|st i d now H|st|st k Hk].
  1, 3, 5: destruct (try_consume (sem st)) as [ok s'] eqn:Hcon; destruct (consume_facts _ _ _ Hr Hcon) as (H1 & H2 & H3 & H4 & H5 & H6);
    pose proof (Ht _ _ _ H) as Hti; eapply with_taker_inv; try done; destruct ok; simpl in *; try lia; repeat case_match; try done; try lia.
  - eapply with_taker_inv; try done; simpl; lia.
  - eapply with_taker_inv; try done; simpl; lia.
  - split; cbn [sem takers pending bumps released release_permit permits_ seq_ binary_]; try done; try lia.
    + intros i t d Hi'. eapply (taker_inv_mono st); [| | |by eapply Ht]; simpl; lia.
    + destruct (binary_ (sem st)); [done|]. apply wrap_range. lia.
    + intros Hbin Hlt. rewrite Hbin in *. specialize (Hc eq_refl ltac:(lia)). rewrite wrap_small by (unfold in_u in *; lia). lia.
  - split; cbn [sem takers pending bumps released release_notify permits_ seq_ binary_]; try done; try lia.
    + rewrite Hseq, wrap_add_wrap_l by lia. f_equal. lia.
    + intros i t d Hi'. eapply (taker_inv_mono st); [| | |by eapply Ht]; simpl; lia.
Qed.

Lemma inv_start initial binary deadlines : in_u 32 initial -> inv initial (start initial binary deadlines).
Proof.
  intros Hr. split; simpl; try done; try lia.
  - intros i t d Hi. rewrite list_lookup_fmap in Hi. destruct (deadlines !! i); [|done]. by injection Hi as <- <-.
  - intros _ _. assert (countb took ((fun d => (TTry, d)) <$> deadlines) = 0%nat) as ->; [|lia]. by induction deadlines.
Qed.

Lemma inv_reachable initial binary deadlines st :
  in_u 32 initial -> rtc step (start initial binary deadlines) st -> inv initial st.
Proof.
  intros Hr Hrun. pose proof (inv_start initial binary deadlines Hr) as H0.
  induction Hrun as [|st1 st2 st3 Hs _ IH]; [done|]. apply IH. by eapply inv_step.
Qed.

(** C29: No wake is lost.  However takers and releasers interleave: when a taker
    is parked, a permit is there and no releaser is between its two accesses, the
    executor's next look at that taker resumes it, whatever the time and the
    deadline, unless the taker's snapshot is 0 or 2^32 notifications have passed
    since it was taken.  Counting semaphores also lose and invent no permit: the
    permits left and the successful takes add up to the initial permits and the
    releases. *)
Theorem no_lost_wake (initial : Z) (binary : bool) (deadlines : list Z) (st : sys) (i : nat) (snap n d now : Z) :
  in_u 32 initial -> rtc step (start initial binary deadlines) st ->
  (takers st !! i = Some (TParked snap n, d) -> permits_ (sem st) <> 0 -> pending st = 0%nat ->
   snap <> 0 -> bumps st - n < 2 ^ 32 -> sleep_over now (seq_ (sem st)) d snap = true) /\
  (binary_ (sem st) = false -> initial + released st < 2 ^ 32 ->
   permits_ (sem st) + Z.of_nat (countb took (takers st)) = initial + released st).
Proof.
  intros Hr Hrun. destruct (inv_reachable _ _ _ _ Hr Hrun) as [Hseq Hb Ht _ Hc]. split; [|done].
  intros Hi Hp Hpend Hsn Hlt. destruct (Ht _ _ _ Hi) as (Es & Hn & Hw). unfold sleep_over. case_match; [|done].
  rewrite (proj2 (Z.eqb_neq snap 0) Hsn). cbn [orb]. apply negb_true_iff, Z.eqb_neq. rewrite Hseq, Es. intros Heq.
  destruct (Hw Hp) as [Hgt|]; [|lia]. unfold wrap in Heq. assert (Hz : (bumps st - n) mod 2 ^ 32 = 0).
  { replace (bumps st - n) with ((1 + bumps st) - (1 + n)) by lia. rewrite Zminus_mod, Heq, Z.sub_diag. done. }
  rewrite Z.mod_small in Hz by lia. lia.
Qed.

(** A given step of a concrete run. *)
Tactic Notation "next_step" uconstr(s) := eapply rtc_l; [eapply s; reflexivity|cbn].

(** One taker that waits, and the permit it waits for. *)
Definition waiting_demo : sys :=
  mkSys (mkSem 1 2 false) [(TParked 1 0, 100)] 0 1 1.

Lemma waiting_demo_reachable : rtc step (start 0 false [100]) waiting_demo.
Proof.
  next_step (st_try _ 0%nat 100). next_step (st_snap _ 0%nat 100). next_step (st_try2 _ 0%nat 100 1 0).
  next_step (st_release). next_step (st_notify _ 0%nat). apply rtc_refl.
Qed.

Lemma no_lost_wake_witness : sleep_over 5 2 100 1 = true.
Proof.
  apply (no_lost_wake 0 false [100] waiting_demo 0%nat 1 0 100 5); try done. exact waiting_demo_reachable.
Defined.

(** ** A sequence of 0 *)

Lemma releases (k : nat) p s ts b r :
  in_u 32 s ->
  rtc step (mkSys (mkSem p s true) ts 0 b r)
    (mkSys (mkSem (match k with O => p | _ => 1 end) (u32 (s + Z.of_nat k)) true) ts 0 (b + Z.of_nat k) (r + Z.of_nat k)).
Proof.
  intros Hs. revert p s b r Hs. induction k as [|k IH]; intros p s b r Hs.
  { rewrite !Z.add_0_r, wrap_small by done. apply rtc_refl. }
  eapply rtc_l; [apply st_release|]. eapply rtc_l; [by apply (st_notify _ 0)|].
  cbn [sem takers pending bumps released release_permit release_notify permits_ seq_ binary_].
  specialize (IH 1 (u32 (s + 1)) (b + 1) (r + 1) (wrap_range 32 _ ltac:(lia))). rewrite wrap_add_wrap_l in IH by lia.
  replace (s + Z.of_nat (S k)) with (s + 1 + Z.of_nat k) by lia. replace (b + Z.of_nat (S k)) with (b + 1 + Z.of_nat k) by lia.
  replace (r + Z.of_nat (S k)) with (r + 1 + Z.of_nat k) by lia. by destruct k.
Qed.

(** A wake can be lost when the sequence is 0.  After 2^32 - 1 releases the
    sequence reads 0; a taker that then parks carries the snapshot that means a
    plain sleep.  The next release leaves a permit and a finished notification, and
    no value of the sequence, that is no later release, makes the executor resume
    the taker before its deadline. *)
Theorem zero_sequence_loses_wake (d : Z) :
  exists st n, rtc step (start 0 true [d; d]) st /\ takers st !! 1%nat = Some (TParked 0 n, d) /\
    permits_ (sem st) = 1 /\ pending st = 0%nat /\ forall now seq, now < d -> sleep_over now seq d 0 = false.
Proof.
  assert (Hex : exists k : nat, Z.of_nat k = 4294967295) by (exists (Z.to_nat 4294967295); apply Z2Nat.id; lia). destruct Hex as [k Hk].
  exists (mkSys (mkSem 1 1 true) [(TTook, d); (TParked 0 4294967295, d)] 0 4294967296 4294967296), 4294967295.
  split; [|split; [reflexivity|]; split; [reflexivity|]; split; [reflexivity|]; intros now seq Hlt; unfold sleep_over;
    by rewrite (proj2 (Z.ltb_lt _ _) Hlt)].
  etransitivity; [apply (releases k 0 1 _ 0 0); split; lia|]. rewrite Hk.
  assert (Hsome : match k with O => 0 | _ => 1 end = 1) by (destruct k; [simpl in Hk; lia|reflexivity]). rewrite Hsome.
  change (u32 (1 + 4294967295)) with 0. change (0 + 4294967295) with 4294967295. cbn [fmap list_fmap].
  next_step (st_try _ 0%nat d). next_step (st_try _ 1%nat d). next_step (st_snap _ 1%nat d).
  next_step (st_try2 _ 1%nat d 0 4294967295). next_step (st_release). next_step (st_notify _ 0%nat). apply rtc_refl.
Qed.
