(* ===== verification/Recfg.v ===== *)
(** * The reconfiguration transaction (examples/isp_pipeline/recfg_session.hpp)

    An active object that changes the frame geometry of a running pipeline in
    five stages, on the state machine of [Hsm.v].  Its actions submit the events
    that drive the next stage to the object itself: the submissions of one
    dispatch are collected, in order, in [submitted].  The globals the actions
    write (session phase, SOUT control word, address cache) are fields of the
    context.  An [SrMagx] is its 8-bit value, since a request may carry any. *)

From S2P Require Import Prelude Hsm RegCache.

(** ** Vocabulary (common.hpp) *)

Record FrameGeometry := mkGeom { g_width : Z; g_height : Z; bytes_per_pixel : Z }.
Definition geom0 : FrameGeometry := mkGeom 0 0 2.

#[export] Instance FrameGeometry_eq_dec : EqDecision FrameGeometry.
Proof. solve_decision. Defined.

Definition bytes_per_frame (g : FrameGeometry) : Z := u32 (u32 (g_width g * g_height g) * bytes_per_pixel g).

Definition kOff : Z := 0.
Definition kX1 : Z := 1.
Definition kX2 : Z := 2.
Definition kX4 : Z := 4.

Definition apply_magx (g : FrameGeometry) (m : Z) : FrameGeometry :=
  if m =? kX2 then mkGeom (u16 (g_width g * 2)) (u16 (g_height g * 2)) (bytes_per_pixel g) else g.

Definition magx_supported (m : Z) : bool := (m =? kOff) || (m =? kX1) || (m =? kX2).

Inductive RecfgStage := stIdle | stPrecheck | stQuiescing | stApplying | stSyncing | stResuming.

#[export] Instance RecfgStage_eq_dec : EqDecision RecfgStage.
Proof. solve_decision. Defined.

Inductive StreamMode := k3Loop | kDmo.

#[export] Instance StreamMode_eq_dec : EqDecision StreamMode.
Proof. solve_decision. Defined.

Inductive SessionState := sBoot | sInit | sRunning | sRecfgTxn | sDeinit | sStopped.

#[export] Instance SessionState_eq_dec : EqDecision SessionState.
Proof. solve_decision. Defined.

Definition kRecfgReq : Z := 19.
Definition kRecfgStage : Z := 20.
Definition kSoutIdle : Z := 21.
Definition kFirstFrame : Z := 22.

Definition kDmoQuiesceVerified : bool := false.
Definition allow_partial_recfg : bool := kDmoQuiesceVerified.

(** ** The address cache *)

Record AddrRecord := mkAddr { ar_version : Z; ar_addr : Z; ar_valid : bool }.
Definition addr0 : AddrRecord := mkAddr 0 0 false.

Record AddrCache := mkCache { ac_version : Z; ac_rec : AddrRecord }.

(** [None]: a miss. *)
Definition ac_query (c : AddrCache) : option Z * AddrCache :=
  let r := ac_rec c in
  if ar_valid r && (ar_version r =? ac_version c) then (Some (ar_addr r), c)
  else if ar_valid r && negb (ar_version r =? ac_version c) then (None, mkCache (ac_version c) addr0)
  else (None, c).

Definition ac_store (c : AddrCache) (addr : Z) : AddrCache := mkCache (ac_version c) (mkAddr (ac_version c) addr true).

(** ** The SOUT control register *)

Definition SoutCtrlEnable : field := mkField 0 1.
Definition SoutCtrlOpcode : field := mkField 4 4.
Definition SoutCtrlMode : field := mkField 8 2.
Definition kSoutOpcodeFrame : Z := 2.
Definition kSoutOpcodeRecfg : Z := 10.
Definition kSoutModeActive : Z := 2.
Definition kSoutEnableOn : Z := 1.
Definition sout_ctrl0 : Z := Z.lor (Z.lor (Z.shiftl kSoutModeActive 8) (Z.shiftl kSoutOpcodeFrame 4)) kSoutEnableOn.

(** ** The context *)

(** The committed configuration. *)
Record Authority := mkAuth { active_magx : Z; active_geom : FrameGeometry }.

(** The transaction in flight. *)
Record Txn := mkTxn {
  stage : RecfgStage; target_magx : Z; target_geom : FrameGeometry; old_geom_snap : FrameGeometry; inject_stale_sout : bool;
  observed_frame_bytes : Z
}.

Record Counts := mkCounts { recfgs_committed : Z; recfgs_failed : Z; dmo_rejects : Z }.

Record RecfgAoCtx := mkRc {
  auth : Authority; txn : Txn; counts : Counts; layout_version : Z; stream_mode : StreamMode;
  g_session : SessionState; g_sout_ctrl : Z; g_addr_cache : AddrCache; submitted : list Z
}.

Record revent := mkEv { ev_sig : Z; cmd_arg : Z }.

Definition set_txn (c : RecfgAoCtx) (t : Txn) : RecfgAoCtx :=
  mkRc (auth c) t (counts c) (layout_version c) (stream_mode c) (g_session c) (g_sout_ctrl c) (g_addr_cache c) (submitted c).
Definition set_counts (c : RecfgAoCtx) (n : Counts) : RecfgAoCtx :=
  mkRc (auth c) (txn c) n (layout_version c) (stream_mode c) (g_session c) (g_sout_ctrl c) (g_addr_cache c) (submitted c).
Definition set_auth (c : RecfgAoCtx) (a : Authority) : RecfgAoCtx :=
  mkRc a (txn c) (counts c) (layout_version c) (stream_mode c) (g_session c) (g_sout_ctrl c) (g_addr_cache c) (submitted c).
Definition set_sout (c : RecfgAoCtx) (w : Z) : RecfgAoCtx :=
  mkRc (auth c) (txn c) (counts c) (layout_version c) (stream_mode c) (g_session c) w (g_addr_cache c) (submitted c).
Definition set_stage (t : Txn) (s : RecfgStage) : Txn :=
  mkTxn s (target_magx t) (target_geom t) (old_geom_snap t) (inject_stale_sout t) (observed_frame_bytes t).

Definition rc_self_submit (c : RecfgAoCtx) (sig : Z) : RecfgAoCtx :=
  mkRc (auth c) (txn c) (counts c) (layout_version c) (stream_mode c) (g_session c) (g_sout_ctrl c) (g_addr_cache c)
    (submitted c ++ [sig]).

(** The phase changes; the trace and the log record are left out. *)
Definition session_advance (c : RecfgAoCtx) (s : SessionState) : RecfgAoCtx :=
  mkRc (auth c) (txn c) (counts c) (layout_version c) (stream_mode c) s (g_sout_ctrl c) (g_addr_cache c) (submitted c).

Definition count_failed (n : Counts) : Counts := mkCounts (recfgs_committed n) (u32 (recfgs_failed n + 1)) (dmo_rejects n).

(** ** Actions *)

Definition rcEnterPrecheck (c : RecfgAoCtx) (e : revent) : RecfgAoCtx :=
  let t := txn c in
  let magx := Z.land (cmd_arg e) 0xFF in
  let inject := negb (Z.land (cmd_arg e) 0x100 =? 0) in
  let t := mkTxn (stage t) magx (target_geom t) (old_geom_snap t) inject (observed_frame_bytes t) in
  let n := counts c in
  if negb (magx_supported magx) then
    rc_self_submit (set_txn (set_counts c (count_failed n)) (set_stage t stIdle)) kRecfgStage
  else if bool_decide (stream_mode c = kDmo) && negb allow_partial_recfg then
    let n := count_failed n in
    rc_self_submit (set_txn (set_counts c (mkCounts (recfgs_committed n) (recfgs_failed n) (u32 (dmo_rejects n + 1)))) (set_stage t stIdle))
      kRecfgStage
  else
    set_txn c (mkTxn stQuiescing magx (apply_magx (active_geom (auth c)) magx) (active_geom (auth c)) inject (observed_frame_bytes t)).

Definition rcGoHome (c : RecfgAoCtx) (_ : revent) : RecfgAoCtx :=
  if bool_decide (g_session c = sRecfgTxn) then session_advance c sRunning else c.

Definition rcQuiescingEntry (c : RecfgAoCtx) : RecfgAoCtx := rc_self_submit c kSoutIdle.
Definition rcResumeEntry (c : RecfgAoCtx) : RecfgAoCtx := rc_self_submit c kFirstFrame.

Definition rcEnterApply (c : RecfgAoCtx) (_ : revent) : RecfgAoCtx :=
  let t := txn c in
  let c := set_sout c (field_write SoutCtrlOpcode (g_sout_ctrl c) kSoutOpcodeRecfg) in
  let bytes := if inject_stale_sout t then bytes_per_frame (old_geom_snap t) else bytes_per_frame (target_geom t) in
  rc_self_submit (set_txn c (mkTxn stSyncing (target_magx t) (target_geom t) (old_geom_snap t) (inject_stale_sout t) bytes)) kRecfgStage.

Definition rcEnterSync (c : RecfgAoCtx) (_ : revent) : RecfgAoCtx :=
  let v := u32 (layout_version c + 1) in
  rc_self_submit
    (mkRc (auth c) (set_stage (txn c) stResuming) (counts c) v (stream_mode c) (g_session c) (g_sout_ctrl c)
       (mkCache v (ac_rec (g_addr_cache c))) (submitted c)) kRecfgStage.

Definition rcEnterCommit (c : RecfgAoCtx) (_ : revent) : RecfgAoCtx :=
  let t := txn c in
  if negb (observed_frame_bytes t =? bytes_per_frame (target_geom t)) then
    let c := set_auth c (mkAuth kX1 (old_geom_snap t)) in
    rc_self_submit (set_txn (set_counts c (count_failed (counts c))) (set_stage t stIdle)) kRecfgStage
  else
    let n := counts c in
    let c := set_auth c (mkAuth (target_magx t) (target_geom t)) in
    let c := set_counts c (mkCounts (u32 (recfgs_committed n + 1)) (recfgs_failed n) (dmo_rejects n)) in
    rc_self_submit
      (set_txn c (mkTxn stIdle kX1 geom0 (old_geom_snap t) (inject_stale_sout t) (observed_frame_bytes t))) kRecfgStage.

(** ** The tables *)

Definition kRcRoot : Z := 0.
Definition kRcIdle : Z := 1.
Definition kRcPrecheck : Z := 2.
Definition kRcQuiesce : Z := 3.
Definition kRcApply : Z := 4.
Definition kRcSync : Z := 5.
Definition kRcResume : Z := 6.
Definition kRcCommit : Z := 7.

Definition kRecfgStates : list (StateDef RecfgAoCtx) :=
  [mkState (-1) None None (-1); mkState kRcRoot None None (-1); mkState kRcRoot None None (-1);
   mkState kRcRoot (Some rcQuiescingEntry) None (-1); mkState kRcRoot None None (-1); mkState kRcRoot None None (-1);
   mkState kRcRoot (Some rcResumeEntry) None (-1); mkState kRcRoot None None (-1)].

Definition at_stage (s : RecfgStage) (c : RecfgAoCtx) (_ : revent) : bool := bool_decide (stage (txn c) = s).
Definition at_quiesce := at_stage stQuiescing.
Definition at_resume := at_stage stResuming.
Definition at_reject_home := at_stage stIdle.
Definition at_commit_home := at_stage stIdle.
Definition at_syncing := at_stage stSyncing.
Definition at_resuming := at_stage stResuming.

Definition kRecfgTransitions : list (TransitionDef RecfgAoCtx revent) :=
  [mkTrans kRcIdle kRecfgReq kRcQuiesce External None (Some rcEnterPrecheck);
   mkTrans kRcQuiesce kSoutIdle kRcApply External (Some at_quiesce) (Some rcEnterApply);
   mkTrans kRcResume kFirstFrame kRcCommit External (Some at_resume) (Some rcEnterCommit);
   mkTrans kRcApply kRecfgStage kRcSync External (Some at_syncing) (Some rcEnterSync);
   mkTrans kRcApply kRecfgStage kRcApply Internal None None;
   mkTrans kRcSync kRecfgStage kRcResume External (Some at_resuming) None;
   mkTrans kRcSync kRecfgStage kRcSync Internal None None;
   mkTrans kRcQuiesce kRecfgStage kRcIdle External (Some at_reject_home) (Some rcGoHome);
   mkTrans kRcQuiesce kRecfgStage kRcQuiesce Internal None None;
   mkTrans kRcCommit kRecfgStage kRcIdle External (Some at_commit_home) (Some rcGoHome);
   mkTrans kRcCommit kRecfgStage kRcCommit Internal None None].

(** [RecfgOrchAo recfg(kRecfgStates, ..., 1, 2)] in state [s]. *)
Definition recfg_machine (s : Z) : Hsm RecfgAoCtx revent := mkHsm kRecfgStates kRecfgTransitions kRcIdle 2 s.

Definition recfg_dispatch (s : Z) (c : RecfgAoCtx) (e : revent) : outcome (bool * RecfgAoCtx * Hsm RecfgAoCtx revent) :=
  dispatch ev_sig (recfg_machine s) c e.

(** [main]: the context as the object is bound. *)
Definition recfg_ctx0 (g : FrameGeometry) : RecfgAoCtx :=
  mkRc (mkAuth kX1 g) (mkTxn stIdle kX1 geom0 geom0 false 0) (mkCounts 0 0 0) 1 k3Loop sBoot sout_ctrl0 (mkCache 1 addr0) [].

(** [request_recfg]: the argument of the request event. *)
Definition request_arg (magx : Z) (inject_stale : bool) : Z := Z.lor magx (if inject_stale then 0x100 else 0).

(** ** Coordinates *)

Record DisplayMirror := mkMirror { horizontal : bool; dm_width : Z }.
Record DetRect := mkRect { x0 : Z; y0 : Z; x1 : Z; y1 : Z }.

Definition map_x (m : DisplayMirror) (x : Z) : Z := if horizontal m then u16 (dm_width m - 1 - x) else x.

Definition transform (r : DetRect) (m : DisplayMirror) : DetRect :=
  let nx0 := map_x m (x0 r) in
  let nx1 := map_x m (x1 r) in
  mkRect (if nx0 <? nx1 then nx0 else nx1) (y0 r) (if nx0 <? nx1 then nx1 else nx0) (y1 r).
