(* ===== verification/RecfgSpec.v ===== *)
(** * Reconfigurations are atomic and settle (examples/isp_pipeline/recfg_session.hpp)

    The object's queue is shared: requests and the events its own actions submit
    arrive in any order that keeps each dispatch's submissions in sequence.  The
    transaction is specified as one atomic change of the committed
    configuration. *)

From S2P Require Import Prelude Hsm RegCache Recfg.

#[local] Arguments Z.eqb !x !y.

(** ** One dispatch *)

(** The shape of the tables, for any guards and actions. *)
Section shape.
Context {C E : Type} (sig : E -> Z) (pre apply sync commit home : C -> E -> C) (qentry rentry : C -> C).
Context (quiescing idle syncing resuming : C -> E -> bool).

Definition shape (s : Z) : Hsm C E :=
  mkHsm
    [mkState (-1) None None (-1); mkState 0 None None (-1); mkState 0 None None (-1);
     mkState 0 (Some qentry) None (-1); mkState 0 None None (-1); mkState 0 None None (-1);
     mkState 0 (Some rentry) None (-1); mkState 0 None None (-1)]
    [mkTrans 1 19 3 External None (Some pre);
     mkTrans 3 21 4 External (Some quiescing) (Some apply);
     mkTrans 6 22 7 External (Some resuming) (Some commit);
     mkTrans 4 20 5 External (Some syncing) (Some sync);
     mkTrans 4 20 4 Internal None None;
     mkTrans 5 20 6 External (Some resuming) None;
     mkTrans 5 20 5 Internal None None;
     mkTrans 3 20 1 External (Some idle) (Some home);
     mkTrans 3 20 3 Internal None None;
     mkTrans 7 20 1 External (Some idle) (Some home);
     mkTrans 7 20 7 Internal None None] 1 2 s.

Definition shape_arc (s : Z) (c : C) (e : E) : Z * C :=
  let g := sig e in
  if (s =? 1) && (g =? 19) then (3, qentry (pre c e))
  else if (s =? 3) && (g =? 21) && quiescing c e then (4, apply c e)
  else if (s =? 3) && (g =? 20) && idle c e then (1, home c e)
  else if (s =? 4) && (g =? 20) && syncing c e then (5, sync c e)
  else if (s =? 5) && (g =? 20) && resuming c e then (6, rentry c)
  else if (s =? 6) && (g =? 22) && resuming c e then (7, commit c e)
  else if (s =? 7) && (g =? 20) && idle c e then (1, home c e)
  else (s, c).

Lemma shape_found s c e t c' s' :
  0 <= s -> find_transition sig (shape s) c e s = Some t -> execute_transition (shape s) c e s t = Ret (c', shape s') ->
  dispatch sig (shape s) c e = Ret (true, c', shape s').
Proof.
  intros Hs Hf He. unfold dispatch. cbn [shape current_]. rewrite (proj2 (Z.ltb_ge s 0) Hs).
  unfold chain_fuel. cbn [dispatch_loop]. change (mkHsm _ _ _ _ _) with (shape s). rewrite Hf, He. done.
Qed.

Lemma shape_unhandled s c e :
  s ∈ [1; 3; 4; 5; 6; 7] -> find_transition sig (shape s) c e s = None -> dispatch sig (shape s) c e = Ret (false, c, shape s).
Proof.
  intros Hs Hf. assert (Hp : parent_of (shape s) s = Ret 0).
  { clear Hf. set_unfold in Hs. by destruct Hs as [->|[->|[->|[->|[->|[->|[]]]]]]]. }
  assert (H0 : 0 <= s) by (set_unfold in Hs; lia). unfold dispatch. change (current_ (shape s)) with s. rewrite (proj2 (Z.ltb_ge s 0) H0).
  change (chain_fuel (shape s)) with 9%nat. cbn [dispatch_loop]. rewrite Hf, Hp. cbn [mbind outcome_bind].
  change (0 <? 0) with false. change (max_depth_ (shape s) <=? 0) with false. cbn iota. reflexivity.
Qed.

Ltac take_arc E G :=
  eexists; eapply shape_found; [lia|cbn; rewrite ?E, ?G; reflexivity|vm_compute; reflexivity].
Ltac ignore E G :=
  eexists; eapply shape_unhandled; [set_solver|cbn; rewrite ?E, ?G; reflexivity].

Lemma shape_dispatch s c e :
  s ∈ [1; 3; 4; 5; 6; 7] ->
  exists b, dispatch sig (shape s) c e = Ret (b, (shape_arc s c e).2, shape (shape_arc s c e).1).
Proof.
  intros Hs. set_unfold in Hs. unfold shape_arc. rewrite !(Z.eqb_sym (sig e)).
  destruct Hs as [->|[->|[->|[->|[->|[->|[]]]]]]]; cbn [Z.eqb Pos.eqb andb fst snd].
  - destruct (19 =? sig e) eqn:He; [take_arc He He|ignore He He].
  - destruct (21 =? sig e) eqn:He; cbn [andb].
    + assert ((20 =? sig e) = false) as He0 by lia. rewrite He0. cbn [andb]. destruct (quiescing c e) eqn:Hg; [take_arc He Hg|].
      eexists. eapply shape_unhandled; [set_solver|]. cbn. rewrite He, Hg, He0. done.
    + destruct (20 =? sig e) eqn:He0; cbn [andb]; [|eexists; eapply shape_unhandled; [set_solver|]; cbn; rewrite He, He0; done].
      destruct (idle c e) eqn:Hg; eexists; (eapply shape_found; [lia|cbn; rewrite He, He0, Hg; reflexivity|vm_compute; reflexivity]).
  - destruct (20 =? sig e) eqn:He; cbn [andb]; [|ignore He He]. destruct (syncing c e) eqn:Hg; take_arc He Hg.
  - destruct (20 =? sig e) eqn:He; cbn [andb]; [|ignore He He]. destruct (resuming c e) eqn:Hg; take_arc He Hg.
  - destruct (22 =? sig e) eqn:He; cbn [andb]; [|ignore He He]. destruct (resuming c e) eqn:Hg; [take_arc He Hg|ignore He Hg].
  - destruct (20 =? sig e) eqn:He; cbn [andb]; [|ignore He He]. destruct (idle c e) eqn:Hg; take_arc He Hg.
Qed.
End shape.

(** What [recfg_dispatch] does in each state. *)
Definition arc : Z -> RecfgAoCtx -> revent -> Z * RecfgAoCtx :=
  shape_arc ev_sig rcEnterPrecheck rcEnterApply rcEnterSync rcEnterCommit rcGoHome rcQuiescingEntry rcResumeEntry
    at_quiesce at_reject_home at_syncing at_resume.

Lemma dispatch_arc s c e :
  s ∈ [1; 3; 4; 5; 6; 7] -> exists b, recfg_dispatch s c e = Ret (b, (arc s c e).2, recfg_machine (arc s c e).1).
Proof. apply (shape_dispatch ev_sig). Qed.

(** ** The object and its queue *)

(** [asked]: the arguments of all requests submitted so far. *)
Record rsys := mkR { rs_state : Z; rs_ctx : RecfgAoCtx; rs_queue : list revent; asked : list Z }.

Definition clear_submitted (c : RecfgAoCtx) : RecfgAoCtx :=
  mkRc (auth c) (txn c) (counts c) (layout_version c) (stream_mode c) (g_session c) (g_sout_ctrl c) (g_addr_cache c) [].

Definition self_event (sig : Z) : revent := mkEv sig 0.
Definition request (arg : Z) : revent := mkEv kRecfgReq arg.

(** What reaches the queue during a dispatch: the submissions, in order, with
    requests of other threads in between; [lossy]: the pool may be exhausted,
    then a submission is lost. *)
Inductive weave (lossy : bool) : list Z -> list revent -> list Z -> Prop :=
| weave_nil : weave lossy [] [] []
| weave_self sig subs l args : weave lossy subs l args -> weave lossy (sig :: subs) (self_event sig :: l) args
| weave_request arg subs l args : weave lossy subs l args -> weave lossy subs (request arg :: l) (arg :: args)
| weave_lost sig subs l args : lossy = true -> weave lossy subs l args -> weave lossy (sig :: subs) l args.

Inductive rstep (lossy : bool) : rsys -> rsys -> Prop :=
| r_dispatch s c e q l args h b c' qs : recfg_dispatch s c e = Ret (b, c', h) -> weave lossy (submitted c') l args ->
    rstep lossy (mkR s c (e :: q) qs) (mkR (current_ h) (clear_submitted c') (q ++ l) (qs ++ args))
| r_request s c q arg qs : rstep lossy (mkR s c q qs) (mkR s c (q ++ [request arg]) (qs ++ [arg]))
| r_session s c q x qs : rstep lossy (mkR s c q qs) (mkR s (session_advance c x) q qs)
| r_mode s c q m qs :
    rstep lossy (mkR s c q qs)
      (mkR s (mkRc (auth c) (txn c) (counts c) (layout_version c) m (g_session c) (g_sout_ctrl c) (g_addr_cache c) (submitted c)) q qs)
| r_rebuild s c g qs : stage (txn c) = stIdle -> rstep lossy (mkR s c [] qs) (mkR s (set_auth c (mkAuth kX1 g)) [] qs)
| r_cache s c q ca qs : ac_version ca = ac_version (g_addr_cache c) ->
    rstep lossy (mkR s c q qs)
      (mkR s (mkRc (auth c) (txn c) (counts c) (layout_version c) (stream_mode c) (g_session c) (g_sout_ctrl c) ca (submitted c)) q qs).

Definition rsys0 (g : FrameGeometry) : rsys := mkR kRcIdle (recfg_ctx0 g) [] [].

(** ** The atomic transaction *)

Record config := mkConfig { cf_auth : Authority; cf_committed : Z; cf_failed : Z }.
Definition config_of (c : RecfgAoCtx) : config := mkConfig (auth c) (recfgs_committed (counts c)) (recfgs_failed (counts c)).

Definition arg_magx (arg : Z) : Z := Z.land arg 0xFF.
Definition arg_inject (arg : Z) : bool := negb (Z.land arg 0x100 =? 0).

(** A frame of the new geometry is what the sink sees. *)
Definition frame_confirms (g : FrameGeometry) (arg : Z) : bool :=
  bytes_per_frame (if arg_inject arg then g else apply_magx g (arg_magx arg)) =? bytes_per_frame (apply_magx g (arg_magx arg)).

Inductive atomic (args : list Z) : config -> config -> Prop :=
| at_commit arg m g n f : arg ∈ args -> magx_supported (arg_magx arg) = true -> frame_confirms g arg = true ->
    atomic args (mkConfig (mkAuth m g) n f) (mkConfig (mkAuth (arg_magx arg) (apply_magx g (arg_magx arg))) (u32 (n + 1)) f)
| at_recover arg m g n f : arg ∈ args -> magx_supported (arg_magx arg) = true -> frame_confirms g arg = false ->
    atomic args (mkConfig (mkAuth m g) n f) (mkConfig (mkAuth kX1 g) n (u32 (f + 1)))
| at_reject a n f : atomic args (mkConfig a n f) (mkConfig a n (u32 (f + 1)))
| at_rebuild a g n f : atomic args (mkConfig a n f) (mkConfig (mkAuth kX1 g) n f).

(** ** The invariant *)

(** The mirror against the state of the machine. *)
Definition posture (s : Z) (st : RecfgStage) : Prop :=
  (s, st) ∈ [(kRcIdle, stIdle); (kRcQuiesce, stIdle); (kRcQuiesce, stQuiescing); (kRcApply, stSyncing); (kRcSync, stResuming);
             (kRcResume, stResuming); (kRcCommit, stIdle)].

(** The snapshot and the target of a transaction in flight. *)
Definition in_flight (c : RecfgAoCtx) (qs : list Z) : Prop :=
  let t := txn c in let g := active_geom (auth c) in
  exists arg, arg ∈ qs /\ target_magx t = arg_magx arg /\ inject_stale_sout t = arg_inject arg /\
    magx_supported (target_magx t) = true /\ old_geom_snap t = g /\ target_geom t = apply_magx g (target_magx t) /\
    (stage t <> stQuiescing -> observed_frame_bytes t = bytes_per_frame (if inject_stale_sout t then g else target_geom t)).

Record rinv (y : rsys) : Prop := {
  ri_posture : posture (rs_state y) (stage (txn (rs_ctx y)));
  ri_flight : stage (txn (rs_ctx y)) <> stIdle -> in_flight (rs_ctx y) (asked y);
  ri_requests : forall e, e ∈ rs_queue y -> ev_sig e = kRecfgReq -> cmd_arg e ∈ asked y;
  ri_clear : submitted (rs_ctx y) = [];
  ri_version : ac_version (g_addr_cache (rs_ctx y)) = layout_version (rs_ctx y);
  ri_sout : field_read SoutCtrlMode (g_sout_ctrl (rs_ctx y)) = kSoutModeActive /\
            field_read SoutCtrlEnable (g_sout_ctrl (rs_ctx y)) = kSoutEnableOn
}.

Lemma posture_live s st : posture s st -> s ∈ [1; 3; 4; 5; 6; 7].
Proof. unfold posture. set_unfold. naive_solver. Qed.

Lemma weave_asked lossy subs l args e : weave lossy subs l args -> kRecfgReq ∉ subs -> e ∈ l -> ev_sig e = kRecfgReq -> cmd_arg e ∈ args.
Proof.
  induction 1; intros Hn He Hs; set_unfold; [done|destruct He as [->|He]; [naive_solver|]..|]; naive_solver.
Qed.

(** ** The arcs *)

Inductive fires (c : RecfgAoCtx) (e : revent) : Z -> RecfgStage -> Z -> RecfgAoCtx -> Prop :=
| f_request : ev_sig e = kRecfgReq -> fires c e kRcIdle stIdle kRcQuiesce (rcQuiescingEntry (rcEnterPrecheck c e))
| f_idle : fires c e kRcQuiesce stQuiescing kRcApply (rcEnterApply c e)
| f_reject : fires c e kRcQuiesce stIdle kRcIdle (rcGoHome c e)
| f_sync : fires c e kRcApply stSyncing kRcSync (rcEnterSync c e)
| f_resume : fires c e kRcSync stResuming kRcResume (rcResumeEntry c)
| f_commit : fires c e kRcResume stResuming kRcCommit (rcEnterCommit c e)
| f_home : fires c e kRcCommit stIdle kRcIdle (rcGoHome c e).

(** The event each posture waits for. *)
Definition awaits (s : Z) (st : RecfgStage) : Z :=
  if s =? kRcIdle then kRecfgReq
  else if s =? kRcQuiesce then (if bool_decide (st = stQuiescing) then kSoutIdle else kRecfgStage)
  else if s =? kRcResume then kFirstFrame
  else kRecfgStage.

Lemma arc_fires s c e :
  posture s (stage (txn c)) ->
  if ev_sig e =? awaits s (stage (txn c)) then fires c e s (stage (txn c)) (arc s c e).1 (arc s c e).2
  else arc s c e = (s, c).
Proof.
  unfold posture, arc, shape_arc, awaits, at_quiesce, at_reject_home, at_syncing, at_resume, at_stage.
  unfold kRecfgReq, kRecfgStage, kSoutIdle, kFirstFrame. intros Hp.
  repeat (apply elem_of_cons in Hp as [[= -> Hst]|Hp]); try (by apply elem_of_nil in Hp); rewrite Hst;
    cbn [Z.eqb Pos.eqb andb kRcIdle kRcQuiesce kRcApply kRcSync kRcResume kRcCommit kRecfgReq kRecfgStage kSoutIdle kFirstFrame].
  all: repeat match goal with |- context [bool_decide (?a = ?b)] =>
    let v := eval vm_compute in (bool_decide (a = b)) in change (bool_decide (a = b)) with v end; cbn iota; rewrite ?andb_true_r, ?andb_false_r.
  - destruct (Z.eqb_spec (ev_sig e) 19); [by apply f_request|done].
  - destruct (Z.eqb_spec (ev_sig e) 20); [by apply f_reject|done].
  - destruct (Z.eqb_spec (ev_sig e) 21); [by apply f_idle|done].
  - destruct (Z.eqb_spec (ev_sig e) 20); [by apply f_sync|done].
  - destruct (Z.eqb_spec (ev_sig e) 20); [by apply f_resume|done].
  - destruct (Z.eqb_spec (ev_sig e) 22); [by apply f_commit|done].
  - destruct (Z.eqb_spec (ev_sig e) 20); [by apply f_home|done].
Qed.

(** An accepted and a rejected request. *)
Lemma precheck_cases c e :
  let c' := rcEnterPrecheck c e in let m := arg_magx (cmd_arg e) in
  auth c' = auth c /\ layout_version c' = layout_version c /\ g_session c' = g_session c /\ g_sout_ctrl c' = g_sout_ctrl c /\
  g_addr_cache c' = g_addr_cache c /\
  ((stage (txn c') = stIdle /\ submitted c' = submitted c ++ [kRecfgStage] /\
    config_of c' = mkConfig (auth c) (recfgs_committed (counts c)) (u32 (recfgs_failed (counts c) + 1))) \/
   (magx_supported m = true /\ submitted c' = submitted c /\ counts c' = counts c /\
    txn c' = mkTxn stQuiescing m (apply_magx (active_geom (auth c)) m) (active_geom (auth c)) (arg_inject (cmd_arg e))
               (observed_frame_bytes (txn c)))).
Proof.
  unfold rcEnterPrecheck. cbv zeta. fold (arg_magx (cmd_arg e)) (arg_inject (cmd_arg e)).
  destruct (magx_supported (arg_magx (cmd_arg e))) eqn:Hm; cbn [negb]; [|split_and!; try done; by left].
  destruct (_ && _); split_and!; try done; [by left|by right].
Qed.

Lemma opcode_keeps f w v :
  f = SoutCtrlMode \/ f = SoutCtrlEnable -> field_read f (field_write SoutCtrlOpcode w v) = field_read f w.
Proof.
  intros Hf. apply Z.bits_inj'. intros i Hi.
  destruct Hf as [-> | ->]; rewrite !field_read_bits by done; cbn [width offset SoutCtrlMode SoutCtrlEnable];
    rewrite field_write_bits by (done || lia); cbn [width offset SoutCtrlOpcode];
    match goal with |- ?a && _ = ?a && _ => destruct a eqn:Hlt; [|done] end; cbn [andb].
  - rewrite (proj2 (Z.ltb_lt (i + 8) 32)), (proj2 (Z.ltb_ge (i + 8) (4 + 4))) by lia. by rewrite andb_false_r.
  - rewrite (proj2 (Z.ltb_lt (i + 0) 32)), (proj2 (Z.leb_gt 4 (i + 0))) by lia. done.
Qed.

Definition globals_ok (c : RecfgAoCtx) : Prop :=
  ac_version (g_addr_cache c) = layout_version c /\
  field_read SoutCtrlMode (g_sout_ctrl c) = kSoutModeActive /\ field_read SoutCtrlEnable (g_sout_ctrl c) = kSoutEnableOn.

Definition settles_to (qs : list Z) (c c' : RecfgAoCtx) : Prop :=
  config_of c' = config_of c \/ atomic qs (config_of c) (config_of c').

Record fired_ok (qs : list Z) (c c' : RecfgAoCtx) (s' : Z) : Prop := {
  fo_posture : posture s' (stage (txn c'));
  fo_flight : stage (txn c') <> stIdle -> in_flight c' qs;
  fo_globals : globals_ok c';
  fo_config : settles_to qs c c';
  fo_subs : if bool_decide (s' = kRcIdle) then submitted c' = [] else awaits s' (stage (txn c')) ∈ submitted c' /\ kRecfgReq ∉ submitted c'
}.

Lemma request_fires c e q qs :
  rinv (mkR kRcIdle c (e :: q) qs) -> ev_sig e = kRecfgReq -> fired_ok qs c (rcQuiescingEntry (rcEnterPrecheck c e)) kRcQuiesce.
Proof.
  intros [Hp Hf Hq Hc Hv Hs] He. cbn in *. assert (Ha : cmd_arg e ∈ qs) by (apply Hq; [by left|done]).
  destruct (precheck_cases c e) as (P1 & P2 & P3 & P4 & P5 & Hcase). unfold rcQuiescingEntry, rc_self_submit.
  destruct Hcase as [(Hst & Hsub & Hcf)|(Hm & Hsub & Hcn & Htx)]; split; cbn [auth txn counts layout_version g_sout_ctrl g_addr_cache submitted].
  - rewrite Hst. unfold posture. set_solver.
  - by rewrite Hst.
  - unfold globals_ok. cbn. rewrite P2, P4, P5. done.
  - right. assert (Hq' : forall x a, config_of (mkRc (auth x) (txn x) (counts x) (layout_version x) (stream_mode x) (g_session x)
      (g_sout_ctrl x) (g_addr_cache x) a) = config_of x) by done. rewrite Hq', Hcf. destruct c as [a]. apply at_reject.
  - rewrite Hst, Hsub, Hc. cbn. unfold awaits. cbn. split; [by left|]. unfold kRecfgReq, kRecfgStage, kSoutIdle. set_solver.
  - rewrite Htx. cbn. unfold posture. set_solver.
  - intros _. exists (cmd_arg e). cbn. rewrite Htx, P1. cbn. done.
  - unfold globals_ok. cbn. rewrite P2, P4, P5. done.
  - left. unfold config_of. cbn. by rewrite P1, Hcn.
  - rewrite Htx, Hsub, Hc. cbn. unfold awaits. cbn. split; [by left|]. unfold kRecfgReq, kSoutIdle. set_solver.
Qed.

Lemma commit_fires c e qs :
  stage (txn c) = stResuming -> in_flight c qs -> globals_ok c -> submitted c = [] -> fired_ok qs c (rcEnterCommit c e) kRcCommit.
Proof.
  intros Hst (arg & Ha & Hm & Hi & Hs & Ho & Ht & Hb) Hg Hsub. specialize (Hb ltac:(by rewrite Hst)). unfold rcEnterCommit. cbv zeta.
  assert (Hfc : (observed_frame_bytes (txn c) =? bytes_per_frame (target_geom (txn c))) = frame_confirms (active_geom (auth c)) arg).
  { unfold frame_confirms. rewrite Hb, Hi, Ht, Hm. by destruct (arg_inject arg). }
  rewrite Hfc. rewrite Hm in Hs, Ht. destruct c as [[am ag] t n v sm se so ac sb]. cbn in *. subst sb.
  destruct (frame_confirms ag arg) eqn:Hc; cbn [negb]; (split; cbn; [unfold posture; set_solver|done|exact Hg| |by split; [left|set_solver]]); right.
  - rewrite Hm, Ht. by apply at_commit.
  - rewrite Ho. by apply (at_recover qs arg).
Qed.

Lemma fires_ok c e q qs s s' c' :
  rinv (mkR s c (e :: q) qs) -> fires c e s (stage (txn c)) s' c' -> fired_ok qs c c' s'.
Proof.
  intros Hinv Hf. pose proof Hinv as [Hp Hfl Hq Hsub Hv [Hm He]]. cbn in *.
  inversion Hf as [Hs|H1 Hst|H1 Hst|H1 Hst|H1 Hst|H1 Hst|H1 Hst]; subst.
  - by eapply request_fires.
  - destruct Hfl as (arg & Ha & F1 & F2 & F3 & F4 & F5 & F6); [by rewrite <- Hst|].
    split; cbn; [unfold posture; set_solver| | |by left|by rewrite Hsub; split; [left|set_solver]].
    + intros _. exists arg. cbn. split_and!; try done. intros _. rewrite F4. by destruct (inject_stale_sout _).
    + split; [done|]. cbn. rewrite !opcode_keeps by auto. done.
  - unfold rcGoHome. case_bool_decide; (split; cbn; [rewrite <- Hst; unfold posture; set_solver|by rewrite <- Hst|done|by left|done]).
  - destruct Hfl as (arg & Ha & F1 & F2 & F3 & F4 & F5 & F6); [by rewrite <- Hst|]. rewrite <- Hst in F6.
    split; cbn; [unfold posture; set_solver| |done|by left|by rewrite Hsub; split; [left|set_solver]].
    intros _. exists arg. cbn. split_and!; try done. intros _. by apply F6.
  - rewrite <- Hst in Hfl. split; cbn; [rewrite <- Hst; unfold posture; set_solver|intros _; by apply Hfl|done|by left|].
    rewrite Hsub. split; [by left|set_solver].
  - apply commit_fires; try done. apply Hfl. by rewrite <- Hst.
  - unfold rcGoHome. case_bool_decide; (split; cbn; [rewrite <- Hst; unfold posture; set_solver|by rewrite <- Hst|done|by left|done]).
Qed.

(** ** Every step *)

Lemma atomic_mono qs qs' a b : qs ⊆ qs' -> atomic qs a b -> atomic qs' a b.
Proof. intros Hs. destruct 1; [eapply at_commit|eapply at_recover|apply at_reject|apply at_rebuild]; eauto. Qed.

Lemma in_flight_mono c qs qs' : qs ⊆ qs' -> in_flight c qs -> in_flight c qs'.
Proof. intros Hs (arg & Ha & H). exists arg. auto. Qed.

Lemma settles_mono qs qs' c c' : qs ⊆ qs' -> settles_to qs c c' -> settles_to qs' c c'.
Proof. intros Hs [H|H]; [by left|right; by eapply atomic_mono]. Qed.

(** What stays true of the queue when events are added. *)
Lemma dispatch_keeps lossy s c e q qs l args b c' h :
  rinv (mkR s c (e :: q) qs) -> recfg_dispatch s c e = Ret (b, c', h) -> weave lossy (submitted c') l args ->
  rinv (mkR (current_ h) (clear_submitted c') (q ++ l) (qs ++ args)) /\ settles_to (qs ++ args) c c'.
Proof.
  intros Hinv Hd Hw. pose proof Hinv as [Hp Hfl Hq Hsub Hv Hs]. cbn in *.
  destruct (dispatch_arc s c e (posture_live _ _ Hp)) as [b' Hd']. rewrite Hd' in Hd. injection Hd as _ <- <-.
  assert (Hqs : qs ⊆ qs ++ args) by set_solver.
  assert (Hreq : kRecfgReq ∉ submitted (arc s c e).2 ->
    forall x, x ∈ q ++ l -> ev_sig x = kRecfgReq -> cmd_arg x ∈ qs ++ args).
  { intros Hn x [Hx|Hx]%elem_of_app Hsig; apply elem_of_app; [left; apply Hq; [by right|done]|right; by eapply weave_asked]. }
  pose proof (arc_fires s c e Hp) as Ha. destruct (ev_sig e =? awaits s (stage (txn c))).
  - destruct (fires_ok _ _ _ _ _ _ _ Hinv Ha) as [F1 F2 (F3 & F4) F5 F6]. split; [|by eapply settles_mono].
    split; try done; cbn.
    + intros Hst. eapply in_flight_mono; [exact Hqs|]. exact (F2 Hst).
    + apply Hreq. case_bool_decide; [rewrite F6; set_solver|by destruct F6].
  - rewrite Ha in *. cbn in *. split; [|by left]. rewrite Hsub in *. split; try done; cbn.
    + intros Hst. eapply in_flight_mono; [exact Hqs|]. exact (Hfl Hst).
    + apply Hreq. set_solver.
Qed.

Lemma rstep_keeps lossy y y' : rinv y -> rstep lossy y y' -> rinv y' /\ settles_to (asked y') (rs_ctx y) (rs_ctx y').
Proof.
  intros Hinv Hs. destruct Hs as [s c e q l args h b c' qs Hd Hw|s c q arg qs|s c q x qs|s c q m qs|s c g qs Hst|s c q ca qs Hca].
  - cbn. destruct (dispatch_keeps _ _ _ _ _ _ _ _ _ _ _ Hinv Hd Hw) as [H1 H2]. split; [exact H1|exact H2].
  - destruct Hinv as [Hp Hfl Hq Hsub Hv Hs]. cbn in *. split; [|by left]. split; try done; cbn.
    + intros Hst. eapply in_flight_mono; [|by apply Hfl]. set_solver.
    + intros e [He| ->%list_elem_of_singleton]%elem_of_app Hsig; apply elem_of_app; [left; by apply Hq|right; by left].
  - destruct Hinv. split; [done|by left].
  - destruct Hinv. split; [done|by left].
  - destruct Hinv as [Hp Hfl Hq Hsub Hv Hs]. cbn in *. split; [|right; by apply at_rebuild]. split; try done.
  - destruct Hinv as [Hp Hfl Hq Hsub Hv Hs]. cbn in *. split; [|by left]. split; try done; cbn. congruence.
Qed.

Lemma rstep_asked lossy y y' : rstep lossy y y' -> asked y ⊆ asked y'.
Proof. destruct 1; cbn; set_solver. Qed.

Lemma rinv0 g : rinv (rsys0 g).
Proof. split; cbn; try done; [unfold posture; set_solver|set_solver]. Qed.

Lemma run_atomic lossy y0 y : rinv y0 -> rtc (rstep lossy) y0 y ->
  rinv y /\ asked y0 ⊆ asked y /\ rtc (atomic (asked y)) (config_of (rs_ctx y0)) (config_of (rs_ctx y)).
Proof.
  intros Hinv Hr. revert Hinv. induction Hr as [y|y0 y1 y Hs Hr IH]; intros Hinv; [split_and!; [done|set_solver|constructor]|].
  destruct (rstep_keeps _ _ _ Hinv Hs) as [Hi1 Hset]. destruct (IH Hi1) as (Hi & Hsub & Hrtc). split_and!; [done| |].
  - etrans; [by eapply rstep_asked|done].
  - destruct Hset as [Heq|Hat]; [by rewrite <- Heq|]. eapply rtc_l; [|done]. by eapply atomic_mono.
Qed.

(** C18: Reconfigurations are atomic.  However requests arrive during and between
    transactions, and even if the pool is exhausted and the object's own events
    are lost: no event makes the machine fault, and the committed configuration
    changes only by whole transactions, each for a request that was made.  A
    supported magnification is committed, with the geometry it gives, when a
    frame of that geometry was seen; otherwise the old geometry stays and the
    failure is counted.  The mode and enable fields of the output register, next
    to the opcode that is rewritten, never change, and the address cache always
    knows the current layout. *)
Theorem recfg_is_atomic (g : FrameGeometry) (y : rsys) :
  rtc (rstep true) (rsys0 g) y ->
  rtc (atomic (asked y)) (mkConfig (mkAuth kX1 g) 0 0) (config_of (rs_ctx y)) /\
  (forall e, is_ret (recfg_dispatch (rs_state y) (rs_ctx y) e) = true) /\
  globals_ok (rs_ctx y).
Proof.
  intros Hr. destruct (run_atomic _ _ _ (rinv0 g) Hr) as ([Hp _ _ _ Hv Hs] & _ & Ha). split_and!; [exact Ha| |by split].
  intros e. by destruct (dispatch_arc _ (rs_ctx y) e (posture_live _ _ Hp)) as [b ->].
Qed.

(** ** Every transaction settles *)

(** The dispatcher takes the next event; what the actions submit is queued. *)
Definition dispatch_next (y : rsys) : outcome rsys :=
  match rs_queue y with
  | [] => Ret y
  | e :: q =>
    match recfg_dispatch (rs_state y) (rs_ctx y) e with
    | Fatal => Fatal
    | Ret (_, c', h) => Ret (mkR (current_ h) (clear_submitted c') (q ++ map self_event (submitted c')) (asked y))
    end
  end.

Fixpoint drain (n : nat) (y : rsys) : outcome rsys :=
  match n with O => Ret y | S n => match dispatch_next y with Fatal => Fatal | Ret y' => drain n y' end end.

(** What is left to do: a request can cost eight dispatches, an arc of a
    transaction in flight one. *)
Definition weight (e : revent) : nat := if ev_sig e =? kRecfgReq then 8 else 1.
Definition remaining (s : Z) (st : RecfgStage) : nat :=
  if s =? kRcIdle then 0
  else if s =? kRcQuiesce then match st with stQuiescing => 5 | _ => 1 end
  else if s =? kRcApply then 4 else if s =? kRcSync then 3 else if s =? kRcResume then 2 else 1.
Definition work (y : rsys) : nat := (remaining (rs_state y) (stage (txn (rs_ctx y))) + list_sum (weight <$> rs_queue y))%nat.

(** The event that drives a transaction on is on its way. *)
Definition drives (y : rsys) : Prop :=
  rs_state y <> kRcIdle -> exists e, e ∈ rs_queue y /\ ev_sig e = awaits (rs_state y) (stage (txn (rs_ctx y))).

(** A window that is open will be closed. *)
Definition closing (y : rsys) : Prop :=
  rs_state y <> kRcIdle \/ (exists e, e ∈ rs_queue y /\ ev_sig e = kRecfgReq) \/ g_session (rs_ctx y) <> sRecfgTxn.

Lemma fires_work c e s s' c' :
  submitted c = [] -> fires c e s (stage (txn c)) s' c' ->
  (remaining s' (stage (txn c')) + length (submitted c') < remaining s (stage (txn c)) + weight e)%nat.
Proof.
  intros Hsub Hf. inversion Hf as [Hs|H1 Hst|H1 Hst|H1 Hst|H1 Hst|H1 Hst|H1 Hst]; subst; unfold weight;
    try rewrite <- Hst; cbn.
  - rewrite Hs. destruct (precheck_cases c e) as (_ & _ & _ & _ & _ & [(H1 & H2 & _)|(_ & H2 & _ & H3)]).
    + rewrite H1, H2, Hsub. cbn. lia.
    + rewrite H3, H2, Hsub. cbn. lia.
  - rewrite Hsub. destruct (_ =? _); cbn; lia.
  - unfold rcGoHome. destruct (bool_decide (g_session c = sRecfgTxn)), (_ =? _); cbn; rewrite ?Hsub; cbn; lia.
  - rewrite Hsub. destruct (_ =? _); cbn; lia.
  - rewrite Hsub. destruct (_ =? _); cbn; lia.
  - unfold rcEnterCommit. destruct (negb _), (ev_sig e =? kRecfgReq); cbn; rewrite Hsub; cbn; lia.
  - unfold rcGoHome. destruct (bool_decide (g_session c = sRecfgTxn)), (_ =? _); cbn; rewrite ?Hsub; cbn; lia.
Qed.

Lemma fires_session c e s st s' c' : fires c e s st s' c' -> s' = kRcIdle -> g_session c' <> sRecfgTxn.
Proof. intros Hf. inversion Hf; subst; try done; intros _; unfold rcGoHome; case_bool_decide; done. Qed.

Lemma weave_all subs l args sig : weave false subs l args -> sig ∈ subs -> self_event sig ∈ l.
Proof. induction 1; intros Hs; set_unfold; naive_solver. Qed.

Lemma weave_exact lossy subs : weave lossy subs (map self_event subs) [].
Proof. induction subs; cbn; by constructor. Qed.

(** A dispatch keeps the driving event, whatever requests it meets. *)
Lemma dispatch_drives s c e q qs l args b c' h :
  rinv (mkR s c (e :: q) qs) -> drives (mkR s c (e :: q) qs) -> recfg_dispatch s c e = Ret (b, c', h) ->
  weave false (submitted c') l args -> drives (mkR (current_ h) (clear_submitted c') (q ++ l) (qs ++ args)).
Proof.
  intros Hinv Hdr Hd Hw. pose proof (ri_posture _ Hinv) as Hp. cbn in Hp.
  destruct (dispatch_arc s c e (posture_live _ _ Hp)) as [b' Hd']. rewrite Hd' in Hd. injection Hd as _ <- <-.
  pose proof (arc_fires s c e Hp) as Ha. unfold drives in *. cbn in *.
  destruct (Z.eqb_spec (ev_sig e) (awaits s (stage (txn c)))) as [He|He].
  - intros Hs. destruct (fires_ok _ _ _ _ _ _ _ Hinv Ha) as [_ _ _ _ F]. rewrite bool_decide_eq_false_2 in F by done. destruct F as [F _].
    eexists. split; [apply elem_of_app; right; by eapply weave_all|done].
  - rewrite Ha. cbn. intros Hs. destruct (Hdr Hs) as (x & [->|Hx]%elem_of_cons & Hsig); [done|].
    exists x. split; [apply elem_of_app; by left|done].
Qed.

Lemma rstep_drives y y' : rinv y -> drives y -> rstep false y y' -> drives y'.
Proof.
  intros Hinv Hdr Hs. destruct Hs as [s c e q l args h b c' qs Hd Hw|s c q arg qs| | | |].
  - by eapply dispatch_drives.
  - intros Hs. destruct (Hdr Hs) as (x & Hx & Hsig). exists x. split; [apply elem_of_app; by left|done].
  - exact Hdr.
  - exact Hdr.
  - exact Hdr.
  - exact Hdr.
Qed.

Lemma run_drives g y : rtc (rstep false) (rsys0 g) y -> rinv y /\ drives y.
Proof.
  apply (rtc_invariant _ (fun y => rinv y /\ drives y)); [|split; [apply rinv0|by intros []]].
  intros a b [H1 H2] Hs. split; [by eapply rstep_keeps|by eapply rstep_drives].
Qed.

Lemma sum_weights_cons e q : list_sum (weight <$> e :: q) = (weight e + list_sum (weight <$> q))%nat.
Proof. done. Qed.

Lemma sum_weights_self subs : kRecfgReq ∉ subs -> list_sum (weight <$> map self_event subs) = length subs.
Proof.
  induction subs as [|x subs IH]; intros Hn; [done|]. apply not_elem_of_cons in Hn as [Hx Hn].
  cbn [map]. rewrite sum_weights_cons, IH by done. unfold weight. cbn [ev_sig self_event]. by rewrite (proj2 (Z.eqb_neq _ _)) by done.
Qed.

Lemma next_ok y e q :
  rinv y -> drives y -> rs_queue y = e :: q ->
  exists y', dispatch_next y = Ret y' /\ rinv y' /\ drives y' /\ (work y' < work y)%nat /\ (closing y -> closing y').
Proof.
  intros Hinv Hdr Hq. destruct y as [s c q0 qs]. cbn in Hq. subst q0. pose proof Hinv as [Hp _ _ Hsub _ _]. cbn in Hp, Hsub.
  destruct (dispatch_arc s c e (posture_live _ _ Hp)) as [b Hd]. unfold dispatch_next. cbn [rs_queue rs_state rs_ctx asked]. rewrite Hd.
  eexists. split; [reflexivity|]. pose proof (weave_exact false (submitted (arc s c e).2)) as Hw.
  pose proof (dispatch_keeps _ _ _ _ _ _ _ _ _ _ _ Hinv Hd Hw) as [Hi _]. pose proof (dispatch_drives _ _ _ _ _ _ _ _ _ _ Hinv Hdr Hd Hw) as Hdr'.
  rewrite app_nil_r in Hi, Hdr'. split_and!; [done|done| |].
  - pose proof (arc_fires s c e Hp) as Ha. unfold work. cbn [rs_state rs_ctx rs_queue txn clear_submitted current_ recfg_machine].
    rewrite fmap_app, list_sum_app, sum_weights_cons.
    destruct (Z.eqb_spec (ev_sig e) (awaits s (stage (txn c)))) as [He|He].
    + pose proof (fires_work _ _ _ _ _ Hsub Ha). pose proof (fo_subs _ _ _ _ (fires_ok _ _ _ _ _ _ _ Hinv Ha)) as F.
      rewrite sum_weights_self; [lia|]. case_bool_decide; [rewrite F; set_solver|by destruct F].
    + rewrite Ha. cbn [fst snd]. rewrite Hsub. cbn [map fmap list_fmap list_sum fold_right]. unfold weight at 2. destruct (_ =? _); lia.
  - pose proof (arc_fires s c e Hp) as Ha. unfold closing. cbn.
    destruct (Z.eqb_spec (ev_sig e) (awaits s (stage (txn c)))) as [He|He].
    + intros _. destruct (decide ((arc s c e).1 = kRcIdle)) as [E|]; [right; right; by eapply fires_session|by left].
    + rewrite Ha. cbn. intros [Hc|[(x & [->|Hx]%elem_of_cons & Hsig)|Hc]]; [by left| | |by right; right].
      * destruct (decide (s = kRcIdle)) as [->|]; [|by left]. by rewrite Hsig in He.
      * right; left. exists x. split; [apply elem_of_app; by left|done].
Qed.

Lemma drain_ok n y :
  rinv y -> drives y -> (work y <= n)%nat ->
  exists y', drain n y = Ret y' /\ rs_queue y' = [] /\ rinv y' /\ drives y' /\ (closing y -> closing y').
Proof.
  revert y. induction n as [|n IH]; intros y Hinv Hdr Hw.
  - exists y. destruct (rs_queue y) as [|e q] eqn:Hq; [done|]. exfalso. unfold work in Hw. rewrite Hq, sum_weights_cons in Hw.
    unfold weight at 1 in Hw. destruct (_ =? _); lia.
  - cbn [drain]. destruct (rs_queue y) as [|e q] eqn:Hq.
    + unfold dispatch_next. rewrite Hq. apply IH; try done. unfold work in *. rewrite Hq. cbn. unfold remaining.
      destruct (Z.eqb_spec (rs_state y) kRcIdle) as [|Hs]; [lia|]. destruct (Hdr Hs) as (x & Hx & _). rewrite Hq in Hx. by apply elem_of_nil in Hx.
    + destruct (next_ok _ _ _ Hinv Hdr Hq) as (y1 & -> & H1 & H2 & H3 & H4). destruct (IH y1 H1 H2) as (y2 & -> & Hq2 & H5 & H6 & H7); [lia|].
      exists y2. auto 10.
Qed.

(** Every transaction settles.  Take any moment of any run in which the
    object's own events are not lost, and let the dispatcher work off the queue
    without new requests.  After at most as many dispatches as [work] says,
    eight for each waiting request and one for each other event and each stage
    left, the queue is empty, the machine and its mirror are idle, and the
    session window is closed again if a transaction was open or waiting. *)
Theorem recfg_settles (g : FrameGeometry) (y : rsys) :
  rtc (rstep false) (rsys0 g) y ->
  exists y', drain (work y) y = Ret y' /\ rs_queue y' = [] /\ rs_state y' = kRcIdle /\ stage (txn (rs_ctx y')) = stIdle /\
    (rs_state y <> kRcIdle \/ (exists e, e ∈ rs_queue y /\ ev_sig e = kRecfgReq) -> g_session (rs_ctx y') <> sRecfgTxn).
Proof.
  intros Hr. destruct (run_drives g y Hr) as [Hinv Hdr]. destruct (drain_ok (work y) y Hinv Hdr) as (y' & Hd & Hq & Hi & Hdr' & Hc); [done|].
  assert (Hs : rs_state y' = kRcIdle).
  { destruct (decide (rs_state y' = kRcIdle)); [done|]. destruct Hdr' as (x & Hx & _); [done|]. rewrite Hq in Hx. by apply elem_of_nil in Hx. }
  exists y'. split_and!; try done.
  - pose proof (ri_posture _ Hi) as Hp. rewrite Hs in Hp. unfold posture in Hp. set_unfold. naive_solver.
  - intros Hb. destruct Hc as [Hc|[(x & Hx & _)|Hc]]; [unfold closing; tauto|done| |done]. rewrite Hq in Hx. by apply elem_of_nil in Hx.
Qed.

(** ** Concrete runs *)

Lemma next_step lossy y y' : dispatch_next y = Ret y' -> rtc (rstep lossy) y y'.
Proof.
  unfold dispatch_next. destruct y as [s c q qs]. cbn [rs_queue rs_state rs_ctx asked].
  destruct q as [|e q]; [intros [= <-]; constructor|]. destruct (recfg_dispatch s c e) as [[[b c'] h]|] eqn:Hd; [|done].
  intros [= <-]. rewrite <- (app_nil_r qs) at 2. apply rtc_once. eapply r_dispatch; [exact Hd|apply weave_exact].
Qed.

Lemma drain_run lossy n y y' : drain n y = Ret y' -> rtc (rstep lossy) y y'.
Proof.
  revert y. induction n as [|n IH]; intros y; cbn [drain]; [intros [= <-]; constructor|].
  destruct (dispatch_next y) as [y1|] eqn:Hn; [|done]. intros Hd. etrans; [by eapply next_step|by apply IH].
Qed.

Definition sensor : FrameGeometry := mkGeom 640 514 2.

(** Requests one after the other, each worked off. *)
Fixpoint serve (args : list Z) (y : rsys) : outcome rsys :=
  match args with
  | [] => Ret y
  | a :: args =>
    let y1 := mkR (rs_state y) (rs_ctx y) (rs_queue y ++ [request a]) (asked y ++ [a]) in
    match drain (work y1) y1 with Fatal => Fatal | Ret y2 => serve args y2 end
  end.

Lemma serve_run lossy args y y' : serve args y = Ret y' -> rtc (rstep lossy) y y'.
Proof.
  revert y. induction args as [|a args IH]; intros y; cbn [serve]; [intros [= <-]; constructor|].
  destruct (drain _ _) as [y1|] eqn:Hd; [|done]. intros Hs. eapply rtc_l; [|etrans; [by eapply drain_run|by apply IH]].
  destruct y as [s c q qs]. apply r_request.
Qed.

Definition served (args : list Z) : rsys := match serve args (rsys0 sensor) with Ret y => y | Fatal => rsys0 sensor end.

Lemma served_run lossy args : rtc (rstep lossy) (rsys0 sensor) (served args).
Proof. unfold served. destruct (serve args _) eqn:Hs; [by eapply serve_run|constructor]. Qed.

Lemma recfg_is_atomic_witness :
  config_of (rs_ctx (served [request_arg kX4 false; request_arg kX2 true; request_arg kX2 false]))
    = mkConfig (mkAuth kX2 (mkGeom 1280 1028 2)) 1 2 /\
  globals_ok (rs_ctx (served [request_arg kX4 false; request_arg kX2 true; request_arg kX2 false])).
Proof.
  split; [vm_compute; reflexivity|]. apply (recfg_is_atomic sensor). exact (served_run true _).
Defined.

Lemma recfg_settles_witness :
  exists y', drain (work (served [request_arg kX2 false])) (served [request_arg kX2 false]) = Ret y' /\ rs_state y' = kRcIdle.
Proof.
  destruct (recfg_settles sensor (served [request_arg kX2 false])) as (y' & H1 & _ & H2 & _); [exact (served_run false _)|].
  exact (ex_intro _ y' (conj H1 H2)).
Defined.

(** The magnification and the geometry part ways: X1 after X2 keeps the doubled
    geometry, X2 after X2 doubles it again, and a failed X2 after X2 is recorded
    as X1 with the geometry of X2. *)
Theorem magnification_diverges :
  auth (rs_ctx (served [request_arg kX2 false; request_arg kX1 false])) = mkAuth kX1 (mkGeom 1280 1028 2) /\
  auth (rs_ctx (served [request_arg kX2 false; request_arg kX2 false])) = mkAuth kX2 (mkGeom 2560 2056 2) /\
  auth (rs_ctx (served [request_arg kX2 false; request_arg kX2 true])) = mkAuth kX1 (mkGeom 1280 1028 2).
Proof. vm_compute. done. Qed.

(** ** The address cache and the mirror *)

(** A record written before a layout change is not returned after it, and the
    first query drops it. *)
Lemma stale_record_dies c addr :
  in_u 32 (ac_version c) ->
  let c' := mkCache (u32 (ac_version c + 1)) (ac_rec (ac_store c addr)) in
  (ac_query (ac_store c addr)).1 = Some addr /\ ac_query c' = (None, mkCache (ac_version c') addr0).
Proof.
  intros Hv. cbv zeta. unfold ac_query, ac_store. cbn. rewrite Z.eqb_refl. split; [done|].
  rewrite (proj2 (Z.eqb_neq _ _)); [done|]. unfold wrap, in_u in *. change (2 ^ 32) with 4294967296 in *. Z.to_euclidean_division_equations; lia.
Qed.

(** Mirroring a rectangle of the display twice gives it back, and the result is
    always normalised and inside. *)
Lemma mirror_involutive m r :
  in_u 16 (dm_width m) -> 0 <= x0 r <= x1 r -> x1 r < dm_width m ->
  transform (transform r m) m = r /\ 0 <= x0 (transform r m) <= x1 (transform r m) /\ x1 (transform r m) < dm_width m.
Proof.
  unfold in_u. intros Hw Hx Hlt. destruct r as [a b c d]. unfold transform, map_x. cbn [x0 x1 y0 y1] in *.
  destruct (horizontal m); cbn [x0 x1 y0 y1].
  - rewrite !(wrap_small 16 (dm_width m - 1 - a)), !(wrap_small 16 (dm_width m - 1 - c)) by (unfold in_u; lia).
    destruct (Z.ltb_spec (dm_width m - 1 - a) (dm_width m - 1 - c)); [lia|].
    rewrite !wrap_small by (unfold in_u; lia). destruct (Z.ltb_spec (dm_width m - 1 - (dm_width m - 1 - c)) (dm_width m - 1 - (dm_width m - 1 - a)));
      (split; [f_equal; lia|lia]).
  - destruct (Z.ltb_spec a c); cbn [x0 x1 y0 y1].
    + rewrite (proj2 (Z.ltb_lt a c)) by lia. split; [done|lia].
    + replace c with a by lia. rewrite Z.ltb_irrefl. split; [done|lia].
Qed.
