(* ===== verification/Ddr.v ===== *)
(** * The frame store (examples/isp_pipeline/common.hpp)

    [DdrCtx]: for each of seven image regions a ring of eight slots of raw bytes,
    a frame stamp at the head of each, and beside them the map of the frames the
    slots hold and the owners.  [std::size_t] arithmetic does not occur; an index
    outside an array is [Fatal]. *)

From S2P Require Import Prelude Mem.

Definition kDdrFrameBytes : Z := 64.
Definition kTripleBufSize : Z := 3.
Definition kDdrSlots : Z := 8.
Definition kStampBytes : Z := 8.
Definition kSlotPayloadBytes : Z := 56.
Definition kDdrCount : Z := 7.

Inductive SlotOwner := oFree | oWriterOwned | oReaderClaimed.

#[export] Instance SlotOwner_eq_dec : EqDecision SlotOwner.
Proof. solve_decision. Defined.

Record DdrRegion := mkRegion { r_slots : list (list Z); slot_frame : list Z; owner : list SlotOwner; write_idx : Z }.

(** The initialiser [slot_frame{kDdrSlots, 0xFFFFFFFF}] sets the first two
    elements; the others are zero. *)
Definition region0 : DdrRegion :=
  mkRegion (replicate 8 (replicate 64 0)) [kDdrSlots; 0xFFFFFFFF; 0; 0; 0; 0; 0; 0] (replicate 8 oFree) 0.

Definition r_claim (r : DdrRegion) : Z * DdrRegion :=
  (write_idx r mod kTripleBufSize, mkRegion (r_slots r) (slot_frame r) (owner r) (u16 (write_idx r + 1))).
Definition r_last (r : DdrRegion) : Z := if write_idx r =? 0 then u16 (kTripleBufSize - 1) else u16 (write_idx r - 1).

Record FrameStamp := mkStamp { st_frame_id : Z; st_region : Z; st_seq : Z }.

(** The stamp as it lies in memory. *)
Definition stamp_bytes (s : FrameStamp) : list Z := le_bytes 4 (st_frame_id s) ++ le_bytes 2 (st_region s) ++ le_bytes 2 (st_seq s).

Definition dn_slot_of (frame_id : Z) : Z := u16 (frame_id mod kDdrSlots).

Record DdrCtx := mkDdr {
  regions : list DdrRegion; write_ops : Z; read_ops : Z; overrun_drops : Z; ownership_skips : Z; stamp_seq : Z
}.

Definition ddr0 : DdrCtx := mkDdr (replicate 7 region0) 0 0 0 0 0.

(** [a[i]] of any array. *)
Definition at_index {A} (l : list A) (i : Z) : outcome A :=
  if i <? 0 then Fatal else match l !! Z.to_nat i with Some x => Ret x | None => Fatal end.

Definition set_region (d : DdrCtx) (id : Z) (r : DdrRegion) : DdrCtx :=
  mkDdr (<[Z.to_nat id := r]> (regions d)) (write_ops d) (read_ops d) (overrun_drops d) (ownership_skips d) (stamp_seq d).

Definition ddr_write (d : DdrCtx) (id frame_id : Z) (src : list Z) : outcome (Z * DdrCtx) :=
  r ← at_index (regions d) id;
  let slot := dn_slot_of frame_id in
  o ← at_index (owner r) slot;
  if bool_decide (o = oReaderClaimed) then
    mret (slot, mkDdr (regions d) (write_ops d) (read_ops d) (overrun_drops d) (u32 (ownership_skips d + 1)) (stamp_seq d))
  else
    mem ← at_index (r_slots r) slot;
    let seq := u16 (stamp_seq d + 1) in
    mem ← copy_to mem 0 (stamp_bytes (mkStamp frame_id (u16 id) seq));
    data ← span src 0 kSlotPayloadBytes;
    mem ← copy_to mem kStampBytes data;
    let i := Z.to_nat slot in
    let r := mkRegion (<[i := mem]> (r_slots r)) (<[i := frame_id]> (slot_frame r)) (<[i := oWriterOwned]> (owner r)) (write_idx r) in
    mret (slot, mkDdr (<[Z.to_nat id := r]> (regions d)) (u32 (write_ops d + 1)) (read_ops d) (overrun_drops d) (ownership_skips d) seq).

Definition count_overrun (d : DdrCtx) : DdrCtx :=
  mkDdr (regions d) (write_ops d) (read_ops d) (u32 (overrun_drops d + 1)) (ownership_skips d) (stamp_seq d).

(** [None] is [false]. *)
Definition ddr_read (d : DdrCtx) (id slot frame_id : Z) : outcome (option (list Z) * DdrCtx) :=
  r ← at_index (regions d) id;
  f ← at_index (slot_frame r) slot;
  if negb (f =? frame_id) then mret (None, count_overrun d)
  else
    mem ← at_index (r_slots r) slot;
    stamp ← read_word mem 0 4;
    if negb (stamp =? frame_id) then mret (None, count_overrun d)
    else
      data ← span mem kStampBytes kSlotPayloadBytes;
      let r := mkRegion (r_slots r) (slot_frame r) (<[Z.to_nat slot := oFree]> (owner r)) (write_idx r) in
      mret (Some data, mkDdr (<[Z.to_nat id := r]> (regions d)) (write_ops d) (u32 (read_ops d + 1)) (overrun_drops d)
                         (ownership_skips d) (stamp_seq d)).

(** The synthetic frame. *)
Definition fill_dn (frame_id : Z) : list Z :=
  map (fun i => Z.land (u32 (u32 (frame_id * 7) + Z.of_nat i)) 0xFF) (seq 0 56).

(** * The frame store keeps the latest frame of each slot (examples/isp_pipeline/common.hpp)

    Against the plain store that remembers, for each region and residue of the
    frame number modulo eight, the last frame written. *)

(** ** The plain store *)

Definition latest : Type := Z -> Z -> option (Z * list Z).

Definition put (s : latest) (id frame_id : Z) (src : list Z) : latest := fun i k =>
  if (i =? id) && (k =? frame_id mod 8) then Some (frame_id, take 56 src) else s i k.

Definition get (s : latest) (id frame_id : Z) : option (list Z) :=
  match s id (frame_id mod 8) with Some (f, p) => if f =? frame_id then Some p else None | None => None end.

(** ** Runs *)

Inductive dop := DWrite (id frame_id : Z) (src : list Z) | DRead (id frame_id : Z).

(** A write names a region, a frame and at least a payload; a read looks where
    the frame was put. *)
Definition dop_ok (o : dop) : Prop :=
  match o with
  | DWrite id f src => 0 <= id < 7 /\ in_u 32 f /\ (56 <= length src)%nat
  | DRead id f => 0 <= id < 7 /\ in_u 32 f
  end.

(** The answers of the reads. *)
Fixpoint ddr_run (ops : list dop) (d : DdrCtx) : outcome (list (option (list Z)) * DdrCtx) :=
  match ops with
  | [] => mret ([], d)
  | DWrite id f src :: ops => r ← ddr_write d id f src; ddr_run ops r.2
  | DRead id f :: ops =>
    r ← ddr_read d id (dn_slot_of f) f; rest ← ddr_run ops r.2; mret (r.1 :: rest.1, rest.2)
  end.

Fixpoint latest_run (ops : list dop) (s : latest) : list (option (list Z)) :=
  match ops with
  | [] => []
  | DWrite id f src :: ops => latest_run ops (put s id f src)
  | DRead id f :: ops => get s id f :: latest_run ops s
  end.

(** ** The invariant *)

Definition slot_ok (w : option (Z * list Z)) (k f : Z) (mem : list Z) : Prop :=
  match w with
  | None => mem = replicate 64 0 /\ [kDdrSlots; 0xFFFFFFFF; 0; 0; 0; 0; 0; 0] !! Z.to_nat k = Some f
  | Some (fr, p) => f = fr /\ in_u 32 fr /\ length p = 56%nat /\ exists rg sq, mem = stamp_bytes (mkStamp fr rg sq) ++ p
  end.

Definition region_ok (s : latest) (id : Z) (r : DdrRegion) : Prop :=
  forall k, 0 <= k < 8 -> exists mem f o,
    r_slots r !! Z.to_nat k = Some mem /\ slot_frame r !! Z.to_nat k = Some f /\ owner r !! Z.to_nat k = Some o /\
    o <> oReaderClaimed /\ slot_ok (s id k) k f mem.

Definition ddr_inv (s : latest) (d : DdrCtx) : Prop :=
  length (regions d) = 7%nat /\ ownership_skips d = 0 /\
  forall id, 0 <= id < 7 -> exists r, regions d !! Z.to_nat id = Some r /\ region_ok s id r.

Lemma at_index_ret {A} (l : list A) i x : 0 <= i -> l !! Z.to_nat i = Some x -> at_index l i = Ret x.
Proof. intros Hi Hl. unfold at_index. by rewrite (proj2 (Z.ltb_ge i 0) Hi), Hl. Qed.

Lemma slot_range f : in_u 32 f -> dn_slot_of f = f mod 8 /\ 0 <= f mod 8 < 8.
Proof.
  intros Hf. pose proof (Z.mod_pos_bound f 8 ltac:(lia)). split; [|done]. unfold dn_slot_of, kDdrSlots. apply wrap_small.
  unfold in_u. change (2 ^ 16) with 65536. lia.
Qed.

Lemma ddr_inv0 : ddr_inv (fun _ _ => None) ddr0.
Proof.
  split_and!; [done..|]. intros id Hid. exists region0. split.
  - cbn [regions ddr0]. apply lookup_replicate. split; [done|lia].
  - intros k Hk. assert (Hn : (Z.to_nat k < 8)%nat) by lia. exists (replicate 64 0).
    destruct (lookup_lt_is_Some_2 (slot_frame region0) (Z.to_nat k)) as [f Hf]; [exact Hn|].
    exists f, oFree. split_and!; try done; by apply lookup_replicate.
Qed.

Lemma stamp_length s : length (stamp_bytes s) = 8%nat.
Proof. unfold stamp_bytes. by rewrite !length_app, !le_bytes_length. Qed.

Lemma slot_ok_length w k f mem : slot_ok w k f mem -> length mem = 64%nat.
Proof. destruct w as [[fr p]|]; [|by intros [-> _]]. intros (_ & _ & Hp & rg & sq & ->). rewrite length_app, stamp_length, Hp. done. Qed.

(** ** Writes *)

Lemma write_slot mem s src :
  length mem = 64%nat -> (56 <= length src)%nat ->
  exists m1, copy_to mem 0 (stamp_bytes s) = Ret m1 /\ span src 0 kSlotPayloadBytes = Ret (take 56 src) /\
    copy_to m1 kStampBytes (take 56 src) = Ret (stamp_bytes s ++ take 56 src).
Proof.
  intros Hm Hs. pose proof (stamp_length s) as Hst. eexists. split; [apply copy_to_ret; lia|]. split; [by rewrite span_ret by (unfold kSlotPayloadBytes; lia)|].
  rewrite Hst. change (Z.to_nat 0) with 0%nat. rewrite take_0, app_nil_l. change (0 + 8)%nat with 8%nat.
  assert (Ht : length (take 56 src) = 56%nat) by (rewrite length_take; lia).
  rewrite copy_to_ret; [|unfold kStampBytes; lia|unfold kStampBytes; rewrite length_app, length_drop, Hst, Ht; lia].
  change (Z.to_nat kStampBytes) with 8%nat. f_equal. rewrite take_app_le, firstn_all2 by lia. f_equal.
  rewrite Ht, drop_ge by (rewrite length_app, length_drop, Hst; lia). by rewrite app_nil_r.
Qed.

Lemma write_keeps s d id f src :
  ddr_inv s d -> 0 <= id < 7 -> in_u 32 f -> (56 <= length src)%nat ->
  exists d', ddr_write d id f src = Ret (f mod 8, d') /\ ddr_inv (put s id f src) d'.
Proof.
  intros (Hlen & Hsk & Hr) Hid Hf Hsrc. destruct (slot_range f Hf) as [Hslot Hk]. destruct (Hr id Hid) as (r & Hrl & Hro).
  destruct (Hro _ Hk) as (mem & fr & o & Hm & Hfr & Ho & Hoc & Hok). unfold ddr_write. rewrite (at_index_ret _ _ _ (proj1 Hid) Hrl).
  cbn [mbind outcome_bind]. rewrite Hslot, (at_index_ret _ _ _ (proj1 Hk) Ho). cbn [mbind outcome_bind].
  rewrite bool_decide_eq_false_2 by done. rewrite (at_index_ret _ _ _ (proj1 Hk) Hm). cbn [mbind outcome_bind].
  destruct (write_slot mem (mkStamp f (u16 id) (u16 (stamp_seq d + 1))) src (slot_ok_length _ _ _ _ Hok) Hsrc) as (m1 & -> & Hsp & Hc).
  cbn [mbind outcome_bind]. rewrite Hsp. cbn [mbind outcome_bind]. rewrite Hc. cbn [mbind outcome_bind].
  eexists. split; [reflexivity|]. split_and!; [cbn; by rewrite length_insert|done|]. intros i Hi. cbn [regions].
  destruct (decide (i = id)) as [->|Hne].
  - rewrite list_lookup_insert_eq by (rewrite Hlen; lia). eexists. split; [reflexivity|]. intros k Hkk. unfold put. rewrite Z.eqb_refl. cbn [andb].
    destruct (Hro k Hkk) as (mem' & fr' & o' & Hm' & Hfr' & Ho' & Hoc' & Hok'). cbn [r_slots slot_frame owner].
    destruct (Z.eqb_spec k (f mod 8)) as [->|Hkn].
    + rewrite !list_lookup_insert_eq by (by eapply lookup_lt_Some). do 3 eexists. split_and!; try done. cbn [slot_ok].
      split_and!; [done|done|rewrite length_take; lia|]. eexists _, _. reflexivity.
    + rewrite !list_lookup_insert_ne by lia. by exists mem', fr', o'.
  - rewrite list_lookup_insert_ne by lia. destruct (Hr i Hi) as (r' & Hrl' & Hro'). exists r'. split; [done|]. intros k Hkk.
    unfold put. rewrite (proj2 (Z.eqb_neq i id)) by done. cbn [andb]. by apply Hro'.
Qed.

(** ** Reads *)

Lemma initial_frames k f : 0 <= k < 8 -> [kDdrSlots; 0xFFFFFFFF; 0; 0; 0; 0; 0; 0] !! Z.to_nat k = Some f -> f mod 8 = k -> f <> 0.
Proof.
  intros Hk Hl Hm Hz. subst f. change (0 mod 8) with 0 in Hm. subst k. by cbn in Hl.
Qed.

Lemma read_stamp fr rg sq p : in_u 32 fr -> read_word (stamp_bytes (mkStamp fr rg sq) ++ p) 0 4 = Ret fr.
Proof.
  intros Hf. unfold stamp_bytes. cbn [st_frame_id st_region st_seq]. rewrite <- !app_assoc.
  apply (read_word_at _ [] 4 fr) with (post := le_bytes 2 rg ++ le_bytes 2 sq ++ p); [done|]. unfold in_u in Hf.
  change (256 ^ Z.of_nat 4) with (2 ^ 32). lia.
Qed.

Lemma read_keeps s d id f :
  ddr_inv s d -> 0 <= id < 7 -> in_u 32 f -> exists d', ddr_read d id (dn_slot_of f) f = Ret (get s id f, d') /\ ddr_inv s d'.
Proof.
  intros (Hlen & Hsk & Hr) Hid Hf. destruct (slot_range f Hf) as [Hslot Hk]. destruct (Hr id Hid) as (r & Hrl & Hro).
  destruct (Hro _ Hk) as (mem & fr & o & Hm & Hfr & Ho & Hoc & Hok). unfold ddr_read. rewrite (at_index_ret _ _ _ (proj1 Hid) Hrl).
  cbn [mbind outcome_bind]. rewrite Hslot, (at_index_ret _ _ _ (proj1 Hk) Hfr). cbn [mbind outcome_bind]. unfold get.
  destruct (Z.eqb_spec fr f) as [->|Hne]; cbn [negb].
  2: { exists (count_overrun d). split; [|by split_and!]. destruct (s id (f mod 8)) as [[fr' p]|]; [|done]. destruct Hok as [-> _].
       by rewrite (proj2 (Z.eqb_neq _ _)) by done. }
  rewrite (at_index_ret _ _ _ (proj1 Hk) Hm). cbn [mbind outcome_bind]. destruct (s id (f mod 8)) as [[fr' p]|].
  - destruct Hok as (<- & Hu & Hp & rg & sq & ->). rewrite read_stamp by done. cbn [mbind outcome_bind]. rewrite Z.eqb_refl. cbn [negb].
    rewrite span_ret; [|unfold kStampBytes; lia|unfold kStampBytes, kSlotPayloadBytes; rewrite length_app, stamp_length, Hp; lia].
    cbn [mbind outcome_bind]. change (Z.to_nat kStampBytes) with 8%nat. change (Z.to_nat kSlotPayloadBytes) with 56%nat.
    rewrite drop_app_length', firstn_all2 by (first [by rewrite stamp_length|lia]). eexists. split; [reflexivity|].
    split_and!; [cbn; by rewrite length_insert|done|]. intros i Hi. cbn [regions].
    destruct (decide (i = id)) as [->|Hne]; [|rewrite list_lookup_insert_ne by lia; by apply Hr].
    rewrite list_lookup_insert_eq by (rewrite Hlen; lia). eexists. split; [reflexivity|]. intros k Hkk.
    destruct (Hro k Hkk) as (mem' & fr' & o' & Hm' & Hfr' & Ho' & Hoc' & Hok'). cbn [r_slots slot_frame owner].
    destruct (decide (k = f mod 8)) as [->|Hkn].
    + rewrite list_lookup_insert_eq by (by eapply lookup_lt_Some). by exists mem', fr', oFree.
    + rewrite list_lookup_insert_ne by lia. by exists mem', fr', o'.
  - destruct Hok as [-> Hini]. change (read_word (replicate 64 0) 0 4) with (Ret 0). cbn [mbind outcome_bind].
    pose proof (initial_frames _ _ Hk Hini eq_refl) as Hnz. rewrite (proj2 (Z.eqb_neq 0 f)) by lia. cbn [negb].
    eexists. split; [reflexivity|by split_and!].
Qed.

(** C23: The frame store is the latest frame of each slot.  Over any sequence of
    writes and reads, of any frame numbers, no access leaves an array; a read of
    a frame returns exactly the payload last written for it when no later frame
    has taken its slot, and fails otherwise, also for slots never written; the
    regions do not disturb each other, and no write finds its slot claimed. *)
Theorem ddr_refines_latest (ops : list dop) :
  Forall dop_ok ops -> exists d', ddr_run ops ddr0 = Ret (latest_run ops (fun _ _ => None), d') /\ ownership_skips d' = 0.
Proof.
  generalize (fun _ _ : Z => @None (Z * list Z)) as s, ddr0 as d, ddr_inv0. intros s d Hinv Hops. revert s d Hinv.
  induction Hops as [|o ops Ho _ IH]; intros s d Hinv; [exists d; by destruct Hinv as (_ & ? & _)|].
  destruct o as [id f src|id f]; cbn [ddr_run latest_run].
  - destruct Ho as (Hid & Hf & Hs). destruct (write_keeps s d id f src Hinv Hid Hf Hs) as (d1 & -> & Hi1). cbn [mbind outcome_bind snd]. by apply IH.
  - destruct Ho as (Hid & Hf). destruct (read_keeps s d id f Hinv Hid Hf) as (d1 & -> & Hi1). cbn [mbind outcome_bind fst snd].
    destruct (IH s d1 Hi1) as (d2 & -> & H2). exists d2. done.
Qed.

Definition demo_ops : list dop := [DWrite 0 5 (fill_dn 5); DRead 0 5; DWrite 0 13 (fill_dn 13); DRead 0 5; DRead 0 13; DRead 1 13].

Lemma ddr_refines_latest_witness :
  exists d', ddr_run demo_ops ddr0 = Ret ([Some (fill_dn 5); None; Some (fill_dn 13); None], d') /\ ownership_skips d' = 0.
Proof.
  apply (ddr_refines_latest demo_ops). unfold demo_ops, dop_ok, in_u.
  repeat constructor; try lia; unfold fill_dn; rewrite length_map, length_seq; lia.
Defined.

(** ** Outside the theorem *)

(** A reader that looks in a slot other than the frame's own reads zeroes out of a
    context nobody has written: slots 2 to 7 start out naming frame 0. *)
Lemma fresh_slot_answers (id slot : Z) :
  0 <= id < 7 -> 2 <= slot < 8 -> exists d', ddr_read ddr0 id slot 0 = Ret (Some (replicate 56 0), d').
Proof.
  intros Hid Hs. unfold ddr_read. rewrite (at_index_ret _ _ region0 (proj1 Hid)) by (apply lookup_replicate; split; [done|lia]).
  cbn [mbind outcome_bind]. rewrite (at_index_ret _ slot 0).
  - change (negb (0 =? 0)) with false. cbn iota. rewrite (at_index_ret _ slot (replicate 64 0) ltac:(lia)) by (apply lookup_replicate; split; [done|lia]).
    eexists. reflexivity.
  - lia.
  - assert (Hc : slot = 2 \/ slot = 3 \/ slot = 4 \/ slot = 5 \/ slot = 6 \/ slot = 7) by lia.
    by destruct Hc as [-> | [-> | [-> | [-> | [-> | ->]]]]].
Qed.

(** The two halves of [read]: the guards, and the claim with the copy. *)
Definition read_guards (d : DdrCtx) (id slot frame_id : Z) : outcome bool :=
  r ← at_index (regions d) id; f ← at_index (slot_frame r) slot;
  if negb (f =? frame_id) then mret false else mem ← at_index (r_slots r) slot; stamp ← read_word mem 0 4; mret (stamp =? frame_id).
Definition read_copies (d : DdrCtx) (id slot : Z) : outcome (list Z) :=
  r ← at_index (regions d) id; mem ← at_index (r_slots r) slot; span mem kStampBytes kSlotPayloadBytes.

Lemma read_halves d id slot f data d' :
  ddr_read d id slot f = Ret (Some data, d') -> read_guards d id slot f = Ret true /\ read_copies d id slot = Ret data.
Proof.
  unfold ddr_read, read_guards, read_copies. destruct (at_index (regions d) id) as [r|]; cbn [mbind outcome_bind]; try done.
  destruct (at_index (slot_frame r) slot) as [g|]; cbn [mbind outcome_bind]; try done. destruct (negb (g =? f)); [done|].
  destruct (at_index (r_slots r) slot) as [mem|]; cbn [mbind outcome_bind]; try done.
  destruct (read_word mem 0 4) as [st|]; cbn [mbind outcome_bind]; try done. destruct (st =? f); cbn [negb]; [|done].
  destruct (span mem kStampBytes kSlotPayloadBytes); cbn [mbind outcome_bind]; try done. by intros [= -> _].
Qed.

(** On two threads the claim comes too late: a writer that runs between the guards
    and the claim finds the slot unclaimed, and the reader that asked for frame 5
    reports success with the pixels of frame 13. *)
Lemma guard_is_not_atomic :
  exists d1 d2, ddr_write ddr0 0 5 (fill_dn 5) = Ret (5, d1) /\ read_guards d1 0 5 5 = Ret true /\
    ddr_write d1 0 13 (fill_dn 13) = Ret (5, d2) /\ ownership_skips d2 = 0 /\ read_copies d2 0 5 = Ret (fill_dn 13) /\ fill_dn 13 <> fill_dn 5.
Proof. do 2 eexists. split_and!; [vm_compute; reflexivity..|]. discriminate. Qed.
