(* ===== verification/Heartbeat.v ===== *)
(** * The heartbeat watchdog (examples/isp_pipeline/heartbeat.hpp)

    Worker threads stamp the low 32 bits of a microsecond clock into their slot;
    the main thread scans the slots.  The stores are not synchronised with the
    scan: [Check] takes, for each slot it is about to look at, the stores that
    land just before.  A [Beat*] is the index of its slot. *)

From stdpp Require Import strings.
From S2P Require Import Prelude.

Record Slot := mkSlot { last_us : Z; s_name : option string; timeout_us : Z; used : bool; timed_out : bool }.
Definition slot0 : Slot := mkSlot 0 None 0 false false.

Definition kCapacity : nat := 16.

Record Slots := mkSlots { slots_ : list Slot; on_timeout_ : bool }.
Definition hb0 : Slots := mkSlots (replicate kCapacity slot0) false.

(** [now_us]: the registered clock's reading, if there is one. *)
Definition now_us (clock : option Z) : Z := default 0 clock.

(** ** Beats *)

Definition Hit (now : Z) (s : Slot) : Slot := mkSlot (u32 now) (s_name s) (timeout_us s) (used s) (timed_out s).

Definition hit_at (l : list Slot) (h : nat * Z) : list Slot := alter (Hit h.2) h.1 l.
Definition hits (l : list Slot) (hs : list (nat * Z)) : list Slot := foldl hit_at l hs.

(** ** The table *)

Record SlotCfg := mkCfg { cfg_name : option string; cfg_timeout_us : Z }.

Definition Register (t : Slots) (now : Z) (cfg : SlotCfg) : option nat * Slots :=
  if cfg_name cfg then
    match find_idx (fun s => negb (used s)) (slots_ t) with
    | Some i =>
      (Some i, mkSlots (<[i := Hit now (mkSlot 0 (cfg_name cfg) (cfg_timeout_us cfg) true false)]> (slots_ t)) (on_timeout_ t))
    | None => (None, t)
    end
  else (None, t).

(** [find]: the slot the beat lies in, if it is in use. *)
Definition find (t : Slots) (b : nat) : option Slot :=
  match slots_ t !! b with Some s => if used s then Some s else None | None => None end.

Definition Unregister (t : Slots) (b : nat) : Slots :=
  match find t b with
  | Some s => mkSlots (<[b := mkSlot (last_us s) (s_name s) (timeout_us s) false false]> (slots_ t)) (on_timeout_ t)
  | None => t
  end.

Definition set_timed_out (s : Slot) (b : bool) : Slot := mkSlot (last_us s) (s_name s) (timeout_us s) (used s) b.

(** One slot of the scan: whether it is timed out, and whether that is new. *)
Definition stale (now : Z) (s : Slot) : bool := timeout_us s <? u32 (now - last_us s).
Definition visit (now : Z) (s : Slot) : bool * bool * Slot :=
  if negb (used s) then (false, false, s)
  else if stale now s then (true, negb (timed_out s), set_timed_out s true)
  else (false, false, set_timed_out s false).

(** The scan from slot [i] on; the names are those the callback is given. *)
Fixpoint check_loop (cb : bool) (now : Z) (mid : nat -> list (nat * Z)) (n i : nat) (l : list Slot) : Z * list (option string) * list Slot :=
  match n with
  | O => (0, [], l)
  | S n =>
    let l := hits l (mid i) in
    match l !! i with
    | None => (0, [], l)
    | Some s =>
      let '(late, rise, s') := visit now s in
      let '(k, names, l) := check_loop cb now mid n (S i) (<[i := s']> l) in
      ((if late then 1 else 0) + k, (if rise && cb then [s_name s] else []) ++ names, l)
    end
  end.

Definition Check (t : Slots) (now : Z) (mid : nat -> list (nat * Z)) : Z * list (option string) * Slots :=
  let '(k, names, l) := check_loop (on_timeout_ t) (u32 now) mid kCapacity 0 (slots_ t) in (k, names, mkSlots l (on_timeout_ t)).

Definition SetOnTimeout (t : Slots) (cb : bool) : Slots := mkSlots (slots_ t) cb.

(** [ForEachSlot]: what the callback is given. *)
Definition ForEachSlot (t : Slots) : list (option string * Z * bool) :=
  omap (fun s => if used s then Some (s_name s, last_us s, timed_out s) else None) (slots_ t).

(** * The watchdog against a table of exact times (examples/isp_pipeline/heartbeat.hpp)

    First: a scan with beats landing in it is a scan of a table at rest between
    two groups of beats.  Then: over any run, the 32-bit table answers as a table
    that remembers the unbounded time of every beat. *)

(** ** Scans linearise *)

(** The beats of a scan that its slot's turn still finds, and those that come too late for it. *)
Fixpoint early (mid : nat -> list (nat * Z)) (n i : nat) : list (nat * Z) :=
  match n with O => [] | S n => filter (fun h => (i <= h.1)%nat) (mid i) ++ early mid n (S i) end.
Fixpoint late (mid : nat -> list (nat * Z)) (n i : nat) : list (nat * Z) :=
  match n with O => [] | S n => filter (fun h => ~ (i <= h.1)%nat) (mid i) ++ late mid n (S i) end.

Definition quiet : nat -> list (nat * Z) := fun _ => [].

Lemma hits_app l h1 h2 : hits l (h1 ++ h2) = hits (hits l h1) h2.
Proof. apply foldl_app. Qed.

Lemma hit_commute l g h : g.1 <> h.1 -> hit_at (hit_at l g) h = hit_at (hit_at l h) g.
Proof. intros H. unfold hit_at. by apply list_alter_alter_ne, not_eq_sym. Qed.

Lemma hit_hits l g hs : Forall (fun h => h.1 <> g.1) hs -> hits (hit_at l g) hs = hit_at (hits l hs) g.
Proof.
  intros H. revert l. induction H as [|h hs Hh _ IH]; intros l; [done|]. cbn. by rewrite hit_commute, IH.
Qed.

Lemma hits_commute l g1 g2 :
  (forall g h, g ∈ g1 -> h ∈ g2 -> g.1 <> h.1) -> hits (hits l g1) g2 = hits (hits l g2) g1.
Proof.
  revert l. induction g1 as [|g g1 IH]; intros l H; [done|]. cbn.
  rewrite IH by (intros; apply H; set_solver). f_equal. apply hit_hits. apply Forall_forall. intros h Hh.
  apply not_eq_sym, H; set_solver.
Qed.

(** The order of the beats of different slots does not matter. *)
Lemma hits_partition l i hs :
  hits l hs = hits (hits l (filter (fun h => (i <= h.1)%nat) hs)) (filter (fun h => ~ (i <= h.1)%nat) hs).
Proof.
  revert l. induction hs as [|h hs IH]; intros l; [done|]. rewrite !filter_cons. cbn [hits foldl].
  destruct (decide (i <= h.1)%nat); [rewrite decide_False by tauto|rewrite decide_True by done]; [apply IH|].
  change (foldl hit_at (hit_at l h) hs) with (hits (hit_at l h) hs). rewrite IH. cbn [hits foldl]. f_equal.
  apply hit_hits, Forall_forall. intros g [Hg _]%list_elem_of_filter. lia.
Qed.

Lemma hits_lookup l i hs : Forall (fun h => h.1 <> i) hs -> hits l hs !! i = l !! i.
Proof.
  intros H. revert l. induction H as [|h hs Hh _ IH]; intros l; [done|]. cbn.
  change (foldl hit_at (hit_at l h) hs) with (hits (hit_at l h) hs). rewrite IH. unfold hit_at. by rewrite list_lookup_alter_ne.
Qed.

Lemma hits_insert l i s hs : Forall (fun h => h.1 <> i) hs -> hits (<[i := s]> l) hs = <[i := s]> (hits l hs).
Proof.
  intros H. revert l. induction H as [|h hs Hh _ IH]; intros l; [done|]. cbn.
  change (foldl hit_at ?x hs) with (hits x hs). rewrite <- IH. f_equal. unfold hit_at. rewrite !list_insert_alter. by apply list_alter_alter_ne.
Qed.

Lemma hits_length l hs : length (hits l hs) = length l.
Proof. revert l. induction hs as [|h hs IH]; intros l; [done|]. cbn. rewrite IH. apply length_alter. Qed.

Lemma early_ge mid n i h : h ∈ early mid n i -> (i <= h.1)%nat.
Proof.
  revert i. induction n as [|n IH]; intros i; cbn; [set_solver|]. rewrite elem_of_app, list_elem_of_filter.
  intros [[? _]|?%IH]; lia.
Qed.

Lemma loop_hits cb now n i l hs :
  (i + n <= length l)%nat -> Forall (fun h => (h.1 < i)%nat) hs ->
  check_loop cb now quiet n i (hits l hs) = let '(k, names, l') := check_loop cb now quiet n i l in (k, names, hits l' hs).
Proof.
  revert i l. induction n as [|n IH]; intros i l Hlen Hhs; [done|]. cbn [check_loop]. change (quiet i) with (@nil (nat * Z)). cbn [hits foldl].
  change (foldl hit_at l hs) with (hits l hs). assert (Hne : Forall (fun h => h.1 <> i) hs) by (eapply Forall_impl; [exact Hhs|]; intros ?; cbn; lia).
  rewrite hits_lookup by done. destruct (lookup_lt_is_Some_2 l i) as [s Hs]; [lia|]. rewrite Hs.
  destruct (visit now s) as [[a b] s']. rewrite <- hits_insert, IH; [|rewrite length_insert; lia|eapply Forall_impl; [exact Hhs|]; intros ?; cbn; lia|done].
  by destruct (check_loop cb now quiet n (S i) (<[i:=s']> l)) as [[k names] l'].
Qed.

Lemma loop_linearizes cb now mid n i l :
  (i + n <= length l)%nat ->
  check_loop cb now mid n i l =
    let '(k, names, l') := check_loop cb now quiet n i (hits l (early mid n i)) in (k, names, hits l' (late mid n i)).
Proof.
  revert i l. induction n as [|n IH]; intros i l Hlen; [done|]. cbn [early late]. rewrite !hits_app.
  set (G := filter (fun h => (i <= h.1)%nat) (mid i)). set (L := filter (fun h => ~ (i <= h.1)%nat) (mid i)).
  assert (HL : forall h, h ∈ L -> (h.1 < i)%nat) by (intros h [? _]%list_elem_of_filter; lia).
  assert (HE : forall h, h ∈ early mid n (S i) -> (i < h.1)%nat) by (intros h ?%early_ge; lia).
  cbn [check_loop]. change (quiet i) with (@nil (nat * Z)). cbn [hits foldl]. rewrite (hits_partition l i (mid i)). fold G L.
  assert (HLi : Forall (fun h => h.1 <> i) L) by (apply Forall_forall; intros h Hh; specialize (HL h Hh); lia).
  assert (HEi : Forall (fun h => h.1 <> i) (early mid n (S i))) by (apply Forall_forall; intros h Hh; specialize (HE h Hh); lia).
  rewrite (hits_lookup _ _ L), (hits_lookup _ _ (early mid n (S i))) by done. destruct (lookup_lt_is_Some_2 (hits l G) i) as [s Hs]; [rewrite hits_length; lia|]. rewrite Hs.
  destruct (visit now s) as [[a b] s']. rewrite IH by (rewrite length_insert, !hits_length; lia).
  rewrite <- (hits_insert _ _ _ L), <- (hits_insert _ _ _ (early mid n (S i))) by done. rewrite (hits_commute _ L) by (intros g h ?%HL ?%HE; lia).
  rewrite loop_hits; [|rewrite hits_length, length_insert, hits_length; lia|apply Forall_forall; intros h ?%HL; lia].
  destruct (check_loop cb now quiet n (S i) _) as [[k names] l']. by rewrite hits_app.
Qed.

(** ** The table of exact times *)

Record watch := mkWatch { w_name : option string; w_timeout : Z; w_last : Z; w_reported : bool }.
Record watches := mkWatches { ws : list (option watch); w_cb : bool }.

Definition overdue (now : Z) (w : watch) : bool := w_timeout w <? now - w_last w.
Definition overdues (now : Z) (l : list (option watch)) : list watch := filter (fun w => overdue now w = true) (omap id l).

Definition set_last (now : Z) (w : watch) : watch := mkWatch (w_name w) (w_timeout w) now (w_reported w).
Definition scanned (now : Z) (w : watch) : watch := mkWatch (w_name w) (w_timeout w) (w_last w) (overdue now w).

Inductive hop :=
| ORegister (now : Z) (cfg : SlotCfg)
| OUnregister (b : nat)
| OHit (b : nat) (now : Z)
| OCheck (now : Z) (mid : nat -> list (nat * Z))
| OCallback (cb : bool).

Inductive hans := ARegister (b : option nat) | ACheck (k : Z) (names : list (option string)).

Definition h_step (t : Slots) (o : hop) : list hans * Slots :=
  match o with
  | ORegister now cfg => let '(b, t) := Register t now cfg in ([ARegister b], t)
  | OUnregister b => ([], Unregister t b)
  | OHit b now => ([], mkSlots (hit_at (slots_ t) (b, now)) (on_timeout_ t))
  | OCheck now mid => let '(k, names, t) := Check t now mid in ([ACheck k names], t)
  | OCallback cb => ([], SetOnTimeout t cb)
  end.

(** A check counts the overdue watches, and names those not reported since they
    were last on time. *)
Definition w_step (t : watches) (o : hop) : list hans * watches :=
  match o with
  | ORegister now cfg =>
    match cfg_name cfg, find_idx (fun w => if w : option watch then false else true) (ws t) with
    | Some n, Some i => ([ARegister (Some i)], mkWatches (<[i := Some (mkWatch (Some n) (cfg_timeout_us cfg) now false)]> (ws t)) (w_cb t))
    | _, _ => ([ARegister None], t)
    end
  | OUnregister b => ([], mkWatches (alter (fun _ => None) b (ws t)) (w_cb t))
  | OHit b now => ([], mkWatches (alter (option_map (set_last now)) b (ws t)) (w_cb t))
  | OCheck now _ =>
    let late := overdues now (ws t) in
    ([ACheck (Z.of_nat (length late)) (if w_cb t then map w_name (filter (fun w => w_reported w = false) late) else [])],
     mkWatches (map (option_map (scanned now)) (ws t)) (w_cb t))
  | OCallback cb => ([], mkWatches (ws t) cb)
  end.

Section runs.
Context {S : Type} (step : S -> hop -> list hans * S).
Fixpoint answers (t : S) (ops : list hop) : list hans :=
  match ops with [] => [] | o :: ops => let '(a, t) := step t o in a ++ answers t ops end.
End runs.

Definition watches0 : watches := mkWatches (replicate kCapacity None) false.

(** The run with the beats that land in a scan put before or after it. *)
Definition linearize1 (o : hop) : list hop :=
  match o with
  | OCheck now mid =>
    map (fun h => OHit h.1 h.2) (early mid kCapacity 0) ++ [OCheck now quiet] ++ map (fun h => OHit h.1 h.2) (late mid kCapacity 0)
  | o => [o]
  end.
Definition linearize (ops : list hop) : list hop := ops ≫= linearize1.

(** At every check the last beats lie less than one turn of the 32-bit clock back. *)
Definition in_turn (now : Z) (w : watch) : bool := (0 <=? now - w_last w) && (now - w_last w <? 2 ^ 32).
Fixpoint timely (t : watches) (ops : list hop) : bool :=
  match ops with
  | [] => true
  | o :: ops => (match o with OCheck now _ => forallb (in_turn now) (omap id (ws t)) | _ => true end) && timely (w_step t o).2 ops
  end.

(** ** The simulation *)

Definition sim (s : Slot) (w : option watch) : Prop :=
  match w with
  | None => used s = false
  | Some w => used s = true /\ s_name s = w_name w /\ timeout_us s = w_timeout w /\ timed_out s = w_reported w /\ last_us s = u32 (w_last w)
  end.

Definition h_inv (t : Slots) (a : watches) : Prop :=
  Forall2 sim (slots_ t) (ws a) /\ length (slots_ t) = kCapacity /\ on_timeout_ t = w_cb a.

Lemma find_idx_sim {A B} (p : A -> bool) (q : B -> bool) (R : A -> B -> Prop) l k :
  (forall x y, R x y -> p x = q y) -> Forall2 R l k -> find_idx p l = find_idx q k.
Proof. intros HR. induction 1 as [|x y l k Hxy _ IH]; cbn; [done|]. by rewrite (HR _ _ Hxy), IH. Qed.

Lemma stale_exact now s w : sim s (Some w) -> in_turn now w = true -> stale (u32 now) s = overdue now w.
Proof.
  intros (_ & _ & Ht & _ & Hl) Hin. unfold stale, overdue. rewrite Ht, Hl, wrap_sub_wrap by lia. apply andb_true_iff in Hin as [H0%Z.leb_le H1%Z.ltb_lt]. by rewrite wrap_small.
Qed.

Lemma overdues_cons now w k : overdues now (Some w :: k) = if overdue now w then w :: overdues now k else overdues now k.
Proof. unfold overdues. cbn [omap list_omap id]. rewrite filter_cons. by destruct (overdue now w). Qed.

Lemma quiet_loop cb now pre l k :
  Forall2 sim l k -> forallb (in_turn now) (omap id k) = true ->
  exists l', check_loop cb (u32 now) quiet (length l) (length pre) (pre ++ l) =
    (Z.of_nat (length (overdues now k)),
     if cb then map w_name (filter (fun w => w_reported w = false) (overdues now k)) else [], pre ++ l') /\
    Forall2 sim l' (map (option_map (scanned now)) k) /\ length l' = length l.
Proof.
  intros H. revert pre. induction H as [|s w l k Hsw Hlk IH]; intros pre Hin; [exists []; by destruct cb|].
  cbn [length check_loop]. change (quiet (length pre)) with (@nil (nat * Z)). cbn [hits foldl].
  rewrite list_lookup_middle by done.
  assert (Hins : forall s', <[length pre := s']> (pre ++ s :: l) = (pre ++ [s']) ++ l).
  { intros s'. rewrite insert_app_r_alt, Nat.sub_diag, <- app_assoc by lia. done. }
  assert (Hlen : forall s' : Slot, S (length pre) = length (pre ++ [s'])) by (intros; rewrite length_app; cbn; lia).
  destruct w as [w|].
  - apply andb_true_iff in Hin as [Hw Hin]. pose proof (stale_exact _ _ _ Hsw Hw) as Hst.
    unfold visit. rewrite (proj1 Hsw), Hst. cbn [negb]. rewrite overdues_cons.
    destruct Hsw as (Hu & Hn & Ht & Hr & Hl). destruct (overdue now w) eqn:Ho.
    + cbn [length map]. rewrite Hins, (Hlen (set_timed_out s true)).
      destruct (IH (pre ++ [set_timed_out s true]) Hin) as (l' & -> & Hl' & Hlg). exists (set_timed_out s true :: l'). split_and!.
      * rewrite <- app_assoc. f_equal. f_equal; [lia|]. rewrite filter_cons, Hr, Hn.
        destruct cb, (w_reported w); cbn [negb andb]; [rewrite decide_False by done|rewrite decide_True by done| |]; done.
      * constructor; [|done]. cbn [option_map]. unfold scanned. by rewrite Ho.
      * cbn. by rewrite Hlg.
    + rewrite Hins, (Hlen (set_timed_out s false)).
      destruct (IH (pre ++ [set_timed_out s false]) Hin) as (l' & -> & Hl' & Hlg). exists (set_timed_out s false :: l'). split_and!.
      * rewrite <- app_assoc. done.
      * constructor; [|done]. cbn [option_map]. unfold scanned. by rewrite Ho.
      * cbn. by rewrite Hlg.
  - unfold visit. rewrite Hsw. cbn [negb]. rewrite Hins, (Hlen s). destruct (IH (pre ++ [s]) Hin) as (l' & -> & Hl' & Hlg).
    exists (s :: l'). split_and!; [by rewrite <- app_assoc|by constructor|cbn; by rewrite Hlg].
Qed.

Lemma hits_run {S} (step : S -> hop -> list hans * S) (f : S -> nat * Z -> S) t hs ops :
  (forall t h, step t (OHit h.1 h.2) = ([], f t h)) ->
  answers step t (map (fun h => OHit h.1 h.2) hs ++ ops) = answers step (foldl f t hs) ops.
Proof. intros Hf. revert t. induction hs as [|h hs IH]; intros t; [done|]. cbn [map app answers foldl]. rewrite Hf. apply IH. Qed.

Lemma h_hits_run t hs ops :
  answers h_step t (map (fun h => OHit h.1 h.2) hs ++ ops) = answers h_step (mkSlots (hits (slots_ t) hs) (on_timeout_ t)) ops.
Proof.
  rewrite (hits_run _ (fun t h => mkSlots (hit_at (slots_ t) h) (on_timeout_ t))) by (by intros ? []). f_equal.
  revert t. induction hs as [|h hs IH]; intros t; [by destruct t|]. cbn [foldl]. by rewrite IH.
Qed.

Lemma loop_length cb now mid n i l k names l' : check_loop cb now mid n i l = (k, names, l') -> length l' = length l.
Proof.
  revert i l k names l'. induction n as [|n IH]; intros i l k names l'; cbn [check_loop]; [congruence|].
  destruct (hits l (mid i) !! i) as [s|]; [|intros [= _ _ <-]; apply hits_length]. destruct (visit now s) as [[a b] s'].
  destruct (check_loop cb now mid n (S i) (<[i:=s']> (hits l (mid i)))) as [[k' ns] l''] eqn:E. intros [= _ _ <-].
  by rewrite (IH _ _ _ _ _ E), length_insert, hits_length.
Qed.

Lemma h_step_length t o : length (slots_ (h_step t o).2) = length (slots_ t).
Proof.
  destruct o as [now cfg|b|b now|now mid|cb]; cbn [h_step]; [| | | |done].
  - unfold Register. destruct (cfg_name cfg); [|done]. destruct (find_idx _ _); [|done]. apply length_insert.
  - cbn. unfold Unregister. destruct (find t b); [|done]. apply length_insert.
  - apply length_alter.
  - unfold Check. destruct (check_loop _ _ _ _ _ _) as [[k ns] l'] eqn:E. exact (loop_length _ _ _ _ _ _ _ _ _ E).
Qed.

Lemma answers_linearize t ops : length (slots_ t) = kCapacity -> answers h_step t ops = answers h_step t (linearize ops).
Proof.
  revert t. induction ops as [|o ops IH]; intros t Hlen; [done|]. change (linearize (o :: ops)) with (linearize1 o ++ linearize ops).
  pose proof (h_step_length t o) as Hs. rewrite Hlen in Hs.
  destruct o as [now cfg|b|b now|now mid|cb]; cbn [linearize1];
    try (cbn [app answers]; destruct (h_step t _) as [a t']; by rewrite IH).
  rewrite <- !app_assoc, h_hits_run. cbn [app answers h_step]. cbn [h_step] in Hs. unfold Check in *.
  rewrite loop_linearizes in Hs |- * by (by rewrite Hlen).
  destruct (check_loop _ _ quiet _ _ _) as [[k names] l']. rewrite h_hits_run. cbn [slots_ on_timeout_] in *. by rewrite IH.
Qed.

(** ** Each step *)

Definition rested (o : hop) : Prop := match o with OCheck _ mid => mid = quiet | _ => True end.

Lemma linearize_rested ops : Forall rested (linearize ops).
Proof.
  induction ops as [|o ops IH]; [constructor|]. change (linearize (o :: ops)) with (linearize1 o ++ linearize ops).
  apply Forall_app. split; [|done]. destruct o; try by repeat constructor. cbn [linearize1].
  apply Forall_app. split; [|apply Forall_cons; split; [done|]]; apply Forall_map, Forall_true; done.
Qed.

Lemma register_sim t a now cfg :
  h_inv t a ->
  (h_step t (ORegister now cfg)).1 = (w_step a (ORegister now cfg)).1 /\ h_inv (h_step t (ORegister now cfg)).2 (w_step a (ORegister now cfg)).2.
Proof.
  intros (Hs & Hlen & Hcb). cbn [h_step w_step]. unfold Register. destruct (cfg_name cfg) as [n|] eqn:En; [|done].
  rewrite (find_idx_sim _ (fun w => if w : option watch then false else true) sim _ _) by (done || (intros s [w|]; cbn; [intros [-> _]|intros ->]; done)).
  destruct (find_idx _ (ws a)) as [i|]; [|done]. split; [done|]. split_and!; [|cbn; by rewrite length_insert|done].
  cbn [slots_ ws snd]. by apply Forall2_insert.
Qed.

Lemma unregister_sim t a b : h_inv t a -> h_inv (Unregister t b) (w_step a (OUnregister b)).2.
Proof.
  intros (Hs & Hlen & Hcb). cbn [w_step snd]. unfold Unregister, find. destruct (slots_ t !! b) as [s|] eqn:Es.
  - destruct (Forall2_lookup_l _ _ _ _ _ Hs Es) as (w & Hw & Hsim).
    assert (Ha : alter (fun _ : option watch => None) b (ws a) = <[b := None]> (ws a)) by (symmetry; apply list_insert_alter).
    destruct (used s) eqn:Hu; split_and!; cbn [slots_ ws on_timeout_]; rewrite ?Ha, ?length_insert; try done.
    + by apply Forall2_insert.
    + destruct w as [w|]; [destruct Hsim; congruence|]. by rewrite list_insert_id.
  - split_and!; [|done..]. cbn [ws]. rewrite <- (list_insert_alter (ws a) b None), list_insert_ge; [done|]. rewrite <- (Forall2_length _ _ _ Hs). by apply lookup_ge_None.
Qed.

Lemma hit_sim t a b now : h_inv t a -> h_inv (h_step t (OHit b now)).2 (w_step a (OHit b now)).2.
Proof.
  intros (Hs & Hlen & Hcb). split_and!; [|cbn; unfold hit_at; by rewrite length_alter|done]. cbn [h_step w_step snd slots_ ws]. unfold hit_at. cbn [fst snd].
  apply Forall2_alter; [done|]. intros s w _ _ Hsw. destruct w as [w|]; [|done]. by destruct Hsw as (? & ? & ? & ? & ?).
Qed.

Lemma check_sim t a now :
  h_inv t a -> forallb (in_turn now) (omap id (ws a)) = true ->
  (h_step t (OCheck now quiet)).1 = (w_step a (OCheck now quiet)).1 /\ h_inv (h_step t (OCheck now quiet)).2 (w_step a (OCheck now quiet)).2.
Proof.
  intros (Hs & Hlen & Hcb) Hin. destruct (quiet_loop (on_timeout_ t) now [] _ _ Hs Hin) as (l' & He & Hl' & Hlg).
  cbn [h_step w_step]. unfold Check. rewrite <- Hlen. cbn [length app] in He. rewrite He, Hcb. split; [done|]. split_and!; [done| |done]. cbn. congruence.
Qed.

Lemma step_sim t a o :
  h_inv t a -> rested o -> (match o with OCheck now _ => forallb (in_turn now) (omap id (ws a)) | _ => true end) = true ->
  (h_step t o).1 = (w_step a o).1 /\ h_inv (h_step t o).2 (w_step a o).2.
Proof.
  intros Hinv Hr Hin. destruct o as [now cfg|b|b now|now mid|cb].
  - by apply register_sim.
  - split; [done|]. by apply unregister_sim.
  - split; [done|]. by apply hit_sim.
  - cbn in Hr. subst mid. by apply check_sim.
  - split; [done|]. by destruct Hinv as (? & ? & ?).
Qed.

(** C22: The watchdog is exact over any run.  Registrations, withdrawals, beats and
    scans, with any beats landing while a scan is under way, give the answers of
    a table of unbounded time stamps with those beats put before or after the
    scan: a scan counts exactly the slots whose last beat is longer ago than
    their timeout and reports each once, when it becomes so.  The proviso: no
    beat a scan looks at is newer than the scan, or a turn of the clock old. *)
Theorem heartbeat_exact (ops : list hop) :
  timely watches0 (linearize ops) = true -> answers h_step hb0 ops = answers w_step watches0 (linearize ops).
Proof.
  rewrite answers_linearize by done. assert (Hinv : h_inv hb0 watches0) by (split_and!; [apply Forall2_replicate; done|done..]).
  revert Hinv. generalize (linearize_rested ops), hb0, watches0. generalize (linearize ops). clear ops. intros ops Hq. induction Hq as [|o ops Ho _ IH]; intros t a Hinv Ht; [done|].
  apply andb_true_iff in Ht as [Hin Ht]. destruct (step_sim t a o Hinv Ho Hin) as [Ha Hi]. cbn [answers].
  destruct (h_step t o) as [r t'], (w_step a o) as [r' a']. cbn [fst snd] in *. subst r'. by rewrite (IH t' a').
Qed.

(** A worker registers with a timeout of a second, beats, and stalls; a beat lands in the last scan. *)
Definition stall : list hop :=
  [OCallback true; ORegister 4294000000 (mkCfg (Some "sout"%string) 1000000); OHit 0 4294900000; OCheck 4295800000 quiet; OCheck 4296000000 quiet;
   OCheck 4296500000 quiet; OCheck 4297000000 (fun i => if (i =? 0)%nat then [(0%nat, 4296900000)] else [])].

Lemma heartbeat_exact_witness :
  timely watches0 (linearize stall) = true /\
  answers h_step hb0 stall = [ARegister (Some 0%nat); ACheck 0 []; ACheck 1 [Some "sout"%string]; ACheck 1 []; ACheck 0 []].
Proof.
  split; [vm_compute; reflexivity|]. rewrite (heartbeat_exact stall) by (vm_compute; reflexivity). vm_compute. reflexivity.
Defined.

(** ** Outside the proviso *)

(** A beat stored after the scan has read its clock, with a later time, makes a
    live worker overdue: the difference wraps. *)
Lemma late_beat_reported (now t timeout : Z) (name : string) :
  0 < t - now < 2 ^ 32 - timeout -> 0 <= timeout ->
  visit (u32 now) (Hit t (mkSlot 0 (Some name) timeout true false)) = (true, true, Hit t (mkSlot 0 (Some name) timeout true true)).
Proof.
  intros Ht Hto. unfold visit, stale. cbn [used Hit timeout_us last_us negb timed_out]. rewrite wrap_sub_wrap by lia.
  replace (wrap 32 (now - t)) with (2 ^ 32 - (t - now)); [|unfold wrap; apply (Z.mod_unique _ _ (-1)); lia].
  rewrite (proj2 (Z.ltb_lt _ _)) by lia. done.
Qed.

(** Without a clock every slot looks fresh for ever. *)
Lemma no_clock_never_overdue (s : Slot) : 0 <= timeout_us s -> stale (u32 (now_us None)) (Hit (now_us None) s) = false.
Proof. intros Ht. unfold stale, now_us. cbn. by apply Z.ltb_ge. Qed.
