(* ===== verification/Worker.v ===== *)
(** * The queued hardware worker (examples/isp_pipeline/sensor_irsc.hpp)

    [WorkerBase]: a ring of jobs under a mutex, a thread that takes them one by
    one, and a [stop] that drains.  A stretch of code between [mutex_lock] and
    [mutex_unlock], or up to a [cond_wait], is one step; steps of the submitting
    threads, the worker and the thread in [stop] interleave.  An index outside the
    ring is [Fatal].  The worker's wait is
    timed, so it may resume at any step; the wait of [stop] is not, and resumes on
    the worker's signal or spuriously. *)

From S2P Require Import Prelude QueueSpec.

Section worker.
Context {Job : Type} (kDepth : Z).

Record WorkerBase := mkWorker {
  wslots : list Job; head : Z; tail : Z; count : Z; running : bool; executed : Z; rejected : Z
}.

(** The body of [submit]. *)
Definition submit (w : WorkerBase) (j : Job) : outcome (bool * WorkerBase) :=
  if count w <? kDepth then
    match wslots w !! Z.to_nat (head w) with
    | Some _ =>
      mret (true, mkWorker (<[Z.to_nat (head w) := j]> (wslots w)) (u8 ((head w + 1) mod kDepth)) (tail w) (u8 (count w + 1))
                    (running w) (executed w) (rejected w))
    | None => Fatal
    end
  else mret (false, mkWorker (wslots w) (head w) (tail w) (count w) (running w) (executed w) (u32 (rejected w + 1))).

(** Where the worker thread is: about to lock, in the timed wait, executing its
    local [j], or returned. *)
Inductive wpc := WTop | WWait | WExec | WDone.

(** The local [j] of [run] is [None] before the first job ([Job j{}]). *)
Definition worker_section (w : WorkerBase) (j : option Job) : outcome (wpc * option Job * WorkerBase) :=
  if running w && (count w =? 0) then mret (WWait, j, w)
  else if negb (count w =? 0) then
    match wslots w !! Z.to_nat (tail w) with
    | Some front =>
      mret (WExec, Some front,
            mkWorker (wslots w) (head w) (u8 ((tail w + 1) mod kDepth)) (u8 (count w - 1)) (running w) (executed w) (rejected w))
    | None => Fatal
    end
  else if negb (running w) then mret (WDone, j, w)
  else mret (WExec, j, w).

(** Where the thread in [stop] is: not there, past the print, in the wait,
    woken, returned. *)
Inductive spc := SOut | SCounted | SWaiting | SWoken | SStopped.

(** [done_]: what [execute] was called with, in order; [accepted]: what [submit]
    said yes to; [answers_]: what it said. *)
Record wsys := mkSys {
  wk : WorkerBase; w_at : wpc; w_job : option Job; s_at : spc; done_ : list (option Job); accepted : list Job; answers_ : list bool
}.

Inductive wact := ASubmit (j : Job) | AWorker | AStop | ASpurious.

Definition worker_step (s : wsys) : outcome wsys :=
  match w_at s with
  | WTop | WWait =>
    '(pc, j, w) ← worker_section (wk s) (w_job s);
    mret (mkSys w pc j (match pc, s_at s with WDone, SWaiting => SWoken | _, at_ => at_ end) (done_ s) (accepted s) (answers_ s))
  | WExec =>
    let w := wk s in
    mret (mkSys (mkWorker (wslots w) (head w) (tail w) (count w) (running w) (u32 (executed w + 1)) (rejected w)) WTop (w_job s) (s_at s)
            (done_ s ++ [w_job s]) (accepted s) (answers_ s))
  | WDone => mret s
  end.

Definition set_s_at (s : wsys) (p : spc) : wsys := mkSys (wk s) (w_at s) (w_job s) p (done_ s) (accepted s) (answers_ s).

Definition stop_step (s : wsys) : wsys :=
  let w := wk s in
  match s_at s with
  | SOut => set_s_at s SCounted
  | SCounted =>
    mkSys (mkWorker (wslots w) (head w) (tail w) (count w) false (executed w) (rejected w)) (w_at s) (w_job s) SWaiting
      (done_ s) (accepted s) (answers_ s)
  | SWaiting => s
  | SWoken => match w_at s with WDone => set_s_at s SStopped | _ => s end
  | SStopped => s
  end.

(** A step that is not enabled leaves the system as it is; after [stop] the mutex is gone. *)
Definition sys_step (s : wsys) (a : wact) : outcome wsys :=
  match a with
  | ASubmit j =>
    match s_at s with
    | SStopped => mret s
    | _ =>
      '(ok, w) ← submit (wk s) j;
      mret (mkSys w (w_at s) (w_job s) (s_at s) (done_ s) (if ok : bool then accepted s ++ [j] else accepted s) (answers_ s ++ [ok]))
    end
  | AWorker => worker_step s
  | AStop => mret (stop_step s)
  | ASpurious => mret (match s_at s with SWaiting => set_s_at s SWoken | _ => s end)
  end.

Fixpoint sys_run (s : wsys) (acts : list wact) : outcome wsys :=
  match acts with [] => mret s | a :: acts => s ← sys_step s a; sys_run s acts end.

(** After [start]: the ring's slots are [Job{}]. *)
Definition sys0 (job0 : Job) : wsys := mkSys (mkWorker (replicate (Z.to_nat kDepth) job0) 0 0 0 true 0 0) WTop None SOut [] [] [].
End worker.
Arguments WorkerBase : clear implicits.
Arguments wsys : clear implicits.
Arguments wact : clear implicits.

#[export] Instance wpc_eq_dec : EqDecision wpc.
Proof. solve_decision. Defined.
#[export] Instance spc_eq_dec : EqDecision spc.
Proof. solve_decision. Defined.
