(* ===== verification/WorkerSpec.v ===== *)
(** * The worker executes what it accepts, in order, and drains (examples/isp_pipeline/sensor_irsc.hpp) *)

From S2P Require Import Prelude QueueSpec Worker.

Section spec.
Context {Job : Type} (kDepth : Z) (HD : 0 < kDepth < 256).
Implicit Types (w : WorkerBase Job) (s : wsys Job) (q : list Job).

(** ** The ring *)

(** The ring holds the jobs [q], oldest first. *)
Definition ring_holds w q : Prop :=
  length (wslots w) = Z.to_nat kDepth /\ 0 <= tail w < kDepth /\ count w = Z.of_nat (length q) /\ count w <= kDepth /\
  head w = (tail w + count w) mod kDepth /\
  forall i : nat, (i < length q)%nat -> wslots w !! pos kDepth (tail w + Z.of_nat i) = q !! i.

Lemma submit_full w q j :
  ring_holds w q -> Z.of_nat (length q) = kDepth -> exists w', submit kDepth w j = Ret (false, w') /\ ring_holds w' q /\ running w' = running w /\
    executed w' = executed w /\ rejected w' = u32 (rejected w + 1).
Proof.
  intros Hr Hl. pose proof Hr as (_ & _ & Hc & _). unfold submit. rewrite (proj2 (Z.ltb_ge _ _)) by lia. eexists. by split.
Qed.

Lemma submit_room w q j :
  ring_holds w q -> Z.of_nat (length q) < kDepth -> exists w', submit kDepth w j = Ret (true, w') /\ ring_holds w' (q ++ [j]) /\ running w' = running w /\
    executed w' = executed w /\ rejected w' = rejected w.
Proof using HD.
  intros (Hlen & Ht & Hc & Hle & Hh & Hs) Hl. unfold submit. rewrite (proj2 (Z.ltb_lt _ _)) by lia.
  assert (Hp : Z.to_nat (head w) = pos kDepth (tail w + Z.of_nat (length q))) by (unfold pos; by rewrite Hh, Hc).
  assert (Hlt : (Z.to_nat (head w) < length (wslots w))%nat) by (rewrite Hp, Hlen; apply pos_lt; lia).
  destruct (lookup_lt_is_Some_2 _ _ Hlt) as [x ->]. eexists. split; [reflexivity|]. split; [|done]. unfold ring_holds. cbn [wslots head tail count].
  assert (Hm : 0 <= (head w + 1) mod kDepth < kDepth) by (apply Z.mod_pos_bound; lia).
  rewrite length_insert, length_app. cbn [length]. rewrite !wrap_small by (unfold in_u; change (2 ^ 8) with 256; lia). split_and!; try lia.
  - rewrite Hh, Zplus_mod_idemp_l. f_equal. lia.
  - intros i Hi. destruct (decide (i = length q)) as [->|Hne].
    + rewrite Hp, list_lookup_insert_eq by (rewrite <- Hp; done). by rewrite lookup_app_r, Nat.sub_diag by lia.
    + rewrite Hp, list_lookup_insert_ne by (intros E%pos_inj; lia). rewrite Hs, lookup_app_l by lia. done.
Qed.

Lemma section_pops w j x q :
  ring_holds w (x :: q) -> exists w', worker_section kDepth w j = Ret (WExec, Some x, w') /\ ring_holds w' q /\ running w' = running w /\
    executed w' = executed w /\ rejected w' = rejected w.
Proof using HD.
  intros (Hlen & Ht & Hc & Hle & Hh & Hs). cbn [length] in Hc. unfold worker_section. rewrite (proj2 (Z.eqb_neq (count w) 0)) by lia.
  rewrite andb_false_r. cbn [negb]. pose proof (Hs 0%nat ltac:(cbn; lia)) as H0. rewrite Z.add_0_r in H0. unfold pos in H0.
  rewrite Z.mod_small in H0 by lia. rewrite H0. cbn [lookup list_lookup]. eexists. split; [reflexivity|]. split; [|done]. unfold ring_holds.
  cbn [wslots head tail count]. assert (Hm : 0 <= (tail w + 1) mod kDepth < kDepth) by (apply Z.mod_pos_bound; lia).
  rewrite !wrap_small by (unfold in_u; change (2 ^ 8) with 256; lia). split_and!; try lia.
  - rewrite Hh, Zplus_mod_idemp_l. f_equal. lia.
  - intros i Hi. specialize (Hs (S i) ltac:(cbn; lia)). change ((x :: q) !! S i) with (q !! i) in Hs. rewrite <- Hs. unfold pos.
    rewrite Zplus_mod_idemp_l. f_equal. f_equal. f_equal. lia.
Qed.

Lemma section_empty w j :
  ring_holds w [] -> worker_section kDepth w j = Ret (if running w then WWait else WDone, j, w).
Proof. intros (_ & _ & Hc & _). unfold worker_section. rewrite Hc. cbn. by destruct (running w). Qed.
(** ** The system *)

Definition inflight s : list (option Job) := match w_at s with WExec => [w_job s] | _ => [] end.
Definition closing s : bool := match s_at s with SOut | SCounted => false | _ => true end.

Record sys_inv s q : Prop := {
  inv_ring : ring_holds (wk s) q;
  inv_order : map Some (accepted s) = done_ s ++ inflight s ++ map Some q;
  inv_running : running (wk s) = negb (closing s);
  inv_done : w_at s = WDone -> closing s = true /\ s_at s <> SWaiting;
  inv_stopped : s_at s = SStopped -> w_at s = WDone;
  inv_executed : executed (wk s) = u32 (Z.of_nat (length (done_ s)));
  inv_rejected : rejected (wk s) = u32 (Z.of_nat (countb negb (answers_ s)));
  inv_answers : length (accepted s) = countb id (answers_ s)
}.

Lemma inv0 j : sys_inv (sys0 kDepth j) [].
Proof using HD.
  constructor; try done. split_and!; cbn; try lia; [apply length_replicate|by rewrite Z.mod_0_l by lia].
Qed.

Lemma submit_step s q j :
  sys_inv s q -> s_at s <> SStopped ->
  exists s' q', sys_step kDepth s (ASubmit j) = Ret s' /\ sys_inv s' q' /\ answers_ s' = answers_ s ++ [Z.of_nat (length q) <? kDepth] /\
    s_at s' = s_at s /\ w_at s' = w_at s /\ w_job s' = w_job s /\ q' = (if Z.of_nat (length q) <? kDepth then q ++ [j] else q).
Proof using HD.
  intros Hi Hs. pose proof (inv_ring _ _ Hi) as Hr. pose proof Hr as (_ & _ & Hc & Hle & _).
  assert (Hw : exists ok w' q', submit kDepth (wk s) j = Ret (ok, w') /\ ok = (Z.of_nat (length q) <? kDepth) /\ ring_holds w' q' /\
    running w' = running (wk s) /\ executed w' = executed (wk s) /\ rejected w' = (if ok then rejected (wk s) else u32 (rejected (wk s) + 1)) /\
    q' = if ok then q ++ [j] else q).
  { destruct (Z.ltb_spec (Z.of_nat (length q)) kDepth).
    - destruct (submit_room _ _ j Hr H) as (w' & ? & ? & ? & ? & ?). by exists true, w', (q ++ [j]).
    - destruct (submit_full _ _ j Hr) as (w' & ? & ? & ? & ? & ?); [lia|]. by exists false, w', q. }
  destruct Hw as (ok & w' & q' & Hsub & Hok & Hr' & Hrun & Hex & Hrej & Hq'). destruct Hi as [_ Ho Hru Hd Hst He Hre Ha].
  assert (Hstep : sys_step kDepth s (ASubmit j) =
    Ret (mkSys w' (w_at s) (w_job s) (s_at s) (done_ s) (if ok then accepted s ++ [j] else accepted s) (answers_ s ++ [ok]))).
  { cbn [sys_step]. rewrite Hsub. by destruct (s_at s). }
  do 2 eexists. split; [exact Hstep|]. split; [|split_and!; [by rewrite <- Hok|done..|by rewrite <- Hok]]. constructor; cbn; try (by rewrite ?Hrun, ?Hex); try done.
  - rewrite Hq'. unfold inflight in *. cbn. destruct ok; [|done]. by rewrite !map_app, Ho, <- !app_assoc.
  - rewrite Hrej, countb_app. cbn. destruct ok; cbn; rewrite Hre; [f_equal; lia|]. rewrite wrap_add_wrap_l by lia. f_equal. lia.
  - rewrite countb_app. destruct ok; cbn; rewrite ?length_app; cbn; lia.
Qed.

(** The worker's share of the work that is left once [stop] has begun. *)
Definition work s q : nat := match w_at s with WExec => 2 * length q + 2 | WDone => 0 | _ => 2 * length q + 1 end.

Lemma section_step s q :
  sys_inv s q -> w_at s = WTop \/ w_at s = WWait ->
  exists s' q', sys_step kDepth s AWorker = Ret s' /\ sys_inv s' q' /\ closing s' = closing s /\ accepted s' = accepted s /\
    answers_ s' = answers_ s /\ inflight s' ++ map Some q' = map Some q /\ (q <> [] -> w_at s' = WExec) /\
    (closing s = true -> (work s' q' < work s q)%nat /\ (w_at s' = WDone -> q' = [])).
Proof using HD.
  intros Hi Hat. assert (Hstep : sys_step kDepth s AWorker = '(pc, j, w) ← worker_section kDepth (wk s) (w_job s);
    mret (mkSys w pc j (match pc, s_at s with WDone, SWaiting => SWoken | _, at_ => at_ end) (done_ s) (accepted s) (answers_ s))).
  { cbn [sys_step]. unfold worker_step. by destruct Hat as [-> | ->]. }
  assert (Hwork : work s q = (2 * length q + 1)%nat) by (unfold work; by destruct Hat as [-> | ->]).
  rewrite Hstep, Hwork. destruct Hi as [Hr Ho Hru Hd Hst He Hre Ha].
  assert (Hinf : inflight s = []) by (unfold inflight; by destruct Hat as [-> | ->]). rewrite Hinf in Ho. cbn [app] in Ho.
  assert (Hns : s_at s <> SStopped) by (intros E%Hst; destruct Hat; congruence).
  destruct q as [|x q].
  - rewrite section_empty by done. cbn [mbind outcome_bind]. rewrite Hru. destruct (closing s) eqn:Hc; cbn [negb].
    + do 2 eexists. split; [reflexivity|]. unfold closing in Hc. assert (Hcl : closing s = true) by done.
      split_and!; [constructor; cbn; rewrite ?Hru; try done; unfold closing in *; cbn; by destruct (s_at s)| |done..|].
      * unfold closing. cbn. by destruct (s_at s).
      * intros _. split; [cbn; lia|done].
    + do 2 eexists. split; [reflexivity|]. split_and!; [constructor; cbn; rewrite ?Hru; try done; unfold closing in *; cbn; by rewrite Hc|done..].
  - destruct (section_pops (wk s) (w_job s) x q Hr) as (w' & -> & Hr' & Hrun & Hex & Hrej). cbn [mbind outcome_bind].
    exists (mkSys w' WExec (Some x) (s_at s) (done_ s) (accepted s) (answers_ s)), q. split; [done|].
    split_and!; [constructor; cbn; rewrite ?Hrun, ?Hex, ?Hrej; done|done..|]. intros _. split; [cbn; lia|done].
Qed.

Lemma exec_step s q :
  sys_inv s q -> w_at s = WExec ->
  exists s', sys_step kDepth s AWorker = Ret s' /\ sys_inv s' q /\ closing s' = closing s /\ accepted s' = accepted s /\
    answers_ s' = answers_ s /\ s_at s' = s_at s /\ (work s' q < work s q)%nat /\ w_at s' = WTop.
Proof.
  intros [Hr Ho Hru Hd Hst He Hre Ha] Hat. cbn [sys_step]. unfold worker_step. rewrite Hat. eexists. split; [reflexivity|].
  split_and!; try done; [|unfold work; cbn; rewrite Hat; lia]. unfold inflight in Ho. rewrite Hat in Ho.
  constructor; cbn; try done; [by rewrite <- app_assoc|intros E%Hst; congruence|].
  rewrite He, length_app, wrap_add_wrap_l by lia. f_equal. cbn. lia.
Qed.
Lemma other_step s q a :
  sys_inv s q -> a = AStop \/ a = ASpurious ->
  exists s', sys_step kDepth s a = Ret s' /\ sys_inv s' q /\ w_at s' = w_at s /\ w_job s' = w_job s /\ accepted s' = accepted s /\
    done_ s' = done_ s /\ (closing s = true -> closing s' = true) /\
    (w_at s = WDone -> a = AStop -> closing s = true -> s_at s' = SStopped).
Proof.
  intros [Hr Ho Hru Hd Hst He Hre Ha] Hact.
  destruct Hact as [-> | ->]; cbn [sys_step]; [unfold stop_step|]; unfold closing, inflight, set_s_at in *; destruct (s_at s) eqn:Hs;
    try (destruct (w_at s) eqn:Hw); eexists; (split; [reflexivity|]);
    (split_and!; [constructor; unfold closing, inflight, ring_holds; cbn; rewrite ?Hs, ?Hw; first [done|naive_solver]|cbn; rewrite ?Hs, ?Hw; first [done|naive_solver]..]).
Qed.

Lemma any_step s q a : sys_inv s q -> exists s' q', sys_step kDepth s a = Ret s' /\ sys_inv s' q'.
Proof using HD.
  intros Hi. destruct a as [j| | |].
  - destruct (decide (s_at s = SStopped)) as [Hs|Hs]; [exists s, q; cbn; by rewrite Hs|].
    destruct (submit_step s q j Hi Hs) as (s' & q' & ? & ? & _). eauto.
  - destruct (w_at s) eqn:Hat; [..|exists s, q; cbn; unfold worker_step; by rewrite Hat].
    + destruct (section_step s q Hi (or_introl Hat)) as (s' & q' & ? & ? & _). eauto.
    + destruct (section_step s q Hi (or_intror Hat)) as (s' & q' & ? & ? & _). eauto.
    + destruct (exec_step s q Hi Hat) as (s' & ? & ? & _). eauto.
  - destruct (other_step s q AStop Hi (or_introl eq_refl)) as (s' & ? & ? & _). eauto.
  - destruct (other_step s q ASpurious Hi (or_intror eq_refl)) as (s' & ? & ? & _). eauto.
Qed.

Lemma run_app s acts1 acts2 : sys_run kDepth s (acts1 ++ acts2) = s' ← sys_run kDepth s acts1; sys_run kDepth s' acts2.
Proof.
  revert s. induction acts1 as [|a acts1 IH]; intros s; [done|]. cbn [app sys_run]. destruct (sys_step kDepth s a) as [s'|]; [|done].
  cbn [mbind outcome_bind]. apply IH.
Qed.

Lemma run_inv s q acts : sys_inv s q -> exists s' q', sys_run kDepth s acts = Ret s' /\ sys_inv s' q'.
Proof using HD.
  revert s q. induction acts as [|a acts IH]; intros s q Hi; [eauto|]. destruct (any_step s q a Hi) as (s1 & q1 & Hs & H1).
  cbn [sys_run]. rewrite Hs. apply (IH _ _ H1).
Qed.

Definition is_worker (a : wact Job) : bool := match a with AWorker => true | _ => false end.
Definition is_submit (a : wact Job) : bool := match a with ASubmit _ => true | _ => false end.

(** The state from which nothing is left to do. *)
Lemma drained s q acts :
  sys_inv s q -> closing s = true -> w_at s = WDone -> q = [] -> forallb (fun a => negb (is_submit a)) acts = true ->
  exists s', sys_run kDepth s acts = Ret s' /\ sys_inv s' [] /\ closing s' = true /\ w_at s' = WDone /\ accepted s' = accepted s.
Proof.
  revert s. induction acts as [|a acts IH]; intros s Hi Hc Hw -> Hf; [eauto 6|]. apply andb_true_iff in Hf as [Ha Hf]. cbn [sys_run].
  assert (Hstep : exists s', sys_step kDepth s a = Ret s' /\ sys_inv s' [] /\ closing s' = true /\ w_at s' = WDone /\ accepted s' = accepted s).
  { destruct a as [j| | |]; [done|exists s; cbn; unfold worker_step; by rewrite Hw| |].
    - destruct (other_step s [] AStop Hi (or_introl eq_refl)) as (s' & ? & ? & ? & _ & ? & _ & Hcl & _). exists s'. rewrite <- Hw. auto.
    - destruct (other_step s [] ASpurious Hi (or_intror eq_refl)) as (s' & ? & ? & ? & _ & ? & _ & Hcl & _). exists s'. rewrite <- Hw. auto. }
  destruct Hstep as (s' & -> & Hi' & Hc' & Hw' & Ha'). cbn [mbind outcome_bind].
  destruct (IH s' Hi' Hc' Hw' eq_refl Hf) as (s2 & ? & ? & ? & ? & ?). exists s2. split_and!; congruence.
Qed.

Lemma drains s q acts :
  sys_inv s q -> closing s = true -> w_at s <> WDone -> forallb (fun a => negb (is_submit a)) acts = true ->
  (work s q <= countb is_worker acts)%nat ->
  exists s', sys_run kDepth s acts = Ret s' /\ sys_inv s' [] /\ closing s' = true /\ w_at s' = WDone /\ accepted s' = accepted s.
Proof using HD.
  revert s q. induction acts as [|a acts IH]; intros s q Hi Hc Hw Hf Hn.
  - unfold work in Hn. cbn in Hn. destruct (w_at s); [lia..|done].
  - apply andb_true_iff in Hf as [Ha Hf]. cbn [sys_run].
    assert (Hother : a = AStop \/ a = ASpurious -> exists s', sys_run kDepth s (a :: acts) = Ret s' /\ sys_inv s' [] /\ closing s' = true /\
      w_at s' = WDone /\ accepted s' = accepted s).
    { intros Hact. destruct (other_step s q a Hi Hact) as (s1 & Hs1 & Hi1 & Hw1 & Hj1 & Ha1 & _ & Hc1 & _). cbn [sys_run].
      rewrite Hs1. cbn [mbind outcome_bind]. rewrite <- Ha1. apply (IH s1 q Hi1); [auto|congruence|done|].
      unfold work in *. rewrite Hw1. by destruct Hact as [-> | ->]. }
    destruct a as [j| | |]; [done| |by apply Hother; left|by apply Hother; right]. cbn [countb is_worker] in Hn.
    destruct (decide (w_at s = WExec)) as [He|He].
    + destruct (exec_step s q Hi He) as (s1 & -> & Hi1 & Hc1 & Ha1 & _ & _ & Hlt & Hw1). cbn [mbind outcome_bind]. rewrite <- Ha1.
      apply (IH s1 q Hi1); [congruence|congruence|done|lia].
    + assert (Hat : w_at s = WTop \/ w_at s = WWait) by (destruct (w_at s); naive_solver).
      destruct (section_step s q Hi Hat) as (s1 & q1 & -> & Hi1 & Hc1 & Ha1 & _ & _ & _ & Hlt). destruct (Hlt Hc) as [Hlt1 Hq1]. cbn [mbind outcome_bind].
      rewrite <- Ha1. destruct (decide (w_at s1 = WDone)) as [Hd|Hd]; [apply (drained s1 q1); auto; congruence|].
      apply (IH s1 q1 Hi1); [congruence|done|done|lia].
Qed.
(** The worker executes exactly what it accepted, once and in order.  Under any
    interleaving of submissions, the worker, [stop] and spurious wakeups, from a
    started worker of any depth up to 255: no step leaves the ring; the accepted
    jobs are, in order, those executed, the one being executed and those queued;
    [execute] never runs without a job; the counters agree (as 32-bit numbers);
    and a submission is refused exactly when [kDepth] jobs are queued. *)
Theorem worker_in_order (job0 : Job) (acts : list (wact Job)) :
  exists s q, sys_run kDepth (sys0 kDepth job0) acts = Ret s /\
    map Some (accepted s) = done_ s ++ inflight s ++ map Some q /\ Z.of_nat (length q) <= kDepth /\
    executed (wk s) = u32 (Z.of_nat (length (done_ s))) /\ rejected (wk s) = u32 (Z.of_nat (countb negb (answers_ s))) /\
    (s_at s <> SStopped -> forall j, exists s', sys_step kDepth s (ASubmit j) = Ret s' /\
       answers_ s' = answers_ s ++ [Z.of_nat (length q) <? kDepth]).
Proof using HD.
  destruct (run_inv _ _ acts (inv0 job0)) as (s & q & Hrun & Hi). exists s, q. pose proof (inv_ring _ _ Hi) as (_ & _ & Hc & Hle & _).
  split_and!; [done|apply Hi|lia|apply Hi|apply Hi|]. intros Hs j. destruct (submit_step s q j Hi Hs) as (s' & q' & ? & _ & ? & _); eauto.
Qed.

(** C20: [stop] drains and returns.  Once [stop] has asked the worker to halt while
    it still runs, and nothing more is submitted, any continuation in which the
    worker is scheduled [2 * kDepth + 2] times leaves [stop] free to return, with
    every job ever accepted executed in order, however the threads interleave
    and without relying on a spurious wakeup. *)
Theorem stop_drains (job0 : Job) (acts1 acts2 : list (wact Job)) (s1 : wsys Job) :
  sys_run kDepth (sys0 kDepth job0) acts1 = Ret s1 -> closing s1 = true -> w_at s1 <> WDone ->
  forallb (fun a => negb (is_submit a)) acts2 = true -> 2 * kDepth + 2 <= Z.of_nat (countb is_worker acts2) ->
  exists s2, sys_run kDepth s1 (acts2 ++ [AStop]) = Ret s2 /\ s_at s2 = SStopped /\ done_ s2 = map Some (accepted s1) /\ accepted s2 = accepted s1.
Proof using HD.
  intros Hrun Hc Hw Hf Hn. destruct (run_inv _ _ acts1 (inv0 job0)) as (s & q & Hrun' & Hi).
  assert (s1 = s) as -> by congruence.
  assert (Hwork : (work s q <= countb is_worker acts2)%nat).
  { pose proof (inv_ring _ _ Hi) as (_ & _ & Hcn & Hle & _). unfold work. destruct (w_at s); lia. }
  destruct (drains s q acts2 Hi Hc Hw Hf Hwork) as (s2 & Hs2 & Hi2 & Hc2 & Hw2 & Ha2). rewrite run_app, Hs2. cbn [mbind outcome_bind sys_run].
  destruct (other_step s2 [] AStop Hi2 (or_introl eq_refl)) as (s3 & -> & Hi3 & Hw3 & _ & Ha3 & _ & _ & Hst). cbn [mbind outcome_bind].
  exists s3. split_and!; [done|by apply Hst| |congruence]. pose proof (inv_order _ _ Hi3) as Ho. unfold inflight in Ho.
  rewrite Hw3, Hw2, Ha3, Ha2, app_nil_r in Ho. done.
Qed.
End spec.

(** Two jobs are queued when [stop] arrives, a third waits in the full ring's turn. *)
Definition busy : list (wact Z) := [ASubmit 7; AWorker; ASubmit 8; ASubmit 9; ASubmit 10; AStop; AStop].

Lemma worker_in_order_witness :
  exists s q, sys_run 2 (sys0 2 0) busy = Ret s /\ map Some (accepted s) = done_ s ++ inflight s ++ map Some q /\ Z.of_nat (length q) <= 2 /\
    executed (wk s) = u32 (Z.of_nat (length (done_ s))) /\ rejected (wk s) = u32 (Z.of_nat (countb negb (answers_ s))) /\
    (s_at s <> SStopped -> forall j, exists s', sys_step 2 s (ASubmit j) = Ret s' /\ answers_ s' = answers_ s ++ [Z.of_nat (length q) <? 2]).
Proof. apply (worker_in_order 2 ltac:(lia) 0 busy). Defined.

Lemma stop_drains_witness :
  exists s1 s2, sys_run 2 (sys0 2 0) busy = Ret s1 /\ answers_ s1 = [true; true; true; false] /\
    sys_run 2 s1 ([AWorker; AStop; AWorker; AWorker; AWorker; AWorker; AWorker] ++ [AStop]) = Ret s2 /\ s_at s2 = SStopped /\
    done_ s2 = map Some [7; 8; 9] /\ accepted s2 = [7; 8; 9].
Proof.
  eexists. assert (Hrun : sys_run 2 (sys0 2 0) busy = Ret _) by (vm_compute; reflexivity).
  destruct (stop_drains 2 ltac:(lia) 0 busy [AWorker; AStop; AWorker; AWorker; AWorker; AWorker; AWorker] _ Hrun) as (s2 & H2 & H3 & H4 & H5);
    [reflexivity|discriminate|reflexivity|done|]. exists s2. split_and!; [exact Hrun|reflexivity|exact H2|exact H3|exact H4|exact H5].
Defined.

(** A job submitted after the worker has left, before [stop] has taken the mutex
    away, is accepted and never executed. *)
Lemma late_submit_lost :
  exists s, sys_run 2 (sys0 2 0) [AStop; AStop; AWorker; ASubmit 5; AStop] = Ret s /\ s_at s = SStopped /\ answers_ s = [true] /\ done_ s = [].
Proof. eexists. split_and!; [vm_compute; reflexivity|reflexivity..]. Qed.
