(* ===== verification/Irsc.v ===== *)
(** * Bringing the sensor up (examples/isp_pipeline/sensor_irsc.hpp)

    The driver object hands each command to the command channel, a worker of
    depth four ([Worker.v]), and answers its completions.  [mail] is the driver's
    queue; the acknowledgements it submits to the orchestrator are collected in
    [acks].  Whether the pool has a block, and whether the coordinator takes an
    event, come from outside with each step. *)

From Stdlib Require Import Ascii String.
From S2P Require Import Prelude QueueSpec Hsm Recfg Worker WorkerSpec.

Definition kIrscCmd : Z := 5.
Definition kIrscReady : Z := 8.
Definition kIrscDmaDone : Z := 26.

(** ** Commands *)

Definition kIrscInit : Z := 0.
Definition kIrscStart : Z := 1.
Definition kIrscCtrl : Z := 2.
Definition kIrscOutputEnable : Z := 3.

Record IrscCmd := mkCmd { cmd_step : Z; cmd_tag : string }.

Definition kIrscCmdSequence : list IrscCmd :=
  [mkCmd kIrscInit "IRSCI"; mkCmd kIrscStart "IRSCS"; mkCmd kIrscCtrl "IRSCC"; mkCmd kIrscOutputEnable "IRSCE"].

Definition irsc_step_name (s : Z) : string :=
  if s =? kIrscInit then "init" else if s =? kIrscStart then "start" else if s =? kIrscCtrl then "ctrl"
  else if s =? kIrscOutputEnable then "output_enable" else "?".

(** An event of the driver; [i_control]: the first five bytes of the payload. *)
Record ievent := mkIEv { i_sig : Z; i_arg : Z; i_control : list Z }.

Definition tag_byte (t : string) (i : nat) : Z := match get i t with Some a => Z.of_N (N_of_ascii a) | None => 0 end.

Definition stamp (c : IrscCmd) : ievent :=
  mkIEv kIrscCmd (u16 (cmd_step c))
    [tag_byte (cmd_tag c) 0; tag_byte (cmd_tag c) 1; tag_byte (cmd_tag c) 2; tag_byte (cmd_tag c) 3; u8 (cmd_step c)].

Inductive IrscDoneAction := kAck | kAckAndReady.

Definition kIrscDoneTable : list (Z * IrscDoneAction) :=
  [(kIrscInit, kAck); (kIrscStart, kAck); (kIrscCtrl, kAck); (kIrscOutputEnable, kAckAndReady)].

Fixpoint done_action_in (t : list (Z * IrscDoneAction)) (s : Z) : IrscDoneAction :=
  match t with [] => kAck | (step, a) :: t => if step =? s then a else done_action_in t s end.
Definition irsc_done_action_of (s : Z) : IrscDoneAction := done_action_in kIrscDoneTable s.

(** ** The driver *)

Definition kCmdDepth : Z := 4.

(** [stray]: an access outside the channel's ring. *)
Record IrscCtx := mkIrsc {
  ready : bool; step_count : Z; channel_subs : Z; channel_rejects : Z; dma_done_count : Z;
  cmd_channel : wsys Z; pool_has : bool; session : SessionState; acks : list ievent; stray : bool
}.

Definition set_channel (c : IrscCtx) (ch : wsys Z) (subs rejects : Z) : IrscCtx :=
  mkIrsc (ready c) (step_count c) subs rejects (dma_done_count c) ch (pool_has c) (session c) (acks c) (stray c).

(** An [IrscStep] is 8 bits wide. *)
Definition onIrscCmd (c : IrscCtx) (e : ievent) : IrscCtx :=
  let arg := u8 (i_arg e) in
  match sys_step kCmdDepth (cmd_channel c) (ASubmit arg) with
  | Ret ch =>
    if default false (last (answers_ ch)) then set_channel c ch (u32 (channel_subs c + 1)) (channel_rejects c)
    else set_channel c ch (channel_subs c) (u32 (channel_rejects c + 1))
  | Fatal => mkIrsc (ready c) (step_count c) (channel_subs c) (channel_rejects c) (dma_done_count c) (cmd_channel c) (pool_has c) (session c)
               (acks c) true
  end.

Definition irsc_ack (step : Z) : ievent := mkIEv kIrscReady (u16 step) [73; 82; 83; 67; u8 step].

Definition onIrscDmaDone (c : IrscCtx) (e : ievent) : IrscCtx :=
  let step := u8 (i_arg e) in
  if negb (pool_has c) then c
  else
    mkIrsc (match irsc_done_action_of step with kAckAndReady => true | kAck => ready c end)
      (u32 (step_count c + 1)) (channel_subs c) (channel_rejects c) (u32 (dma_done_count c + 1)) (cmd_channel c) (pool_has c) (session c)
      (acks c ++ [irsc_ack step]) (stray c).

Definition onIrscCmdRejected (c : IrscCtx) (_ : ievent) : IrscCtx :=
  set_channel c (cmd_channel c) (channel_subs c) (u32 (channel_rejects c + 1)).

Definition kIrscRoot : Z := 0.
Definition kIrscActive : Z := 1.

Definition kIrscStates : list (StateDef IrscCtx) := [mkState (-1) None None (-1); mkState kIrscRoot None None (-1)].

Definition irsc_session_open (c : IrscCtx) (_ : ievent) : bool :=
  match session c with sInit | sRunning => true | _ => false end.

Definition kIrscTransitions : list (TransitionDef IrscCtx ievent) :=
  [mkTrans kIrscActive kIrscCmd kIrscActive Internal (Some irsc_session_open) (Some onIrscCmd);
   mkTrans kIrscActive kIrscCmd kIrscActive Self None (Some onIrscCmdRejected);
   mkTrans kIrscActive kIrscDmaDone kIrscActive Internal None (Some onIrscDmaDone)].

Definition irsc_machine : Hsm IrscCtx ievent := mkHsm kIrscStates kIrscTransitions kIrscActive 2 kIrscActive.

(** ** Driver and channel *)

(** [completion_rejects] is the channel's. *)
Record isys := mkISys { mail : list ievent; ictx : IrscCtx; imachine : Hsm IrscCtx ievent; completion_rejects : Z }.

(** What becomes of a completion event. *)
Inductive fate := fNoBlock | fRefused | fQueued.

Definition dma_done (arg : Z) : ievent := mkIEv kIrscDmaDone arg [].

(** [CmdDmaWorker::execute], at the end of its latency. *)
Definition execute (s : isys) (arg : Z) (f : fate) : isys :=
  match f with
  | fNoBlock => mkISys (mail s) (ictx s) (imachine s) (u32 (completion_rejects s + 1))
  | fRefused => s
  | fQueued => mkISys (mail s ++ [dma_done arg]) (ictx s) (imachine s) (completion_rejects s)
  end.

Definition with_pool (c : IrscCtx) (b : bool) : IrscCtx :=
  mkIrsc (ready c) (step_count c) (channel_subs c) (channel_rejects c) (dma_done_count c) (cmd_channel c) b (session c) (acks c) (stray c).
Definition with_session (c : IrscCtx) (x : SessionState) : IrscCtx :=
  mkIrsc (ready c) (step_count c) (channel_subs c) (channel_rejects c) (dma_done_count c) (cmd_channel c) (pool_has c) x (acks c) (stray c).

Inductive iact := IDispatch (pool : bool) | IChannel (f : fate) | ISession (x : SessionState).

Definition istep (s : isys) (a : iact) : outcome isys :=
  match a with
  | IDispatch pool =>
    match mail s with
    | [] => mret s
    | e :: mail =>
      '(_, c, h) ← dispatch i_sig (imachine s) (with_pool (ictx s) pool) e;
      mret (mkISys mail c h (completion_rejects s))
    end
  | IChannel f =>
    let ch := cmd_channel (ictx s) in
    ch' ← worker_step kCmdDepth ch;
    let s' := mkISys (mail s) (set_channel (ictx s) ch' (channel_subs (ictx s)) (channel_rejects (ictx s))) (imachine s) (completion_rejects s) in
    mret (match w_at ch, w_job ch with WExec, Some arg => execute s' arg f | WExec, None => execute s' 0 f | _, _ => s' end)
  | ISession x => mret (mkISys (mail s) (with_session (ictx s) x) (imachine s) (completion_rejects s))
  end.

Fixpoint irun (s : isys) (acts : list iact) : outcome isys :=
  match acts with [] => mret s | a :: acts => s ← istep s a; irun s acts end.

(** [run_preview], phase 4: the commands are posted in the order of the table. *)
Definition bring_up (x : SessionState) : isys :=
  mkISys (map stamp kIrscCmdSequence) (mkIrsc false 0 0 0 0 (sys0 kCmdDepth 0) true x [] false) irsc_machine 0.

(** * The sensor comes up (examples/isp_pipeline/sensor_irsc.hpp)

    Driver, channel and acknowledgements composed: under any interleaving. *)

#[local] Arguments Z.eqb !x !y.

(** ** The arcs *)

Section arcs.
Context {C E : Type} (sig : E -> Z) (cmd rej done : C -> E -> C) (open_ : C -> E -> bool).

Definition driver : Hsm C E :=
  mkHsm [mkState (-1) None None (-1); mkState 0 None None (-1)]
    [mkTrans 1 5 1 Internal (Some open_) (Some cmd); mkTrans 1 5 1 Self None (Some rej); mkTrans 1 26 1 Internal None (Some done)] 1 2 1.

Lemma driver_dispatch c e :
  exists b, dispatch sig driver c e =
    Ret (b, if sig e =? 5 then (if open_ c e then cmd c e else rej c e) else if sig e =? 26 then done c e else c, driver).
Proof.
  unfold dispatch. change (current_ driver <? 0) with false. change (chain_fuel driver) with 3%nat. change (current_ driver) with 1. cbn iota.
  cbn [dispatch_loop]. unfold find_transition. cbn [driver transitions_ find_in source signal guard]. rewrite !(Z.eqb_sym (sig e)).
  change (1 =? 1) with true. cbn [andb negb orb]. destruct (5 =? sig e) eqn:H5.
  - cbn. destruct (open_ c e) eqn:Ho; eexists; vm_compute; reflexivity.
  - destruct (26 =? sig e) eqn:H26; cbn; [eexists; vm_compute; reflexivity|].
    change (0 =? 1) with false. cbn. eexists. reflexivity.
Qed.
End arcs.

Lemma irsc_dispatch c e :
  exists b, dispatch i_sig irsc_machine c e =
    Ret (b, if i_sig e =? kIrscCmd then (if irsc_session_open c e then onIrscCmd c e else onIrscCmdRejected c e)
            else if i_sig e =? kIrscDmaDone then onIrscDmaDone c e else c, irsc_machine).
Proof. apply (driver_dispatch i_sig onIrscCmd onIrscCmdRejected onIrscDmaDone irsc_session_open). Qed.

(** ** The invariant *)

Definition plan : list Z := [0; 1; 2; 3].

(** The arguments of the events of one kind, in order. *)
Definition args_of (g : Z) (m : list ievent) : list Z := omap (fun e => if i_sig e =? g then Some (i_arg e) else None) m.

Definition open_session (x : SessionState) : bool := match x with sInit | sRunning => true | _ => false end.

(** The commands are, in order: acknowledged, completed, being written, queued in
    the channel, waiting in the driver's queue. *)
Record iinv (s : isys) (q : list Z) : Prop := {
  ii_chan : sys_inv kCmdDepth (cmd_channel (ictx s)) q;
  ii_open : closing (cmd_channel (ictx s)) = false;
  ii_machine : imachine s = irsc_machine;
  ii_session : open_session (session (ictx s)) = true;
  ii_mail : Forall (fun e => i_sig e = kIrscCmd \/ i_sig e = kIrscDmaDone) (mail s);
  ii_plan : map i_arg (acks (ictx s)) ++ args_of kIrscDmaDone (mail s) ++ omap id (inflight (cmd_channel (ictx s))) ++ q ++ args_of kIrscCmd (mail s) = plan;
  ii_acks : acks (ictx s) = map irsc_ack (map i_arg (acks (ictx s)));
  ii_ready : ready (ictx s) = (length (acks (ictx s)) =? 4)%nat;
  ii_clean : channel_rejects (ictx s) = 0 /\ stray (ictx s) = false /\ completion_rejects s = 0
}.

Definition left_to_do (s : isys) (q : list Z) : nat :=
  4 * length (args_of kIrscCmd (mail s)) + 3 * length q + 2 * length (inflight (cmd_channel (ictx s))) + length (args_of kIrscDmaDone (mail s)).

Lemma plan_split l a r : l ++ a :: r = plan -> a = Z.of_nat (length l) /\ (length l < 4)%nat.
Proof.
  intros H. assert (Hl : plan !! length l = Some a) by (rewrite <- H; by apply list_lookup_middle).
  destruct l as [|? [|? [|? [|? l]]]]; cbn in Hl; [injection Hl as <-; cbn; split; [done|lia]..|by destruct l].
Qed.

Lemma args_app g m1 m2 : args_of g (m1 ++ m2) = args_of g m1 ++ args_of g m2.
Proof. apply omap_app. Qed.

Lemma inflight_some (ch : wsys Z) q : sys_inv kCmdDepth ch q -> inflight ch = map Some (omap id (inflight ch)).
Proof.
  intros Hi. pose proof (inv_order _ _ _ Hi) as Ho. unfold inflight in *. destruct (w_at ch); try done. cbn.
  destruct (w_job ch) as [x|] eqn:Hj; [done|]. exfalso.
  assert (Hin : None ∈ map Some (accepted ch)) by (rewrite Ho; set_solver).
  apply list_elem_of_fmap in Hin as (y & ? & _). done.
Qed.

(** ** Dispatches *)

Lemma cmd_step_ok s q e m :
  iinv s q -> mail s = e :: m -> i_sig e = kIrscCmd ->
  let s' := mkISys m (onIrscCmd (with_pool (ictx s) true) e) irsc_machine (completion_rejects s) in
  exists q', iinv s' q' /\ (left_to_do s' q' < left_to_do s q)%nat.
Proof.
  intros [Hch Hop Hm Hse Hma Hpl Hac Hre (Hrj & Hst & Hco)] Hmail Hsig. cbv zeta. rewrite Hmail in Hma, Hpl. apply Forall_cons in Hma as [_ Hma].
  assert (H26 : args_of kIrscDmaDone (e :: m) = args_of kIrscDmaDone m) by (cbn; by rewrite Hsig).
  assert (H5 : args_of kIrscCmd (e :: m) = i_arg e :: args_of kIrscCmd m) by (cbn; by rewrite Hsig).
  assert (Harg : 0 <= i_arg e < 4).
  { rewrite H5 in Hpl. rewrite !app_assoc in Hpl. apply plan_split in Hpl. lia. }
  assert (Hq : Z.of_nat (length q) < 4).
  { apply (f_equal length) in Hpl. rewrite H5, !length_app in Hpl. cbn in Hpl. lia. }
  assert (Hu : u8 (i_arg e) = i_arg e) by (apply wrap_small; unfold in_u; change (2 ^ 8) with 256; lia).
  destruct (submit_step kCmdDepth ltac:(unfold kCmdDepth; lia) _ _ (i_arg e) Hch) as (ch & q' & Hs & Hi' & Han & Hsa & Hwa & Hwj & Hq').
  { intros E. unfold closing in Hop. by rewrite E in Hop. }
  unfold kCmdDepth in Han, Hq'. rewrite (proj2 (Z.ltb_lt _ _)) in Han, Hq' by lia. subst q'. exists (q ++ [i_arg e]).
  assert (Hc : onIrscCmd (with_pool (ictx s) true) e = set_channel (with_pool (ictx s) true) ch (u32 (channel_subs (ictx s) + 1)) (channel_rejects (ictx s))).
  { unfold onIrscCmd. rewrite Hu. cbn [cmd_channel with_pool]. rewrite Hs, Han, last_snoc. done. }
  assert (Hin : inflight ch = inflight (cmd_channel (ictx s))) by (unfold inflight; by rewrite Hwa, Hwj).
  rewrite Hc. split.
  - constructor; cbn; try done; [by unfold closing; rewrite Hsa|]. rewrite Hin, <- Hpl, H26, H5, <- app_assoc. done.
  - unfold left_to_do. rewrite Hmail, H26, H5. cbn [mail ictx set_channel cmd_channel]. rewrite Hin, length_app. cbn. lia.
Qed.

Lemma done_step_ok s q e m :
  iinv s q -> mail s = e :: m -> i_sig e = kIrscDmaDone ->
  let s' := mkISys m (onIrscDmaDone (with_pool (ictx s) true) e) irsc_machine (completion_rejects s) in
  iinv s' q /\ (left_to_do s' q < left_to_do s q)%nat.
Proof.
  intros [Hch Hop Hm Hse Hma Hpl Hac Hre (Hrj & Hst & Hco)] Hmail Hsig. cbv zeta. rewrite Hmail in Hma, Hpl. apply Forall_cons in Hma as [_ Hma].
  assert (H26 : args_of kIrscDmaDone (e :: m) = i_arg e :: args_of kIrscDmaDone m) by (cbn; by rewrite Hsig).
  assert (H5 : args_of kIrscCmd (e :: m) = args_of kIrscCmd m) by (cbn; by rewrite Hsig).
  rewrite H26, H5 in Hpl. pose proof (plan_split _ _ _ Hpl) as [Harg Hlt]. rewrite length_map in Harg, Hlt.
  assert (Hu : u8 (i_arg e) = i_arg e) by (apply wrap_small; unfold in_u; change (2 ^ 8) with 256; lia).
  assert (Hu16 : u16 (i_arg e) = i_arg e) by (apply wrap_small; unfold in_u; change (2 ^ 16) with 65536; lia).
  assert (Hc : onIrscDmaDone (with_pool (ictx s) true) e =
    mkIrsc (match irsc_done_action_of (i_arg e) with kAckAndReady => true | kAck => ready (ictx s) end) (u32 (step_count (ictx s) + 1))
      (channel_subs (ictx s)) (channel_rejects (ictx s)) (u32 (dma_done_count (ictx s) + 1)) (cmd_channel (ictx s)) true (session (ictx s))
      (acks (ictx s) ++ [irsc_ack (i_arg e)]) (stray (ictx s))) by (unfold onIrscDmaDone; by rewrite Hu).
  rewrite Hc. split.
  - constructor; cbn; try done.
    + rewrite map_app. cbn. by rewrite Hu16, <- app_assoc.
    + rewrite !map_app, <- Hac. cbn. by rewrite Hu16.
    + rewrite length_app, Harg, Hre. cbn. destruct (acks (ictx s)) as [|? [|? [|? [|? l]]]]; cbn in Hlt |- *; try done; lia.
  - unfold left_to_do. rewrite Hmail, H26, H5. cbn [mail ictx cmd_channel length]. lia.
Qed.

(** ** The channel *)

Lemma channel_step_ok s q :
  iinv s q ->
  exists s' q', istep s (IChannel fQueued) = Ret s' /\ iinv s' q' /\
    ((left_to_do s' q' < left_to_do s q)%nat \/
     (mail s' = mail s /\ q = [] /\ q' = [] /\ inflight (cmd_channel (ictx s)) = [] /\ inflight (cmd_channel (ictx s')) = [])).
Proof.
  intros [Hch Hop Hm Hse Hma Hpl Hac Hre (Hrj & Hst & Hco)]. cbn [istep]. set (ch := cmd_channel (ictx s)) in *.
  assert (HD : 0 < kCmdDepth < 256) by (unfold kCmdDepth; lia). destruct (decide (w_at ch = WExec)) as [He|He].
  - destruct (exec_step _ _ _ Hch He) as (ch' & Hs & Hi' & Hc' & _ & _ & _ & _ & Hw'). cbn [sys_step] in Hs. rewrite Hs. cbn [mbind outcome_bind].
    assert (Hin : inflight ch = [w_job ch]) by (unfold inflight; by rewrite He).
    pose proof (inflight_some ch q Hch) as Hsome. rewrite Hin in Hsome, Hpl. cbn in Hsome. destruct (w_job ch) as [x|]; [|done].
    assert (Hin' : inflight ch' = []) by (unfold inflight; by rewrite Hw'). rewrite He. eexists _, q. split; [reflexivity|].
    assert (Hl : (left_to_do (execute (mkISys (mail s) (set_channel (ictx s) ch' (channel_subs (ictx s)) (channel_rejects (ictx s))) (imachine s)
      (completion_rejects s)) x fQueued) q < left_to_do s q)%nat).
    { unfold left_to_do. cbn [execute mail ictx set_channel cmd_channel]. fold ch. rewrite Hin, Hin', !args_app, !length_app.
      change (args_of kIrscCmd [dma_done x]) with (@nil Z). change (args_of kIrscDmaDone [dma_done x]) with [x]. cbn [length]. lia. }
    split; [|by left]. constructor; cbn [execute mail ictx imachine completion_rejects set_channel cmd_channel acks ready
      channel_rejects stray session]; try done; [congruence|apply Forall_app; split; [done|constructor; [by right|done]]|].
    rewrite Hin', !args_app. cbn in *. rewrite app_nil_r, <- !app_assoc. exact Hpl.
  - assert (Hat : w_at ch = WTop \/ w_at ch = WWait).
    { destruct (w_at ch) eqn:Hw; [by left|by right|done|]. destruct (inv_done _ _ _ Hch Hw) as [Hcl _]. congruence. }
    destruct (section_step kCmdDepth HD _ _ Hch Hat) as (ch' & q' & Hs & Hi' & Hc' & _ & _ & Hq' & Hex & _). cbn [sys_step] in Hs. rewrite Hs.
    cbn [mbind outcome_bind]. assert (Hin : inflight ch = []) by (unfold inflight; by destruct Hat as [-> | ->]).
    eexists _, q'. split; [destruct Hat as [-> | ->]; reflexivity|]. pose proof (inflight_some ch' q' Hi') as Hsome.
    assert (Hqq : omap id (inflight ch') ++ q' = q).
    { rewrite Hsome, <- map_app in Hq'. apply (inj (map Some)) in Hq'. done. }
    assert (Hlen : (length (inflight ch') + length q' = length q)%nat).
    { apply (f_equal length) in Hq'. by rewrite length_app, !length_map in Hq'. }
    split.
    + constructor; cbn [mail ictx imachine completion_rejects set_channel cmd_channel acks ready channel_rejects stray session]; try done; [congruence|].
      rewrite Hin in Hpl. cbn in Hpl. rewrite (app_assoc (omap id _) q'), Hqq. done.
    + destruct q as [|x q]; [right|left].
      * cbn [length] in Hlen. destruct (inflight ch') eqn:Hin', q'; try (cbn in Hlen; lia). by split_and!.
      * assert (H1 : length (inflight ch') = 1%nat) by (unfold inflight; by rewrite Hex).
        unfold left_to_do. cbn [mail ictx set_channel cmd_channel]. fold ch. rewrite Hin. cbn [length] in *. lia.
Qed.

(** ** Schedules *)

(** The pool has blocks, completions are taken, the session stays open. *)
Definition smooth (a : iact) : bool :=
  match a with IDispatch pool => pool | IChannel fQueued => true | IChannel _ => false | ISession x => open_session x end.

Definition is_dispatch (a : iact) : bool := match a with IDispatch _ => true | _ => false end.
Definition is_channel (a : iact) : bool := match a with IChannel _ => true | _ => false end.

(** A stretch of the schedule in which driver and channel both get a turn. *)
Definition fair_round (r : list iact) : bool := forallb smooth r && existsb is_dispatch r && existsb is_channel r.

Definition dormant (s : isys) (q : list Z) (s' : isys) (q' : list Z) (dispatched channelled : bool) : Prop :=
  mail s' = mail s /\ q' = q /\ inflight (cmd_channel (ictx s')) = inflight (cmd_channel (ictx s)) /\
  (dispatched = true -> mail s = []) /\ (channelled = true -> q = [] /\ inflight (cmd_channel (ictx s)) = []).

(** A step gets something done, or finds nothing to do. *)
Lemma istep_ok s q a :
  iinv s q -> smooth a = true ->
  exists s' q', istep s a = Ret s' /\ iinv s' q' /\
    ((left_to_do s' q' < left_to_do s q)%nat \/ dormant s q s' q' (is_dispatch a) (is_channel a)).
Proof.
  intros Hi Ha. destruct a as [[]|[]|x]; try done.
  - cbn [istep]. destruct (mail s) as [|e m] eqn:Hmail; [exists s, q; split_and!; try done; right; by split_and!|].
    pose proof (ii_mail _ _ Hi) as Hma. rewrite Hmail in Hma. apply Forall_cons in Hma as [Hsig _]. rewrite (ii_machine _ _ Hi).
    destruct (irsc_dispatch (with_pool (ictx s) true) e) as [b ->]. cbn [mbind outcome_bind]. destruct Hsig as [Hsig|Hsig]; rewrite Hsig.
    + assert (Ho : irsc_session_open (with_pool (ictx s) true) e = true) by apply (ii_session _ _ Hi). rewrite Ho.
      change (kIrscCmd =? kIrscCmd) with true. cbn iota.
      destruct (cmd_step_ok s q e m Hi Hmail Hsig) as (q' & ? & ?). eexists _, q'. split; [reflexivity|]. split; [done|by left].
    + change (kIrscDmaDone =? kIrscCmd) with false. change (kIrscDmaDone =? kIrscDmaDone) with true. cbn iota.
      destruct (done_step_ok s q e m Hi Hmail Hsig) as (? & ?). eexists _, q. split; [reflexivity|]. split; [done|by left].
  - destruct (channel_step_ok s q Hi) as (s' & q' & ? & ? & [Hlt|(Hm & Hq & Hq' & Hin & Hin')]); exists s', q'; split_and!; try done; [by left|].
    right. split_and!; try done; congruence.
  - destruct Hi as [Hch Hop Hm Hse Hma Hpl Hac Hre Hcl]. eexists _, q. split; [reflexivity|]. split; [by constructor|]. right. by split_and!.
Qed.

Lemma irun_app s a1 a2 : irun s (a1 ++ a2) = s' ← irun s a1; irun s' a2.
Proof. revert s. induction a1 as [|a a1 IH]; intros s; [done|]. cbn [app irun]. destruct (istep s a); [|done]. apply IH. Qed.

Lemma dormant_left s q s' q' d c : dormant s q s' q' d c -> left_to_do s' q' = left_to_do s q.
Proof. intros (Hm & -> & Hin & _). unfold left_to_do. by rewrite Hm, Hin. Qed.

Lemma irun_ok s q acts :
  iinv s q -> forallb smooth acts = true ->
  exists s' q', irun s acts = Ret s' /\ iinv s' q' /\
    ((left_to_do s' q' < left_to_do s q)%nat \/ dormant s q s' q' (existsb is_dispatch acts) (existsb is_channel acts)).
Proof.
  revert s q. induction acts as [|a acts IH]; intros s q Hi Hs; [exists s, q; split_and!; try done; right; by split_and!|].
  apply andb_true_iff in Hs as [Ha Hs]. destruct (istep_ok s q a Hi Ha) as (s1 & q1 & H1 & Hi1 & Hd1).
  destruct (IH s1 q1 Hi1 Hs) as (s2 & q2 & H2 & Hi2 & Hd2). cbn [irun]. rewrite H1. exists s2, q2. split; [done|]. split; [done|].
  destruct Hd1 as [Hlt1|Hd1], Hd2 as [Hlt2|Hd2]; [left; lia|apply dormant_left in Hd2; left; lia|apply dormant_left in Hd1; left; lia|].
  right. destruct Hd1 as (Hm1 & -> & Hin1 & Hdis1 & Hch1), Hd2 as (Hm2 & -> & Hin2 & Hdis2 & Hch2). cbn [existsb]. split_and!; [congruence|done|congruence| |].
  - intros [?|?]%orb_true_iff; [auto|]. rewrite <- Hm1. auto.
  - intros [?|?]%orb_true_iff; [auto|]. rewrite <- Hin1. auto.
Qed.

Lemma round_ok s q r :
  iinv s q -> fair_round r = true -> exists s' q', irun s r = Ret s' /\ iinv s' q' /\ (left_to_do s' q' <= left_to_do s q - 1)%nat.
Proof.
  intros Hi Hr. apply andb_true_iff in Hr as [[Hs Hd]%andb_true_iff Hc]. destruct (irun_ok s q r Hi Hs) as (s' & q' & H & Hi' & Hlt). exists s', q'.
  split_and!; try done. destruct Hlt as [?|Hdor]; [lia|]. rewrite (dormant_left _ _ _ _ _ _ Hdor). destruct Hdor as (_ & _ & _ & Hm & Hch).
  destruct (Hch Hc) as [-> Hin]. unfold left_to_do. rewrite (Hm Hd), Hin. cbn. lia.
Qed.

Lemma rounds_ok s q rs :
  iinv s q -> forallb fair_round rs = true ->
  exists s' q', irun s (concat rs) = Ret s' /\ iinv s' q' /\ (left_to_do s' q' <= left_to_do s q - length rs)%nat.
Proof.
  revert s q. induction rs as [|r rs IH]; intros s q Hi Hf; [exists s, q; split_and!; try done; cbn [length]; lia|].
  apply andb_true_iff in Hf as [Hr Hf]. destruct (round_ok s q r Hi Hr) as (s1 & q1 & H1 & Hi1 & Hle1).
  destruct (IH s1 q1 Hi1 Hf) as (s2 & q2 & H2 & Hi2 & Hle2). exists s2, q2. cbn [concat]. rewrite irun_app, H1. split_and!; try done. cbn [length]. lia.
Qed.

Lemma iinv0 x : open_session x = true -> iinv (bring_up x) [].
Proof. intros Hx. constructor; try done; [apply inv0; unfold kCmdDepth; lia|]. by repeat (constructor; [by left|]). Qed.

Lemma iinv_acks s q : iinv s q -> exists n, acks (ictx s) = map irsc_ack (take n plan) /\ ready (ictx s) = (4 <=? n)%nat /\ (left_to_do s q = 0%nat -> (4 <= n)%nat).
Proof.
  intros Hi. exists (length (acks (ictx s))). pose proof (ii_plan _ _ Hi) as Hpl.
  assert (Hlen : (length (acks (ictx s)) <= 4)%nat) by (apply (f_equal length) in Hpl; rewrite length_app, length_map in Hpl; change (length plan) with 4%nat in Hpl; lia).
  split_and!.
  - rewrite (ii_acks _ _ Hi) at 1. f_equal. rewrite <- Hpl, <- (length_map i_arg). by rewrite take_app_length.
  - rewrite (ii_ready _ _ Hi). destruct (Nat.eqb_spec (length (acks (ictx s))) 4), (Nat.leb_spec 4 (length (acks (ictx s)))); (done || lia).
  - unfold left_to_do. intros H0. assert (Hin : inflight (cmd_channel (ictx s)) = []) by (destruct (inflight _); [done|cbn in H0; lia]).
    apply (f_equal length) in Hpl. rewrite Hin, !length_app, length_map in Hpl. change (length plan) with 4%nat in Hpl. cbn [omap list_omap length] in Hpl. lia.
Qed.

(** The sensor comes up.  From the four commands the orchestrator posts, with
    the session open and the pool not exhausted: at every moment of every
    interleaving of the driver, the command channel and the session's move from
    INIT to RUNNING, the acknowledgements so far are those of the first steps in
    the order of the table, and the driver is ready exactly when all four are;
    no command is rejected and the channel's ring is never left.  And once the
    driver and the channel have each had a turn sixteen times, all four steps
    are acknowledged and the driver is ready. *)
Theorem irsc_comes_up (x : SessionState) (acts : list iact) (rounds : list (list iact)) :
  open_session x = true -> forallb smooth acts = true -> forallb fair_round rounds = true -> (16 <= length rounds)%nat ->
  (exists s n, irun (bring_up x) acts = Ret s /\ acks (ictx s) = map irsc_ack (take n plan) /\ ready (ictx s) = (4 <=? n)%nat /\
    channel_rejects (ictx s) = 0 /\ stray (ictx s) = false) /\
  (exists s, irun (bring_up x) (acts ++ concat rounds) = Ret s /\ acks (ictx s) = map irsc_ack [0; 1; 2; 3] /\ ready (ictx s) = true /\
    channel_rejects (ictx s) = 0 /\ completion_rejects s = 0).
Proof.
  intros Hx Ha Hr Hn. destruct (irun_ok _ _ acts (iinv0 x Hx) Ha) as (s & q & Hs & Hi & Hd). split.
  - destruct (iinv_acks s q Hi) as (n & ? & ? & _). destruct (ii_clean _ _ Hi) as (? & ? & _). exists s, n. done.
  - destruct (rounds_ok s q rounds Hi Hr) as (s2 & q2 & H2 & Hi2 & Hle). rewrite irun_app, Hs. cbn [mbind outcome_bind]. exists s2.
    assert (H16 : left_to_do (bring_up x) [] = 16%nat) by reflexivity.
    assert (Hz : left_to_do s2 q2 = 0%nat) by (destruct Hd as [?|Hd]; [|apply dormant_left in Hd]; lia).
    destruct (iinv_acks s2 q2 Hi2) as (n & Hac & Hre & Hn4). specialize (Hn4 Hz). destruct (ii_clean _ _ Hi2) as (? & ? & ?).
    rewrite Hac, Hre, take_ge by (cbn; lia). split_and!; try done. by apply Nat.leb_le.
Qed.

Definition one_round : list iact := [IChannel fQueued; ISession sRunning; IDispatch true].

Lemma irsc_comes_up_witness :
  exists s, irun (bring_up sInit) ([IDispatch true; IDispatch true; IChannel fQueued] ++ concat (replicate 16 one_round)) = Ret s /\
    acks (ictx s) = map irsc_ack [0; 1; 2; 3] /\ ready (ictx s) = true /\ channel_rejects (ictx s) = 0 /\ completion_rejects s = 0.
Proof. apply (irsc_comes_up sInit [IDispatch true; IDispatch true; IChannel fQueued] (replicate 16 one_round)); reflexivity || (cbn; lia). Defined.

(** When the pool is empty as a completion is dispatched, the step is not
    acknowledged and the driver never becomes ready. *)
Lemma starved_never_ready :
  (fun s => (length (mail s), ready (ictx s), length (acks (ictx s)))) <$>
    irun (bring_up sInit) (replicate 4 (IDispatch true) ++ replicate 8 (IChannel fQueued) ++ replicate 3 (IDispatch true) ++ [IDispatch false] ++
      concat (replicate 9 one_round)) = Ret (0%nat, false, 3%nat).
Proof. vm_compute. reflexivity. Qed.
