(* ===== verification/Msh.v ===== *)
(** * The objects behind the monitoring console (src/examples/msh_monitor_demo.cpp)

    A preview session: a sensor driver that hands its commands to a worker
    thread, a chain of frame objects, a reconfiguration object that drives its
    own stages, and the register block it publishes.  Every machine is run by
    [Hsm.dispatch]; what the pool answers (a block is there and the coordinator
    accepts the event) is an argument of the steps.  Printed lines and the
    simulated bus latency are left out; the console itself is [MshQuery]. *)

From S2P Require Import Prelude Hsm.
Local Open Scope Z_scope.

(** ** Session and events *)

Inductive SessionState := kBoot | kInit | kRunning | kRecfgTxn | kDeinit | kStopped.
#[export] Instance session_state_eq : EqDecision SessionState.
Proof. solve_decision. Defined.

(** [exchange]; the second component is the transition that is printed. *)
Definition session_advance (g s : SessionState) : SessionState * option (SessionState * SessionState) :=
  (s, if decide (s = g) then None else Some (g, s)).

Definition kIrscCmd : Z := 1.
Definition kIrscDmaDone : Z := 2.
Definition kIrscReady : Z := 3.
Definition kFrame : Z := 4.
Definition kGainDone : Z := 5.
Definition kFused : Z := 6.
Definition kEnhanceDone : Z := 7.
Definition kRecfgReq : Z := 8.
Definition kRecfgStage : Z := 9.

Record IoMeta := mkMeta { m_reply_to : Z; m_frame_id : Z; m_cmd_arg : Z; m_flags : Z; m_result : Z }.
Record mevent := mkMe { me_sig : Z; me_meta : IoMeta }.
Definition meta0 : IoMeta := mkMeta 0 0 0 0 0.
Definition cmd_event (sig arg reply : Z) : mevent := mkMe sig (mkMeta reply 0 arg 0 0).
Definition frame_event (sig id : Z) : mevent := mkMe sig (mkMeta 0 id 0 0 0).

Definition kOrchId : Z := 1.
Definition kIrscId : Z := 2.
Definition kRecfgId : Z := 6.

(** ** The command channel *)

Definition kDepth : Z := 4.

Record WorkerStats := mkStats { ws_submitted : Z; ws_executed : Z; ws_rejected : Z; ws_in_flight : Z }.

Definition record_accept (s : WorkerStats) (depth_used : Z) : WorkerStats :=
  mkStats (u32 (ws_submitted s + 1)) (u32 (ws_executed s + 1)) (ws_rejected s) depth_used.
Definition record_reject (s : WorkerStats) : WorkerStats :=
  mkStats (u32 (ws_submitted s + 1)) (ws_executed s) (u32 (ws_rejected s + 1)) (ws_in_flight s).
(** [record_complete] is a load and a store. *)
Definition complete_load (s : WorkerStats) : Z := ws_in_flight s.
Definition complete_store (s : WorkerStats) (f : Z) : WorkerStats :=
  mkStats (ws_submitted s) (ws_executed s) (ws_rejected s) (if 0 =? f then 0 else f - 1).

(** Where the thread is: at its wait; in the bus latency; after the completion
    event; between the load and the store; returned. *)
Inductive worker_pc := KWait | KBusy (job : Z) | KLoad | KStore (f : Z) | KEnd.
(** Where [stop] is: not called; in the wait on [idle_cv]; woken; returned. *)
Inductive stop_pc := SRun | SWaiting | SWoken | SJoined.
#[export] Instance worker_pc_eq : EqDecision worker_pc.
Proof. solve_decision. Defined.
#[export] Instance stop_pc_eq : EqDecision stop_pc.
Proof. solve_decision. Defined.

Record CmdWorker := mkCmd {
  slots : list Z; head : Z; tail : Z; count : Z; running : bool; stats : WorkerStats;
  wk_at : worker_pc; stop_at : stop_pc
}.

Definition cmd0 : CmdWorker := mkCmd (replicate 4 0) 0 0 0 true (mkStats 0 0 0 0) KWait SRun.

(** The critical section of [submit]. *)
Definition submit_section (w : CmdWorker) (cmd_arg : Z) : bool * CmdWorker :=
  if count w <? kDepth then
    (true, mkCmd (<[Z.to_nat (head w) := cmd_arg]> (slots w)) (u8 ((head w + 1) mod kDepth)) (tail w) (u8 (count w + 1))
             (running w) (stats w) (wk_at w) (stop_at w))
  else (false, w).
(** What follows it, reading [count] again. *)
Definition submit_account (w : CmdWorker) (ok : bool) : CmdWorker :=
  mkCmd (slots w) (head w) (tail w) (count w) (running w)
    (if ok then record_accept (stats w) (count w) else record_reject (stats w)) (wk_at w) (stop_at w).
Definition cmd_submit (w : CmdWorker) (cmd_arg : Z) : bool * CmdWorker :=
  let r := submit_section w cmd_arg in (r.1, submit_account r.2 r.1).

Definition set_at (w : CmdWorker) (pc : worker_pc) : CmdWorker :=
  mkCmd (slots w) (head w) (tail w) (count w) (running w) (stats w) pc (stop_at w).

Definition done_event (job : Z) : mevent := cmd_event kIrscDmaDone job kIrscId.

(** One step of [run]; the second component is what was submitted.  [None]: the
    thread sleeps or has returned. *)
Definition cmd_run (w : CmdWorker) (block : bool) : option (CmdWorker * list mevent) :=
  match wk_at w with
  | KWait =>
    if negb (count w =? 0) then
      Some (mkCmd (slots w) (head w) (u8 ((tail w + 1) mod kDepth)) (u8 (count w - 1)) (running w) (stats w)
              (KBusy (slots w !!! Z.to_nat (tail w))) (stop_at w), [])
    else if running w then None
    else Some (mkCmd (slots w) (head w) (tail w) (count w) (running w) (stats w) KEnd
                 (match stop_at w with SWaiting => SWoken | s => s end), [])
  | KBusy job => Some (set_at w KLoad, if block then [done_event job] else [])
  | KLoad => Some (set_at w (KStore (complete_load (stats w))), [])
  | KStore f =>
    Some (mkCmd (slots w) (head w) (tail w) (count w) (running w) (complete_store (stats w) f) KWait (stop_at w), [])
  | KEnd => None
  end.

(** One step of [stop]: up to the wait; a spurious wakeup; the join. *)
Definition stop_step (w : CmdWorker) : option CmdWorker :=
  match stop_at w, wk_at w with
  | SRun, _ => Some (mkCmd (slots w) (head w) (tail w) (count w) false (stats w) (wk_at w) SWaiting)
  | SWaiting, _ => Some (mkCmd (slots w) (head w) (tail w) (count w) (running w) (stats w) (wk_at w) SWoken)
  | SWoken, KEnd => Some (mkCmd (slots w) (head w) (tail w) (count w) (running w) (stats w) (wk_at w) SJoined)
  | _, _ => None
  end.

(** ** The sensor driver and the orchestrator *)

Record IrscCtx := mkIrsc {
  i_session : SessionState;       (* g_session *)
  cmd_channel : CmdWorker;
  step_count : Z; channel_subs : Z; channel_rejects : Z;
  i_block : bool;                 (* the pool's answer *)
  i_out : list mevent             (* submitted to the orchestrator *)
}.

Definition onIrscCmd (c : IrscCtx) (e : mevent) : IrscCtx :=
  let r := cmd_submit (cmd_channel c) (m_cmd_arg (me_meta e)) in
  if r.1 : bool then mkIrsc (i_session c) r.2 (step_count c) (u32 (channel_subs c + 1)) (channel_rejects c) (i_block c) (i_out c)
  else mkIrsc (i_session c) r.2 (step_count c) (channel_subs c) (u32 (channel_rejects c + 1)) (i_block c) (i_out c).

Definition onIrscDmaDone (c : IrscCtx) (e : mevent) : IrscCtx :=
  if i_block c then
    mkIrsc (i_session c) (cmd_channel c) (u32 (step_count c + 1)) (channel_subs c) (channel_rejects c) (i_block c)
      (i_out c ++ [cmd_event kIrscReady (m_cmd_arg (me_meta e)) kOrchId])
  else c.

Definition onIrscCmdRejected (c : IrscCtx) (_ : mevent) : IrscCtx :=
  mkIrsc (i_session c) (cmd_channel c) (step_count c) (channel_subs c) (u32 (channel_rejects c + 1)) (i_block c) (i_out c).

Definition irsc_session_open (c : IrscCtx) (_ : mevent) : bool :=
  match i_session c with kInit | kRunning | kRecfgTxn => true | _ => false end.

Definition kIrscStates : list (StateDef IrscCtx) := [mkState (-1) None None (-1); mkState 0 None None (-1)].
Definition kIrscTransitions : list (TransitionDef IrscCtx mevent) :=
  [mkTrans 1 kIrscCmd 1 Internal (Some irsc_session_open) (Some onIrscCmd);
   mkTrans 1 kIrscCmd 1 Self None (Some onIrscCmdRejected);
   mkTrans 1 kIrscDmaDone 1 Internal None (Some onIrscDmaDone)].
Definition irsc_machine (s : Z) : Hsm IrscCtx mevent := mkHsm kIrscStates kIrscTransitions 1 2 s.

(** [OrchCtx] and [ObserverCtx] are one counter. *)
Definition onOrchIrscReady (irsc_ready : Z) (_ : mevent) : Z := u32 (irsc_ready + 1).
Definition kOrchStates : list (StateDef Z) := [mkState (-1) None None (-1); mkState 0 None None (-1)].
Definition kOrchTransitions : list (TransitionDef Z mevent) := [mkTrans 1 kIrscReady 1 Internal None (Some onOrchIrscReady)].
Definition orch_machine (s : Z) : Hsm Z mevent := mkHsm kOrchStates kOrchTransitions 1 2 s.

(** ** The frame path *)

(** The counter ([frames_handled], [frames_fused], [frames_enhanced],
    [frames_received]) of a node, the pool's answer and what it submitted. *)
Record ChainCtx := mkChain { frames : Z; c_block : bool; c_out : list mevent }.

Definition onForwardFrame (DoneSig : Z) (c : ChainCtx) (e : mevent) : ChainCtx :=
  mkChain (u32 (frames c + 1)) (c_block c) (c_out c ++ if c_block c then [mkMe DoneSig (me_meta e)] else []).
Definition onEnhanceDoneObserver (c : ChainCtx) (_ : mevent) : ChainCtx := mkChain (u32 (frames c + 1)) (c_block c) (c_out c).

Definition kGainStates : list (StateDef ChainCtx) := [mkState (-1) None None (-1); mkState 0 None None (-1)].
Definition kFuseStates : list (StateDef ChainCtx) := [mkState (-1) None None (-1); mkState 0 None None (-1)].
Definition kEnhStates : list (StateDef ChainCtx) := [mkState (-1) None None (-1); mkState 0 None None (-1)].
Definition kObserverStates : list (StateDef ChainCtx) := [mkState (-1) None None (-1); mkState 0 None None (-1)].
Definition kGainTransitions : list (TransitionDef ChainCtx mevent) := [mkTrans 1 kFrame 1 Internal None (Some (onForwardFrame kGainDone))].
Definition kFuseTransitions : list (TransitionDef ChainCtx mevent) := [mkTrans 1 kGainDone 1 Internal None (Some (onForwardFrame kFused))].
Definition kEnhTransitions : list (TransitionDef ChainCtx mevent) := [mkTrans 1 kFused 1 Internal None (Some (onForwardFrame kEnhanceDone))].
Definition kObserverTransitions : list (TransitionDef ChainCtx mevent) := [mkTrans 1 kEnhanceDone 1 Internal None (Some onEnhanceDoneObserver)].

Definition gain_machine (s : Z) : Hsm ChainCtx mevent := mkHsm kGainStates kGainTransitions 1 2 s.
Definition fuse_machine (s : Z) : Hsm ChainCtx mevent := mkHsm kFuseStates kFuseTransitions 1 2 s.
Definition enh_machine (s : Z) : Hsm ChainCtx mevent := mkHsm kEnhStates kEnhTransitions 1 2 s.
Definition observer_machine (s : Z) : Hsm ChainCtx mevent := mkHsm kObserverStates kObserverTransitions 1 2 s.

(** The producer after its pause: the event for the gain node, [emitted],
    [dropped], [sent].  [block]: the pool has a block; [accepted]: the
    coordinator takes the event, which the producer does not ask. *)
Record FrameProducer := mkProd { emitted : Z; dropped : Z; sent : Z }.
Definition produce (p : FrameProducer) (block accepted : bool) : FrameProducer * list mevent :=
  if block then (mkProd (u32 (emitted p + 1)) (dropped p) (u32 (sent p + 1)), if accepted then [frame_event kFrame (sent p)] else [])
  else (mkProd (emitted p) (u32 (dropped p + 1)) (sent p), []).

(** ** The reconfiguration *)

Record HwBlackboard := mkBoard { layout_version : Z; width : Z; height : Z; zoom_step : Z; frame_bytes : Z }.
Definition board0 : HwBlackboard := mkBoard 1 640 512 128 655360.

Inductive RecfgStage := kIdle | kPrecheck | kQuiescing | kApplying | kSyncing | kResuming | kCommit.

Record RecfgCtx := mkRecfg {
  rc_stage : RecfgStage; rc_width : Z; rc_height : Z; rc_zoom_step : Z; recfgs_committed : Z; recfgs_rejected : Z;
  rc_session : SessionState;      (* g_session *)
  g_bb : HwBlackboard;
  rc_block : bool; rc_out : list mevent
}.

Definition recfg_ctx0 (s : SessionState) : RecfgCtx := mkRecfg kIdle 640 512 128 0 0 s board0 true [].

Definition publish_blackboard (c : RecfgCtx) : RecfgCtx :=
  mkRecfg (rc_stage c) (rc_width c) (rc_height c) (rc_zoom_step c) (recfgs_committed c) (recfgs_rejected c) (rc_session c)
    (mkBoard (u32 (layout_version (g_bb c) + 1)) (rc_width c) (rc_height c) (rc_zoom_step c)
       (u32 (u32 (rc_width c * rc_height c) * 2)))
    (rc_block c) (rc_out c).

Definition rc_self_submit (c : RecfgCtx) (sig : Z) : RecfgCtx :=
  mkRecfg (rc_stage c) (rc_width c) (rc_height c) (rc_zoom_step c) (recfgs_committed c) (recfgs_rejected c) (rc_session c) (g_bb c)
    (rc_block c) (rc_out c ++ if rc_block c then [cmd_event sig 0 kRecfgId] else []).

Definition set_stage (c : RecfgCtx) (st : RecfgStage) : RecfgCtx :=
  mkRecfg st (rc_width c) (rc_height c) (rc_zoom_step c) (recfgs_committed c) (recfgs_rejected c) (rc_session c) (g_bb c)
    (rc_block c) (rc_out c).
Definition set_session (c : RecfgCtx) (s : SessionState) : RecfgCtx :=
  mkRecfg (rc_stage c) (rc_width c) (rc_height c) (rc_zoom_step c) (recfgs_committed c) (recfgs_rejected c) s (g_bb c)
    (rc_block c) (rc_out c).

Definition rc_go_home (c : RecfgCtx) (_ : mevent) : RecfgCtx :=
  let c := match rc_session c with kRecfgTxn => set_session c (session_advance (rc_session c) kRunning).1 | _ => c end in
  set_stage c kIdle.

Definition count_rejected (c : RecfgCtx) : RecfgCtx :=
  mkRecfg (rc_stage c) (rc_width c) (rc_height c) (rc_zoom_step c) (recfgs_committed c) (u32 (recfgs_rejected c + 1)) (rc_session c) (g_bb c)
    (rc_block c) (rc_out c).
Definition count_committed (c : RecfgCtx) : RecfgCtx :=
  mkRecfg (rc_stage c) (rc_width c) (rc_height c) (rc_zoom_step c) (u32 (recfgs_committed c + 1)) (recfgs_rejected c) (rc_session c) (g_bb c)
    (rc_block c) (rc_out c).

Definition rc_enter_precheck (c : RecfgCtx) (e : mevent) : RecfgCtx :=
  let magx := m_cmd_arg (me_meta e) in
  if negb (2 =? magx) then rc_self_submit (rc_go_home (count_rejected c) e) kRecfgStage
  else rc_self_submit (set_stage c kQuiescing) kRecfgStage.

Definition rc_enter_apply (c : RecfgCtx) (_ : mevent) : RecfgCtx :=
  rc_self_submit
    (mkRecfg kApplying (u32 (rc_width c * 2)) (u32 (rc_height c * 2)) 256 (recfgs_committed c) (recfgs_rejected c) (rc_session c) (g_bb c)
       (rc_block c) (rc_out c)) kRecfgStage.

Definition rc_enter_sync (c : RecfgCtx) (_ : mevent) : RecfgCtx := rc_self_submit (set_stage c kSyncing) kRecfgStage.

Definition rc_enter_commit (c : RecfgCtx) (_ : mevent) : RecfgCtx :=
  rc_self_submit (set_stage (count_committed (publish_blackboard c)) kCommit) kRecfgStage.

Definition kRcIdle : Z := 1.
Definition kRcQuiesce : Z := 2.
Definition kRcApply : Z := 3.
Definition kRcSync : Z := 4.
Definition kRcCommit : Z := 5.

Definition kRecfgStates : list (StateDef RecfgCtx) :=
  [mkState (-1) None None (-1); mkState 0 None None (-1); mkState 0 None None (-1);
   mkState 0 None None (-1); mkState 0 None None (-1); mkState 0 None None (-1)].
Definition kRecfgTransitions : list (TransitionDef RecfgCtx mevent) :=
  [mkTrans kRcIdle kRecfgReq kRcQuiesce External None (Some rc_enter_precheck);
   mkTrans kRcQuiesce kRecfgStage kRcApply External None (Some rc_enter_apply);
   mkTrans kRcApply kRecfgStage kRcSync External None (Some rc_enter_sync);
   mkTrans kRcSync kRecfgStage kRcCommit External None (Some rc_enter_commit);
   mkTrans kRcCommit kRecfgStage kRcIdle External None (Some rc_go_home);
   mkTrans kRcIdle kRecfgStage kRcIdle Internal None None].
Definition recfg_machine (s : Z) : Hsm RecfgCtx mevent := mkHsm kRecfgStates kRecfgTransitions kRcIdle 2 s.

(** ** The reconfiguration and its queue *)

(** The object's queue, its context and state, and two counts of the model: the
    requests taken in Idle, and those of them that [rc_enter_precheck] refused. *)
Record rsys := mkRS { r_queue : list mevent; r_ctx : RecfgCtx; r_at : Z; r_taken : nat; r_refused : nat }.

Definition armed (c : RecfgCtx) (block : bool) : RecfgCtx :=
  mkRecfg (rc_stage c) (rc_width c) (rc_height c) (rc_zoom_step c) (recfgs_committed c) (recfgs_rejected c) (rc_session c) (g_bb c) block [].

Definition is_stage (e : mevent) : bool := me_sig e =? kRecfgStage.
Definition is_request (e : mevent) : bool := me_sig e =? kRecfgReq.
Definition unsupported (e : mevent) : bool := negb (2 =? m_cmd_arg (me_meta e)).
Definition tick (b : bool) : nat := if b then 1%nat else 0%nat.

(** The dispatcher gives the object its oldest event. *)
Definition rdispatch (block : bool) (s : rsys) : option (outcome rsys) :=
  match r_queue s with
  | [] => None
  | e :: q => Some (
      '(_, c, h) ← dispatch me_sig (recfg_machine (r_at s)) (armed (r_ctx s) block) e;
      let begins := (r_at s =? kRcIdle) && is_request e in
      mret (mkRS (q ++ rc_out c) c (current_ h) (r_taken s + tick begins) (r_refused s + tick (begins && unsupported e))))
  end.

(** [lossless]: every stage event finds a block. *)
Inductive rstep (lossless : bool) : rsys -> rsys -> Prop :=
| rs_request q c st n k magx : rstep lossless (mkRS q c st n k) (mkRS (q ++ [cmd_event kRecfgReq magx kOrchId]) c st n k)
| rs_session q c st n k g : rstep lossless (mkRS q c st n k) (mkRS q (set_session c (session_advance (rc_session c) g).1) st n k)
| rs_dispatch s s' block : (lossless = true -> block = true) -> rdispatch block s = Some (Ret s') -> rstep lossless s s'.

Definition rsys0 (g : SessionState) : rsys := mkRS [] (recfg_ctx0 g) kRcIdle 0 0.

(** The registers after [k] doublings. *)
Definition geometry (k : nat) (x : Z) : Z := u32 (x * 2 ^ Z.of_nat k).
Definition zoom_of (k : nat) : Z := match k with O => 128 | S _ => 256 end.
Definition board_of (k : nat) : HwBlackboard :=
  mkBoard (u32 (1 + Z.of_nat k)) (geometry k 640) (geometry k 512) (zoom_of k)
    (u32 (640 * 2 ^ Z.of_nat k * (512 * 2 ^ Z.of_nat k) * 2)).

(** [published] commits are visible, the object's own registers have [doubled]
    doublings and the mirror shows [st]. *)
Definition shows (c : RecfgCtx) (published doubled : nat) (st : RecfgStage) : Prop :=
  g_bb c = board_of published /\ recfgs_committed c = u32 (Z.of_nat published) /\ rc_stage c = st /\
  rc_width c = geometry doubled 640 /\ rc_height c = geometry doubled 512 /\ rc_zoom_step c = zoom_of doubled.

(** Where the object is with its [n]-th transaction.  In Quiescing the mirror says
    Idle when the request was refused. *)
Definition phase (st : Z) (n : nat) (c : RecfgCtx) : Prop :=
  (st = kRcIdle /\ shows c n n kIdle) \/
  exists k, n = S k /\
    ((st = kRcQuiesce /\ (shows c k k kQuiescing \/ shows c k k kIdle)) \/
     (st = kRcApply /\ shows c k (S k) kApplying) \/
     (st = kRcSync /\ shows c k (S k) kSyncing) \/
     (st = kRcCommit /\ shows c (S k) (S k) kCommit)).

Record recfg_inv (s : rsys) : Prop := {
  ri_sigs : Forall (fun e => me_sig e = kRecfgReq \/ me_sig e = kRecfgStage) (r_queue s);
  ri_stages : countb is_stage (r_queue s) = tick (negb (r_at s =? kRcIdle));
  ri_refused : recfgs_rejected (r_ctx s) = u32 (Z.of_nat (r_refused s));
  ri_phase : phase (r_at s) (r_taken s) (r_ctx s)
}.

Lemma geometry_S k x : geometry (S k) x = u32 (geometry k x * 2).
Proof.
  unfold geometry, wrap. rewrite Zmult_mod_idemp_l, Nat2Z.inj_succ, Z.pow_succ_r by lia. f_equal. lia.
Qed.

Lemma board_S k g : g = board_of k ->
  mkBoard (u32 (layout_version g + 1)) (geometry (S k) 640) (geometry (S k) 512) (zoom_of (S k))
    (u32 (u32 (geometry (S k) 640 * geometry (S k) 512) * 2)) = board_of (S k).
Proof.
  intros ->. unfold board_of, geometry, wrap. cbn [layout_version zoom_of]. f_equal.
  - rewrite Zplus_mod_idemp_l. f_equal. lia.
  - rewrite <- Zmult_mod. by rewrite Zmult_mod_idemp_l.
Qed.

Lemma u32_S n : u32 (u32 (Z.of_nat n) + 1) = u32 (Z.of_nat (S n)).
Proof. rewrite wrap_add_wrap_l by lia. f_equal. lia. Qed.

(** ** One event *)

Definition rafter (s : rsys) (q : list mevent) (c : RecfgCtx) (st : Z) (n k : nat) : option (outcome rsys) :=
  Some (Ret (mkRS (q ++ rc_out c) c st (r_taken s + n) (r_refused s + k))).

Lemma rdispatch_request b q m c st n k : st <> kRcIdle -> kRcIdle <= st <= kRcCommit -> me_sig m = kRecfgReq ->
  rdispatch b (mkRS (m :: q) c st n k) = rafter (mkRS (m :: q) c st n k) q (armed c b) st 0 0.
Proof.
  unfold kRcIdle, kRcCommit. intros Hn Hr Hm. destruct m as [sig me]. simpl in Hm. subst sig.
  assert (st = 2 \/ st = 3 \/ st = 4 \/ st = 5) as [-> | [-> | [-> | ->]]] by lia; reflexivity.
Qed.
Lemma rdispatch_idle b q m c n k : me_sig m = kRecfgReq ->
  rdispatch b (mkRS (m :: q) c kRcIdle n k) =
  rafter (mkRS (m :: q) c kRcIdle n k) q (rc_enter_precheck (armed c b) m) kRcQuiesce 1 (tick (unsupported m)).
Proof. destruct m as [sig me]. simpl. intros ->. reflexivity. Qed.

Definition stage_action (st : Z) : RecfgCtx -> mevent -> RecfgCtx :=
  if st =? kRcQuiesce then rc_enter_apply else if st =? kRcApply then rc_enter_sync
  else if st =? kRcSync then rc_enter_commit else rc_go_home.
Definition next_stage (st : Z) : Z := if st =? kRcCommit then kRcIdle else st + 1.

Lemma rdispatch_stage b q m c st n k : st <> kRcIdle -> kRcIdle <= st <= kRcCommit -> me_sig m = kRecfgStage ->
  rdispatch b (mkRS (m :: q) c st n k) = rafter (mkRS (m :: q) c st n k) q (stage_action st (armed c b) m) (next_stage st) 0 0.
Proof.
  unfold kRcIdle, kRcCommit. intros Hn Hr Hm. destruct m as [sig me]. simpl in Hm. subst sig.
  assert (st = 2 \/ st = 3 \/ st = 4 \/ st = 5) as [-> | [-> | [-> | ->]]] by lia; reflexivity.
Qed.

(** ** What every step keeps *)

Definition stage_msg : mevent := cmd_event kRecfgStage 0 kRecfgId.

Lemma phase_range st n c : phase st n c -> kRcIdle <= st <= kRcCommit.
Proof. unfold phase, kRcIdle, kRcQuiesce, kRcApply, kRcSync, kRcCommit. intros [[-> _]|(k & _ & [[-> _]|[[-> _]|[[-> _]|[-> _]]]])]; lia. Qed.

Lemma phase_idle n c : phase kRcIdle n c -> shows c n n kIdle.
Proof. intros [[_ H]|(k & _ & [[[=] _]|[[[=] _]|[[[=] _]|[[=] _]]]])]. done. Qed.

Lemma precheck_phase c n e : phase kRcIdle n c ->
  let c' := rc_enter_precheck (armed c true) e in
  phase kRcQuiesce (S n) c' /\ rc_out c' = [stage_msg] /\
  recfgs_rejected c' = (if unsupported e then u32 (recfgs_rejected c + 1) else recfgs_rejected c).
Proof.
  intros (Hb & Hc & _ & Hw & Hh & Hz)%phase_idle. unfold rc_enter_precheck, unsupported.
  destruct (negb _); (split; [|unfold rc_go_home; cbn [rc_session count_rejected armed]; by destruct (rc_session c)]); right; exists n; (split; [done|left]); (split; [done|]).
  - right. unfold rc_go_home, shows. cbn -[board_of geometry zoom_of]. by destruct (rc_session c).
  - left. done.
Qed.

Lemma stage_phase c st n e : st <> kRcIdle -> phase st n c ->
  let c' := stage_action st (armed c true) e in
  phase (next_stage st) n c' /\ rc_out c' = (if next_stage st =? kRcIdle then [] else [stage_msg]) /\
  recfgs_rejected c' = recfgs_rejected c.
Proof.
  intros Hn [[-> _]|(k & -> & Hp)]; [done|].
  destruct Hp as [[-> Hs]|[[-> Hs]|[[-> Hs]|[-> Hs]]]].
  - assert (g_bb c = board_of k /\ recfgs_committed c = u32 (Z.of_nat k) /\ rc_width c = geometry k 640 /\ rc_height c = geometry k 512)
      as (Hb & Hc & Hw & Hh) by (unfold shows in Hs; tauto).
    split; [|done]. right. exists k. split; [done|]. right. left. split; [done|].
    unfold shows. cbn -[board_of geometry zoom_of]. by rewrite Hw, Hh, !geometry_S.
  - destruct Hs as (? & ? & ? & ? & ? & ?). split; [|done]. right. exists k. split; [done|]. do 2 right. left. done.
  - destruct Hs as (Hb & Hc & ? & Hw & Hh & Hz). split; [|done]. right. exists k. split; [done|]. do 3 right. split; [done|].
    unfold shows. cbn -[board_of geometry zoom_of]. rewrite Hw, Hh, Hz, Hc, u32_S. split_and!; try done. by apply board_S.
  - destruct Hs as (? & ? & ? & ? & ? & ?). split; [|cbn; unfold rc_go_home; by destruct (rc_session c)]. left. split; [done|].
    unfold shows. cbn -[board_of geometry zoom_of]. unfold rc_go_home. cbn [rc_session]. by destruct (rc_session c).
Qed.

Lemma rdispatch_inv s s' : recfg_inv s -> rdispatch true s = Some (Ret s') -> recfg_inv s'.
Proof.
  destruct s as [[|e q] c st n k]; intros [Hsig Hst Href Hp] Hd; [done|]. cbn [r_queue r_ctx r_at r_taken r_refused] in *.
  pose proof (phase_range _ _ _ Hp) as Hr. apply Forall_cons in Hsig as [He Hsig]. simpl in Hst.
  destruct (decide (st = kRcIdle)) as [->|Hn].
  - destruct He as [He|He]; [|by unfold is_stage in Hst; rewrite He in Hst].
    rewrite rdispatch_idle in Hd by done. injection Hd as <-. destruct (precheck_phase c n e Hp) as (Hp' & Ho & Hre).
    unfold is_stage in Hst at 1. rewrite He in Hst. cbn in Hst.
    constructor; cbn [r_queue r_ctx r_at r_taken r_refused]; rewrite ?Ho.
    + apply Forall_app. split; [done|]. apply Forall_singleton. by right.
    + rewrite countb_app, Hst. done.
    + rewrite Hre, Href. destruct (unsupported e); [rewrite u32_S|]; do 2 f_equal; cbn; lia.
    + by rewrite Nat.add_1_r.
  - assert (Ht : tick (negb (st =? kRcIdle)) = 1%nat) by (by rewrite (proj2 (Z.eqb_neq _ _) Hn)). rewrite Ht in Hst.
    destruct He as [He|He]; unfold is_stage in Hst at 1; rewrite He in Hst; cbn in Hst.
    + rewrite rdispatch_request in Hd by done. injection Hd as <-.
      constructor; cbn [r_queue r_ctx r_at r_taken r_refused]; rewrite ?Nat.add_0_r, ?app_nil_r; [done| |done..]. by rewrite Ht, Hst.
    + rewrite rdispatch_stage in Hd by done. injection Hd as <-. destruct (stage_phase c st n e Hn Hp) as (Hp' & Ho & Hre).
      constructor; cbn [r_queue r_ctx r_at r_taken r_refused]; rewrite ?Nat.add_0_r, ?Ho, ?Hre; [|clear Ho| done..].
      * apply Forall_app. split; [done|]. destruct (next_stage st =? kRcIdle); [constructor|]. apply Forall_singleton. by right.
      * rewrite countb_app. injection Hst as Hst. rewrite Hst. by destruct (next_stage st =? kRcIdle).
Qed.

Lemma rstep_inv s s' : recfg_inv s -> rstep true s s' -> recfg_inv s'.
Proof.
  intros Hi Hs. destruct Hs as [q c st n k m|q c st n k g|s s' b Hb Hd].
  - destruct Hi as [Hsig Hst ? ?]. constructor; cbn [r_queue r_ctx r_at r_taken r_refused] in *; [| |done..].
    + apply Forall_app. split; [done|]. apply Forall_singleton. by left.
    + rewrite countb_app. cbn. lia.
  - destruct Hi as [? ? ? Hp]. by constructor.
  - rewrite Hb in Hd by done. by eapply rdispatch_inv.
Qed.

Lemma rsys0_inv g : recfg_inv (rsys0 g).
Proof. constructor; [constructor|done|done|]. left. done. Qed.

(** ** Every queue runs dry *)

Definition work_left (s : rsys) : nat := (6 * countb is_request (r_queue s) + (if (r_at s =? kRcIdle)%Z then 0 else Z.to_nat (6 - r_at s)%Z))%nat.

Lemma rdispatch_progress s : recfg_inv s -> r_queue s <> [] ->
  exists s', rdispatch true s = Some (Ret s') /\ (work_left s' < work_left s)%nat.
Proof.
  destruct s as [[|e q] c st n k]; intros [Hsig Hst Href Hp] Hq; [done|]. cbn [r_queue r_ctx r_at r_taken r_refused] in *.
  pose proof (phase_range _ _ _ Hp) as Hr. apply Forall_cons in Hsig as [He Hsig]. simpl in Hst.
  unfold work_left. cbn [r_queue r_at countb]. destruct (decide (st = kRcIdle)) as [->|Hn].
  - destruct He as [He|He]; [|by unfold is_stage in Hst; rewrite He in Hst].
    rewrite rdispatch_idle by done. eexists. split; [reflexivity|]. destruct (precheck_phase c n e Hp) as (_ & Ho & _).
    cbn [r_queue r_at]. rewrite Ho, countb_app. unfold is_request at 3. rewrite He. cbn. unfold kRcQuiesce. lia.
  - rewrite (proj2 (Z.eqb_neq _ _) Hn). unfold kRcCommit in Hr. destruct He as [He|He].
    + rewrite rdispatch_request by done. eexists. split; [reflexivity|]. cbn [r_queue r_at rc_out armed].
      rewrite app_nil_r, (proj2 (Z.eqb_neq _ _) Hn). unfold is_request at 2. rewrite He. cbn. lia.
    + rewrite rdispatch_stage by done. eexists. split; [reflexivity|]. destruct (stage_phase c st n e Hn Hp) as (_ & Ho & _).
      cbn [r_queue r_at]. rewrite Ho, countb_app. unfold is_request at 3. rewrite He. unfold next_stage, kRcCommit.
      destruct (Z.eqb_spec st 5) as [->|H5]; [cbn; lia|].
      rewrite (proj2 (Z.eqb_neq (st + 1) kRcIdle)) by (unfold kRcIdle in *; lia). cbn. unfold kRcIdle in *. lia.
Qed.

Lemma recfg_runs_dry s : recfg_inv s -> exists m s', (m <= work_left s)%nat /\
  nsteps (fun a b => rdispatch true a = Some (Ret b)) m s s' /\ r_queue s' = [] /\ recfg_inv s'.
Proof.
  intros Hi. destruct (comes_to_rest (fun a b => rdispatch true a = Some (Ret b)) recfg_inv work_left (fun x => r_queue x = []) ) with s
    as (m & s' & ? & ? & ? & ?); [|done|by exists m, s'].
  intros x Hx. destruct (r_queue x) as [|e q] eqn:Hq; [by left|right].
  destruct (rdispatch_progress x Hx) as (x' & Hd & Hlt); [by rewrite Hq|]. exists x'. split_and!; [done|by eapply rdispatch_inv|done].
Qed.

(** Every request that the idle object takes ends in one commit, refused or
    not.  While no stage event is lost, whatever requests and session changes
    arrive, the object is in one of its five phases: the register block always is
    that of a whole number of commits (never a partial one), its own registers run
    ahead of it only in Applying and Syncing, its stage mirror shows its state (or
    Idle, in Quiescing after a refusal), and the refusals are counted.  The queue
    always runs dry in a bounded number of dispatches, with the object in Idle and
    as many commits as requests taken: the requests that [rc_enter_precheck]
    refuses double the geometry as the accepted ones do. *)
Theorem recfg_commits_every_request g s :
  rtc (rstep true) (rsys0 g) s ->
  phase (r_at s) (r_taken s) (r_ctx s) /\ recfgs_rejected (r_ctx s) = u32 (Z.of_nat (r_refused s)) /\
  exists m s', (m <= work_left s)%nat /\ nsteps (fun a b => rdispatch true a = Some (Ret b)) m s s' /\
    r_queue s' = [] /\ r_at s' = kRcIdle /\ shows (r_ctx s') (r_taken s') (r_taken s') kIdle.
Proof.
  intros Hrun. assert (Hi : recfg_inv s) by (eapply rtc_invariant; [exact rstep_inv|apply rsys0_inv|exact Hrun]).
  split_and!; [apply Hi..|]. destruct (recfg_runs_dry s Hi) as (m & s' & Hm & Hn & Hq & [_ Hst _ Hp]).
  exists m, s'. rewrite Hq in Hst. cbn in Hst. assert (Hat : r_at s' = kRcIdle) by (destruct (Z.eqb_spec (r_at s') kRcIdle); done).
  split_and!; [done..|]. apply phase_idle. by rewrite <- Hat.
Qed.

(** One refused request: the machine ends with a committed 1280x1024. *)
Definition refused_end : rsys :=
  mkRS [] (mkRecfg kIdle 1280 1024 256 1 1 kRunning (mkBoard 2 1280 1024 256 2621440) true []) kRcIdle 1 1.

Example recfg_commits_every_request_witness :
  (exists m s', (m <= work_left refused_end)%nat /\ nsteps (fun a b => rdispatch true a = Some (Ret b)) m refused_end s' /\
    r_queue s' = [] /\ r_at s' = kRcIdle /\ shows (r_ctx s') (r_taken s') (r_taken s') kIdle) /\
  shows (r_ctx refused_end) 1 1 kIdle.
Proof.
  split; [|vm_compute; done].
  apply (recfg_commits_every_request kRecfgTxn refused_end).
  eapply rtc_l; [apply (rs_request true [] (recfg_ctx0 kRecfgTxn) kRcIdle 0 0 3)|].
  do 4 (eapply rtc_l; [eapply (rs_dispatch true _ _ true); [done|vm_compute; reflexivity]|]).
  eapply rtc_once, (rs_dispatch true _ _ true); [done|vm_compute; reflexivity].
Defined.

(** A refused request closes the window first and writes afterwards: its stages
    run with the session already back in RUNNING. *)
Lemma refused_request_commits n k magx : magx <> 2 ->
  let s0 := mkRS [cmd_event kRecfgReq magx kOrchId] (recfg_ctx0 kRecfgTxn) kRcIdle n k in
  (exists s1, rdispatch true s0 = Some (Ret s1) /\ r_at s1 = kRcQuiesce /\ rc_stage (r_ctx s1) = kIdle /\
     rc_session (r_ctx s1) = kRunning /\ g_bb (r_ctx s1) = board0) /\
  exists s', nsteps (fun a b => rdispatch true a = Some (Ret b)) 5 s0 s' /\ r_queue s' = [] /\ r_at s' = kRcIdle /\
    recfgs_rejected (r_ctx s') = 1 /\ recfgs_committed (r_ctx s') = 1 /\ g_bb (r_ctx s') = mkBoard 2 1280 1024 256 2621440.
Proof.
  intros Hm%not_eq_sym%Z.eqb_neq s0.
  assert (Hd : exists s1, rdispatch true s0 = Some (Ret s1) /\
    s1 = mkRS [stage_msg] (mkRecfg kIdle 640 512 128 0 1 kRunning board0 true [stage_msg]) kRcQuiesce (n + 1) (k + 1)).
  { eexists. split; [|reflexivity]. unfold s0. rewrite rdispatch_idle by done. unfold rafter, rc_enter_precheck, unsupported.
    cbn [cmd_event me_meta m_cmd_arg r_taken r_refused]. by rewrite Hm. }
  destruct Hd as (s1 & Hd & ->). split; [eexists; split_and!; [exact Hd|done..]|].
  eexists. split; [eapply nsteps_l; [exact Hd|]; do 4 (eapply nsteps_l; [vm_compute; reflexivity|]); apply nsteps_O|].
  by split_and!.
Qed.

(** A stage event that finds no block leaves the object where it is for ever:
    every later request is discarded. *)
Lemma lost_stage_wedges s s' :
  kRcQuiesce <= r_at s <= kRcCommit -> Forall (fun e => me_sig e = kRecfgReq) (r_queue s) -> rtc (rstep false) s s' ->
  r_at s' = r_at s /\ r_taken s' = r_taken s /\ g_bb (r_ctx s') = g_bb (r_ctx s) /\ rc_stage (r_ctx s') = rc_stage (r_ctx s).
Proof.
  unfold kRcQuiesce, kRcCommit. intros Hat Hq Hrun.
  assert (H : r_at s' = r_at s /\ r_taken s' = r_taken s /\ g_bb (r_ctx s') = g_bb (r_ctx s) /\ rc_stage (r_ctx s') = rc_stage (r_ctx s) /\
    Forall (fun e => me_sig e = kRecfgReq) (r_queue s')); [|tauto].
  apply (rtc_invariant (rstep false) (fun x => r_at x = r_at s /\ r_taken x = r_taken s /\ g_bb (r_ctx x) = g_bb (r_ctx s) /\
    rc_stage (r_ctx x) = rc_stage (r_ctx s) /\ Forall (fun e => me_sig e = kRecfgReq) (r_queue x)) s s'); [|done|done].
  intros x y (Ha & Hn & Hb & Hs & Hf) Hst. destruct Hst as [q c st n k m|q c st n k g|[[|e q] c st n k] y b _ Hd]; cbn [r_at r_taken r_ctx r_queue] in *.
  - split_and!; try done. apply Forall_app. split; [done|]. by apply Forall_singleton.
  - done.
  - done.
  - apply Forall_cons in Hf as [He Hf]. rewrite rdispatch_request in Hd; [|unfold kRcIdle, kRcCommit; lia..|done].
    injection Hd as <-. cbn [r_at r_taken r_ctx r_queue armed rc_out g_bb rc_stage]. by rewrite app_nil_r, Nat.add_0_r.
Qed.
