(* ===== verification/MshPath.v ===== *)
(** * The command and frame paths of the monitoring console's session
      (src/examples/msh_monitor_demo.cpp)

    The interleavings of the command channel, of the sensor driver with its
    channel and the orchestrator, and of the frame chain, with what they keep. *)

From S2P Require Import Prelude Hsm Msh.
Local Open Scope Z_scope.

(** ** The ring of the channel *)

(** The queued commands, oldest first. *)
Definition queued (w : CmdWorker) : list Z :=
  map (fun i => slots w !!! Z.to_nat ((tail w + Z.of_nat i) mod kDepth)) (seq 0 (Z.to_nat (count w))).

Definition ring_ok (w : CmdWorker) : Prop :=
  length (slots w) = 4%nat /\ 0 <= tail w < kDepth /\ 0 <= count w <= kDepth /\ head w = (tail w + count w) mod kDepth.

Ltac ring_cases w H :=
  let Hl := fresh in let Ht := fresh in let Hc := fresh in let Hh := fresh in
  destruct H as (Hl & Ht & Hc & Hh); destruct w as [sl hd tl ct rn st pc sp]; unfold kDepth in *;
  cbn [slots head tail count running stats wk_at stop_at] in *;
  destruct sl as [|x0 [|x1 [|x2 [|x3 [|]]]]]; try done; subst hd;
  assert (tl = 0 \/ tl = 1 \/ tl = 2 \/ tl = 3) as [-> | [-> | [-> | ->]]] by lia.

Lemma submit_ring w a : ring_ok w ->
  let r := submit_section w a in
  ring_ok r.2 /\ r.1 = (count w <? kDepth) /\ queued r.2 = queued w ++ (if r.1 then [a] else []) /\
  running r.2 = running w /\ wk_at r.2 = wk_at w /\ stop_at r.2 = stop_at w /\ stats r.2 = stats w.
Proof.
  intros H. unfold submit_section. destruct (Z.ltb_spec (count w) kDepth) as [Hlt|Hge]; [|by rewrite app_nil_r].
  ring_cases w H; assert (ct = 0 \/ ct = 1 \/ ct = 2 \/ ct = 3) as [-> | [-> | [-> | ->]]] by lia;
    (split; [split_and!; first [reflexivity | by vm_compute]|by split_and!]).
Qed.

Lemma take_ring w : ring_ok w -> wk_at w = KWait -> count w <> 0 -> forall b,
  exists j w', cmd_run w b = Some (w', []) /\ ring_ok w' /\ queued w = j :: queued w' /\ wk_at w' = KBusy j /\
    running w' = running w /\ stop_at w' = stop_at w /\ stats w' = stats w.
Proof.
  intros H Hpc Hn b. unfold cmd_run. rewrite Hpc, (proj2 (Z.eqb_neq _ _) Hn). cbn [negb]. eexists _, _. split; [reflexivity|].
  clear Hpc. ring_cases w H; assert (ct = 1 \/ ct = 2 \/ ct = 3 \/ ct = 4) as [-> | [-> | [-> | ->]]] by lia;
    (split; [split_and!; first [reflexivity | by vm_compute]|by split_and!]).
Qed.

Lemma queued_length w : ring_ok w -> length (queued w) = Z.to_nat (count w).
Proof. intros _. unfold queued. by rewrite length_map, length_seq. Qed.

(** ** The channel *)

(** A channel under submits from the dispatcher, its own thread and [stop].
    [c_pending]: a submit between its critical section and its account.  The
    lists are of the model: the commands accepted and those whose bus latency is
    over, with whether the completion event went out. *)
Record csys := mkCS {
  c_wk : CmdWorker; c_pending : option bool; c_accepted : list Z; c_finished : list (Z * bool); c_submits : nat; c_refused : nat
}.
Definition csys0 : csys := mkCS cmd0 None [] [] 0 0.

Definition log_finished (w : CmdWorker) (block : bool) : list (Z * bool) :=
  match wk_at w with KBusy j => [(j, block)] | _ => [] end.

(** The steps that need no new command. *)
Inductive cint : csys -> csys -> Prop :=
| ci_account w ok a f n k :
    cint (mkCS w (Some ok) a f n k) (mkCS (submit_account w ok) None a f (S n) (k + tick (negb ok)))
| ci_worker w p a f n k block w' es :
    cmd_run w block = Some (w', es) -> cint (mkCS w p a f n k) (mkCS w' p a (f ++ log_finished w block) n k)
| ci_stopping w p a f n k w' : stop_step w = Some w' -> cint (mkCS w p a f n k) (mkCS w' p a f n k).

Inductive cstep : csys -> csys -> Prop :=
| cs_submit w a f n k j :
    let r := submit_section w j in
    cstep (mkCS w None a f n k) (mkCS r.2 (Some r.1) (a ++ if r.1 then [j] else []) f n k)
| cs_internal s s' : cint s s' -> cstep s s'.

Definition in_service (w : CmdWorker) : list Z := match wk_at w with KBusy j => [j] | _ => [] end.

Record channel_inv (s : csys) : Prop := {
  ci_ring : ring_ok (c_wk s);
  ci_order : c_accepted s = map fst (c_finished s) ++ in_service (c_wk s) ++ queued (c_wk s);
  ci_submitted : ws_submitted (stats (c_wk s)) = u32 (Z.of_nat (c_submits s));
  ci_rejected : ws_rejected (stats (c_wk s)) = u32 (Z.of_nat (c_refused s));
  ci_executed : ws_executed (stats (c_wk s)) = u32 (Z.of_nat (c_submits s - c_refused s));
  ci_refused : (c_refused s <= c_submits s)%nat;
  ci_accepted : length (c_accepted s) = (c_submits s - c_refused s + match c_pending s with Some true => 1 | _ => 0 end)%nat;
  ci_stop : running (c_wk s) = match stop_at (c_wk s) with SRun => true | _ => false end;
  ci_end : wk_at (c_wk s) = KEnd -> running (c_wk s) = false /\ stop_at (c_wk s) <> SWaiting;
  ci_joined : stop_at (c_wk s) = SJoined -> wk_at (c_wk s) = KEnd
}.

Lemma cmd_run_other w b : wk_at w <> KWait -> ring_ok w -> forall w' es, cmd_run w b = Some (w', es) ->
  ring_ok w' /\ queued w' = queued w /\ in_service w' = [] /\ map fst (log_finished w b) = in_service w /\
  running w' = running w /\ stop_at w' = stop_at w /\ count w' = count w /\ wk_at w' <> KEnd /\
  ws_submitted (stats w') = ws_submitted (stats w) /\ ws_rejected (stats w') = ws_rejected (stats w) /\
  ws_executed (stats w') = ws_executed (stats w).
Proof.
  intros Hpc Hr w' es. unfold cmd_run, log_finished, in_service. destruct w as [sl hd tl ct rn st pc sp]. cbn [wk_at] in *.
  destruct pc; [done|..]; intros [= <- <-]; cbn [wk_at set_at running stop_at count stats complete_store ws_submitted ws_rejected ws_executed];
    by split_and!.
Qed.

Lemma worker_inv w p a f n k b w' es : channel_inv (mkCS w p a f n k) -> cmd_run w b = Some (w', es) ->
  channel_inv (mkCS w' p a (f ++ log_finished w b) n k).
Proof.
  intros [Hr Ho Hs Hj He Hle Ha Hst Hend Hjn] Hd. cbn [c_wk c_pending c_accepted c_finished c_submits c_refused] in *.
  destruct (decide (wk_at w = KWait)) as [Hpc|Hpc]; [|].
  2:{ destruct (cmd_run_other w b Hpc Hr w' es Hd) as (Hr' & Hq & Hi & Hf & Hru & Hsp & _ & Hk & H1 & H2 & H3).
      constructor; cbn [c_wk c_pending c_accepted c_finished c_submits c_refused]; rewrite ?Hq, ?Hi, ?Hru, ?Hsp, ?H1, ?H2, ?H3; try done.
      - by rewrite Ho, map_app, Hf, <- app_assoc.
      - intros Hx. unfold cmd_run in Hd. by rewrite (Hjn Hx) in Hd. }
  assert (Hlog : log_finished w b = []) by (unfold log_finished; by rewrite Hpc). rewrite Hlog, app_nil_r.
  unfold in_service in Ho. rewrite Hpc in Ho. cbn [app] in Ho. destruct (decide (count w = 0)) as [Hc|Hc].
  - unfold cmd_run in Hd. rewrite Hpc, Hc in Hd. cbn [Z.eqb negb] in Hd. destruct (running w) eqn:Hru; [done|]. injection Hd as <- <-.
    rewrite <- Hc in *. constructor; cbn [c_wk c_pending c_accepted c_finished c_submits c_refused stats running stop_at wk_at]; try done.
    + destruct (stop_at w); try done.
    + intros _. split; [done|]. destruct (stop_at w); done.
  - destruct (take_ring w Hr Hpc Hc b) as (j & w1 & Hd' & Hr' & Hq & Hpc' & Hru & Hsp & Hss). rewrite Hd' in Hd. injection Hd as <- <-.
    constructor; cbn [c_wk c_pending c_accepted c_finished c_submits c_refused]; rewrite ?Hru, ?Hsp, ?Hss; try done.
    + unfold in_service. rewrite Hpc', Ho, Hq. done.
    + by rewrite Hpc'.
    + intros Hx. specialize (Hjn Hx). congruence.
Qed.

Lemma cstep_inv s s' : channel_inv s -> cstep s s' -> channel_inv s'.
Proof.
  intros Hi Hst. destruct Hst as [w a f n k j r|s s' Hst]; [subst r|].
  - destruct Hi as [Hr Ho Hs Hj He Hle Ha Hst Hend Hjn]. cbn [c_wk c_pending c_accepted c_finished c_submits c_refused] in *.
    destruct (submit_ring w j Hr) as (Hr' & Hb & Hq & Hru & Hpc & Hsp & Hss).
    constructor; cbn [c_wk c_pending c_accepted c_finished c_submits c_refused]; unfold in_service; rewrite ?Hru, ?Hpc, ?Hsp, ?Hss, ?Hq; try done.
    + rewrite Ho. unfold in_service. by rewrite <- !app_assoc.
    + rewrite length_app, Ha, Nat.add_0_r. destruct (submit_section w j).1; cbn; lia.
  - destruct Hst as [w ok a f n k|w p a f n k b w' es Hd|w p a f n k w' Hd]; [|by eapply worker_inv|].
    + destruct Hi as [Hr Ho Hs Hj He Hle Ha Hst Hend Hjn]. cbn [c_wk c_pending c_accepted c_finished c_submits c_refused] in *.
      constructor; cbn [c_wk c_pending c_accepted c_finished c_submits c_refused submit_account stats running stop_at wk_at]; try done.
      all: destruct ok; cbn [negb tick record_accept record_reject ws_submitted ws_rejected ws_executed]; rewrite ?Nat.add_0_r, ?Hs, ?Hj, ?He, ?u32_S; try done.
      all: rewrite ?u32_S; try (do 2 f_equal; lia); try lia.
    + destruct Hi as [Hr Ho Hs Hj He Hle Ha Hst Hend Hjn]. cbn [c_wk c_pending c_accepted c_finished c_submits c_refused] in *.
      unfold stop_step in Hd. destruct w as [sl hd tl ct rn st pc sp]. cbn [stats running stop_at wk_at] in *.
      destruct sp, pc; try done; injection Hd as <-;
        constructor; cbn [c_wk c_pending c_accepted c_finished c_submits c_refused stats running stop_at wk_at]; try done; try (by split);
        by destruct (Hend eq_refl) as [-> ?].
Qed.

Lemma channel_reaches s : rtc cstep csys0 s -> channel_inv s.
Proof.
  intros Hrun. eapply rtc_invariant; [exact cstep_inv| |exact Hrun].
  constructor; done.
Qed.

(** The channel serves in order what it accepts and refuses nothing else: the
    ring holds at most four commands, a submit is refused exactly when it holds
    four, and the counters count the submits by their answer, so [executed] counts
    the commands accepted, not those executed. *)
Theorem channel_serves_in_order s : rtc cstep csys0 s ->
  c_accepted s = map fst (c_finished s) ++ in_service (c_wk s) ++ queued (c_wk s) /\
  (length (queued (c_wk s)) <= 4)%nat /\
  (forall a, (submit_section (c_wk s) a).1 = false <-> length (queued (c_wk s)) = 4%nat) /\
  ws_submitted (stats (c_wk s)) = u32 (Z.of_nat (c_submits s)) /\ ws_rejected (stats (c_wk s)) = u32 (Z.of_nat (c_refused s)) /\
  (c_pending s = None -> ws_executed (stats (c_wk s)) = u32 (Z.of_nat (length (c_accepted s)))).
Proof.
  intros [Hr Ho Hs Hj He Hle Ha _ _ _]%channel_reaches. pose proof (queued_length _ Hr) as Hq.
  assert (Hc : 0 <= count (c_wk s) <= 4) by apply Hr. split_and!; try done.
  - lia.
  - intros a. unfold submit_section, kDepth. destruct (Z.ltb_spec (count (c_wk s)) 4); cbn; split; try done; lia.
  - intros Hp. rewrite He, Ha, Hp. do 2 f_equal. lia.
Qed.

(** ** [stop] *)

Definition pc_left (pc : worker_pc) : nat := match pc with KEnd => 0 | KWait => 1 | KStore _ => 2 | KLoad => 3 | KBusy _ => 4 end.
Definition stop_left (pc : stop_pc) : nat := match pc with SJoined => 0 | SWoken => 1 | SWaiting => 2 | SRun => 3 end.
Definition steps_left (s : csys) : nat :=
  (4 * Z.to_nat (count (c_wk s)) + pc_left (wk_at (c_wk s)) + stop_left (stop_at (c_wk s)) + match c_pending s with Some _ => 1 | None => 0 end)%nat.

Lemma cint_decreases s s' : channel_inv s -> cint s s' -> (steps_left s' < steps_left s)%nat.
Proof.
  intros [Hr _ _ _ _ _ _ _ _ _] Hst. assert (Hc : 0 <= count (c_wk s) <= 4) by apply Hr. unfold steps_left.
  destruct Hst as [w ok a f n k|w p a f n k b w' es Hd|w p a f n k w' Hd]; cbn [c_wk c_pending] in *.
  - cbn [submit_account count wk_at stop_at]. lia.
  - destruct w as [sl hd tl ct rn st pc sp]. unfold cmd_run in Hd. cbn [wk_at count running stop_at] in *. destruct pc; try done.
    + destruct (Z.eqb_spec ct 0) as [->|Hn]; cbn [negb] in Hd.
      * destruct rn; [done|]. injection Hd as <- <-. cbn [wk_at count stop_at]. destruct sp; cbn; lia.
      * injection Hd as <- <-. cbn [wk_at count stop_at]. rewrite wrap_small by (unfold in_u; change (2 ^ 8) with 256; lia).
        cbn [pc_left]. lia.
    + injection Hd as <- <-. cbn. lia.
    + injection Hd as <- <-. cbn. lia.
    + injection Hd as <- <-. cbn. lia.
  - destruct w as [sl hd tl ct rn st pc sp]. unfold stop_step in Hd. cbn [wk_at stop_at count] in *.
    destruct sp, pc; try done; injection Hd as <-; cbn [wk_at stop_at count pc_left stop_left]; lia.
Qed.

Lemma cint_enabled s : channel_inv s -> stop_at (c_wk s) <> SRun ->
  (exists s', cint s s') \/ (stop_at (c_wk s) = SJoined /\ c_pending s = None).
Proof.
  intros [Hr _ _ _ _ _ _ Hst Hend Hjn] Hrun. destruct s as [w p a f n k]. cbn [c_wk c_pending] in *.
  destruct p as [ok|]; [left; eexists; constructor|].
  destruct (decide (wk_at w = KEnd)) as [He|He].
  - destruct (stop_at w) eqn:Hsp; [done|left|left|by right].
    + eexists. eapply ci_stopping. unfold stop_step. by rewrite Hsp.
    + eexists. eapply ci_stopping. unfold stop_step. by rewrite Hsp, He.
  - left. assert (Hru : running w = false) by (rewrite Hst; by destruct (stop_at w)).
    destruct (cmd_run w true) as [[w' es]|] eqn:Hd; [eexists; by eapply ci_worker|]. exfalso. unfold cmd_run in Hd.
    rewrite Hru in Hd. destruct (wk_at w); try done. by destruct (negb _).
Qed.

Lemma cint_keeps s s' : channel_inv s -> cint s s' -> c_accepted s' = c_accepted s /\
  (stop_at (c_wk s) <> SRun -> stop_at (c_wk s') <> SRun) /\
  ((wk_at (c_wk s) = KEnd -> count (c_wk s) = 0) -> wk_at (c_wk s') = KEnd -> count (c_wk s') = 0).
Proof.
  intros Hi Hst. destruct Hst as [w ok a f n k|w p a f n k b w' es Hd|w p a f n k w' Hd]; cbn [c_wk c_accepted] in *; [done|..].
  - destruct w as [sl hd tl ct rn st pc sp]. unfold cmd_run in Hd. cbn [wk_at count running stop_at] in *. destruct pc; try done.
    + destruct (Z.eqb_spec ct 0) as [->|Hn]; cbn [negb] in Hd; [destruct rn; [done|]|]; injection Hd as <- <-; cbn; split_and!; try done.
      by destruct sp.
    + by injection Hd as <- <-.
    + by injection Hd as <- <-.
    + by injection Hd as <- <-.
  - destruct w as [sl hd tl ct rn st pc sp]. unfold stop_step in Hd. cbn [wk_at stop_at count] in *.
    destruct sp, pc; try done; by injection Hd as <-.
Qed.

Lemma stop_runs_out s : channel_inv s -> stop_at (c_wk s) <> SRun -> (wk_at (c_wk s) = KEnd -> count (c_wk s) = 0) ->
  exists m s', (m <= steps_left s)%nat /\ nsteps cint m s s' /\ channel_inv s' /\ stop_at (c_wk s') = SJoined /\
    c_accepted s' = c_accepted s /\ count (c_wk s') = 0.
Proof.
  intros Hi Hrun Hz.
  destruct (comes_to_rest cint (fun x => channel_inv x /\ stop_at (c_wk x) <> SRun /\ (wk_at (c_wk x) = KEnd -> count (c_wk x) = 0) /\
    c_accepted x = c_accepted s) steps_left (fun x => stop_at (c_wk x) = SJoined)) with s as (m & s' & Hm & Hn & (Hi' & _ & Hz' & Ha) & Hj); [|done|].
  - intros x (Hx & Hr & Hzx & Hax). destruct (cint_enabled x Hx Hr) as [[x1 Hst]|[Hj _]]; [right|by left].
    destruct (cint_keeps _ _ Hx Hst) as (Ha1 & Hr1 & Hz1). exists x1. split_and!; [done|by eapply cstep_inv, cs_internal| | | |by apply cint_decreases]; [by apply Hr1|by apply Hz1|congruence].
  - exists m, s'. split_and!; [done..|]. by apply Hz', (ci_joined s' Hi').
Qed.

(** [stop] drains and returns: once it has begun, every step that needs no new
    command lowers [steps_left], one is always possible until [stop] has returned,
    and if the thread has not ended yet it finishes every command that was
    accepted, in order, before it does. *)
Theorem channel_stop_ends s : rtc cstep csys0 s -> stop_at (c_wk s) <> SRun ->
  (forall s', cint s s' -> (steps_left s' < steps_left s)%nat) /\
  ((exists s', cint s s') \/ (stop_at (c_wk s) = SJoined /\ c_pending s = None)) /\
  (wk_at (c_wk s) <> KEnd ->
   exists m s', (m <= steps_left s)%nat /\ nsteps cint m s s' /\ stop_at (c_wk s') = SJoined /\ map fst (c_finished s') = c_accepted s).
Proof.
  intros Hi%channel_reaches Hrun. split_and!; [intros s'; by apply cint_decreases|by apply cint_enabled|].
  intros He. destruct (stop_runs_out s Hi Hrun) as (m & s' & Hm & Hn & Hi' & Hj & Ha & Hc); [done|].
  exists m, s'. split_and!; [done..|]. rewrite <- Ha. destruct Hi' as [_ Ho _ _ _ _ _ _ _ Hjn].
  rewrite Ho. unfold in_service, queued. rewrite (Hjn Hj), Hc. cbn. by rewrite app_nil_r.
Qed.

(** A command submitted after the thread has ended is accepted, counted as
    executed and never executed. *)
Lemma late_submit_is_lost w f : wk_at w = KEnd -> count w < kDepth -> forall a b, (cmd_submit w a).1 = true /\ cmd_run (cmd_submit w a).2 b = None /\
  (f = ws_executed (stats w) -> ws_executed (stats (cmd_submit w a).2) = u32 (f + 1)).
Proof.
  intros He Hc a b. unfold cmd_submit, submit_section. rewrite (proj2 (Z.ltb_lt _ _) Hc). cbn [fst snd].
  split_and!; [done| |by intros ->]. unfold cmd_run. cbn [submit_account wk_at]. by rewrite He.
Qed.

(** ** [in_flight] is not the number of commands outstanding *)

Definition cs_run (acts : list (csys -> option csys)) (s : csys) : option csys := foldl (fun s act => s ≫= act) (Some s) acts.
Definition do_submit (j : Z) (s : csys) : option csys :=
  match c_pending s with
  | Some _ => None
  | None => let r := submit_section (c_wk s) j in
      Some (mkCS r.2 (Some r.1) (c_accepted s ++ if r.1 then [j] else []) (c_finished s) (c_submits s) (c_refused s))
  end.
Definition do_account (s : csys) : option csys :=
  match c_pending s with
  | Some ok => Some (mkCS (submit_account (c_wk s) ok) None (c_accepted s) (c_finished s) (S (c_submits s)) (c_refused s + tick (negb ok)))
  | None => None
  end.
Definition do_work (s : csys) : option csys :=
  '(w, _) ← cmd_run (c_wk s) true;
  Some (mkCS w (c_pending s) (c_accepted s) (c_finished s ++ log_finished (c_wk s) true) (c_submits s) (c_refused s)).

(** Two commands, one after the other: the first is done, the second waits in the
    ring, and [in_flight] shows none. *)
Lemma in_flight_forgets :
  exists s, cs_run [do_submit 7; do_account; do_work; do_submit 8; do_account; do_work; do_work; do_work] csys0 = Some s /\
    c_accepted s = [7; 8] /\ map fst (c_finished s) = [7] /\ queued (c_wk s) = [8] /\ ws_in_flight (stats (c_wk s)) = 0 /\
    ws_executed (stats (c_wk s)) = 2.
Proof. vm_compute. eexists. by split_and!. Qed.

(** ** The driver, its channel and the orchestrator *)

(** [a_accepted] and [a_acked] are of the model: the commands the channel took and
    those whose acknowledgement the orchestrator has counted; [a_refused] counts
    the commands refused, by the guard or by the channel. *)
Record asys := mkAS {
  a_queue : list mevent; a_ctx : IrscCtx; a_orch : list mevent; a_ready : Z; a_accepted : list Z; a_acked : list Z; a_refused : nat
}.

Definition iarmed (c : IrscCtx) : IrscCtx :=
  mkIrsc (i_session c) (cmd_channel c) (step_count c) (channel_subs c) (channel_rejects c) true [].
Definition with_channel (c : IrscCtx) (w : CmdWorker) : IrscCtx :=
  mkIrsc (i_session c) w (step_count c) (channel_subs c) (channel_rejects c) (i_block c) (i_out c).
Definition with_session (c : IrscCtx) (g : SessionState) : IrscCtx :=
  mkIrsc g (cmd_channel c) (step_count c) (channel_subs c) (channel_rejects c) (i_block c) (i_out c).

(** What becomes of an event: [Some true] a command the channel takes, [Some
    false] a command that is refused. *)
Definition verdict (c : IrscCtx) (e : mevent) : option bool :=
  if me_sig e =? kIrscCmd then Some (irsc_session_open c e && (count (cmd_channel c) <? kDepth)) else None.
Definition taken (v : option bool) (e : mevent) : list Z := match v with Some true => [m_cmd_arg (me_meta e)] | _ => [] end.

(** The steps of the objects and of the thread. *)
Inductive awork : asys -> asys -> Prop :=
| aw_driver e q c o r acc ack k c' h b :
    dispatch me_sig (irsc_machine 1) (iarmed c) e = Ret (b, c', h) ->
    awork (mkAS (e :: q) c o r acc ack k)
      (mkAS q c' (o ++ i_out c') r (acc ++ taken (verdict c e) e) ack (k + match verdict c e with Some false => 1 | _ => 0 end))
| aw_channel q c o r acc ack k w es :
    cmd_run (cmd_channel c) true = Some (w, es) -> awork (mkAS q c o r acc ack k) (mkAS (q ++ es) (with_channel c w) o r acc ack k)
| aw_orch q c e o r acc ack k b r' h :
    dispatch me_sig (orch_machine 1) r e = Ret (b, r', h) ->
    awork (mkAS q c (e :: o) r acc ack k) (mkAS q c o r' acc (ack ++ [m_cmd_arg (me_meta e)]) k).

Inductive astep : asys -> asys -> Prop :=
| as_command q c o r acc ack k a : astep (mkAS q c o r acc ack k) (mkAS (q ++ [cmd_event kIrscCmd a kOrchId]) c o r acc ack k)
| as_session q c o r acc ack k g : astep (mkAS q c o r acc ack k) (mkAS q (with_session c (session_advance (i_session c) g).1) o r acc ack k)
| as_work s s' : awork s s' -> astep s s'.

Definition asys0 : asys := mkAS [] (mkIrsc kBoot cmd0 0 0 0 true []) [] 0 [] [] 0.

Definition is_done (e : mevent) : bool := me_sig e =? kIrscDmaDone.
Definition args (q : list mevent) : list Z := map (fun e => m_cmd_arg (me_meta e)) q.

Lemma event_args_app p q : args (p ++ q) = args p ++ args q.
Proof. apply map_app. Qed.

Record path_inv (s : asys) : Prop := {
  pi_sigs : Forall (fun e => me_sig e = kIrscCmd \/ me_sig e = kIrscDmaDone) (a_queue s);
  pi_orch : Forall (fun e => me_sig e = kIrscReady) (a_orch s);
  pi_ring : ring_ok (cmd_channel (a_ctx s));
  pi_run : running (cmd_channel (a_ctx s)) = true /\ wk_at (cmd_channel (a_ctx s)) <> KEnd;
  pi_order : a_accepted s = a_acked s ++ args (a_orch s) ++ args (List.filter is_done (a_queue s)) ++
    in_service (cmd_channel (a_ctx s)) ++ queued (cmd_channel (a_ctx s));
  pi_steps : step_count (a_ctx s) = u32 (Z.of_nat (length (a_acked s ++ args (a_orch s))));
  pi_ready : a_ready s = u32 (Z.of_nat (length (a_acked s)));
  pi_subs : channel_subs (a_ctx s) = u32 (Z.of_nat (length (a_accepted s)));
  pi_rejects : channel_rejects (a_ctx s) = u32 (Z.of_nat (a_refused s))
}.

(** The driver's machine, event by event. *)
Lemma driver_command c e : me_sig e = kIrscCmd ->
  exists b, dispatch me_sig (irsc_machine 1) c e =
    Ret (b, if irsc_session_open c e then onIrscCmd c e else onIrscCmdRejected c e, irsc_machine 1).
Proof.
  destruct e as [sig m]. simpl. intros ->. exists true. unfold irsc_session_open.
  destruct c as [g ch sc su re bl out]. by destruct g.
Qed.
Lemma driver_done c e : me_sig e = kIrscDmaDone -> dispatch me_sig (irsc_machine 1) c e = Ret (true, onIrscDmaDone c e, irsc_machine 1).
Proof. destruct e as [sig m]. simpl. by intros ->. Qed.
Lemma orch_counts r e : me_sig e = kIrscReady -> dispatch me_sig (orch_machine 1) r e = Ret (true, u32 (r + 1), orch_machine 1).
Proof. destruct e as [sig m]. simpl. by intros ->. Qed.

(** A closed session keeps the command from the channel. *)
Lemma closed_session_refuses c e : me_sig e = kIrscCmd -> irsc_session_open c e = false ->
  dispatch me_sig (irsc_machine 1) c e = Ret (true, onIrscCmdRejected c e, irsc_machine 1) /\
  cmd_channel (onIrscCmdRejected c e) = cmd_channel c /\ i_out (onIrscCmdRejected c e) = i_out c.
Proof.
  destruct e as [sig m]. simpl. intros ->. unfold irsc_session_open. destruct c as [g ch sc su re bl out]. by destruct g.
Qed.

Lemma cmd_run_running w b w' es : running w = true -> cmd_run w b = Some (w', es) -> running w' = true /\ wk_at w' <> KEnd.
Proof. unfold cmd_run. intros Hr. rewrite Hr. destruct (wk_at w); intros H; repeat case_match; by simplify_eq/=. Qed.

Lemma onIrscCmd_spec c e : ring_ok (cmd_channel c) -> let c' := onIrscCmd c e in let ok := count (cmd_channel c) <? kDepth in
  ring_ok (cmd_channel c') /\ queued (cmd_channel c') = queued (cmd_channel c) ++ (if ok then [m_cmd_arg (me_meta e)] else []) /\
  running (cmd_channel c') = running (cmd_channel c) /\ wk_at (cmd_channel c') = wk_at (cmd_channel c) /\
  count (cmd_channel c') <= count (cmd_channel c) + 1 /\ i_out c' = i_out c /\ step_count c' = step_count c /\
  channel_subs c' = (if ok then u32 (channel_subs c + 1) else channel_subs c) /\
  channel_rejects c' = (if ok then channel_rejects c else u32 (channel_rejects c + 1)).
Proof.
  intros Hr. destruct (submit_ring _ (m_cmd_arg (me_meta e)) Hr) as (Hr' & Hb & Hq & Hru & Hpc & _ & _). cbv zeta.
  assert (Hch : cmd_channel (onIrscCmd c e) = submit_account (submit_section (cmd_channel c) (m_cmd_arg (me_meta e))).2
    (submit_section (cmd_channel c) (m_cmd_arg (me_meta e))).1).
  { unfold onIrscCmd, cmd_submit. cbn [fst snd]. by destruct (submit_section _ _).1. }
  assert (Hcn : count (submit_section (cmd_channel c) (m_cmd_arg (me_meta e))).2 <= count (cmd_channel c) + 1).
  { unfold submit_section. destruct (Z.ltb_spec (count (cmd_channel c)) kDepth); cbn [snd count]; [|lia].
    destruct Hr as (_ & _ & Hc & _). unfold kDepth in *. rewrite wrap_small by (unfold in_u; change (2 ^ 8) with 256; lia). lia. }
  rewrite Hch. rewrite <- Hb. cbn [submit_account wk_at running count]. rewrite Hpc, Hru.
  change (queued (submit_account ?w ?b)) with (queued w). rewrite Hq. unfold onIrscCmd, cmd_submit. cbn [fst snd].
  destruct (submit_section _ _).1; by split_and!.
Qed.

Lemma driver_step_inv e q c o r acc ack k c' h b :
  path_inv (mkAS (e :: q) c o r acc ack k) -> dispatch me_sig (irsc_machine 1) (iarmed c) e = Ret (b, c', h) ->
  path_inv (mkAS q c' (o ++ i_out c') r (acc ++ taken (verdict c e) e) ack (k + match verdict c e with Some false => 1 | _ => 0 end)).
Proof.
  intros [Hsig Ho Hr Hru Hord Hs Hre Hsu Hrj] Hd. cbn [a_queue a_ctx a_orch a_ready a_accepted a_acked a_refused] in *.
  apply Forall_cons in Hsig as [He Hsig]. destruct He as [He|He]; unfold verdict; rewrite He; cbn [Z.eqb kIrscCmd kIrscDmaDone Pos.eqb].
  - assert (Hnd : is_done e = false) by (unfold is_done; by rewrite He). cbn [List.filter] in Hord. rewrite Hnd in Hord.
    destruct (driver_command (iarmed c) e He) as [b' Hd']. rewrite Hd' in Hd. injection Hd as <- <- <-.
    change (irsc_session_open (iarmed c) e) with (irsc_session_open c e). destruct (irsc_session_open c e); cbn [andb].
    + destruct (onIrscCmd_spec (iarmed c) e Hr) as (Hr' & Hq & Hru' & Hsv & _ & Hout & Hst & Hsb & Hrr).
      change (cmd_channel (iarmed c)) with (cmd_channel c) in *. change (step_count (iarmed c)) with (step_count c) in *.
      change (channel_subs (iarmed c)) with (channel_subs c) in *. change (channel_rejects (iarmed c)) with (channel_rejects c) in *.
      constructor; cbn [a_queue a_ctx a_orch a_ready a_accepted a_acked a_refused]; rewrite ?Hout, ?app_nil_r, ?Hst, ?Hsv, ?Hq, ?Hru', ?Hsb, ?Hrr; try done.
      * rewrite Hord. unfold in_service. rewrite Hsv. destruct (count (cmd_channel c) <? kDepth); cbn; by rewrite <- ?app_assoc, ?app_nil_r.
      * destruct (count (cmd_channel c) <? kDepth); cbn; rewrite ?app_nil_r; [|done].
        by rewrite Hsu, u32_S, length_app, Nat.add_1_r.
      * destruct (count (cmd_channel c) <? kDepth); [by rewrite Nat.add_0_r|]. by rewrite Hrj, u32_S, Nat.add_1_r.
    + constructor; cbn [a_queue a_ctx a_orch a_ready a_accepted a_acked a_refused onIrscCmdRejected i_out iarmed cmd_channel step_count
        channel_subs channel_rejects taken]; rewrite ?app_nil_r; try done. by rewrite Hrj, u32_S, Nat.add_1_r.
  - assert (Hnd : is_done e = true) by (unfold is_done; by rewrite He). cbn [List.filter] in Hord. rewrite Hnd in Hord.
    rewrite driver_done in Hd by done. injection Hd as <- <- <-.
    constructor; cbn [a_queue a_ctx a_orch a_ready a_accepted a_acked a_refused onIrscDmaDone i_block i_out iarmed cmd_channel step_count
      channel_subs channel_rejects taken app]; rewrite ?app_nil_r, ?Nat.add_0_r; try done.
    + apply Forall_app. split; [done|]. by apply Forall_singleton.
    + by rewrite Hord, event_args_app, <- !app_assoc.
    + rewrite event_args_app, Hs, u32_S, !length_app. do 2 f_equal. cbn. lia.
Qed.

Lemma channel_step_inv q c o r acc ack k w es :
  path_inv (mkAS q c o r acc ack k) -> cmd_run (cmd_channel c) true = Some (w, es) ->
  path_inv (mkAS (q ++ es) (with_channel c w) o r acc ack k).
Proof.
  intros [Hsig Ho Hr Hru Hord Hs Hre Hsu Hrj] Hd. cbn [a_queue a_ctx a_orch a_ready a_accepted a_acked a_refused] in *.
  pose proof (cmd_run_running _ _ _ _ (proj1 Hru) Hd) as Hru'. destruct (decide (wk_at (cmd_channel c) = KWait)) as [Hpc|Hpc].
  - assert (Hc : count (cmd_channel c) <> 0).
    { intros Hc. unfold cmd_run in Hd. by rewrite Hpc, Hc, (proj1 Hru) in Hd. }
    destruct (take_ring _ Hr Hpc Hc true) as (j & w1 & Hd' & Hr' & Hq & Hpc' & _). rewrite Hd' in Hd. injection Hd as <- <-.
    constructor; cbn [a_queue a_ctx a_orch a_ready a_accepted a_acked a_refused with_channel cmd_channel step_count channel_subs channel_rejects];
      rewrite ?app_nil_r; try done.
    rewrite Hord. unfold in_service. by rewrite Hpc, Hpc', Hq.
  - destruct (cmd_run_other _ true Hpc Hr w es Hd) as (Hr' & Hq & Hi & _ & _).
    assert (Hes : args (List.filter is_done es) = in_service (cmd_channel c) /\
      Forall (fun e => me_sig e = kIrscCmd \/ me_sig e = kIrscDmaDone) es).
    { unfold cmd_run in Hd. unfold in_service. destruct (wk_at (cmd_channel c)); try done; injection Hd as <- <-; (split; [done|]); [|constructor..].
      apply Forall_singleton. by right. }
    destruct Hes as [Hes Hsig']. constructor;
      cbn [a_queue a_ctx a_orch a_ready a_accepted a_acked a_refused with_channel cmd_channel step_count channel_subs channel_rejects]; try done.
    + by apply Forall_app.
    + by rewrite Hord, List.filter_app, Hi, Hq, event_args_app, Hes, <- app_assoc.
Qed.

Lemma awork_inv s s' : path_inv s -> awork s s' -> path_inv s'.
Proof.
  intros Hi Hst. destruct Hst as [e q c o r acc ack k c' h b Hd|q c o r acc ack k w es Hd|q c e o r acc ack k b r' h Hd];
    [by eapply driver_step_inv|by eapply channel_step_inv|].
  destruct Hi as [Hsig Ho Hr Hru Hord Hs Hre Hsu Hrj]. cbn [a_queue a_ctx a_orch a_ready a_accepted a_acked a_refused] in *.
  apply Forall_cons in Ho as [He Ho]. rewrite orch_counts in Hd by done. injection Hd as <- <- <-.
  constructor; cbn [a_queue a_ctx a_orch a_ready a_accepted a_acked a_refused]; try done.
  - by rewrite Hord, <- app_assoc.
  - by rewrite Hs, <- app_assoc.
  - by rewrite Hre, u32_S, length_app, Nat.add_1_r.
Qed.

Lemma astep_inv s s' : path_inv s -> astep s s' -> path_inv s'.
Proof.
  intros Hi Hst. destruct Hst as [q c o r acc ack k a|q c o r acc ack k g|s s' Hst]; [| |by eapply awork_inv];
    destruct Hi as [Hsig Ho Hr Hru Hord Hs Hre Hsu Hrj]; cbn [a_queue a_ctx a_orch a_ready a_accepted a_acked a_refused] in *;
    constructor; try done; cbn [a_queue a_ctx a_orch a_ready a_accepted a_acked a_refused].
  - apply Forall_app. split; [done|]. apply Forall_singleton. by left.
  - rewrite List.filter_app. cbn. by rewrite app_nil_r.
Qed.

(** ** Every command is answered *)

Definition apc_left (pc : worker_pc) : nat := match pc with KBusy _ => 6 | KLoad => 2 | KStore _ => 1 | _ => 0 end.
Definition a_left (s : asys) : nat :=
  (12 * countb (fun e => negb (is_done e)) (a_queue s) + 2 * countb is_done (a_queue s) + length (a_orch s) +
   8 * Z.to_nat (count (cmd_channel (a_ctx s))) + apc_left (wk_at (cmd_channel (a_ctx s))))%nat.
Definition at_rest (s : asys) : Prop :=
  a_queue s = [] /\ a_orch s = [] /\ wk_at (cmd_channel (a_ctx s)) = KWait /\ count (cmd_channel (a_ctx s)) = 0.

Lemma awork_progress s : path_inv s -> at_rest s \/ exists s', awork s s' /\ path_inv s' /\ (a_left s' < a_left s)%nat.
Proof.
  intros Hi. assert (Hc : 0 <= count (cmd_channel (a_ctx s)) <= 4) by apply (pi_ring s Hi).
  cut (at_rest s \/ exists s', awork s s' /\ (a_left s' < a_left s)%nat).
  { intros [H|(s' & Hst & Hlt)]; [by left|right]. exists s'. split_and!; [done|by eapply awork_inv|done]. }
  destruct Hi as [Hsig Ho Hr [Hru Hk] _ _ _ _ _]. destruct s as [q c o r acc ack k].
  cbn [a_queue a_ctx a_orch] in *. unfold a_left, at_rest. cbn [a_queue a_ctx a_orch].
  destruct q as [|e q].
  2:{ right. apply Forall_cons in Hsig as [He _]. destruct He as [He|He].
      - destruct (driver_command (iarmed c) e He) as [b Hd]. eexists. split; [by eapply aw_driver|]. cbn [a_queue a_ctx a_orch countb].
        assert (Hnd : is_done e = false) by (unfold is_done; by rewrite He). rewrite Hnd. cbn [negb]. destruct (irsc_session_open (iarmed c) e).
        + destruct (onIrscCmd_spec (iarmed c) e Hr) as (Hr' & _ & _ & Hsv & Hcn & Hout & _). rewrite Hsv, Hout, app_nil_r.
          change (cmd_channel (iarmed c)) with (cmd_channel c) in *. assert (0 <= count (cmd_channel (onIrscCmd (iarmed c) e))) by apply Hr'. lia.
        + cbn [onIrscCmdRejected cmd_channel iarmed i_out]. rewrite app_nil_r. lia.
      - eexists. split; [eapply aw_driver, driver_done, He|]. cbn [a_queue a_ctx a_orch countb].
        assert (Hnd : is_done e = true) by (unfold is_done; by rewrite He). rewrite Hnd. cbn [negb onIrscDmaDone i_block iarmed cmd_channel i_out app].
        rewrite length_app. cbn. lia. }
  destruct o as [|e o].
  2:{ right. apply Forall_cons in Ho as [He _]. eexists. split; [eapply aw_orch, orch_counts, He|]. cbn [a_queue a_ctx a_orch]. cbn. lia. }
  destruct (decide (wk_at (cmd_channel c) = KWait)) as [Hpc|Hpc].
  - destruct (decide (count (cmd_channel c) = 0)) as [Hz|Hz]; [by left|right].
    eexists. split; [eapply aw_channel; unfold cmd_run; rewrite Hpc, (proj2 (Z.eqb_neq _ _) Hz); reflexivity|].
    cbn [a_queue a_ctx a_orch with_channel cmd_channel count wk_at app]. rewrite Hpc, wrap_small by (unfold in_u; change (2 ^ 8) with 256; lia).
    cbn. lia.
  - right. destruct (cmd_run (cmd_channel c) true) as [[w es]|] eqn:Hd;
      [|unfold cmd_run in Hd; destruct (wk_at (cmd_channel c)); try done; by repeat case_match].
    exists (mkAS ([] ++ es) (with_channel c w) [] r acc ack k). split; [by eapply aw_channel|]. cbn [a_queue a_ctx a_orch with_channel cmd_channel app].
    unfold cmd_run in Hd. destruct (wk_at (cmd_channel c)); try done; injection Hd as <- <-; cbn; lia.
Qed.

(** Every command is answered once, in order: a command that reaches the driver
    is taken by the channel or counted as refused, those taken are, in the order
    taken, acknowledged, on the way to the orchestrator, completed, in service or
    queued, the three counters agree with them, and whenever no new command
    arrives the objects come to rest with every one acknowledged. *)
Theorem every_command_answered s : rtc astep asys0 s ->
  a_accepted s = a_acked s ++ args (a_orch s) ++ args (List.filter is_done (a_queue s)) ++
    in_service (cmd_channel (a_ctx s)) ++ queued (cmd_channel (a_ctx s)) /\
  a_ready s = u32 (Z.of_nat (length (a_acked s))) /\ channel_rejects (a_ctx s) = u32 (Z.of_nat (a_refused s)) /\
  exists m s', (m <= a_left s)%nat /\ nsteps awork m s s' /\ at_rest s' /\ a_acked s' = a_accepted s' /\
    a_ready s' = step_count (a_ctx s') /\ step_count (a_ctx s') = channel_subs (a_ctx s').
Proof.
  intros Hrun. assert (Hi : path_inv s).
  { eapply rtc_invariant; [exact astep_inv| |exact Hrun]. constructor; try constructor; done. }
  split_and!; [apply Hi..|]. destruct (comes_to_rest awork path_inv a_left at_rest awork_progress s Hi) as (m & s' & Hm & Hn & Hi' & Hr).
  exists m, s'. destruct Hi' as [_ _ _ _ Hord Hs Hre Hsu _]. destruct Hr as (Hq & Ho & Hpc & Hc).
  unfold in_service, queued in Hord. rewrite Hq, Ho, Hpc, Hc in Hord. cbn in Hord. rewrite app_nil_r in Hord. rewrite Ho in Hs. cbn in Hs.
  rewrite app_nil_r in Hs. split_and!; try done; [by rewrite Hre, Hs|by rewrite Hs, Hsu, Hord].
Qed.

(** ** The frame path *)

(** A frame object: its machine, the signal it serves, its queue, its counter. *)
Record node := mkNode { nd_machine : Hsm ChainCtx mevent; nd_sig : Z; nd_queue : list mevent; nd_frames : Z }.

Definition frame_path : list node :=
  [mkNode (gain_machine 1) kFrame [] 0; mkNode (fuse_machine 1) kGainDone [] 0;
   mkNode (enh_machine 1) kFused [] 0; mkNode (observer_machine 1) kEnhanceDone [] 0].

Definition delivered (n : node) (es : list mevent) : node := mkNode (nd_machine n) (nd_sig n) (nd_queue n ++ es) (nd_frames n).
Definition served (n : node) (q : list mevent) (c : ChainCtx) : node := mkNode (nd_machine n) (nd_sig n) q (frames c).

(** One dispatch of one object; what it submits goes to the next one. *)
Inductive chain_step : list node -> list node -> Prop :=
| ch_forward n n2 r e q c b h : nd_queue n = e :: q -> dispatch me_sig (nd_machine n) (mkChain (nd_frames n) true []) e = Ret (b, c, h) ->
    chain_step (n :: n2 :: r) (served n q c :: delivered n2 (c_out c) :: r)
| ch_last n e q c b h : nd_queue n = e :: q -> dispatch me_sig (nd_machine n) (mkChain (nd_frames n) true []) e = Ret (b, c, h) ->
    chain_step [n] [served n q c]
| ch_later n r r' : chain_step r r' -> chain_step (n :: r) (n :: r').

Record fsys := mkFS { f_prod : FrameProducer; f_nodes : list node }.

(** [block]: the producer finds a block; the coordinator accepts what it submits. *)
Inductive frame_step : fsys -> fsys -> Prop :=
| fr_produce p n r block : frame_step (mkFS p (n :: r)) (mkFS (produce p block true).1 (delivered n (produce p block true).2 :: r))
| fr_dispatch p r r' : chain_step r r' -> frame_step (mkFS p r) (mkFS p r').

Definition fsys0 : fsys := mkFS (mkProd 0 0 0) frame_path.

(** The numbers [down .. up - 1], as the 32-bit frame numbers show them. *)
Definition numbers (down up : nat) : list Z := map (fun i => u32 (Z.of_nat i)) (seq down (up - down)).
Definition frame_ids (q : list mevent) : list Z := map (fun e => m_frame_id (me_meta e)) q.

(** [up] frames were sent to the first object; each object has counted a prefix of
    what it was sent and holds the rest, in order. *)
Fixpoint carries (up : nat) (ns : list node) : Prop :=
  match ns with
  | [] => True
  | n :: r => exists down, (down <= up)%nat /\ nd_frames n = u32 (Z.of_nat down) /\ frame_ids (nd_queue n) = numbers down up /\
      Forall (fun e => me_sig e = nd_sig n) (nd_queue n) /\ carries down r
  end.

Definition forwards (n : node) (next : option Z) : Prop := forall f e, me_sig e = nd_sig n ->
  dispatch me_sig (nd_machine n) (mkChain f true []) e =
    Ret (true, mkChain (u32 (f + 1)) true (match next with Some s => [mkMe s (me_meta e)] | None => [] end), nd_machine n).
Fixpoint wired (ns : list node) : Prop :=
  match ns with
  | [] => True
  | n :: r => forwards n (nd_sig <$> hd_error r) /\ wired r
  end.

Lemma numbers_pop down up i l : numbers down up = i :: l -> (down < up)%nat /\ i = u32 (Z.of_nat down) /\ l = numbers (S down) up.
Proof.
  unfold numbers. destruct (up - down)%nat as [|k] eqn:Hk; [done|]. cbn. intros [= <- <-].
  split_and!; [lia|done|]. by replace (up - S down)%nat with k by lia.
Qed.
Lemma numbers_push down up : (down <= up)%nat -> numbers down up ++ [u32 (Z.of_nat up)] = numbers down (S up).
Proof.
  intros H. unfold numbers. rewrite Nat.sub_succ_l, seq_S, map_app by done. cbn. by replace (down + (up - down))%nat with up by lia.
Qed.

Lemma delivered_carries up n r e : carries up (n :: r) -> me_sig e = nd_sig n -> m_frame_id (me_meta e) = u32 (Z.of_nat up) ->
  carries (S up) (delivered n [e] :: r).
Proof.
  intros (down & Hle & Hf & Hq & Hs & Hr) He Hi. exists down. cbn [delivered nd_frames nd_queue nd_sig]. split_and!; [lia|done| | |done].
  - unfold frame_ids in *. rewrite map_app, Hq. cbn. rewrite Hi. by apply numbers_push.
  - apply Forall_app. split; [done|]. by apply Forall_singleton.
Qed.

(** Serving its oldest frame. *)
Lemma served_carries up n r e q next : carries up (n :: r) -> nd_queue n = e :: q -> forwards n next ->
  exists down, (S down <= up)%nat /\ me_sig e = nd_sig n /\ m_frame_id (me_meta e) = u32 (Z.of_nat down) /\ carries down r /\
    forall r', carries (S down) r' -> forall o, carries up (served n q (mkChain (u32 (nd_frames n + 1)) true o) :: r').
Proof.
  intros (down & Hle & Hf & Hq & Hs & Hr) He Hfw. rewrite He in Hq, Hs. apply Forall_cons in Hs as [Hse Hs].
  cbn in Hq. symmetry in Hq. apply numbers_pop in Hq as (Hlt & Hi & Hq). exists down. split_and!; [lia|done|done|done|].
  intros r' Hr' o. exists (S down). cbn [served nd_frames frames nd_queue nd_sig]. split_and!; [lia| |done|done|done].
  by rewrite Hf, u32_S.
Qed.

Lemma chain_step_carries ns ns' : chain_step ns ns' -> forall up, wired ns -> carries up ns -> wired ns' /\ carries up ns'.
Proof.
  intros Hst. induction Hst as [n n2 r e q c b h He Hd|n e q c b h He Hd|n r r' Hst IH]; intros up Hw Hc.
  - destruct Hw as [Hfw Hw]. destruct (served_carries _ _ _ _ _ _ Hc He Hfw) as (down & Hlt & Hse & Hi & Hr & Hk).
    rewrite Hfw in Hd by done. injection Hd as <- <- <-. cbn [c_out]. split; [done|]. apply Hk. by apply delivered_carries.
  - destruct Hw as [Hfw Hw]. destruct (served_carries _ _ _ _ _ _ Hc He Hfw) as (down & Hlt & Hse & Hi & Hr & Hk).
    rewrite Hfw in Hd by done. injection Hd as <- <- <-. split; [done|]. by apply Hk.
  - destruct Hw as [Hfw Hw]. destruct Hc as (down & Hle & Hf & Hq & Hs & Hr). destruct (IH _ Hw Hr) as [Hw' Hr'].
    split; [|by exists down]. split; [|done]. intros f e' Hse. rewrite Hfw by done. do 2 f_equal.
    assert (Hh : nd_sig <$> hd_error r = nd_sig <$> hd_error r') by (clear -Hst; by destruct Hst). by rewrite Hh.
Qed.

(** ** Every frame arrives *)

Fixpoint path_left (ns : list node) : nat :=
  match ns with [] => 0%nat | n :: r => (length (nd_queue n) * S (length r) + path_left r)%nat end.

Lemma chain_progress ns : forall up, wired ns -> carries up ns ->
  Forall (fun n => nd_queue n = []) ns \/ exists ns', chain_step ns ns' /\ (path_left ns' < path_left ns)%nat /\ length ns' = length ns.
Proof.
  induction ns as [|n r IH]; intros up Hw Hc; [left; constructor|]. pose proof Hw as [Hfw Hw'].
  pose proof Hc as (down & _ & _ & _ & Hs & Hr).
  destruct (IH _ Hw' Hr) as [Hrest|(r' & Hst & Hlt & Hl)].
  - destruct (nd_queue n) as [|e q] eqn:Hq; [left; by constructor|right]. apply Forall_cons in Hs as [Hse _]. destruct r as [|n2 r].
    + eexists. split; [eapply ch_last; [done|by apply Hfw]|]. split; [cbn; rewrite Hq; cbn; lia|done].
    + eexists. split; [eapply ch_forward; [done|by apply Hfw]|]. split; [|done]. cbn [path_left served delivered nd_queue c_out hd_error fmap option_fmap option_map].
      rewrite Hq, length_app. cbn [length]. lia.
  - right. exists (n :: r'). split; [by apply ch_later|]. split; [cbn; rewrite Hl; lia|cbn; by rewrite Hl].
Qed.

Lemma frame_path_wired : wired frame_path.
Proof. repeat split; intros f [sig m] He; simpl in He; subst sig; reflexivity. Qed.

Definition frames_inv (s : fsys) : Prop :=
  length (f_nodes s) = 4%nat /\ wired (f_nodes s) /\ exists up, emitted (f_prod s) = u32 (Z.of_nat up) /\ sent (f_prod s) = u32 (Z.of_nat up) /\
    carries up (f_nodes s) /\ match f_nodes s with n :: _ => nd_sig n = kFrame | [] => True end.

Lemma chain_step_shape ns ns' : chain_step ns ns' ->
  length ns' = length ns /\ nd_sig <$> hd_error ns' = nd_sig <$> hd_error ns.
Proof. intros Hst. induction Hst as [| |n r r' _ [IH _]]; [done|done|]. split; [cbn; by rewrite IH|done]. Qed.

Lemma frame_step_inv s s' : frames_inv s -> frame_step s s' -> frames_inv s'.
Proof.
  intros (Hl & Hw & up & He & Hs & Hc & Hsig) Hst. destruct Hst as [p n r block|p r r' Hst]; cbn [f_nodes f_prod] in *.
  - split; [done|]. split; [done|]. unfold produce. destruct block; cbn [fst snd emitted sent].
    + exists (S up). rewrite He, Hs, u32_S. split_and!; try done. apply delivered_carries; try done.
    + exists up. split_and!; try done. unfold delivered. rewrite app_nil_r. by destruct n.
  - destruct (chain_step_shape _ _ Hst) as [Hl' Hh]. destruct (chain_step_carries _ _ Hst _ Hw Hc) as [Hw' Hc'].
    unfold frames_inv. cbn [f_nodes f_prod]. split; [by rewrite Hl'|]. split; [done|]. exists up. split_and!; try done.
    destruct r' as [|n' r']; [done|]. destruct r as [|n r]; [done|]. injection Hh as ->. done.
Qed.

(** Every frame arrives, in order.  Whatever the pool answers the producer, while
    the objects find blocks and the coordinator accepts their events each of the
    four objects has counted a prefix of the frames it was sent and holds exactly
    the rest, in the order of the frame numbers; and whenever the producer pauses
    the chain comes to rest with every counter equal to [emitted]. *)
Theorem frames_all_arrive s : rtc frame_step fsys0 s ->
  (exists up, emitted (f_prod s) = u32 (Z.of_nat up) /\ carries up (f_nodes s)) /\
  exists m ns, (m <= path_left (f_nodes s))%nat /\ nsteps chain_step m (f_nodes s) ns /\ length ns = 4%nat /\
    Forall (fun n => nd_queue n = [] /\ nd_frames n = emitted (f_prod s)) ns.
Proof.
  intros Hrun. assert (Hi : frames_inv s).
  { eapply rtc_invariant; [exact frame_step_inv| |exact Hrun]. split; [done|]. split; [apply frame_path_wired|].
    exists 0%nat. split_and!; try done. cbn. repeat (exists 0%nat; split_and!; try done; try constructor). }
  destruct Hi as (Hl & Hw & up & He & Hs & Hc & _). split; [by exists up|].
  destruct (comes_to_rest chain_step (fun ns => wired ns /\ carries up ns /\ length ns = 4%nat) path_left (Forall (fun n => nd_queue n = [])))
    with (f_nodes s) as (m & ns & Hm & Hn & (_ & Hc' & Hl') & Hr); [|done|].
  - intros ns (Hwn & Hcn & Hln). destruct (chain_progress ns up Hwn Hcn) as [H|(ns' & Hst & Hlt & Hl')]; [by left|right].
    exists ns'. destruct (chain_step_carries _ _ Hst _ Hwn Hcn) as [? ?]. split_and!; [done..|by rewrite Hl'|done].
  - exists m, ns. split_and!; [done..|]. rewrite He. clear -Hc' Hr. revert Hc' Hr. generalize up.
    induction ns as [|n ns IH]; intros u Hc Hr; [constructor|]. apply Forall_cons in Hr as [Hq Hr].
    destruct Hc as (down & Hle & Hf & Hi & _ & Hc). rewrite Hq in Hi. cbn in Hi.
    assert (down = u) as ->. { unfold numbers in Hi. destruct (u - down)%nat eqn:E; [lia|done]. }
    constructor; [done|]. by apply IH.
Qed.

(** The producer counts as emitted, not as dropped, a frame that the coordinator
    refuses. *)
Lemma refused_frame_is_counted p : produce p true false = (mkProd (u32 (emitted p + 1)) (dropped p) (u32 (sent p + 1)), []).
Proof. done. Qed.
