(* ===== verification/UsbDma.v ===== *)
(** * The USB transfer engine and the frame producer (examples/isp_pipeline/sensor_irsc.hpp)

    [UsbDmaWorker]: a one-job slot under a mutex, with the steps of [Worker.v]; the
    engine runs a job in bulk transactions and posts the end of the frame to the
    host object.  [IrscWorker]: the loop that emits the sensor's frames. *)

From S2P Require Import Prelude.

(** ** The engine *)

Definition kBulkXsfBytes : Z := 16384.

Record usb_job := mkUJob { valid : bool; u_frame_id : Z; payload_bytes : Z; err_eof : bool }.
Definition job0 : usb_job := mkUJob false 0 0 false.

(** The end of a frame as the host is told: frame, result (32-bit two's complement), flags. *)
Record frame_eof := mkEof { eof_frame : Z; eof_result : Z; eof_flags : Z }.

Inductive upc := UTop | UWait | UMove (j : usb_job) | UDone.
Inductive ustop := UsOut | UsAsked | UsStopped.

(** [posted]: the events the host is sent; [err_posts]: the interrupts; [taken]: the jobs said yes to. *)
Record usys := mkUsb {
  job : usb_job; u_running : bool; transactions_done : Z; u_rejects : Z; error_interrupts : Z;
  u_at : upc; us_at : ustop; posted : list frame_eof; err_posts : list Z; taken : list usb_job
}.

Definition set_job (s : usys) (j : usb_job) (pc : upc) : usys :=
  mkUsb j (u_running s) (transactions_done s) (u_rejects s) (error_interrupts s) pc (us_at s) (posted s) (err_posts s) (taken s).

Definition usb_submit (s : usys) (j : usb_job) : bool * usys :=
  if valid (job s) then (false, s)
  else
    let j := mkUJob true (u_frame_id j) (payload_bytes j) (err_eof j) in
    (true, mkUsb j (u_running s) (transactions_done s) (u_rejects s) (error_interrupts s) (u_at s) (us_at s) (posted s) (err_posts s) (taken s ++ [j])).

Definition txns (j : usb_job) : Z := u32 (u32 (payload_bytes j + kBulkXsfBytes) - 1) / kBulkXsfBytes.

Definition to_i32 (x : Z) : Z := if x <? 2 ^ 31 then x else x - 2 ^ 32.

Definition eof_of (j : usb_job) : frame_eof := mkEof (u_frame_id j) (to_i32 (payload_bytes j)) (if err_eof j then 1 else 0).

(** The locked stretch of [run], and the transfer with the completion that follows it. *)
Definition usb_section (s : usys) : usys :=
  if u_running s && negb (valid (job s)) then set_job s (job s) UWait
  else if negb (u_running s) && negb (valid (job s)) then set_job s (job s) UDone
  else set_job s job0 (UMove (job s)).

Definition usb_move (s : usys) (j : usb_job) (pool : bool) : usys :=
  mkUsb (job s) (u_running s) (u32 (transactions_done s + txns j)) (if pool then u_rejects s else u32 (u_rejects s + 1)) (error_interrupts s)
    UTop (us_at s) (if pool then posted s ++ [eof_of j] else posted s) (err_posts s) (taken s).

Definition inject_error_interrupt (s : usys) (frame_id : Z) (pool : bool) : usys :=
  mkUsb (job s) (u_running s) (transactions_done s) (u_rejects s) (u32 (error_interrupts s + 1)) (u_at s) (us_at s) (posted s)
    (if pool then err_posts s ++ [frame_id] else err_posts s) (taken s).

Inductive uact := USubmit (j : usb_job) | UEngine (pool : bool) | UStop | UInject (frame_id : Z) (pool : bool).

Definition set_us (s : usys) (run : bool) (p : ustop) : usys :=
  mkUsb (job s) run (transactions_done s) (u_rejects s) (error_interrupts s) (u_at s) p (posted s) (err_posts s) (taken s).

(** [stop] asks, then joins. *)
Definition usb_step (s : usys) (a : uact) : usys :=
  match a with
  | USubmit j => (usb_submit s j).2
  | UEngine pool => match u_at s with UTop | UWait => usb_section s | UMove j => usb_move s j pool | UDone => s end
  | UStop =>
    match us_at s with
    | UsOut => set_us s false UsAsked
    | UsAsked => match u_at s with UDone => set_us s (u_running s) UsStopped | _ => s end
    | UsStopped => s
    end
  | UInject f pool => inject_error_interrupt s f pool
  end.

Definition usb0 : usys := mkUsb job0 true 0 0 0 UTop UsOut [] [] [].
Definition usb_run (s : usys) (acts : list uact) : usys := foldl usb_step s acts.

(** ** The producer *)

Definition period_of (fps : Z) : Z := if fps =? 0 then 33333 else 1000000 / fps.
Definition frame_limit_of (frames : Z) : Z := if frames =? 0 then 0xFFFFFFFF else frames.

Inductive channel := low_target | high_target.

(** The time stamp is left out. *)
Record frame_event := mkFrame { f_dst : channel; f_id : Z; f_control : list Z }.

Definition frame_to (d : channel) (f : Z) : frame_event :=
  mkFrame d f [68; 78; Z.land (Z.shiftr f 8) 0xFF; Z.land f 0xFF].

(** One turn of the loop: whether the pool has a block for each channel; the
    first failure leaves the frame. *)
Definition emit (f : Z) (pool : bool * bool) : list frame_event :=
  if pool.1 then frame_to low_target f :: (if pool.2 then [frame_to high_target f] else []) else [].

(** The loop, with the pool's answers in each turn, until the list or the limit
    ends ([running] is cleared); the answer is what was submitted and [emitted]. *)
Fixpoint produce (limit f : Z) (turns : list (bool * bool)) : list frame_event * Z :=
  match turns with
  | [] => ([], f)
  | pool :: turns =>
    if f <? limit then let '(es, n) := produce limit (u32 (f + 1)) turns in (emit f pool ++ es, n) else ([], f)
  end.

(** ** Transfers *)

(** Whole transactions cover the payload, for payloads that leave room for the rounding. *)
Lemma txns_exact j :
  0 <= payload_bytes j <= 2 ^ 32 - kBulkXsfBytes -> (txns j - 1) * kBulkXsfBytes < payload_bytes j <= txns j * kBulkXsfBytes.
Proof.
  unfold txns, kBulkXsfBytes. intros Hp. rewrite <- (Z.add_opp_r (u32 _)), wrap_add_wrap_l, wrap_small by (unfold in_u; lia).
  Z.to_euclidean_division_equations. lia.
Qed.

(** ** The engine finishes what it takes *)

Definition moving (s : usys) : list usb_job := match u_at s with UMove j => [j] | _ => [] end.
Definition pending (s : usys) : list usb_job := if valid (job s) then [job s] else [].

(** What the transfers so far, [moved], have left behind. *)
Record uinv (s : usys) (moved : list usb_job) : Prop := {
  ui_taken : taken s = moved ++ moving s ++ pending s;
  ui_posted : posted s = map eof_of moved;
  ui_txns : transactions_done s = u32 (foldr (fun j n => txns j + n) 0 moved);
  ui_running : u_running s = match us_at s with UsOut => true | _ => false end;
  ui_done : u_at s = UDone -> us_at s <> UsOut
}.

Definition served (a : uact) : bool := match a with UEngine pool => pool | _ => true end.
Definition is_engine (a : uact) : bool := match a with UEngine _ => true | _ => false end.
Definition is_usubmit (a : uact) : bool := match a with USubmit _ => true | _ => false end.

(** Engine steps left once [stop] has asked. *)
Definition u_work (s : usys) : nat :=
  match u_at s with UDone => 0 | UMove _ => if valid (job s) then 4 else 2 | _ => if valid (job s) then 3 else 1 end.

Lemma txns_snoc moved j : foldr (fun j n => txns j + n) 0 (moved ++ [j]) = foldr (fun j n => txns j + n) 0 moved + txns j.
Proof. induction moved as [|x moved IH]; cbn; lia. Qed.

Lemma section_inv s moved : uinv s moved -> moving s = [] -> uinv (usb_section s) moved.
Proof.
  intros [Ht Hp Hx Hr Hd] Hm. rewrite Hm in Ht. unfold pending in Ht. unfold usb_section. rewrite Hr.
  destruct (valid (job s)) eqn:Hv; cbn [negb]; rewrite ?andb_false_r; [by constructor|].
  destruct (us_at s) eqn:Hs; constructor; cbn; unfold pending; cbn; rewrite ?Hs, ?Hv; done.
Qed.

Lemma move_inv s moved j : uinv s moved -> u_at s = UMove j -> uinv (usb_move s j true) (moved ++ [j]).
Proof.
  intros [Ht Hp Hx Hr Hd] Hat. unfold moving in Ht. rewrite Hat in Ht. constructor; cbn; try done.
  - by rewrite Ht, <- app_assoc.
  - by rewrite Hp, map_app.
  - rewrite txns_snoc, Hx, wrap_add_wrap_l by lia. done.
Qed.

Lemma submit_inv s moved j : uinv s moved -> uinv (usb_submit s j).2 moved.
Proof.
  intros [Ht Hp Hx Hr Hd]. unfold usb_submit, pending in *. destruct (valid (job s)) eqn:Hv; cbn [snd]; constructor; cbn; try done.
  - unfold pending. by rewrite Hv.
  - rewrite Ht, app_nil_r, <- app_assoc. done.
Qed.

Lemma stop_inv s moved : uinv s moved -> uinv (usb_step s UStop) moved.
Proof.
  intros [Ht Hp Hx Hr Hd]. cbn [usb_step]. destruct (us_at s) eqn:Hs; [|destruct (u_at s) eqn:Hat|]; constructor; cbn; rewrite ?Hs; done.
Qed.

Lemma usb_step_inv s moved a : uinv s moved -> served a = true -> exists moved', uinv (usb_step s a) moved'.
Proof.
  intros Hi Ha. destruct a as [j|[]| |f pool]; try done.
  - exists moved. by apply submit_inv.
  - cbn [usb_step]. destruct (u_at s) eqn:Hat; [exists moved|exists moved|eexists; by apply move_inv|by exists moved];
      apply section_inv; try done; unfold moving; by rewrite Hat.
  - exists moved. by apply stop_inv.
  - exists moved. by destruct Hi.
Qed.

Lemma usb_step_taken s a : is_usubmit a = false -> taken (usb_step s a) = taken s.
Proof.
  destruct a as [j|pool| |f pool]; try done; cbn [usb_step]; intros _.
  - destruct (u_at s); try done; unfold usb_section; by repeat case_match.
  - by destruct (us_at s), (u_at s).
Qed.

(** Once asked to stop, every engine step gets nearer to the end. *)
Definition u_closing (s : usys) : Prop := u_running s = false /\ us_at s <> UsOut /\ (u_at s = UDone -> valid (job s) = false).

Lemma usb_step_work s a :
  u_closing s -> is_usubmit a = false -> u_closing (usb_step s a) /\ (u_work (usb_step s a) <= u_work s - (if is_engine a then 1 else 0))%nat.
Proof.
  intros (Hr & Hs & Hd) Ha. unfold u_closing, u_work. destruct a as [j|pool| |f pool]; try done; cbn [usb_step is_engine].
  - destruct (u_at s) as [| |j|] eqn:Hat; [..|rewrite Hat; split; [done|lia]].
    1, 2: unfold usb_section; rewrite Hr; cbn [negb andb]; destruct (valid (job s)) eqn:Hv; cbn; rewrite ?Hv; split; try done; lia.
    cbn. split; [done|]. destruct (valid (job s)); lia.
  - destruct (us_at s) eqn:Hu; [done| |]; destruct (u_at s) eqn:Hat; cbn; rewrite ?Hu, ?Hat; (split; [by auto|lia]).
  - cbn. split; [done|lia].
Qed.

Lemma usb_run_inv s moved acts : uinv s moved -> forallb served acts = true -> exists moved', uinv (usb_run s acts) moved'.
Proof.
  revert s moved. induction acts as [|a acts IH]; intros s moved Hi Hs; [by exists moved|]. apply andb_true_iff in Hs as [Ha Hs].
  destruct (usb_step_inv s moved a Hi Ha) as [m' Hi']. apply (IH _ _ Hi' Hs).
Qed.

Lemma usb_run_work s acts :
  u_closing s -> forallb (fun a => negb (is_usubmit a)) acts = true ->
  u_closing (usb_run s acts) /\ (u_work (usb_run s acts) <= u_work s - countb is_engine acts)%nat /\ taken (usb_run s acts) = taken s.
Proof.
  revert s. induction acts as [|a acts IH]; intros s Hc Hs; [split_and!; [done|cbn; lia|done]|]. apply andb_true_iff in Hs as [Ha%negb_true_iff Hs].
  destruct (usb_step_work s a Hc Ha) as [Hc' Hw]. destruct (IH _ Hc' Hs) as (H1 & H2 & H3). cbn [usb_run foldl countb].
  split_and!; [done|unfold usb_run in H2; destruct (is_engine a); lia|]. unfold usb_run in H3. rewrite H3. by apply usb_step_taken.
Qed.

(** The USB engine finishes the frames it takes.  Under any interleaving of
    submissions, the engine, injected errors and [stop], with a block for every
    completion: once [stop] has asked while the engine runs, and nothing more is
    submitted, four turns of the engine let [stop] return, and the host has been
    sent the end of every frame ever taken, in order, with its length and error
    flag; the transactions counted are those of these frames. *)
Theorem usb_engine_drains (acts1 acts2 : list uact) :
  let s1 := usb_run usb0 acts1 in let s2 := usb_run s1 (acts2 ++ [UStop]) in
  us_at s1 = UsAsked -> u_at s1 <> UDone -> forallb served (acts1 ++ acts2) = true ->
  forallb (fun a => negb (is_usubmit a)) acts2 = true -> (4 <= countb is_engine acts2)%nat ->
  us_at s2 = UsStopped /\ posted s2 = map eof_of (taken s1) /\ transactions_done s2 = u32 (foldr (fun j n => txns j + n) 0 (taken s1)).
Proof.
  cbv zeta. intros Hs Hd Hv Hns Hn. rewrite forallb_app in Hv. apply andb_true_iff in Hv as [Hv1 Hv2]. set (s1 := usb_run usb0 acts1) in *.
  assert (H0 : uinv usb0 []) by by constructor. destruct (usb_run_inv _ _ _ H0 Hv1) as [m1 Hi1]. fold s1 in Hi1.
  assert (Hc : u_closing s1).
  { split_and!; [rewrite (ui_running _ _ Hi1), Hs; done|congruence|done]. }
  destruct (usb_run_work s1 acts2 Hc Hns) as ((Hr2 & Hs2 & Hd2) & Hw & Ht). destruct (usb_run_inv _ _ _ Hi1 Hv2) as [m2 Hi2].
  assert (Hle : (u_work s1 <= 4)%nat) by (unfold u_work; destruct (u_at s1), (valid (job s1)); lia).
  unfold usb_run at 1 2 3. rewrite !foldl_app. cbn [foldl]. change (foldl usb_step s1 acts2) with (usb_run s1 acts2).
  set (s2 := usb_run s1 acts2) in *. assert (Hw0 : u_work s2 = 0%nat) by lia.
  assert (Hat : u_at s2 = UDone) by (unfold u_work in Hw0; destruct (u_at s2), (valid (job s2)); done || lia).
  destruct Hi2 as [Htk Hp Hx _ _]. rewrite Ht in Htk. unfold moving, pending in Htk. rewrite Hat, (Hd2 Hat), !app_nil_r in Htk. rewrite Htk.
  cbn [usb_step]. destruct (us_at s2) eqn:Hu; [done| |]; rewrite ?Hat, ?Hu; done.
Qed.

Lemma usb_engine_drains_witness :
  let f1 := mkUJob false 1 2621440 false in let f2 := mkUJob false 2 655360 true in
  let s1 := usb_run usb0 [USubmit f1; UEngine true; USubmit f2; UInject 2 true; UStop] in
  let s2 := usb_run s1 ([UEngine true; UEngine true; UStop; UEngine true; UEngine true] ++ [UStop]) in
  us_at s2 = UsStopped /\ posted s2 = [mkEof 1 2621440 0; mkEof 2 655360 1] /\ transactions_done s2 = 200.
Proof.
  cbv zeta. apply (usb_engine_drains [USubmit (mkUJob false 1 2621440 false); UEngine true; USubmit (mkUJob false 2 655360 true); UInject 2 true; UStop]
    [UEngine true; UEngine true; UStop; UEngine true; UEngine true]); try reflexivity; discriminate || done.
Defined.

(** ** The producer's frames *)

(** A frame for the high-gain chain is preceded by its twin for the low-gain one;
    frames come in order. *)
Fixpoint frames_from (f : Z) (turns : list (bool * bool)) : list frame_event :=
  match turns with [] => [] | p :: turns => emit f p ++ frames_from (f + 1) turns end.

Lemma produce_frames limit f turns :
  0 <= f -> f + Z.of_nat (length turns) <= limit < 2 ^ 32 -> produce limit f turns = (frames_from f turns, f + Z.of_nat (length turns)).
Proof.
  revert f. induction turns as [|p turns IH]; intros f Hf Hl; cbn [length] in *; cbn [produce frames_from]; [f_equal; lia|].
  rewrite (proj2 (Z.ltb_lt f limit)) by lia. rewrite wrap_small by (unfold in_u; lia). rewrite IH by lia. f_equal. lia.
Qed.

Lemma produce_stops limit f turns : 0 <= f <= limit -> limit < 2 ^ 32 -> (produce limit f turns).2 <= limit.
Proof.
  revert f. induction turns as [|p turns IH]; intros f Hf Hl; cbn [produce]; [cbn; lia|]. destruct (Z.ltb_spec f limit); [|cbn; lia].
  rewrite wrap_small by (unfold in_u; lia). specialize (IH (f + 1) ltac:(lia) Hl). by destruct (produce limit (f + 1) turns).
Qed.
