(* ===== verification/Parking.v ===== *)
(** * Frames waiting for their interrupt (examples/isp_pipeline)

    The parking ring that the node objects of isp_chain.hpp and the two streams of
    the pack object of video_stream.hpp keep: descriptors of frames handed to a
    hardware worker, found again by frame number when the worker's completion
    arrives.  The ring does not know which of its four places are free. *)

From S2P Require Import Prelude.

Record IoMeta := mkMeta {
  reply_to : Z; frame_id : Z; m_width : Z; m_height : Z; m_cmd_arg : Z; m_flags : Z; timestamp_ns : Z; payload_kind : Z;
  buffer_idx : Z; m_result : Z
}.

(** [IoMeta{}]. *)
Definition meta0 : IoMeta := mkMeta 0 0 640 512 0 0 0 0 0 0.

Definition kParkDepth : Z := 4.

Record parking := mkParking { parked : list IoMeta; park_head : Z; in_flight : Z }.
Definition parking0 : parking := mkParking (replicate 4 meta0) 0 0.

Definition park (r : parking) (m : IoMeta) : outcome parking :=
  match parked r !! Z.to_nat (park_head r) with
  | Some _ => mret (mkParking (<[Z.to_nat (park_head r) := m]> (parked r)) (u8 ((park_head r + 1) mod kParkDepth)) (u32 (in_flight r + 1)))
  | None => Fatal
  end.

(** The scan for the frame; on a hit, [std::exchange] with an empty descriptor. *)
Definition unpark (r : parking) (f : Z) : option IoMeta * parking :=
  match find_idx (fun m => frame_id m =? f) (parked r) with
  | Some i =>
    (parked r !! i, mkParking (<[i := meta0]> (parked r)) (park_head r) (if 0 <? in_flight r then u32 (in_flight r - 1) else in_flight r))
  | None => (None, r)
  end.

(** ** Against a table *)

(** Frames are numbered in the order they are parked. *)
Record table := mkTable { waiting : list (nat * IoMeta); next : nat }.
Definition table0 : table := mkTable [] 0.

Definition t_park (t : table) (m : IoMeta) : table := mkTable (waiting t ++ [(next t, m)]) (S (next t)).

Definition is_frame (f : Z) (e : nat * IoMeta) : bool := frame_id e.2 =? f.
Fixpoint remove1 {A} (p : A -> bool) (l : list A) : list A :=
  match l with [] => [] | x :: l => if p x then l else x :: remove1 p l end.

Definition t_unpark (t : table) (f : Z) : option IoMeta * table :=
  (snd <$> List.find (is_frame f) (waiting t), mkTable (remove1 (is_frame f) (waiting t)) (next t)).

(** When the ring can stand for the table: a frame is parked only while none is
    left from four places back, under a number of its own; frame 0 only as the
    first, and completed only while it waits. *)
Definition may_park (t : table) (m : IoMeta) : bool :=
  forallb (fun e => (next t <? e.1 + 4)%nat) (waiting t) && negb (existsb (is_frame (frame_id m)) (waiting t)) &&
  (negb (frame_id m =? 0) || (next t =? 0)%nat).
Definition may_unpark (t : table) (f : Z) : bool := negb (f =? 0) || existsb (is_frame f) (waiting t).

Record stands_for (r : parking) (t : table) : Prop := {
  sf_length : length (parked r) = 4%nat;
  sf_head : park_head r = Z.of_nat (next t) mod 4;
  sf_flight : in_flight r = Z.of_nat (length (waiting t));
  sf_slot : forall k m, (k, m) ∈ waiting t -> (k < next t <= k + 4)%nat /\ parked r !! (k mod 4)%nat = Some m;
  sf_free : forall i, (i < 4)%nat -> (forall k m, (k, m) ∈ waiting t -> (k mod 4)%nat <> i) -> parked r !! i = Some meta0;
  sf_seq : NoDup (waiting t).*1;
  sf_ids : NoDup (map (fun e => frame_id e.2) (waiting t));
  sf_zero : forall k m, (k, m) ∈ waiting t -> frame_id m = 0 -> k = 0%nat
}.

Lemma stands_for0 : stands_for parking0 table0.
Proof.
  split; try done; try (intros; set_solver); [|constructor..]. intros i Hi _. by apply lookup_replicate_2.
Qed.

Lemma waiting_short r t : stands_for r t -> (length (waiting t) <= 4)%nat.
Proof.
  intros Hs. pose proof (sf_seq _ _ Hs) as Hnd. rewrite <- (length_fmap fst).
  transitivity (length (seq (next t - 4) 4)); [|by rewrite length_seq]. apply submseteq_length, NoDup_submseteq; [done|].
  intros k (m & -> & Hm)%list_elem_of_fmap. destruct m as [k m]. apply (sf_slot _ _ Hs) in Hm as [Hk _]. apply elem_of_seq. cbn [fst]. lia.
Qed.

Lemma mod4_inj k k' n : (k < n <= k + 4)%nat -> (k' < n <= k' + 4)%nat -> (k mod 4 = k' mod 4)%nat -> k = k'.
Proof. intros. pose proof (Nat.div_mod_eq k 4). pose proof (Nat.div_mod_eq k' 4). lia. Qed.

Lemma park_stands r t m : stands_for r t -> may_park t m = true -> exists r', park r m = Ret r' /\ stands_for r' (t_park t m).
Proof.
  intros Hs Hm. unfold may_park in Hm. apply andb_true_iff in Hm as [[Hroom Hnew]%andb_true_iff Hz].
  rewrite forallb_forall in Hroom. apply negb_true_iff in Hnew.
  assert (Hh : Z.to_nat (park_head r) = (next t mod 4)%nat) by (rewrite (sf_head _ _ Hs); change 4 with (Z.of_nat 4); rewrite <- Nat2Z.inj_mod; lia).
  assert (Hlt : (next t mod 4 < 4)%nat) by (apply Nat.mod_upper_bound; lia).
  pose proof (waiting_short _ _ Hs) as Hshort. destruct Hs as [Hlen Hhd Hfl Hsl Hfr Hsq Hid Hze].
  assert (Hold : forall k x, (k, x) ∈ waiting t -> (k < next t <= k + 3)%nat).
  { intros k x Hk. destruct (Hsl k x Hk) as [? _]. specialize (Hroom (k, x) (proj1 (list_elem_of_In _ _) Hk)).
    apply Nat.ltb_lt in Hroom. cbn in Hroom. lia. }
  unfold park. rewrite Hh. destruct (lookup_lt_is_Some_2 (parked r) (next t mod 4)) as [y ->]; [lia|]. eexists. split; [reflexivity|].
  assert (Hne : forall k x, (k, x) ∈ waiting t -> (k mod 4)%nat <> (next t mod 4)%nat).
  { intros k x Hk E. specialize (Hold k x Hk). pose proof (Nat.div_mod_eq k 4). pose proof (Nat.div_mod_eq (next t) 4). lia. }
  split; cbn [parked park_head in_flight waiting next t_park].
  - by rewrite length_insert.
  - rewrite Hhd. unfold kParkDepth. rewrite Zplus_mod_idemp_l, wrap_small; [f_equal; lia|].
    pose proof (Z.mod_pos_bound (Z.of_nat (next t) + 1) 4 ltac:(lia)). unfold in_u. lia.
  - rewrite Hfl, length_app, wrap_small; [cbn; lia|]. unfold in_u. lia.
  - intros k x [Hk|Hk]%elem_of_app.
    + destruct (Hsl k x Hk) as [_ Hl]. specialize (Hold k x Hk). split; [lia|]. rewrite list_lookup_insert_ne; [done|]. apply not_eq_sym. by eapply Hne.
    + apply list_elem_of_singleton in Hk. injection Hk as -> ->. split; [lia|]. apply list_lookup_insert_eq. lia.
  - intros i Hi Hno. rewrite list_lookup_insert_ne by (apply (Hno (next t) m), elem_of_app; right; by apply list_elem_of_singleton).
    apply Hfr; [done|]. intros k x Hk. apply (Hno k x), elem_of_app. by left.
  - rewrite fmap_app. cbn. apply NoDup_app. split_and!; [done| |apply NoDup_singleton].
    intros k ([k' x] & -> & Hk)%list_elem_of_fmap Hn. apply list_elem_of_singleton in Hn. cbn in Hn. specialize (Hold k' x Hk). lia.
  - rewrite map_app. apply NoDup_app. split_and!; [done| |apply NoDup_singleton].
    intros g (e & -> & He)%list_elem_of_fmap Hn. apply list_elem_of_singleton in Hn. cbn in Hn.
    assert (existsb (is_frame (frame_id m)) (waiting t) = true); [|congruence]. apply existsb_exists. exists e. split; [by apply list_elem_of_In|].
    unfold is_frame. by apply Z.eqb_eq.
  - intros k x [Hk|Hk]%elem_of_app Hzero; [by eapply Hze|]. apply list_elem_of_singleton in Hk. injection Hk as -> ->.
    apply orb_true_iff in Hz as [Hz%negb_true_iff|Hz%Nat.eqb_eq]; [|done]. by apply Z.eqb_neq in Hz.
Qed.

Lemma find_remove1 {A} (p : A -> bool) l :
  match List.find p l with
  | Some x => p x = true /\ exists l1 l2, l = l1 ++ x :: l2 /\ remove1 p l = l1 ++ l2
  | None => existsb p l = false /\ remove1 p l = l
  end.
Proof.
  induction l as [|y l IH]; [done|]. cbn. destruct (p y) eqn:Hy; [split; [done|]; by exists [], l|].
  destruct (List.find p l) as [x|]; [|destruct IH as [-> ->]; done]. destruct IH as (Hx & l1 & l2 & -> & ->). split; [done|]. by exists (y :: l1), l2.
Qed.

(** A hit in the ring is a frame of the table, or an empty place that looks like frame 0. *)
Lemma hit_cases r t i m : stands_for r t -> parked r !! i = Some m -> (exists k, (k, m) ∈ waiting t /\ i = (k mod 4)%nat) \/ m = meta0.
Proof.
  intros Hs Hi. assert (Hlt : (i < 4)%nat) by (rewrite <- (sf_length _ _ Hs); by eapply lookup_lt_Some).
  destruct (decide (Exists (fun e => (e.1 mod 4)%nat = i) (waiting t))) as [He|He].
  - left. apply Exists_exists in He as ([k x] & Hk & Hm). cbn [fst] in Hm. exists k. destruct (sf_slot _ _ Hs k x Hk) as [_ Hl]. rewrite Hm, Hi in Hl.
    injection Hl as <-. done.
  - right. assert (Hf : parked r !! i = Some meta0); [|congruence]. apply (sf_free _ _ Hs); [done|]. intros k x Hk Hm. apply He, Exists_exists. by exists (k, x).
Qed.

Lemma same_frame t k k' m m' :
  NoDup (map (fun e : nat * IoMeta => frame_id e.2) (waiting t)) -> (k, m) ∈ waiting t -> (k', m') ∈ waiting t -> frame_id m = frame_id m' -> (k, m) = (k', m').
Proof.
  intros Hnd [i Hi]%list_elem_of_lookup [j Hj]%list_elem_of_lookup Hf. assert (i = j); [|congruence].
  apply (NoDup_lookup _ i j (frame_id m) Hnd); rewrite list_lookup_fmap; [by rewrite Hi|rewrite Hj; by cbn; rewrite Hf].
Qed.

Lemma find_waiting r t f k m :
  stands_for r t -> (k, m) ∈ waiting t -> frame_id m = f -> find_idx (fun m => frame_id m =? f) (parked r) = Some (k mod 4)%nat.
Proof.
  intros Hs Hk Hf. destruct (sf_slot _ _ Hs k m Hk) as [_ Hl].
  destruct (find_idx_is_Some (fun m => frame_id m =? f) _ _ _ Hl (proj2 (Z.eqb_eq _ _) Hf)) as (i & Hi & Hle). rewrite Hi. f_equal.
  apply find_idx_Some in Hi as (y & Hy & Hyf%Z.eqb_eq & _). destruct (hit_cases _ _ _ _ Hs Hy) as [(k' & Hk' & ->)| ->].
  - assert ((k', y) = (k, m)) as [= -> _]; [|done]. apply (same_frame t); try done; [apply (sf_ids _ _ Hs)|congruence].
  - cbn in Hyf. assert (k = 0%nat) as -> by (apply (sf_zero _ _ Hs k m Hk); congruence). change (0 mod 4)%nat with 0%nat in *. lia.
Qed.

Lemma find_none r t f :
  stands_for r t -> existsb (is_frame f) (waiting t) = false -> f <> 0 -> find_idx (fun m => frame_id m =? f) (parked r) = None.
Proof.
  intros Hs Hno Hf. apply find_idx_None. intros i m Hi. apply Z.eqb_neq. intros E. destruct (hit_cases _ _ _ _ Hs Hi) as [(k & Hk & _)| ->]; [|by cbn in E].
  assert (existsb (is_frame f) (waiting t) = true); [|congruence]. apply existsb_exists. exists (k, m). split; [by apply list_elem_of_In|]. by apply Z.eqb_eq.
Qed.

Lemma unpark_stands r t f :
  stands_for r t -> may_unpark t f = true -> (unpark r f).1 = (t_unpark t f).1 /\ stands_for (unpark r f).2 (t_unpark t f).2.
Proof.
  intros Hs Hm. unfold unpark, t_unpark. pose proof (find_remove1 (is_frame f) (waiting t)) as Hfind.
  destruct (List.find (is_frame f) (waiting t)) as [[k m]|].
  - destruct Hfind as (Hf%Z.eqb_eq & l1 & l2 & Hw & ->). cbn [snd] in Hf. assert (Hk : (k, m) ∈ waiting t) by (rewrite Hw; set_solver).
    rewrite (find_waiting _ _ _ _ _ Hs Hk Hf). cbn [fst snd fmap option_fmap option_map]. pose proof (waiting_short _ _ Hs) as Hsh.
    destruct Hs as [Hlen Hhd Hfl Hsl Hfr Hsq Hid Hze]. destruct (Hsl k m Hk) as [Hkr Hl]. rewrite Hl. split; [done|].
    assert (Hsub : forall e, e ∈ l1 ++ l2 -> e ∈ waiting t) by (intros e He; rewrite Hw; set_solver).
    rewrite Hw, fmap_app in Hsq. cbn in Hsq. apply NoDup_app in Hsq as (Hn1 & Hn2 & [Hn3 Hn4]%NoDup_cons).
    assert (Hothers : forall k' x, (k', x) ∈ l1 ++ l2 -> k' <> k).
    { intros k' x Hin ->. apply elem_of_app in Hin as [Hin|Hin].
      - apply (Hn2 k); [by apply (list_elem_of_fmap_2 fst l1 (k, x))|by left].
      - apply Hn3. by apply (list_elem_of_fmap_2 fst l2 (k, x)). }
    split; cbn [parked park_head in_flight waiting next]; try done.
    + by rewrite length_insert.
    + rewrite Hfl, Hw, !length_app. cbn [length]. rewrite (proj2 (Z.ltb_lt _ _)) by lia. rewrite Hw, length_app in Hsh. cbn in Hsh.
      rewrite wrap_small by (unfold in_u; lia). lia.
    + intros k' x Hin. destruct (Hsl k' x (Hsub _ Hin)) as [Hkr' Hl']. split; [done|]. rewrite list_lookup_insert_ne; [done|].
      intros E. apply (Hothers k' x Hin). symmetry. by apply (mod4_inj k k' (next t)).
    + intros i Hi Hno. destruct (decide (i = k mod 4)%nat) as [->|Hne]; [by apply list_lookup_insert_eq; rewrite Hlen|].
      rewrite list_lookup_insert_ne by done. apply Hfr; [done|]. intros k' x Hin. rewrite Hw in Hin. apply elem_of_app in Hin as [Hin|Hin].
      * apply (Hno k' x). apply elem_of_app. by left.
      * apply elem_of_cons in Hin as [[= -> ->]|Hin]; [done|]. apply (Hno k' x). apply elem_of_app. by right.
    + rewrite fmap_app. apply NoDup_app. split_and!; [done| |done]. intros y Hy1 Hy2. apply (Hn2 y Hy1). by right.
    + rewrite Hw, map_app in Hid. cbn in Hid. rewrite map_app. apply NoDup_app in Hid as (Hi1 & Hi2 & [_ Hi4]%NoDup_cons).
      apply NoDup_app. split_and!; [done| |done]. intros y Hy1 Hy2. apply (Hi2 y Hy1). by right.
    + intros k' x Hin. by apply Hze, Hsub.
  - destruct Hfind as [Hno ->]. unfold may_unpark in Hm. rewrite Hno, orb_false_r in Hm. apply negb_true_iff, Z.eqb_neq in Hm.
    rewrite (find_none _ _ _ Hs Hno Hm). split; [done|]. by destruct t.
Qed.

Lemma t_unpark_miss t t' f : t_unpark t f = (None, t') -> t' = t.
Proof.
  unfold t_unpark. pose proof (find_remove1 (is_frame f) (waiting t)) as Hf. destruct (List.find _ (waiting t)); [done|]. destruct Hf as [_ ->].
  intros [= <-]. by destruct t.
Qed.
