(* ===== verification/IspChain.v ===== *)
(** * The image processing chain (examples/isp_pipeline/isp_chain.hpp)

    Gain nodes, the fusion of their outputs, and the two nodes behind it, over the
    frame store of [Ddr.v].  Events a node submits are returned, in order;
    whether the pool has a block, and whether the node-done channel ([Worker.v])
    takes a request, are arguments.  The printed and logged lines are left out. *)

From S2P Require Import Prelude Hsm Mem Ddr Parking.

(** ** Vocabulary *)

Definition kFrameIrscOut : Z := 11.
Definition kLowGainDone : Z := 12.
Definition kHighGainDone : Z := 13.
Definition kHlFused : Z := 14.
Definition kIspNodeDone : Z := 27.
Definition kEnhanceDonePic : Z := 31.
Definition kEnhanceDoneTemp : Z := 32.
Definition kIspFifoOvf : Z := 35.

Definition kDdrDn : Z := 0.
Definition kDdrLowGain : Z := 1.
Definition kDdrHighGain : Z := 2.
Definition kDdrFused : Z := 3.
Definition kDdrTemp : Z := 4.
Definition kDdrPicOut : Z := 5.
Definition kDdrTempOut : Z := 6.

Definition hl_fuse_us : Z := 200.

(** A submitted event: signal, descriptor, and the payload's region and slot. *)
Record out_event := mkOut { o_sig : Z; o_meta : IoMeta; o_region : Z; o_slot : Z }.

Definition with_buffer (m : IoMeta) (b : Z) : IoMeta :=
  mkMeta (reply_to m) (frame_id m) (m_width m) (m_height m) (m_cmd_arg m) (m_flags m) (timestamp_ns m) (payload_kind m) b (m_result m).
Definition with_kind (m : IoMeta) (k : Z) : IoMeta :=
  mkMeta (reply_to m) (frame_id m) (m_width m) (m_height m) (m_cmd_arg m) (m_flags m) (timestamp_ns m) k (buffer_idx m) (m_result m).

(** ** Gain nodes *)

Definition LowGainPolicy (dn : Z) : Z := Z.land (dn * 3 / 4) 0xFF.
Definition HighGainPolicy (dn : Z) : Z := Z.land (dn * 5 / 4) 0xFF.

Record GainNodeCtx := mkGain { g_out_region : Z; g_done_signal : Z; g_simulated_us : Z; g_frames_handled : Z; g_total_us : Z }.

Definition gain_process (apply : Z -> Z) (c : GainNodeCtx) (d : DdrCtx) (m : IoMeta) (pool : bool)
    : outcome (bool * GainNodeCtx * DdrCtx * list out_event) :=
  let f := frame_id m in
  let dn := fill_dn f in
  '(_, d) ← ddr_write d kDdrDn f dn;
  '(rd, d) ← ddr_read d kDdrDn (dn_slot_of f) f;
  let c := mkGain (g_out_region c) (g_done_signal c) (g_simulated_us c) (u32 (g_frames_handled c + 1)) (u32 (g_total_us c + g_simulated_us c)) in
  let out := map apply (match rd with Some i => i | None => dn end) in
  '(slot, d) ← ddr_write d (g_out_region c) f out;
  if negb pool then mret (false, c, d, [])
  else mret (true, c, d, [mkOut (g_done_signal c) (with_buffer m slot) (g_out_region c) slot]).

(** ** Fusion *)

Record HlSlot := mkHl { h_valid : bool; h_frame_id : Z; h_ddr_slot : Z }.
Definition hl_slot0 : HlSlot := mkHl false 0 0.

Record HlCtx := mkHlCtx { hl_low : HlSlot; hl_high : HlSlot; frames_fused : Z; hl_total_us : Z }.
Definition hl0 : HlCtx := mkHlCtx hl_slot0 hl_slot0 0 0.

Definition blend (lg hg : Z) : Z := u8 ((2 * lg + 3 * hg) / 5).

(** The fused frame's two events differ in the path flag. *)
Definition fused_event (f flags slot : Z) : out_event :=
  mkOut kHlFused (mkMeta 0 f 640 512 0 flags 0 0 slot 0) kDdrFused slot.

Definition maybe_fuse (c : HlCtx) (d : DdrCtx) (pool1 pool2 : bool) : outcome (HlCtx * DdrCtx * list out_event) :=
  let lo := hl_low c in
  let hi := hl_high c in
  if negb (h_valid lo) || negb (h_valid hi) then mret (c, d, [])
  else if negb (h_frame_id lo =? h_frame_id hi) then mret (c, d, [])
  else
    '(lg, d) ← ddr_read d kDdrLowGain (h_ddr_slot lo) (h_frame_id lo);
    '(hg, d) ← ddr_read d kDdrHighGain (h_ddr_slot hi) (h_frame_id hi);
    let lg := match lg with Some x => x | None => fill_dn (h_frame_id lo) end in
    let hg := match hg with Some x => x | None => fill_dn (h_frame_id hi) end in
    '(slot, d) ← ddr_write d kDdrFused (h_frame_id lo) (zip_with blend lg hg);
    mret (mkHlCtx hl_slot0 hl_slot0 (u32 (frames_fused c + 1)) (u32 (hl_total_us c + hl_fuse_us)), d,
          (if pool1 : bool then [fused_event (h_frame_id lo) 0 slot] else []) ++ (if pool2 : bool then [fused_event (h_frame_id lo) 1 slot] else [])).

Definition onLowGainDone (c : HlCtx) (d : DdrCtx) (m : IoMeta) (pool1 pool2 : bool) : outcome (HlCtx * DdrCtx * list out_event) :=
  maybe_fuse (mkHlCtx (mkHl true (frame_id m) (u16 (buffer_idx m))) (hl_high c) (frames_fused c) (hl_total_us c)) d pool1 pool2.
Definition onHighGainDone (c : HlCtx) (d : DdrCtx) (m : IoMeta) (pool1 pool2 : bool) : outcome (HlCtx * DdrCtx * list out_event) :=
  maybe_fuse (mkHlCtx (hl_low c) (mkHl true (frame_id m) (u16 (buffer_idx m))) (frames_fused c) (hl_total_us c)) d pool1 pool2.

(** ** The nodes behind the fusion *)

Definition EnhancePolicy (x : Z) : Z := Z.land (x * 6 / 5) 0xFF.
Definition TempPolicy (x : Z) : Z := Z.land (x / 2 + 32) 0xFF.

Record FusedNodeCtx := mkFused {
  f_out_region : Z; f_done_signal : Z; path_flag : Z; f_payload_kind : Z; f_simulated_us : Z; f_frames_handled : Z; f_total_us : Z;
  node_id : Z; irq_subs : Z; irq_rejects : Z; irq_done_count : Z; f_ring : parking; irq_stale : Z; fifo_ovf : Z; fifo_ovf_drops : Z
}.

Definition ours (c : FusedNodeCtx) (m : IoMeta) : bool := Z.land (m_flags m) 1 =? path_flag c.

Definition fused_process (apply : Z -> Z) (c : FusedNodeCtx) (d : DdrCtx) (m : IoMeta) : outcome (FusedNodeCtx * DdrCtx) :=
  if negb (ours c m) then mret (c, d)
  else
    '(rd, d) ← ddr_read d kDdrFused (u16 (buffer_idx m)) (frame_id m);
    let fused := match rd with Some x => x | None => fill_dn (frame_id m) end in
    let c := mkFused (f_out_region c) (f_done_signal c) (path_flag c) (f_payload_kind c) (f_simulated_us c) (u32 (f_frames_handled c + 1))
               (u32 (f_total_us c + f_simulated_us c)) (node_id c) (irq_subs c) (irq_rejects c) (irq_done_count c) (f_ring c) (irq_stale c)
               (fifo_ovf c) (fifo_ovf_drops c) in
    '(_, d) ← ddr_write d (f_out_region c) (frame_id m) (map apply fused);
    mret (c, d).

Definition set_irq (c : FusedNodeCtx) (subs rejects done_ stale : Z) (r : parking) : FusedNodeCtx :=
  mkFused (f_out_region c) (f_done_signal c) (path_flag c) (f_payload_kind c) (f_simulated_us c) (f_frames_handled c) (f_total_us c) (node_id c)
    subs rejects done_ r stale (fifo_ovf c) (fifo_ovf_drops c).

(** The completion of a frame the channel did not take, to the node itself. *)
Definition self_complete (c : FusedNodeCtx) (f : Z) (pool : bool) : list out_event :=
  if pool then [mkOut kIspNodeDone (mkMeta 0 f 640 512 (u16 (node_id c)) 0 0 0 0 0) 0xFF 0xFF] else [].

Definition request_irq (c : FusedNodeCtx) (m : IoMeta) (taken pool : bool) : outcome (FusedNodeCtx * list out_event) :=
  if negb (ours c m) then mret (c, [])
  else if taken then
    r ← park (f_ring c) m;
    mret (set_irq c (u32 (irq_subs c + 1)) (irq_rejects c) (irq_done_count c) (irq_stale c) r, [])
  else
    let c := set_irq c (irq_subs c) (u32 (irq_rejects c + 1)) (irq_done_count c) (irq_stale c) (f_ring c) in
    mret (c, self_complete c (frame_id m) pool).

Definition complete_irq (c : FusedNodeCtx) (m : IoMeta) (pool : bool) : FusedNodeCtx * list out_event :=
  match unpark (f_ring c) (frame_id m) with
  | (None, _) => (set_irq c (irq_subs c) (irq_rejects c) (irq_done_count c) (u32 (irq_stale c + 1)) (f_ring c), [])
  | (Some hit, r) =>
    if negb pool then (set_irq c (irq_subs c) (u32 (irq_rejects c + 1)) (irq_done_count c) (irq_stale c) r, [])
    else (set_irq c (irq_subs c) (irq_rejects c) (u32 (irq_done_count c + 1)) (irq_stale c) r,
          [mkOut (f_done_signal c) (with_kind hit (f_payload_kind c)) (f_out_region c) (u16 (buffer_idx hit))])
  end.

Definition handle (apply : Z -> Z) (c : FusedNodeCtx) (d : DdrCtx) (m : IoMeta) (taken pool : bool) : outcome (FusedNodeCtx * DdrCtx * list out_event) :=
  '(c, d) ← fused_process apply c d m;
  '(c, out) ← request_irq c m taken pool;
  mret (c, d, out).

Definition handle_fifo_ovf (c : FusedNodeCtx) (m : IoMeta) : FusedNodeCtx :=
  let r := (unpark (f_ring c) (frame_id m)).2 in
  mkFused (f_out_region c) (f_done_signal c) (path_flag c) (f_payload_kind c) (f_simulated_us c) (f_frames_handled c) (f_total_us c) (node_id c)
    (irq_subs c) (irq_rejects c) (irq_done_count c) r (irq_stale c) (u32 (fifo_ovf c + 1)) (u32 (fifo_ovf_drops c + 1)).

(** ** The node objects *)

Record nevent := mkNev { n_sig : Z; n_meta : IoMeta }.

(** The context of a dispatch: the answers it will get, what it submitted, and
    whether an access left an array. *)
Record NodeAo := mkNode { fn : FusedNodeCtx; n_ddr : DdrCtx; n_taken : bool; n_pool : bool; n_out : list out_event; n_fatal : bool }.

Definition on_fused (apply : Z -> Z) (a : NodeAo) (e : nevent) : NodeAo :=
  match handle apply (fn a) (n_ddr a) (n_meta e) (n_taken a) (n_pool a) with
  | Ret (c, d, out) => mkNode c d (n_taken a) (n_pool a) (n_out a ++ out) (n_fatal a)
  | Fatal => mkNode (fn a) (n_ddr a) (n_taken a) (n_pool a) (n_out a) true
  end.
Definition on_node_done (a : NodeAo) (e : nevent) : NodeAo :=
  let '(c, out) := complete_irq (fn a) (n_meta e) (n_pool a) in mkNode c (n_ddr a) (n_taken a) (n_pool a) (n_out a ++ out) (n_fatal a).
Definition on_fifo_ovf (a : NodeAo) (e : nevent) : NodeAo :=
  mkNode (handle_fifo_ovf (fn a) (n_meta e)) (n_ddr a) (n_taken a) (n_pool a) (n_out a) (n_fatal a).

Definition kFusedRoot : Z := 0.
Definition kFusedActive : Z := 1.
Definition kFusedIrqPending : Z := 2.

Definition kFusedStates : list (StateDef NodeAo) :=
  [mkState (-1) None None (-1); mkState kFusedRoot None None (-1); mkState kFusedRoot None None (-1)].

Definition is_pic_path (_ : NodeAo) (e : nevent) : bool := Z.land (m_flags (n_meta e)) 1 =? 0.
Definition is_temp_path (_ : NodeAo) (e : nevent) : bool := negb (Z.land (m_flags (n_meta e)) 1 =? 0).

Definition kEnhanceTransitions : list (TransitionDef NodeAo nevent) :=
  [mkTrans kFusedActive kHlFused kFusedIrqPending External (Some is_pic_path) (Some (on_fused EnhancePolicy));
   mkTrans kFusedIrqPending kHlFused kFusedIrqPending Internal (Some is_pic_path) (Some (on_fused EnhancePolicy));
   mkTrans kFusedActive kHlFused kFusedActive Internal (Some is_temp_path) None;
   mkTrans kFusedIrqPending kHlFused kFusedIrqPending Internal (Some is_temp_path) None;
   mkTrans kFusedIrqPending kIspNodeDone kFusedActive External None (Some on_node_done);
   mkTrans kFusedActive kIspNodeDone kFusedActive Internal None (Some on_node_done);
   mkTrans kFusedIrqPending kIspFifoOvf kFusedIrqPending Internal None (Some on_fifo_ovf);
   mkTrans kFusedActive kIspFifoOvf kFusedActive Internal None (Some on_fifo_ovf)].

Definition kTempTransitions : list (TransitionDef NodeAo nevent) :=
  [mkTrans kFusedActive kHlFused kFusedIrqPending External (Some is_temp_path) (Some (on_fused TempPolicy));
   mkTrans kFusedIrqPending kHlFused kFusedIrqPending Internal (Some is_temp_path) (Some (on_fused TempPolicy));
   mkTrans kFusedActive kHlFused kFusedActive Internal (Some is_pic_path) None;
   mkTrans kFusedIrqPending kHlFused kFusedIrqPending Internal (Some is_pic_path) None;
   mkTrans kFusedIrqPending kIspNodeDone kFusedActive External None (Some on_node_done);
   mkTrans kFusedActive kIspNodeDone kFusedActive Internal None (Some on_node_done);
   mkTrans kFusedIrqPending kIspFifoOvf kFusedIrqPending Internal None (Some on_fifo_ovf);
   mkTrans kFusedActive kIspFifoOvf kFusedActive Internal None (Some on_fifo_ovf)].

(** The two objects as [main] binds them. *)
Definition enhance_ctx0 : FusedNodeCtx := mkFused kDdrPicOut kEnhanceDonePic 0 1 300 0 0 0 0 0 0 parking0 0 0 0.
Definition tpd_ctx0 : FusedNodeCtx := mkFused kDdrTemp kEnhanceDoneTemp 1 2 500 0 0 1 0 0 0 parking0 0 0 0.
Definition enhance_machine (s : Z) : Hsm NodeAo nevent := mkHsm kFusedStates kEnhanceTransitions kFusedActive 2 s.
Definition tpd_machine (s : Z) : Hsm NodeAo nevent := mkHsm kFusedStates kTempTransitions kFusedActive 2 s.
Definition low_ctx0 : GainNodeCtx := mkGain kDdrLowGain kLowGainDone 400 0 0.
Definition high_ctx0 : GainNodeCtx := mkGain kDdrHighGain kHighGainDone 600 0 0.
