(* ===== verification/IspChainSpec.v ===== *)
(** * The chain's pixels and its waiting frames (examples/isp_pipeline/isp_chain.hpp) *)

From S2P Require Import Prelude Hsm Mem Ddr Ddr Parking IspChain.

(** ** What a region may hold *)

Definition low_of (f : Z) : list Z := map LowGainPolicy (fill_dn f).
Definition high_of (f : Z) : list Z := map HighGainPolicy (fill_dn f).
Definition fused_of (f : Z) : list Z := zip_with blend (low_of f) (high_of f).

(** A node that finds its input overwritten works on the synthetic frame instead. *)
Definition fused_allowed (f : Z) (p : list Z) : Prop :=
  exists x y, (x = low_of f \/ x = fill_dn f) /\ (y = high_of f \/ y = fill_dn f) /\ p = zip_with blend x y.
Definition out_allowed (apply : Z -> Z) (f : Z) (p : list Z) : Prop := exists z, (z = fill_dn f \/ fused_allowed f z) /\ p = map apply z.

Definition allowed (id f : Z) (p : list Z) : Prop :=
  match id with
  | 0 => p = fill_dn f
  | 1 => p = low_of f
  | 2 => p = high_of f
  | 3 => fused_allowed f p
  | 4 => out_allowed TempPolicy f p
  | 5 => out_allowed EnhancePolicy f p
  | _ => False
  end.

Definition clean (s : latest) : Prop := forall id k f p, s id k = Some (f, p) -> allowed id f p.

(** ** The store under the nodes *)

Lemma fill_length f : length (fill_dn f) = 56%nat.
Proof. unfold fill_dn. by rewrite length_map, length_seq. Qed.

Lemma get_length s d id f p : ddr_inv s d -> 0 <= id < 7 -> in_u 32 f -> get s id f = Some p -> length p = 56%nat.
Proof.
  intros (_ & _ & Hr) Hid Hf Hg. destruct (Hr id Hid) as (r & _ & Hro). destruct (slot_range f Hf) as [_ Hk].
  destruct (Hro _ Hk) as (mem & g & o & _ & _ & _ & _ & Hok). unfold get in Hg. destruct (s id (f mod 8)) as [[g' q]|]; [|done].
  destruct (g' =? f); [|done]. injection Hg as <-. by destruct Hok as (_ & _ & ? & _).
Qed.

Lemma get_put s id f src : length src = 56%nat -> get (put s id f src) id f = Some src.
Proof. intros Hl. unfold get, put. rewrite !Z.eqb_refl. cbn [andb]. by rewrite Z.eqb_refl, firstn_all2 by lia. Qed.

Lemma get_put_ne s id id' f src : id' <> id -> get (put s id f src) id' f = get s id' f.
Proof. intros Hne. unfold get, put. by rewrite (proj2 (Z.eqb_neq id' id)). Qed.

Lemma clean_put s id f src : clean s -> length src = 56%nat -> allowed id f src -> clean (put s id f src).
Proof.
  intros Hc Hl Ha i k g p. unfold put. destruct ((i =? id) && (k =? f mod 8)) eqn:E; [|apply Hc]. apply andb_true_iff in E as [->%Z.eqb_eq _].
  rewrite firstn_all2 by lia. by intros [= <- <-].
Qed.

Lemma clean_get s id f p : clean s -> get s id f = Some p -> allowed id f p.
Proof.
  intros Hc. unfold get. destruct (s id (f mod 8)) as [[g q]|] eqn:E; [|done]. destruct (Z.eqb_spec g f) as [->|]; [|done]. intros [= <-]. by eapply Hc.
Qed.

(** The input a node works on. *)
Definition input (s : latest) (id f : Z) : list Z := match get s id f with Some p => p | None => fill_dn f end.

Lemma input_length s d id f : ddr_inv s d -> 0 <= id < 7 -> in_u 32 f -> length (input s id f) = 56%nat.
Proof. intros Hi Hid Hf. unfold input. destruct (get s id f) eqn:E; [by eapply get_length|apply fill_length]. Qed.

Lemma input_or s id f x : clean s -> (forall p, allowed id f p = (p = x)) -> input s id f = x \/ input s id f = fill_dn f.
Proof.
  intros Hc Ha. unfold input. destruct (get s id f) as [p|] eqn:E; [|by right]. apply (clean_get _ _ _ _ Hc) in E. rewrite Ha in E. by left.
Qed.

Lemma gain_keeps apply c s d m pool :
  ddr_inv s d -> 0 <= g_out_region c < 7 -> in_u 32 (frame_id m) ->
  let f := frame_id m in
  exists c' d' out, gain_process apply c d m pool = Ret (pool, c', d', out) /\ g_out_region c' = g_out_region c /\
    ddr_inv (put (put s kDdrDn f (fill_dn f)) (g_out_region c) f (map apply (fill_dn f))) d' /\
    out = if pool then [mkOut (g_done_signal c) (with_buffer m (f mod 8)) (g_out_region c) (f mod 8)] else [].
Proof.
  intros Hi Hr Hf f. unfold gain_process. fold f. destruct (write_keeps s d kDdrDn f (fill_dn f) Hi) as (d1 & -> & Hi1); [done|done|rewrite fill_length; lia|].
  cbn [mbind outcome_bind]. destruct (read_keeps _ d1 kDdrDn f Hi1) as (d2 & -> & Hi2); [done|done|]. cbn [mbind outcome_bind].
  rewrite get_put by apply fill_length. cbn [g_out_region].
  destruct (write_keeps _ d2 (g_out_region c) f (map apply (fill_dn f)) Hi2 Hr Hf) as (d3 & -> & Hi3); [rewrite length_map, fill_length; lia|].
  cbn [mbind outcome_bind]. destruct pool; (eexists _, d3, _; split; [reflexivity|]; split; [done|]; split; [exact Hi3|done]).
Qed.

Lemma fuse_keeps c s d f p1 p2 :
  ddr_inv s d -> in_u 32 f -> hl_low c = mkHl true f (f mod 8) -> hl_high c = mkHl true f (f mod 8) ->
  exists d' out, maybe_fuse c d p1 p2 = Ret (mkHlCtx hl_slot0 hl_slot0 (u32 (frames_fused c + 1)) (u32 (hl_total_us c + hl_fuse_us)), d', out) /\
    ddr_inv (put s kDdrFused f (zip_with blend (input s kDdrLowGain f) (input s kDdrHighGain f))) d'.
Proof.
  intros Hi Hf Hlo Hhi. unfold maybe_fuse. rewrite Hlo, Hhi. cbn [h_valid negb orb h_frame_id h_ddr_slot]. rewrite Z.eqb_refl. cbn [negb].
  destruct (slot_range f Hf) as [Hslot _]. rewrite <- Hslot.
  destruct (read_keeps s d kDdrLowGain f Hi) as (d1 & -> & Hi1); [done|done|]. cbn [mbind outcome_bind].
  destruct (read_keeps s d1 kDdrHighGain f Hi1) as (d2 & -> & Hi2); [done|done|]. cbn [mbind outcome_bind]. fold (input s kDdrLowGain f) (input s kDdrHighGain f).
  destruct (write_keeps s d2 kDdrFused f (zip_with blend (input s kDdrLowGain f) (input s kDdrHighGain f)) Hi2) as (d3 & -> & Hi3); [done|done| |].
  { rewrite length_zip_with, !(input_length s d) by done. lia. }
  cbn [mbind outcome_bind]. eexists d3, _. split; [reflexivity|exact Hi3].
Qed.

Lemma fused_keeps apply c s d m :
  ddr_inv s d -> 0 <= f_out_region c < 7 -> in_u 32 (frame_id m) -> buffer_idx m = frame_id m mod 8 ->
  let f := frame_id m in
  exists c' d', fused_process apply c d m = Ret (c', d') /\ f_out_region c' = f_out_region c /\ f_ring c' = f_ring c /\ path_flag c' = path_flag c /\
    f_done_signal c' = f_done_signal c /\ f_payload_kind c' = f_payload_kind c /\ node_id c' = node_id c /\
    ddr_inv (if ours c m then put s (f_out_region c) f (map apply (input s kDdrFused f)) else s) d'.
Proof.
  intros Hi Hr Hf Hb f. unfold fused_process. destruct (ours c m); cbn [negb]; [|by exists c, d]. destruct (slot_range _ Hf) as [Hslot Hk].
  rewrite Hb, (wrap_small 16) by (unfold in_u; lia). rewrite <- Hslot. fold f. destruct (read_keeps s d kDdrFused f Hi) as (d1 & -> & Hi1); [done|done|].
  cbn [mbind outcome_bind]. fold (input s kDdrFused f). cbn [f_out_region].
  destruct (write_keeps s d1 (f_out_region c) f (map apply (input s kDdrFused f)) Hi1 Hr Hf) as (d2 & -> & Hi2).
  { rewrite length_map, (input_length s d) by done. lia. }
  cbn [mbind outcome_bind]. eexists _, d2. split; [reflexivity|]. by split_and!.
Qed.

(** ** The chain *)

Record chain := mkChain { c_ddr : DdrCtx; c_hl : HlCtx; c_low : GainNodeCtx; c_high : GainNodeCtx; c_enh : FusedNodeCtx; c_tpd : FusedNodeCtx }.

Definition chain0 : chain := mkChain ddr0 hl0 low_ctx0 high_ctx0 enhance_ctx0 tpd_ctx0.

(** What the dispatcher may run next; the booleans are the pool's and the channel's answers. *)
Inductive cop :=
| CLow (m : IoMeta) (pool : bool) | CHigh (m : IoMeta) (pool : bool)
| CFuseLow (m : IoMeta) (p1 p2 : bool) | CFuseHigh (m : IoMeta) (p1 p2 : bool)
| CEnh (m : IoMeta) (taken pool : bool) | CTpd (m : IoMeta) (taken pool : bool)
| CEnhDone (m : IoMeta) (pool : bool) | CTpdDone (m : IoMeta) (pool : bool).

Definition chain_step (c : chain) (o : cop) : outcome chain :=
  match o with
  | CLow m pool =>
    '(_, g, d, _) ← gain_process LowGainPolicy (c_low c) (c_ddr c) m pool; mret (mkChain d (c_hl c) g (c_high c) (c_enh c) (c_tpd c))
  | CHigh m pool =>
    '(_, g, d, _) ← gain_process HighGainPolicy (c_high c) (c_ddr c) m pool; mret (mkChain d (c_hl c) (c_low c) g (c_enh c) (c_tpd c))
  | CFuseLow m p1 p2 => '(h, d, _) ← onLowGainDone (c_hl c) (c_ddr c) m p1 p2; mret (mkChain d h (c_low c) (c_high c) (c_enh c) (c_tpd c))
  | CFuseHigh m p1 p2 => '(h, d, _) ← onHighGainDone (c_hl c) (c_ddr c) m p1 p2; mret (mkChain d h (c_low c) (c_high c) (c_enh c) (c_tpd c))
  | CEnh m taken pool =>
    '(n, d, _) ← handle EnhancePolicy (c_enh c) (c_ddr c) m taken pool; mret (mkChain d (c_hl c) (c_low c) (c_high c) n (c_tpd c))
  | CTpd m taken pool => '(n, d, _) ← handle TempPolicy (c_tpd c) (c_ddr c) m taken pool; mret (mkChain d (c_hl c) (c_low c) (c_high c) (c_enh c) n)
  | CEnhDone m pool => mret (mkChain (c_ddr c) (c_hl c) (c_low c) (c_high c) (complete_irq (c_enh c) m pool).1 (c_tpd c))
  | CTpdDone m pool => mret (mkChain (c_ddr c) (c_hl c) (c_low c) (c_high c) (c_enh c) (complete_irq (c_tpd c) m pool).1)
  end.

Fixpoint chain_run (c : chain) (ops : list cop) : outcome chain :=
  match ops with [] => mret c | o :: ops => c ← chain_step c o; chain_run c ops end.

(** A descriptor names a frame and, past the gain nodes, the frame's own slot. *)
Definition placed (m : IoMeta) : Prop := in_u 32 (frame_id m) /\ buffer_idx m = frame_id m mod 8.
Definition cop_ok (o : cop) : Prop :=
  match o with
  | CLow m _ | CHigh m _ | CEnhDone m _ | CTpdDone m _ => in_u 32 (frame_id m)
  | CFuseLow m _ _ | CFuseHigh m _ _ | CEnh m _ _ | CTpd m _ _ => placed m
  end.

(** ** The invariant *)

Definition ring_ok (r : parking) : Prop := length (parked r) = 4%nat /\ 0 <= park_head r < 4.
Definition half_ok (h : HlSlot) : Prop := h_valid h = true -> in_u 32 (h_frame_id h) /\ h_ddr_slot h = h_frame_id h mod 8.

Record chain_inv (s : latest) (c : chain) : Prop := {
  ci_ddr : ddr_inv s (c_ddr c); ci_clean : clean s;
  ci_low : half_ok (hl_low (c_hl c)); ci_high : half_ok (hl_high (c_hl c));
  ci_regions : g_out_region (c_low c) = kDdrLowGain /\ g_out_region (c_high c) = kDdrHighGain /\
               f_out_region (c_enh c) = kDdrPicOut /\ f_out_region (c_tpd c) = kDdrTemp;
  ci_paths : path_flag (c_enh c) = 0 /\ path_flag (c_tpd c) = 1;
  ci_rings : ring_ok (f_ring (c_enh c)) /\ ring_ok (f_ring (c_tpd c))
}.

Lemma chain_inv0 : chain_inv (fun _ _ => None) chain0.
Proof. split; try done. apply ddr_inv0. Qed.

Lemma park_ok r m : ring_ok r -> exists r', park r m = Ret r' /\ ring_ok r'.
Proof.
  intros [Hl Hh]. unfold park. destruct (lookup_lt_is_Some_2 (parked r) (Z.to_nat (park_head r))) as [x ->]; [lia|]. eexists. split; [reflexivity|].
  split; cbn; [by rewrite length_insert|]. unfold kParkDepth. pose proof (Z.mod_pos_bound (park_head r + 1) 4 ltac:(lia)).
  rewrite wrap_small by (unfold in_u; lia). lia.
Qed.

Lemma unpark_ok r f : ring_ok r -> ring_ok (unpark r f).2.
Proof. intros [Hl Hh]. unfold unpark. destruct (find_idx _ _); [|done]. split; cbn; [by rewrite length_insert|done]. Qed.

Lemma request_ok c m taken pool :
  ring_ok (f_ring c) -> exists c' out, request_irq c m taken pool = Ret (c', out) /\ ring_ok (f_ring c') /\ f_out_region c' = f_out_region c /\ path_flag c' = path_flag c.
Proof.
  intros Hr. unfold request_irq. destruct (ours c m); cbn [negb]; [|by exists c, []]. destruct taken; [|by eexists _, _].
  destruct (park_ok (f_ring c) m Hr) as (r' & -> & Hr'). cbn [mbind outcome_bind]. by eexists _, _.
Qed.

Lemma complete_ok c m pool :
  ring_ok (f_ring c) -> ring_ok (f_ring (complete_irq c m pool).1) /\ f_out_region (complete_irq c m pool).1 = f_out_region c /\
  path_flag (complete_irq c m pool).1 = path_flag c.
Proof.
  intros Hr. pose proof (unpark_ok _ (frame_id m) Hr) as Hu. unfold complete_irq. destruct (unpark (f_ring c) (frame_id m)) as [[hit|] r]; [|done].
  by destruct pool.
Qed.

(** ** Steps *)

Lemma fuse_step s c h p1 p2 :
  chain_inv s c -> half_ok (hl_low h) -> half_ok (hl_high h) ->
  exists s' h' d', (exists out, maybe_fuse h (c_ddr c) p1 p2 = Ret (h', d', out)) /\ chain_inv s' (mkChain d' h' (c_low c) (c_high c) (c_enh c) (c_tpd c)).
Proof.
  intros [Hd Hc Hl Hh Hrg Hp Hri] Hlo Hhi.
  assert (Hno : exists s' h' d', (exists out : list out_event, Ret (h, c_ddr c, []) = Ret (h', d', out)) /\ chain_inv s' (mkChain d' h' (c_low c) (c_high c) (c_enh c) (c_tpd c))).
  { exists s, h, (c_ddr c). split; [by eexists|]. by split. }
  destruct h as [[lv lf ls] [hv hf hs] n t]. cbn [hl_low hl_high] in *. unfold half_ok in Hlo, Hhi. cbn in Hlo, Hhi.
  destruct lv, hv; try exact Hno. destruct (Z.eq_dec lf hf) as [<-|Hne].
  - destruct (Hlo eq_refl) as [Hf ->], (Hhi eq_refl) as [_ ->].
    destruct (fuse_keeps (mkHlCtx (mkHl true lf (lf mod 8)) (mkHl true lf (lf mod 8)) n t) s (c_ddr c) lf p1 p2 Hd Hf eq_refl eq_refl) as (d' & out & He & Hd').
    eexists _, _, d'. split; [eexists; exact He|]. split; cbn; try done. apply clean_put; [done| |].
    + rewrite length_zip_with, !(input_length s (c_ddr c)) by done. done.
    + exists (input s kDdrLowGain lf), (input s kDdrHighGain lf). split_and!; [apply (input_or s kDdrLowGain lf _ Hc (fun _ => eq_refl))|apply (input_or s kDdrHighGain lf _ Hc (fun _ => eq_refl))|done].
  - assert (Hm : maybe_fuse (mkHlCtx (mkHl true lf ls) (mkHl true hf hs) n t) (c_ddr c) p1 p2 = Ret (mkHlCtx (mkHl true lf ls) (mkHl true hf hs) n t, c_ddr c, [])).
    { unfold maybe_fuse. cbn. by rewrite (proj2 (Z.eqb_neq lf hf)). }
    rewrite Hm. exact Hno.
Qed.

Lemma node_step apply s c n m taken pool :
  chain_inv s c -> ring_ok (f_ring n) -> 0 <= f_out_region n < 7 -> placed m -> (forall p, out_allowed apply (frame_id m) p -> allowed (f_out_region n) (frame_id m) p) ->
  exists s' n' d', (exists out, handle apply n (c_ddr c) m taken pool = Ret (n', d', out)) /\ ddr_inv s' d' /\ clean s' /\ ring_ok (f_ring n') /\
    f_out_region n' = f_out_region n /\ path_flag n' = path_flag n.
Proof.
  intros Hi Hr Hreg [Hf Hb] Hall. unfold handle. destruct (fused_keeps apply n s (c_ddr c) m (ci_ddr _ _ Hi) Hreg Hf Hb) as (n1 & d1 & -> & H1 & H2 & H3 & _ & _ & _ & Hd).
  cbn [mbind outcome_bind]. destruct (request_ok n1 m taken pool) as (n2 & out & -> & Hr2 & H4 & H5); [by rewrite H2|]. cbn [mbind outcome_bind].
  eexists _, n2, d1. split; [by eexists|]. split; [exact Hd|]. split_and!; [|done|congruence|congruence]. destruct (ours n m); [|apply Hi].
  apply clean_put; [apply Hi|rewrite length_map, (input_length s (c_ddr c)); try done; apply Hi|]. apply Hall. eexists. split; [|reflexivity].
  unfold input. destruct (get s kDdrFused (frame_id m)) eqn:E; [|by left]. right. apply (clean_get _ _ _ _ (ci_clean _ _ Hi)) in E. exact E.
Qed.

Lemma chain_step_ok s c o : chain_inv s c -> cop_ok o -> exists s' c', chain_step c o = Ret c' /\ chain_inv s' c'.
Proof.
  intros Hi Ho. pose proof Hi as [Hd Hc Hl Hh (R1 & R2 & R3 & R4) (P1 & P2) [K1 K2]].
  destruct o as [m pool|m pool|m p1 p2|m p1 p2|m taken pool|m taken pool|m pool|m pool]; cbn [chain_step cop_ok] in *.
  - destruct (gain_keeps LowGainPolicy (c_low c) s _ m pool Hd) as (g & d' & out & -> & Hg & Hd' & _); [rewrite R1; done|done|]. cbn [mbind outcome_bind].
    eexists _, _. split; [reflexivity|]. split; cbn; try done; [|by rewrite Hg].
    rewrite R1. apply clean_put; [apply clean_put; [done|apply fill_length|done]|by rewrite length_map, fill_length|done].
  - destruct (gain_keeps HighGainPolicy (c_high c) s _ m pool Hd) as (g & d' & out & -> & Hg & Hd' & _); [rewrite R2; done|done|]. cbn [mbind outcome_bind].
    eexists _, _. split; [reflexivity|]. split; cbn; try done; [|by rewrite Hg].
    rewrite R2. apply clean_put; [apply clean_put; [done|apply fill_length|done]|by rewrite length_map, fill_length|done].
  - unfold onLowGainDone. destruct Ho as [Hf Hb]. destruct (slot_range _ Hf) as [_ Hk].
    match goal with |- context [maybe_fuse ?h _ _ _] => destruct (fuse_step s c h p1 p2 Hi) as (s' & h' & d' & [out ->] & Hi') end; [|done|].
    { intros _. cbn. rewrite Hb, wrap_small by (unfold in_u; lia). done. }
    cbn [mbind outcome_bind]. by eexists _, _.
  - unfold onHighGainDone. destruct Ho as [Hf Hb]. destruct (slot_range _ Hf) as [_ Hk].
    match goal with |- context [maybe_fuse ?h _ _ _] => destruct (fuse_step s c h p1 p2 Hi) as (s' & h' & d' & [out ->] & Hi') end; [done| |].
    { intros _. cbn. rewrite Hb, wrap_small by (unfold in_u; lia). done. }
    cbn [mbind outcome_bind]. by eexists _, _.
  - destruct (node_step EnhancePolicy s c (c_enh c) m taken pool Hi K1) as (s' & n' & d' & [out ->] & Hd' & Hc' & Hk' & Hr' & Hp'); [rewrite R3; done|done|by rewrite R3|].
    cbn [mbind outcome_bind]. eexists s', _. split; [reflexivity|]. split; cbn; try done; [by rewrite Hr'|by rewrite Hp'].
  - destruct (node_step TempPolicy s c (c_tpd c) m taken pool Hi K2) as (s' & n' & d' & [out ->] & Hd' & Hc' & Hk' & Hr' & Hp'); [rewrite R4; done|done|by rewrite R4|].
    cbn [mbind outcome_bind]. eexists s', _. split; [reflexivity|]. split; cbn; try done; [by rewrite Hr'|by rewrite Hp'].
  - destruct (complete_ok (c_enh c) m pool K1) as (Hk & Hr & Hp). eexists s, _. split; [reflexivity|]. split; cbn; try done; [by rewrite Hr|by rewrite Hp].
  - destruct (complete_ok (c_tpd c) m pool K2) as (Hk & Hr & Hp). eexists s, _. split; [reflexivity|]. split; cbn; try done; [by rewrite Hr|by rewrite Hp].
Qed.

Lemma chain_run_ok s c ops : chain_inv s c -> Forall cop_ok ops -> exists s' c', chain_run c ops = Ret c' /\ chain_inv s' c'.
Proof.
  intros Hi Ho. revert s c Hi. induction Ho as [|o ops Ho _ IH]; intros s c Hi; [eauto|]. destruct (chain_step_ok s c o Hi Ho) as (s1 & c1 & H1 & Hi1).
  cbn [chain_run]. rewrite H1. apply (IH _ _ Hi1).
Qed.

(** ** A whole frame *)

Definition desc (f flags : Z) : IoMeta := mkMeta 0 f 640 512 0 flags 0 0 (f mod 8) 0.

(** The events of one frame, one after the other. *)
Definition gains (f : Z) : list cop := [CLow (desc f 0) true; CHigh (desc f 0) true].
Definition fusion (f : Z) : list cop := [CFuseLow (desc f 0) true true; CFuseHigh (desc f 0) true true].
Definition nodes (f : Z) (taken : bool) : list cop := [CEnh (desc f 0) taken true; CTpd (desc f 1) taken true].

Lemma desc_ok f flags : in_u 32 f -> placed (desc f flags).
Proof. done. Qed.

Lemma gains_pass s c f :
  chain_inv s c -> in_u 32 f ->
  exists s' c', chain_run c (gains f) = Ret c' /\ chain_inv s' c' /\ get s' kDdrLowGain f = Some (low_of f) /\ get s' kDdrHighGain f = Some (high_of f).
Proof.
  intros Hi Hf. pose proof Hi as [Hd Hc Hl Hh (R1 & R2 & R3 & R4) (P1 & P2) [K1 K2]]. cbn [gains chain_run chain_step].
  destruct (gain_keeps LowGainPolicy (c_low c) s _ (desc f 0) true Hd) as (g & d1 & o1 & -> & Hg & Hd1 & _); [rewrite R1; done|done|]. cbn [mbind outcome_bind mret outcome_ret c_high c_ddr].
  destruct (gain_keeps HighGainPolicy (c_high c) _ _ (desc f 0) true Hd1) as (g2 & d2 & o2 & -> & Hg2 & Hd2 & _); [rewrite R2; done|done|]. cbn [mbind outcome_bind mret outcome_ret].
  rewrite R1, R2 in Hd2. cbn [frame_id desc] in Hd2. fold (low_of f) (high_of f) in Hd2. eexists _, _. split; [reflexivity|].
  match type of Hd2 with ddr_inv ?x _ => instantiate (1 := x) end. assert (Hl56 : length (low_of f) = 56%nat /\ length (high_of f) = 56%nat) by (unfold low_of, high_of; by rewrite !length_map, fill_length).
  split; [|split; [rewrite 2!get_put_ne by done; apply get_put, Hl56|apply get_put, Hl56]].
  split; cbn; try done; [|by rewrite Hg, Hg2]. repeat apply clean_put; try done; (apply fill_length || apply Hl56).
Qed.

Lemma fusion_passes s c f :
  chain_inv s c -> in_u 32 f -> get s kDdrLowGain f = Some (low_of f) -> get s kDdrHighGain f = Some (high_of f) ->
  exists s' c', chain_run c (fusion f) = Ret c' /\ chain_inv s' c' /\ get s' kDdrFused f = Some (fused_of f).
Proof.
  intros Hi Hf Hgl Hgh. pose proof Hi as [Hd Hc Hl Hh Hrg Hp Hri]. destruct (slot_range f Hf) as [_ Hk].
  assert (Hin : zip_with blend (input s kDdrLowGain f) (input s kDdrHighGain f) = fused_of f) by (unfold input; by rewrite Hgl, Hgh).
  assert (Hlf : length (fused_of f) = 56%nat) by (unfold fused_of, low_of, high_of; by rewrite length_zip_with, !length_map, fill_length).
  assert (Hcl : clean (put s kDdrFused f (fused_of f))).
  { apply clean_put; [done..|]. exists (low_of f), (high_of f). split_and!; auto. }
  cbn [fusion chain_run chain_step]. unfold onLowGainDone, onHighGainDone. cbn [frame_id buffer_idx desc].
  rewrite (wrap_small 16 (f mod 8)) by (unfold in_u; lia). destruct c as [d [lo [hv hf hs] n t] cl ch ce ct]. cbn [c_hl c_ddr c_low c_high c_enh c_tpd hl_low hl_high frames_fused hl_total_us] in *.
  destruct (decide (hv = true /\ hf = f)) as [[-> ->]|Hno].
  - destruct (Hh eq_refl) as [_ Hs]. cbn in Hs. subst hs.
    destruct (fuse_keeps (mkHlCtx (mkHl true f (f mod 8)) (mkHl true f (f mod 8)) n t) s d f true true Hd Hf eq_refl eq_refl) as (d' & out & -> & Hd').
    cbn [mbind outcome_bind mret outcome_ret c_hl c_ddr c_low c_high c_enh c_tpd hl_low hl_high frames_fused hl_total_us]. unfold maybe_fuse at 1. cbn [hl_low hl_high h_valid hl_slot0 negb orb mbind outcome_bind mret outcome_ret].
    rewrite Hin in Hd'. eexists _, _. split; [reflexivity|]. split; [by split|]. by apply get_put.
  - assert (Hm : maybe_fuse (mkHlCtx (mkHl true f (f mod 8)) (mkHl hv hf hs) n t) d true true = Ret (mkHlCtx (mkHl true f (f mod 8)) (mkHl hv hf hs) n t, d, [])).
    { unfold maybe_fuse. cbn. destruct hv; [|done]. cbn. rewrite (proj2 (Z.eqb_neq f hf)); [done|naive_solver]. }
    rewrite Hm. cbn [mbind outcome_bind mret outcome_ret c_hl c_ddr c_low c_high c_enh c_tpd hl_low hl_high frames_fused hl_total_us].
    destruct (fuse_keeps (mkHlCtx (mkHl true f (f mod 8)) (mkHl true f (f mod 8)) n t) s d f true true Hd Hf eq_refl eq_refl) as (d' & out & -> & Hd').
    cbn [mbind outcome_bind mret outcome_ret]. rewrite Hin in Hd'. eexists _, _. split; [reflexivity|]. split; [by split|]. by apply get_put.
Qed.

Lemma nodes_pass s c f taken :
  chain_inv s c -> in_u 32 f -> get s kDdrFused f = Some (fused_of f) ->
  exists s' c', chain_run c (nodes f taken) = Ret c' /\ chain_inv s' c' /\ get s' kDdrPicOut f = Some (map EnhancePolicy (fused_of f)) /\
    get s' kDdrTemp f = Some (map TempPolicy (fused_of f)).
Proof.
  intros Hi Hf Hg. pose proof Hi as [Hd Hc Hl Hh (R1 & R2 & R3 & R4) (P1 & P2) [K1 K2]]. cbn [nodes chain_run chain_step]. unfold handle.
  assert (Hlf : length (fused_of f) = 56%nat) by (unfold fused_of, low_of, high_of; by rewrite length_zip_with, !length_map, fill_length).
  destruct (fused_keeps EnhancePolicy (c_enh c) s _ (desc f 0) Hd) as (n1 & d1 & -> & H1 & H2 & H3 & _ & _ & _ & Hd1); [by rewrite R3|done|done|].
  cbn [mbind outcome_bind mret outcome_ret]. destruct (request_ok n1 (desc f 0) taken true) as (n2 & out & -> & Hr2 & H4 & H5); [by rewrite H2|]. cbn [mbind outcome_bind mret outcome_ret c_tpd c_ddr].
  unfold ours in Hd1. rewrite P1 in Hd1. change (Z.land (m_flags (desc f 0)) 1 =? 0) with true in Hd1. rewrite R3 in Hd1. cbn [frame_id desc] in Hd1.
  unfold input in Hd1. rewrite Hg in Hd1. destruct (fused_keeps TempPolicy (c_tpd c) _ _ (desc f 1) Hd1) as (n3 & d3 & -> & H6 & H7 & H8 & _ & _ & _ & Hd3); [by rewrite R4|done|done|].
  cbn [mbind outcome_bind mret outcome_ret]. destruct (request_ok n3 (desc f 1) taken true) as (n4 & out4 & -> & Hr4 & H9 & H10); [by rewrite H7|]. cbn [mbind outcome_bind mret outcome_ret].
  unfold ours in Hd3. rewrite P2 in Hd3. change (Z.land (m_flags (desc f 1)) 1 =? 1) with true in Hd3. rewrite R4 in Hd3. cbn [frame_id desc] in Hd3.
  unfold input in Hd3. rewrite get_put_ne, Hg in Hd3 by done. eexists _, _. split; [reflexivity|].
  match type of Hd3 with ddr_inv ?x _ => instantiate (1 := x) end.
  split; [|split; [rewrite get_put_ne by done; apply get_put; by rewrite length_map|apply get_put; by rewrite length_map]].
  assert (Hfa : fused_allowed f (fused_of f)) by (exists (low_of f), (high_of f); split_and!; auto).
  split; cbn; try done; [|by rewrite H9, H6, H4, H1|by rewrite H10, H8, H5, H3].
  repeat apply clean_put; try done; rewrite ?length_map; try done; eexists; (split; [right; exact Hfa|done]).
Qed.

Lemma chain_run_app c a b : chain_run c (a ++ b) = c' ← chain_run c a; chain_run c' b.
Proof. revert c. induction a as [|o a IH]; intros c; [done|]. cbn [app chain_run]. destruct (chain_step c o); [apply IH|done]. Qed.

Lemma whole_frame s c f taken :
  chain_inv s c -> in_u 32 f ->
  exists s' c', chain_run c (gains f ++ fusion f ++ nodes f taken) = Ret c' /\ chain_inv s' c' /\ get s' kDdrPicOut f = Some (map EnhancePolicy (fused_of f)) /\
    get s' kDdrTemp f = Some (map TempPolicy (fused_of f)).
Proof.
  intros Hi Hf. destruct (gains_pass s c f Hi Hf) as (s1 & c1 & H1 & Hi1 & Gl & Gh). destruct (fusion_passes s1 c1 f Hi1 Hf Gl Gh) as (s2 & c2 & H2 & Hi2 & Gf).
  destruct (nodes_pass s2 c2 f taken Hi2 Hf Gf) as (s3 & c3 & H3 & Hi3 & Gp & Gt). exists s3, c3.
  rewrite chain_run_app, H1. cbn [mbind outcome_bind mret outcome_ret]. rewrite chain_run_app, H2. cbn [mbind outcome_bind mret outcome_ret]. done.
Qed.

(** No frame shows another frame's pixels.  Whatever order the dispatcher runs
    the nodes in, on whatever frames, with the pool and the channels answering
    anything: no access leaves an array, and the bytes a region gives out for a
    frame are that region's function of the same frame (with the synthetic frame
    in place of an input that was overwritten).  A frame that then passes all the
    nodes comes out exactly: blended from both gains and stretched for the
    picture, coded for the temperature. *)
Theorem chain_pixels (ops : list cop) :
  Forall cop_ok ops ->
  exists c, chain_run chain0 ops = Ret c /\
    (forall id f p d, 0 <= id < 7 -> in_u 32 f -> ddr_read (c_ddr c) id (dn_slot_of f) f = Ret (Some p, d) -> allowed id f p) /\
    (forall f taken, in_u 32 f -> exists c' d1 d2, chain_run c (gains f ++ fusion f ++ nodes f taken) = Ret c' /\
       ddr_read (c_ddr c') kDdrPicOut (dn_slot_of f) f = Ret (Some (map EnhancePolicy (fused_of f)), d1) /\
       ddr_read (c_ddr c') kDdrTemp (dn_slot_of f) f = Ret (Some (map TempPolicy (fused_of f)), d2)).
Proof.
  intros Hops. destruct (chain_run_ok _ _ ops chain_inv0 Hops) as (s & c & Hrun & Hi). exists c. split; [done|]. split.
  - intros id f p d Hid Hf Hr. destruct (read_keeps s (c_ddr c) id f (ci_ddr _ _ Hi) Hid Hf) as (d' & Hr' & _). rewrite Hr in Hr'. injection Hr' as Hg _.
    by apply (clean_get s); [apply Hi|].
  - intros f taken Hf. destruct (whole_frame s c f taken Hi Hf) as (s3 & c3 & H3 & Hi3 & Gp & Gt).
    destruct (read_keeps s3 (c_ddr c3) kDdrPicOut f (ci_ddr _ _ Hi3)) as (d1 & Hd1 & _); [done|done|].
    destruct (read_keeps s3 (c_ddr c3) kDdrTemp f (ci_ddr _ _ Hi3)) as (d2 & Hd2 & _); [done|done|].
    exists c3, d1, d2. by rewrite H3, Hd1, Hd2, Gp, Gt.
Qed.

Lemma chain_pixels_witness :
  exists c c' d1 d2, chain_run chain0 [CLow (desc 3 0) true; CFuseHigh (desc 11 0) true false; CEnh (desc 11 0) false true] = Ret c /\
    chain_run c (gains 11 ++ fusion 11 ++ nodes 11 true) = Ret c' /\
    ddr_read (c_ddr c') kDdrPicOut (dn_slot_of 11) 11 = Ret (Some (map EnhancePolicy (fused_of 11)), d1) /\
    ddr_read (c_ddr c') kDdrTemp (dn_slot_of 11) 11 = Ret (Some (map TempPolicy (fused_of 11)), d2).
Proof.
  destruct (chain_pixels [CLow (desc 3 0) true; CFuseHigh (desc 11 0) true false; CEnh (desc 11 0) false true]) as (c & Hc & _ & Hx).
  { repeat constructor; unfold in_u; cbn; lia. }
  destruct (Hx 11 true) as (c' & d1 & d2 & H); [unfold in_u; lia|]. by exists c, c', d1, d2.
Defined.
