(* ===== verification/IspNodeSpec.v ===== *)
(** * A node releases every frame it took, once (examples/isp_pipeline/isp_chain.hpp)

    The two node objects as machines, against a table of the frames that wait for
    their interrupt. *)

From S2P Require Import Prelude Hsm Mem Ddr Ddr Parking IspChain IspChainSpec.

#[local] Arguments Z.eqb !x !y.

(** ** The arcs *)

Section arcs.
Context {C E : Type} (sig : E -> Z) (fused done_ ovf : C -> E -> C) (mine foreign : C -> E -> bool).

Definition node_shape (s : Z) : Hsm C E :=
  mkHsm [mkState (-1) None None (-1); mkState 0 None None (-1); mkState 0 None None (-1)]
    [mkTrans 1 14 2 External (Some mine) (Some fused); mkTrans 2 14 2 Internal (Some mine) (Some fused);
     mkTrans 1 14 1 Internal (Some foreign) None; mkTrans 2 14 2 Internal (Some foreign) None;
     mkTrans 2 27 1 External None (Some done_); mkTrans 1 27 1 Internal None (Some done_);
     mkTrans 2 35 2 Internal None (Some ovf); mkTrans 1 35 1 Internal None (Some ovf)] 1 2 s.

Lemma node_dispatch s c e :
  s = 1 \/ s = 2 -> sig e = 14 \/ sig e = 27 \/ sig e = 35 -> foreign c e = negb (mine c e) ->
  exists b s', (s' = 1 \/ s' = 2) /\ dispatch sig (node_shape s) c e =
    Ret (b, if sig e =? 14 then (if mine c e then fused c e else c) else if sig e =? 27 then done_ c e else ovf c e, node_shape s').
Proof.
  intros Hs He Hf. unfold dispatch. assert (Hcur : current_ (node_shape s) = s) by done. rewrite Hcur. rewrite (proj2 (Z.ltb_ge s 0)) by lia.
  change (chain_fuel (node_shape s)) with 4%nat. cbn [dispatch_loop].
  destruct Hs as [-> | ->], He as [Hsig|[Hsig|Hsig]]; unfold find_transition; cbn; rewrite Hsig; cbn; try (destruct (mine c e) eqn:Hm; rewrite ?Hf; cbn);
    eexists _, _; (split; [|vm_compute; reflexivity]); auto.
Qed.
End arcs.

Definition node_machine (temp : bool) : Z -> Hsm NodeAo nevent := if temp then tpd_machine else enhance_machine.
Definition node_policy (temp : bool) : Z -> Z := if temp then TempPolicy else EnhancePolicy.
Definition node_ctx0 (temp : bool) : FusedNodeCtx := if temp then tpd_ctx0 else enhance_ctx0.
Definition node_path (temp : bool) (m : IoMeta) : bool := if temp then negb (Z.land (m_flags m) 1 =? 0) else Z.land (m_flags m) 1 =? 0.

Lemma machine_dispatch temp s a e :
  s = 1 \/ s = 2 -> n_sig e = 14 \/ n_sig e = 27 \/ n_sig e = 35 ->
  exists b s', (s' = 1 \/ s' = 2) /\ dispatch n_sig (node_machine temp s) a e =
    Ret (b, if n_sig e =? kHlFused then (if node_path temp (n_meta e) then on_fused (node_policy temp) a e else a)
            else if n_sig e =? kIspNodeDone then on_node_done a e else on_fifo_ovf a e, node_machine temp s').
Proof.
  intros Hs He. destruct temp.
  - apply (node_dispatch n_sig (on_fused TempPolicy) on_node_done on_fifo_ovf is_temp_path is_pic_path s a e Hs He). unfold is_temp_path, is_pic_path. by rewrite negb_involutive.
  - by apply (node_dispatch n_sig (on_fused EnhancePolicy) on_node_done on_fifo_ovf is_pic_path is_temp_path s a e Hs He).
Qed.

(** ** Runs *)

(** An event with the answers its dispatch gets. *)
Record ninput := mkNin { ni_ev : nevent; ni_taken : bool; ni_pool : bool }.

Record node := mkNodeState { nd_state : Z; nd_ctx : FusedNodeCtx; nd_ddr : DdrCtx }.
Definition node0 (temp : bool) : node := mkNodeState kFusedActive (node_ctx0 temp) ddr0.

(** The events submitted, or [Fatal]. *)
Definition node_step (temp : bool) (n : node) (i : ninput) : outcome (list out_event * node) :=
  '(_, a, h) ← dispatch n_sig (node_machine temp (nd_state n)) (mkNode (nd_ctx n) (nd_ddr n) (ni_taken i) (ni_pool i) [] false) (ni_ev i);
  if n_fatal a then Fatal else mret (n_out a, mkNodeState (current_ h) (fn a) (n_ddr a)).

Fixpoint node_run (temp : bool) (n : node) (is_ : list ninput) : outcome (list out_event * node) :=
  match is_ with
  | [] => mret ([], n)
  | i :: is_ => '(o, n) ← node_step temp n i; '(os, n) ← node_run temp n is_; mret (o ++ os, n)
  end.

(** ** The table *)

Definition released (c : FusedNodeCtx) (hit : IoMeta) : out_event :=
  mkOut (f_done_signal c) (with_kind hit (f_payload_kind c)) (f_out_region c) (u16 (buffer_idx hit)).

(** What a node that keeps its waiting frames in a table would submit. *)
Definition spec_step (temp : bool) (t : table) (i : ninput) : list out_event * table :=
  let c := node_ctx0 temp in
  let m := n_meta (ni_ev i) in
  if n_sig (ni_ev i) =? kHlFused then
    if node_path temp m then
      if ni_taken i then ([], t_park t m) else (self_complete c (frame_id m) (ni_pool i), t)
    else ([], t)
  else if n_sig (ni_ev i) =? kIspNodeDone then
    let '(hit, t) := t_unpark t (frame_id m) in
    (match hit with Some hit => if ni_pool i then [released c hit] else [] | None => [] end, t)
  else ([], (t_unpark t (frame_id m)).2).

Fixpoint spec_run (temp : bool) (t : table) (is_ : list ninput) : list out_event * table :=
  match is_ with
  | [] => ([], t)
  | i :: is_ => let '(o, t) := spec_step temp t i in let '(os, t) := spec_run temp t is_ in (o ++ os, t)
  end.

(** Signals the node knows, frames with their slots, and room in the ring. *)
Definition input_ok (temp : bool) (t : table) (i : ninput) : bool :=
  let m := n_meta (ni_ev i) in let g := n_sig (ni_ev i) in
  ((g =? kHlFused) || (g =? kIspNodeDone) || (g =? kIspFifoOvf)) &&
  ((0 <=? frame_id m) && (frame_id m <? 2 ^ 32)) && (negb (g =? kHlFused) || (buffer_idx m =? frame_id m mod 8)) &&
  (if g =? kHlFused then negb (node_path temp m) || negb (ni_taken i) || may_park t m else may_unpark t (frame_id m)).

Fixpoint roomy (temp : bool) (t : table) (is_ : list ninput) : bool :=
  match is_ with [] => true | i :: is_ => input_ok temp t i && roomy temp (spec_step temp t i).2 is_ end.

(** ** The simulation *)

Definition same_node (c c' : FusedNodeCtx) : Prop :=
  f_out_region c' = f_out_region c /\ f_done_signal c' = f_done_signal c /\ path_flag c' = path_flag c /\ f_payload_kind c' = f_payload_kind c /\
  node_id c' = node_id c.

Record node_inv (temp : bool) (n : node) (t : table) : Prop := {
  ni_state : nd_state n = 1 \/ nd_state n = 2;
  ni_ddr : exists s, ddr_inv s (nd_ddr n);
  ni_same : same_node (node_ctx0 temp) (nd_ctx n);
  ni_ring : stands_for (f_ring (nd_ctx n)) t
}.

Lemma ours_path temp c m : same_node (node_ctx0 temp) c -> ours c m = node_path temp m.
Proof.
  intros (_ & _ & Hp & _). unfold ours, node_path. rewrite Hp. pose proof (land_flag (m_flags m) 0 ltac:(lia)) as Hl. change (2 ^ 0) with 1 in Hl. rewrite Hl.
  by destruct temp, (Z.testbit (m_flags m) 0).
Qed.

Lemma node_inv0 temp : node_inv temp (node0 temp) table0.
Proof.
  split; [by left|exists (fun _ _ => None); apply ddr_inv0|by destruct temp|]. destruct temp; apply stands_for0.
Qed.

(** A frame of the node's own path. *)
Lemma fused_sim temp n t e taken pool :
  node_inv temp n t -> n_sig e = 14 -> node_path temp (n_meta e) = true -> in_u 32 (frame_id (n_meta e)) -> buffer_idx (n_meta e) = frame_id (n_meta e) mod 8 ->
  taken = false \/ may_park t (n_meta e) = true ->
  let a := on_fused (node_policy temp) (mkNode (nd_ctx n) (nd_ddr n) taken pool [] false) e in
  let '(o, t') := spec_step temp t (mkNin e taken pool) in
  n_fatal a = false /\ n_out a = o /\ forall s', s' = 1 \/ s' = 2 -> node_inv temp (mkNodeState s' (fn a) (n_ddr a)) t'.
Proof.
  intros [Hst [s Hd] Hsm Hri] Hsig Hpath Hf Hb Hroom. unfold spec_step. cbn [ni_ev ni_taken ni_pool]. rewrite Hsig, Hpath. cbn [Z.eqb kHlFused Pos.eqb].
  unfold on_fused. cbn [fn n_ddr n_taken n_pool n_out n_fatal]. unfold handle.
  assert (Hreg : 0 <= f_out_region (nd_ctx n) < 7) by (destruct Hsm as [-> _]; by destruct temp).
  destruct (fused_keeps (node_policy temp) (nd_ctx n) s (nd_ddr n) (n_meta e) Hd Hreg Hf Hb) as (c1 & d1 & -> & H1 & H2 & H3 & H4 & H5 & H6 & Hd1).
  cbn [mbind outcome_bind]. assert (Hsm1 : same_node (node_ctx0 temp) c1) by (destruct Hsm as (? & ? & ? & ? & ?); unfold same_node; split_and!; congruence).
  unfold request_irq. rewrite (ours_path temp c1 _ Hsm1), Hpath. cbn [negb]. destruct taken.
  - destruct Hroom as [?|Hroom]; [done|]. destruct (park_stands _ _ _ Hri Hroom) as (r' & Hp & Hr'). rewrite H2, Hp. cbn [mbind outcome_bind mret outcome_ret fn n_ddr n_out n_fatal app].
    split; [done|]. split; [done|]. intros s' Hs'. split; [done|by eexists|done|done].
  - cbn [mbind outcome_bind mret outcome_ret fn n_ddr n_out n_fatal app]. split; [done|]. split.
    + unfold self_complete. cbn [node_id set_irq]. destruct Hsm1 as (_ & _ & _ & _ & ->). done.
    + intros s' Hs'. split; [done|by eexists|done|by rewrite <- H2 in Hri].
Qed.

Lemma done_sim temp n t e taken pool :
  node_inv temp n t -> n_sig e = 27 -> may_unpark t (frame_id (n_meta e)) = true ->
  let a := on_node_done (mkNode (nd_ctx n) (nd_ddr n) taken pool [] false) e in
  let '(o, t') := spec_step temp t (mkNin e taken pool) in
  n_fatal a = false /\ n_out a = o /\ forall s', s' = 1 \/ s' = 2 -> node_inv temp (mkNodeState s' (fn a) (n_ddr a)) t'.
Proof.
  intros [Hst Hd Hsm Hri] Hsig Hmay. unfold spec_step. cbn [ni_ev ni_taken ni_pool]. rewrite Hsig. cbn [Z.eqb kHlFused kIspNodeDone Pos.eqb].
  destruct (unpark_stands _ _ (frame_id (n_meta e)) Hri Hmay) as [Hu Hr']. unfold on_node_done, complete_irq. cbn [fn n_pool n_out n_ddr n_fatal].
  destruct (unpark (f_ring (nd_ctx n)) (frame_id (n_meta e))) as [hit r]. cbn [fst snd] in Hu, Hr'.
  destruct (t_unpark t (frame_id (n_meta e))) as [hit' t'] eqn:Et. cbn [fst snd] in Hu, Hr'. subst hit'. destruct hit as [hit|].
  - destruct pool; cbn [negb n_fatal n_out fn n_ddr app]; (split; [done|]; split; [|intros s' Hs'; by split]); [|done].
    unfold released. destruct Hsm as (-> & -> & _ & -> & _). done.
  - split; [done|]. split; [done|]. intros s' Hs'. split; try done. cbn.
    by rewrite (t_unpark_miss _ _ _ Et).
Qed.

Lemma ovf_sim temp n t e taken pool :
  node_inv temp n t -> n_sig e = 35 -> may_unpark t (frame_id (n_meta e)) = true ->
  let a := on_fifo_ovf (mkNode (nd_ctx n) (nd_ddr n) taken pool [] false) e in
  let '(o, t') := spec_step temp t (mkNin e taken pool) in
  n_fatal a = false /\ n_out a = o /\ forall s', s' = 1 \/ s' = 2 -> node_inv temp (mkNodeState s' (fn a) (n_ddr a)) t'.
Proof.
  intros [Hst Hd Hsm Hri] Hsig Hmay. unfold spec_step. cbn [ni_ev ni_taken ni_pool]. rewrite Hsig. cbn [Z.eqb kHlFused kIspNodeDone Pos.eqb].
  destruct (unpark_stands _ _ (frame_id (n_meta e)) Hri Hmay) as [_ Hr']. split; [done|]. split; [done|]. intros s' Hs'. by split.
Qed.

Lemma node_step_sim temp n t i :
  node_inv temp n t -> input_ok temp t i = true ->
  exists n', node_step temp n i = Ret ((spec_step temp t i).1, n') /\ node_inv temp n' (spec_step temp t i).2.
Proof.
  intros Hi Hok. destruct i as [e taken pool]. unfold input_ok in Hok. cbn [ni_ev ni_taken ni_pool] in Hok. split_bools.
  assert (Hf : in_u 32 (frame_id (n_meta e))) by (unfold in_u; lia).
  assert (Hsig : n_sig e = 14 \/ n_sig e = 27 \/ n_sig e = 35).
  { repeat match goal with H : _ || _ = true |- _ => apply orb_true_iff in H as [H|H] end; split_bools; unfold kHlFused, kIspNodeDone, kIspFifoOvf in *; lia. }
  unfold node_step. cbn [ni_ev ni_taken ni_pool].
  destruct (machine_dispatch temp (nd_state n) (mkNode (nd_ctx n) (nd_ddr n) taken pool [] false) e (ni_state _ _ _ Hi) Hsig) as (b & s' & Hs' & ->).
  cbn [mbind outcome_bind]. assert (Hcur : current_ (node_machine temp s') = s') by (by destruct temp). rewrite Hcur.
  destruct Hsig as [Hsig|[Hsig|Hsig]]; rewrite Hsig in *; cbn [Z.eqb kHlFused kIspNodeDone kIspFifoOvf Pos.eqb negb orb] in *.
  - destruct (node_path temp (n_meta e)) eqn:Hp.
    + assert (Hroom : taken = false \/ may_park t (n_meta e) = true).
      { destruct taken; [right|by left]. by match goal with H : context [may_park] |- _ => rewrite ?Hp in H; cbn [negb orb] in H end. }
      split_bools. pose proof (fused_sim temp n t e taken pool Hi Hsig Hp Hf ltac:(lia)) as Hsim. destruct (spec_step temp t (mkNin e taken pool)) as [o t'].
      destruct Hsim as (Hfat & Ho & Hn); [exact Hroom|]. rewrite Hfat. eexists. split; [by rewrite Ho|]. by apply Hn.
    + unfold spec_step. cbn [ni_ev ni_taken ni_pool]. rewrite Hsig, Hp. cbn [Z.eqb kHlFused Pos.eqb n_fatal n_out]. eexists. split; [reflexivity|]. by destruct Hi.
  - pose proof (done_sim temp n t e taken pool Hi Hsig ltac:(done)) as Hsim. destruct (spec_step temp t (mkNin e taken pool)) as [o t'].
    destruct Hsim as (Hfat & Ho & Hn). rewrite Hfat. eexists. split; [by rewrite Ho|]. by apply Hn.
  - pose proof (ovf_sim temp n t e taken pool Hi Hsig ltac:(done)) as Hsim. destruct (spec_step temp t (mkNin e taken pool)) as [o t'].
    destruct Hsim as (Hfat & Ho & Hn). rewrite Hfat. eexists. split; [by rewrite Ho|]. by apply Hn.
Qed.

(** A node releases every frame it took, once, with the descriptor it came
    with.  Both node objects, in either state of their machine, under any order
    of frames, completions and overflows, whatever the channel and the pool
    answer, submit exactly what a node with an unbounded table of waiting frames
    would; nothing leaves the ring or the frame store, and the in-flight count is
    the number of waiting frames.  The proviso [roomy]: a frame is taken only
    while none is left from four places back, under a number no waiting frame
    has; frame 0 only as the first, and is completed only while it waits. *)
Theorem node_releases_frames (temp : bool) (is_ : list ninput) :
  roomy temp table0 is_ = true ->
  exists n, node_run temp (node0 temp) is_ = Ret ((spec_run temp table0 is_).1, n) /\
    in_flight (f_ring (nd_ctx n)) = Z.of_nat (length (waiting (spec_run temp table0 is_).2)).
Proof.
  generalize (node_inv0 temp). generalize (node0 temp), table0. induction is_ as [|i is_ IH]; intros n t Hi Hr.
  - exists n. split; [done|]. apply (sf_flight _ _ (ni_ring _ _ _ Hi)).
  - apply andb_true_iff in Hr as [Hok Hr]. destruct (node_step_sim temp n t i Hi Hok) as (n1 & Hs & Hi1). cbn [node_run spec_run]. rewrite Hs. cbn [mbind outcome_bind].
    destruct (spec_step temp t i) as [o t1]. cbn [fst snd] in *. destruct (IH n1 t1 Hi1 Hr) as (n2 & -> & Hfl). cbn [mbind outcome_bind].
    destruct (spec_run temp t1 is_) as [os t2]. by exists n2.
Qed.

Definition frame_in (f flags : Z) (taken : bool) : ninput := mkNin (mkNev kHlFused (desc f flags)) taken true.
Definition irq_in (f : Z) : ninput := mkNin (mkNev kIspNodeDone (desc f 0)) true true.
Definition ovf_in (f : Z) : ninput := mkNin (mkNev kIspFifoOvf (desc f 0)) true true.

(** Three frames overlap, one is refused by the channel and one overflows. *)
Definition overlap : list ninput :=
  [frame_in 0 0 true; frame_in 1 0 true; frame_in 1 1 true; irq_in 0; frame_in 2 0 true; frame_in 3 0 false; ovf_in 1; irq_in 1; irq_in 3; irq_in 2].

Lemma node_releases_frames_witness :
  roomy false table0 overlap = true /\
  exists n, node_run false (node0 false) overlap =
    Ret ([released enhance_ctx0 (desc 0 0); mkOut kIspNodeDone (mkMeta 0 3 640 512 0 0 0 0 0 0) 255 255; released enhance_ctx0 (desc 2 0)], n) /\
    in_flight (f_ring (nd_ctx n)) = 0.
Proof. split; [reflexivity|]. apply (node_releases_frames false overlap). reflexivity. Defined.

(** ** Outside the proviso *)

Definition outputs (temp : bool) (is_ : list ninput) : outcome (list out_event * Z * Z) :=
  '(os, n) ← node_run temp (node0 temp) is_; mret (os, irq_stale (nd_ctx n), in_flight (f_ring (nd_ctx n))).

(** Five frames dispatched before the first completion: the fifth takes the place
    of the first, whose completion then finds nothing.  The frame is lost and
    the in-flight count never returns to 0. *)
Lemma fifth_frame_evicts :
  outputs false [frame_in 1 0 true; frame_in 2 0 true; frame_in 3 0 true; frame_in 4 0 true; frame_in 5 0 true;
                 irq_in 1; irq_in 2; irq_in 3; irq_in 4; irq_in 5] =
  Ret (map (fun f => released enhance_ctx0 (desc f 0)) [2; 3; 4; 5], 1, 1).
Proof. vm_compute. reflexivity. Qed.

(** An overflow of frame 0, which no longer waits, matches an empty place and
    takes one off the in-flight count of another frame; a completion of frame 0
    releases an empty descriptor. *)
Lemma frame_zero_matches_empty :
  outputs true [frame_in 7 1 true; ovf_in 0] = Ret ([], 0, 0) /\
  outputs true [irq_in 0] = Ret ([released tpd_ctx0 meta0], 0, 0).
Proof. split; vm_compute; reflexivity. Qed.
