(* ===== verification/VideoStream.v ===== *)
(** * Video streams and their packing (examples/isp_pipeline/video_stream.hpp)

    Two stream state machines in one object, as a machine on pairs of phases, and
    the pack object with a parking ring per stream, as a machine on pairs of
    writeback phases.  Submitted events are collected; what the pool and the
    writeback channel answer comes with each dispatch.  Printed and logged lines
    and the route tags of the acknowledgements are left out. *)

From S2P Require Import Prelude Vocab Hsm Mem Ddr Parking IspChain.

(** ** Stream state machines *)

Definition kVideoCmd : Z := 7.
Definition kVideoReadySig : Z := 10.
Definition kFmtIdle : Z := 24.

Inductive VideoFsmState := kVideoIdle | kVideoReady | kVideoRunning.

#[export] Instance VideoFsmState_eq_dec : EqDecision VideoFsmState.
Proof. solve_decision. Defined.

Definition kVInit : Z := 0.
Definition kVStart : Z := 1.
Definition kVStop : Z := 2.
Definition kVDeinit : Z := 3.
Definition kVideoFlagTempStream : Z := 1.
Definition kVideoFlagWantIdleAck : Z := 2.

Record VideoPathMirror := mkMirrorV { fsm : VideoFsmState; init_step : Z; deinit_step : Z; node_count : Z; v_temp : bool; rejected_cmds : Z }.

(** [v_out]: the acknowledgements, with the stream in [o_region]. *)
Record VideoCtx := mkVideo {
  orchestrator : Z; pic : VideoPathMirror; temp : VideoPathMirror; sout_ioctls : Z; sout_quiesce_us : Z; fmt_ioctls : Z; fmt_quiesce_us : Z;
  fmt_event_driven : bool; v_pool : bool; v_out : list out_event
}.

Definition mirror_of (c : VideoCtx) (t : bool) : VideoPathMirror := if t then temp c else pic c.
Definition set_mirror (c : VideoCtx) (t : bool) (m : VideoPathMirror) : VideoCtx :=
  mkVideo (orchestrator c) (if t then pic c else m) (if t then m else temp c) (sout_ioctls c) (sout_quiesce_us c) (fmt_ioctls c) (fmt_quiesce_us c)
    (fmt_event_driven c) (v_pool c) (v_out c).
Definition v_submit (c : VideoCtx) (e : out_event) : VideoCtx :=
  if v_pool c then
    mkVideo (orchestrator c) (pic c) (temp c) (sout_ioctls c) (sout_quiesce_us c) (fmt_ioctls c) (fmt_quiesce_us c) (fmt_event_driven c) (v_pool c) (v_out c ++ [e])
  else c.

(** *** Stop confirmation *)

Definition kFmtHasIdleIrq : bool := false.
Definition kSoutStopLatencyUs : Z := 3000.
Definition kFmtStopLatencyUs : Z := 25000.
Definition kPollTickUs : Z := 1000.

(** Latency observed, and [ioctls] afterwards. *)
Definition EventQuiesce (hw_latency_us ioctls : Z) : Z * Z := (hw_latency_us, u32 (ioctls + 3)).
Definition PollQuiesce (hw_latency_us ioctls : Z) : Z * Z :=
  let ioctls := u32 (ioctls + 1) in
  let polls := u32 (u32 (hw_latency_us + kPollTickUs) - 1) / kPollTickUs in
  (u32 (polls * kPollTickUs), u32 (ioctls + polls)).
Definition QuiescePolicy (has_idle_irq : bool) : Z -> Z -> Z * Z := if has_idle_irq then EventQuiesce else PollQuiesce.

(** *** Actions of one stream *)

(** The acknowledgement of an initialised stream. *)
Definition ready_ack (orch : Z) (t : bool) : out_event :=
  mkOut kVideoReadySig (mkMeta orch 0 640 512 kVInit 0 0 (if t then 1 else 0) 0 0) (if t then 1 else 0) 0.
(** The confirmation of a stopped stream, to whoever asked. *)
Definition idle_ack (t : bool) (m : IoMeta) : out_event := mkOut kFmtIdle (mkMeta (reply_to m) 0 640 512 (if t then 1 else 0) 0 0 0 0 0) (if t then 1 else 0) 0.

Definition on_init (c : VideoCtx) (t : bool) : VideoCtx :=
  let m := mirror_of c t in
  v_submit (set_mirror c t (mkMirrorV kVideoReady (u32 (init_step m + (1 + node_count m + 1))) (deinit_step m) (node_count m) (v_temp m) (rejected_cmds m)))
    (ready_ack (orchestrator c) t).

Definition set_fsm (m : VideoPathMirror) (s : VideoFsmState) : VideoPathMirror :=
  mkMirrorV s (init_step m) (deinit_step m) (node_count m) (v_temp m) (rejected_cmds m).

Definition on_start (c : VideoCtx) (t : bool) : VideoCtx := set_mirror c t (set_fsm (mirror_of c t) kVideoRunning).

Definition on_stop (c : VideoCtx) (t : bool) (e : IoMeta) : VideoCtx :=
  let m := mirror_of c t in
  let c := set_mirror c t (set_fsm m kVideoReady) in
  if negb (Z.land (m_flags e) kVideoFlagWantIdleAck =? 0) && negb (reply_to e =? raw kInvalidTarget) then v_submit c (idle_ack (v_temp m) e) else c.

Definition on_deinit (c : VideoCtx) (t : bool) : VideoCtx :=
  let m := mirror_of c t in
  let c :=
    if negb (v_temp m) then
      let '(su, si) := QuiescePolicy true kSoutStopLatencyUs (sout_ioctls c) in
      let '(fu, fi) := QuiescePolicy kFmtHasIdleIrq kFmtStopLatencyUs (fmt_ioctls c) in
      mkVideo (orchestrator c) (pic c) (temp c) si su fi fu false (v_pool c) (v_out c)
    else c in
  set_mirror c t (mkMirrorV kVideoIdle (init_step m) (u32 (deinit_step m + (node_count m + 1))) (node_count m) (v_temp m) (rejected_cmds m)).

(** *** The object *)

Definition video_cmd_of (e : nevent) : Z := u8 (m_cmd_arg (n_meta e)).
Definition cmd_is_pic (e : nevent) : bool := Z.land (m_flags (n_meta e)) 1 =? 0.

Definition onVideoCmd (c : VideoCtx) (e : nevent) : VideoCtx :=
  let t := negb (cmd_is_pic e) in
  let cmd := video_cmd_of e in
  if cmd =? kVInit then on_init c t else if cmd =? kVStart then on_start c t else if cmd =? kVStop then on_stop c t (n_meta e)
  else if cmd =? kVDeinit then on_deinit c t else c.

Definition onVideoCmdRejected (c : VideoCtx) (e : nevent) : VideoCtx :=
  let t := negb (cmd_is_pic e) in
  let m := mirror_of c t in
  set_mirror c t (mkMirrorV (fsm m) (init_step m) (deinit_step m) (node_count m) (v_temp m) (u32 (rejected_cmds m + 1))).

Definition pic_and (cmd : Z) (_ : VideoCtx) (e : nevent) : bool := cmd_is_pic e && (video_cmd_of e =? cmd).
Definition temp_and (cmd : Z) (_ : VideoCtx) (e : nevent) : bool := negb (cmd_is_pic e) && (video_cmd_of e =? cmd).

Definition kVfRoot : Z := 0.
Definition kVfII : Z := 1.
Definition kVfRI : Z := 2.
Definition kVfGI : Z := 3.
Definition kVfIR : Z := 4.
Definition kVfRR : Z := 5.
Definition kVfGR : Z := 6.
Definition kVfIT : Z := 7.
Definition kVfRT : Z := 8.
Definition kVfGT : Z := 9.

Definition kVideoStates : list (StateDef VideoCtx) := mkState (-1) None None (-1) :: replicate 9 (mkState kVfRoot None None (-1)).

Definition VF_ARC (src : Z) (g : VideoCtx -> nevent -> bool) (dst : Z) : TransitionDef VideoCtx nevent :=
  mkTrans src kVideoCmd dst External (Some g) (Some onVideoCmd).
Definition VF_REJECT (src : Z) (g : VideoCtx -> nevent -> bool) : TransitionDef VideoCtx nevent :=
  mkTrans src kVideoCmd src Self (Some g) (Some onVideoCmdRejected).

Definition kVideoTransitions : list (TransitionDef VideoCtx nevent) :=
  [VF_ARC kVfII (pic_and kVInit) kVfRI; VF_ARC kVfIR (pic_and kVInit) kVfRR; VF_ARC kVfIT (pic_and kVInit) kVfRT;
   VF_ARC kVfRI (pic_and kVStart) kVfGI; VF_ARC kVfRR (pic_and kVStart) kVfGR; VF_ARC kVfRT (pic_and kVStart) kVfGT;
   VF_ARC kVfGI (pic_and kVStop) kVfRI; VF_ARC kVfGR (pic_and kVStop) kVfRR; VF_ARC kVfGT (pic_and kVStop) kVfRT;
   VF_ARC kVfRI (pic_and kVDeinit) kVfII; VF_ARC kVfRR (pic_and kVDeinit) kVfIR; VF_ARC kVfRT (pic_and kVDeinit) kVfIT;
   VF_ARC kVfII (temp_and kVInit) kVfIR; VF_ARC kVfRI (temp_and kVInit) kVfRR; VF_ARC kVfGI (temp_and kVInit) kVfGR;
   VF_ARC kVfIR (temp_and kVStart) kVfIT; VF_ARC kVfRR (temp_and kVStart) kVfRT; VF_ARC kVfGR (temp_and kVStart) kVfGT;
   VF_ARC kVfIT (temp_and kVStop) kVfIR; VF_ARC kVfRT (temp_and kVStop) kVfRR; VF_ARC kVfGT (temp_and kVStop) kVfGR;
   VF_ARC kVfIR (temp_and kVDeinit) kVfII; VF_ARC kVfRR (temp_and kVDeinit) kVfRI; VF_ARC kVfGR (temp_and kVDeinit) kVfGI;
   VF_REJECT kVfII (pic_and kVStart); VF_REJECT kVfIR (pic_and kVStart); VF_REJECT kVfIT (pic_and kVStart);
   VF_REJECT kVfII (temp_and kVStart); VF_REJECT kVfRI (temp_and kVStart); VF_REJECT kVfGI (temp_and kVStart)].

Definition video_machine (s : Z) : Hsm VideoCtx nevent := mkHsm kVideoStates kVideoTransitions kVfII 2 s.

(** [main]: seven nodes for pictures, four for temperatures. *)
Definition video_ctx0 : VideoCtx := mkVideo 1 (mkMirrorV kVideoIdle 0 0 7 false 0) (mkMirrorV kVideoIdle 0 0 4 true 0) 0 0 0 0 false true [].

(** ** Packing *)

Definition kPicPacked : Z := 17.
Definition kTempPacked : Z := 18.
Definition kSoutDone : Z := 28.
Definition kSoutDonePic : Z := 33.
Definition kSoutDoneTemp : Z := 34.

(** The counters and the ring of one stream. *)
Record PackPath := mkPath {
  p_frames : Z; p_total_us : Z; p_last_pack_us : Z; sout_subs : Z; sout_done : Z; sout_rejects : Z; sout_stale : Z; p_ring : parking
}.
Definition path0 : PackPath := mkPath 0 0 0 0 0 0 0 parking0.

(** [pk_taken], [pk_pool]: the answers of the channel and of the pool. *)
Record VideoPackCtx := mkPack {
  pk_pic : PackPath; pk_temp : PackPath; pk_ddr : DdrCtx; pk_taken : bool; pk_pool : bool; pk_out : list out_event; pk_fatal : bool
}.

Definition path_of (c : VideoPackCtx) (t : bool) : PackPath := if t then pk_temp c else pk_pic c.
Definition set_path (c : VideoPackCtx) (t : bool) (p : PackPath) (d : DdrCtx) (out : list out_event) : VideoPackCtx :=
  mkPack (if t then pk_pic c else p) (if t then p else pk_temp c) d (pk_taken c) (pk_pool c) (pk_out c ++ out) (pk_fatal c).

Definition kPathId (t : bool) : Z := if t then 1 else 0.
Definition in_region (t : bool) : Z := if t then kDdrTemp else kDdrPicOut.
Definition pack_latency_us (t : bool) : Z := if t then 300 else 400.

Definition account (p : PackPath) (us : Z) : PackPath :=
  mkPath (u32 (p_frames p + 1)) (u32 (p_total_us p + us)) us (sout_subs p) (sout_done p) (sout_rejects p) (sout_stale p) (p_ring p).
Definition set_sout (p : PackPath) (subs done_ rejects stale : Z) (r : parking) : PackPath :=
  mkPath (p_frames p) (p_total_us p) (p_last_pack_us p) subs done_ rejects stale r.

Definition self_complete_sout (t : bool) (f : Z) (pool : bool) : list out_event :=
  if pool then [mkOut kSoutDone (mkMeta 0 f 640 512 (kPathId t) 0 0 0 0 0) 0xFF 0xFF] else [].

(** [on_input]; the repacked pixels go to a local buffer. *)
Definition on_input (t : bool) (c : VideoPackCtx) (m : IoMeta) : outcome VideoPackCtx :=
  '(_, d) ← ddr_read (pk_ddr c) (in_region t) (u16 (buffer_idx m)) (frame_id m);
  let p := account (path_of c t) (pack_latency_us t) in
  r ← park (p_ring p) m;
  if pk_taken c then mret (set_path c t (set_sout p (u32 (sout_subs p + 1)) (sout_done p) (sout_rejects p) (sout_stale p) r) d [])
  else mret (set_path c t (set_sout p (sout_subs p) (sout_done p) (u32 (sout_rejects p + 1)) (sout_stale p) r) d
               (self_complete_sout t (frame_id m) (pk_pool c))).

Definition packed_event (t : bool) (hit : IoMeta) : out_event :=
  mkOut (if t then kTempPacked else kPicPacked) (with_kind hit (if t then 2 else 1)) (in_region t) (u16 (buffer_idx hit)).

(** The first bytes of the packed frame's payload. *)
Definition packed_control (t : bool) (hit : IoMeta) : list Z :=
  if t then [84; 69; 77; 80] else [80; 73; 67; u8 (0xA0 + Z.land (frame_id hit) 0x0F)].

Definition on_sout_done (t : bool) (c : VideoPackCtx) (m : IoMeta) : VideoPackCtx :=
  let p := path_of c t in
  match unpark (p_ring p) (frame_id m) with
  | (None, _) => set_path c t (set_sout p (sout_subs p) (sout_done p) (sout_rejects p) (u32 (sout_stale p + 1)) (p_ring p)) (pk_ddr c) []
  | (Some hit, r) =>
    if negb (pk_pool c) then set_path c t (set_sout p (sout_subs p) (sout_done p) (u32 (sout_rejects p + 1)) (sout_stale p) r) (pk_ddr c) []
    else set_path c t (set_sout p (sout_subs p) (u32 (sout_done p + 1)) (sout_rejects p) (sout_stale p) r) (pk_ddr c) [packed_event t hit]
  end.

Definition on_pack_input (t : bool) (c : VideoPackCtx) (e : nevent) : VideoPackCtx :=
  match on_input t c (n_meta e) with
  | Ret c => c
  | Fatal => mkPack (pk_pic c) (pk_temp c) (pk_ddr c) (pk_taken c) (pk_pool c) (pk_out c) true
  end.
Definition onEnhanceDonePack := on_pack_input false.
Definition onTempChainDonePack := on_pack_input true.
Definition onSoutDonePicPack (c : VideoPackCtx) (e : nevent) : VideoPackCtx := on_sout_done false c (n_meta e).
Definition onSoutDoneTempPack (c : VideoPackCtx) (e : nevent) : VideoPackCtx := on_sout_done true c (n_meta e).

Definition sout_sig_of (m : IoMeta) : Z := if m_cmd_arg m =? 0 then kSoutDonePic else kSoutDoneTemp.

(** The completion of the path, to the object itself. *)
Definition restamped (m : IoMeta) : out_event :=
  mkOut (sout_sig_of m)
    (mkMeta (reply_to m) (frame_id m) (m_width m) (m_height m) 0 (m_flags m) (timestamp_ns m) (payload_kind m) (buffer_idx m) (m_result m)) 0xFF 0xFF.

Definition onSoutDoneRestamp (c : VideoPackCtx) (e : nevent) : VideoPackCtx :=
  if pk_pool c then
    mkPack (pk_pic c) (pk_temp c) (pk_ddr c) (pk_taken c) (pk_pool c) (pk_out c ++ [restamped (n_meta e)]) (pk_fatal c)
  else c.

Definition kPackRoot : Z := 0.
Definition kPackBA : Z := 1.
Definition kPackPS : Z := 2.
Definition kPackTS : Z := 3.
Definition kPackBS : Z := 4.

Definition kPackStates : list (StateDef VideoPackCtx) := mkState (-1) None None (-1) :: replicate 4 (mkState kPackRoot None None (-1)).

Definition kPackTransitions : list (TransitionDef VideoPackCtx nevent) :=
  [mkTrans kPackBA kEnhanceDonePic kPackPS External None (Some onEnhanceDonePack);
   mkTrans kPackTS kEnhanceDonePic kPackBS External None (Some onEnhanceDonePack);
   mkTrans kPackPS kEnhanceDonePic kPackPS Internal None (Some onEnhanceDonePack);
   mkTrans kPackBS kEnhanceDonePic kPackBS Internal None (Some onEnhanceDonePack);
   mkTrans kPackBA kEnhanceDoneTemp kPackTS External None (Some onTempChainDonePack);
   mkTrans kPackPS kEnhanceDoneTemp kPackBS External None (Some onTempChainDonePack);
   mkTrans kPackTS kEnhanceDoneTemp kPackTS Internal None (Some onTempChainDonePack);
   mkTrans kPackBS kEnhanceDoneTemp kPackBS Internal None (Some onTempChainDonePack);
   mkTrans kPackBA kSoutDone kPackBA Internal None (Some onSoutDoneRestamp);
   mkTrans kPackPS kSoutDone kPackPS Internal None (Some onSoutDoneRestamp);
   mkTrans kPackTS kSoutDone kPackTS Internal None (Some onSoutDoneRestamp);
   mkTrans kPackBS kSoutDone kPackBS Internal None (Some onSoutDoneRestamp);
   mkTrans kPackPS kSoutDonePic kPackBA External None (Some onSoutDonePicPack);
   mkTrans kPackBS kSoutDonePic kPackTS External None (Some onSoutDonePicPack);
   mkTrans kPackBA kSoutDonePic kPackBA Internal None (Some onSoutDonePicPack);
   mkTrans kPackTS kSoutDonePic kPackTS Internal None (Some onSoutDonePicPack);
   mkTrans kPackTS kSoutDoneTemp kPackBA External None (Some onSoutDoneTempPack);
   mkTrans kPackBS kSoutDoneTemp kPackPS External None (Some onSoutDoneTempPack);
   mkTrans kPackBA kSoutDoneTemp kPackBA Internal None (Some onSoutDoneTempPack);
   mkTrans kPackPS kSoutDoneTemp kPackPS Internal None (Some onSoutDoneTempPack)].

Definition pack_machine (s : Z) : Hsm VideoPackCtx nevent := mkHsm kPackStates kPackTransitions kPackBA 2 s.
