(* ===== verification/VideoSpec.v ===== *)
(** * Two streams in one object (examples/isp_pipeline/video_stream.hpp)

    The stream object is a machine on nine pairs of phases, the pack object one on
    four.  Against each: two streams that do not know of each other. *)

From S2P Require Import Prelude Vocab Hsm Mem Ddr Ddr Parking IspChain VideoStream.

#[local] Arguments Z.eqb !x !y.

(** ** The outputs of one stream *)

(** Of the outputs, one per input, those of the inputs that are [own]. *)
Fixpoint on_own {I O : Type} (own : I -> bool) (is_ : list I) (os : list O) : list O :=
  match is_, os with
  | i :: is_, o :: os => if own i then o :: on_own own is_ os else on_own own is_ os
  | _, _ => []
  end.

(** A stream alone. *)
Fixpoint solo_run {I O S : Type} (step : S -> I -> O * S) (s : S) (is_ : list I) : list O * S :=
  match is_ with
  | [] => ([], s)
  | i :: is_ => let '(o, s) := step s i in let '(os, s) := solo_run step s is_ in (o :: os, s)
  end.

Section product.
Context {I O M S : Type} (run1 : M -> I -> outcome (O * M)) (own : bool -> I -> bool) (solo : bool -> S -> I -> O * S)
  (sees : M -> (bool -> S) -> Prop) (ok : (bool -> S) -> I -> bool).

Fixpoint both_run (m : M) (is_ : list I) : outcome (list O * M) :=
  match is_ with
  | [] => mret ([], m)
  | i :: is_ => '(o, m) ← run1 m i; '(os, m) ← both_run m is_; mret (o :: os, m)
  end.

(** Both streams after an input: the owner steps. *)
Definition both_next (s : bool -> S) (i : I) : bool -> S := fun t => if own t i then (solo t (s t) i).2 else s t.

Fixpoint both_ok (s : bool -> S) (is_ : list I) : bool :=
  match is_ with [] => true | i :: is_ => ok s i && both_ok (both_next s i) is_ end.

Hypothesis step_sees : forall m s i, sees m s -> ok s i = true ->
  exists o m', run1 m i = Ret (o, m') /\ sees m' (both_next s i) /\ forall t, own t i = true -> o = (solo t (s t) i).1.

(** A machine whose every step is the step of the input's owner behaves, to each
    stream, like the stream alone on the inputs it owns. *)
Lemma streams_apart is_ : forall m s, sees m s -> both_ok s is_ = true ->
  exists os m' s', both_run m is_ = Ret (os, m') /\ sees m' s' /\ length os = length is_ /\
    forall t, solo_run (solo t) (s t) (List.filter (own t) is_) = (on_own (own t) is_ os, s' t).
Proof.
  induction is_ as [|i is_ IH]; intros m s Hs Hok; [by exists [], m, s|]. apply andb_true_iff in Hok as [Hi Hok].
  destruct (step_sees m s i Hs Hi) as (o & m1 & Hr & Hs1 & Ho). destruct (IH m1 _ Hs1 Hok) as (os & m2 & s2 & Hr2 & Hs2 & Hlen & Ht).
  exists (o :: os), m2, s2. cbn [both_run]. rewrite Hr. cbn [mbind outcome_bind]. rewrite Hr2. cbn [mbind outcome_bind].
  split_and!; [done|done|cbn; lia|]. intros t. specialize (Ht t). unfold both_next in Ht. cbn [List.filter on_own]. destruct (own t i) eqn:Hown; [|done].
  cbn [solo_run]. rewrite (Ho t Hown). destruct (solo t (s t) i) as [o' s']. cbn [fst snd] in *. by rewrite Ht.
Qed.
End product.

(** ** The stream object *)

Definition phase_idx (p : VideoFsmState) : Z := match p with kVideoIdle => 0 | kVideoReady => 1 | kVideoRunning => 2 end.

(** The state that stands for a pair of phases. *)
Definition code (p t : VideoFsmState) : Z := 1 + phase_idx p + 3 * phase_idx t.

(** One stream's machine. *)
Definition phase_next (p : VideoFsmState) (cmd : Z) : option VideoFsmState :=
  match p with
  | kVideoIdle => if cmd =? kVInit then Some kVideoReady else None
  | kVideoReady => if cmd =? kVStart then Some kVideoRunning else if cmd =? kVDeinit then Some kVideoIdle else None
  | kVideoRunning => if cmd =? kVStop then Some kVideoReady else None
  end.
Definition phase_rejects (p : VideoFsmState) (cmd : Z) : bool := match p with kVideoIdle => cmd =? kVStart | _ => false end.

Definition enabled {C E} (c : C) (e : E) (t : TransitionDef C E) : bool := match guard t with Some g => g c e | None => true end.
Definition leaves {C E} (src k : Z) (t : TransitionDef C E) : bool := (source t =? src) && (signal t =? k).

(** The first enabled arc of those that leave the state on the signal. *)
Lemma find_in_filter {C E} (sig : E -> Z) (c : C) e src ts k :
  sig e = k -> find_in sig c e src ts = List.find (enabled c e) (List.filter (leaves src k) ts).
Proof.
  intros <-. induction ts as [|t ts IH]; [done|]. cbn [find_in List.filter]. unfold leaves at 1. destruct (_ && _); [|done].
  cbn [List.find]. unfold enabled at 1. destruct (guard t) as [g|]; [|done]. by destruct (g c e).
Qed.

Lemma find_in_none {C E} (sig : E -> Z) (c : C) e src ts : Forall (fun t => signal t <> sig e) ts -> find_in sig c e src ts = None.
Proof. induction 1 as [|t ts Ht _ IH]; [done|]. cbn [find_in]. by rewrite (proj2 (Z.eqb_neq _ _) Ht), andb_false_r. Qed.

Section arcs.
Context {C E : Type} (sig : E -> Z) (pic : E -> bool) (cmd : E -> Z) (act rej : C -> E -> C).

Definition arc (s : Z) (g : C -> E -> bool) (d : Z) : TransitionDef C E := mkTrans s kVideoCmd d External (Some g) (Some act).
Definition reject (s : Z) (g : C -> E -> bool) : TransitionDef C E := mkTrans s kVideoCmd s Self (Some g) (Some rej).
Definition pand (k : Z) (_ : C) (e : E) : bool := pic e && (cmd e =? k).
Definition tand (k : Z) (_ : C) (e : E) : bool := negb (pic e) && (cmd e =? k).

Definition video_shape (s : Z) : Hsm C E :=
  mkHsm (mkState (-1) None None (-1) :: replicate 9 (mkState 0 None None (-1)))
    [arc 1 (pand 0) 2; arc 4 (pand 0) 5; arc 7 (pand 0) 8; arc 2 (pand 1) 3; arc 5 (pand 1) 6; arc 8 (pand 1) 9;
     arc 3 (pand 2) 2; arc 6 (pand 2) 5; arc 9 (pand 2) 8; arc 2 (pand 3) 1; arc 5 (pand 3) 4; arc 8 (pand 3) 7;
     arc 1 (tand 0) 4; arc 2 (tand 0) 5; arc 3 (tand 0) 6; arc 4 (tand 1) 7; arc 5 (tand 1) 8; arc 6 (tand 1) 9;
     arc 7 (tand 2) 4; arc 8 (tand 2) 5; arc 9 (tand 2) 6; arc 4 (tand 3) 1; arc 5 (tand 3) 2; arc 6 (tand 3) 3;
     reject 1 (pand 1); reject 4 (pand 1); reject 7 (pand 1); reject 1 (tand 1); reject 2 (tand 1); reject 3 (tand 1)] 1 2 s.

Lemma video_found s p t c e : sig e = kVideoCmd ->
  let ph := if pic e then p else t in
  exists g, find_transition sig (video_shape s) c e (code p t) =
    match phase_next ph (cmd e) with
    | Some q => Some (arc (code p t) g (if pic e then code q t else code p q))
    | None => if phase_rejects ph (cmd e) then Some (reject (code p t) g) else None
    end.
Proof.
  intros Hsig ph. subst ph. unfold kVideoCmd in Hsig.
  assert (Hc : cmd e = 0 \/ cmd e = 1 \/ cmd e = 2 \/ cmd e = 3 \/ (cmd e =? 0 = false /\ cmd e =? 1 = false /\ cmd e =? 2 = false /\ cmd e =? 3 = false)) by lia.
  unfold find_transition, phase_next, phase_rejects, kVInit, kVStart, kVStop, kVDeinit. rewrite (find_in_filter _ _ _ _ _ _ Hsig).
  destruct p, t; match goal with |- context [List.filter ?f ?l] => let x := eval cbv -[pand tand] in (List.filter f l) in change (List.filter f l) with x end;
    cbn [List.find enabled guard]; unfold pand, tand; destruct Hc as [Hc|[Hc|[Hc|[Hc|(Hc0 & Hc1 & Hc2 & Hc3)]]]]; rewrite ?Hc, ?Hc0, ?Hc1, ?Hc2, ?Hc3;
    destruct (pic e); cbn [andb negb Z.eqb Pos.eqb]; by eexists.
Qed.

Lemma video_dispatch p t c e : sig e = kVideoCmd ->
  let ph := if pic e then p else t in
  exists b, dispatch sig (video_shape (code p t)) c e =
    match phase_next ph (cmd e) with
    | Some q => Ret (b, act c e, video_shape (if pic e then code q t else code p q))
    | None => Ret (b, if phase_rejects ph (cmd e) then rej c e else c, video_shape (code p t))
    end.
Proof.
  intros Hsig ph. unfold dispatch. change (current_ (video_shape (code p t))) with (code p t). rewrite (proj2 (Z.ltb_ge _ 0)) by (by destruct p, t).
  change (chain_fuel (video_shape (code p t))) with 11%nat. cbn [dispatch_loop]. destruct (video_found (code p t) p t c e Hsig) as [g ->]. fold ph.
  destruct (phase_next ph (cmd e)) as [q|]; [|destruct (phase_rejects ph (cmd e))].
  - exists true. destruct (pic e), p, t, q; vm_compute; reflexivity.
  - exists true. destruct p, t; vm_compute; reflexivity.
  - exists false. destruct p, t; vm_compute; reflexivity.
Qed.

Lemma video_other s c e : 1 <= s <= 9 -> sig e <> kVideoCmd -> exists b, dispatch sig (video_shape s) c e = Ret (b, c, video_shape s).
Proof.
  intros Hs Hsig. assert (Hn : forall src, find_transition sig (video_shape s) c e src = None).
  { intros src. apply find_in_none. repeat constructor; cbn; congruence. }
  exists false. unfold dispatch. change (current_ (video_shape s)) with s. rewrite (proj2 (Z.ltb_ge _ 0)) by lia.
  change (chain_fuel (video_shape s)) with 11%nat. cbn [dispatch_loop]. rewrite Hn.
  assert (Hk : s = 1 \/ s = 2 \/ s = 3 \/ s = 4 \/ s = 5 \/ s = 6 \/ s = 7 \/ s = 8 \/ s = 9) by lia.
  by destruct_or! Hk; subst s.
Qed.
End arcs.

(** *** Runs *)

(** An event, and whether the pool has a block for an acknowledgement. *)
Record vinput := mkVin { vi_ev : nevent; vi_pool : bool }.
Definition vi_own (t : bool) (i : vinput) : bool := Bool.eqb t (negb (cmd_is_pic (vi_ev i))).

(** The context as a dispatch finds it. *)
Definition armed (c : VideoCtx) (pool : bool) : VideoCtx :=
  mkVideo (orchestrator c) (pic c) (temp c) (sout_ioctls c) (sout_quiesce_us c) (fmt_ioctls c) (fmt_quiesce_us c) (fmt_event_driven c) pool [].

Definition video_step (v : Z * VideoCtx) (i : vinput) : outcome (list out_event * (Z * VideoCtx)) :=
  '(_, c, h) ← dispatch n_sig (video_machine v.1) (armed v.2 (vi_pool i)) (vi_ev i); mret (v_out c, (current_ h, c)).

Definition acks (t : bool) (i : vinput) : list out_event :=
  let m := n_meta (vi_ev i) in let cmd := video_cmd_of (vi_ev i) in
  if negb (vi_pool i) then []
  else if cmd =? kVInit then [ready_ack 1 t]
  else if (cmd =? kVStop) && Z.testbit (m_flags m) 1 && negb (reply_to m =? 0) then [idle_ack t m]
  else [].

Definition counted (m : VideoPathMirror) : VideoPathMirror :=
  mkMirrorV (fsm m) (init_step m) (deinit_step m) (node_count m) (v_temp m) (u32 (rejected_cmds m + 1)).

(** A stream alone: its acknowledgements and its mirror. *)
Definition video_solo (t : bool) (m : VideoPathMirror) (i : vinput) : list out_event * VideoPathMirror :=
  let cmd := video_cmd_of (vi_ev i) in
  if negb (n_sig (vi_ev i) =? kVideoCmd) then ([], m)
  else match phase_next (fsm m) cmd with
  | Some q =>
    (acks t i,
     mkMirrorV q (if cmd =? kVInit then u32 (init_step m + (1 + node_count m + 1)) else init_step m)
       (if cmd =? kVDeinit then u32 (deinit_step m + (node_count m + 1)) else deinit_step m) (node_count m) (v_temp m) (rejected_cmds m))
  | None =>
    ([], if phase_rejects (fsm m) cmd then counted m else m)
  end.

(** The stop confirmations of [n] picture streams taken down. *)
Definition quiesced (n : Z) (c : VideoCtx) : Prop :=
  0 <= n /\ node_count (pic c) = 7 /\ deinit_step (pic c) = u32 (8 * n) /\ sout_ioctls c = u32 (3 * n) /\ fmt_ioctls c = u32 (26 * n) /\
  sout_quiesce_us c = (if n =? 0 then 0 else 3000) /\ fmt_quiesce_us c = (if n =? 0 then 0 else 25000).

Record video_sees (v : Z * VideoCtx) (s : bool -> VideoPathMirror) : Prop := {
  vs_mirror : forall t, mirror_of v.2 t = s t;
  vs_state : v.1 = code (fsm (s false)) (fsm (s true));
  vs_temp : forall t, v_temp (s t) = t;
  vs_orch : orchestrator v.2 = 1;
  vs_quiet : exists n, quiesced n v.2
}.

Lemma phase_next_cmd p cmd q : phase_next p cmd = Some q ->
  cmd = 0 /\ p = kVideoIdle /\ q = kVideoReady \/ cmd = 1 /\ p = kVideoReady /\ q = kVideoRunning \/
  cmd = 2 /\ p = kVideoRunning /\ q = kVideoReady \/ cmd = 3 /\ p = kVideoReady /\ q = kVideoIdle.
Proof.
  unfold phase_next, kVInit, kVStart, kVStop, kVDeinit.
  destruct p; repeat case_match; intros [= <-]; repeat match goal with H : (_ =? _) = true |- _ => apply Z.eqb_eq in H end; naive_solver.
Qed.

Lemma mirror_set_eq c t m : mirror_of (set_mirror c t m) t = m.
Proof. by destruct t. Qed.
Lemma mirror_set_ne c t m : mirror_of (set_mirror c t m) (negb t) = mirror_of c (negb t).
Proof. by destruct t. Qed.

(** What a step leaves of the context to the streams. *)
Definition stepped (t : bool) (c c' : VideoCtx) (r : list out_event * VideoPathMirror) : Prop :=
  v_out c' = r.1 /\ mirror_of c' t = r.2 /\ mirror_of c' (negb t) = mirror_of c (negb t) /\ orchestrator c' = orchestrator c /\
  ((exists n, quiesced n c) -> exists n, quiesced n c').

(** A mirror that keeps the reverse-teardown count keeps the confirmations. *)
Lemma quiesced_mirror t c m : deinit_step m = deinit_step (mirror_of c t) -> node_count m = node_count (mirror_of c t) ->
  (exists n, quiesced n c) -> exists n, quiesced n (set_mirror c t m).
Proof. intros H1 H2 [n Hq]. exists n. unfold quiesced in *. destruct t; cbn in *; [done|]. by rewrite H1, H2. Qed.

Lemma quiesced_submit c o : (exists n, quiesced n c) -> exists n, quiesced n (v_submit c o).
Proof. intros [n Hq]. exists n. unfold v_submit. by destruct (v_pool c). Qed.

Lemma submit_keeps c o t : mirror_of (v_submit c o) t = mirror_of c t /\ orchestrator (v_submit c o) = orchestrator c /\
  v_out (v_submit c o) = v_out c ++ (if v_pool c then [o] else []).
Proof. unfold v_submit. destruct (v_pool c); cbn; [by destruct t|by rewrite app_nil_r]. Qed.

Section actions.
Context (c : VideoCtx) (i : vinput) (t : bool) (Hout : v_out c = []) (Hpool : v_pool c = vi_pool i) (Htemp : v_temp (mirror_of c t) = t)
  (Horch : orchestrator c = 1) (Hsig : n_sig (vi_ev i) = kVideoCmd).

Lemma init_step_ok : video_cmd_of (vi_ev i) = 0 -> fsm (mirror_of c t) = kVideoIdle -> stepped t c (on_init c t) (video_solo t (mirror_of c t) i).
Proof.
  intros Hc Hf. unfold video_solo, acks, on_init. rewrite Hsig, Hc, Hf. cbn. rewrite <- Hpool.
  unfold stepped. rewrite !(proj1 (submit_keeps _ _ _)), mirror_set_eq, mirror_set_ne.
  destruct (submit_keeps (set_mirror c t (mkMirrorV kVideoReady (u32 (init_step (mirror_of c t) + (1 + node_count (mirror_of c t) + 1))) (deinit_step (mirror_of c t))
    (node_count (mirror_of c t)) (v_temp (mirror_of c t)) (rejected_cmds (mirror_of c t)))) (ready_ack (orchestrator c) t) t) as (_ & -> & ->).
  cbn [v_out v_pool set_mirror orchestrator]. rewrite Hout, Horch. split_and!; [by destruct (v_pool c)|done..|].
  intros Hq. apply quiesced_submit, quiesced_mirror; done.
Qed.

Lemma start_step_ok : video_cmd_of (vi_ev i) = 1 -> fsm (mirror_of c t) = kVideoReady -> stepped t c (on_start c t) (video_solo t (mirror_of c t) i).
Proof.
  intros Hc Hf. unfold video_solo, acks, on_start. rewrite Hsig, Hc, Hf. cbn. unfold stepped. rewrite mirror_set_eq, mirror_set_ne.
  split_and!; [rewrite <- Hpool; cbn; by destruct (v_pool c)|done..|]. intros Hq. by apply quiesced_mirror.
Qed.

Lemma stop_step_ok : video_cmd_of (vi_ev i) = 2 -> fsm (mirror_of c t) = kVideoRunning -> stepped t c (on_stop c t (n_meta (vi_ev i))) (video_solo t (mirror_of c t) i).
Proof.
  intros Hc Hf. unfold video_solo, acks, on_stop. rewrite Hsig, Hc, Hf. cbn [Z.eqb Pos.eqb kVideoCmd kVInit kVStop negb phase_next fst snd].
  pose proof (land_flag (m_flags (n_meta (vi_ev i))) 1 ltac:(lia)) as Hl. change (2 ^ 1) with 2 in Hl. unfold kVideoFlagWantIdleAck. rewrite Hl, Htemp.
  replace (negb ((if Z.testbit (m_flags (n_meta (vi_ev i))) 1 then 2 else 0) =? 0)) with (Z.testbit (m_flags (n_meta (vi_ev i))) 1) by (by destruct (Z.testbit _ 1)).
  change (raw kInvalidTarget) with 0. cbn [andb]. rewrite <- Hpool. unfold stepped. destruct (_ && _).
  - rewrite !(proj1 (submit_keeps _ _ _)), mirror_set_eq, mirror_set_ne.
    destruct (submit_keeps (set_mirror c t (set_fsm (mirror_of c t) kVideoReady)) (idle_ack t (n_meta (vi_ev i))) t) as (_ & -> & ->).
    cbn [v_out v_pool set_mirror orchestrator]. rewrite Hout. unfold set_fsm. rewrite Htemp. split_and!; [by destruct (v_pool c)|done..|].
    intros Hq. apply quiesced_submit, quiesced_mirror; done.
  - rewrite mirror_set_eq, mirror_set_ne. unfold set_fsm. rewrite Htemp. split_and!; [by destruct (v_pool c)|done..|]. intros Hq. by apply quiesced_mirror.
Qed.

Lemma deinit_step_ok : video_cmd_of (vi_ev i) = 3 -> fsm (mirror_of c t) = kVideoReady -> stepped t c (on_deinit c t) (video_solo t (mirror_of c t) i).
Proof.
  intros Hc Hf. unfold video_solo, acks, on_deinit. rewrite Hsig, Hc, Hf. cbn [Z.eqb Pos.eqb kVideoCmd kVInit kVStart kVStop kVDeinit negb phase_next fst snd andb].
  rewrite Htemp. unfold stepped. destruct t; cbn [negb].
  - rewrite mirror_set_eq, (mirror_set_ne _ true). split_and!; [by rewrite <- Hpool; destruct (v_pool c)|done..|]. intros [n Hq]. exists n. done.
  - change (QuiescePolicy true kSoutStopLatencyUs (sout_ioctls c)) with (3000, u32 (sout_ioctls c + 3)).
    change (QuiescePolicy kFmtHasIdleIrq kFmtStopLatencyUs (fmt_ioctls c)) with (25000, u32 (u32 (fmt_ioctls c + 1) + 25)).
    split_and!; [by rewrite <- Hpool; destruct (v_pool c)|done..|]. intros [n (Hn & Hk & Hd & Hs & Hm & _ & _)]. exists (n + 1).
    unfold quiesced. cbn [pic set_mirror node_count deinit_step sout_ioctls fmt_ioctls sout_quiesce_us fmt_quiesce_us mirror_of] in *.
    rewrite Hk, Hd, Hs, Hm, !wrap_add_wrap_l, (proj2 (Z.eqb_neq (n + 1) 0)) by lia. split_and!; try done; try lia; rewrite <- ?Z.add_assoc, ?wrap_add_wrap_l by lia; apply (f_equal (wrap 32)); lia.
Qed.
End actions.

Lemma reject_ok c t : v_out c = [] -> stepped t c (set_mirror c t (counted (mirror_of c t))) ([], counted (mirror_of c t)).
Proof.
  intros Ho. unfold stepped. rewrite mirror_set_eq, mirror_set_ne. split_and!; try done. intros Hq. by apply quiesced_mirror.
Qed.

(** A dispatch is the step of the stream the event names. *)
Lemma video_dispatch_solo p q c i :
  let t := negb (cmd_is_pic (vi_ev i)) in
  v_temp (mirror_of c t) = t -> orchestrator c = 1 -> fsm (pic c) = p -> fsm (temp c) = q ->
  exists b c', dispatch n_sig (video_machine (code p q)) (armed c (vi_pool i)) (vi_ev i) = Ret (b, c', video_machine (code (fsm (pic c')) (fsm (temp c')))) /\
    stepped t c c' (video_solo t (mirror_of c t) i).
Proof.
  intros t Ht Ho Hp Hq. assert (Hph : fsm (mirror_of c t) = if cmd_is_pic (vi_ev i) then p else q) by (subst t; by destruct (cmd_is_pic (vi_ev i))).
  assert (Harm : forall t, mirror_of (armed c (vi_pool i)) t = mirror_of c t) by (by intros []).
  assert (Hkeep : forall c' r, stepped t (armed c (vi_pool i)) c' r -> stepped t c c' r).
  { intros c' r (H1 & H2 & H3 & H4 & H5). unfold stepped. rewrite (Harm (negb t)) in H3. split_and!; [done..|]. intros Hq'. by apply H5. }
  destruct (decide (n_sig (vi_ev i) = kVideoCmd)) as [Hsig|Hsig].
  - destruct (video_dispatch n_sig cmd_is_pic video_cmd_of onVideoCmd onVideoCmdRejected p q (armed c (vi_pool i)) (vi_ev i) Hsig) as [b Hd].
    change (video_shape cmd_is_pic video_cmd_of onVideoCmd onVideoCmdRejected) with video_machine in Hd. rewrite <- Hph in Hd.
    destruct (phase_next (fsm (mirror_of c t)) (video_cmd_of (vi_ev i))) as [r|] eqn:Hn.
    + assert (Hst : stepped t (armed c (vi_pool i)) (onVideoCmd (armed c (vi_pool i)) (vi_ev i)) (video_solo t (mirror_of c t) i)).
      { unfold onVideoCmd. fold t. rewrite <- (Harm t). pose proof (Harm t) as Ha.
        destruct (phase_next_cmd _ _ _ Hn) as [(Hc & Hf & _)|[(Hc & Hf & _)|[(Hc & Hf & _)|(Hc & Hf & _)]]]; rewrite Hc;
          cbn [Z.eqb Pos.eqb kVInit kVStart kVStop kVDeinit];
          [apply init_step_ok|apply start_step_ok|apply stop_step_ok|apply deinit_step_ok]; try done; by rewrite Ha. }
      exists b, (onVideoCmd (armed c (vi_pool i)) (vi_ev i)). split; [|by apply Hkeep]. rewrite Hd. do 2 f_equal. destruct Hst as (_ & Hm & Hm' & _).
      unfold video_solo in Hm. rewrite Hsig, Hn in Hm. cbn in Hm. rewrite (Harm (negb t)) in Hm'. unfold t, mirror_of in Hm, Hm'. 
      destruct (cmd_is_pic (vi_ev i)); cbn in Hm, Hm'; rewrite Hm, Hm'; cbn; by rewrite ?Hp, ?Hq.
    + eexists b, _. split; [rewrite Hd; do 2 f_equal|apply Hkeep].
      * destruct (phase_rejects _ _); unfold onVideoCmdRejected; [|by rewrite <- Hp, <- Hq]. rewrite <- Hp, <- Hq. by destruct (cmd_is_pic (vi_ev i)).
      * unfold video_solo. rewrite Hsig, Hn. cbn [Z.eqb kVideoCmd Pos.eqb negb]. destruct (phase_rejects _ _); [|by unfold stepped; rewrite !Harm].
        unfold onVideoCmdRejected. fold t. rewrite (Harm t). pose proof (reject_ok (armed c (vi_pool i)) t eq_refl) as Hr. by rewrite (Harm t) in Hr.
  - destruct (video_other n_sig cmd_is_pic video_cmd_of onVideoCmd onVideoCmdRejected (code p q) (armed c (vi_pool i)) (vi_ev i)) as [b Hd]; [by destruct p, q|done|].
    exists b, (armed c (vi_pool i)). split.
    + change (video_shape cmd_is_pic video_cmd_of onVideoCmd onVideoCmdRejected) with video_machine in Hd. rewrite Hd. cbn [armed pic temp]. by rewrite Hp, Hq.
    + apply Hkeep. unfold video_solo. rewrite (proj2 (Z.eqb_neq _ _) Hsig). unfold stepped. by rewrite !Harm.
Qed.

Lemma video_step_sees v s i : video_sees v s -> true = true ->
  exists o v', video_step v i = Ret (o, v') /\ video_sees v' (both_next vi_own video_solo s i) /\
    forall t, vi_own t i = true -> o = (video_solo t (s t) i).1.
Proof.
  intros [Hm Hst Ht Ho Hq] _. destruct v as [st c]. cbn [fst snd] in *. set (w := negb (cmd_is_pic (vi_ev i))).
  pose proof (Hm false) as Hpic. pose proof (Hm true) as Htem. cbn in Hpic, Htem.
  destruct (video_dispatch_solo (fsm (s false)) (fsm (s true)) c i) as (b & c' & Hd & Hout & Hown & Hoth & Horch & Hqu);
    [by rewrite Hm|done|by rewrite Hpic|by rewrite Htem|]. fold w in Hout, Hown, Hoth. rewrite (Hm w) in Hown, Hout. rewrite (Hm (negb w)) in Hoth.
  exists (v_out c'), (code (fsm (pic c')) (fsm (temp c')), c'). unfold video_step. cbn [fst snd]. rewrite Hst, Hd. cbn [mbind outcome_bind].
  assert (Hboth : forall t, mirror_of c' t = both_next vi_own video_solo s i t).
  { intros t. unfold both_next, vi_own. fold w. destruct (Bool.eqb t w) eqn:E; [apply Bool.eqb_prop in E; by rewrite E|].
    assert (t = negb w) as -> by (destruct t, w; done). by rewrite Hoth. }
  split; [done|]. split; [|intros t Hown'; apply Bool.eqb_prop in Hown'; by rewrite Hown'].
  split; cbn [fst snd]; [done| | |by rewrite Horch|exact (Hqu Hq)].
  - by rewrite <- !Hboth.
  - intros t. unfold both_next, video_solo. clear -Ht. repeat case_match; apply Ht.
Qed.

(** One object runs both video streams as if each had an object of its own.
    Whatever sequence of events the object gets, of both streams in any order,
    legal and illegal commands and other signals, with or without a free block
    for an acknowledgement, to each stream its acknowledgements and its mirror
    (phase, teardown and bring-up counts, rejected commands) are those of a
    three-phase machine that sees only the events of that stream; the state of
    the nine is the pair of the two phases.  The stop confirmations count only
    the picture stream's teardowns. *)
Theorem streams_do_not_interfere (is_ : list vinput) :
  exists os c, both_run video_step (kVfII, video_ctx0) is_ = Ret (os, (code (fsm (pic c)) (fsm (temp c)), c)) /\ length os = length is_ /\
    (forall t, solo_run (video_solo t) (mirror_of video_ctx0 t) (List.filter (vi_own t) is_) = (on_own (vi_own t) is_ os, mirror_of c t)) /\
    exists n, quiesced n c.
Proof.
  destruct (streams_apart video_step vi_own video_solo video_sees (fun _ _ => true) video_step_sees is_ (kVfII, video_ctx0) (mirror_of video_ctx0))
    as (os & [st c] & s & Hr & [Hm Hst _ _ Hq] & Hlen & Ht).
  - split; try done; [by intros []|]. exists 0. done.
  - generalize (mirror_of video_ctx0). induction is_ as [|i is_ IH]; intros s; [done|apply IH].
  - cbn [fst snd] in *. exists os, c. rewrite Hr, Hst. split_and!; [|done| |done].
    + by rewrite <- (Hm false), <- (Hm true).
    + intros t. by rewrite Ht, Hm.
Qed.

(** ** The pack object *)

Section pack_arcs.
Context {C E : Type} (sig : E -> Z) (inp int restamp donep donet : C -> E -> C).

Definition pack_shape (s : Z) : Hsm C E :=
  mkHsm (mkState (-1) None None (-1) :: replicate 4 (mkState 0 None None (-1)))
    [mkTrans 1 31 2 External None (Some inp); mkTrans 3 31 4 External None (Some inp);
     mkTrans 2 31 2 Internal None (Some inp); mkTrans 4 31 4 Internal None (Some inp);
     mkTrans 1 32 3 External None (Some int); mkTrans 2 32 4 External None (Some int);
     mkTrans 3 32 3 Internal None (Some int); mkTrans 4 32 4 Internal None (Some int);
     mkTrans 1 28 1 Internal None (Some restamp); mkTrans 2 28 2 Internal None (Some restamp);
     mkTrans 3 28 3 Internal None (Some restamp); mkTrans 4 28 4 Internal None (Some restamp);
     mkTrans 2 33 1 External None (Some donep); mkTrans 4 33 3 External None (Some donep);
     mkTrans 1 33 1 Internal None (Some donep); mkTrans 3 33 3 Internal None (Some donep);
     mkTrans 3 34 1 External None (Some donet); mkTrans 4 34 2 External None (Some donet);
     mkTrans 1 34 1 Internal None (Some donet); mkTrans 2 34 2 Internal None (Some donet)] 1 2 s.

Definition pack_action (k : Z) : option (C -> E -> C) :=
  if k =? 31 then Some inp else if k =? 32 then Some int else if k =? 28 then Some restamp else if k =? 33 then Some donep else if k =? 34 then Some donet else None.

Lemma pack_dispatch s c e : 1 <= s <= 4 ->
  exists b s', 1 <= s' <= 4 /\ dispatch sig (pack_shape s) c e = Ret (b, match pack_action (sig e) with Some f => f c e | None => c end, pack_shape s').
Proof.
  intros Hs. assert (Hk : s = 1 \/ s = 2 \/ s = 3 \/ s = 4) by lia. unfold dispatch. change (current_ (pack_shape s)) with s. rewrite (proj2 (Z.ltb_ge _ 0)) by lia.
  change (chain_fuel (pack_shape s)) with 6%nat. cbn [dispatch_loop].
  destruct (pack_action (sig e)) as [f|] eqn:Ha.
  - assert (Hs5 : sig e = 31 /\ f = inp \/ sig e = 32 /\ f = int \/ sig e = 28 /\ f = restamp \/ sig e = 33 /\ f = donep \/ sig e = 34 /\ f = donet).
    { unfold pack_action in Ha. repeat case_match; try injection Ha as <-; try done; repeat match goal with H : (_ =? _) = true |- _ => apply Z.eqb_eq in H end; naive_solver. }
    unfold find_transition. destruct_or! Hs5; destruct Hs5 as [Hsig ->]; rewrite (find_in_filter _ _ _ _ _ _ Hsig);
      destruct_or! Hk; subst s; eexists _, _; (split; [|vm_compute; reflexivity]); lia.
  - assert (Hn : forall src, find_transition sig (pack_shape s) c e src = None).
    { intros src. unfold find_transition. apply find_in_none. unfold pack_action in Ha. repeat case_match; try done.
      repeat match goal with H : (_ =? _) = false |- _ => apply Z.eqb_neq in H end. repeat constructor; cbn; congruence. }
    rewrite Hn. exists false, s. split; [done|]. by destruct_or! Hk; subst s.
Qed.
End pack_arcs.

(** *** Runs *)

(** An event, with the answers of the writeback channel and of the pool. *)
Record pinput := mkPin { pi_ev : nevent; pi_taken : bool; pi_pool : bool }.

(** The stream of an event: its signal's, or for the shared completion signal
    the one its argument names. *)
Definition pi_temp (i : pinput) : bool :=
  let g := n_sig (pi_ev i) in
  (g =? kEnhanceDoneTemp) || (g =? kSoutDoneTemp) || (g =? kSoutDone) && negb (m_cmd_arg (n_meta (pi_ev i)) =? 0).
Definition pi_own (t : bool) (i : pinput) : bool := Bool.eqb t (pi_temp i).

Definition primed (c : VideoPackCtx) (i : pinput) : VideoPackCtx := mkPack (pk_pic c) (pk_temp c) (pk_ddr c) (pi_taken i) (pi_pool i) [] false.

Definition pack_step (v : Z * VideoPackCtx) (i : pinput) : outcome (list out_event * (Z * VideoPackCtx)) :=
  '(_, c, h) ← dispatch n_sig (pack_machine v.1) (primed v.2 i) (pi_ev i);
  if pk_fatal c then Fatal else mret (pk_out c, (current_ h, c)).

Definition pack_ctx0 : VideoPackCtx := mkPack path0 path0 ddr0 false false [] false.

Definition in_sig (t : bool) : Z := if t then kEnhanceDoneTemp else kEnhanceDonePic.
Definition done_sig (t : bool) : Z := if t then kSoutDoneTemp else kSoutDonePic.

(** A stream alone, with a table of the frames under writeback. *)
Definition pack_solo (t : bool) (tb : table) (i : pinput) : list out_event * table :=
  let m := n_meta (pi_ev i) in let g := n_sig (pi_ev i) in
  if g =? in_sig t then (if pi_taken i then [] else self_complete_sout t (frame_id m) (pi_pool i), t_park tb m)
  else if g =? done_sig t then
    let '(hit, tb) := t_unpark tb (frame_id m) in
    (match hit with Some hit => if pi_pool i then [packed_event t hit] else [] | None => [] end, tb)
  else if g =? kSoutDone then (if pi_pool i then [restamped m] else [], tb)
  else ([], tb).

(** Frames with their slots, and room in the ring of their stream. *)
Definition pack_ok (s : bool -> table) (i : pinput) : bool :=
  let m := n_meta (pi_ev i) in let g := n_sig (pi_ev i) in let t := pi_temp i in
  (0 <=? frame_id m) && (frame_id m <? 2 ^ 32) &&
  (negb (g =? in_sig t) || (buffer_idx m =? frame_id m mod 8) && may_park (s t) m) && (negb (g =? done_sig t) || may_unpark (s t) (frame_id m)).

Record pack_sees (v : Z * VideoPackCtx) (s : bool -> table) : Prop := {
  ps_state : 1 <= v.1 <= 4;
  ps_ddr : exists d, ddr_inv d (pk_ddr v.2);
  ps_ring : forall t, stands_for (p_ring (path_of v.2 t)) (s t)
}.

(** What an action on stream [t] leaves. *)
Definition packed (t : bool) (c c' : VideoPackCtx) (r : list out_event * table) : Prop :=
  pk_fatal c' = false /\ pk_out c' = r.1 /\ (exists d, ddr_inv d (pk_ddr c')) /\ stands_for (p_ring (path_of c' t)) r.2 /\ path_of c' (negb t) = path_of c (negb t).

Lemma input_packed t c i tb : n_sig (pi_ev i) = in_sig t -> (exists d, ddr_inv d (pk_ddr c)) -> stands_for (p_ring (path_of c t)) tb ->
  in_u 32 (frame_id (n_meta (pi_ev i))) -> buffer_idx (n_meta (pi_ev i)) = frame_id (n_meta (pi_ev i)) mod 8 -> may_park tb (n_meta (pi_ev i)) = true ->
  packed t c (on_pack_input t (primed c i) (pi_ev i)) (pack_solo t tb i).
Proof.
  intros Hsig [d Hd] Hr Hf Hb Hm. unfold pack_solo. rewrite Hsig, Z.eqb_refl. unfold on_pack_input, on_input. cbn [primed pk_ddr pk_taken pk_pool].
  destruct (slot_range _ Hf) as [Hslot Hrange]. assert (Hu : u16 (buffer_idx (n_meta (pi_ev i))) = dn_slot_of (frame_id (n_meta (pi_ev i)))).
  { rewrite Hb, Hslot. apply wrap_small. unfold in_u. lia. }
  rewrite Hu. destruct (read_keeps d (pk_ddr c) (in_region t) (frame_id (n_meta (pi_ev i))) Hd ltac:(by destruct t) Hf) as (d' & -> & Hd'). cbn [mbind outcome_bind].
  assert (Hp : p_ring (account (path_of (primed c i) t) (pack_latency_us t)) = p_ring (path_of c t)) by (by destruct t). rewrite Hp.
  destruct (park_stands _ _ _ Hr Hm) as (r' & -> & Hr'). cbn [mbind outcome_bind].
  unfold packed. destruct (pi_taken i); cbn [mret outcome_ret set_path pk_fatal pk_out pk_ddr primed app fst snd];
    (split_and!; [done|done|by exists d| |by destruct t]); by destruct t.
Qed.

Lemma done_packed t c i tb : n_sig (pi_ev i) = done_sig t -> (exists d, ddr_inv d (pk_ddr c)) -> stands_for (p_ring (path_of c t)) tb ->
  may_unpark tb (frame_id (n_meta (pi_ev i))) = true -> packed t c (on_sout_done t (primed c i) (n_meta (pi_ev i))) (pack_solo t tb i).
Proof.
  intros Hsig Hd Hr Hm. unfold pack_solo. rewrite Hsig, Z.eqb_refl, (proj2 (Z.eqb_neq (done_sig t) (in_sig t))) by (by destruct t).
  destruct (unpark_stands _ _ _ Hr Hm) as [Hu Hr']. destruct (t_unpark tb _) as [hit tb'] eqn:Et. cbn [fst snd] in Hu, Hr'. unfold on_sout_done.
  assert (Hp : path_of (primed c i) t = path_of c t) by (by destruct t). rewrite Hp. destruct (unpark _ _) as [h r]. cbn [fst snd] in Hu, Hr'. subst h.
  cbn [primed pk_pool pk_ddr]. unfold packed. destruct hit as [hit|].
  - destruct (pi_pool i); cbn [negb set_path pk_fatal pk_out pk_ddr primed app fst snd]; (split_and!; [done|done|done| |by destruct t]); by destruct t.
  - cbn [set_path pk_fatal pk_out pk_ddr primed app fst snd]. split_and!; [done|done|done| |by destruct t].
    assert (tb' = tb) as -> by exact (t_unpark_miss _ _ _ Et). by destruct t.
Qed.

Lemma restamp_packed t c i tb : n_sig (pi_ev i) = kSoutDone -> (exists d, ddr_inv d (pk_ddr c)) -> stands_for (p_ring (path_of c t)) tb ->
  packed t c (onSoutDoneRestamp (primed c i) (pi_ev i)) (pack_solo t tb i).
Proof.
  intros Hsig Hd Hr. unfold pack_solo, packed, onSoutDoneRestamp. rewrite Hsig. cbn [primed pk_pool].
  destruct t, (pi_pool i); cbn; by split_and!.
Qed.

Lemma pack_ok_facts s i : pack_ok s i = true ->
  in_u 32 (frame_id (n_meta (pi_ev i))) /\
  (n_sig (pi_ev i) = in_sig (pi_temp i) -> buffer_idx (n_meta (pi_ev i)) = frame_id (n_meta (pi_ev i)) mod 8 /\ may_park (s (pi_temp i)) (n_meta (pi_ev i)) = true) /\
  (n_sig (pi_ev i) = done_sig (pi_temp i) -> may_unpark (s (pi_temp i)) (frame_id (n_meta (pi_ev i))) = true).
Proof.
  intros Hok. unfold pack_ok in Hok. apply andb_true_iff in Hok as [[[H1 H2]%andb_true_iff H3]%andb_true_iff H4]. split_and!; [unfold in_u; lia| |].
  - intros E. rewrite E, Z.eqb_refl in H3. cbn [negb orb] in H3. apply andb_true_iff in H3 as [H3%Z.eqb_eq ?]. done.
  - intros E. by rewrite E, Z.eqb_refl in H4.
Qed.

(** A dispatch is the step of the stream the event is for. *)
Lemma pack_dispatch_solo v s i : pack_sees v s -> pack_ok s i = true ->
  exists b c' st, dispatch n_sig (pack_machine v.1) (primed v.2 i) (pi_ev i) = Ret (b, c', pack_machine st) /\ 1 <= st <= 4 /\
    packed (pi_temp i) v.2 c' (pack_solo (pi_temp i) (s (pi_temp i)) i).
Proof.
  intros [Hst Hd Hr] Hok. destruct (pack_ok_facts _ _ Hok) as (Hf & Hin & Hdone). specialize (Hr (pi_temp i)).
  destruct (pack_dispatch n_sig onEnhanceDonePack onTempChainDonePack onSoutDoneRestamp onSoutDonePicPack onSoutDoneTempPack v.1 (primed v.2 i) (pi_ev i) Hst)
    as (b & st & Hst' & Hdisp).
  change (pack_shape onEnhanceDonePack onTempChainDonePack onSoutDoneRestamp onSoutDonePicPack onSoutDoneTempPack) with pack_machine in Hdisp.
  eexists b, _, st. split; [exact Hdisp|]. split; [done|]. clear Hdisp Hok. unfold pack_action.
  destruct (n_sig (pi_ev i) =? 31) eqn:E1; [apply Z.eqb_eq in E1|].
  { assert (Ht : pi_temp i = false) by (unfold pi_temp; by rewrite E1). rewrite Ht in *. destruct (Hin E1). by apply input_packed. }
  destruct (n_sig (pi_ev i) =? 32) eqn:E2; [apply Z.eqb_eq in E2|].
  { assert (Ht : pi_temp i = true) by (unfold pi_temp; by rewrite E2). rewrite Ht in *. destruct (Hin E2). by apply input_packed. }
  destruct (n_sig (pi_ev i) =? 28) eqn:E3; [apply Z.eqb_eq in E3; by apply restamp_packed|].
  destruct (n_sig (pi_ev i) =? 33) eqn:E4; [apply Z.eqb_eq in E4|].
  { assert (Ht : pi_temp i = false) by (unfold pi_temp; by rewrite E4). rewrite Ht in *. apply done_packed; auto. }
  destruct (n_sig (pi_ev i) =? 34) eqn:E5; [apply Z.eqb_eq in E5|].
  { assert (Ht : pi_temp i = true) by (unfold pi_temp; by rewrite E5). rewrite Ht in *. apply done_packed; auto. }
  assert (Ht : pi_temp i = false) by (unfold pi_temp, kEnhanceDoneTemp, kSoutDoneTemp, kSoutDone; by rewrite E2, E5, E3). rewrite Ht in *.
  unfold pack_solo, in_sig, done_sig, kEnhanceDonePic, kSoutDonePic, kSoutDone. rewrite E1, E4, E3. done.
Qed.

Lemma pack_step_sees v s i : pack_sees v s -> pack_ok s i = true ->
  exists o v', pack_step v i = Ret (o, v') /\ pack_sees v' (both_next pi_own pack_solo s i) /\ forall t, pi_own t i = true -> o = (pack_solo t (s t) i).1.
Proof.
  intros Hs Hok. destruct (pack_dispatch_solo v s i Hs Hok) as (b & c' & st & Hd & Hst & Hfat & Hout & Hddr & Hring & Hoth). destruct Hs as [_ _ Hr].
  exists (pk_out c'), (st, c'). unfold pack_step. rewrite Hd. cbn [mbind outcome_bind]. rewrite Hfat. split; [done|].
  split; [|intros t Ht; apply Bool.eqb_prop in Ht; by rewrite Ht]. split; [done|done|]. intros t. cbn [snd]. unfold both_next, pi_own.
  destruct (Bool.eqb t (pi_temp i)) eqn:E; [apply Bool.eqb_prop in E; by rewrite E|].
  assert (t = negb (pi_temp i)) as -> by (by destruct t, (pi_temp i)). rewrite Hoth. apply Hr.
Qed.

(** The pack object releases every frame of either stream once, when its own
    writeback completes.  Whatever order the frames and completions of the two
    streams come in, whatever the channel and the pool answer and in whichever of
    its four states the machine is, each stream's packed frames and its
    in-flight count are those of a pack object that serves this stream alone and
    keeps an unbounded table of the frames under writeback; a completion of the
    shared signal is passed on to the stream it names.  The proviso [pack_ok]: a
    frame comes while none of its stream is left from four places back, under a
    number no waiting frame of its stream has. *)
Theorem pack_serves_streams_apart (is_ : list pinput) :
  both_ok pi_own pack_solo pack_ok (fun _ => table0) is_ = true ->
  exists os st c, both_run pack_step (kPackBA, pack_ctx0) is_ = Ret (os, (st, c)) /\ length os = length is_ /\
    forall t, exists tb, solo_run (pack_solo t) table0 (List.filter (pi_own t) is_) = (on_own (pi_own t) is_ os, tb) /\
      in_flight (p_ring (path_of c t)) = Z.of_nat (length (waiting tb)).
Proof.
  intros Hok. destruct (streams_apart pack_step pi_own pack_solo pack_sees pack_ok pack_step_sees is_ (kPackBA, pack_ctx0) (fun _ => table0))
    as (os & [st c] & s & Hr & [_ _ Hring] & Hlen & Ht); [|done|].
  - split; [done|exists (fun _ _ => None); apply ddr_inv0|]. intros []; apply stands_for0.
  - exists os, st, c. split_and!; [done..|]. intros t. exists (s t). split; [by rewrite Ht|]. apply (sf_flight _ _ (Hring t)).
Qed.

Definition pin (g f arg : Z) (taken : bool) : pinput := mkPin (mkNev g (mkMeta 0 f 640 512 arg 0 0 0 (f mod 8) 0)) taken true.

(** Frames of both streams overlap; one of each is refused by the channel and
    completes through the shared signal. *)
Definition both_streams : list pinput :=
  [pin kEnhanceDonePic 1 0 true; pin kEnhanceDoneTemp 1 0 true; pin kEnhanceDonePic 2 0 false; pin kSoutDone 2 0 true; pin kSoutDoneTemp 1 0 true;
   pin kSoutDonePic 2 0 true; pin kEnhanceDoneTemp 3 0 false; pin kSoutDonePic 1 0 true; pin kSoutDone 3 1 true; pin kSoutDoneTemp 3 0 true].

Lemma pack_serves_streams_apart_witness :
  both_ok pi_own pack_solo pack_ok (fun _ => table0) both_streams = true /\
  exists os st c, both_run pack_step (kPackBA, pack_ctx0) both_streams = Ret (os, (st, c)) /\ length os = 10%nat /\
    forall t, exists tb, solo_run (pack_solo t) table0 (List.filter (pi_own t) both_streams) = (on_own (pi_own t) both_streams os, tb) /\
      in_flight (p_ring (path_of c t)) = Z.of_nat (length (waiting tb)).
Proof. split; [reflexivity|]. apply (pack_serves_streams_apart both_streams). reflexivity. Defined.

(** ** Outside the comments *)

(** A frame the channel refuses is not dropped: it waits in the ring, the object
    completes it itself, and it is released like any other. *)
Lemma refused_frame_is_delivered :
  (r ← both_run pack_step (kPackBA, pack_ctx0) [pin kEnhanceDonePic 5 0 false; pin kSoutDone 5 0 true; pin kSoutDonePic 5 0 true]; mret (map (map o_sig) r.1)) =
  Ret [[kSoutDone]; [kSoutDonePic]; [kPicPacked]].
Proof. vm_compute. reflexivity. Qed.

(** Of the illegal commands only a start of an idle stream is counted; a second
    initialisation is not. *)
Lemma second_init_uncounted :
  let init := mkVin (mkNev kVideoCmd (mkMeta 0 0 640 512 kVInit 0 0 0 0 0)) true in
  let start := mkVin (mkNev kVideoCmd (mkMeta 0 0 640 512 kVStart 0 0 0 0 0)) true in
  (r ← both_run video_step (kVfII, video_ctx0) [start; init; init]; mret (r.2.1, rejected_cmds (pic r.2.2), fsm (pic r.2.2))) = Ret (kVfRI, 1, kVideoReady).
Proof. vm_compute. reflexivity. Qed.
