(* ===== verification/Output.v ===== *)
(** * The output side (examples/isp_pipeline/output_itf.hpp)

    The two sinks with their byte checks and the parking of frames on the lane,
    the framing object between the picture stream and the USB engine of
    [UsbDma.v], the host observer and the orchestrator's counters.  A packed
    frame comes with its descriptor and the route tag in its control bytes.
    Printed and logged lines are left out. *)

From S2P Require Import Prelude Vocab Hsm Mem Ddr Parking IspChain UsbDma.

Definition kFirstFrame : Z := 22.
Definition kMipiTxDone : Z := 29.
Definition kMipiStreamErr : Z := 36.
Definition kMipiTxLatencyUs : Z := 600.
Definition kInvalidFrame : Z := 0xFFFFFFFF.

(** An event with the control bytes of its payload. *)
Record pevent := mkPev { pe_sig : Z; pe_meta : IoMeta; pe_control : list Z }.

(** ** Machines with one state *)

Definition COACT_HSM_STATES (C : Type) : list (StateDef C) := [mkState (-1) None None (-1); mkState 0 None None (-1)].
Definition COACT_HSM_TRANS {C E : Type} (sig : Z) (act : C -> E -> C) : TransitionDef C E := mkTrans 1 sig 1 Internal None (Some act).

(** ** Sinks *)

Record SinkCtx := mkSink {
  expected_tag : list Z; s_frames_received : Z; s_total_us : Z; first_frame_id : Z; s_last_frame_id : Z; tag_mismatch : Z; byte_mismatch : Z;
  frame_overrun : Z; tx_parked : list Z; tx_park_head : Z; tx_subs : Z; tx_rejects : Z; tx_done_count : Z; tx_stale : Z; stream_errs : Z
}.

Definition sink0 (tag : list Z) : SinkCtx := mkSink tag 0 0 kInvalidFrame 0 0 0 0 [0; 0] 0 0 0 0 0 0.
Definition kTxParkDepth : Z := 2.

Definition wrong_tag (expected control : list Z) : bool :=
  negb (nth 0 control 0 =? nth 0 expected 0) || negb (nth 1 control 0 =? nth 1 expected 0) || negb (nth 2 control 0 =? nth 2 expected 0).

Definition check_tag (c : SinkCtx) (control : list Z) : SinkCtx :=
  if wrong_tag (expected_tag c) control then
    mkSink (expected_tag c) (s_frames_received c) (s_total_us c) (first_frame_id c) (s_last_frame_id c) (u32 (tag_mismatch c + 1)) (byte_mismatch c)
      (frame_overrun c) (tx_parked c) (tx_park_head c) (tx_subs c) (tx_rejects c) (tx_done_count c) (tx_stale c) (stream_errs c)
  else c.

Definition set_checks (c : SinkCtx) (bytes overrun : Z) : SinkCtx :=
  mkSink (expected_tag c) (s_frames_received c) (s_total_us c) (first_frame_id c) (s_last_frame_id c) (tag_mismatch c) bytes overrun
    (tx_parked c) (tx_park_head c) (tx_subs c) (tx_rejects c) (tx_done_count c) (tx_stale c) (stream_errs c).

(** The recomputed pipeline, as the checks write it. *)
Definition expected_fus (f i : Z) : Z :=
  let dn := Z.land (u32 (u32 (f * 7) + i)) 0xFF in
  let lg := dn * 3 / 4 in
  let hg := Z.land (dn * 5 / 4) 0xFF in
  (lg * 2 + hg * 3) / 5.
Definition expected_pic (f i : Z) : Z := u8 (Z.land (expected_fus f i * 6 / 5) 0xFF).
Definition expected_temp (f i : Z) : Z := u8 (Z.land (expected_fus f i / 2 + 32) 0xFF).

(** The loop over the bytes, with the counter. *)
Fixpoint count_bytes (expected : Z -> Z) (i : Z) (got : list Z) (n : Z) : Z :=
  match got with
  | [] => n
  | g :: got => count_bytes expected (i + 1) got (if g =? expected i then n else u32 (n + 1))
  end.

Definition verify (region : Z) (expected : Z -> Z -> Z) (c : SinkCtx) (d : DdrCtx) (m : IoMeta) : outcome (SinkCtx * DdrCtx) :=
  '(got, d) ← ddr_read d region (u16 (buffer_idx m)) (frame_id m);
  match got with
  | None => mret (set_checks c (byte_mismatch c) (u32 (frame_overrun c + 1)), d)
  | Some got => mret (set_checks c (count_bytes (expected (frame_id m)) 0 got (byte_mismatch c)) (frame_overrun c), d)
  end.
Definition verify_pic_bytes := verify kDdrPicOut expected_pic.
Definition verify_temp_bytes := verify kDdrTemp expected_temp.

Definition seen (c : SinkCtx) (f us received : Z) : SinkCtx :=
  mkSink (expected_tag c) (u32 (s_frames_received c + received)) (u32 (s_total_us c + us)) (if first_frame_id c =? kInvalidFrame then f else first_frame_id c) f
    (tag_mismatch c) (byte_mismatch c) (frame_overrun c) (tx_parked c) (tx_park_head c) (tx_subs c) (tx_rejects c) (tx_done_count c) (tx_stale c) (stream_errs c).

Definition onPicPacked (c : SinkCtx) (d : DdrCtx) (e : pevent) : outcome (SinkCtx * DdrCtx) :=
  '(c, d) ← verify_pic_bytes (check_tag c (pe_control e)) d (pe_meta e);
  mret (seen c (frame_id (pe_meta e)) 800 1, d).

(** *** The lane *)

Definition set_lane (c : SinkCtx) (parked : list Z) (head subs rejects : Z) : SinkCtx :=
  mkSink (expected_tag c) (s_frames_received c) (s_total_us c) (first_frame_id c) (s_last_frame_id c) (tag_mismatch c) (byte_mismatch c) (frame_overrun c)
    parked head subs rejects (tx_done_count c) (tx_stale c) (stream_errs c).

Definition self_complete_tx (f : Z) (pool : bool) : list out_event :=
  if pool then [mkOut kMipiTxDone (mkMeta 0 f 640 512 0 0 0 0 0 0) 0xFF 0xFF] else [].

(** [taken]: the answer of the lane's worker, which is given the low half of the number. *)
Definition onTempPacked (c : SinkCtx) (d : DdrCtx) (e : pevent) (taken pool : bool) : outcome (SinkCtx * DdrCtx * list out_event) :=
  let f := frame_id (pe_meta e) in
  '(c, d) ← verify_temp_bytes (check_tag c (pe_control e)) d (pe_meta e);
  if taken then
    match tx_parked c !! Z.to_nat (tx_park_head c) with
    | Some _ =>
      let c := set_lane c (<[Z.to_nat (tx_park_head c) := f]> (tx_parked c)) (u8 ((tx_park_head c + 1) mod kTxParkDepth)) (u32 (tx_subs c + 1)) (tx_rejects c) in
      mret (seen c f 0 0, d, [])
    | None => Fatal
    end
  else
    let c := set_lane c (tx_parked c) (tx_park_head c) (tx_subs c) (u32 (tx_rejects c + 1)) in
    mret (seen c f 0 0, d, self_complete_tx f pool).

Definition onMipiTxDone (c : SinkCtx) (m : IoMeta) : SinkCtx :=
  match find_idx (fun x => x =? frame_id m) (tx_parked c) with
  | None =>
    mkSink (expected_tag c) (s_frames_received c) (s_total_us c) (first_frame_id c) (s_last_frame_id c) (tag_mismatch c) (byte_mismatch c) (frame_overrun c)
      (tx_parked c) (tx_park_head c) (tx_subs c) (tx_rejects c) (tx_done_count c) (u32 (tx_stale c + 1)) (stream_errs c)
  | Some i =>
    mkSink (expected_tag c) (u32 (s_frames_received c + 1)) (u32 (s_total_us c + kMipiTxLatencyUs)) (first_frame_id c) (s_last_frame_id c) (tag_mismatch c)
      (byte_mismatch c) (frame_overrun c) (<[i := kInvalidFrame]> (tx_parked c)) (tx_park_head c) (tx_subs c) (tx_rejects c) (u32 (tx_done_count c + 1))
      (tx_stale c) (stream_errs c)
  end.

Definition onMipiStreamErr (c : SinkCtx) : SinkCtx :=
  mkSink (expected_tag c) (s_frames_received c) (s_total_us c) (first_frame_id c) (s_last_frame_id c) (tag_mismatch c) (byte_mismatch c) (frame_overrun c)
    (tx_parked c) (tx_park_head c) (tx_subs c) (tx_rejects c) (tx_done_count c) (tx_stale c) (u32 (stream_errs c + 1)).

(** *** The lane object *)

(** The context of a dispatch, as in [IspChain.v]. *)
Record MipiAo := mkMipi { mi : SinkCtx; mi_ddr : DdrCtx; mi_taken : bool; mi_pool : bool; mi_out : list out_event; mi_fatal : bool }.

Definition on_temp_packed (a : MipiAo) (e : pevent) : MipiAo :=
  match onTempPacked (mi a) (mi_ddr a) e (mi_taken a) (mi_pool a) with
  | Ret (c, d, out) => mkMipi c d (mi_taken a) (mi_pool a) (mi_out a ++ out) (mi_fatal a)
  | Fatal => mkMipi (mi a) (mi_ddr a) (mi_taken a) (mi_pool a) (mi_out a) true
  end.
Definition on_tx_done (a : MipiAo) (e : pevent) : MipiAo :=
  mkMipi (onMipiTxDone (mi a) (pe_meta e)) (mi_ddr a) (mi_taken a) (mi_pool a) (mi_out a) (mi_fatal a).
Definition on_stream_err (a : MipiAo) (_ : pevent) : MipiAo :=
  mkMipi (onMipiStreamErr (mi a)) (mi_ddr a) (mi_taken a) (mi_pool a) (mi_out a) (mi_fatal a).

Definition kTempPackedSig : Z := 18.
Definition kMipiRoot : Z := 0.
Definition kMipiActive : Z := 1.
Definition kMipiTxPending : Z := 2.

Definition kMipiStates : list (StateDef MipiAo) := [mkState (-1) None None (-1); mkState kMipiRoot None None (-1); mkState kMipiRoot None None (-1)].
Definition kMipiSinkTransitions : list (TransitionDef MipiAo pevent) :=
  [mkTrans kMipiActive kTempPackedSig kMipiTxPending External None (Some on_temp_packed);
   mkTrans kMipiTxPending kTempPackedSig kMipiTxPending Internal None (Some on_temp_packed);
   mkTrans kMipiTxPending kMipiTxDone kMipiActive External None (Some on_tx_done);
   mkTrans kMipiActive kMipiTxDone kMipiActive Internal None (Some on_tx_done);
   mkTrans kMipiTxPending kMipiStreamErr kMipiTxPending Internal None (Some on_stream_err);
   mkTrans kMipiActive kMipiStreamErr kMipiActive Internal None (Some on_stream_err)].
Definition mipi_machine (s : Z) : Hsm MipiAo pevent := mkHsm kMipiStates kMipiSinkTransitions kMipiActive 2 s.

(** The completion and the error interrupt the lane's worker raises. *)
Definition mipi_execute (job : Z) (pool : bool) : list out_event :=
  if pool then [mkOut kMipiTxDone (mkMeta 0 (u16 job) 640 512 0 0 0 0 0 0) 0xFF 0xFF] else [].
Definition inject_stream_error (f : Z) (pool : bool) : list out_event :=
  if pool then [mkOut kMipiStreamErr (mkMeta 0 f 640 512 0 0 0 0 0 0) 0xFF 0xFF] else [].

(** ** Framing *)

Definition kX1FrameBytes : Z := 640 * 512 * 2.
Definition kOutFrameBytes : Z := 1280 * 1024 * 2.
Definition kStreamVldNum : Z := 1280 * 1024.
Definition kZoomStepIdentity : Z := 256.
Definition kZoomStep2x : Z := 128.

Record HwStateBlackboard := mkBb { zoom_active : bool; zoom_step : Z; stream_vld_num : Z; configured_frame_bytes : Z; stale_x1_framing : bool }.
Definition g_hw_bb0 : HwStateBlackboard := mkBb true kZoomStep2x kStreamVldNum kOutFrameBytes false.

Definition hw_bb_set_zoom_step (b : HwStateBlackboard) (step : Z) : HwStateBlackboard :=
  mkBb (zoom_active b) step (stream_vld_num b) (configured_frame_bytes b) (stale_x1_framing b).
Definition hw_bb_set_wrape_framing (b : HwStateBlackboard) (bytes : Z) (stale : bool) : HwStateBlackboard :=
  mkBb (zoom_active b) (zoom_step b) (stream_vld_num b) bytes stale.

Record FrameVerdict := mkVerdict { v_payload : Z; v_err_eof : bool }.
Definition StaleFraming (actual configured : Z) : FrameVerdict := if configured <? actual then mkVerdict configured true else mkVerdict actual false.
Definition AlignedFraming (actual _ : Z) : FrameVerdict := mkVerdict actual false.

Record WrapeCtx := mkWrape {
  first_frame_notify : Z; notify_armed : bool; notify_frames : Z; frames_framed : Z; err_eof_frames : Z; complete_frames : Z; w_byte_mismatch : Z;
  w_tag_mismatch : Z; zoom_geometry_mismatch : Z
}.
Definition wrape0 : WrapeCtx := mkWrape 0 false 0 0 0 0 0 0 0.

Definition actual_bytes (b : HwStateBlackboard) : Z := u32 (stream_vld_num b * 2).
Definition verdict (b : HwStateBlackboard) : FrameVerdict :=
  if stale_x1_framing b then StaleFraming (actual_bytes b) (configured_frame_bytes b) else AlignedFraming (actual_bytes b) (configured_frame_bytes b).

Definition notice (c : WrapeCtx) (f : Z) : out_event :=
  mkOut (if notify_frames c =? 0 then kFirstFrame else 17) (mkMeta (first_frame_notify c) f 640 512 0 0 0 0 0 0) 0xFF 0xFF.

(** The handler, with the engine it submits to. *)
Definition onPicPackedWrape (b : HwStateBlackboard) (c : WrapeCtx) (d : DdrCtx) (u : usys) (e : pevent) (pool : bool)
    : outcome (WrapeCtx * DdrCtx * usys * list out_event) :=
  let m := pe_meta e in
  let tag := if wrong_tag [80; 73; 67] (pe_control e) then u32 (w_tag_mismatch c + 1) else w_tag_mismatch c in
  '(got, d) ← ddr_read d kDdrPicOut (u16 (buffer_idx m)) (frame_id m);
  let bytes := match got with None => u32 (w_byte_mismatch c + 1) | Some got => count_bytes (expected_pic (frame_id m)) 0 got (w_byte_mismatch c) end in
  let zoom :=
    if negb (actual_bytes b =? kOutFrameBytes) || (negb (zoom_step b =? kZoomStep2x) && negb (zoom_step b =? kZoomStepIdentity))
    then u32 (zoom_geometry_mismatch c + 1) else zoom_geometry_mismatch c in
  let v := verdict b in
  let watch := notify_armed c && negb (v_err_eof v) && negb (first_frame_notify c =? raw kInvalidTarget) in
  mret (mkWrape (first_frame_notify c) (notify_armed c) (if watch then u32 (notify_frames c + 1) else notify_frames c) (u32 (frames_framed c + 1))
          (if v_err_eof v then u32 (err_eof_frames c + 1) else err_eof_frames c) (if v_err_eof v then complete_frames c else u32 (complete_frames c + 1))
          bytes tag zoom,
        d, (usb_submit u (mkUJob true (frame_id m) (v_payload v) (v_err_eof v))).2,
        if watch && pool then [notice c (frame_id m)] else []).

(** ** The host *)

Record WinHostCtx := mkHost {
  h_frames_received : Z; h_complete_frames : Z; truncated_frames : Z; min_payload : Z; max_payload : Z; frame_gaps : Z; h_last_frame_id : Z; h_error_interrupts : Z
}.
Definition host0 : WinHostCtx := mkHost 0 0 0 0xFFFFFFFF 0 0 kInvalidFrame 0.

Definition onFrameEofHost (c : WinHostCtx) (e : frame_eof) : WinHostCtx :=
  let payload := u32 (eof_result e) in
  let bad := negb (Z.land (eof_flags e) 1 =? 0) in
  mkHost (u32 (h_frames_received c + 1)) (if bad then h_complete_frames c else u32 (h_complete_frames c + 1))
    (if bad then u32 (truncated_frames c + 1) else truncated_frames c)
    (if payload <? min_payload c then payload else min_payload c) (if max_payload c <? payload then payload else max_payload c)
    (if negb (h_last_frame_id c =? kInvalidFrame) && negb (eof_frame e =? u32 (h_last_frame_id c + 1)) then u32 (frame_gaps c + 1) else frame_gaps c)
    (eof_frame e) (h_error_interrupts c).

Definition onUsbErrIntHost (c : WinHostCtx) : WinHostCtx :=
  mkHost (h_frames_received c) (h_complete_frames c) (truncated_frames c) (min_payload c) (max_payload c) (frame_gaps c) (h_last_frame_id c)
    (u32 (h_error_interrupts c + 1)).

(** ** The orchestrator *)

Record OrchCtx := mkOrch { irsc_ready : Z; isp_ready : Z; pic_video_ready : Z; temp_video_ready : Z; last_irsc_step : Z }.
Definition orch0 : OrchCtx := mkOrch 0 0 0 0 0xFF.

Definition onIrscReadyAck (c : OrchCtx) (e : nevent) : OrchCtx :=
  mkOrch (u32 (irsc_ready c + 1)) (isp_ready c) (pic_video_ready c) (temp_video_ready c) (m_cmd_arg (n_meta e)).
Definition onIspReadyAck (c : OrchCtx) (_ : nevent) : OrchCtx :=
  mkOrch (irsc_ready c) (u32 (isp_ready c + 1)) (pic_video_ready c) (temp_video_ready c) (last_irsc_step c).
Definition onVideoReadyAck (c : OrchCtx) (e : nevent) : OrchCtx :=
  if negb (payload_kind (n_meta e) =? 0) then
    mkOrch (irsc_ready c) (isp_ready c) (pic_video_ready c) (u32 (temp_video_ready c + 1)) (last_irsc_step c)
  else mkOrch (irsc_ready c) (isp_ready c) (u32 (pic_video_ready c + 1)) (temp_video_ready c) (last_irsc_step c).

Definition kOrchTransitions : list (TransitionDef OrchCtx nevent) :=
  [COACT_HSM_TRANS 8 onIrscReadyAck; COACT_HSM_TRANS 9 onIspReadyAck; COACT_HSM_TRANS 10 onVideoReadyAck].
Definition orch_machine : Hsm OrchCtx nevent := mkHsm (COACT_HSM_STATES OrchCtx) kOrchTransitions 1 2 1.

(** ** The path to the host *)

(** [delivered]: how many of the engine's events the host object has had. *)
Record uvc := mkUvc { o_bb : HwStateBlackboard; o_ddr : DdrCtx; o_wrape : WrapeCtx; o_usb : usys; o_host : WinHostCtx; delivered : nat }.
Definition uvc0 : uvc := mkUvc g_hw_bb0 ddr0 wrape0 usb0 host0 0.

Inductive oact :=
  | OStore (f : Z) (pixels : list Z)
  | OPacked (e : pevent) (pool : bool)
  | OZoom (step : Z)
  | OFraming (bytes : Z) (stale : bool)
  | OEngine (pool : bool)
  | OHost.

Definition uvc_step (o : uvc) (a : oact) : outcome uvc :=
  match a with
  | OStore f pixels => '(_, d) ← ddr_write (o_ddr o) kDdrPicOut f pixels; mret (mkUvc (o_bb o) d (o_wrape o) (o_usb o) (o_host o) (delivered o))
  | OPacked e pool =>
    '(w, d, u, _) ← onPicPackedWrape (o_bb o) (o_wrape o) (o_ddr o) (o_usb o) e pool; mret (mkUvc (o_bb o) d w u (o_host o) (delivered o))
  | OZoom step => mret (mkUvc (hw_bb_set_zoom_step (o_bb o) step) (o_ddr o) (o_wrape o) (o_usb o) (o_host o) (delivered o))
  | OFraming bytes stale => mret (mkUvc (hw_bb_set_wrape_framing (o_bb o) bytes stale) (o_ddr o) (o_wrape o) (o_usb o) (o_host o) (delivered o))
  | OEngine pool => mret (mkUvc (o_bb o) (o_ddr o) (o_wrape o) (usb_step (o_usb o) (UEngine pool)) (o_host o) (delivered o))
  | OHost =>
    mret (match posted (o_usb o) !! delivered o with
          | Some e => mkUvc (o_bb o) (o_ddr o) (o_wrape o) (o_usb o) (onFrameEofHost (o_host o) e) (S (delivered o))
          | None => o
          end)
  end.

Fixpoint uvc_run (o : uvc) (acts : list oact) : outcome uvc :=
  match acts with [] => mret o | a :: acts => o ← uvc_step o a; uvc_run o acts end.

(** *** The scenario of [main] *)

Definition t37_send_frame (f : Z) : list oact :=
  [OStore f (map (fun i => expected_pic f (Z.of_nat i)) (seq 0 56));
   OPacked (mkPev 17 (mkMeta 0 f 640 512 0 0 0 1 (dn_slot_of f) 0) [80; 73; 67]) true].

(** The engine takes the job and moves it; the host object runs. *)
Definition t37_drain : list oact := [OEngine true; OEngine true; OHost].

Definition t37_frame (f : nat) : list oact := t37_send_frame (Z.of_nat f) ++ t37_drain.

(** [kFrameCount], and the frames of the phases, as arguments. *)
Definition t37_scenario (f0 n2 n3 n4 : nat) : list oact :=
  OZoom kZoomStepIdentity :: OFraming kX1FrameBytes true :: concat (map t37_frame (seq f0 n2)) ++
  OFraming kOutFrameBytes false :: concat (map t37_frame (seq (f0 + n2) n3)) ++
  concat (map (fun r => OZoom (if Nat.even r then kZoomStep2x else kZoomStepIdentity) :: t37_frame (f0 + n2 + n3 + r)) (seq 0 n4)).
