(* ===== verification/OutputSpec.v ===== *)
(** * What reaches the host and the lane (examples/isp_pipeline/output_itf.hpp) *)

From S2P Require Import Prelude Vocab Hsm Mem Ddr Ddr Parking IspChain IspChainSpec UsbDma VideoStream Output.

#[local] Arguments Z.eqb !x !y.

(** ** The byte checks *)

(** Positions where the bytes are not the expected ones. *)
Fixpoint wrong_bytes (expected : Z -> Z) (i : Z) (got : list Z) : Z :=
  match got with [] => 0 | g :: got => (if g =? expected i then 0 else 1) + wrong_bytes expected (i + 1) got end.

Lemma count_bytes_wrong expected got : forall i n, in_u 32 n -> count_bytes expected i got n = u32 (n + wrong_bytes expected i got).
Proof.
  induction got as [|g got IH]; intros i n Hn; cbn [count_bytes wrong_bytes]; [by rewrite Z.add_0_r, wrap_small|].
  rewrite IH by (destruct (g =? expected i); [done|by apply wrap_range]). destruct (g =? expected i); [done|].
  rewrite wrap_add_wrap_l by lia. f_equal. lia.
Qed.

Lemma wrong_bytes_nonneg expected got : forall i, 0 <= wrong_bytes expected i got.
Proof. induction got as [|g got IH]; intros i; cbn [wrong_bytes]; [done|]. specialize (IH (i + 1)). destruct (g =? expected i); lia. Qed.

(** None exactly on the expected frame. *)
Lemma wrong_bytes_zero expected got : forall k,
  wrong_bytes expected (Z.of_nat k) got = 0 <-> got = map (fun i => expected (Z.of_nat i)) (seq k (length got)).
Proof.
  induction got as [|g got IH]; intros k; cbn [wrong_bytes length seq map]; [done|].
  replace (Z.of_nat k + 1) with (Z.of_nat (S k)) by lia. pose proof (wrong_bytes_nonneg expected got (Z.of_nat (S k))).
  destruct (Z.eqb_spec g (expected (Z.of_nat k))) as [->|Hne]; split.
  - intros Hz. f_equal. apply IH. lia.
  - intros [= Hg]. rewrite (proj2 (IH (S k))); done.
  - lia.
  - by intros [= ? _].
Qed.

Lemma land_ff x : Z.land x 0xFF = x mod 256.
Proof. change 0xFF with (Z.ones 8). by rewrite Z.land_ones. Qed.

(** The checks recompute what the chain computes. *)
Lemma expected_blend dn : 0 <= dn < 256 -> blend (LowGainPolicy dn) (HighGainPolicy dn) = (dn * 3 / 4 * 2 + Z.land (dn * 5 / 4) 0xFF * 3) / 5.
Proof.
  intros Hd. unfold blend, LowGainPolicy, HighGainPolicy. rewrite !land_ff, wrap_small.
  - rewrite (Z.mod_small (dn * 3 / 4)); [f_equal; lia|]. Z.to_euclidean_division_equations. lia.
  - unfold in_u. change (2 ^ 8) with 256. Z.to_euclidean_division_equations. lia.
Qed.

Lemma fused_of_map f : fused_of f = map (fun i => expected_fus f (Z.of_nat i)) (seq 0 56).
Proof.
  unfold fused_of, low_of, high_of, fill_dn. rewrite !map_map. generalize (seq 0 56). intros l. induction l as [|i l IH]; [done|].
  cbn [map zip_with]. rewrite IH. f_equal. unfold expected_fus. cbn zeta. apply expected_blend. rewrite land_ff. apply Z.mod_pos_bound. lia.
Qed.

Lemma expected_exact f :
  map (fun i => expected_pic f (Z.of_nat i)) (seq 0 56) = map EnhancePolicy (fused_of f) /\
  map (fun i => expected_temp f (Z.of_nat i)) (seq 0 56) = map TempPolicy (fused_of f).
Proof.
  assert (Hu : forall x, u8 (Z.land x 0xFF) = Z.land x 0xFF).
  { intros x. rewrite land_ff. apply wrap_small. apply Z.mod_pos_bound. lia. }
  rewrite fused_of_map, !map_map. split; apply map_ext; intros i; unfold expected_pic, expected_temp; by rewrite Hu.
Qed.

Lemma slot_of_meta m : in_u 32 (frame_id m) -> buffer_idx m = frame_id m mod 8 -> u16 (buffer_idx m) = dn_slot_of (frame_id m).
Proof. intros Hf ->. destruct (slot_range _ Hf) as [-> Hr]. apply wrap_small. unfold in_u. lia. Qed.

Lemma verify_counts region expected c s d m p :
  ddr_inv s d -> 0 <= region < 7 -> in_u 32 (frame_id m) -> buffer_idx m = frame_id m mod 8 -> get s region (frame_id m) = Some p -> in_u 32 (byte_mismatch c) ->
  exists d', verify region expected c d m = Ret (set_checks c (u32 (byte_mismatch c + wrong_bytes (expected (frame_id m)) 0 p)) (frame_overrun c), d') /\ ddr_inv s d'.
Proof.
  intros Hd Hr Hf Hb Hg Hn. unfold verify. rewrite (slot_of_meta m Hf Hb). destruct (read_keeps s d region _ Hd Hr Hf) as (d' & -> & Hd'). rewrite Hg.
  cbn [mbind outcome_bind]. exists d'. by rewrite count_bytes_wrong.
Qed.

(** A check finds nothing wrong exactly with the expected frame. *)
Lemma verify_exact expected n p : in_u 32 n -> length p = 56%nat ->
  u32 (n + wrong_bytes expected 0 p) = n <-> p = map (fun i => expected (Z.of_nat i)) (seq 0 56).
Proof.
  intros Hn Hl. rewrite <- Hl, <- (wrong_bytes_zero expected p 0). change (Z.of_nat 0) with 0.
  assert (Hb : 0 <= wrong_bytes expected 0 p <= 56).
  { split; [apply wrong_bytes_nonneg|]. change 56 with (Z.of_nat 56). rewrite <- Hl. generalize 0. clear. induction p as [|g p IH]; intros i; [done|].
    cbn [wrong_bytes length]. specialize (IH (i + 1)). destruct (g =? expected i); lia. }
  split; [|intros ->; rewrite Z.add_0_r; by apply wrap_small]. unfold in_u, wrap in *. intros He.
  destruct (Z.lt_ge_cases (n + wrong_bytes expected 0 p) (2 ^ 32)) as [Hlt|Hge]; [rewrite Z.mod_small in He by lia; lia|].
  rewrite <- (Z_mod_plus_full _ (-1)), Z.mod_small in He by lia. lia.
Qed.

(** The counters of faults found so far. *)
Definition faults (c : SinkCtx) : Z * Z * Z := (tag_mismatch c, byte_mismatch c, frame_overrun c).
Definition w_faults (w : WrapeCtx) : Z * Z := (w_tag_mismatch w, w_byte_mismatch w).

Definition packed_pic (m : IoMeta) : pevent := mkPev kPicPacked m (packed_control false m).
Definition packed_temp (m : IoMeta) : pevent := mkPev kTempPacked m (packed_control true m).

Lemma pic_tag_right m : wrong_tag [80; 73; 67] (packed_control false m) = false.
Proof. done. Qed.

Lemma lane_slot (l : list Z) h : length l = 2%nat -> 0 <= h < 2 -> is_Some (l !! Z.to_nat h).
Proof. intros Hl Hh. apply lookup_lt_is_Some_2. lia. Qed.

Section checks.
Context (s : latest) (d : DdrCtx) (m : IoMeta) (Hd : ddr_inv s d) (Hf : in_u 32 (frame_id m)) (Hb : buffer_idx m = frame_id m mod 8).

Lemma pic_check c p : expected_tag c = [80; 73; 67] -> in_u 32 (byte_mismatch c) -> get s kDdrPicOut (frame_id m) = Some p ->
  exists c' d', onPicPacked c d (packed_pic m) = Ret (c', d') /\
    faults c' = (tag_mismatch c, u32 (byte_mismatch c + wrong_bytes (expected_pic (frame_id m)) 0 p), frame_overrun c).
Proof.
  intros Ht Hn Hg. unfold onPicPacked, check_tag. cbn [pe_control packed_pic pe_meta]. rewrite Ht, pic_tag_right.
  destruct (verify_counts kDdrPicOut expected_pic c s d m p Hd ltac:(done) Hf Hb Hg Hn) as (d' & Hv & _). unfold verify_pic_bytes. rewrite Hv.
  cbn [mbind outcome_bind]. by eexists _, _.
Qed.

Lemma temp_check c p taken pool : expected_tag c = [84; 69; 77; 80] -> in_u 32 (byte_mismatch c) -> length (tx_parked c) = 2%nat -> 0 <= tx_park_head c < 2 ->
  get s kDdrTemp (frame_id m) = Some p ->
  exists c' d' out, onTempPacked c d (packed_temp m) taken pool = Ret (c', d', out) /\
    faults c' = (tag_mismatch c, u32 (byte_mismatch c + wrong_bytes (expected_temp (frame_id m)) 0 p), frame_overrun c).
Proof.
  intros Ht Hn Hl Hh Hg. unfold onTempPacked, check_tag. cbn [pe_control packed_temp pe_meta packed_control]. rewrite Ht.
  destruct (verify_counts kDdrTemp expected_temp c s d m p Hd ltac:(done) Hf Hb Hg Hn) as (d' & Hv & _). unfold verify_temp_bytes.
  cbn [wrong_tag nth Z.eqb Pos.eqb negb orb]. rewrite Hv. cbn [mbind outcome_bind]. destruct taken; [|by eexists _, _, _].
  cbn [set_checks tx_parked tx_park_head]. destruct (lane_slot (tx_parked c) (tx_park_head c) Hl Hh) as [x ->]. by eexists _, _, _.
Qed.

Lemma wrape_check b w u pool p : in_u 32 (w_byte_mismatch w) -> get s kDdrPicOut (frame_id m) = Some p ->
  exists w' d' u' out, onPicPackedWrape b w d u (packed_pic m) pool = Ret (w', d', u', out) /\
    w_faults w' = (w_tag_mismatch w, u32 (w_byte_mismatch w + wrong_bytes (expected_pic (frame_id m)) 0 p)).
Proof.
  intros Hn Hg. unfold onPicPackedWrape. cbn [pe_control packed_pic pe_meta]. rewrite pic_tag_right, (slot_of_meta m Hf Hb).
  destruct (read_keeps s d kDdrPicOut _ Hd ltac:(done) Hf) as (d' & -> & Hd'). rewrite Hg. cbn [mbind outcome_bind]. rewrite count_bytes_wrong by done.
  by eexists _, _, _, _.
Qed.
End checks.

(** The checks at the outputs find nothing wrong with what the chain makes, and
    only with that.  After any activity of the chain, a frame that passes it is
    accepted by the picture sink, by the lane's sink and by the framing object:
    no tag, byte or overrun count moves.  Any other picture of the right size
    stored for the frame moves the byte count. *)
Theorem checks_accept_the_chain (ops : list cop) (m : IoMeta) (taken : bool) :
  Forall cop_ok ops -> in_u 32 (frame_id m) -> buffer_idx m = frame_id m mod 8 ->
  exists c c', chain_run chain0 ops = Ret c /\ chain_run c (gains (frame_id m) ++ fusion (frame_id m) ++ nodes (frame_id m) taken) = Ret c' /\
    (forall k, expected_tag k = [80; 73; 67] -> in_u 32 (byte_mismatch k) -> exists k' d, onPicPacked k (c_ddr c') (packed_pic m) = Ret (k', d) /\ faults k' = faults k) /\
    (forall k, expected_tag k = [84; 69; 77; 80] -> in_u 32 (byte_mismatch k) -> length (tx_parked k) = 2%nat -> 0 <= tx_park_head k < 2 ->
       forall lane pool, exists k' d out, onTempPacked k (c_ddr c') (packed_temp m) lane pool = Ret (k', d, out) /\ faults k' = faults k) /\
    (forall b w u pool, in_u 32 (w_byte_mismatch w) ->
       exists w' d u' out, onPicPackedWrape b w (c_ddr c') u (packed_pic m) pool = Ret (w', d, u', out) /\ w_faults w' = w_faults w) /\
    (forall k p, expected_tag k = [80; 73; 67] -> in_u 32 (byte_mismatch k) -> length p = 56%nat ->
       exists slot d k' d', ddr_write (c_ddr c') kDdrPicOut (frame_id m) p = Ret (slot, d) /\ onPicPacked k d (packed_pic m) = Ret (k', d') /\
         (byte_mismatch k' = byte_mismatch k <-> p = map EnhancePolicy (fused_of (frame_id m)))).
Proof.
  intros Hops Hf Hb. destruct (chain_run_ok _ _ ops chain_inv0 Hops) as (s & c & Hrun & Hi).
  destruct (whole_frame s c (frame_id m) taken Hi Hf) as (s' & c' & Hw & [Hd' _ _ _ _ _ _] & Gp & Gt). exists c, c'.
  destruct (expected_exact (frame_id m)) as [Ep Et].
  assert (Zp : wrong_bytes (expected_pic (frame_id m)) 0 (map EnhancePolicy (fused_of (frame_id m))) = 0).
  { apply (wrong_bytes_zero _ _ 0). rewrite <- Ep. by rewrite length_map, length_seq. }
  assert (Zt : wrong_bytes (expected_temp (frame_id m)) 0 (map TempPolicy (fused_of (frame_id m))) = 0).
  { apply (wrong_bytes_zero _ _ 0). rewrite <- Et. by rewrite length_map, length_seq. }
  split_and!; [done|done| | | |].
  - intros k Ht Hn. destruct (pic_check s' _ m Hd' Hf Hb k _ Ht Hn Gp) as (k' & d & H & Hk). exists k', d. split; [done|]. by rewrite Hk, Zp, Z.add_0_r, wrap_small.
  - intros k Ht Hn Hl Hh lane pool. destruct (temp_check s' _ m Hd' Hf Hb k _ lane pool Ht Hn Hl Hh Gt) as (k' & d & out & H & Hk). exists k', d, out.
    split; [done|]. by rewrite Hk, Zt, Z.add_0_r, wrap_small.
  - intros b w u pool Hn. destruct (wrape_check s' _ m Hd' Hf Hb b w u pool _ Hn Gp) as (w' & d & u' & out & H & Hk). exists w', d, u', out.
    split; [done|]. by rewrite Hk, Zp, Z.add_0_r, wrap_small.
  - intros k p Ht Hn Hl. destruct (write_keeps s' _ kDdrPicOut (frame_id m) p Hd' ltac:(done) Hf ltac:(lia)) as (d & Hwr & Hd).
    destruct (pic_check _ d m Hd Hf Hb k p Ht Hn (get_put _ _ _ _ Hl)) as (k' & d' & H & Hk). exists (frame_id m mod 8), d, k', d'. split_and!; [done..|].
    injection Hk as _ -> _. rewrite <- Ep. by apply verify_exact.
Qed.

Lemma checks_accept_the_chain_witness :
  exists c' k' d, chain_run chain0 (gains 9 ++ fusion 9 ++ nodes 9 true) = Ret c' /\
    onPicPacked (sink0 [80; 73; 67]) (c_ddr c') (packed_pic (desc 9 0)) = Ret (k', d) /\ faults k' = (0, 0, 0).
Proof.
  assert (H9 : in_u 32 9) by (unfold in_u; lia). assert (H0 : in_u 32 0) by (unfold in_u; lia).
  destruct (checks_accept_the_chain [] (desc 9 0) true ltac:(constructor) H9 ltac:(reflexivity)) as (c & c' & Hc & Hw & Hp & _).
  injection Hc as <-. destruct (Hp (sink0 [80; 73; 67]) ltac:(reflexivity) H0) as (k' & d & H1 & H2). exists c', k', d. exact (conj Hw (conj H1 H2)).
Defined.

(** ** The host's counters *)

Definition short (e : frame_eof) : bool := negb (Z.land (eof_flags e) 1 =? 0).
Definition payload_of (e : frame_eof) : Z := u32 (eof_result e).

Definition gap (last : option Z) (f : Z) : Z := match last with Some x => if f =? u32 (x + 1) then 0 else 1 | None => 0 end.
Fixpoint gaps (last : option Z) (l : list frame_eof) : Z :=
  match l with [] => 0 | e :: l => gap last (eof_frame e) + gaps (Some (eof_frame e)) l end.

Definition tally (p : frame_eof -> bool) (l : list frame_eof) : Z := Z.of_nat (length (List.filter p l)).

Lemma tally_cons p e l : tally p (e :: l) = (if p e then 1 else 0) + tally p l.
Proof. unfold tally. cbn [List.filter]. destruct (p e); cbn [length]; lia. Qed.

Definition host_counts (c : WinHostCtx) : Prop := in_u 32 (h_frames_received c) /\ in_u 32 (h_complete_frames c) /\ in_u 32 (truncated_frames c) /\ in_u 32 (frame_gaps c).

Lemma count_step (n x : Z) (b : bool) : in_u 32 n -> u32 ((if b then u32 (n + 1) else n) + x) = u32 (n + ((if b then 1 else 0) + x)).
Proof. intros Hn. destruct b; [|done]. rewrite wrap_add_wrap_l by lia. f_equal. lia. Qed.

(** The handler over any events: every counter is what its name says. *)
Lemma host_fold l : forall c last,
  host_counts c -> h_last_frame_id c = default kInvalidFrame last -> last <> Some kInvalidFrame -> Forall (fun e => eof_frame e <> kInvalidFrame) l ->
  let c' := foldl onFrameEofHost c l in
  h_frames_received c' = u32 (h_frames_received c + Z.of_nat (length l)) /\
  truncated_frames c' = u32 (truncated_frames c + tally short l) /\
  h_complete_frames c' = u32 (h_complete_frames c + tally (fun e => negb (short e)) l) /\
  frame_gaps c' = u32 (frame_gaps c + gaps last l) /\
  min_payload c' = foldl Z.min (min_payload c) (map payload_of l) /\
  max_payload c' = foldl Z.max (max_payload c) (map payload_of l).
Proof.
  induction l as [|e l IH]; intros c last (H1 & H2 & H3 & H4) Hlast Hl Hf.
  - cbn. rewrite !Z.add_0_r, !wrap_small by done. done.
  - apply Forall_cons in Hf as [He Hf]. cbn zeta. cbn [foldl map].
    assert (Hc : host_counts (onFrameEofHost c e)).
    { unfold host_counts. cbn [onFrameEofHost h_frames_received truncated_frames h_complete_frames frame_gaps].
      split_and!; repeat case_match; try done; by apply wrap_range. }
    specialize (IH (onFrameEofHost c e) (Some (eof_frame e)) Hc eq_refl ltac:(congruence) Hf). cbn zeta in IH. destruct IH as (-> & -> & -> & -> & -> & ->).
    cbn [onFrameEofHost h_frames_received truncated_frames h_complete_frames frame_gaps min_payload max_payload]. rewrite !tally_cons. fold (short e).
    split_and!.
    + rewrite wrap_add_wrap_l by lia. f_equal. cbn [length]. lia.
    + by apply count_step.
    + rewrite <- count_step by done. by destruct (short e).
    + cbn [gaps]. rewrite Hlast. unfold gap. destruct last as [x|]; cbn [default id negb Z.eqb kInvalidFrame andb]; [|f_equal; lia].
      rewrite (proj2 (Z.eqb_neq x kInvalidFrame)) by congruence. cbn [negb andb]. rewrite count_step by done. by destruct (_ =? _).
    + f_equal. fold (payload_of e). destruct (Z.ltb_spec (payload_of e) (min_payload c)); lia.
    + f_equal. fold (payload_of e). destruct (Z.ltb_spec (max_payload c) (payload_of e)); lia.
Qed.

(** ** The path *)

Definition frame_ok (f : Z) : Prop := in_u 32 f /\ f <> kInvalidFrame.

(** A job the framing object makes. *)
Definition job_ok (j : usb_job) : Prop :=
  frame_ok (u_frame_id j) /\ (err_eof j = false /\ payload_bytes j = kOutFrameBytes \/ err_eof j = true /\ 0 <= payload_bytes j < kOutFrameBytes).
Definition eof_ok (e : frame_eof) : Prop := exists j, job_ok j /\ e = eof_of j.

Definition oact_ok (a : oact) : Prop :=
  match a with
  | OStore f pixels => in_u 32 f /\ (56 <= length pixels)%nat
  | OPacked e _ => frame_ok (frame_id (pe_meta e)) /\ buffer_idx (pe_meta e) = frame_id (pe_meta e) mod 8
  | OFraming bytes _ => 0 <= bytes
  | _ => True
  end.

Definition sent (acts : list oact) : list Z := concat (map (fun a => match a with OPacked e _ => [frame_id (pe_meta e)] | _ => [] end) acts).

Record uvc_inv (o : uvc) (frames : list Z) : Prop := {
  oi_ddr : exists s, ddr_inv s (o_ddr o);
  oi_vld : stream_vld_num (o_bb o) = kStreamVldNum;
  oi_conf : 0 <= configured_frame_bytes (o_bb o);
  oi_host : o_host o = foldl onFrameEofHost host0 (take (delivered o) (posted (o_usb o)));
  oi_len : (delivered o <= length (posted (o_usb o)))%nat;
  oi_jobs : Forall job_ok (moving (o_usb o) ++ pending (o_usb o));
  oi_eofs : Forall eof_ok (posted (o_usb o));
  oi_order : map eof_frame (posted (o_usb o)) ++ map u_frame_id (moving (o_usb o) ++ pending (o_usb o)) `sublist_of` frames
}.

Lemma verdict_ok b f : stream_vld_num b = kStreamVldNum -> 0 <= configured_frame_bytes b -> frame_ok f ->
  job_ok (mkUJob true f (v_payload (verdict b)) (v_err_eof (verdict b))).
Proof.
  intros Hv Hc Hf. split; [done|]. cbn [err_eof payload_bytes]. unfold verdict, actual_bytes. rewrite Hv. change (u32 (kStreamVldNum * 2)) with kOutFrameBytes.
  destruct (stale_x1_framing b); [|by left]. unfold StaleFraming. destruct (Z.ltb_spec (configured_frame_bytes b) kOutFrameBytes); cbn; auto.
Qed.

Lemma uvc_inv0 : uvc_inv uvc0 [].
Proof. split; try done; [exists (fun _ _ => None); apply ddr_inv0|constructor..]. Qed.

(** A busy engine refuses; an idle one keeps the job. *)
Lemma submit_jobs u j : moving (usb_submit u j).2 = moving u /\ posted (usb_submit u j).2 = posted u /\
  pending (usb_submit u j).2 = if valid (job u) then pending u else [mkUJob true (u_frame_id j) (payload_bytes j) (err_eof j)].
Proof. unfold usb_submit, pending. by destruct (valid (job u)) eqn:E; cbn; rewrite ?E. Qed.

Lemma packed_inv o frames e pool :
  uvc_inv o frames -> oact_ok (OPacked e pool) -> exists o', uvc_step o (OPacked e pool) = Ret o' /\ uvc_inv o' (frames ++ [frame_id (pe_meta e)]).
Proof.
  intros [[s Hd] Hv Hc Hh Hl Hj He Ho] [[Hf Hne] Hb]. cbn [uvc_step]. unfold onPicPackedWrape. rewrite (slot_of_meta _ Hf Hb).
  destruct (read_keeps s _ kDdrPicOut _ Hd ltac:(done) Hf) as (d' & -> & Hd'). cbn [mbind outcome_bind mret outcome_ret]. eexists. split; [reflexivity|].
  destruct (submit_jobs (o_usb o) (mkUJob true (frame_id (pe_meta e)) (v_payload (verdict (o_bb o))) (v_err_eof (verdict (o_bb o))))) as (Hm & Hp & Hq).
  pose proof (verdict_ok (o_bb o) (frame_id (pe_meta e)) Hv Hc (conj Hf Hne)) as Hok.
  split; cbn [o_ddr o_bb o_host o_usb delivered]; rewrite ?Hm, ?Hp, ?Hq; try done; [by exists s| |].
  - destruct (valid (job (o_usb o))); [done|]. apply Forall_app in Hj as [? _]. apply Forall_app. split; [done|]. by constructor.
  - unfold pending in Ho. destruct (valid (job (o_usb o))) eqn:E.
    + unfold pending. rewrite E. by apply sublist_inserts_r.
    + rewrite app_nil_r in Ho. rewrite map_app, app_assoc. by apply sublist_app.
Qed.

(** The engine's steps. *)
Lemma engine_inv o frames pool : uvc_inv o frames -> exists o', uvc_step o (OEngine pool) = Ret o' /\ uvc_inv o' frames.
Proof.
  intros [Hd Hv Hc Hh Hl Hj He Ho]. eexists. split; [reflexivity|]. set (u := o_usb o) in *. cbn [usb_step].
  assert (Hsec : u_at u = UTop \/ u_at u = UWait -> moving (usb_section u) ++ pending (usb_section u) = moving u ++ pending u /\ posted (usb_section u) = posted u).
  { intros Hat. assert (moving u = []) as -> by (unfold moving; by destruct Hat as [-> | ->]). unfold usb_section, moving, pending.
    destruct (u_running u), (valid (job u)) eqn:E; cbn; by rewrite ?E. }
  destruct (u_at u) eqn:Hat; [destruct (Hsec ltac:(auto)) as [H1 H2]; split; cbn; rewrite ?H1, ?H2; done..| |by split].
  unfold moving in Hj, Ho. rewrite Hat in Hj, Ho. cbn [app] in Hj, Ho. apply Forall_cons in Hj as [Hj Hjs].
  destruct pool; split; cbn [o_ddr o_bb o_host o_usb delivered usb_move posted moving u_at app pending job]; try done.
  - rewrite take_app_le by done. done.
  - rewrite length_app. lia.
  - apply Forall_app. split; [done|]. constructor; [by exists j|constructor].
  - rewrite map_app, <- app_assoc. done.
  - etrans; [|exact Ho]. apply sublist_app; [done|]. apply sublist_cons. done.
Qed.

Lemma host_inv o frames : uvc_inv o frames -> exists o', uvc_step o OHost = Ret o' /\ uvc_inv o' frames.
Proof.
  intros [Hd Hv Hc Hh Hl Hj He Ho]. eexists. split; [reflexivity|]. destruct (posted (o_usb o) !! delivered o) as [e|] eqn:E; [|by split].
  split; cbn [o_ddr o_bb o_host o_usb delivered]; try done.
  - rewrite (take_S_r _ _ _ E), foldl_app. by rewrite Hh.
  - apply lookup_lt_Some in E. lia.
Qed.

Lemma uvc_step_inv o frames a : uvc_inv o frames -> oact_ok a -> exists o', uvc_step o a = Ret o' /\ uvc_inv o' (frames ++ sent [a]).
Proof.
  intros Hi Ha. destruct a as [f px|e pool|step|bytes stale|pool|]; cbn [sent map concat app]; rewrite ?app_nil_r.
  - destruct Ha as [Hf Hpx]. destruct Hi as [[s Hd] Hv Hc Hh Hl Hj He Ho]. cbn [uvc_step].
    destruct (write_keeps s _ kDdrPicOut f px Hd ltac:(done) Hf Hpx) as (d' & -> & Hd'). eexists. split; [reflexivity|]. split; cbn; try done. by eexists.
  - by apply packed_inv.
  - eexists. split; [reflexivity|]. by destruct Hi.
  - eexists. split; [reflexivity|]. by destruct Hi.
  - by apply engine_inv.
  - by apply host_inv.
Qed.

Lemma uvc_run_inv acts : forall o frames, uvc_inv o frames -> Forall oact_ok acts -> exists o', uvc_run o acts = Ret o' /\ uvc_inv o' (frames ++ sent acts).
Proof.
  induction acts as [|a acts IH]; intros o frames Hi Ha; [exists o; split; [done|]; cbn; by rewrite app_nil_r|]. apply Forall_cons in Ha as [Ha Has].
  destruct (uvc_step_inv o frames a Hi Ha) as (o1 & Hs & Hi1). destruct (IH o1 _ Hi1 Has) as (o2 & Hr & Hi2). exists o2. cbn [uvc_run]. rewrite Hs.
  split; [done|]. unfold sent in *. cbn [map concat] in *. by rewrite app_nil_r, <- app_assoc in Hi2.
Qed.

(** The flag tells a short frame. *)
Lemma eof_short e : eof_ok e -> eof_frame e <> kInvalidFrame /\ short e = (payload_of e <? kOutFrameBytes) /\ payload_of e <= kOutFrameBytes.
Proof.
  intros (j & [[Hf Hne] Hp] & ->). split; [done|]. unfold short, payload_of. cbn [eof_of eof_flags eof_result].
  assert (Hr : u32 (to_i32 (payload_bytes j)) = payload_bytes j).
  { unfold to_i32. change kOutFrameBytes with 2621440 in *. rewrite (proj2 (Z.ltb_lt _ _)) by lia. apply wrap_small. unfold in_u. lia. }
  rewrite Hr. destruct Hp as [[-> ->]|[-> Hp]]; [done|]. cbn. split; [|lia]. symmetry. apply Z.ltb_lt. lia.
Qed.

Lemma tally_ext p q l : Forall (fun e => p e = q e) l -> tally p l = tally q l.
Proof. induction 1 as [|e l He _ IH]; [done|]. by rewrite !tally_cons, He, IH. Qed.

(** The host is told the truth about every frame.  Whatever order pictures
    arrive, registers are written, the engine works and the host object runs in:
    the frames the host is told of are frames that were sent, in their order, none
    twice; the host counts each of them once, counts as truncated exactly the
    ones shorter than the full picture and as complete exactly the others, counts
    every break in the numbering, and keeps the least and the greatest length. *)
Theorem host_is_told_the_truth (acts : list oact) :
  Forall oact_ok acts ->
  exists o, uvc_run uvc0 acts = Ret o /\
    let told := take (delivered o) (posted (o_usb o)) in
    map eof_frame told `sublist_of` sent acts /\
    h_frames_received (o_host o) = u32 (Z.of_nat (length told)) /\
    truncated_frames (o_host o) = u32 (tally (fun e => payload_of e <? kOutFrameBytes) told) /\
    h_complete_frames (o_host o) = u32 (tally (fun e => payload_of e =? kOutFrameBytes) told) /\
    frame_gaps (o_host o) = u32 (gaps None told) /\
    min_payload (o_host o) = foldl Z.min 0xFFFFFFFF (map payload_of told) /\ max_payload (o_host o) = foldl Z.max 0 (map payload_of told).
Proof.
  intros Ha. destruct (uvc_run_inv acts uvc0 [] uvc_inv0 Ha) as (o & Hr & [_ _ _ Hh _ _ He Ho]). exists o. split; [done|]. cbn zeta.
  set (told := take (delivered o) (posted (o_usb o))) in *.
  assert (Ht : Forall eof_ok told) by (by apply Forall_take). pose proof (Forall_impl _ _ _ Ht eof_short) as Hs.
  assert (Hi : forall n, n = 0 -> in_u 32 n) by (intros n ->; unfold in_u; lia).
  rewrite Hh. destruct (host_fold told host0 None) as (-> & -> & -> & -> & -> & ->); [by split_and!; apply Hi|done|done|eapply Forall_impl; [exact Hs|]; naive_solver|].
  split_and!; try done.
  - etrans; [|exact Ho]. rewrite <- (take_drop (delivered o) (posted (o_usb o))). fold told. rewrite map_app, <- app_assoc. by apply sublist_inserts_r.
  - f_equal. apply tally_ext. eapply Forall_impl; [exact Hs|]. naive_solver.
  - f_equal. apply tally_ext. eapply Forall_impl; [exact Hs|]. intros e (_ & -> & Hle). destruct (Z.ltb_spec (payload_of e) kOutFrameBytes), (Z.eqb_spec (payload_of e) kOutFrameBytes); cbn; try done; lia.
Qed.

Definition pic_in (f : Z) : oact := OPacked (packed_pic (mkMeta 0 f 640 512 0 0 0 1 (f mod 8) 0)) true.

(** Frame 2 finds the engine busy; frame 3 is cut. *)
Definition mixed : list oact :=
  [pic_in 0; OEngine true; pic_in 1; pic_in 2; OHost; OEngine true; OHost; OFraming kX1FrameBytes true; OEngine true; OEngine true; pic_in 3; OEngine true;
   OEngine true; OHost; OHost].

Lemma host_is_told_the_truth_witness :
  Forall oact_ok mixed /\
  exists o, uvc_run uvc0 mixed = Ret o /\
    let told := take (delivered o) (posted (o_usb o)) in
    map eof_frame told `sublist_of` sent mixed /\
    h_frames_received (o_host o) = u32 (Z.of_nat (length told)) /\
    truncated_frames (o_host o) = u32 (tally (fun e => payload_of e <? kOutFrameBytes) told) /\
    h_complete_frames (o_host o) = u32 (tally (fun e => payload_of e =? kOutFrameBytes) told) /\
    frame_gaps (o_host o) = u32 (gaps None told) /\
    min_payload (o_host o) = foldl Z.min 0xFFFFFFFF (map payload_of told) /\ max_payload (o_host o) = foldl Z.max 0 (map payload_of told).
Proof.
  assert (Hok : Forall oact_ok mixed).
  { assert (Hf : forall f, 0 <= f < 4 -> oact_ok (pic_in f)) by (intros f Hf; split; [split; [unfold in_u; cbn [frame_id pe_meta packed_pic]; lia|unfold kInvalidFrame; cbn [frame_id pe_meta packed_pic]; lia]|done]).
    unfold mixed. repeat apply Forall_cons_2; try apply Forall_nil; try exact I; try (apply Hf; lia). cbn [oact_ok]. unfold kX1FrameBytes. lia. }
  split; [exact Hok|exact (host_is_told_the_truth mixed Hok)].
Defined.

(** What the host has counted in this run: three frames, one cut, one gap. *)
Lemma mixed_counts :
  (o ← uvc_run uvc0 mixed; mret (let h := o_host o in (h_frames_received h, h_complete_frames h, truncated_frames h, frame_gaps h, min_payload h, max_payload h))) =
  Ret (3, 2, 1, 1, 655360, 2621440).
Proof. vm_compute. reflexivity. Qed.

(** ** The cut picture and its repair *)

Definition step_ok (x : Z) : Prop := x = kZoomStep2x \/ x = kZoomStepIdentity.

(** Between frames: nothing found wrong, the engine idle, the host up to date. *)
Record quiet (o : uvc) : Prop := {
  q_ddr : exists s, ddr_inv s (o_ddr o);
  q_vld : stream_vld_num (o_bb o) = kStreamVldNum;
  q_zoom : step_ok (zoom_step (o_bb o));
  q_run : u_running (o_usb o) = true;
  q_idle : u_at (o_usb o) = UTop \/ u_at (o_usb o) = UWait;
  q_job : valid (job (o_usb o)) = false;
  q_all : delivered o = length (posted (o_usb o));
  q_faults : w_faults (o_wrape o) = (0, 0) /\ zoom_geometry_mismatch (o_wrape o) = 0
}.

(** The end of a frame under the present framing. *)
Definition eof_under (b : HwStateBlackboard) (f : nat) : frame_eof := eof_of (mkUJob true (Z.of_nat f) (v_payload (verdict b)) (v_err_eof (verdict b))).

(** An idle engine takes a job and moves it in two steps. *)
Lemma engine_round u j : u_running u = true -> u_at u = UTop \/ u_at u = UWait -> valid (job u) = false -> valid j = true ->
  let u' := usb_step (usb_step (usb_submit u j).2 (UEngine true)) (UEngine true) in
  u_running u' = true /\ u_at u' = UTop /\ valid (job u') = false /\ posted u' = posted u ++ [eof_of j].
Proof.
  intros Hr Hi Hj Hv. destruct j as [v f p b]. cbn in Hv. subst v. unfold usb_submit. rewrite Hj. cbn [snd usb_step u_at].
  destruct Hi as [-> | ->]; unfold usb_section; cbn; rewrite Hr; cbn; done.
Qed.

Lemma count_exact f n : in_u 32 n -> count_bytes (expected_pic f) 0 (map (fun i => expected_pic f (Z.of_nat i)) (seq 0 56)) n = n.
Proof.
  intros Hn. rewrite count_bytes_wrong by done. rewrite (proj2 (wrong_bytes_zero _ _ 0)) by (by rewrite length_map, length_seq). rewrite Z.add_0_r. by apply wrap_small.
Qed.

Lemma t37_frame_ok o f : quiet o -> in_u 32 (Z.of_nat f) ->
  exists o', uvc_run o (t37_frame f) = Ret o' /\ quiet o' /\ o_bb o' = o_bb o /\ posted (o_usb o') = posted (o_usb o) ++ [eof_under (o_bb o) f] /\
    o_host o' = onFrameEofHost (o_host o) (eof_under (o_bb o) f).
Proof.
  intros [[s Hd] Hv Hz Hr Hi Hj Ha [Hw Hg]] Hf. unfold t37_frame, t37_send_frame, t37_drain. cbn [app uvc_run uvc_step].
  assert (Hlen : length (map (fun i => expected_pic (Z.of_nat f) (Z.of_nat i)) (seq 0 56)) = 56%nat) by (by rewrite length_map, length_seq).
  destruct (write_keeps s _ kDdrPicOut (Z.of_nat f) (map (fun i => expected_pic (Z.of_nat f) (Z.of_nat i)) (seq 0 56)) Hd ltac:(done) Hf) as (d1 & -> & Hd1); [lia|].
  cbn [mbind outcome_bind mret outcome_ret o_bb o_wrape o_ddr o_usb o_host delivered].
  unfold onPicPackedWrape. cbn [pe_meta pe_control frame_id buffer_idx]. destruct (slot_range _ Hf) as [Hsl Hsr].
  assert (Hu : u16 (dn_slot_of (Z.of_nat f)) = dn_slot_of (Z.of_nat f)) by (rewrite Hsl; apply wrap_small; unfold in_u; lia). rewrite Hu.
  destruct (read_keeps _ d1 kDdrPicOut _ Hd1 ltac:(done) Hf) as (d2 & -> & Hd2). rewrite get_put by done. injection Hw as Hw1 Hw2.
  cbn [mbind outcome_bind mret outcome_ret o_bb o_wrape o_ddr o_usb o_host delivered]. rewrite Hw1, Hw2, Hg, count_exact by (unfold in_u; lia).
  destruct (engine_round (o_usb o) (mkUJob true (Z.of_nat f) (v_payload (verdict (o_bb o))) (v_err_eof (verdict (o_bb o)))) Hr Hi Hj eq_refl) as (R1 & R2 & R3 & R4).
  fold (eof_under (o_bb o) f) in R4.
  cbn [mbind outcome_bind mret outcome_ret o_bb o_wrape o_ddr o_usb o_host delivered]. rewrite R4, Ha, list_lookup_middle by done.
  eexists. split; [reflexivity|]. split; [|split_and!; [done|exact R4|done]].
  split; cbn [o_bb o_wrape o_ddr o_usb o_host delivered]; try done; [by eexists|auto|rewrite R4, length_app; cbn; lia|].
  split; [done|]. cbn [zoom_geometry_mismatch]. unfold actual_bytes. rewrite Hv. by destruct Hz as [-> | ->].
Qed.

Definition zoom_first (z : option Z) : list oact := match z with Some step => [OZoom step] | None => [] end.

Lemma uvc_run_app o a b : uvc_run o (a ++ b) = o' ← uvc_run o a; uvc_run o' b.
Proof. revert o. induction a as [|x a IH]; intros o; [done|]. cbn [app uvc_run]. destruct (uvc_step o x); [apply IH|done]. Qed.

(** Frames one after the other, the zoom step written before some of them. *)
Lemma t37_rounds (z : nat -> option Z) (g : nat -> nat) l : forall o,
  quiet o -> (forall r step, z r = Some step -> step_ok step) -> Forall (fun r => in_u 32 (Z.of_nat (g r))) l ->
  exists o', uvc_run o (concat (map (fun r => zoom_first (z r) ++ t37_frame (g r)) l)) = Ret o' /\ quiet o' /\ verdict (o_bb o') = verdict (o_bb o) /\
    posted (o_usb o') = posted (o_usb o) ++ map (fun r => eof_under (o_bb o) (g r)) l /\
    o_host o' = foldl onFrameEofHost (o_host o) (map (fun r => eof_under (o_bb o) (g r)) l).
Proof.
  induction l as [|r l IH]; intros o Hq Hz Hl; [exists o; cbn; by rewrite app_nil_r|]. apply Forall_cons in Hl as [Hr Hl].
  assert (H1 : exists o1, uvc_run o (zoom_first (z r)) = Ret o1 /\ quiet o1 /\ verdict (o_bb o1) = verdict (o_bb o) /\ o_usb o1 = o_usb o /\ o_host o1 = o_host o).
  { destruct (z r) as [step|] eqn:E; cbn [zoom_first uvc_run]; (eexists; split; [reflexivity|]); [|by split]. split; [|done]. destruct Hq. split; cbn; eauto. }
  destruct H1 as (o1 & H1 & Hq1 & Hv1 & Hu1 & Hh1). destruct (t37_frame_ok o1 (g r) Hq1 Hr) as (o2 & H2 & Hq2 & Hb2 & Hp2 & Hh2).
  destruct (IH o2 Hq2 Hz Hl) as (o3 & H3 & Hq3 & Hv3 & Hp3 & Hh3). exists o3. cbn [map concat].
  assert (He : forall f, eof_under (o_bb o1) f = eof_under (o_bb o) f) by (intros f; unfold eof_under; by rewrite Hv1).
  assert (He2 : map (fun r => eof_under (o_bb o2) (g r)) l = map (fun r => eof_under (o_bb o) (g r)) l) by (apply map_ext; intros; by rewrite Hb2, He).
  rewrite !uvc_run_app, H1. cbn [mbind outcome_bind]. rewrite H2. cbn [mbind outcome_bind]. rewrite H3, Hp3, Hh3, Hp2, Hh2, Hu1, Hh1, He, He2, Hv3, Hb2, Hv1, <- app_assoc. done.
Qed.

(** A cut picture, and a whole one. *)
Definition cut_at (f : nat) : frame_eof := mkEof (Z.of_nat f) kX1FrameBytes 1.
Definition whole (f : nat) : frame_eof := mkEof (Z.of_nat f) kOutFrameBytes 0.

Lemma quiet0 : quiet uvc0.
Proof. split; try done; [exists (fun _ _ => None); apply ddr_inv0|by left|by left]. Qed.

Lemma gaps_seq l : forall f last, map eof_frame l = map Z.of_nat (seq f (length l)) -> Z.of_nat (f + length l) < 2 ^ 32 -> gap last (Z.of_nat f) = 0 -> gaps last l = 0.
Proof.
  induction l as [|e l IH]; intros f last Hm Hb Hg; [done|]. cbn [length seq map] in *. injection Hm as He Hm. cbn [gaps]. rewrite He, Hg.
  apply (IH (S f)); [done|lia|]. cbn [gap]. rewrite wrap_small by (unfold in_u; lia). by rewrite (proj2 (Z.eqb_eq _ _)) by lia.
Qed.

Lemma tally_app p l1 l2 : tally p (l1 ++ l2) = tally p l1 + tally p l2.
Proof. unfold tally. rewrite List.filter_app, length_app. lia. Qed.

Lemma tally_all (p : frame_eof -> bool) (e : nat -> frame_eof) b l : (forall f, p (e f) = b) -> tally p (map e l) = if b then Z.of_nat (length l) else 0.
Proof. intros Hp. induction l as [|x l IH]; [by destruct b|]. cbn [map length]. rewrite tally_cons, Hp, IH. destruct b; lia. Qed.

(** What the host makes of the scenario's frames. *)
Lemma t37_counts f0 n m : let l := map cut_at (seq f0 n) ++ map whole (seq (f0 + n) m) in
  Z.of_nat (f0 + n + m) < 2 ^ 32 ->
  let h := foldl onFrameEofHost host0 l in
  h_frames_received h = Z.of_nat (n + m) /\ truncated_frames h = Z.of_nat n /\ h_complete_frames h = Z.of_nat m /\ frame_gaps h = 0.
Proof.
  intros l Hb h. assert (Hi : in_u 32 0) by (unfold in_u; lia).
  assert (Hl : length l = (n + m)%nat) by (unfold l; by rewrite length_app, !length_map, !length_seq).
  assert (Hm : map eof_frame l = map Z.of_nat (seq f0 (length l))) by (rewrite Hl, seq_app; unfold l; by rewrite !map_app, !map_map).
  destruct (host_fold l host0 None) as (H1 & H2 & H3 & H4 & _ & _); [by split_and!|done|done| |].
  - apply Forall_forall. intros e He. assert (Hin : eof_frame e ∈ map Z.of_nat (seq f0 (length l))) by (rewrite <- Hm; by apply list_elem_of_fmap_2).
    apply list_elem_of_fmap in Hin as (k & -> & Hk%elem_of_seq). unfold kInvalidFrame. lia.
  - fold h in H1, H2, H3, H4. rewrite H1, H2, H3, H4, Hl, (gaps_seq l f0 None Hm) by (rewrite ?Hl; try done; lia). unfold l.
    rewrite !tally_app, !(tally_all short cut_at true), !(tally_all short whole false), !(tally_all _ cut_at false), !(tally_all _ whole true), !length_seq by done.
    cbn [h_frames_received truncated_frames h_complete_frames frame_gaps host0]. rewrite !Z.add_0_l, Z.add_0_r, !wrap_small by (unfold in_u; lia). done.
Qed.

Lemma seq_in_u f n : Z.of_nat (f + n) < 2 ^ 32 -> Forall (fun r => in_u 32 (Z.of_nat r)) (seq f n).
Proof. intros Hb. apply Forall_forall. intros k Hk%elem_of_seq. unfold in_u. lia. Qed.

(** The scenario of the cut pictures ends the way [main] expects, for any
    number of frames in each phase.  While the framing still has the small
    geometry, each picture reaches the host cut at its 655360 bytes and flagged;
    once it is repaired, each reaches it whole, through every change of the zoom
    step.  Every frame is counted once, in order, without a gap, and none of the
    checks finds anything wrong. *)
Theorem t37_outcome (f0 n2 n3 n4 : nat) :
  Z.of_nat (f0 + n2 + n3 + n4) < 2 ^ 32 ->
  exists o, uvc_run uvc0 (t37_scenario f0 n2 n3 n4) = Ret o /\
    posted (o_usb o) = map cut_at (seq f0 n2) ++ map whole (seq (f0 + n2) (n3 + n4)) /\ delivered o = length (posted (o_usb o)) /\
    h_frames_received (o_host o) = Z.of_nat (n2 + n3 + n4) /\ truncated_frames (o_host o) = Z.of_nat n2 /\
    h_complete_frames (o_host o) = Z.of_nat (n3 + n4) /\ frame_gaps (o_host o) = 0 /\ w_faults (o_wrape o) = (0, 0) /\ zoom_geometry_mismatch (o_wrape o) = 0.
Proof.
  intros Hb. unfold t37_scenario. cbn [uvc_run uvc_step mbind outcome_bind mret outcome_ret].
  set (o1 := mkUvc _ _ _ _ _ _). assert (Hq1 : quiet o1) by (split; try done; [exists (fun _ _ => None); apply ddr_inv0|by right|by left]).
  destruct (t37_rounds (fun _ => None) id (seq f0 n2) o1 Hq1) as (o2 & H2 & Hq2 & Hv2 & Hp2 & Hh2); [done|apply seq_in_u; lia|].
  rewrite uvc_run_app. change (uvc_run o1 (concat (map t37_frame (seq f0 n2))) = Ret o2) in H2. rewrite H2. cbn [mbind outcome_bind uvc_run uvc_step mret outcome_ret].
  set (o3 := mkUvc _ _ _ _ _ _). assert (Hq3 : quiet o3) by (destruct Hq2; split; cbn; eauto).
  destruct (t37_rounds (fun _ => None) id (seq (f0 + n2) n3) o3 Hq3) as (o4 & H4 & Hq4 & Hv4 & Hp4 & Hh4); [done|apply seq_in_u; lia|].
  rewrite uvc_run_app. change (uvc_run o3 (concat (map t37_frame (seq (f0 + n2) n3))) = Ret o4) in H4. rewrite H4. cbn [mbind outcome_bind].
  destruct (t37_rounds (fun r => Some (if Nat.even r then kZoomStep2x else kZoomStepIdentity)) (fun r => f0 + n2 + n3 + r)%nat (seq 0 n4) o4 Hq4)
    as (o5 & H5 & Hq5 & Hv5 & Hp5 & Hh5); [intros r step [= <-]; destruct (Nat.even r); [by left|by right]| |].
  { apply Forall_forall. intros k Hk%elem_of_seq. unfold in_u. lia. }
  cbn [zoom_first app] in H5. exists o5. split; [exact H5|].
  assert (E1 : forall f, eof_under (o_bb o1) f = cut_at f) by done.
  assert (V3 : verdict (o_bb o3) = mkVerdict kOutFrameBytes false).
  { unfold verdict, actual_bytes, AlignedFraming. rewrite (q_vld _ Hq3). done. }
  assert (E3 : forall f, eof_under (o_bb o3) f = whole f) by (intros f; unfold eof_under; by rewrite V3).
  assert (E4 : forall f, eof_under (o_bb o4) f = whole f) by (intros f; unfold eof_under; by rewrite Hv4, V3).
  change (posted (o_usb o3)) with (posted (o_usb o2)) in Hp4. change (o_host o3) with (o_host o2) in Hh4. change (posted (o_usb o1)) with (@nil frame_eof) in Hp2.
  change (o_host o1) with host0 in Hh2. rewrite (map_ext _ _ E1) in Hp2, Hh2. rewrite (map_ext _ _ E3) in Hp4, Hh4.
  rewrite (map_ext _ (fun r => whole (f0 + n2 + n3 + r)) (fun r => E4 _)), <- (map_map (Nat.add (f0 + n2 + n3)) whole) in Hp5, Hh5.
  change (map (Nat.add (f0 + n2 + n3)) (seq 0 n4)) with (Nat.add (f0 + n2 + n3) <$> seq 0 n4) in Hp5, Hh5. rewrite fmap_add_seq, Nat.add_0_r in Hp5, Hh5.
  assert (Hp : posted (o_usb o5) = map cut_at (seq f0 n2) ++ map whole (seq (f0 + n2) (n3 + n4))) by (by rewrite Hp5, Hp4, Hp2, seq_app, map_app, <- app_assoc).
  assert (Hh : o_host o5 = foldl onFrameEofHost host0 (map cut_at (seq f0 n2) ++ map whole (seq (f0 + n2) (n3 + n4))))
    by (by rewrite Hh5, Hh4, Hh2, seq_app, map_app, !foldl_app).
  destruct (t37_counts f0 n2 (n3 + n4)) as (C1 & C2 & C3 & C4); [lia|]. rewrite <- Hh in C1, C2, C3, C4. destruct Hq5 as [_ _ _ _ _ _ Ha [Hw Hg]].
  split_and!; try done. by rewrite C1, Nat.add_assoc.
Qed.

Lemma t37_outcome_witness :
  Z.of_nat (30 + 2 + 3 + 4) < 2 ^ 32 /\
  exists o, uvc_run uvc0 (t37_scenario 30 2 3 4) = Ret o /\ h_frames_received (o_host o) = 9 /\ truncated_frames (o_host o) = 2 /\ frame_gaps (o_host o) = 0.
Proof.
  split; [reflexivity|]. destruct (t37_outcome 30 2 3 4 ltac:(reflexivity)) as (o & Hr & _ & _ & H1 & H2 & _ & H3 & _). exists o. exact (conj Hr (conj H1 (conj H2 H3))).
Defined.
