(* ===== verification/LaneSpec.v ===== *)
(** * Frames on the lane (examples/isp_pipeline/output_itf.hpp)

    The lane's sink as a machine, against a queue of at most two frames. *)

From S2P Require Import Prelude Vocab Hsm Mem Ddr Ddr Parking IspChain UsbDma Output OutputSpec.

#[local] Arguments Z.eqb !x !y.

(** ** The arcs *)

Section arcs.
Context {C E : Type} (sig : E -> Z) (packed done_ err : C -> E -> C).

Definition lane_shape (s : Z) : Hsm C E :=
  mkHsm [mkState (-1) None None (-1); mkState 0 None None (-1); mkState 0 None None (-1)]
    [mkTrans 1 18 2 External None (Some packed); mkTrans 2 18 2 Internal None (Some packed);
     mkTrans 2 29 1 External None (Some done_); mkTrans 1 29 1 Internal None (Some done_);
     mkTrans 2 36 2 Internal None (Some err); mkTrans 1 36 1 Internal None (Some err)] 1 2 s.

Lemma lane_dispatch s c e : s = 1 \/ s = 2 -> sig e = 18 \/ sig e = 29 \/ sig e = 36 ->
  exists b s', (s' = 1 \/ s' = 2) /\
    dispatch sig (lane_shape s) c e = Ret (b, if sig e =? 18 then packed c e else if sig e =? 29 then done_ c e else err c e, lane_shape s').
Proof.
  intros Hs He. unfold dispatch. change (current_ (lane_shape s)) with s. rewrite (proj2 (Z.ltb_ge s 0)) by lia.
  change (chain_fuel (lane_shape s)) with 4%nat. cbn [dispatch_loop].
  destruct Hs as [-> | ->], He as [Hsig|[Hsig|Hsig]]; unfold find_transition; cbn; rewrite Hsig; cbn; eexists _, _; (split; [|vm_compute; reflexivity]); auto.
Qed.
End arcs.

(** ** Runs *)

(** An event, with the answers of the lane's worker and of the pool. *)
Record linput := mkLin { li_ev : pevent; li_taken : bool; li_pool : bool }.

Record lane := mkLane { l_state : Z; l_sink : SinkCtx; l_ddr : DdrCtx }.
Definition lane0 : lane := mkLane kMipiActive (sink0 [84; 69; 77; 80]) ddr0.

Definition lane_step (l : lane) (i : linput) : outcome (list out_event * lane) :=
  '(_, a, h) ← dispatch pe_sig (mipi_machine (l_state l)) (mkMipi (l_sink l) (l_ddr l) (li_taken i) (li_pool i) [] false) (li_ev i);
  if mi_fatal a then Fatal else mret (mi_out a, mkLane (current_ h) (mi a) (mi_ddr a)).

Fixpoint lane_run (l : lane) (is_ : list linput) : outcome (list out_event * lane) :=
  match is_ with
  | [] => mret ([], l)
  | i :: is_ => '(o, l) ← lane_step l i; '(os, l) ← lane_run l is_; mret (o ++ os, l)
  end.

(** ** The queue *)

(** [q]: the frames on the lane; [begun]: one has been there. *)
Record lspec := mkLspec { q : list Z; begun : bool; shipped : list Z; unmatched : Z; refused : Z; errs : Z }.
Definition lspec0 : lspec := mkLspec [] false [] 0 0 0.

Definition frame_of (i : linput) : Z := frame_id (pe_meta (li_ev i)).

Definition lspec_step (s : lspec) (i : linput) : list out_event * lspec :=
  let f := frame_of i in let g := pe_sig (li_ev i) in
  if g =? kTempPackedSig then
    if li_taken i then ([], mkLspec (q s ++ [f]) true (shipped s) (unmatched s) (refused s) (errs s))
    else (self_complete_tx f (li_pool i), mkLspec (q s) (begun s) (shipped s) (unmatched s) (refused s + 1) (errs s))
  else if g =? kMipiTxDone then
    match q s with
    | x :: rest => if x =? f then ([], mkLspec rest (begun s) (shipped s ++ [f]) (unmatched s) (refused s) (errs s))
                   else ([], mkLspec (q s) (begun s) (shipped s) (unmatched s + 1) (refused s) (errs s))
    | [] => ([], mkLspec [] (begun s) (shipped s) (unmatched s + 1) (refused s) (errs s))
    end
  else ([], mkLspec (q s) (begun s) (shipped s) (unmatched s) (refused s) (errs s + 1)).

(** At most two on the lane, each under its own number below 2^16 (what the
    worker is given), 0 only as the first; they complete in order. *)
Definition lane_ok (s : lspec) (i : linput) : bool :=
  let f := frame_of i in let g := pe_sig (li_ev i) in
  ((g =? kTempPackedSig) || (g =? kMipiTxDone) || (g =? kMipiStreamErr)) && (0 <=? f) && (f <? 2 ^ 16) &&
  (if g =? kTempPackedSig then
     (buffer_idx (pe_meta (li_ev i)) =? f mod 8) &&
     (negb (li_taken i) || (length (q s) <? 2)%nat && negb (existsb (Z.eqb f) (q s)) && (negb (f =? 0) || negb (begun s)))
   else if g =? kMipiTxDone then
     match q s with
     | x :: rest => (x =? f) || negb (f =? 0) && negb (existsb (Z.eqb f) rest)
     | [] => negb (f =? 0)
     end
   else true).

Fixpoint lanes_ok (s : lspec) (is_ : list linput) : bool :=
  match is_ with [] => true | i :: is_ => lane_ok s i && lanes_ok (lspec_step s i).2 is_ end.
Fixpoint lspec_run (s : lspec) (is_ : list linput) : list out_event * lspec :=
  match is_ with [] => ([], s) | i :: is_ => let '(o, s) := lspec_step s i in let '(os, s) := lspec_run s is_ in (o ++ os, s) end.

(** ** The simulation *)

Definition free (x : Z) : Prop := x = 0 \/ x = kInvalidFrame.

(** The slots, seen from the next one to fill: the older first. *)
Definition holds (a b h : Z) (l : list Z) (any : bool) : Prop :=
  match l with
  | [] => free a /\ free b
  | [x] => b = x /\ free a /\ (x = 0 -> h = 1)
  | [x; y] => a = x /\ b = y /\ x <> y /\ y <> 0 /\ (x = 0 -> h = 0)
  | _ => False
  end /\ (any = false -> l = [] /\ h = 0).

Definition ring_of (a b h : Z) : list Z := if h =? 0 then [a; b] else [b; a].

Record lane_inv (l : lane) (s : lspec) : Prop := {
  la_state : l_state l = 1 \/ l_state l = 2;
  la_ddr : exists d, ddr_inv d (l_ddr l);
  la_ring : exists a b h, (h = 0 \/ h = 1) /\ tx_park_head (l_sink l) = h /\ tx_parked (l_sink l) = ring_of a b h /\ holds a b h (q s) (begun s);
  la_small : Forall (fun x => 0 <= x < 2 ^ 16) (q s);
  la_done : tx_done_count (l_sink l) = u32 (Z.of_nat (length (shipped s)));
  la_received : s_frames_received (l_sink l) = u32 (Z.of_nat (length (shipped s)));
  la_stale : tx_stale (l_sink l) = u32 (unmatched s);
  la_rejects : tx_rejects (l_sink l) = u32 (refused s);
  la_errs : stream_errs (l_sink l) = u32 (errs s)
}.

Lemma lane_inv0 : lane_inv lane0 lspec0.
Proof.
  split; try done; [by left|exists (fun _ _ => None); apply ddr_inv0|]. exists 0, 0, 0. split_and!; try done; [by left|]. split; [split; by left|done].
Qed.

Lemma u32_next n : u32 (u32 n + 1) = u32 (n + 1).
Proof. by rewrite wrap_add_wrap_l. Qed.

(** Parking at the head. *)
Lemma ring_park a b h f : h = 0 \/ h = 1 -> <[Z.to_nat h := f]> (ring_of a b h) = ring_of b f (1 - h) /\ u8 ((h + 1) mod kTxParkDepth) = 1 - h /\
  is_Some (ring_of a b h !! Z.to_nat h).
Proof. intros [-> | ->]; split_and!; done. Qed.

Lemma holds_park a b h f l any : holds a b h l any -> h = 0 \/ h = 1 -> (length l < 2)%nat -> existsb (Z.eqb f) l = false -> f <> 0 \/ any = false ->
  holds b f (1 - h) (l ++ [f]) true.
Proof.
  intros [Hl Hany] Hh Hlen Hnew Hz. split; [|done]. destruct l as [|x [|y l]]; cbn in Hlen |- *; [|  |lia].
  - split_and!; [done|apply Hl|]. intros ->. destruct Hz as [?| ->]; [done|]. destruct (Hany eq_refl) as [_ ->]. done.
  - cbn in Hnew. rewrite orb_false_r in Hnew. apply Z.eqb_neq in Hnew. destruct Hl as (-> & _ & Hx).
    split_and!; try done.
    + destruct Hz as [?| ->]; [done|]. by destruct (Hany eq_refl).
    + intros E. rewrite (Hx E). done.
Qed.

(** A completion of the frame that has waited longest. *)
Lemma ring_hit a b h x l any : h = 0 \/ h = 1 -> holds a b h (x :: l) any -> 0 <= x < 2 ^ 16 -> Forall (fun y => 0 <= y < 2 ^ 16) l ->
  exists i a' b', find_idx (fun y => y =? x) (ring_of a b h) = Some i /\ <[i := kInvalidFrame]> (ring_of a b h) = ring_of a' b' h /\ holds a' b' h l any.
Proof.
  intros Hh [Hl Hany] Hx Hs. assert (Hany' : any = false -> l = [] /\ h = 0) by (intros E; by destruct (Hany E)).
  destruct l as [|y [|z l]]; [| |done].
  - destruct Hl as (-> & Ha & Hz). assert (Hb : h = 0 -> a <> x) by (intros -> ->; destruct Ha as [-> | ->]; [by specialize (Hz eq_refl)|unfold kInvalidFrame in *; lia]).
    destruct Hh as [-> | ->]; cbn.
    + rewrite (proj2 (Z.eqb_neq a x)), Z.eqb_refl by auto. exists 1%nat, a, kInvalidFrame. split_and!; try done. split; [split; [done|by right]|done].
    + rewrite Z.eqb_refl. exists 0%nat, a, kInvalidFrame. split_and!; try done. split; [split; [done|by right]|done].
  - destruct Hl as (-> & -> & Hne & Hy & Hz). destruct Hh as [-> | ->]; cbn.
    + rewrite Z.eqb_refl. exists 0%nat, kInvalidFrame, y. split_and!; try done. split; [|done]. split_and!; [done|by right|]. done.
    + rewrite (proj2 (Z.eqb_neq y x)), Z.eqb_refl by congruence. exists 1%nat, kInvalidFrame, y. split_and!; try done. split; [|done]. split_and!; [done|by right|done].
Qed.

(** A completion of a frame that is not on the lane. *)
Lemma ring_miss a b h f l any : h = 0 \/ h = 1 -> holds a b h l any -> f <> 0 -> 0 <= f < 2 ^ 16 -> existsb (Z.eqb f) l = false ->
  find_idx (fun y => y =? f) (ring_of a b h) = None.
Proof.
  intros Hh [Hl _] Hz Hf Hno. assert (Hfree : forall y, free y -> y <> f) by (intros y [-> | ->]; [done|unfold kInvalidFrame; lia]).
  assert (Hab : a <> f /\ b <> f).
  { destruct l as [|x [|y [|]]]; cbn in Hno; rewrite ?orb_false_r in Hno; [destruct Hl; auto| | |done].
    - apply Z.eqb_neq in Hno. destruct Hl as (-> & ? & _). split; [auto|congruence].
    - apply orb_false_iff in Hno as [H1%Z.eqb_neq H2%Z.eqb_neq]. destruct Hl as (-> & -> & _). split; congruence. }
  destruct Hab as [H1%Z.eqb_neq H2%Z.eqb_neq]. destruct Hh as [-> | ->]; cbn; by rewrite H1, H2.
Qed.

Lemma lane_machine_dispatch s a e : s = 1 \/ s = 2 -> pe_sig e = 18 \/ pe_sig e = 29 \/ pe_sig e = 36 ->
  exists b s', (s' = 1 \/ s' = 2) /\ dispatch pe_sig (mipi_machine s) a e =
    Ret (b, if pe_sig e =? 18 then on_temp_packed a e else if pe_sig e =? 29 then on_tx_done a e else on_stream_err a e, mipi_machine s').
Proof. apply (lane_dispatch pe_sig on_temp_packed on_tx_done on_stream_err). Qed.

(** The checks leave the lane alone. *)
Lemma temp_checked c d e : (exists s, ddr_inv s d) -> in_u 32 (frame_id (pe_meta e)) -> buffer_idx (pe_meta e) = frame_id (pe_meta e) mod 8 ->
  exists c' d', verify_temp_bytes (check_tag c (pe_control e)) d (pe_meta e) = Ret (c', d') /\ (exists s, ddr_inv s d') /\
    tx_parked c' = tx_parked c /\ tx_park_head c' = tx_park_head c /\ tx_done_count c' = tx_done_count c /\ s_frames_received c' = s_frames_received c /\
    tx_stale c' = tx_stale c /\ tx_rejects c' = tx_rejects c /\ stream_errs c' = stream_errs c.
Proof.
  intros [s Hd] Hf Hb. unfold verify_temp_bytes, verify. rewrite (slot_of_meta _ Hf Hb). destruct (read_keeps s d kDdrTemp _ Hd ltac:(done) Hf) as (d' & -> & Hd').
  cbn [mbind outcome_bind]. destruct (get _ _ _); (eexists _, d'; split; [reflexivity|]; split; [by exists s|]); unfold check_tag; by destruct (wrong_tag _ _).
Qed.

Section sim.
Context (l : lane) (s : lspec) (e : pevent) (taken pool : bool) (Hl : lane_inv l s).
#[local] Notation a0 := (mkMipi (l_sink l) (l_ddr l) taken pool [] false).
#[local] Notation i0 := (mkLin e taken pool).

Lemma packed_sim : pe_sig e = 18 -> lane_ok s i0 = true ->
  let a := on_temp_packed a0 e in
  mi_fatal a = false /\ mi_out a = (lspec_step s i0).1 /\ forall st, st = 1 \/ st = 2 -> lane_inv (mkLane st (mi a) (mi_ddr a)) (lspec_step s i0).2.
Proof.
  intros Hsig Hok. unfold lane_ok in Hok. cbn [li_ev li_taken li_pool frame_of] in Hok. rewrite Hsig in Hok. change (18 =? kTempPackedSig) with true in Hok. unfold frame_of in Hok. cbn [li_ev] in Hok.
  cbn [orb andb] in Hok. apply andb_true_iff in Hok as [[H0%Z.leb_le H1%Z.ltb_lt]%andb_true_iff [H2%Z.eqb_eq H3]%andb_true_iff].
  destruct Hl as [Hst Hd (a & b & h & Hh & Hhd & Hrg & Hho) Hsm Hdn Hrc Hsa Hrj Her]. change (2 ^ 16) with 65536 in *.
  destruct (temp_checked (l_sink l) (l_ddr l) e Hd ltac:(unfold in_u; lia) H2) as (c' & d' & Hv & Hd' & K1 & K2 & K3 & K4 & K5 & K6 & K7).
  unfold on_temp_packed, onTempPacked, lspec_step, frame_of. cbn [mi mi_ddr mi_taken mi_pool mi_out mi_fatal li_ev li_taken li_pool]. rewrite Hv, Hsig. change (18 =? kTempPackedSig) with true.
  cbn [mbind outcome_bind]. destruct taken.
  - cbn [negb orb] in H3. apply andb_true_iff in H3 as [[H3%Nat.ltb_lt H4%negb_true_iff]%andb_true_iff H5].
    assert (Hz : frame_id (pe_meta e) <> 0 \/ begun s = false).
    { apply orb_true_iff in H5 as [H5%negb_true_iff|H5%negb_true_iff]; [left; by apply Z.eqb_neq in H5|by right]. }
    destruct (ring_park a b h (frame_id (pe_meta e)) Hh) as (R1 & R2 & [x Rx]). rewrite K1, K2, Hrg, Hhd, Rx, R1, R2. cbn [mret outcome_ret mi_fatal mi_out mi mi_ddr fst snd].
    split; [done|]. split; [done|]. intros st Hs. split; cbn; rewrite ?K3, ?K4, ?K5, ?K6, ?K7; try done.
    + exists b, (frame_id (pe_meta e)), (1 - h). split_and!; [lia|done|done|]. by apply (holds_park a b h _ _ (begun s)).
    + apply Forall_app. split; [done|]. constructor; [lia|done].
    + rewrite Hrc, Z.add_0_r. apply wrap_wrap. lia.
  - cbn [mret outcome_ret mi_fatal mi_out mi mi_ddr fst snd app]. split; [done|]. split; [done|]. intros st Hs. split; cbn; rewrite ?K1, ?K2, ?K3, ?K4, ?K5, ?K6, ?K7; try done.
    + by exists a, b, h.
    + rewrite Hrc, Z.add_0_r. apply wrap_wrap. lia.
    + rewrite Hrj. apply u32_next.
Qed.

Lemma tx_done_sim : pe_sig e = 29 -> lane_ok s i0 = true ->
  let a := on_tx_done a0 e in
  mi_fatal a = false /\ mi_out a = (lspec_step s i0).1 /\ forall st, st = 1 \/ st = 2 -> lane_inv (mkLane st (mi a) (mi_ddr a)) (lspec_step s i0).2.
Proof.
  intros Hsig Hok. unfold lane_ok in Hok. cbn [li_ev li_taken li_pool] in Hok. rewrite Hsig in Hok. change (29 =? kTempPackedSig) with false in Hok. change (29 =? kMipiTxDone) with true in Hok.
  unfold frame_of in Hok. cbn [li_ev] in Hok. cbn [orb andb] in Hok. apply andb_true_iff in Hok as [[H0%Z.leb_le H1%Z.ltb_lt]%andb_true_iff H3].
  destruct Hl as [Hst Hd (a & b & h & Hh & Hhd & Hrg & Hho) Hsm Hdn Hrc Hsa Hrj Her].
  unfold on_tx_done, onMipiTxDone, lspec_step, frame_of. cbn [mi mi_ddr mi_taken mi_pool mi_out mi_fatal li_ev li_taken li_pool]. rewrite Hsig, Hrg.
  change (29 =? kTempPackedSig) with false. change (29 =? kMipiTxDone) with true. cbv iota.
  assert (Hmiss : existsb (Z.eqb (frame_id (pe_meta e))) (q s) = false -> frame_id (pe_meta e) <> 0 ->
    find_idx (fun y => y =? frame_id (pe_meta e)) (ring_of a b h) = None) by (intros; apply (ring_miss a b h _ (q s) (begun s)); auto).
  destruct (q s) as [|x rest] eqn:Hq.
  - apply negb_true_iff, Z.eqb_neq in H3. rewrite (Hmiss eq_refl H3). split; [done|]. split; [done|]. intros st Hs. split; cbn; rewrite ?Hsa; try done; [|apply u32_next].
    by exists a, b, h.
  - destruct (Z.eqb_spec x (frame_id (pe_meta e))) as [Hx|Hx].
    + apply Forall_cons in Hsm as [Hx1 Hsm]. destruct (ring_hit a b h x rest (begun s) Hh Hho Hx1 Hsm) as (i & a' & b' & Hfi & Hins & Hho'). rewrite <- Hx, Hfi, Hins.
      split; [done|]. split; [done|]. intros st Hs. split; cbn; rewrite ?length_app; cbn [length]; try done.
      * by exists a', b', h.
      * rewrite Hdn, u32_next. f_equal. lia.
      * rewrite Hrc, u32_next. f_equal. lia.
    + cbn [orb] in H3. apply andb_true_iff in H3 as [H3%negb_true_iff H4%negb_true_iff]. apply Z.eqb_neq in H3.
      rewrite Hmiss; [|cbn; by rewrite H4, (proj2 (Z.eqb_neq _ _) (not_eq_sym Hx))|done].
      split; [done|]. split; [done|]. intros st Hs. split; cbn; rewrite ?Hsa; try done; [|apply u32_next]. by exists a, b, h.
Qed.

Lemma err_sim : pe_sig e = 36 ->
  let a := on_stream_err a0 e in
  mi_fatal a = false /\ mi_out a = (lspec_step s i0).1 /\ forall st, st = 1 \/ st = 2 -> lane_inv (mkLane st (mi a) (mi_ddr a)) (lspec_step s i0).2.
Proof.
  intros Hsig. unfold lspec_step. cbn [li_ev]. rewrite Hsig. split; [done|]. split; [done|]. intros st Hs. destruct Hl as [Hst Hd Hr Hsm Hdn Hrc Hsa Hrj Her].
  split; cbn; try done. rewrite Her. apply u32_next.
Qed.
End sim.

Lemma lane_step_sim l s i : lane_inv l s -> lane_ok s i = true -> exists l', lane_step l i = Ret ((lspec_step s i).1, l') /\ lane_inv l' (lspec_step s i).2.
Proof.
  intros Hl Hok. destruct i as [e taken pool]. unfold lane_step. cbn [li_ev li_taken li_pool].
  assert (Hsig : pe_sig e = 18 \/ pe_sig e = 29 \/ pe_sig e = 36).
  { unfold lane_ok in Hok. cbn [li_ev] in Hok. apply andb_true_iff in Hok as [[[[[H|H]%orb_true_iff|H]%orb_true_iff _]%andb_true_iff _]%andb_true_iff _]; apply Z.eqb_eq in H; auto. }
  destruct (lane_machine_dispatch (l_state l) (mkMipi (l_sink l) (l_ddr l) taken pool [] false) e (la_state _ _ Hl) Hsig) as (b & st & Hst & ->).
  cbn [mbind outcome_bind]. change (current_ (mipi_machine st)) with st.
  destruct Hsig as [Hsig|[Hsig|Hsig]]; rewrite Hsig; cbn [Z.eqb Pos.eqb];
    [destruct (packed_sim l s e taken pool Hl Hsig Hok) as (-> & Ho & Hn)|destruct (tx_done_sim l s e taken pool Hl Hsig Hok) as (-> & Ho & Hn)|
     destruct (err_sim l s e taken pool Hl Hsig) as (-> & Ho & Hn)]; rewrite Ho; (eexists; split; [reflexivity|by apply Hn]).
Qed.

(** The lane's sink keeps its books.  Under any order of packed frames,
    completions and error interrupts, whatever the lane's worker and the pool
    answer: the sink submits only the completion of a frame the lane refused,
    counts a frame as received once, when it is the one that has waited longest
    on the lane, and counts every other completion as stale; an error interrupt
    moves nothing but its own count.  The proviso [lanes_ok]: at most two frames
    on the lane, each under its own number below 2^16. *)
Theorem lane_keeps_its_books (is_ : list linput) :
  lanes_ok lspec0 is_ = true ->
  exists l, lane_run lane0 is_ = Ret ((lspec_run lspec0 is_).1, l) /\
    let s := (lspec_run lspec0 is_).2 in
    s_frames_received (l_sink l) = u32 (Z.of_nat (length (shipped s))) /\ tx_done_count (l_sink l) = u32 (Z.of_nat (length (shipped s))) /\
    tx_stale (l_sink l) = u32 (unmatched s) /\ tx_rejects (l_sink l) = u32 (refused s) /\ stream_errs (l_sink l) = u32 (errs s).
Proof.
  generalize lane_inv0. generalize lane0, lspec0. induction is_ as [|i is_ IH]; intros l s Hi Ho.
  - exists l. split; [done|]. by destruct Hi.
  - apply andb_true_iff in Ho as [Hok Ho]. destruct (lane_step_sim l s i Hi Hok) as (l1 & Hs & Hi1). cbn [lane_run lspec_run]. rewrite Hs. cbn [mbind outcome_bind].
    destruct (lspec_step s i) as [o s1]. cbn [fst snd] in *. destruct (IH l1 s1 Hi1 Ho) as (l2 & -> & Hx). cbn [mbind outcome_bind].
    destruct (lspec_run s1 is_) as [os s2]. by exists l2.
Qed.

Definition temp_in (f : Z) (taken : bool) : linput := mkLin (mkPev kTempPackedSig (mkMeta 0 f 640 512 0 0 0 2 (f mod 8) 0) [84; 69; 77; 80]) taken true.
Definition tx_in (f : Z) : linput := mkLin (mkPev kMipiTxDone (mkMeta 0 f 640 512 0 0 0 0 0 0) []) true true.
Definition err_in : linput := mkLin (mkPev kMipiStreamErr meta0 []) true true.

(** Frames overlap, one is refused, its completion is stale. *)
Definition two_on_the_lane : list linput := [temp_in 0 true; temp_in 1 true; temp_in 2 false; err_in; tx_in 0; tx_in 2; temp_in 3 true; tx_in 1; tx_in 3].

Lemma lane_keeps_its_books_witness :
  lanes_ok lspec0 two_on_the_lane = true /\
  exists l, lane_run lane0 two_on_the_lane = Ret ([mkOut kMipiTxDone (mkMeta 0 2 640 512 0 0 0 0 0 0) 255 255], l) /\
    s_frames_received (l_sink l) = 3 /\ tx_done_count (l_sink l) = 3 /\ tx_stale (l_sink l) = 1 /\ tx_rejects (l_sink l) = 1 /\ stream_errs (l_sink l) = 1.
Proof. split; [reflexivity|]. apply (lane_keeps_its_books two_on_the_lane). reflexivity. Defined.

(** ** Outside the proviso *)

Definition books (is_ : list linput) : outcome (Z * Z * Z) :=
  '(_, l) ← lane_run lane0 is_; mret (tx_subs (l_sink l), tx_done_count (l_sink l), tx_stale (l_sink l)).

(** The worker is given the low half of a frame's number and completes that: a
    frame numbered 2^16 or more is never counted as received. *)
Definition done_of (f : Z) (pool : bool) : list linput := map (fun o => mkLin (mkPev (o_sig o) (o_meta o) []) true true) (mipi_execute (u16 f) pool).

Lemma wide_number_never_completes : books (temp_in 65536 true :: temp_in 65537 true :: done_of 65536 true ++ done_of 65537 true) = Ret (2, 0, 2).
Proof. vm_compute. reflexivity. Qed.

(** Two frames in the worker's queue and one in its hands are three on the lane:
    the third takes the place of the first. *)
Lemma third_on_the_lane_evicts : books [temp_in 1 true; temp_in 2 true; temp_in 3 true; tx_in 1; tx_in 2; tx_in 3] = Ret (3, 2, 1).
Proof. vm_compute. reflexivity. Qed.

(** The empty places look like frame 0: refused, it is counted as received. *)
Lemma refused_frame_zero_received : books [temp_in 0 false; tx_in 0] = Ret (0, 1, 0).
Proof. vm_compute. reflexivity. Qed.
