(* ===== verification/Kernel.v ===== *)
(** * The kernel semaphores under the RTOS platform layers

    The platform layers own no synchronisation of their own: every wait and wake
    is a give or a take of a kernel semaphore.  [SemKernel] is the operation set
    they use (FreeRTOS' [xSemaphoreCreateCountingStatic], [xSemaphoreGive] and
    its [FromISR] variant, [xSemaphoreTake] once it does not block; RT-Thread's
    [rt_sem_init], [rt_sem_release], [rt_sem_take]) and [SemLaws] the documented
    behaviour the layers rely on.  The host stub's semaphore
    (test/freertos_stub.h) is an instance. *)

From S2P Require Import Prelude.
Local Open Scope nat_scope.

Class SemKernel (K : Type) := {
  sem_create : nat -> nat -> K;   (* the maximum and the initial count *)
  sem_give : K -> bool * K;
  sem_poll : K -> bool * K;       (* a take that does not block *)
  sem_count : K -> nat;
  sem_max : K -> nat
}.

Class SemLaws (K : Type) `{!SemKernel K} := {
  sem_create_spec m i : i <= m -> sem_max (sem_create m i) = m /\ sem_count (sem_create m i) = i;
  sem_give_spec s s' ok : sem_give s = (ok, s') ->
    sem_max s' = sem_max s /\
    (ok = true /\ sem_count s < sem_max s /\ sem_count s' = sem_count s + 1 \/
     ok = false /\ sem_max s <= sem_count s /\ sem_count s' = sem_count s);
  sem_poll_spec s s' ok : sem_poll s = (ok, s') ->
    sem_max s' = sem_max s /\
    (ok = true /\ sem_count s = sem_count s' + 1 \/ ok = false /\ sem_count s = 0 /\ sem_count s' = 0)
}.

(** A give below the maximum and a take of a counted token succeed. *)
Lemma sem_give_room {K} `{SemLaws K} (s : K) :
  sem_count s < sem_max s ->
  exists s', sem_give s = (true, s') /\ sem_max s' = sem_max s /\ sem_count s' = sem_count s + 1.
Proof.
  intros Hlt. destruct (sem_give s) as [ok s'] eqn:E. apply sem_give_spec in E as (? & [(-> & ? & ?)|(-> & ? & ?)]); [|lia].
  by exists s'.
Qed.

Lemma sem_poll_token {K} `{SemLaws K} (s : K) :
  0 < sem_count s ->
  exists s', sem_poll s = (true, s') /\ sem_max s' = sem_max s /\ sem_count s = sem_count s' + 1.
Proof.
  intros Hlt. destruct (sem_poll s) as [ok s'] eqn:E. apply sem_poll_spec in E as (? & [(-> & ?)|(-> & ? & ?)]); [|lia].
  by exists s'.
Qed.

(** ** The semaphore of the host stub *)

Record StaticSemaphore_t := mkStub { stub_count : nat; stub_max : nat }.

Definition stub_freertos_sem_init (max initial : nat) : StaticSemaphore_t := mkStub initial max.

Definition xSemaphoreGive (s : StaticSemaphore_t) : bool * StaticSemaphore_t :=
  if stub_max s <=? stub_count s then (false, s) else (true, mkStub (S (stub_count s)) (stub_max s)).

(** [xSemaphoreTake] with no ticks. *)
Definition xSemaphoreTake0 (s : StaticSemaphore_t) : bool * StaticSemaphore_t :=
  match stub_count s with 0 => (false, s) | S c => (true, mkStub c (stub_max s)) end.

#[export] Instance stub_kernel : SemKernel StaticSemaphore_t := {
  sem_create := stub_freertos_sem_init;
  sem_give := xSemaphoreGive;
  sem_poll := xSemaphoreTake0;
  sem_count := stub_count;
  sem_max := stub_max
}.

#[export] Instance stub_laws : SemLaws StaticSemaphore_t.
Proof.
  split; cbn; unfold xSemaphoreGive, xSemaphoreTake0; try done.
  - intros [c m] s' ok. cbn. destruct (Nat.leb_spec m c); intros [= <- <-]; cbn; split; lia.
  - intros [c m] s' ok. cbn. destruct c; intros [= <- <-]; cbn; split; lia.
Qed.
