(* ===== verification/PalTime.v ===== *)
(** * Time in the RTOS platform layers (include/coact/pal_freertos.hpp,
      include/coact/pal_rtthread.hpp, src/core/pal_freertos.cpp, src/core/pal_rtthread.cpp)

    The monotonic clock that extends a board counter of [counter_bits] bits to 64
    bits, and the conversions from the milliseconds and microseconds of the API
    to kernel ticks.  The board's counter is the argument [raw] of the reads; the
    tick rate and RT-Thread's [RT_WAITING_FOREVER] are configuration constants of
    code outside the repository and therefore arguments. *)

From S2P Require Import Prelude.
Local Open Scope Z_scope.

(** ** The clock *)

Record ClockOps := mkClockOps { frequency_hz : Z; counter_bits : Z }.

Record clock := mkClock {
  clock_ops_ : ClockOps;
  ns_per_counter_ : Z;
  counter_epoch_ : Z;
  last_counter_ : Z;
  counter_seen_ : bool
}.

Definition exact_ns_per_counter (frequency_hz : Z) : Z :=
  if negb (frequency_hz =? 0) && (1000000000 `mod` frequency_hz =? 0) then 1000000000 / frequency_hz else 0.

Definition set_clock_ops (ops : ClockOps) (c : clock) : clock :=
  mkClock ops (exact_ns_per_counter (frequency_hz ops)) 0 0 false.

(** The constructor of either PAL: the kernel's 32-bit tick counter. *)
Definition tick_clock (rate : Z) : clock :=
  mkClock (mkClockOps rate 32) (exact_ns_per_counter rate) 0 0 false.

Definition read_extended_counter (raw : Z) (c : clock) : Z * clock :=
  let bits := counter_bits (clock_ops_ c) in
  if (bits =? 0) || (64 <=? bits) then (raw, c)
  else
    let modulus := Z.shiftl 1 bits in
    let counter := Z.land raw (modulus - 1) in
    let epoch := if counter_seen_ c && (counter <? last_counter_ c)
                 then wrap 64 (counter_epoch_ c + modulus) else counter_epoch_ c in
    (wrap 64 (epoch + counter), mkClock (clock_ops_ c) (ns_per_counter_ c) epoch counter true).

Definition monotonic_ns (raw : Z) (c : clock) : Z * clock :=
  let hz := frequency_hz (clock_ops_ c) in
  if hz =? 0 then (0, c)
  else
    let '(counter, c) := read_extended_counter raw c in
    if negb (ns_per_counter_ c =? 0) then (wrap 64 (counter * ns_per_counter_ c), c)
    else
      let seconds := counter / hz in
      let remainder := counter `mod` hz in
      (wrap 64 (wrap 64 (seconds * 1000000000) + wrap 64 (remainder * 1000000000) / hz), c).

Definition clock_resolution_ns (c : clock) : Z :=
  let hz := frequency_hz (clock_ops_ c) in
  if hz =? 0 then 0 else 1000000000 / hz.

(** The readings of a run: one [monotonic_ns] per instant of [ts], when the board
    counter shows [count t] at the instant [t]. *)
Fixpoint ns_readings (count : Z -> Z) (ts : list Z) (c : clock) : list Z :=
  match ts with
  | [] => []
  | t :: ts => let '(ns, c) := monotonic_ns (count t) c in ns :: ns_readings count ts c
  end.

(** Successive instants closer than one period of the counter. *)
Fixpoint read_often (period : Z) (ts : list Z) : Prop :=
  match ts with
  | t :: ((u :: _) as ts') => t <= u < t + period /\ read_often period ts'
  | _ => True
  end.

(** ** FreeRTOS: ticks and priorities *)

Definition kWaitForever : Z := 2 ^ 32 - 1.
(** [portMAX_DELAY] of the 32-bit tick that the header's gates require. *)
Definition portMAX_DELAY : Z := 2 ^ 32 - 1.

Definition ms_to_ticks (rate timeout_ms : Z) : Z :=
  if timeout_ms =? 0 then 0
  else
    let ticks := wrap 64 (timeout_ms * rate + 999) / 1000 in
    if portMAX_DELAY <=? ticks then portMAX_DELAY - 1
    else wrap 32 (if ticks =? 0 then 1 else ticks).

Definition wait_ticks (rate timeout_ms : Z) : Z :=
  if (timeout_ms =? 0) || (timeout_ms =? kWaitForever) then portMAX_DELAY else ms_to_ticks rate timeout_ms.

(** The ticks that [sem_take] asks the kernel for. *)
Definition sem_take_ticks (rate timeout_ms : Z) : Z :=
  if kWaitForever =? timeout_ms then portMAX_DELAY else ms_to_ticks rate timeout_ms.

(** [sleep_us]: [None] is [taskYIELD], [Some n] is [vTaskDelay n]. *)
Definition sleep_us (rate us : Z) : option Z :=
  let ticks := wrap 64 (us * rate + 999999) / 1000000 in
  let ticks := if (0 <? us) && (ticks =? 0) then 1 else ticks in
  if ticks =? 0 then None else Some (wrap 32 ticks).

Definition dispatcher_priority (max_priorities : Z) : Z := max_priorities - 1.

Definition map_logical_prio (max_priorities prio : Z) : Z :=
  let floor := 1 in
  let ceiling := max_priorities - 2 in
  if prio <? floor then floor else if ceiling <? prio then ceiling else prio.

(** ** RT-Thread: ticks *)

(** [static_cast<rt_int32_t>] *)
Definition to_i32 (x : Z) : Z :=
  let u := wrap 32 x in if u <? 2 ^ 31 then u else u - 2 ^ 32.

Definition dispatcher_wait_ticks (forever_ rate timeout_ms : Z) : Z :=
  if timeout_ms =? 0 then to_i32 forever_
  else
    let ticks := if rate =? 1000 then timeout_ms else wrap 64 (timeout_ms * rate + 999) / 1000 in
    let forever := wrap 64 forever_ in
    if forever <=? ticks then to_i32 (forever - 1) else to_i32 ticks.

(** The ticks of [sem_take] ([RT_WAITING_NO] is 0) and of [cond_wait]. *)
Definition rt_sem_take_ticks (forever_ rate timeout_ms : Z) : Z :=
  if 0 =? timeout_ms then 0
  else if kWaitForever =? timeout_ms then to_i32 forever_
  else dispatcher_wait_ticks forever_ rate timeout_ms.

Definition rt_cond_ticks (forever_ rate timeout_ms : Z) : Z :=
  if (0 =? timeout_ms) || (kWaitForever =? timeout_ms) then to_i32 forever_
  else dispatcher_wait_ticks forever_ rate timeout_ms.

(** [sleep_us]: the milliseconds given to [rt_thread_mdelay]. *)
Definition rt_sleep_us (us : Z) : Z :=
  let ms := to_i32 (wrap 32 (us + 999) / 1000) in
  if 0 =? ms then 1 else ms.

(** * What the RTOS clocks and tick conversions promise

    About [PalTime]: a clock that is read at least once per period of its counter
    tells the true time whatever the width of the counter and whichever of its
    two arithmetic paths it takes, and converting a timeout to ticks neither
    shortens a wait nor turns a finite one into an endless one. *)

(** ** The extension of the counter *)

(** One period of the counter brings at most one wrap, seen as a decrease. *)
Lemma period_step (P t u : Z) :
  0 < P -> t <= u < t + P ->
  u / P * P = t / P * P + (if u `mod` P <? t `mod` P then P else 0).
Proof.
  intros HP Htu.
  pose proof (Z.div_mod t P ltac:(lia)) as Ht. pose proof (Z.div_mod u P ltac:(lia)) as Hu.
  pose proof (Z.mod_pos_bound t P HP). pose proof (Z.mod_pos_bound u P HP).
  assert (u / P = t / P \/ u / P = t / P + 1) as [E|E] by nia;
    rewrite E in *; destruct (Z.ltb_spec (u `mod` P) (t `mod` P)); nia.
Qed.

Section clock.
Context (count : Z -> Z) (ops : ClockOps) (base : Z).
Let bits := counter_bits ops.
Let hz := frequency_hz ops.
Let P := 2 ^ bits.
Hypothesis bits_range : 0 < bits < 64.
Hypothesis hz_range : 0 < hz < 2 ^ 32.
Hypothesis count_ok : forall t, count t `mod` P = t `mod` P.

(** The clock after a reading at the instant [t]. *)
Definition clock_at (t : Z) : clock :=
  mkClock ops (exact_ns_per_counter hz) (wrap 64 (t / P * P - base)) (t `mod` P) true.

Lemma extended_counter_at (t u : Z) :
  t <= u < t + P ->
  read_extended_counter (count u) (clock_at t) = (wrap 64 (u - base), clock_at u).
Proof.
  intros Htu. assert (HP : 0 < P) by (apply pow2_pos; lia).
  unfold read_extended_counter, clock_at; cbn -[wrap Z.pow Z.div Z.shiftl].
  destruct (Z.eqb_spec (counter_bits ops) 0) as [|_]; [unfold bits in *; lia|].
  destruct (Z.leb_spec 64 (counter_bits ops)); [unfold bits in *; lia|]. cbn -[wrap Z.pow Z.div Z.shiftl].
  rewrite Z.shiftl_1_l.
  replace (2 ^ counter_bits ops - 1) with (Z.ones bits) by (rewrite Z.ones_equiv; unfold bits; lia).
  rewrite Z.land_ones, count_ok by lia. fold bits. fold P.
  pose proof (period_step P t u HP Htu) as Hs. pose proof (Z.div_mod u P ltac:(lia)) as Hu.
  assert (He : (if u `mod` P <? t `mod` P then wrap 64 (wrap 64 (t / P * P - base) + P) else wrap 64 (t / P * P - base))
               = wrap 64 (u / P * P - base)).
  { rewrite Hs. destruct (u `mod` P <? t `mod` P); [rewrite wrap_add_wrap_l by lia|]; f_equal; lia. }
  rewrite He. f_equal. rewrite wrap_add_wrap_l by lia. f_equal. lia.
Qed.

(** Both arithmetic paths compute the same floor. *)
Lemma ns_of_counter (e : Z) :
  in_u 64 e ->
  (if negb (exact_ns_per_counter hz =? 0) then wrap 64 (e * exact_ns_per_counter hz)
   else wrap 64 (wrap 64 (e / hz * 1000000000) + wrap 64 (e `mod` hz * 1000000000) / hz))
  = wrap 64 (e * 1000000000 / hz).
Proof.
  intros He. assert (Hd : e = hz * (e / hz) + e `mod` hz) by (apply Z.div_mod; lia).
  pose proof (Z.mod_pos_bound e hz ltac:(lia)).
  destruct (Z.eqb_spec (exact_ns_per_counter hz) 0) as [|Hn]; simpl.
  - rewrite (wrap_small 64 (e `mod` hz * 1000000000)) by (unfold in_u; lia).
    rewrite wrap_add_wrap_l by lia. f_equal.
    rewrite Hd at 3. rewrite <- Z.div_add_l by lia. f_equal. lia.
  - f_equal. unfold exact_ns_per_counter in *.
    destruct (Z.eqb_spec hz 0); [lia|]; simpl in *.
    destruct (Z.eqb_spec (1000000000 `mod` hz) 0) as [Hm|]; [|done].
    apply Z.div_exact in Hm; [|lia]. rewrite Hm at 2.
    symmetry. rewrite Z.mul_assoc, (Z.mul_comm e hz), <- Z.mul_assoc, Z.mul_comm. apply Z.div_mul. lia.
Qed.

Lemma monotonic_ns_at (t u : Z) :
  t <= u < t + P -> 0 <= u - base < 2 ^ 64 ->
  monotonic_ns (count u) (clock_at t) = (wrap 64 ((u - base) * 1000000000 / hz), clock_at u).
Proof.
  intros Htu Hu. unfold monotonic_ns. cbn [clock_at clock_ops_]. fold hz.
  destruct (Z.eqb_spec hz 0); [lia|]. rewrite (extended_counter_at t u Htu), (wrap_small 64 (u - base)) by done.
  cbn [clock_at ns_per_counter_]. pose proof (ns_of_counter (u - base) Hu) as Hn.
  by destruct (negb (exact_ns_per_counter hz =? 0)); rewrite Hn.
Qed.

Lemma ns_readings_from (ts : list Z) (t : Z) :
  base <= t -> read_often P (t :: ts) -> Forall (fun u => u < base + 2 ^ 64) ts ->
  ns_readings count ts (clock_at t) = map (fun u => wrap 64 ((u - base) * 1000000000 / hz)) ts.
Proof.
  revert t. induction ts as [|u ts IH]; intros t Hb Ho Hf; [done|]. destruct Ho as [Htu Ho].
  inversion Hf as [|? ? Hu Hf']; subst. simpl. rewrite monotonic_ns_at by lia.
  f_equal. apply IH; [lia|done|done].
Qed.
End clock.

(** The clock tells the true time.  A board counter of any width below 64 bits
    that wraps as it likes, read by [monotonic_ns] at least once per period, gives
    at every instant the nanoseconds since the counter's last zero before the
    first reading, rounded down once and reduced modulo 2^64, whichever of the
    two arithmetic paths the frequency selects. *)
Theorem clock_tells_the_time (count : Z -> Z) (ops : ClockOps) (c : clock) (t : Z) (ts : list Z) :
  let P := 2 ^ counter_bits ops in
  let base := t / P * P in
  0 < counter_bits ops < 64 -> 0 < frequency_hz ops < 2 ^ 32 ->
  (forall u, count u `mod` P = u `mod` P) ->
  read_often P (t :: ts) -> Forall (fun u => u < base + 2 ^ 64) ts ->
  ns_readings count (t :: ts) (set_clock_ops ops c) =
  map (fun u => wrap 64 ((u - base) * 1000000000 / frequency_hz ops)) (t :: ts).
Proof.
  intros P base Hb Hh Hc Ho Hf. assert (HP : 0 < P) by (apply pow2_pos; lia).
  assert (HPlt : P < 2 ^ 64) by (apply Z.pow_lt_mono_r; lia).
  pose proof (Z.div_mod t P ltac:(lia)). pose proof (Z.mod_pos_bound t P HP).
  assert (Hbase : base <= t < base + P) by (unfold base; nia).
  assert (Hfirst : monotonic_ns (count t) (set_clock_ops ops c) = monotonic_ns (count t) (clock_at ops base base)).
  { unfold monotonic_ns, read_extended_counter, set_clock_ops, clock_at; cbn -[wrap Z.pow Z.div Z.shiftl Z.land].
    replace ((counter_bits ops =? 0) || (64 <=? counter_bits ops)) with false
      by (symmetry; apply orb_false_iff; split; [apply Z.eqb_neq|apply Z.leb_gt]; lia).
    fold P. replace (base / P) with (t / P) by (unfold base; by rewrite Z.div_mul by lia).
    replace (t / P * P - base) with 0 by (unfold base; lia).
    replace (base `mod` P) with 0 by (unfold base; by rewrite Z.mod_mul by lia).
    change (wrap 64 0) with 0.
    replace (Z.land (count t) (Z.shiftl 1 (counter_bits ops) - 1) <? 0) with false; [by destruct (Z.eqb_spec (frequency_hz ops) 0); [lia|]|].
    symmetry. apply Z.ltb_ge. apply Z.land_nonneg. right. rewrite Z.shiftl_1_l. fold P. lia. }
  cbn [ns_readings map]. rewrite Hfirst, (monotonic_ns_at count ops base Hb Hh Hc base t) by (fold P; lia).
  f_equal. apply ns_readings_from; try done. lia.
Qed.

(** A 16-bit counter at 32768 Hz, read before and after two of its wraps: the
    path with the separate seconds. *)
Lemma clock_tells_the_time_witness :
  ns_readings (fun u => u `mod` 2 ^ 16) [100; 65000; 65600; 131000; 131100]
    (set_clock_ops (mkClockOps 32768 16) (tick_clock 1000))
  = [3051757; 1983642578; 2001953125; 3997802734; 4000854492].
Proof.
  etrans; [apply (clock_tells_the_time (fun u => u `mod` 2 ^ 16) (mkClockOps 32768 16) (tick_clock 1000) 100)|].
  - cbn. lia.
  - cbn. lia.
  - intros u. apply Z.mod_mod. done.
  - cbn. lia.
  - repeat constructor.
  - vm_compute. reflexivity.
Defined.

(** What the hypothesis guards against: a whole period between two readings
    leaves no trace, the second reading is the first one again. *)
Lemma missed_period_is_invisible (raw : Z) (c : clock) (v : Z) (c' : clock) :
  0 < counter_bits (clock_ops_ c) < 64 -> counter_seen_ c = true ->
  read_extended_counter raw c = (v, c') ->
  read_extended_counter (raw + 2 ^ counter_bits (clock_ops_ c)) c' = (v, c').
Proof.
  destruct c as [ops ns epoch last seen]; simpl. intros Hb -> Hr. unfold read_extended_counter in *; cbn -[wrap Z.land Z.shiftl] in *.
  assert (Hc : (counter_bits ops =? 0) || (64 <=? counter_bits ops) = false)
    by (apply orb_false_iff; split; [apply Z.eqb_neq|apply Z.leb_gt]; lia).
  rewrite Hc in Hr. simplify_eq. cbn -[wrap Z.land Z.shiftl]. rewrite Hc.
  assert (Hm : Z.land (raw + 2 ^ counter_bits ops) (Z.shiftl 1 (counter_bits ops) - 1)
               = Z.land raw (Z.shiftl 1 (counter_bits ops) - 1)).
  { rewrite Z.shiftl_1_l. replace (2 ^ counter_bits ops - 1) with (Z.ones (counter_bits ops)) by (rewrite Z.ones_equiv; lia).
    rewrite !Z.land_ones by lia. rewrite <- (Z.mul_1_l (2 ^ counter_bits ops)) at 1.
    apply Z_mod_plus_full. }
  by rewrite Hm, Z.ltb_irrefl.
Qed.

(** ** Ticks *)

(** Rounding up: never less than asked for, and by less than one unit more. *)
Lemma div_up_spec (x d : Z) : 0 <= x -> 0 < d ->
  let q := (x + (d - 1)) / d in 0 <= q /\ x <= q * d /\ (q - 1) * d < x.
Proof.
  intros Hx Hd q. pose proof (Z.div_mod (x + (d - 1)) d ltac:(lia)) as He.
  pose proof (Z.mod_pos_bound (x + (d - 1)) d Hd). fold q in He. nia.
Qed.

(** What a conversion to ticks owes its caller, [asked] being the timeout times
    the rate and [unit] the units per second: a positive number of ticks below
    the endless one, covering the time asked for and less than one tick longer,
    unless the kernel cannot count that far. *)
Definition faithful_ticks (unit asked forever ticks : Z) : Prop :=
  0 < ticks < forever /\
  (asked <= ticks * unit \/ ticks = forever - 1) /\
  (ticks - 1) * unit < asked.

Lemma ms_to_ticks_faithful (rate ms : Z) :
  0 < rate <= 2 ^ 31 -> in_u 32 ms -> ms <> 0 ->
  faithful_ticks 1000 (ms * rate) portMAX_DELAY (ms_to_ticks rate ms).
Proof.
  intros Hr [Hm0 Hm] Hm1. unfold ms_to_ticks, faithful_ticks.
  destruct (Z.eqb_spec ms 0); [done|]. rewrite (wrap_small 64) by (unfold in_u; nia).
  destruct (div_up_spec (ms * rate) 1000 ltac:(nia) ltac:(lia)) as (Hq0 & Hq1 & Hq2).
  change (1000 - 1) with 999 in *. set (q := (ms * rate + 999) / 1000) in *. assert (0 < q) by nia.
  unfold portMAX_DELAY. destruct (Z.leb_spec (2 ^ 32 - 1) q); [lia|].
  destruct (Z.eqb_spec q 0); [lia|]. rewrite wrap_small by (unfold in_u; lia). lia.
Qed.

(** Waits are as long as asked for (FreeRTOS).  For every timeout and every
    tick rate: a dispatcher, condition or mailbox wait is endless exactly for 0
    and [kWaitForever]; a semaphore take is non-blocking exactly for 0 and
    endless exactly for [kWaitForever]; and every other timeout becomes a finite
    positive number of ticks that covers it, by less than one tick too many. *)
Theorem waits_are_as_long_as_asked (rate ms : Z) :
  0 < rate <= 2 ^ 31 -> in_u 32 ms ->
  (wait_ticks rate ms = portMAX_DELAY <-> ms = 0 \/ ms = kWaitForever) /\
  (sem_take_ticks rate ms = 0 <-> ms = 0) /\
  (sem_take_ticks rate ms = portMAX_DELAY <-> ms = kWaitForever) /\
  (ms <> 0 -> ms <> kWaitForever ->
   faithful_ticks 1000 (ms * rate) portMAX_DELAY (wait_ticks rate ms) /\
   sem_take_ticks rate ms = wait_ticks rate ms).
Proof.
  intros Hr Hm. unfold wait_ticks, sem_take_ticks.
  destruct (Z.eqb_spec ms 0) as [->|H0]; [|pose proof (ms_to_ticks_faithful rate ms Hr Hm H0) as [Hf ?]].
  - change (kWaitForever =? 0) with false. change (ms_to_ticks rate 0) with 0. simpl.
    unfold portMAX_DELAY, kWaitForever. lia.
  - rewrite (Z.eqb_sym kWaitForever). unfold faithful_ticks, portMAX_DELAY in *.
    destruct (Z.eqb_spec ms kWaitForever) as [->|]; simpl; [|lia].
    unfold kWaitForever in *; simpl; lia.
Qed.

Lemma waits_are_as_long_as_asked_witness :
  faithful_ticks 1000 (5 * 100) portMAX_DELAY (wait_ticks 100 5) /\ wait_ticks 100 5 = 1.
Proof.
  split; [|reflexivity].
  refine (proj1 (proj2 (proj2 (proj2 (waits_are_as_long_as_asked 100 5 _ _))) _ _)); [lia|unfold in_u; lia|lia|].
  unfold kWaitForever. lia.
Defined.

(** The same for [sleep_us], at rates up to a tick per microsecond: a task never
    wakes before its time, and only a sleep of zero yields. *)
Lemma sleep_covers_its_time (rate us : Z) :
  0 < rate <= 1000000 -> in_u 32 us ->
  match sleep_us rate us with
  | None => us = 0
  | Some n => 0 < n /\ us * rate <= n * 1000000 /\ (n - 1) * 1000000 < us * rate
  end.
Proof.
  intros Hr [Hu0 Hu]. unfold sleep_us. rewrite (wrap_small 64) by (unfold in_u; nia).
  destruct (div_up_spec (us * rate) 1000000 ltac:(nia) ltac:(lia)) as (Hq0 & Hq1 & Hq2).
  change (1000000 - 1) with 999999 in *. set (q := (us * rate + 999999) / 1000000) in *.
  destruct (Z.ltb_spec 0 us); destruct (Z.eqb_spec q 0); simpl; try nia.
  - destruct (Z.eqb_spec q 0); [lia|]. rewrite wrap_small by (unfold in_u; nia). lia.
  - assert (us = 0) by lia. subst us. assert (Hq : q = 0) by reflexivity. by rewrite Hq.
Qed.

(** Producers stay between the idle task and the dispatcher. *)
Lemma producers_below_the_dispatcher (max_priorities p q : Z) :
  3 <= max_priorities ->
  1 <= map_logical_prio max_priorities p < dispatcher_priority max_priorities /\
  (p <= q -> map_logical_prio max_priorities p <= map_logical_prio max_priorities q).
Proof. intros Hm. unfold map_logical_prio, dispatcher_priority. repeat case_test; lia. Qed.

(** ** RT-Thread *)

Lemma to_i32_small (x : Z) : 0 <= x < 2 ^ 31 -> to_i32 x = x.
Proof. intros Hx. unfold to_i32. rewrite wrap_small by (unfold in_u; lia). case_test; lia. Qed.

(** With a positive [RT_WAITING_FOREVER], the value the host stub defines. *)
Lemma rt_waits_with_positive_forever (rate ms : Z) :
  let forever := 2 ^ 31 - 1 in
  0 < rate <= 2 ^ 31 -> in_u 32 ms ->
  (dispatcher_wait_ticks forever rate ms = forever <-> ms = 0) /\
  (ms <> 0 -> faithful_ticks 1000 (ms * rate) forever (dispatcher_wait_ticks forever rate ms)).
Proof.
  intros forever Hr [Hm0 Hm]. unfold dispatcher_wait_ticks, faithful_ticks. unfold forever.
  change (wrap 64 (2 ^ 31 - 1)) with (2 ^ 31 - 1). change (to_i32 (2 ^ 31 - 1)) with (2 ^ 31 - 1).
  change (to_i32 (2 ^ 31 - 1 - 1)) with (2 ^ 31 - 2). destruct (Z.eqb_spec ms 0); [lia|].
  rewrite (wrap_small 64) by (unfold in_u; nia).
  destruct (div_up_spec (ms * rate) 1000 ltac:(nia) ltac:(lia)) as (Hq0 & Hq1 & Hq2).
  change (1000 - 1) with 999 in *. set (q := (ms * rate + 999) / 1000) in *.
  destruct (Z.eqb_spec rate 1000) as [->|].
  - destruct (Z.leb_spec (2 ^ 31 - 1) ms); [lia|]. rewrite to_i32_small by lia. lia.
  - assert (0 < q) by nia. destruct (Z.leb_spec (2 ^ 31 - 1) q); [lia|]. rewrite to_i32_small by lia. lia.
Qed.

(** With the negative one of RT-Thread's own header the clamp never applies: the
    comparison is made in 64 bits, and a timeout of 2^31 ms or more at the usual
    rate becomes a negative number of ticks, [kWaitForever] the endless one. *)
Lemma rt_clamp_never_applies (ms : Z) :
  in_u 32 ms -> 2 ^ 31 <= ms ->
  dispatcher_wait_ticks (-1) 1000 ms = ms - 2 ^ 32 /\
  dispatcher_wait_ticks (-1) 1000 kWaitForever = -1.
Proof.
  intros [Hm0 Hm] Hl. split; [|reflexivity]. unfold dispatcher_wait_ticks.
  destruct (Z.eqb_spec ms 0); [lia|]. change (1000 =? 1000) with true. cbv beta iota zeta.
  change (wrap 64 (-1)) with (2 ^ 64 - 1). destruct (Z.leb_spec (2 ^ 64 - 1) ms); [lia|].
  unfold to_i32. rewrite wrap_small by (unfold in_u; lia). case_test; lia.
Qed.

(** [sleep_us] rounds up in 32 bits: it covers the time asked for except in the
    last 999 microseconds of the range, where it sleeps a millisecond. *)
Lemma rt_sleep_covers_unless_wrapped (us : Z) :
  in_u 32 us ->
  if us <=? 2 ^ 32 - 1000 then us <= rt_sleep_us us * 1000 /\ 0 < rt_sleep_us us
  else rt_sleep_us us = 1.
Proof.
  intros [Hu0 Hu]. unfold rt_sleep_us. destruct (Z.leb_spec us (2 ^ 32 - 1000)).
  - rewrite (wrap_small 32 (us + 999)) by (unfold in_u; lia).
    destruct (div_up_spec us 1000 Hu0 ltac:(lia)) as (Hq0 & Hq1 & Hq2). change (1000 - 1) with 999 in *.
    set (q := (us + 999) / 1000) in *. rewrite to_i32_small by lia.
    destruct (Z.eqb_spec 0 q); lia.
  - assert (Hw : wrap 32 (us + 999) = us + 999 - 2 ^ 32).
    { unfold wrap. symmetry. apply (Z.mod_unique _ _ 1); lia. }
    rewrite Hw, Z.div_small by lia. reflexivity.
Qed.
