(* ===== verification/PalContext.v ===== *)
(** * The context tables of the RTOS platform layers (src/core/pal_freertos.cpp,
      src/core/pal_rtthread.cpp, include/coact/config.hpp)

    Neither layer may use thread-local storage: a task's logical priority and its
    direct-dispatch depth live in a fixed table of slots keyed by the task's
    handle.  A handle is an integer here, the null handle [None]; whether the
    caller is an interrupt handler or the dispatcher is the kernel's answer. *)

From stdpp Require Import gmap.
From S2P Require Import Prelude Vocab.
Local Open Scope Z_scope.

(** ** Contexts and slots *)

Inductive ContextKind := Task | Dispatcher | Isr.

Record ExecutionContext := mkCtx { kind : ContextKind; logical_prio : Z; direct_depth : Z; prio_valid : bool }.

Definition plain_ctx (k : ContextKind) : ExecutionContext := mkCtx k 0 0 false.

Record ContextSlot := mkSlot { slot_task : option Z; slot_ctx : ExecutionContext }.

Definition free_slot : ContextSlot := mkSlot None (plain_ctx Task).
Definition occupied (s : ContextSlot) : bool := match slot_task s with Some _ => true | None => false end.

(** ** FreeRTOS *)

Definition find_slot (table : list ContextSlot) (task : Z) : option nat :=
  find_idx (fun s => bool_decide (slot_task s = Some task)) table.

Definition alloc_slot (table : list ContextSlot) (task : Z) : option nat * list ContextSlot :=
  match find_idx (fun s => negb (occupied s)) table with
  | Some i => (Some i, <[i := mkSlot (Some task) (plain_ctx Task)]> table)
  | None => (None, table)
  end.

(** [initialize]'s fresh table. *)
Definition clear_slots (table : list ContextSlot) : list ContextSlot := map (fun _ => free_slot) table.

(** The slot's owner fills it in, once the critical section gave it the slot. *)
Definition fill_slot (i : nat) (prio : Z) (table : list ContextSlot) : list ContextSlot :=
  match table !! i with
  | Some s => <[i := mkSlot (slot_task s) (mkCtx Task prio 0 true)]> table
  | None => table
  end.

(** [register_current_task] from its critical section on; [self] is the calling
    task, [frozen] whether the dispatcher was started. *)
Definition register_slot (frozen : bool) (self : option Z) (prio : Z) (table : list ContextSlot) : bool * list ContextSlot :=
  match self with
  | None => (false, table)
  | Some task =>
      let '(slot, table) :=
        if frozen then (None, table)
        else match find_slot table task with
             | Some _ => (None, table)
             | None => alloc_slot table task
             end in
      match slot with
      | None => (false, table)
      | Some i => (true, fill_slot i prio table)
      end
  end.

Definition valid_prio (prio : Z) : bool := negb ((kInvalidPrio =? prio) || (kMaxPrio <? prio)).

(** [tls_ctx] : the index of the caller's slot. *)
Definition tls_ctx (self : option Z) (table : list ContextSlot) : option nat :=
  match self with None => None | Some task => find_slot table task end.

Definition current_context (in_isr in_dispatcher : bool) (self : option Z) (table : list ContextSlot) : ExecutionContext :=
  if in_isr then plain_ctx Isr
  else if in_dispatcher then plain_ctx Dispatcher
  else match tls_ctx self table ≫= (table !!.) with
       | Some s => slot_ctx s
       | None => plain_ctx Task
       end.

Definition with_depth (f : Z -> Z) (s : ContextSlot) : ContextSlot :=
  mkSlot (slot_task s) (mkCtx (kind (slot_ctx s)) (logical_prio (slot_ctx s)) (f (direct_depth (slot_ctx s))) (prio_valid (slot_ctx s))).

Definition depth_up (d : Z) : Z := wrap 8 (d + 1).
Definition depth_down (d : Z) : Z := if 0 <? d then d - 1 else d.

Definition enter_direct (self : option Z) (table : list ContextSlot) : list ContextSlot :=
  match tls_ctx self table with None => table | Some i => alter (with_depth depth_up) i table end.
Definition leave_direct (self : option Z) (table : list ContextSlot) : list ContextSlot :=
  match tls_ctx self table with None => table | Some i => alter (with_depth depth_down) i table end.

(** ** Interrupt masking

    One token, two paths: the low bit says whether [irq_save] ran in an interrupt
    handler, the other bits keep the mask to put back.  [uintptr_t] is 32 bits. *)

Inductive irq_call := CExitCritical | CClearMask (mask : Z).

Definition irq_save (in_isr : bool) (mask : Z) : Z :=
  if in_isr then Z.lor (wrap 32 (Z.shiftl mask 1)) 1 else 0.

Definition irq_restore (token : Z) : irq_call :=
  if negb (Z.land token 1 =? 0) then CClearMask (Z.shiftr token 1) else CExitCritical.

(** ** RT-Thread, the same table over [rt_thread_t] *)

Definition rt_find_slot (table : list ContextSlot) (t : Z) : option nat :=
  find_idx (fun s => bool_decide (slot_task s = Some t)) table.

(** The scan first, the writes after it. *)
Definition rt_alloc_slot (table : list ContextSlot) (t : Z) : option nat * list ContextSlot :=
  let free_slot_ := find_idx (fun s => negb (occupied s)) table in
  (free_slot_, match free_slot_ with Some i => <[i := mkSlot (Some t) (plain_ctx Task)]> table | None => table end).

Definition rt_register_slot (frozen : bool) (self : option Z) (prio : Z) (table : list ContextSlot) : bool * list ContextSlot :=
  match self with
  | None => (false, table)
  | Some t =>
      let '(slot, table) :=
        if frozen then (None, table)
        else match rt_find_slot table t with
             | Some _ => (None, table)
             | None => rt_alloc_slot table t
             end in
      match slot with
      | None => (false, table)
      | Some i => (true, fill_slot i prio table)
      end
  end.

Definition rt_tls_ctx (self : option Z) (table : list ContextSlot) : option nat :=
  match self with None => None | Some t => rt_find_slot table t end.

(** [nest] is [rt_interrupt_get_nest()], [thread_obj] the handle of the static
    dispatcher thread. *)
Definition rt_current_context (nest : Z) (thread_obj : Z) (self : option Z) (table : list ContextSlot) : ExecutionContext :=
  if 0 <? nest then plain_ctx Isr
  else if bool_decide (self = Some thread_obj) then plain_ctx Dispatcher
  else match rt_tls_ctx self table ≫= (table !!.) with
       | Some s => slot_ctx s
       | None => plain_ctx Task
       end.

Definition rt_enter_direct (self : option Z) (table : list ContextSlot) : list ContextSlot :=
  match rt_tls_ctx self table with None => table | Some i => alter (with_depth depth_up) i table end.
Definition rt_leave_direct (self : option Z) (table : list ContextSlot) : list ContextSlot :=
  match rt_tls_ctx self table with None => table | Some i => alter (with_depth depth_down) i table end.

(** * A context table is a bounded map

    About [PalContext]: what the table promises is a finite map from tasks to
    contexts with at most as many entries as slots.  [table_map] is the
    simulation relation; the operations of the two layers are shown to implement
    those of the map, so no task ever sees the slot of another. *)

(** ** The specification *)

Notation contexts := (gmap Z ExecutionContext).

Inductive ctx_op :=
| CRegister (frozen : bool) (self : option Z) (prio : Z)
| CCurrent (self : option Z)
| CEnter (self : option Z)
| CLeave (self : option Z).

Inductive ctx_out := ORegistered (ok : bool) | OContext (c : ExecutionContext) | ONone.

Definition set_depth (f : Z -> Z) (c : ExecutionContext) : ExecutionContext :=
  mkCtx (kind c) (logical_prio c) (f (direct_depth c)) (prio_valid c).

(** The map's own step: a registration succeeds for a task not yet in the map
    while there is room and the table is not frozen. *)
Definition map_step (slots : nat) (op : ctx_op) (m : contexts) : ctx_out * contexts :=
  match op with
  | CRegister frozen (Some t) prio =>
      if negb frozen && bool_decide (m !! t = None) && (size m <? slots)%nat
      then (ORegistered true, <[t := mkCtx Task prio 0 true]> m) else (ORegistered false, m)
  | CRegister _ None _ => (ORegistered false, m)
  | CCurrent self => (OContext (default (plain_ctx Task) (self ≫= (m !!.))), m)
  | CEnter self => (ONone, match self with Some t => alter (set_depth depth_up) t m | None => m end)
  | CLeave self => (ONone, match self with Some t => alter (set_depth depth_down) t m | None => m end)
  end.

Definition table_step (op : ctx_op) (table : list ContextSlot) : ctx_out * list ContextSlot :=
  match op with
  | CRegister frozen self prio => let '(ok, table) := register_slot frozen self prio table in (ORegistered ok, table)
  | CCurrent self => (OContext (current_context false false self table), table)
  | CEnter self => (ONone, enter_direct self table)
  | CLeave self => (ONone, leave_direct self table)
  end.

Definition rt_table_step (thread_obj : Z) (op : ctx_op) (table : list ContextSlot) : ctx_out * list ContextSlot :=
  match op with
  | CRegister frozen self prio => let '(ok, table) := rt_register_slot frozen self prio table in (ORegistered ok, table)
  | CCurrent self => (OContext (rt_current_context 0 thread_obj self table), table)
  | CEnter self => (ONone, rt_enter_direct self table)
  | CLeave self => (ONone, rt_leave_direct self table)
  end.

Fixpoint run_ops {S} (step : ctx_op -> S -> ctx_out * S) (ops : list ctx_op) (s : S) : list ctx_out :=
  match ops with
  | [] => []
  | op :: ops => let '(o, s) := step op s in o :: run_ops step ops s
  end.

(** ** The simulation *)

Record table_map (table : list ContextSlot) (m : contexts) : Prop := {
  tm_lookup : forall t c, m !! t = Some c <-> exists i, table !! i = Some (mkSlot (Some t) c);
  tm_unique : forall i j t c d, table !! i = Some (mkSlot (Some t) c) -> table !! j = Some (mkSlot (Some t) d) -> i = j;
  tm_size : size m = countb occupied table
}.

Lemma cleared_table (table : list ContextSlot) : table_map (clear_slots table) ∅ /\ length (clear_slots table) = length table.
Proof.
  unfold clear_slots. split; [|apply length_map]. split.
  - intros t c. rewrite lookup_empty. split; [done|]. intros [i Hi]. apply list_lookup_fmap_Some in Hi as (? & ? & ?). done.
  - intros i j t c d Hi. apply list_lookup_fmap_Some in Hi as (? & ? & ?). done.
  - rewrite map_size_empty. by induction table.
Qed.

Lemma alter_in_place {A} (f : A -> A) (l : list A) (i : nat) (x : A) :
  l !! i = Some x -> alter f i l = <[i := f x]> l.
Proof. revert i. induction l as [|y l IH]; intros [|i] Hi; simplify_eq/=; [done|]. f_equal. by apply IH. Qed.

Section table.
Context (table : list ContextSlot) (m : contexts).
Hypothesis Htm : table_map table m.

Lemma find_slot_spec (t : Z) :
  match find_slot table t with
  | Some i => exists c, table !! i = Some (mkSlot (Some t) c) /\ m !! t = Some c
  | None => m !! t = None
  end.
Proof.
  destruct Htm as [Hl Hu _]. unfold find_slot. destruct (find_idx _ table) as [i|] eqn:Hf.
  - apply find_idx_Some in Hf as ([o c] & Hi & Hb%bool_decide_eq_true & _); cbn in Hb; subst o.
    exists c. split; [done|]. apply Hl. by exists i.
  - destruct (m !! t) as [c|] eqn:Hm; [|done]. apply Hl in Hm as [i Hi].
    apply (proj1 (find_idx_None _ _) Hf) in Hi. cbn in Hi. by rewrite bool_decide_true in Hi.
Qed.

(** One slot rewritten in place, for its own task. *)
Lemma table_map_update (i : nat) (t : Z) (c d : ExecutionContext) :
  table !! i = Some (mkSlot (Some t) c) -> table_map (<[i := mkSlot (Some t) d]> table) (<[t := d]> m).
Proof.
  intros Hi. destruct Htm as [Hl Hu Hs]. assert (Hm : m !! t = Some c) by (apply Hl; by exists i). split.
  - intros u e. rewrite lookup_insert_Some. split.
    + intros [[<- <-]|[Hne He]].
      * exists i. apply list_lookup_insert_eq. by eapply lookup_lt_Some.
      * apply Hl in He as [j Hj]. exists j. rewrite list_lookup_insert_ne; [done|]. intros ->. congruence.
    + intros [j [[-> E]|[Hne Hj]]%lookup_insert_cases]; [left; by simplify_eq|].
      right. split; [|apply Hl; by exists j]. intros <-. by destruct Hne; eapply Hu.
  - intros j k u e f [[-> E]|[Hne Hj]]%lookup_insert_cases [[-> E']|[Hne' Hk]]%lookup_insert_cases; simplify_eq; try done.
    + by eapply Hu.
    + by eapply Hu.
    + by eapply Hu.
  - rewrite map_size_insert_Some, Hs by eauto. pose proof (countb_insert occupied _ _ _ (mkSlot (Some t) d) Hi). cbn in *. lia.
Qed.

(** A free slot given to a task that has none. *)
Lemma table_map_new (i : nat) (t : Z) (s : ContextSlot) (d : ExecutionContext) :
  table !! i = Some s -> slot_task s = None -> m !! t = None ->
  table_map (<[i := mkSlot (Some t) d]> table) (<[t := d]> m).
Proof.
  intros Hi Hf Hm. destruct Htm as [Hl Hu Hs]. split.
  - intros u e. rewrite lookup_insert_Some. split.
    + intros [[<- <-]|[Hne He]].
      * exists i. apply list_lookup_insert_eq. by eapply lookup_lt_Some.
      * apply Hl in He as [j Hj]. exists j. rewrite list_lookup_insert_ne; [done|]. intros ->. by simplify_eq.
    + intros [j [[-> E]|[Hne Hj]]%lookup_insert_cases]; [left; by simplify_eq|].
      right. assert (He : m !! u = Some e) by (apply Hl; by exists j). split; [congruence|done].
  - assert (Hno : forall j e, table !! j <> Some (mkSlot (Some t) e)).
    { intros j e Hj. assert (m !! t = Some e) by (apply Hl; by exists j). congruence. }
    intros j k u e f [[-> E]|[Hne Hj]]%lookup_insert_cases [[-> E']|[Hne' Hk]]%lookup_insert_cases; simplify_eq; try done.
    + by destruct (Hno _ _ Hk).
    + by destruct (Hno _ _ Hj).
    + by eapply Hu.
  - rewrite map_size_insert_None, Hs by done. pose proof (countb_insert occupied _ _ _ (mkSlot (Some t) d) Hi) as Hc.
    unfold occupied in Hc at 2. rewrite Hf in Hc. cbn in Hc. lia.
Qed.

Lemma depth_sim (f : Z -> Z) (self : option Z) :
  table_map (match tls_ctx self table with None => table | Some i => alter (with_depth f) i table end)
    (match self with Some t => alter (set_depth f) t m | None => m end).
Proof.
  destruct self as [t|]; cbn; [|done]. pose proof (find_slot_spec t) as Hf. destruct (find_slot table t) as [i|].
  - destruct Hf as (c & Hi & Hm). rewrite (alter_in_place _ _ _ _ Hi), (alter_alt_Some _ _ _ _ Hm).
    by eapply table_map_update.
  - by rewrite alter_id by (intros; congruence).
Qed.
End table.

Lemma alloc_slot_spec (table : list ContextSlot) (m : contexts) (t : Z) :
  table_map table m -> m !! t = None ->
  match alloc_slot table t with
  | (Some i, table') => (size m < length table)%nat /\ length table' = length table /\
      forall prio, table_map (fill_slot i prio table') (<[t := mkCtx Task prio 0 true]> m)
  | (None, table') => size m = length table /\ table' = table
  end.
Proof.
  intros Htm Hm. unfold alloc_slot. destruct (find_idx _ table) as [i|] eqn:Hf.
  - apply find_idx_Some in Hf as ([o c] & Hi & Ho%negb_true_iff & _). destruct o; [done|].
    pose proof (lookup_lt_Some _ _ _ Hi) as Hlt. split; [|split; [apply length_insert|]].
    + rewrite (tm_size _ _ Htm). pose proof (countb_le occupied (<[i := mkSlot (Some t) c]> table)) as Hle.
      rewrite length_insert in Hle. pose proof (countb_insert occupied _ _ _ (mkSlot (Some t) c) Hi) as Hc. cbn in Hc. lia.
    + intros prio. unfold fill_slot. rewrite list_lookup_insert_eq by done. cbn. rewrite list_insert_insert_eq.
      by eapply table_map_new.
  - split; [|done]. rewrite (tm_size _ _ Htm). by apply countb_full_find.
Qed.

(** One operation of the table is the map's. *)
Lemma table_simulates (op : ctx_op) (table : list ContextSlot) (m : contexts) :
  table_map table m ->
  (table_step op table).1 = (map_step (length table) op m).1 /\
  table_map (table_step op table).2 (map_step (length table) op m).2 /\
  length (table_step op table).2 = length table.
Proof.
  intros Htm. destruct op as [frozen [t|] prio|self|self|self]; cbn -[Nat.ltb]; try done.
  - unfold register_slot. destruct frozen; cbn -[Nat.ltb]; [by split_and!|]. pose proof (find_slot_spec _ _ Htm t) as Hf.
    destruct (find_slot table t) as [i|].
    + destruct Hf as (c & _ & Hm). by rewrite bool_decide_eq_false_2 by congruence.
    + rewrite bool_decide_eq_true_2 by done. cbn -[Nat.ltb]. pose proof (alloc_slot_spec _ _ t Htm Hf) as Ha.
      destruct (alloc_slot table t) as [[i|] table'].
      * destruct Ha as (Hlt & Hlen & Hmap). destruct (Nat.ltb_spec (size m) (length table)); [|lia]. cbn -[Nat.ltb].
        split; [done|]. split; [apply Hmap|]. unfold fill_slot. destruct (table' !! i); [by rewrite length_insert|done].
      * destruct Ha as [Hfull ->]. by destruct (Nat.ltb_spec (size m) (length table)); [lia|].
  - split; [|done]. f_equal. unfold current_context, tls_ctx. destruct self as [t|]; cbn; [|done].
    pose proof (find_slot_spec _ _ Htm t) as Hf. destruct (find_slot table t) as [i|]; cbn.
    + destruct Hf as (c & -> & ->). done.
    + by rewrite Hf.
  - unfold enter_direct. split; [done|]. split; [by apply depth_sim|].
    destruct (tls_ctx self table); [apply length_alter|done].
  - unfold leave_direct. split; [done|]. split; [by apply depth_sim|].
    destruct (tls_ctx self table); [apply length_alter|done].
Qed.

Lemma runs_agree (ops : list ctx_op) (table : list ContextSlot) (m : contexts) (n : nat) :
  table_map table m -> length table = n -> run_ops table_step ops table = run_ops (map_step n) ops m.
Proof.
  revert table m. induction ops as [|op ops IH]; intros table m Htm <-; cbn; [done|].
  destruct (table_simulates op table m Htm) as (Ho & Hm & Hl).
  destruct (table_step op table) as [o table'], (map_step (length table) op m) as [o' m']; cbn in *. subst o'.
  f_equal. by apply IH.
Qed.

(** RT-Thread's table is the same, away from the dispatcher's own thread. *)
Definition op_self (op : ctx_op) : option Z :=
  match op with CRegister _ self _ | CCurrent self | CEnter self | CLeave self => self end.

Lemma rt_step_same (thread_obj : Z) (op : ctx_op) (table : list ContextSlot) :
  op_self op <> Some thread_obj -> rt_table_step thread_obj op table = table_step op table.
Proof.
  intros Hne. destruct op as [frozen [t|] prio|self|self|self]; cbn in *; try done.
  - unfold rt_register_slot, register_slot, rt_alloc_slot, alloc_slot. destruct frozen; [done|].
    change (rt_find_slot table t) with (find_slot table t). destruct (find_slot table t); [done|].
    by destruct (find_idx (fun s => negb (occupied s)) table).
  - unfold rt_current_context. rewrite bool_decide_eq_false_2 by done. done.
Qed.

(** A context table is a bounded map.  Whatever the tasks do, in whatever
    order, the fixed slot tables of both layers answer every registration, every
    [current_context] and every direct-dispatch depth exactly as a finite map
    from tasks to contexts with room for the table's slots would: a second
    registration, one past the last slot and one after the start are refused, and
    no task reads or changes the context of another. *)
Theorem context_table_is_a_map (table : list ContextSlot) (thread_obj : Z) (ops : list ctx_op) :
  Forall (fun op => op_self op <> Some thread_obj) ops ->
  run_ops table_step ops (clear_slots table) = run_ops (map_step (length table)) ops ∅ /\
  run_ops (rt_table_step thread_obj) ops (clear_slots table) = run_ops (map_step (length table)) ops ∅.
Proof.
  intros Hself. destruct (cleared_table table) as [Htm Hl].
  assert (Hrun : run_ops table_step ops (clear_slots table) = run_ops (map_step (length table)) ops ∅)
    by (by apply runs_agree). split; [done|]. rewrite <- Hrun. clear Hrun Htm Hl. generalize (clear_slots table) as tb.
  induction Hself as [|op ops Hop _ IH]; intros tb; cbn; [done|]. rewrite rt_step_same by done.
  destruct (table_step op tb) as [o tb']. by rewrite IH.
Qed.

(** Two slots, three tasks. *)
Lemma context_table_is_a_map_witness :
  run_ops table_step
    [CRegister false (Some 10) 5; CRegister false (Some 11) 6; CRegister false (Some 12) 7; CRegister false (Some 10) 8;
     CEnter (Some 11); CCurrent (Some 10); CCurrent (Some 11); CCurrent (Some 12)]
    (clear_slots [free_slot; free_slot])
  = [ORegistered true; ORegistered true; ORegistered false; ORegistered false; ONone;
     OContext (mkCtx Task 5 0 true); OContext (mkCtx Task 6 1 true); OContext (plain_ctx Task)].
Proof.
  etrans; [refine (proj1 (context_table_is_a_map [free_slot; free_slot] 99 _ _)); by repeat constructor|].
  vm_compute. reflexivity.
Defined.

(** ** Interrupt masking *)

(** [irq_restore] takes the path [irq_save] took, with the mask it was given. *)
Lemma irq_token_roundtrip (in_isr : bool) (mask : Z) :
  in_u 31 mask -> irq_restore (irq_save in_isr mask) = if in_isr then CClearMask mask else CExitCritical.
Proof.
  intros [Hm0 Hm]. destruct in_isr; [|done]. unfold irq_save, irq_restore.
  rewrite wrap_small by (rewrite Z.shiftl_mul_pow2 by lia; unfold in_u; lia).
  assert (Hodd : forall x, Z.land x 1 = x `mod` 2) by (intros x; apply (Z.land_ones x 1); lia).
  replace (Z.lor (Z.shiftl mask 1) 1) with (2 * mask + 1).
  - rewrite Hodd. replace ((2 * mask + 1) `mod` 2) with 1; [cbn|apply (Z.mod_unique _ _ mask); lia].
    f_equal. rewrite Z.shiftr_div_pow2 by lia. symmetry. apply (Z.div_unique _ _ _ 1); lia.
  - rewrite Z.shiftl_mul_pow2 by lia. pose proof (Z.add_lor_land (mask * 2 ^ 1) 1) as Ha.
    assert (Hz : (mask * 2 ^ 1) `mod` 2 = 0) by (apply (Z.mod_mul mask 2); lia). rewrite Hodd, Hz in Ha. lia.
Qed.
