(* ===== verification/PalLifecycle.v ===== *)
(** * The lifecycle of the RTOS platform layers (src/core/pal_freertos.cpp,
      src/core/pal_rtthread.cpp, include/coact/pal.hpp)

    One initialisation, one start, one stop, on storage the caller provides.  A
    creation call of the kernel may fail; its answers are the list [answers] of
    the kernel state, [true] once the list is used up.  The kernel state also
    records which static storages hold a live object and whether a creation ever
    hit a live one.  A handle is its being non-null. *)

From stdpp Require Import gmap.
From S2P Require Import Prelude Vocab PalContext.
Local Open Scope Z_scope.

(** ** The kernel's side *)

(** The static storages: the two semaphores of the PAL, the semaphores and the
    task of each resident worker, the dispatcher's task. *)
Inductive kobj := KWake | KJoin | KStart (i : nat) | KWorkJoin (i : nat) | KWorker (i : nat) | KDispatcher.

#[export] Instance kobj_eq_dec : EqDecision kobj.
Proof. solve_decision. Defined.
#[export] Instance kobj_countable : Countable kobj.
Proof.
  refine (inj_countable'
    (fun o => match o with KWake => (0, 0) | KJoin => (1, 0) | KStart i => (2, i) | KWorkJoin i => (3, i)
                         | KWorker i => (4, i) | KDispatcher => (5, 0) end%nat)
    (fun p => match p with (0, _) => KWake | (1, _) => KJoin | (2, i) => KStart i | (3, i) => KWorkJoin i
                         | (4, i) => KWorker i | _ => KDispatcher end%nat) _).
  by intros [].
Defined.

Record kern := mkKern { answers : list bool; live : gset kobj; reused : bool }.

Definition k_create (o : kobj) (k : kern) : bool * kern :=
  match answers k with
  | false :: a => (false, mkKern a (live k) (reused k))
  | _ => (true, mkKern (tail (answers k)) ({[o]} ∪ live k) (reused k || bool_decide (o ∈ live k)))
  end.

Definition k_delete (o : kobj) (k : kern) : kern := mkKern (answers k) (live k ∖ {[o]}) (reused k).

(** ** Vocabulary *)

Inductive InitError :=
| kOk | kSemInitFailed | kThreadInitFailed | kThreadStartFailed | kStackTooLarge | kAlreadyInitialized | kAlreadyStarted.

Inductive Lifecycle := kUninitialized | kReady | kStarted | kStopped | kInitFailed.

#[export] Instance InitError_eq_dec : EqDecision InitError.
Proof. solve_decision. Defined.
#[export] Instance Lifecycle_eq_dec : EqDecision Lifecycle.
Proof. solve_decision. Defined.

Definition kFreeRtosMinDispatcherStackBytes : Z := 512.

(** ** FreeRTOS *)

Record WorkerSlot := mkWorker { w_task : bool; w_start : bool; w_join : bool; w_entry : option Z; w_busy : bool }.
Definition null_worker : WorkerSlot := mkWorker false false false None false.

Record FreeRtos := mkPal {
  state_ : Lifecycle;
  last_error_ : InitError;
  dispatcher_stack_bytes_ : Z;
  res_stack_bytes : Z;
  res_stack_words : Z;
  slot_table : list ContextSlot;
  wake : bool;
  join : bool;
  worker_slots : list WorkerSlot;
  init_guard_ : bool;      (* held by a task that is inside initialize() *)
  dispatcher_task : bool   (* the dispatcher's task exists *)
}.

Definition set_state (st : Lifecycle) (e : InitError) (p : FreeRtos) : FreeRtos :=
  mkPal st e (dispatcher_stack_bytes_ p) (res_stack_bytes p) (res_stack_words p) (slot_table p) (wake p) (join p)
    (worker_slots p) (init_guard_ p) (dispatcher_task p).
Definition set_sems (w j : bool) (ws : list WorkerSlot) (p : FreeRtos) : FreeRtos :=
  mkPal (state_ p) (last_error_ p) (dispatcher_stack_bytes_ p) (res_stack_bytes p) (res_stack_words p) (slot_table p) w j
    ws (init_guard_ p) (dispatcher_task p).
Definition set_table (stack : Z) (t : list ContextSlot) (p : FreeRtos) : FreeRtos :=
  mkPal (state_ p) (last_error_ p) stack (res_stack_bytes p) (res_stack_words p) t (wake p) (join p)
    (worker_slots p) (init_guard_ p) (dispatcher_task p).

(** The loop that creates the resident workers: the number completed, the slots
    as left, a failing slot half filled. *)
Fixpoint create_workers (i : nat) (ws : list WorkerSlot) (k : kern) : nat * list WorkerSlot * kern :=
  match ws with
  | [] => (0%nat, [], k)
  | w :: rest =>
      let '(st, k) := k_create (KStart i) k in
      let '(jn, k) := k_create (KWorkJoin i) k in
      if negb st || negb jn then (0%nat, mkWorker (w_task w) st jn None false :: rest, k)
      else
        let '(tk, k) := k_create (KWorker i) k in
        if negb tk then (0%nat, mkWorker false st jn None false :: rest, k)
        else
          let '(n, rest, k) := create_workers (S i) rest k in
          (S n, mkWorker true st jn None false :: rest, k)
  end.

(** One slot of the rollback. *)
Definition release_worker (i : nat) (w : WorkerSlot) (k : kern) : WorkerSlot * kern :=
  let k := if w_task w then k_delete (KWorker i) k else k in
  let k := if w_start w then k_delete (KStart i) k else k in
  let k := if w_join w then k_delete (KWorkJoin i) k else k in
  (mkWorker false false false (w_entry w) (w_busy w), k).

(** Slots [0 .. created], the failed one included. *)
Fixpoint rollback (i created : nat) (ws : list WorkerSlot) (k : kern) : list WorkerSlot * kern :=
  match ws with
  | [] => ([], k)
  | w :: rest =>
      if (i <=? created)%nat then
        let '(w, k) := release_worker i w k in
        let '(rest, k) := rollback (S i) created rest k in (w :: rest, k)
      else (ws, k)
  end.

Definition fail_init (e : InitError) (p : FreeRtos) (k : kern) : InitError * FreeRtos * kern :=
  (e, set_state kInitFailed e p, k).

(** The kernel calls of [initialize]. *)
Definition create_all (p : FreeRtos) (k : kern) : InitError * FreeRtos * kern :=
  let '(wk, k) := k_create KWake k in
  if negb wk then fail_init kSemInitFailed (set_sems false (join p) (worker_slots p) p) k
  else
    let '(jn, k) := k_create KJoin k in
    if negb jn then fail_init kSemInitFailed (set_sems false false (worker_slots p) p) (k_delete KWake k)
    else
      let '(created, ws, k) := create_workers 0 (worker_slots p) k in
      if negb (created =? length (worker_slots p))%nat then
        let '(ws, k) := rollback 0 created ws k in
        fail_init kThreadInitFailed (set_sems false false ws p) (k_delete KWake (k_delete KJoin k))
      else (kOk, set_state kReady (last_error_ p) (set_sems true true ws p), k).

Definition initialize (p : FreeRtos) (k : kern) : InitError * FreeRtos * kern :=
  match state_ p with
  | kReady => (kOk, p, k)
  | kInitFailed => (last_error_ p, p, k)
  | kStarted | kStopped => (kAlreadyInitialized, p, k)
  | kUninitialized =>
      if init_guard_ p then (kAlreadyInitialized, p, k)
      else
        let stack := if dispatcher_stack_bytes_ p <? kFreeRtosMinDispatcherStackBytes
                     then kFreeRtosMinDispatcherStackBytes else dispatcher_stack_bytes_ p in
        if res_stack_bytes p <? stack then fail_init kStackTooLarge p k
        else create_all (set_table stack (clear_slots (slot_table p)) p) k
  end.

Definition ensure_initialized (p : FreeRtos) (k : kern) : InitError * FreeRtos * kern :=
  match state_ p with
  | kUninitialized => initialize p k
  | kInitFailed => (last_error_ p, p, k)
  | _ => (kOk, p, k)
  end.

Definition frozen (st : Lifecycle) : bool := bool_decide (st = kStarted) || bool_decide (st = kStopped).

Definition register_current_task (self : option Z) (prio : Z) (p : FreeRtos) (k : kern) : bool * FreeRtos * kern :=
  if negb (valid_prio prio) then (false, p, k)
  else
    let '(e, p, k) := ensure_initialized p k in
    if negb (bool_decide (e = kOk)) then (false, p, k)
    else
      let '(ok, t) := register_slot (frozen (state_ p)) self prio (slot_table p) in
      (ok, set_table (dispatcher_stack_bytes_ p) t p, k).

(** [start_dispatcher]: [running] is the scheduler's state, [stack_type] the size
    of a stack word. *)
Definition start_dispatcher (running : bool) (stack_type : Z) (p : FreeRtos) (k : kern) : InitError * FreeRtos * kern :=
  let '(e, p, k) := ensure_initialized p k in
  if negb (bool_decide (e = kOk)) then (last_error_ p, p, k)
  else if frozen (state_ p) then (kAlreadyStarted, p, k)
  else if negb running then fail_init kThreadStartFailed p k
  else
    let words := wrap 64 (dispatcher_stack_bytes_ p + stack_type - 1) / stack_type in
    if res_stack_words p <? wrap 32 words then fail_init kStackTooLarge p k
    else
      let '(ok, k) := k_create KDispatcher k in
      if negb ok then fail_init kThreadStartFailed p k
      else
        (kOk, mkPal kStarted (last_error_ p) (dispatcher_stack_bytes_ p) (res_stack_bytes p) (res_stack_words p)
                (slot_table p) (wake p) (join p) (worker_slots p) (init_guard_ p) true, k).

(** The end of [dispatcher_thread_entry]: the join token is given and the task deletes itself. *)
Definition dispatcher_exit (p : FreeRtos) (k : kern) : FreeRtos * kern :=
  (mkPal (state_ p) (last_error_ p) (dispatcher_stack_bytes_ p) (res_stack_bytes p) (res_stack_words p)
     (slot_table p) (wake p) (join p) (worker_slots p) (init_guard_ p) false, k_delete KDispatcher k).

(** [join_dispatcher] once its wait is over. *)
Definition join_dispatcher (p : FreeRtos) : FreeRtos :=
  match state_ p with kStarted => set_state kStopped (last_error_ p) p | _ => p end.

(** Whether [wait_dispatcher] and [signal_dispatcher_from_task] reach the wake semaphore. *)
Definition reaches_wake (p : FreeRtos) (k : kern) : bool * FreeRtos * kern :=
  match state_ p with
  | kUninitialized => (false, p, k)
  | _ => let '(e, p, k) := ensure_initialized p k in (bool_decide (e = kOk), p, k)
  end.

(** A PAL as its constructor leaves it, over resources with [slots] contexts and
    [workers] workers. *)
Definition fresh_pal (stack res_bytes res_words : Z) (slots workers : nat) : FreeRtos :=
  mkPal kUninitialized kOk stack res_bytes res_words (replicate slots free_slot) false false
    (replicate workers null_worker) false false.

(** ** RT-Thread

    No resident workers and no guard: the dispatcher's thread object is
    initialised with the two semaphores and only started later. *)

Record RtThread := mkRt {
  rt_state_ : Lifecycle;
  rt_last_error_ : InitError;
  rt_stack_bytes_ : Z;
  rt_res_stack : Z;
  rt_slot_table : list ContextSlot
}.

Definition rt_set_state (st : Lifecycle) (e : InitError) (p : RtThread) : RtThread :=
  mkRt st e (rt_stack_bytes_ p) (rt_res_stack p) (rt_slot_table p).
Definition rt_set_table (t : list ContextSlot) (p : RtThread) : RtThread :=
  mkRt (rt_state_ p) (rt_last_error_ p) (rt_stack_bytes_ p) (rt_res_stack p) t.

Definition rt_fail (e : InitError) (p : RtThread) (k : kern) : InitError * RtThread * kern :=
  (e, rt_set_state kInitFailed e p, k).

Definition rt_initialize (p : RtThread) (k : kern) : InitError * RtThread * kern :=
  match rt_state_ p with
  | kReady => (kOk, p, k)
  | kInitFailed => (rt_last_error_ p, p, k)
  | kStarted | kStopped => (kAlreadyInitialized, p, k)
  | kUninitialized =>
      let stack := if rt_stack_bytes_ p <? 512 then 512 else rt_stack_bytes_ p in
      if rt_res_stack p <? stack then rt_fail kStackTooLarge p k
      else
        let p := rt_set_table (clear_slots (rt_slot_table p)) p in
        let '(wk, k) := k_create KWake k in
        if negb wk then rt_fail kSemInitFailed p k
        else
          let '(jn, k) := k_create KJoin k in
          if negb jn then rt_fail kSemInitFailed p (k_delete KWake k)
          else
            let '(th, k) := k_create KDispatcher k in
            if negb th then rt_fail kThreadInitFailed p (k_delete KWake (k_delete KJoin k))
            else (kOk, rt_set_state kReady (rt_last_error_ p) p, k)
  end.

Definition rt_ensure_initialized (p : RtThread) (k : kern) : InitError * RtThread * kern :=
  match rt_state_ p with
  | kUninitialized => rt_initialize p k
  | kInitFailed => (rt_last_error_ p, p, k)
  | _ => (kOk, p, k)
  end.

Definition rt_register_current_task (self : option Z) (prio : Z) (p : RtThread) (k : kern) : bool * RtThread * kern :=
  if negb (valid_prio prio) then (false, p, k)
  else
    let '(e, p, k) := rt_ensure_initialized p k in
    if negb (bool_decide (e = kOk)) then (false, p, k)
    else
      let '(ok, t) := rt_register_slot (frozen (rt_state_ p)) self prio (rt_slot_table p) in
      (ok, rt_set_table t p, k).

(** [startup] is the answer of [rt_thread_startup]. *)
Definition rt_start_dispatcher (startup : bool) (p : RtThread) (k : kern) : InitError * RtThread * kern :=
  let '(e, p, k) := rt_ensure_initialized p k in
  if negb (bool_decide (e = kOk)) then (rt_last_error_ p, p, k)
  else if frozen (rt_state_ p) then (kAlreadyStarted, p, k)
  else if negb startup then rt_fail kThreadStartFailed p k
  else (kOk, rt_set_state kStarted (rt_last_error_ p) p, k).

Definition rt_join_dispatcher (p : RtThread) : RtThread :=
  match rt_state_ p with kStarted => rt_set_state kStopped (rt_last_error_ p) p | _ => p end.

(** * Initialisation is all or nothing, and there is one start

    About [PalLifecycle]: after every operation the live kernel objects are the
    ones the PAL's handles name, so a failed initialisation leaks nothing and a
    successful one is complete. *)

(** ** What the handles own *)

Definition own (b : bool) (o : kobj) : gset kobj := if b then {[o]} else ∅.

Definition worker_objs (i : nat) (w : WorkerSlot) : gset kobj :=
  own (w_task w) (KWorker i) ∪ own (w_start w) (KStart i) ∪ own (w_join w) (KWorkJoin i).

Fixpoint workers_objs (i : nat) (ws : list WorkerSlot) : gset kobj :=
  match ws with [] => ∅ | w :: ws => worker_objs i w ∪ workers_objs (S i) ws end.

Definition owned (p : FreeRtos) : gset kobj :=
  own (wake p) KWake ∪ own (join p) KJoin ∪ workers_objs 0 (worker_slots p) ∪ own (dispatcher_task p) KDispatcher.

Definition no_handles (w : WorkerSlot) : Prop := w_task w = false /\ w_start w = false /\ w_join w = false.
Definition resident (w : WorkerSlot) : Prop := w_task w = true /\ w_start w = true /\ w_join w = true.

Lemma workers_objs_index (i : nat) (ws : list WorkerSlot) (o : kobj) :
  o ∈ workers_objs i ws -> exists j, (i <= j)%nat /\ (o = KStart j \/ o = KWorkJoin j \/ o = KWorker j).
Proof.
  revert i. induction ws as [|w ws IH]; intros i; cbn; [set_solver|].
  intros [Hw|Ho]%elem_of_union.
  - exists i. split; [lia|]. unfold worker_objs, own in Hw. destruct (w_task w), (w_start w), (w_join w); set_solver.
  - destruct (IH _ Ho) as (j & Hj & Hc). exists j. split; [lia|done].
Qed.

Lemma workers_objs_none (i : nat) (ws : list WorkerSlot) : Forall no_handles ws -> workers_objs i ws = ∅.
Proof.
  intros Hf. revert i. induction Hf as [|w ws (Ht & Hs & Hj) _ IH]; intros i; cbn; [done|].
  unfold worker_objs. rewrite Ht, Hs, Hj, IH. set_solver.
Qed.

(** ** The kernel calls *)

Lemma k_create_spec (o : kobj) (k : kern) (ok : bool) (k' : kern) :
  o ∉ live k -> k_create o k = (ok, k') -> live k' = live k ∪ own ok o /\ reused k' = reused k.
Proof.
  intros Ho Hc. unfold k_create, own in *. destruct (answers k) as [|[] a]; simplify_eq; cbn;
    rewrite ?bool_decide_eq_false_2, ?orb_false_r by done; split; try done; set_solver.
Qed.

(** Slots from [i] on hold no live object yet. *)
Definition unborn (i : nat) (k : kern) : Prop :=
  forall j, (i <= j)%nat -> KStart j ∉ live k /\ KWorkJoin j ∉ live k /\ KWorker j ∉ live k.

Lemma create_workers_spec (ws : list WorkerSlot) (i n : nat) (k k' : kern) (ws' : list WorkerSlot) :
  Forall no_handles ws -> unborn i k -> create_workers i ws k = (n, ws', k') ->
  length ws' = length ws /\ live k' = live k ∪ workers_objs i ws' /\ reused k' = reused k /\
  (n = length ws -> Forall resident ws') /\
  (forall j w, (n < j)%nat -> ws' !! j = Some w -> no_handles w).
Proof.
  intros Hf. revert i n k k' ws'. induction Hf as [|w ws (Ht & Hs & Hj) Hf IH]; intros i n k k' ws' Hu Hc; cbn in Hc.
  { simplify_eq. repeat split; try done. set_solver. }
  destruct (Hu i ltac:(lia)) as (Hu1 & Hu2 & Hu3).
  destruct (k_create (KStart i) k) as [st k1] eqn:E1. apply k_create_spec in E1 as [L1 R1]; [|done].
  destruct (k_create (KWorkJoin i) k1) as [jn k2] eqn:E2.
  apply k_create_spec in E2 as [L2 R2]; [|rewrite L1; unfold own; destruct st; set_solver].
  destruct (negb st || negb jn) eqn:Eb.
  { simplify_eq. cbn. split; [done|]. unfold worker_objs; cbn. rewrite Ht, (workers_objs_none _ _ Hf).
    split; [rewrite L2, L1; unfold own; set_solver|]. split; [congruence|]. split; [done|].
    intros [|j] v Hlt Hv; [lia|]. cbn in Hv. by eapply Forall_lookup_1. }
  apply orb_false_iff in Eb as [Es Ej]. destruct st, jn; try done. cbn in Hc.
  destruct (k_create (KWorker i) k2) as [tk k3] eqn:E3.
  apply k_create_spec in E3 as [L3 R3]; [|rewrite L2, L1; cbn; set_solver].
  destruct tk; cbn in Hc.
  - destruct (create_workers (S i) ws k3) as [[m rest] k4] eqn:E4. simplify_eq.
    apply IH in E4 as (Hl & L4 & R4 & Hfull & Hrest).
    + cbn. split; [lia|]. split; [rewrite L4, L3, L2, L1; unfold worker_objs; cbn; set_solver|]. split; [congruence|].
      split; [intros Hn; constructor; [done|apply Hfull; lia]|]. intros [|j] v Hlt Hv; [lia|]. apply (Hrest j); [lia|done].
    + intros j Hj'. rewrite L3, L2, L1; cbn. destruct (Hu j ltac:(lia)) as (? & ? & ?).
      assert (j <> i) by lia. set_solver.
  - simplify_eq. cbn. split; [done|]. unfold worker_objs; cbn. rewrite (workers_objs_none _ _ Hf).
    split; [rewrite L3, L2, L1; cbn; set_solver|]. split; [congruence|]. split; [done|].
    intros [|j] v Hlt Hv; [lia|]. cbn in Hv. by eapply Forall_lookup_1.
Qed.

Lemma release_worker_spec (i : nat) (w w' : WorkerSlot) (k k' : kern) :
  release_worker i w k = (w', k') -> no_handles w' /\ live k' = live k ∖ worker_objs i w /\ reused k' = reused k.
Proof.
  unfold release_worker, worker_objs, own, k_delete. destruct w as [[] [] [] e b]; cbn; intros [= <- <-]; cbn;
    (split; [done|]; split; [set_solver|done]).
Qed.

Lemma rollback_spec (ws : list WorkerSlot) (i created : nat) (k k' : kern) (ws' : list WorkerSlot) :
  (forall j w, (created < i + j)%nat -> ws !! j = Some w -> no_handles w) ->
  rollback i created ws k = (ws', k') ->
  Forall no_handles ws' /\ live k' = live k ∖ workers_objs i ws /\ reused k' = reused k.
Proof.
  revert i k k' ws'. induction ws as [|w ws IH]; intros i k k' ws' Hn Hr; cbn -[release_worker] in Hr.
  { simplify_eq. repeat split; [done|]. cbn. set_solver. }
  destruct (Nat.leb_spec i created).
  - destruct (release_worker i w k) as [w1 k1] eqn:E1. apply release_worker_spec in E1 as (Hw & L1 & R1).
    destruct (rollback (S i) created ws k1) as [rest k2] eqn:E2. simplify_eq.
    apply IH in E2 as (Hf & L2 & R2); [|intros j v Hj Hv; apply (Hn (S j)); [lia|done]].
    repeat split; [by constructor|cbn; rewrite L2, L1; set_solver|congruence].
  - simplify_eq. assert (Hf : Forall no_handles (w :: ws)).
    { apply Forall_lookup_2. intros j v Hv. apply (Hn j); [lia|done]. }
    rewrite (workers_objs_none _ _ Hf). repeat split; [done|set_solver].
Qed.

(** ** Initialisation *)

(** Everything [initialize] creates exists. *)
Definition complete (p : FreeRtos) : Prop := wake p = true /\ join p = true /\ Forall resident (worker_slots p).
(** Nothing does. *)
Definition bare (p : FreeRtos) : Prop := wake p = false /\ join p = false /\ Forall no_handles (worker_slots p).

Lemma owned_bare (p : FreeRtos) : bare p -> dispatcher_task p = false -> owned p = ∅.
Proof. intros (Hw & Hj & Hf) Hd. unfold owned. rewrite Hw, Hj, Hd, (workers_objs_none _ _ Hf). set_solver. Qed.

(** The two outcomes of an initialisation. *)
Definition init_outcome (e : InitError) (p p' : FreeRtos) (k' : kern) : Prop :=
  (e = kOk /\ state_ p' = kReady /\ complete p' /\ live k' = owned p' /\
     length (worker_slots p') = length (worker_slots p) /\ last_error_ p' = last_error_ p) \/
  (e <> kOk /\ state_ p' = kInitFailed /\ last_error_ p' = e /\ bare p' /\ live k' = ∅).

Lemma create_all_spec (p : FreeRtos) (k : kern) (e : InitError) (p' : FreeRtos) (k' : kern) :
  bare p -> dispatcher_task p = false -> live k = ∅ -> create_all p k = (e, p', k') ->
  reused k' = reused k /\ dispatcher_task p' = false /\ init_guard_ p' = init_guard_ p /\ init_outcome e p p' k'.
Proof.
  intros (Hw & Hj & Hf) Hd Hk Hc. unfold create_all in Hc. unfold init_outcome, complete, bare, fail_init in *.
  destruct (k_create KWake k) as [wk k1] eqn:E1. apply k_create_spec in E1 as [L1 R1]; [|set_solver].
  destruct wk; cbn [negb] in Hc.
  2:{ simplify_eq. do 3 (split; [done|]). right. repeat split; try done. rewrite L1, Hk. cbn. set_solver. }
  destruct (k_create KJoin k1) as [jn k2] eqn:E2. apply k_create_spec in E2 as [L2 R2]; [|rewrite L1, Hk; cbn; set_solver].
  destruct jn; cbn [negb] in Hc.
  2:{ simplify_eq. cbn. split; [congruence|]. do 2 (split; [done|]). right. repeat split; try done. rewrite L2, L1, Hk. cbn. set_solver. }
  destruct (create_workers 0 (worker_slots p) k2) as [[n ws] k3] eqn:E3.
  apply create_workers_spec in E3 as (Hl & L3 & R3 & Hfull & Hrest); [|done|].
  2:{ intros j _. rewrite L2, L1, Hk. cbn. set_solver. }
  destruct (Nat.eqb_spec n (length (worker_slots p))) as [Hn|Hn]; cbn [negb] in Hc.
  - simplify_eq. cbn. split; [congruence|]. do 2 (split; [done|]). left. split; [done|]. split; [done|].
    split; [by split_and!; [| |apply Hfull]|]. split; [|done]. unfold owned; cbn. rewrite Hd, L3, L2, L1, Hk. cbn. set_solver.
  - destruct (rollback 0 n ws k3) as [ws' k4] eqn:E4.
    apply rollback_spec in E4 as (Hnone & L4 & R4); [|done]. simplify_eq. cbn.
    split; [congruence|]. do 2 (split; [done|]). right. split; [done|]. split; [done|]. split; [done|]. split; [done|].
    apply set_eq. intros o. rewrite L4, L3, L2, L1, Hk. cbn. set_solver.
Qed.

Lemma initialize_spec (p : FreeRtos) (k : kern) (e : InitError) (p' : FreeRtos) (k' : kern) :
  state_ p = kUninitialized -> init_guard_ p = false -> bare p -> dispatcher_task p = false -> live k = ∅ ->
  initialize p k = (e, p', k') ->
  reused k' = reused k /\ dispatcher_task p' = false /\ init_guard_ p' = false /\ init_outcome e p p' k'.
Proof.
  intros Hs Hg Hb Hd Hk Hi. unfold initialize in Hi. rewrite Hs, Hg in Hi.
  set (stack := if dispatcher_stack_bytes_ p <? kFreeRtosMinDispatcherStackBytes then _ else _) in Hi.
  destruct (res_stack_bytes p <? stack).
  - unfold fail_init in Hi. simplify_eq. cbn. split; [done|]. split; [done|]. split; [done|]. right. by split_and!.
  - apply create_all_spec in Hi as (Hr & Hd' & Hg' & Ho); [|done|done|done]. split; [done|]. split; [done|].
    split; [by rewrite Hg'|]. exact Ho.
Qed.

(** C14: Initialisation is all or nothing.  Whatever the kernel answers to each of
    its creation calls, [initialize] on a fresh PAL either returns kOk with every
    semaphore and every resident worker in place, or returns an error, has
    deleted everything it had created (the half-built worker included), leaves
    no handle behind, and gives the same error to every later call without
    touching the kernel; in both cases the live objects are those the handles
    name and no storage was initialised twice. *)
Theorem init_is_all_or_nothing (stack res_bytes res_words : Z) (slots workers : nat) (kernel_answers : list bool) :
  let p := fresh_pal stack res_bytes res_words slots workers in
  let '(e, p', k') := initialize p (mkKern kernel_answers ∅ false) in
  reused k' = false /\ live k' = owned p' /\
  (e = kOk /\ state_ p' = kReady /\ complete p' /\ length (worker_slots p') = workers \/
   e <> kOk /\ bare p' /\ live k' = ∅ /\ forall k, initialize p' k = (e, p', k)).
Proof.
  intros p. destruct (initialize p _) as [[e p'] k'] eqn:Hi.
  apply initialize_spec in Hi as (Hr & Hd & _ & Ho); try done.
  - split; [done|]. destruct Ho as [(-> & Hs & Hc & Hl & Hn & _)|(He & Hs & Hle & Hb & Hl)].
    + split; [done|]. left. split_and!; try done. rewrite Hn. unfold p; cbn. apply length_replicate.
    + split; [by rewrite Hl, owned_bare|]. right. split_and!; try done. intros k. unfold initialize. by rewrite Hs, Hle.
  - unfold bare, p; cbn. split_and!; try done. by apply Forall_replicate.
Qed.

(** The fifth creation, the first worker's task, fails with a half-built slot. *)
Example init_failure_is_undone :
  let '(e, p', k') := initialize (fresh_pal 4096 16384 4096 2 2) (mkKern [true; true; true; true; false] ∅ false) in
  e = kThreadInitFailed /\ live k' = ∅ /\ answers k' = [].
Proof. vm_compute. done. Qed.

(** ** Runs *)

Inductive pal_op :=
| LInit | LRegister (self : option Z) (prio : Z) | LStart (running : bool) | LExit | LJoin | LWake.

(** One call of the owner, or the end of the dispatcher's task; a join whose
    dispatcher still runs is not over. *)
Definition pal_step (op : pal_op) (p : FreeRtos) (k : kern) : InitError * FreeRtos * kern :=
  match op with
  | LInit => initialize p k
  | LRegister self prio => let '(ok, p, k) := register_current_task self prio p k in (kOk, p, k)
  | LStart running => start_dispatcher running 4 p k
  | LExit => if dispatcher_task p then let '(p, k) := dispatcher_exit p k in (kOk, p, k) else (kOk, p, k)
  | LJoin => (kOk, if dispatcher_task p then p else join_dispatcher p, k)
  | LWake => let '(_, p, k) := reaches_wake p k in (kOk, p, k)
  end.

Fixpoint pal_run (ops : list pal_op) (p : FreeRtos) (k : kern) : list (pal_op * InitError) * FreeRtos * kern :=
  match ops with
  | [] => ([], p, k)
  | op :: ops =>
      let '(e, p, k) := pal_step op p k in
      let '(outs, p, k) := pal_run ops p k in ((op, e) :: outs, p, k)
  end.

Definition started (o : pal_op * InitError) : bool :=
  match o with (LStart _, kOk) => true | _ => false end.

Record pal_inv (p : FreeRtos) (k : kern) : Prop := {
  pi_reused : reused k = false;
  pi_live : live k = owned p;
  pi_guard : init_guard_ p = false;
  pi_state : match state_ p with
    | kUninitialized => bare p /\ dispatcher_task p = false
    | kReady => complete p /\ dispatcher_task p = false
    | kStarted => complete p
    | kStopped => complete p /\ dispatcher_task p = false
    | kInitFailed => last_error_ p <> kOk /\ dispatcher_task p = false
    end
}.

Lemma ensure_inv (p p' : FreeRtos) (k k' : kern) (e : InitError) :
  pal_inv p k -> ensure_initialized p k = (e, p', k') ->
  pal_inv p' k' /\ frozen (state_ p') = frozen (state_ p) /\
  (e = kOk /\ state_ p' <> kUninitialized /\ state_ p' <> kInitFailed \/
   e <> kOk /\ state_ p' = kInitFailed) /\
  (state_ p = kInitFailed -> p' = p).
Proof.
  intros [Hr Hl Hg Hs] He. unfold ensure_initialized in He. destruct (state_ p) eqn:Hst.
  - destruct Hs as [Hb Hd]. rewrite (owned_bare _ Hb Hd) in Hl.
    apply initialize_spec in He as (Hr' & Hd' & Hg' & Ho); try done.
    destruct Ho as [(-> & Hs' & Hc & Hl' & _)|(Hne & Hs' & Hle & Hb' & Hl')].
    + rewrite Hs'. split; [|split; [done|split; [by left|done]]]. split; try done; [congruence|]. by rewrite Hs'.
    + rewrite Hs'. split; [|split; [done|split; [by right|done]]].
      split; try done; [congruence|by rewrite owned_bare|]. rewrite Hs'. by rewrite Hle.
  - simplify_eq. rewrite Hst. split; [|split; [done|split; [by left|done]]]. split; try done. by rewrite Hst.
  - simplify_eq. rewrite Hst. split; [|split; [done|split; [by left|done]]]. split; try done. by rewrite Hst.
  - simplify_eq. rewrite Hst. split; [|split; [done|split; [by left|done]]]. split; try done. by rewrite Hst.
  - simplify_eq. rewrite Hst. split; [|split; [done|split; [right; by destruct Hs|done]]]. split; try done. by rewrite Hst.
Qed.

(** A failure with the objects as they are. *)
Lemma fail_inv (p : FreeRtos) (k : kern) (e : InitError) :
  pal_inv p k -> dispatcher_task p = false -> e <> kOk -> pal_inv (set_state kInitFailed e p) k.
Proof. intros [Hr Hl Hg Hs] Hd He. by split. Qed.

Definition step_ok (op : pal_op) (e : InitError) (p p' : FreeRtos) : Prop :=
  frozen (state_ p') = frozen (state_ p) || started (op, e) /\
  (started (op, e) = true -> frozen (state_ p) = false) /\
  (state_ p = kInitFailed -> p' = p).

Lemma quiet_ok (op : pal_op) (e : InitError) (p p' : FreeRtos) :
  started (op, e) = false -> frozen (state_ p') = frozen (state_ p) -> (state_ p = kInitFailed -> p' = p) -> step_ok op e p p'.
Proof. intros Hs Hf Ha. unfold step_ok. rewrite Hs, Hf, orb_false_r. done. Qed.

Lemma start_inv (running : bool) (p p' : FreeRtos) (k k' : kern) (e : InitError) :
  pal_inv p k -> start_dispatcher running 4 p k = (e, p', k') -> pal_inv p' k' /\ step_ok (LStart running) e p p'.
Proof.
  intros Hi He. unfold start_dispatcher in He.
  destruct (ensure_initialized p k) as [[e1 p1] k1] eqn:E1.
  apply ensure_inv in E1 as (Hi1 & Hfr & Hcase & Habs); [|done]. unfold step_ok.
  destruct Hcase as [(-> & Hnu & Hnf)|[Hne Hf]].
  2:{ rewrite bool_decide_eq_false_2 in He by done. cbn [negb] in He. simplify_eq. split; [done|].
      pose proof (pi_state _ _ Hi1) as Hs. rewrite Hf in Hs. destruct Hs as [Hle _]. rewrite <- Hfr, Hf.
      split; [by destruct (last_error_ p')|]. split; [by destruct (last_error_ p')|done]. }
  rewrite bool_decide_eq_true_2 in He by done. cbn [negb] in He.
  assert (Hready : frozen (state_ p1) = false -> complete p1 /\ dispatcher_task p1 = false).
  { intros Hz. pose proof (pi_state _ _ Hi1) as Hs. destruct (state_ p1); try done. }
  assert (Hnot : state_ p <> kInitFailed) by (intros E; rewrite (Habs E) in Hnf; done).
  rewrite <- Hfr. destruct (frozen (state_ p1)) eqn:Ez; [simplify_eq; by rewrite Ez|].
  destruct (Hready eq_refl) as [Hc Hd].
  destruct running; cbn [negb] in He; [|unfold fail_init in He; simplify_eq; split; [by apply fail_inv|done]].
  destruct (res_stack_words p1 <? _); [unfold fail_init in He; simplify_eq; split; [by apply fail_inv|done]|].
  destruct (k_create KDispatcher k1) as [ok k2] eqn:E2.
  assert (Hfresh : KDispatcher ∉ live k1).
  { rewrite (pi_live _ _ Hi1). unfold owned. rewrite Hd. intros Ho. unfold own in Ho.
    assert (KDispatcher ∈ workers_objs 0 (worker_slots p1)) as Hw by (destruct (wake p1), (join p1); set_solver).
    apply workers_objs_index in Hw as (? & _ & ?). naive_solver. }
  apply k_create_spec in E2 as [L2 R2]; [|done]. destruct Hi1 as [Hr1 Hl1 Hg1 _].
  destruct ok; cbn [negb] in He; unfold fail_init in He; simplify_eq; (split; [|done]).
  - split; cbn; try done; [congruence|]. rewrite L2, Hl1. unfold owned; cbn. rewrite Hd. cbn. set_solver.
  - split; cbn; try done; [congruence|]. rewrite L2, Hl1. unfold owned; cbn. set_solver.
Qed.

Lemma exit_inv (p : FreeRtos) (k : kern) :
  pal_inv p k -> dispatcher_task p = true -> pal_inv (dispatcher_exit p k).1 (dispatcher_exit p k).2.
Proof.
  intros [Hr Hl Hg Hs] Hd. split; cbn; try done.
  - rewrite Hl. unfold owned; cbn. rewrite Hd. cbn.
    assert (Hnw : KDispatcher ∉ workers_objs 0 (worker_slots p)).
    { intros (? & _ & ?)%workers_objs_index. naive_solver. }
    unfold own. destruct (wake p), (join p); set_solver.
  - destruct (state_ p); naive_solver.
Qed.

Lemma pal_step_inv (op : pal_op) (p p' : FreeRtos) (k k' : kern) (e : InitError) :
  pal_inv p k -> pal_step op p k = (e, p', k') -> pal_inv p' k' /\ step_ok op e p p'.
Proof.
  intros Hi Hst. destruct op as [|self prio|running| | |]; cbn [pal_step] in Hst.
  - destruct (state_ p) eqn:Es; try (unfold initialize in Hst; rewrite Es in Hst; simplify_eq; split; [done|by apply quiet_ok]).
    assert (He : ensure_initialized p k = (e, p', k')) by (unfold ensure_initialized; by rewrite Es).
    apply ensure_inv in He as (Hi' & Hf & _ & Ha); [|done]. split; [done|by apply quiet_ok].
  - destruct (register_current_task self prio p k) as [[ok p1] k1] eqn:E. simplify_eq.
    unfold register_current_task in E. destruct (valid_prio prio); cbn [negb] in E; [|simplify_eq; split; [done|by apply quiet_ok]].
    destruct (ensure_initialized p k) as [[e1 p2] k2] eqn:E1.
    apply ensure_inv in E1 as (Hi1 & Hfr & Hcase & Habs); [|done].
    destruct Hcase as [(-> & Hnu & Hnf)|[Hne Hf]].
    + rewrite bool_decide_eq_true_2 in E by done. cbn [negb] in E.
      destruct (register_slot _ _ _ _) as [ok' t]. simplify_eq. destruct Hi1 as [Hr1 Hl1 Hg1 Hs1].
      split; [by split|]. apply quiet_ok; [done|done|]. intros Ef. rewrite (Habs Ef) in Hnf. done.
    + rewrite bool_decide_eq_false_2 in E by done. cbn [negb] in E. simplify_eq. split; [done|by apply quiet_ok].
  - by apply start_inv in Hst.
  - destruct (dispatcher_task p) eqn:Hd; [|simplify_eq; split; [done|by apply quiet_ok]].
    pose proof (exit_inv p k Hi Hd) as Hx. destruct (dispatcher_exit p k) as [p1 k1] eqn:Ex. unfold dispatcher_exit in Ex.
    simplify_eq. split; [exact Hx|]. apply quiet_ok; [done|done|]. intros Ef.
    destruct Hi as [_ _ _ Hs]. rewrite Ef in Hs. destruct Hs; congruence.
  - destruct (dispatcher_task p) eqn:Hd; simplify_eq; [split; [done|by apply quiet_ok]|].
    unfold join_dispatcher. destruct (state_ p) eqn:Es; try (split; [done|apply quiet_ok; rewrite ?Es; done]).
    destruct Hi as [Hr Hl Hg Hs]. rewrite Es in Hs. split; [by split|]. apply quiet_ok; rewrite ?Es; done.
  - destruct (reaches_wake p k) as [[b p1] k1] eqn:E. simplify_eq. unfold reaches_wake in E.
    destruct (state_ p) eqn:Es; try (simplify_eq; split; [done|by apply quiet_ok]);
      (destruct (ensure_initialized p k) as [[e1 p2] k2] eqn:E1; simplify_eq;
       apply ensure_inv in E1 as (Hi1 & Hfr & _ & Ha); [|done]; split; [done|by apply quiet_ok]).
Qed.

Lemma pal_run_inv (ops : list pal_op) (p : FreeRtos) (k : kern) :
  pal_inv p k ->
  let '(outs, p', k') := pal_run ops p k in
  pal_inv p' k' /\
  (countb started outs + (if frozen (state_ p) then 1 else 0) = if frozen (state_ p') then 1 else 0)%nat /\
  (state_ p = kInitFailed -> p' = p).
Proof.
  revert p k. induction ops as [|op ops IH]; intros p k Hi; cbn [pal_run].
  { cbn. done. }
  destruct (pal_step op p k) as [[e p1] k1] eqn:E1. apply pal_step_inv in E1 as (Hi1 & Hf & Hs & Ha); [|done].
  specialize (IH p1 k1 Hi1). destruct (pal_run ops p1 k1) as [[outs p2] k2]. destruct IH as (Hi2 & Hc & Ha2).
  split; [done|]. split.
  - cbn [countb]. rewrite Hf in Hc. destruct (started (op, e)); [rewrite Hs in * by done; cbn in *; lia|].
    rewrite orb_false_r in Hc. lia.
  - intros E. rewrite (Ha E) in *. by apply Ha2.
Qed.

Lemma frozen_iff (st : Lifecycle) : frozen st = true <-> st = kStarted \/ st = kStopped.
Proof. unfold frozen. rewrite orb_true_iff, !bool_decide_eq_true. done. Qed.

(** One initialisation, one start, one stop.  Through any sequence of calls
    (lazy initialisations by registering producers, starts under a running or
    stopped scheduler, joins, the dispatcher's own exit) and any kernel answers:
    the live kernel objects are at every point exactly those the PAL's handles
    name, no storage is ever initialised while in use, at most one start ever
    succeeds, and a failed PAL stays as it failed. *)
Theorem one_start_ever (stack res_bytes res_words : Z) (slots workers : nat) (kernel_answers : list bool)
    (ops more : list pal_op) :
  let '(outs, p, k) := pal_run ops (fresh_pal stack res_bytes res_words slots workers) (mkKern kernel_answers ∅ false) in
  reused k = false /\ live k = owned p /\
  (countb started outs <= 1)%nat /\
  (state_ p = kStarted \/ state_ p = kStopped <-> countb started outs = 1%nat) /\
  (state_ p = kInitFailed -> (pal_run more p k).1.2 = p).
Proof.
  assert (H0 : pal_inv (fresh_pal stack res_bytes res_words slots workers) (mkKern kernel_answers ∅ false)).
  { assert (Hb : bare (fresh_pal stack res_bytes res_words slots workers))
      by (unfold bare; cbn; split_and!; try done; by apply Forall_replicate).
    split; try done. by rewrite owned_bare. }
  pose proof (pal_run_inv ops _ _ H0) as Hrun.
  destruct (pal_run ops _ _) as [[outs p] k]. destruct Hrun as (Hi & Hc & _). destruct Hi as [Hr Hl Hg Hs] eqn:Hi'. clear Hi'.
  change (frozen (state_ (fresh_pal stack res_bytes res_words slots workers))) with false in Hc. cbn beta iota in Hc.
  split; [done|]. split; [done|]. split; [destruct (frozen (state_ p)); lia|]. split.
  - rewrite <- frozen_iff. destruct (frozen (state_ p)); split; intros; done || lia.
  - intros Ef. pose proof (pal_run_inv more p k Hi) as Hm. destruct (pal_run more p k) as [[o2 p2] k2].
    destruct Hm as (_ & _ & Ha). by apply Ha.
Qed.

(** The window the guard opens: while another task is inside the lazy
    initialisation, [start_dispatcher] reports kOk and starts nothing. *)
Lemma start_during_initialisation (running : bool) (stack_type : Z) (p : FreeRtos) (k : kern) :
  state_ p = kUninitialized -> init_guard_ p = true -> last_error_ p = kOk ->
  start_dispatcher running stack_type p k = (kOk, p, k).
Proof. intros Hs Hg He. unfold start_dispatcher, ensure_initialized, initialize. rewrite Hs, Hg. cbn. by rewrite He. Qed.

(** ** RT-Thread *)

Definition rt_objs : gset kobj := {[KWake; KJoin; KDispatcher]}.

(** All three objects or none, as [init_is_all_or_nothing]. *)
Lemma rt_init_all_or_nothing (p : RtThread) (k : kern) :
  rt_state_ p = kUninitialized -> live k = ∅ ->
  let '(e, p', k') := rt_initialize p k in
  reused k' = reused k /\
  (e = kOk /\ rt_state_ p' = kReady /\ live k' = rt_objs \/
   e <> kOk /\ rt_state_ p' = kInitFailed /\ rt_last_error_ p' = e /\ live k' = ∅).
Proof.
  intros Hs Hk. unfold rt_initialize. rewrite Hs.
  destruct (rt_res_stack p <? _); [cbn; split; [done|]; by right|].
  destruct (k_create KWake k) as [wk k1] eqn:E1. apply k_create_spec in E1 as [L1 R1]; [|set_solver].
  destruct wk; cbn [negb]; [|cbn; split; [done|]; right; split_and!; try done; rewrite L1, Hk; cbn; set_solver].
  destruct (k_create KJoin k1) as [jn k2] eqn:E2. apply k_create_spec in E2 as [L2 R2]; [|rewrite L1, Hk; cbn; set_solver].
  destruct jn; cbn [negb];
    [|cbn; split; [congruence|]; right; split_and!; try done; rewrite L2, L1, Hk; cbn; set_solver].
  destruct (k_create KDispatcher k2) as [th k3] eqn:E3.
  apply k_create_spec in E3 as [L3 R3]; [|rewrite L2, L1, Hk; cbn; set_solver].
  destruct th; cbn [negb]; cbn; (split; [congruence|]).
  - left. split_and!; try done. rewrite L3, L2, L1, Hk. unfold rt_objs. cbn. set_solver.
  - right. split_and!; try done. rewrite L3, L2, L1, Hk. cbn. set_solver.
Qed.

(** Without the guard two producers may both be inside the initialisation: the
    second re-initialises the semaphore the first has just made. *)
Example rt_double_initialisation :
  let p := mkRt kUninitialized kOk 4096 16384 [free_slot] in
  let '(_, k1) := k_create KWake (mkKern [] ∅ false) in
  let '(e, _, k2) := rt_initialize p k1 in
  e = kOk /\ reused k2 = true.
Proof. vm_compute. done. Qed.
