(* ===== verification/PalMailbox.v ===== *)
(** * The software-interrupt mailboxes (src/core/pal_freertos.cpp,
      src/core/pal_rtthread.cpp: the SoftIrqOps family)

    A ring of eight payloads with free-running 32-bit indices.  On FreeRTOS any
    number of tasks and interrupts raise, each inserting under the interrupt mask
    and giving one token of a counting semaphore afterwards; the consumer takes a
    token, then a payload.  On RT-Thread one producer publishes and the consumer
    polls.  Each operation is a function of the handle; [irq_step] and
    [rt_irq_step] are the interleavings, one step per masked section, kernel call
    or atomic access. *)

From S2P Require Import Prelude Kernel.
Local Open Scope Z_scope.

Definition kFreeRtosSoftIrqSlots : Z := 8.
Definition kSoftIrqRingSlots : Z := 8.

(** ** The ring, common to both handles *)

Record irq_ring := mkRing { head : Z; tail : Z; ring : list Z }.

Definition empty_ring : irq_ring := mkRing 0 0 (replicate 8 0).

Definition ring_full (r : irq_ring) : bool := kFreeRtosSoftIrqSlots <=? wrap 32 (head r - tail r).

Definition ring_put (payload : Z) (r : irq_ring) : irq_ring :=
  mkRing (head r) (tail r) (<[Z.to_nat (head r `mod` kFreeRtosSoftIrqSlots) := payload]> (ring r)).
Definition ring_publish (r : irq_ring) : irq_ring := mkRing (wrap 32 (head r + 1)) (tail r) (ring r).

Definition ring_peek (r : irq_ring) : Z := default 0 (ring r !! Z.to_nat (tail r `mod` kFreeRtosSoftIrqSlots)).
Definition ring_consume (r : irq_ring) : irq_ring := mkRing (head r) (wrap 32 (tail r + 1)) (ring r).

(** ** FreeRTOS *)

Section freertos.
Context {K : Type} `{!SemKernel K}.

Record SoftIrqHandle := mkIrq { mailbox : irq_ring; wake : option K }.

Definition softirq_init (created : bool) : bool * SoftIrqHandle :=
  (created, mkIrq empty_ring (if created then Some (sem_create 8 0) else None)).

(** The section under the interrupt mask. *)
Definition softirq_insert (payload : Z) (h : SoftIrqHandle) : bool * SoftIrqHandle :=
  if ring_full (mailbox h) then (false, h)
  else (true, mkIrq (ring_publish (ring_put payload (mailbox h))) (wake h)).

(** [xSemaphoreGive] or [xSemaphoreGiveFromISR], whose results are ignored. *)
Definition softirq_give (h : SoftIrqHandle) : SoftIrqHandle :=
  mkIrq (mailbox h) ((fun s => (sem_give s).2) <$> wake h).

Definition softirq_raise (payload : Z) (h : SoftIrqHandle) : bool * SoftIrqHandle :=
  match wake h with
  | None => (false, h)
  | Some _ => let '(ok, h) := softirq_insert payload h in if ok then (true, softirq_give h) else (false, h)
  end.

(** [softirq_take] whose wait ends at once: with a token, or as timed out. *)
Definition softirq_take (h : SoftIrqHandle) : Z * SoftIrqHandle :=
  match wake h with
  | None => (-1, h)
  | Some s =>
      let '(ok, s) := sem_poll s in
      let h := mkIrq (mailbox h) (Some s) in
      if negb ok then (-1, h)
      else if tail (mailbox h) =? head (mailbox h) then (-1, h)
      else (ring_peek (mailbox h), mkIrq (ring_consume (mailbox h)) (wake h))
  end.

Definition softirq_deinit (h : SoftIrqHandle) : SoftIrqHandle := mkIrq (mailbox h) None.

(** A producer: outside, or holding a published payload whose token it owes. *)
Inductive raise_pc := ROutside | RGive.

(** The consumer: outside; past the take; past the check of the indices; holding
    the payload it read; in the branch the source calls defensive. *)
Inductive take_pc := TOutside | TTaken | TRead | TStore (payload : Z) | TDefensive.

Record irq_sys := mkSys {
  handle : SoftIrqHandle;
  raisers : list raise_pc;
  taker : take_pc;
  accepted : list Z;
  delivered : list Z
}.

Inductive irq_step : irq_sys -> irq_sys -> Prop :=
| is_insert h h' rs k c acc del p :
    rs !! k = Some ROutside -> is_Some (wake h) -> softirq_insert p h = (true, h') ->
    irq_step (mkSys h rs c acc del) (mkSys h' (<[k := RGive]> rs) c (acc ++ [p]) del)
| is_give h rs k c acc del :
    rs !! k = Some RGive ->
    irq_step (mkSys h rs c acc del) (mkSys (softirq_give h) (<[k := ROutside]> rs) c acc del)
| is_take r s s' rs acc del :
    sem_poll s = (true, s') ->
    irq_step (mkSys (mkIrq r (Some s)) rs TOutside acc del) (mkSys (mkIrq r (Some s')) rs TTaken acc del)
| is_check h rs acc del :
    irq_step (mkSys h rs TTaken acc del)
      (mkSys h rs (if tail (mailbox h) =? head (mailbox h) then TDefensive else TRead) acc del)
| is_read h rs acc del :
    irq_step (mkSys h rs TRead acc del) (mkSys h rs (TStore (ring_peek (mailbox h))) acc del)
| is_store h rs p acc del :
    irq_step (mkSys h rs (TStore p) acc del)
      (mkSys (mkIrq (ring_consume (mailbox h)) (wake h)) rs TOutside acc (del ++ [p]))
| is_defensive h rs acc del :
    irq_step (mkSys h rs TDefensive acc del) (mkSys h rs TOutside acc del).

Definition irq_start (producers : nat) : irq_sys :=
  mkSys (softirq_init true).2 (replicate producers ROutside) TOutside [] [].
End freertos.
Arguments SoftIrqHandle : clear implicits.
Arguments irq_sys : clear implicits.

(** ** RT-Thread *)

(** The producer: outside; past its two loads, with the tail it saw; past the
    write of its payload.  The consumer: outside; past its loads; holding the
    payload it read. *)
Inductive rt_raise_pc := QOutside | QLoaded (tail_seen payload : Z) | QWritten (payload : Z).
Inductive rt_take_pc := POutside | PLoaded (head_seen : Z) | PRead (payload : Z).

Record rt_irq_sys := mkRtSys {
  rt_ring : irq_ring;
  rt_raiser : rt_raise_pc;
  rt_taker : rt_take_pc;
  rt_accepted : list Z;
  rt_delivered : list Z
}.

(** The test of [softirq_raise], on the tail the producer loaded. *)
Definition rt_full (head_own tail_seen : Z) : bool := kSoftIrqRingSlots <=? wrap 32 (head_own - tail_seen).

Inductive rt_irq_step : rt_irq_sys -> rt_irq_sys -> Prop :=
| rs_load r c acc del p :
    rt_irq_step (mkRtSys r QOutside c acc del) (mkRtSys r (QLoaded (tail r) p) c acc del)
| rs_full r t p c acc del :
    rt_full (head r) t = true ->
    rt_irq_step (mkRtSys r (QLoaded t p) c acc del) (mkRtSys r QOutside c acc del)
| rs_write r t p c acc del :
    rt_full (head r) t = false ->
    rt_irq_step (mkRtSys r (QLoaded t p) c acc del) (mkRtSys (ring_put p r) (QWritten p) c acc del)
| rs_publish r p c acc del :
    rt_irq_step (mkRtSys r (QWritten p) c acc del) (mkRtSys (ring_publish r) QOutside c (acc ++ [p]) del)
| rs_poll r q acc del :
    rt_irq_step (mkRtSys r q POutside acc del) (mkRtSys r q (PLoaded (head r)) acc del)
| rs_none r q h acc del :
    tail r = h -> rt_irq_step (mkRtSys r q (PLoaded h) acc del) (mkRtSys r q POutside acc del)
| rs_read r q h acc del :
    tail r <> h -> rt_irq_step (mkRtSys r q (PLoaded h) acc del) (mkRtSys r q (PRead (ring_peek r)) acc del)
| rs_consume r q p acc del :
    rt_irq_step (mkRtSys r q (PRead p) acc del) (mkRtSys (ring_consume r) q POutside acc (del ++ [p])).

Definition rt_irq_start : rt_irq_sys := mkRtSys empty_ring QOutside POutside [] [].

(** * The mailboxes deliver every accepted payload once, in order

    About [PalMailbox]: [ring_inv] ties a ring to the payloads accepted and the
    number of them already consumed, across the wrap of the 32-bit indices; the
    two protocols are proved against it. *)

(** ** The ring *)

Definition cell_of (i : nat) : nat := (i `mod` 8)%nat.
Arguments cell_of : simpl never.

Record ring_inv (acc : list Z) (d : nat) (r : irq_ring) : Prop := {
  ri_head : head r = wrap 32 (Z.of_nat (length acc));
  ri_tail : tail r = wrap 32 (Z.of_nat d);
  ri_window : (d <= length acc <= d + 8)%nat;
  ri_length : length (ring r) = 8%nat;
  ri_slots : forall i, (d <= i < length acc)%nat -> ring r !! cell_of i = acc !! i
}.

(** Eight divides 2^32: a wrapped index selects the slot of the true one. *)
Lemma cell_of_wrap (i : nat) : Z.to_nat (wrap 32 (Z.of_nat i) `mod` kFreeRtosSoftIrqSlots) = cell_of i.
Proof.
  unfold wrap, cell_of, kFreeRtosSoftIrqSlots. rewrite <- Znumtheory.Zmod_div_mod; [|lia|lia|by exists (2 ^ 29)].
  change 8 with (Z.of_nat 8). rewrite <- Nat2Z.inj_mod, Nat2Z.id. done.
Qed.

Lemma cell_of_lt (i : nat) : (cell_of i < 8)%nat.
Proof. apply Nat.mod_upper_bound. done. Qed.

Lemma cell_of_inj (i j : nat) : (i < j < i + 8)%nat -> cell_of i <> cell_of j.
Proof.
  intros Hij E. unfold cell_of in E.
  pose proof (Nat.div_mod i 8 ltac:(done)). pose proof (Nat.div_mod j 8 ltac:(done)). lia.
Qed.

Lemma window_wrap (a d : nat) : (d <= a <= d + 8)%nat ->
  wrap 32 (wrap 32 (Z.of_nat a) - wrap 32 (Z.of_nat d)) = Z.of_nat (a - d).
Proof. intros Hw. rewrite wrap_sub_wrap by lia. rewrite wrap_small by (unfold in_u; lia). lia. Qed.

Section ring.
Context (acc : list Z) (d : nat) (r : irq_ring).
Hypothesis Hr : ring_inv acc d r.

Lemma ring_full_inv : ring_full r = (8 <=? Z.of_nat (length acc - d)).
Proof. destruct Hr as [Hh Ht Hw _ _]. unfold ring_full, kFreeRtosSoftIrqSlots. by rewrite Hh, Ht, window_wrap. Qed.

Lemma ring_empty_inv : tail r = head r <-> d = length acc.
Proof.
  destruct Hr as [Hh Ht Hw _ _]. rewrite Hh, Ht. split; [|by intros ->].
  intros E. pose proof (window_wrap (length acc) d Hw) as Hs. rewrite E, Z.sub_diag in Hs.
  change (wrap 32 0) with 0 in Hs. lia.
Qed.

Lemma ring_put_inv (p : Z) : (length acc < d + 8)%nat ->
  ring_inv acc d (ring_put p r) /\ ring (ring_put p r) !! cell_of (length acc) = Some p.
Proof.
  intros Hlt. destruct Hr as [Hh Ht Hw Hl Hs]. unfold ring_put; cbn. rewrite Hh, cell_of_wrap.
  pose proof (cell_of_lt (length acc)). split; [|by rewrite list_lookup_insert_eq by lia].
  split; cbn; try done; [by rewrite length_insert|].
  intros i Hi. rewrite list_lookup_insert_ne; [by apply Hs|]. apply not_eq_sym, cell_of_inj. lia.
Qed.

Lemma ring_publish_inv (p : Z) : (length acc < d + 8)%nat -> ring r !! cell_of (length acc) = Some p ->
  ring_inv (acc ++ [p]) d (ring_publish r).
Proof.
  intros Hlt Hp. destruct Hr as [Hh Ht Hw Hl Hs]. split; cbn; rewrite ?length_app; cbn; try done; try lia.
  - rewrite Hh, wrap_add_wrap_l by lia. f_equal. lia.
  - intros i Hi. destruct (decide (i = length acc)) as [->|].
    + by rewrite Hp, lookup_app_r, Nat.sub_diag by lia.
    + rewrite lookup_app_l by lia. apply Hs. lia.
Qed.

Lemma ring_peek_inv : (d < length acc)%nat -> acc !! d = Some (ring_peek r).
Proof.
  intros Hlt. destruct Hr as [Hh Ht Hw Hl Hs]. unfold ring_peek. rewrite Ht, cell_of_wrap, Hs by lia.
  by destruct (lookup_lt_is_Some_2 acc d Hlt) as [x ->].
Qed.

Lemma ring_consume_inv : (d < length acc)%nat -> ring_inv acc (S d) (ring_consume r).
Proof.
  intros Hlt. destruct Hr as [Hh Ht Hw Hl Hs]. split; cbn; try done; try lia.
  - rewrite Ht, wrap_add_wrap_l by lia. f_equal. lia.
  - intros i Hi. apply Hs. lia.
Qed.
End ring.

Lemma empty_ring_inv : ring_inv [] 0 empty_ring.
Proof. split; cbn; try done; try lia. Qed.

(** Consuming what was read extends the delivered prefix. *)
Lemma delivered_grows (acc del : list Z) (p : Z) :
  del = take (length del) acc -> acc !! length del = Some p ->
  del ++ [p] = take (length (del ++ [p])) acc.
Proof.
  intros Hd Hp. rewrite length_app, Nat.add_1_r, (take_S_r _ _ _ Hp). by rewrite <- Hd.
Qed.

Lemma delivered_kept (acc del : list Z) (p : Z) :
  (length del <= length acc)%nat -> del = take (length del) acc -> del = take (length del) (acc ++ [p]).
Proof. intros Hl Hd. by rewrite take_app_le by done. Qed.

(** ** FreeRTOS *)

Section freertos.
Context {K : Type} `{HK : SemLaws K}.

Definition owes (pc : raise_pc) : bool := match pc with RGive => true | ROutside => false end.
Definition past_take (c : take_pc) : nat := match c with TOutside => 0 | _ => 1 end.

(** Tokens in the semaphore, tokens still owed and the one in the consumer's
    hands are together the payloads not yet consumed. *)
Record irq_inv (s : irq_sys K) : Prop := {
  ii_ring : ring_inv (accepted s) (length (delivered s)) (mailbox (handle s));
  ii_prefix : delivered s = take (length (delivered s)) (accepted s);
  ii_tokens : exists w, wake (handle s) = Some w /\ sem_max w = 8%nat /\
    (sem_count w + countb owes (raisers s) + past_take (taker s) = length (accepted s) - length (delivered s))%nat;
  ii_taker : match taker s with
             | TStore p => accepted s !! length (delivered s) = Some p
             | TDefensive => False
             | _ => True end
}.

Lemma irq_inv_start (n : nat) : irq_inv (irq_start n).
Proof.
  split; cbn; try done; [apply empty_ring_inv|].
  destruct (sem_create_spec 8 0 ltac:(lia)) as [Hm Hc]. eexists; split; [done|]. split; [done|].
  rewrite Hc. by induction n.
Qed.

Lemma irq_inv_step (s s' : irq_sys K) : irq_inv s -> irq_step s s' -> irq_inv s'.
Proof.
  intros [Hr Hp (w & Hw & Hm & Ht) Hc] Hst.
  destruct Hst as [h h' rs k c acc del p Hk _ Hi|h rs k c acc del Hk|r s s' rs acc del Hs|h rs acc del|h rs acc del|h rs p acc del|h rs acc del];
    cbn in *; pose proof (ri_window _ _ _ Hr) as Hwin.
  - unfold softirq_insert in Hi. rewrite (ring_full_inv _ _ _ Hr) in Hi.
    destruct (Z.leb_spec 8 (Z.of_nat (length acc - length del))); [done|]. simplify_eq.
    destruct (ring_put_inv _ _ _ Hr p ltac:(lia)) as [Hr' Hslot].
    split; cbn; [by apply ring_publish_inv; [|lia|]|by apply delivered_kept; [lia|]| |].
    + exists w. do 2 (split; [done|]). pose proof (countb_insert owes rs k _ RGive Hk) as Hn. cbn in Hn.
      rewrite length_app; cbn. lia.
    + destruct c; try done. by rewrite lookup_app_l by (by eapply lookup_lt_Some).
  - pose proof (countb_insert owes rs k _ ROutside Hk) as Hn. cbn in Hn.
    destruct (sem_give_room w ltac:(lia)) as (w' & Hg & Hm' & Hc').
    split; cbn; try done. exists w'. rewrite Hw; cbn. rewrite Hg; cbn. split; [done|]. split; lia.
  - simplify_eq. apply sem_poll_spec in Hs as (Hm' & [[_ Hc']|[? _]]); [|done].
    split; cbn; try done. eexists. split; [done|]. split; [congruence|lia].
  - split; cbn; try done; destruct (Z.eqb_spec (tail (mailbox h)) (head (mailbox h))) as [E|]; cbn; try done;
      try (exists w; do 2 (split; [done|]); lia).
    apply (ring_empty_inv _ _ _ Hr) in E. lia.
  - split; cbn; try done; [exists w; by do 2 (split; [done|])|]. apply (ring_peek_inv _ _ _ Hr). lia.
  - pose proof (lookup_lt_Some _ _ _ Hc) as Hlt.
    split; cbn; [|by apply delivered_grows| |done].
    + rewrite length_app, Nat.add_1_r. by apply ring_consume_inv.
    + exists w. do 2 (split; [done|]). rewrite length_app; cbn. lia.
  - done.
Qed.
End freertos.

(** C11: The interrupt mailbox is exact (FreeRTOS).  For any number of producers,
    tasks and interrupt handlers alike, and any interleaving of their masked
    inserts and their gives with the consumer's take, check, read and store, over
    any number of wraps of the 32-bit indices: the payloads delivered are the
    payloads accepted, each once and in order, with at most eight outstanding; a
    raise is refused only when eight are; the token-without-payload branch is
    never taken; and when no raise is halfway the semaphore holds exactly one
    token per undelivered payload, so a consumer sleeps only on an empty ring. *)
Theorem mailbox_is_exact {K} `{HK : SemLaws K} (producers : nat) (s : irq_sys K) :
  rtc irq_step (irq_start producers) s ->
  exists pending, accepted s = delivered s ++ pending /\ (length pending <= 8)%nat /\
    taker s <> TDefensive /\
    (forall p, (softirq_insert p (handle s)).1 = false <-> length pending = 8%nat) /\
    (Forall (fun pc => pc = ROutside) (raisers s) -> taker s = TOutside ->
     exists w, wake (handle s) = Some w /\ sem_count w = length pending).
Proof.
  intros Hrun. assert (Hi : irq_inv s).
  { eapply (rtc_invariant irq_step irq_inv); [intros ??; apply irq_inv_step| |exact Hrun]. apply irq_inv_start. }
  destruct Hi as [Hr Hp (w & Hw & Hm & Ht) Hc]. pose proof (ri_window _ _ _ Hr) as Hwin.
  exists (drop (length (delivered s)) (accepted s)). rewrite length_drop.
  split; [rewrite Hp at 1; by rewrite take_drop|]. split; [lia|]. split; [by intros E; rewrite E in Hc|]. split.
  - intros p. unfold softirq_insert. rewrite (ring_full_inv _ _ _ Hr).
    destruct (Z.leb_spec 8 (Z.of_nat (length (accepted s) - length (delivered s)))); cbn; split; try done; lia.
  - intros Hq Hout. exists w. split; [done|]. rewrite Hout in Ht; cbn in Ht.
    assert (countb owes (raisers s) = 0%nat) as Hz; [|lia].
    clear -Hq. induction Hq as [|pc l -> _ IH]; [done|]. exact IH.
Qed.

(** One of two producers has published and not yet given its token. *)
Lemma mailbox_is_exact_witness :
  exists s : irq_sys StaticSemaphore_t, rtc irq_step (irq_start 2) s /\ delivered s = [7] /\
    exists pending, accepted s = delivered s ++ pending /\ (length pending <= 8)%nat.
Proof.
  assert (Hrun : exists s : irq_sys StaticSemaphore_t, rtc irq_step (irq_start 2) s /\ delivered s = [7] /\ length (accepted s) = 2%nat).
  { eexists. split.
    - eapply rtc_l; [by eapply (is_insert _ _ _ 0 _ _ _ 7)|].
      eapply rtc_l; [by eapply (is_give _ _ 0)|].
      eapply rtc_l; [by apply is_take|]. eapply rtc_l; [by apply is_check|].
      eapply rtc_l; [by eapply (is_insert _ _ _ 1 _ _ _ 9)|].
      eapply rtc_l; [by apply is_read|]. eapply rtc_l; [by apply is_store|]. apply rtc_refl.
    - vm_compute. done. }
  destruct Hrun as (s & Hrun & Hd & _). exists s. split; [exact Hrun|]. split; [exact Hd|].
  destruct (mailbox_is_exact 2 s Hrun) as (pending & Ha & Hl & _). exists pending. exact (conj Ha Hl).
Defined.

(** An accepted payload is what the next take returns. *)
Lemma raise_then_take {K} `{HK : SemLaws K} (p : Z) :
  let '(ok, h) := softirq_raise p (softirq_init (K := K) true).2 in ok = true /\ (softirq_take h).1 = p.
Proof.
  destruct (sem_create_spec (K := K) 8 0 ltac:(lia)) as [Hm Hc]. unfold softirq_raise, softirq_insert; cbn -[ring_full].
  change (ring_full empty_ring) with false; cbn.
  destruct (sem_give_room (sem_create (K := K) 8 0) ltac:(lia)) as (w & Hg & _ & Hw). rewrite Hg; cbn.
  destruct (sem_poll_token w ltac:(lia)) as (w' & Ht & _). split; [done|]. unfold softirq_take; cbn. by rewrite Ht.
Qed.

(** A payload of -1 cannot be told from a timeout. *)
Lemma minus_one_is_ambiguous {K} `{HK : SemLaws K} :
  let h := (softirq_init (K := K) true).2 in
  (softirq_take h).1 = -1 /\ (softirq_take (softirq_raise (-1) h).2).1 = -1.
Proof.
  destruct (sem_create_spec (K := K) 8 0 ltac:(lia)) as [Hm Hc]. split.
  - unfold softirq_take; cbn. destruct (sem_poll (sem_create (K := K) 8 0)) as [ok w] eqn:E.
    apply sem_poll_spec in E as (_ & [[_ ?]|[-> _]]); [lia|done].
  - pose proof (raise_then_take (K := K) (-1)) as Hp. by destruct (softirq_raise _ _) as [ok h]; destruct Hp.
Qed.

(** ** RT-Thread *)

Record rt_irq_inv (s : rt_irq_sys) : Prop := {
  rti_ring : ring_inv (rt_accepted s) (length (rt_delivered s)) (rt_ring s);
  rti_prefix : rt_delivered s = take (length (rt_delivered s)) (rt_accepted s);
  rti_raiser : match rt_raiser s with
    | QOutside => True
    | QLoaded t _ => exists d, t = wrap 32 (Z.of_nat d) /\ (d <= length (rt_delivered s))%nat /\ (length (rt_accepted s) <= d + 8)%nat
    | QWritten p => (length (rt_accepted s) < length (rt_delivered s) + 8)%nat /\
        ring (rt_ring s) !! cell_of (length (rt_accepted s)) = Some p end;
  rti_taker : match rt_taker s with
    | POutside => True
    | PLoaded h => exists a, h = wrap 32 (Z.of_nat a) /\ (length (rt_delivered s) <= a <= length (rt_accepted s))%nat
    | PRead p => rt_accepted s !! length (rt_delivered s) = Some p end
}.

Lemma rt_irq_inv_start : rt_irq_inv rt_irq_start.
Proof. split; cbn; try done. apply empty_ring_inv. Qed.

(** The producer's own index is exact, the tail it saw may be old. *)
Lemma rt_room (acc del : list Z) (r : irq_ring) (d : nat) :
  ring_inv acc (length del) r -> (d <= length del)%nat -> (length acc <= d + 8)%nat ->
  rt_full (head r) (wrap 32 (Z.of_nat d)) = false -> (length acc < length del + 8)%nat.
Proof.
  intros [Hh _ Hw _ _] Hd Ha Hf. unfold rt_full, kSoftIrqRingSlots in Hf. rewrite Hh, window_wrap in Hf by lia.
  apply Z.leb_gt in Hf. lia.
Qed.

Lemma rt_irq_inv_step (s s' : rt_irq_sys) : rt_irq_inv s -> rt_irq_step s s' -> rt_irq_inv s'.
Proof.
  intros [Hr Hp Hq Hc] Hst. pose proof (ri_window _ _ _ Hr) as Hwin.
  destruct Hst as [r c acc del p|r t p c acc del Hf|r t p c acc del Hf|r p c acc del|r q acc del|r q h acc del E|r q h acc del Hne|r q p acc del];
    cbn in *; try (split; cbn; done).
  - split; cbn; try done. exists (length del). rewrite (ri_tail _ _ _ Hr). lia.
  - destruct Hq as (d & -> & Hd & Ha). pose proof (rt_room _ _ _ _ Hr Hd Ha Hf) as Hlt.
    destruct (ring_put_inv _ _ _ Hr p Hlt) as [Hr' Hs]. by split; cbn.
  - destruct Hq as [Hlt Hs]. split; cbn; [by apply ring_publish_inv|by apply delivered_kept; [lia|]|done|].
    rewrite length_app; cbn. destruct c as [|h|v]; [done| |].
    + destruct Hc as (a & -> & Ha). exists a. split; [done|lia].
    + by rewrite lookup_app_l by (by eapply lookup_lt_Some).
  - split; cbn; try done. exists (length acc). rewrite (ri_head _ _ _ Hr). lia.
  - split; cbn; try done. destruct Hc as (a & -> & Ha). rewrite (ri_tail _ _ _ Hr) in Hne.
    apply (ring_peek_inv _ _ _ Hr). destruct (decide (a = length del)) as [->|]; [done|lia].
  - pose proof (lookup_lt_Some _ _ _ Hc) as Hlt. pose proof (ring_consume_inv _ _ _ Hr Hlt) as Hr'.
    split; cbn; rewrite ?length_app, ?Nat.add_1_r; [done| |destruct q; cbn|done].
    + rewrite <- (Nat.add_1_r (length del)). pose proof (delivered_grows acc del p Hp Hc) as Hg. by rewrite length_app in Hg.
    + done.
    + destruct Hq as (d & -> & Hd & Ha). exists d. split; [done|lia].
    + destruct Hq as [Hq Hs]. split; [lia|done].
Qed.

(** The polled mailbox is exact (RT-Thread).  For one producer and one
    consumer, interleaved at every load and store and over any number of wraps,
    the payloads delivered are a prefix of those accepted, at most eight are
    outstanding, and an accepted payload is never missed: whatever the producer
    is doing, the consumer's next poll alone delivers the oldest one. *)
Theorem polled_mailbox_is_exact (s : rt_irq_sys) :
  rtc rt_irq_step rt_irq_start s ->
  exists pending, rt_accepted s = rt_delivered s ++ pending /\ (length pending <= 8)%nat /\
    (rt_taker s = POutside -> forall p rest, pending = p :: rest ->
     exists s', rtc rt_irq_step s s' /\ rt_delivered s' = rt_delivered s ++ [p] /\
       rt_accepted s' = rt_accepted s /\ rt_raiser s' = rt_raiser s).
Proof.
  intros Hrun. assert (Hi : rt_irq_inv s).
  { eapply (rtc_invariant rt_irq_step rt_irq_inv); [intros ??; apply rt_irq_inv_step| |exact Hrun]. apply rt_irq_inv_start. }
  destruct Hi as [Hr Hp _ _]. pose proof (ri_window _ _ _ Hr) as Hwin.
  exists (drop (length (rt_delivered s)) (rt_accepted s)). rewrite length_drop.
  split; [rewrite Hp at 1; by rewrite take_drop|]. split; [lia|]. intros Hout p rest Hd.
  assert (Hhd : rt_accepted s !! length (rt_delivered s) = Some p).
  { rewrite <- (Nat.add_0_r (length (rt_delivered s))), <- lookup_drop, Hd. done. }
  pose proof (lookup_lt_Some _ _ _ Hhd) as Hlt. pose proof (ring_peek_inv _ _ _ Hr Hlt) as Hpk. rewrite Hhd in Hpk.
  destruct s as [r q c acc del]; cbn in *; subst c.
  eexists. split.
  - eapply rtc_l; [apply rs_poll|]. eapply rtc_l; [apply rs_read|].
    + rewrite (ring_empty_inv _ _ _ Hr). lia.
    + eapply rtc_l; [apply rs_consume|]. apply rtc_refl.
  - cbn. simplify_eq. done.
Qed.

(** The first payload is out while the producer has written the second. *)
Lemma polled_mailbox_is_exact_witness :
  exists s, rtc rt_irq_step rt_irq_start s /\ rt_raiser s = QWritten 9 /\
    exists pending, rt_accepted s = rt_delivered s ++ pending /\ (length pending <= 8)%nat.
Proof.
  assert (Hrun : exists s, rtc rt_irq_step rt_irq_start s /\ rt_raiser s = QWritten 9).
  { eexists. split.
    - eapply rtc_l; [apply (rs_load _ _ _ _ 7)|]. eapply rtc_l; [by apply rs_write|].
      eapply rtc_l; [apply rs_publish|]. eapply rtc_l; [apply rs_poll|].
      eapply rtc_l; [apply (rs_load _ _ _ _ 9)|]. eapply rtc_l; [by apply rs_write|]. apply rtc_refl.
    - reflexivity. }
  destruct Hrun as (s & Hrun & Hq). exists s. split; [exact Hrun|]. split; [exact Hq|].
  destruct (polled_mailbox_is_exact s Hrun) as (pending & Ha & Hl & _). exists pending. exact (conj Ha Hl).
Defined.
