(* ===== verification/PalCond.v ===== *)
(** * Condition variables over a counting semaphore (src/core/pal_freertos.cpp,
      src/core/pal_rtthread.cpp: the SemOps and CondOps families)

    Neither kernel has condition variables.  Both layers build them from a
    counting semaphore and a count of waiters: [cond_wait] counts itself,
    releases the mutex, takes a token, uncounts itself and takes the mutex again;
    a signal gives one token, a broadcast one per counted waiter.  [cond_step]
    interleaves any number of waiters in the loop every caller must use with one
    thread that sets the predicate under the mutex and broadcasts after it, and
    with stray signals from anywhere. *)

From S2P Require Import Prelude Kernel.
Local Open Scope Z_scope.

(** ** The operations *)

Definition kMaxCountingSemaphore : nat := Z.to_nat 65535.

Section ops.
Context {K : Type} `{!SemKernel K}.

(** [sem_init]: a counting semaphore even for 0 and 1, its count clamped. *)
Definition sem_init (initial : nat) : K :=
  sem_create kMaxCountingSemaphore (if (kMaxCountingSemaphore <? initial)%nat then kMaxCountingSemaphore else initial).

(** [sem_take] at the moment it does not block, and [sem_release]; a null handle is refused. *)
Definition sem_take (h : option K) : bool * option K :=
  match h with None => (false, None) | Some s => let '(ok, s) := sem_poll s in (ok, Some s) end.
Definition sem_release (h : option K) : option K := (fun s => (sem_give s).2) <$> h.

Record CondHandle := mkCond { cond_sem : option K; waiters : Z }.

Definition cond_init (created : bool) : bool * CondHandle :=
  (created, mkCond (if created then Some (sem_create kMaxCountingSemaphore 0) else None) 0).

(** The accesses of [cond_wait] to its own handle: [waiters.fetch_add], the take
    that ends its wait, [waiters.fetch_sub]. *)
Definition cond_count (c : CondHandle) : CondHandle := mkCond (cond_sem c) (wrap 32 (waiters c + 1)).
Definition cond_take (c : CondHandle) : bool * CondHandle :=
  let '(ok, s) := sem_take (cond_sem c) in (ok, mkCond s (waiters c)).
Definition cond_uncount (c : CondHandle) : CondHandle := mkCond (cond_sem c) (wrap 32 (waiters c - 1)).

Definition cond_signal (c : CondHandle) : CondHandle := mkCond (sem_release (cond_sem c)) (waiters c).

Fixpoint cond_give (n : nat) (c : CondHandle) : CondHandle :=
  match n with O => c | S n => cond_give n (cond_signal c) end.

Definition cond_broadcast (c : CondHandle) : CondHandle :=
  match cond_sem c with None => c | Some _ => cond_give (Z.to_nat (waiters c)) c end.

Definition cond_deinit (c : CondHandle) : CondHandle := mkCond None (waiters c).

(** ** The interleavings *)

(** A waiter: before its lock; testing the predicate under the mutex; in
    [cond_wait], before the count, before the release of the mutex, blocked on
    the semaphore, before the uncount, before the second lock; returned. *)
Inductive wait_pc := WStart | WHeld | WCalled | WCounted | WBlocked | WWoken | WRelock | WDone.
#[export] Instance wait_pc_eq_dec : EqDecision wait_pc.
Proof. solve_decision. Defined.

(** The thread that makes the predicate true: before its lock; holding the mutex;
    with the predicate set; past the unlock; with so many tokens left to give;
    done. *)
Inductive sig_pc := SStart | SHeld | SSet | SUnlocked | SGiving (left : nat) | SDone.

Record cond_sys := mkCondSys {
  cond : CondHandle;
  locked : bool;
  pred : bool;
  ws : list wait_pc;
  sig : sig_pc
}.

(** Waiter [k]. *)
Inductive waiter_step (k : nat) : cond_sys -> cond_sys -> Prop :=
| w_lock c p l g pc : l !! k = Some pc -> pc = WStart \/ pc = WRelock ->
    waiter_step k (mkCondSys c false p l g) (mkCondSys c true p (<[k := WHeld]> l) g)
| w_leave c l g : l !! k = Some WHeld ->
    waiter_step k (mkCondSys c true true l g) (mkCondSys c false true (<[k := WDone]> l) g)
| w_call c l g : l !! k = Some WHeld ->
    waiter_step k (mkCondSys c true false l g) (mkCondSys c true false (<[k := WCalled]> l) g)
| w_count c p l g : l !! k = Some WCalled ->
    waiter_step k (mkCondSys c true p l g) (mkCondSys (cond_count c) true p (<[k := WCounted]> l) g)
| w_release c p l g : l !! k = Some WCounted ->
    waiter_step k (mkCondSys c true p l g) (mkCondSys c false p (<[k := WBlocked]> l) g)
| w_take c c' m p l g : l !! k = Some WBlocked -> cond_take c = (true, c') ->
    waiter_step k (mkCondSys c m p l g) (mkCondSys c' m p (<[k := WWoken]> l) g)
| w_timeout c m p l g : l !! k = Some WBlocked ->
    waiter_step k (mkCondSys c m p l g) (mkCondSys c m p (<[k := WWoken]> l) g)
| w_uncount c m p l g : l !! k = Some WWoken ->
    waiter_step k (mkCondSys c m p l g) (mkCondSys (cond_uncount c) m p (<[k := WRelock]> l) g).

Inductive cond_step : cond_sys -> cond_sys -> Prop :=
| c_waiter k s s' : waiter_step k s s' -> cond_step s s'
| c_stray c m p l g : cond_step (mkCondSys c m p l g) (mkCondSys (cond_signal c) m p l g)
| c_lock c p l : cond_step (mkCondSys c false p l SStart) (mkCondSys c true p l SHeld)
| c_set c p l : cond_step (mkCondSys c true p l SHeld) (mkCondSys c true true l SSet)
| c_unlock c p l : cond_step (mkCondSys c true p l SSet) (mkCondSys c false p l SUnlocked)
| c_load c m p l : cond_step (mkCondSys c m p l SUnlocked) (mkCondSys c m p l (SGiving (Z.to_nat (waiters c))))
| c_give c m p l n : cond_step (mkCondSys c m p l (SGiving (S n))) (mkCondSys (cond_signal c) m p l (SGiving n))
| c_end c m p l : cond_step (mkCondSys c m p l (SGiving 0)) (mkCondSys c m p l SDone).

Definition cond_start (n : nat) : cond_sys :=
  mkCondSys (cond_init true).2 false false (replicate n WStart) SStart.
End ops.
Arguments CondHandle : clear implicits.
Arguments cond_sys : clear implicits.

(** * A broadcast wakes every waiter

    About [PalCond]: the invariant that relates the count of waiters, the tokens
    and the program points of the threads, and what follows once the broadcasting
    thread is done. *)

(** The classes of program points: holding the mutex; counted in [waiters];
    between a false test and the release; blocked; not yet returned. *)
Definition holds (pc : wait_pc) : bool := match pc with WHeld | WCalled | WCounted => true | _ => false end.
Definition counted (pc : wait_pc) : bool := match pc with WCounted | WBlocked | WWoken => true | _ => false end.
Definition calling (pc : wait_pc) : bool := match pc with WCalled | WCounted => true | _ => false end.
Definition blocked (pc : wait_pc) : bool := match pc with WBlocked => true | _ => false end.

Definition away (pc : wait_pc) : bool := match pc with WDone => false | _ => true end.

Definition sig_holds (g : sig_pc) : nat := match g with SHeld | SSet => 1 | _ => 0 end.
Definition sig_set (g : sig_pc) : bool := match g with SStart | SHeld => false | _ => true end.
Definition sig_owed (g : sig_pc) : option nat :=
  match g with SGiving n => Some n | SDone => Some 0%nat | _ => None end.

Ltac count_all Hk pc :=
  pose proof (countb_insert holds _ _ _ pc Hk) as Hn1;
  pose proof (countb_insert counted _ _ _ pc Hk) as Hn2;
  pose proof (countb_insert calling _ _ _ pc Hk) as Hn3;
  pose proof (countb_insert blocked _ _ _ pc Hk) as Hn4;
  cbn in Hn1, Hn2, Hn3, Hn4.

(** The parts of the invariant that counting alone settles, and the tokens when
    the semaphore is untouched. *)
Ltac keep_counts :=
  split; cbn -[wrap]; rewrite ?length_insert; try done; try lia;
    try match goal with Hc : _ -> countb calling _ = _ |- _ -> _ =>
      let H := fresh in intros H; specialize (Hc H); lia end.
Ltac keep_tokens w Ht :=
  exists w; do 2 (split; [done|]); let o := fresh "o" in let Ho := fresh "Ho" in
  intros o Ho; specialize (Ht o Ho); lia.

Section spec.
Context {K : Type} `{HK : SemLaws K}.

Record cond_inv (s : cond_sys K) : Prop := {
  ci_size : (length (ws s) <= kMaxCountingSemaphore)%nat;
  ci_mutex : (countb holds (ws s) + sig_holds (sig s) = if locked s then 1 else 0)%nat;
  ci_waiters : waiters (cond s) = Z.of_nat (countb counted (ws s));
  ci_pred : pred s = sig_set (sig s);
  ci_calling : pred s = true -> countb calling (ws s) = 0%nat;
  ci_tokens : exists w, cond_sem (cond s) = Some w /\ sem_max w = kMaxCountingSemaphore /\
    forall owed, sig_owed (sig s) = Some owed -> (countb blocked (ws s) <= sem_count w + owed)%nat
}.

Lemma cond_inv_start (n : nat) : (n <= kMaxCountingSemaphore)%nat -> cond_inv (cond_start n).
Proof.
  intros Hn. assert (Hz : forall p, p WStart = false -> countb p (replicate n WStart) = 0%nat).
  { intros p Hp. clear Hn. induction n; cbn; [done|]. by rewrite Hp. }
  destruct (sem_create_spec (K := K) kMaxCountingSemaphore 0 ltac:(lia)) as [Hm Hc].
  split; unfold cond_start, cond_init; cbn [cond locked pred ws sig snd waiters cond_sem];
    rewrite ?length_replicate, ?Hz by done; try done.
  eexists. split; [done|]. split; [done|]. cbn. done.
Qed.

(** A give keeps enough tokens for the blocked: it counts one more, or the
    semaphore is full and no more threads exist. *)
Lemma signal_tokens (w : K) (b n owed : nat) :
  sem_max w = kMaxCountingSemaphore -> (b <= n <= kMaxCountingSemaphore)%nat -> (b <= sem_count w + S owed)%nat ->
  exists w', (sem_give w).2 = w' /\ sem_max w' = kMaxCountingSemaphore /\
    (sem_count w <= sem_count w')%nat /\ (b <= sem_count w' + owed)%nat.
Proof.
  intros Hm Hb Ho. destruct (sem_give w) as [ok w'] eqn:E. exists w'. split; [done|].
  apply sem_give_spec in E as (Hm' & [(_ & ? & ?)|(_ & ? & ?)]); repeat split; try congruence; lia.
Qed.

Lemma cond_inv_waiter (k : nat) (s s' : cond_sys K) : cond_inv s -> waiter_step k s s' -> cond_inv s'.
Proof.
  intros [Hl Hm Hw Hp Hc (w & Hs & Hmax & Ht)] Hst.
  assert (Hb32 : forall l, (length l <= kMaxCountingSemaphore)%nat -> (countb counted l < Z.to_nat (2 ^ 32))%nat).
  { intros l Hll. pose proof (countb_le counted l). unfold kMaxCountingSemaphore in *. lia. }
  destruct Hst as [c p l g pc Hk Hpc|c l g Hk|c l g Hk|c p l g Hk|c p l g Hk|c c' m p l g Hk Hg|c m p l g Hk|c m p l g Hk];
    cbn [cond locked pred ws sig] in *.
  - destruct Hpc as [-> | ->]; count_all Hk WHeld; keep_counts; keep_tokens w Ht.
  - count_all Hk WDone. keep_counts. keep_tokens w Ht.
  - count_all Hk WCalled. keep_counts. keep_tokens w Ht.
  - count_all Hk WCounted. keep_counts; [|keep_tokens w Ht].
    pose proof (Hb32 (<[k := WCounted]> l) ltac:(by rewrite length_insert)).
    rewrite wrap_small by (unfold in_u; lia). lia.
  - count_all Hk WBlocked. keep_counts.
    exists w. do 2 (split; [done|]). intros o Ho. specialize (Ht o Ho).
    assert (p = true) as Hpt by (rewrite Hp; by destruct g). specialize (Hc Hpt). lia.
  - count_all Hk WWoken. unfold cond_take, sem_take in Hg. rewrite Hs in Hg.
    destruct (sem_poll w) as [ok w'] eqn:E. simplify_eq.
    apply sem_poll_spec in E as (Hm' & [[_ Hc']|[? _]]); [|done].
    keep_counts. exists w'. split; [done|]. split; [congruence|]. intros o Ho. specialize (Ht o Ho). lia.
  - count_all Hk WWoken. keep_counts. keep_tokens w Ht.
  - count_all Hk WRelock. keep_counts; [|keep_tokens w Ht].
    pose proof (Hb32 l Hl). rewrite wrap_small by (unfold in_u; lia). lia.
Qed.

Lemma cond_inv_step (s s' : cond_sys K) : cond_inv s -> cond_step s s' -> cond_inv s'.
Proof.
  intros Hi Hst. destruct Hst as [k s s' Hst|c m p l g|c p l|c p l|c p l|c m p l|c m p l n|c m p l];
    [by eapply cond_inv_waiter| | | | | | |];
    destruct Hi as [Hl Hm Hw Hp Hc (w & Hs & Hmax & Ht)]; cbn [cond locked pred ws sig] in *.
  - split; cbn; try done. rewrite Hs; cbn. pose proof (countb_le blocked l).
    destruct (signal_tokens w 0 0 0 Hmax ltac:(lia) ltac:(lia)) as (w' & -> & Hm' & Hle & _).
    exists w'. do 2 (split; [done|]). intros o Ho. specialize (Ht o Ho). lia.
  - split; cbn in *; try done; try lia. by exists w.
  - split; cbn in *; try done; try lia.
    + intros _. assert (Hle : (countb calling l <= countb holds l)%nat); [|lia].
      clear. induction l as [|[] l IH]; cbn; lia.
    + exists w. by do 2 (split; [done|]).
  - split; cbn in *; try done; try lia. by exists w.
  - split; cbn in *; try done. exists w. do 2 (split; [done|]). intros o [= <-].
    rewrite Hw, Nat2Z.id. assert (Hle : (countb blocked l <= countb counted l)%nat); [|lia].
    clear. induction l as [|[] l IH]; cbn; lia.
  - split; cbn in *; try done. rewrite Hs; cbn. pose proof (countb_le blocked l). specialize (Ht _ eq_refl).
    destruct (signal_tokens w (countb blocked l) (length l) n Hmax ltac:(lia) Ht) as (w' & -> & Hm' & _ & Hb).
    exists w'. do 2 (split; [done|]). by intros o [= <-].
  - split; cbn in *; try done. exists w. do 2 (split; [done|]). intros o [= <-]. by apply Ht.
Qed.
End spec.

(** How many steps a waiter still has before it returns, once the predicate holds. *)
Definition weight (pc : wait_pc) : nat :=
  match pc with WCalled => 6 | WCounted => 5 | WBlocked => 4 | WWoken => 3 | WRelock | WStart => 2 | WHeld => 1 | WDone => 0 end.
Definition work (l : list wait_pc) : nat := sum_list_with weight l.

Lemma work_insert (l : list wait_pc) (k : nat) (pc pc' : wait_pc) :
  l !! k = Some pc -> (work (<[k := pc']> l) + weight pc = work l + weight pc')%nat.
Proof.
  unfold work. revert k. induction l as [|x l IH]; intros [|k] Hk; simplify_eq/=; try done; [lia|].
  specialize (IH k Hk). lia.
Qed.

Lemma countb_pos {A} (p : A -> bool) (l : list A) :
  (0 < countb p l)%nat -> exists k x, l !! k = Some x /\ p x = true.
Proof.
  induction l as [|x l IH]; cbn; [lia|]. destruct (p x) eqn:Hx; intros Hc; [by exists 0%nat, x|].
  destruct (IH Hc) as (k & y & Hk & Hy). by exists (S k), y.
Qed.

(** C12: A broadcast wakes every waiter.  For up to 65535 threads in the waiting
    loop, with timeouts, stray signals and any interleaving at the atomic accesses
    and kernel calls, once the thread that made the predicate true has finished
    its [cond_broadcast]: the take of every blocked waiter finds a token, some
    waiter can move unless all have returned, and every further move of a waiter
    brings the returns closer; so all of them return, without any timeout, and
    none is left asleep by a race between its test and the broadcast. *)
Theorem broadcast_wakes_every_waiter {K} `{HK : SemLaws K} (n : nat) (s : cond_sys K) :
  (n <= kMaxCountingSemaphore)%nat -> rtc cond_step (cond_start n) s -> sig s = SDone ->
  (forall k, ws s !! k = Some WBlocked -> (cond_take (cond s)).1 = true) /\
  ((forall k pc, ws s !! k = Some pc -> pc = WDone) \/ exists k s', waiter_step k s s') /\
  (forall k s', waiter_step k s s' -> sig s' = SDone /\ (work (ws s') < work (ws s))%nat).
Proof.
  intros Hn Hrun Hd. assert (Hi : cond_inv s).
  { eapply (rtc_invariant cond_step cond_inv); [intros ??; apply cond_inv_step| |exact Hrun]. by apply cond_inv_start. }
  destruct s as [c m p l g]; cbn in Hd; subst g.
  destruct Hi as [Hl Hm Hw Hp Hc (w & Hs & Hmax & Ht)]; cbn [cond locked pred ws sig sig_set sig_holds] in *.
  subst p. specialize (Hc eq_refl). specialize (Ht 0%nat eq_refl).
  assert (Htake : forall k, l !! k = Some WBlocked -> exists c', cond_take c = (true, c')).
  { intros k Hk. pose proof (countb_insert blocked l k _ WWoken Hk) as Hb. cbn in Hb.
    destruct (sem_poll_token w ltac:(lia)) as (w' & Hg & _). eexists. unfold cond_take, sem_take. by rewrite Hs, Hg. }
  split; [intros k Hk; by destruct (Htake k Hk) as [c' ->]|]. split.
  - destruct m.
    + right. destruct (countb_pos holds l ltac:(lia)) as (k & pc & Hk & Hh). exists k.
      destruct pc; try done; eexists; [by apply w_leave|by apply w_count|by apply w_release].
    + destruct (decide (countb away l = 0%nat)) as [Hz|Hz].
      * left. intros k pc Hk. pose proof (countb_insert away l k _ WDone Hk) as Hb.
        cbn in Hb. destruct pc; cbn in Hb; lia || done.
      * right. destruct (countb_pos away l ltac:(lia)) as (k & pc & Hk & Hh). exists k.
        destruct pc; try done;
          try (pose proof (countb_insert calling l k _ WDone Hk) as Hb; cbn in Hb; lia);
          try (pose proof (countb_insert holds l k _ WDone Hk) as Hb; cbn in Hb; lia).
        -- eexists. by eapply w_lock; [|left].
        -- destruct (Htake k Hk) as [c' Hg]. eexists. by eapply w_take.
        -- eexists. by apply w_uncount.
        -- eexists. by eapply w_lock; [|right].
  - intros k s' Hst. inversion Hst; subst; cbn [ws sig]; (split; [done|]);
      match goal with |- context [<[k := ?pc]> _] =>
        pose proof (work_insert l k _ pc ltac:(eassumption)) as Hx end; cbn [weight] in Hx; try lia.
    match goal with Hpc : _ \/ _ |- _ => destruct Hpc; subst; cbn in Hx; lia end.
Qed.

(** One waiter asleep when the broadcast comes, a second one not yet there. *)
Lemma broadcast_wakes_every_waiter_witness :
  exists s : cond_sys StaticSemaphore_t, rtc cond_step (cond_start 2) s /\ sig s = SDone /\
    ws s = [WBlocked; WStart] /\ (cond_take (cond s)).1 = true.
Proof.
  assert (Hrun : exists s : cond_sys StaticSemaphore_t, rtc cond_step (cond_start 2) s /\ sig s = SDone /\ ws s = [WBlocked; WStart]).
  { eexists. split.
    - eapply rtc_l; [eapply (c_waiter 0); by eapply w_lock; [|left]|].
      eapply rtc_l; [eapply (c_waiter 0); by apply w_call|].
      eapply rtc_l; [eapply (c_waiter 0); by apply w_count|].
      eapply rtc_l; [eapply (c_waiter 0); by apply w_release|].
      eapply rtc_l; [apply c_lock|]. eapply rtc_l; [apply c_set|]. eapply rtc_l; [apply c_unlock|].
      eapply rtc_l; [apply c_load|]. eapply rtc_l; [apply c_give|]. eapply rtc_l; [apply c_end|]. apply rtc_refl.
    - split; reflexivity. }
  destruct Hrun as (s & Hrun & Hd & Hl). exists s. split; [exact Hrun|]. split; [exact Hd|]. split; [exact Hl|].
  refine (proj1 (broadcast_wakes_every_waiter 2 s _ Hrun Hd) 0%nat _); [unfold kMaxCountingSemaphore; lia|by rewrite Hl].
Defined.

(** The clamp of [sem_init] and the three-token promise of its comment. *)
Lemma three_releases_three_takes {K} `{HK : SemLaws K} :
  let s := sem_release (sem_release (sem_release (Some (sem_init (K := K) 0)))) in
  let '(a, s) := sem_take s in let '(b, s) := sem_take s in let '(c, s) := sem_take s in
  let '(d, _) := sem_take s in (a, b, c, d) = (true, true, true, false).
Proof.
  unfold sem_init. change (if (kMaxCountingSemaphore <? 0)%nat then kMaxCountingSemaphore else 0%nat) with 0%nat.
  assert (Hk : (3 < kMaxCountingSemaphore)%nat) by (unfold kMaxCountingSemaphore; lia).
  destruct (sem_create_spec (K := K) kMaxCountingSemaphore 0 ltac:(lia)) as [Hm Hc].
  cbn [sem_release fmap option_fmap option_map].
  do 3 (match goal with |- context [sem_give ?w] =>
    destruct (sem_give_room w ltac:(lia)) as (? & -> & ? & ?); cbn [snd] end).
  unfold sem_take.
  do 3 (match goal with |- context [sem_poll ?w] =>
    destruct (sem_poll_token w ltac:(lia)) as (? & -> & ? & ?) end).
  match goal with |- context [sem_poll ?w] => destruct (sem_poll w) as [ok w'] eqn:E end.
  apply sem_poll_spec in E as (_ & [[_ ?]|[-> _]]); [lia|done].
Qed.
