(* ===== verification/PalWorkers.v ===== *)
(** * Resident workers (src/core/pal_freertos.cpp, src/core/pal_rtthread.cpp: the
      ThreadOps family)

    On FreeRTOS a fixed set of tasks waits for work for ever: [thread_create]
    claims a slot under the interrupt mask and gives its binary start semaphore,
    the worker runs the entry and gives the join semaphore, [thread_join] takes it
    and frees the slot.  [work_step] interleaves any number of creating and
    joining clients with the workers.  RT-Thread starts a new static thread per
    slot instead; its calls are modelled one by one.  The pair of entry and
    context a call hands over is represented by the ticket of that call. *)

From S2P Require Import Prelude Kernel.
Local Open Scope Z_scope.

(** ** FreeRTOS *)

Section freertos.
Context {K : Type} `{!SemKernel K}.

(** The worker task: waiting for its start token; past it; holding the entry it
    read; past the entry. *)
Inductive worker_pc := WWait | WTaken | WRun (entry : option nat) | WGive.

Record WorkerSlot := mkWSlot { busy : bool; entry : option nat; start : K; join : K; worker : worker_pc }.

(** A client's [ThreadHandle]: not valid; between the claim and the give of the
    start token; valid; between the take of the join token and the clearing. *)
Inductive ThreadHandle := HIdle | HClaimed (slot_idx ticket : nat) | HLive (slot_idx ticket : nat) | HJoined (slot_idx ticket : nat).

(** The critical section of [thread_create]. *)
Definition claim_slot (ticket : nat) (ws : list WorkerSlot) : option nat * list WorkerSlot :=
  match find_idx (fun s => negb (busy s)) ws with
  | Some i => (Some i, alter (fun s => mkWSlot true (Some ticket) (start s) (join s) (worker s)) i ws)
  | None => (None, ws)
  end.

(** The critical section of [thread_join]. *)
Definition free_slot (s : WorkerSlot) : WorkerSlot := mkWSlot false None (start s) (join s) (worker s).

Definition give_start (s : WorkerSlot) : WorkerSlot := mkWSlot (busy s) (entry s) (sem_give (start s)).2 (join s) (worker s).
Definition give_join (s : WorkerSlot) : WorkerSlot := mkWSlot (busy s) (entry s) (start s) (sem_give (join s)).2 WWait.
Definition set_start (k : K) (s : WorkerSlot) : WorkerSlot := mkWSlot (busy s) (entry s) k (join s) WTaken.
Definition set_join (k : K) (s : WorkerSlot) : WorkerSlot := mkWSlot (busy s) (entry s) (start s) k (worker s).
Definition set_worker (pc : worker_pc) (s : WorkerSlot) : WorkerSlot := mkWSlot (busy s) (entry s) (start s) (join s) pc.

Record work_sys := mkWork {
  slots : list WorkerSlot;
  handles : list ThreadHandle;
  next : nat;              (* tickets given out *)
  ran : list nat;          (* tickets whose entry has run *)
  joined : list nat        (* tickets whose join has returned *)
}.

Definition run_entry (e : option nat) (ran : list nat) : list nat :=
  match e with Some t => ran ++ [t] | None => ran end.

Inductive work_step : work_sys -> work_sys -> Prop :=
| wk_claim ws ws' hs n r d h i :
    hs !! h = Some HIdle -> claim_slot n ws = (Some i, ws') ->
    work_step (mkWork ws hs n r d) (mkWork ws' (<[h := HClaimed i n]> hs) (S n) r d)
| wk_start ws hs n r d h i t s :
    hs !! h = Some (HClaimed i t) -> ws !! i = Some s ->
    work_step (mkWork ws hs n r d) (mkWork (<[i := give_start s]> ws) (<[h := HLive i t]> hs) n r d)
| wk_take ws hs n r d i s k :
    ws !! i = Some s -> worker s = WWait -> sem_poll (start s) = (true, k) ->
    work_step (mkWork ws hs n r d) (mkWork (<[i := set_start k s]> ws) hs n r d)
| wk_read ws hs n r d i s :
    ws !! i = Some s -> worker s = WTaken ->
    work_step (mkWork ws hs n r d) (mkWork (<[i := set_worker (WRun (entry s)) s]> ws) hs n r d)
| wk_run ws hs n r d i s e :
    ws !! i = Some s -> worker s = WRun e ->
    work_step (mkWork ws hs n r d) (mkWork (<[i := set_worker WGive s]> ws) hs n (run_entry e r) d)
| wk_give ws hs n r d i s :
    ws !! i = Some s -> worker s = WGive ->
    work_step (mkWork ws hs n r d) (mkWork (<[i := give_join s]> ws) hs n r d)
| wk_join ws hs n r d h i t s k :
    hs !! h = Some (HLive i t) -> ws !! i = Some s -> sem_poll (join s) = (true, k) ->
    work_step (mkWork ws hs n r d) (mkWork (<[i := set_join k s]> ws) (<[h := HJoined i t]> hs) n r d)
| wk_free ws hs n r d h i t s :
    hs !! h = Some (HJoined i t) -> ws !! i = Some s ->
    work_step (mkWork ws hs n r d) (mkWork (<[i := free_slot s]> ws) (<[h := HIdle]> hs) n r (d ++ [t])).

(** [initialize] leaves every worker waiting. *)
Definition fresh_slot : WorkerSlot := mkWSlot false None (sem_create 1 0) (sem_create 1 0) WWait.
Definition work_start (workers clients : nat) : work_sys :=
  mkWork (replicate workers fresh_slot) (replicate clients HIdle) 0 [] [].
End freertos.
Arguments WorkerSlot : clear implicits.
Arguments work_sys : clear implicits.

(** ** RT-Thread *)

Record WorkerThreadSlot := mkRtSlot { in_use : bool; user_ctx : option nat; sem_live : bool }.

(** The handle of client [h]; [rt_entry] is the ticket the trampoline reads through
    the slot's [user_ctx], which names the client. *)
Record RtThreadHandle := mkRtHandle { rt_entry : option nat; slot_idx : nat; valid : bool }.

(** [thread_create] for the handle [t] of client [h]: [sem_ok], [init_ok] and
    [startup_ok] are the answers of [rt_sem_init], [rt_thread_init] and
    [rt_thread_startup], [used] is [worker_slot_used]. *)
Definition rt_thread_create (sem_ok init_ok startup_ok : bool) (h ticket : nat) (t : RtThreadHandle)
    (ws : list WorkerThreadSlot) (used : nat) : bool * RtThreadHandle * list WorkerThreadSlot * nat :=
  match find_idx (fun s => negb (in_use s)) ws with
  | None => (false, t, ws, used)
  | Some i =>
      let used := if (used <=? i)%nat then S i else used in
      let t := mkRtHandle (Some ticket) i false in
      if negb sem_ok || negb init_ok || negb startup_ok then (false, t, <[i := mkRtSlot false None false]> ws, used)
      else (true, mkRtHandle (Some ticket) i true, <[i := mkRtSlot true (Some h) true]> ws, used)
  end.

(** [thread_join], its wait over. *)
Definition rt_thread_join (t : RtThreadHandle) (ws : list WorkerThreadSlot) : RtThreadHandle * list WorkerThreadSlot :=
  if negb (valid t) then (t, ws)
  else (mkRtHandle (rt_entry t) (slot_idx t) false, alter (fun s => mkRtSlot false (user_ctx s) false) (slot_idx t) ws).

(** * Work handed over runs exactly once

    About [PalWorkers]: [phase] says, for each program point of a handle, what its
    slot looks like; every reachable state of the hand-over protocol keeps each
    busy slot in a phase of exactly one handle. *)

Local Open Scope nat_scope.

Section spec.
Context {K : Type} `{HK : SemLaws K}.

(** The slot and the ticket of a handle that is not idle. *)
Definition holds (h : ThreadHandle) : option (nat * nat) :=
  match h with HIdle => None | HClaimed i t | HLive i t | HJoined i t => Some (i, t) end.

Definition binary (s : WorkerSlot K) (st jn : nat) : Prop :=
  sem_max (start s) = 1 /\ sem_max (join s) = 1 /\ sem_count (start s) = st /\ sem_count (join s) = jn.

Definition phase (h : ThreadHandle) (s : WorkerSlot K) (ran : list nat) : Prop :=
  match h with
  | HIdle => True
  | HClaimed _ t => binary s 0 0 /\ worker s = WWait /\ entry s = Some t /\ t ∉ ran
  | HLive _ t =>
      binary s 1 0 /\ worker s = WWait /\ entry s = Some t /\ t ∉ ran \/
      binary s 0 0 /\ worker s = WTaken /\ entry s = Some t /\ t ∉ ran \/
      binary s 0 0 /\ worker s = WRun (Some t) /\ t ∉ ran \/
      binary s 0 0 /\ worker s = WGive /\ t ∈ ran \/
      binary s 0 1 /\ worker s = WWait /\ t ∈ ran
  | HJoined _ t => binary s 0 0 /\ worker s = WWait /\ t ∈ ran
  end.

Record work_inv (w : work_sys K) : Prop := {
  wi_owner : forall h pc i t, handles w !! h = Some pc -> holds pc = Some (i, t) ->
    t < next w /\ exists s, slots w !! i = Some s /\ busy s = true /\ phase pc s (ran w);
  wi_unique : forall h h' pc pc' i t t', handles w !! h = Some pc -> handles w !! h' = Some pc' ->
    holds pc = Some (i, t) -> holds pc' = Some (i, t') -> h = h';
  wi_tickets : forall h h' pc pc' i i' t, handles w !! h = Some pc -> handles w !! h' = Some pc' ->
    holds pc = Some (i, t) -> holds pc' = Some (i', t) -> h = h';
  wi_busy : forall i s, slots w !! i = Some s -> busy s = true -> exists h pc t, handles w !! h = Some pc /\ holds pc = Some (i, t);
  wi_idle : forall i s, slots w !! i = Some s -> busy s = false -> binary s 0 0 /\ worker s = WWait;
  wi_ran : NoDup (ran w) /\ Forall (fun t => t < next w) (ran w);
  wi_joined : Forall (fun t => t ∈ ran w) (joined w)
}.

Lemma work_inv_start (workers clients : nat) : work_inv (work_start workers clients).
Proof.
  destruct (sem_create_spec (K := K) 1 0 ltac:(lia)) as [Hm Hc].
  assert (Hh : forall h pc, replicate clients HIdle !! h = Some pc -> pc = HIdle)
    by (intros h pc Hh; by apply lookup_replicate in Hh as [-> _]).
  split; cbn.
  - intros h pc i t Hl Hs. rewrite (Hh _ _ Hl) in Hs. done.
  - intros h h' pc pc' i t t' Hl _ Hs. rewrite (Hh _ _ Hl) in Hs. done.
  - intros h h' pc pc' i i' t Hl _ Hs. rewrite (Hh _ _ Hl) in Hs. done.
  - intros i s [-> _]%lookup_replicate. done.
  - intros i s [-> _]%lookup_replicate _. done.
  - split; constructor.
  - constructor.
Qed.

(** A busy slot that changes under its owner, who may move too, while the log of
    runs grows by at most the owner's own ticket. *)
Lemma owner_moves (w : work_sys K) (h i t : nat) (pc pc' : ThreadHandle) (s s' : WorkerSlot K) (r' d' : list nat) :
  work_inv w -> handles w !! h = Some pc -> holds pc = Some (i, t) -> holds pc' = Some (i, t) ->
  slots w !! i = Some s -> busy s' = true -> phase pc' s' r' ->
  r' = ran w \/ r' = ran w ++ [t] /\ t ∉ ran w -> d' = joined w ->
  work_inv (mkWork (<[i := s']> (slots w)) (<[h := pc']> (handles w)) (next w) r' d').
Proof.
  intros Hi Hh Hp Hp' Hs Hb Hph Hr ->. destruct (wi_owner _ Hi _ _ _ _ Hh Hp) as [Ht _].
  assert (Hlook : forall g q, <[h := pc']> (handles w) !! g = Some q ->
            exists q0, handles w !! g = Some q0 /\ holds q0 = holds q /\ (g <> h -> q0 = q) /\ (g = h -> q = pc')).
  { intros g q [[-> ->]|[Hne Hg]]%lookup_insert_cases; [exists pc; by rewrite Hp, Hp'|by exists q]. }
  split; cbn.
  - intros g q j u Hg Hq. destruct (Hlook _ _ Hg) as (q0 & Hg0 & Heq & Hsame & Hme). rewrite <- Heq in Hq.
    destruct (wi_owner _ Hi _ _ _ _ Hg0 Hq) as (Hu & s0 & Hs0 & Hb0 & Hph0). split; [done|].
    destruct (decide (g = h)) as [->|Hne].
    + rewrite (Hme eq_refl). simplify_eq. exists s'. rewrite list_lookup_insert_eq by (by eapply lookup_lt_Some). done.
    + assert (j <> i) by (intros ->; apply Hne; by eapply (wi_unique _ Hi)).
      assert (u <> t) by (intros ->; apply Hne; by eapply (wi_tickets _ Hi)).
      exists s0. rewrite list_lookup_insert_ne by done. split_and!; try done. rewrite <- (Hsame Hne).
      destruct Hr as [->|[-> _]]; [done|]. destruct q0; cbn in Hq; simplify_eq; cbn in *; set_solver.
  - intros g g' q q' j u u' Hg Hg' Hq Hq'. destruct (Hlook _ _ Hg) as (q0 & Hg0 & Heq & _), (Hlook _ _ Hg') as (q0' & Hg0' & Heq' & _).
    rewrite <- Heq in Hq. rewrite <- Heq' in Hq'. by eapply (wi_unique _ Hi).
  - intros g g' q q' j j' u Hg Hg' Hq Hq'. destruct (Hlook _ _ Hg) as (q0 & Hg0 & Heq & _), (Hlook _ _ Hg') as (q0' & Hg0' & Heq' & _).
    rewrite <- Heq in Hq. rewrite <- Heq' in Hq'. by eapply (wi_tickets _ Hi).
  - intros j s0 Hj Hb0. assert (Hown : exists g q u, handles w !! g = Some q /\ holds q = Some (j, u)).
    { apply lookup_insert_cases in Hj as [[-> ->]|[Hne Hj]]; [by exists h, pc, t|by apply (wi_busy _ Hi _ s0)]. }
    destruct Hown as (g & q & u & Hg & Hq). destruct (decide (g = h)) as [->|Hne].
    + exists h, pc', t. rewrite list_lookup_insert_eq by (by eapply lookup_lt_Some). split; [done|]. by simplify_eq.
    + exists g, q, u. by rewrite list_lookup_insert_ne by done.
  - intros j s0 [[-> ->]|[Hne Hj]]%lookup_insert_cases Hb0; [congruence|]. by apply (wi_idle _ Hi j).
  - destruct (wi_ran _ Hi) as [Hnd Hlt]. destruct Hr as [->|[-> Hni]]; [done|]. split.
    + apply NoDup_app. split; [done|]. split; [set_solver|apply NoDup_singleton].
    + apply Forall_app. by split; [|constructor].
  - eapply Forall_impl; [apply (wi_joined _ Hi)|]. destruct Hr as [->|[-> _]]; [done|]. cbn. intros u Hu. set_solver.
Qed.

Lemma slot_owner (w : work_sys K) (i : nat) (s : WorkerSlot K) :
  work_inv w -> slots w !! i = Some s -> ~ (binary s 0 0 /\ worker s = WWait) ->
  exists h pc t, handles w !! h = Some pc /\ holds pc = Some (i, t) /\ busy s = true /\ phase pc s (ran w).
Proof.
  intros Hi Hs Hn. destruct (busy s) eqn:Hb; [|by destruct Hn; apply (wi_idle _ Hi i)].
  destruct (wi_busy _ Hi _ _ Hs Hb) as (h & pc & t & Hh & Hp). exists h, pc, t.
  destruct (wi_owner _ Hi _ _ _ _ Hh Hp) as (_ & s0 & Hs0 & _ & Hph). by simplify_eq.
Qed.

(** A worker's own step: the handle stays where it is. *)
Lemma worker_moves (w : work_sys K) (h i t : nat) (pc : ThreadHandle) (s s' : WorkerSlot K) (r' : list nat) :
  work_inv w -> handles w !! h = Some pc -> holds pc = Some (i, t) -> slots w !! i = Some s ->
  busy s' = true -> phase pc s' r' -> r' = ran w \/ r' = ran w ++ [t] /\ t ∉ ran w ->
  work_inv (mkWork (<[i := s']> (slots w)) (handles w) (next w) r' (joined w)).
Proof.
  intros Hi Hh Hp Hs Hb Hph Hr. rewrite <- (list_insert_id (handles w) h pc Hh). by eapply owner_moves.
Qed.

(** The two, at a state given by its parts. *)
Lemma owner_moves_at ws hs n r d (h i t : nat) (pc pc' : ThreadHandle) (s s' : WorkerSlot K) :
  work_inv (mkWork ws hs n r d) -> hs !! h = Some pc -> holds pc = Some (i, t) -> holds pc' = Some (i, t) ->
  ws !! i = Some s -> busy s' = true -> phase pc' s' r ->
  work_inv (mkWork (<[i := s']> ws) (<[h := pc']> hs) n r d).
Proof. intros Hi Hh Hp Hp' Hs Hb Hph. by apply (owner_moves _ h i t pc pc' s s' r d Hi); [..|left|]. Qed.

Lemma worker_moves_at ws hs n r r' d (h i t : nat) (pc : ThreadHandle) (s s' : WorkerSlot K) :
  work_inv (mkWork ws hs n r d) -> hs !! h = Some pc -> holds pc = Some (i, t) -> ws !! i = Some s ->
  busy s' = true -> phase pc s' r' -> r' = r \/ r' = r ++ [t] /\ t ∉ r ->
  work_inv (mkWork (<[i := s']> ws) hs n r' d).
Proof. intros Hi Hh Hp Hs Hb Hph Hr. by apply (worker_moves _ h i t pc s s' r' Hi). Qed.

Lemma claim_slot_spec (ticket i : nat) (ws ws' : list (WorkerSlot K)) :
  claim_slot ticket ws = (Some i, ws') ->
  exists s, ws !! i = Some s /\ busy s = false /\
    ws' = <[i := mkWSlot true (Some ticket) (start s) (join s) (worker s)]> ws.
Proof.
  unfold claim_slot. destruct (find_idx _ ws) as [j|] eqn:Hf; [|done]. intros [= -> <-].
  apply find_idx_Some in Hf as (s & Hs & Hb%negb_true_iff & _). exists s. do 2 (split; [done|]).
  clear Hb. revert i Hs. induction ws as [|x ws IH]; intros [|i] Hs; simplify_eq/=; [done|]. f_equal. by apply IH.
Qed.

Lemma claim_inv (w : work_sys K) (h i : nat) (s : WorkerSlot K) :
  work_inv w -> handles w !! h = Some HIdle -> slots w !! i = Some s -> busy s = false ->
  work_inv (mkWork (<[i := mkWSlot true (Some (next w)) (start s) (join s) (worker s)]> (slots w))
              (<[h := HClaimed i (next w)]> (handles w)) (S (next w)) (ran w) (joined w)).
Proof.
  intros Hi Hh Hs Hb. destruct (wi_idle _ Hi _ _ Hs Hb) as [Hbin Hw]. destruct (wi_ran _ Hi) as [Hnd Hlt].
  assert (Hfresh : next w ∉ ran w) by (intros Hin; rewrite Forall_forall in Hlt; specialize (Hlt _ Hin); lia).
  assert (Hfree : forall g q t, handles w !! g = Some q -> holds q <> Some (i, t)).
  { intros g q t Hg Hq. destruct (wi_owner _ Hi _ _ _ _ Hg Hq) as (_ & s0 & ? & ? & _). simplify_eq. congruence. }
  assert (Hnew : forall g q j, handles w !! g = Some q -> holds q <> Some (j, next w)).
  { intros g q j Hg Hq. destruct (wi_owner _ Hi _ _ _ _ Hg Hq) as (? & _). lia. }
  split; cbn.
  - intros g q j t [[-> ->]|[Hne Hg]]%lookup_insert_cases Hq.
    + cbn in Hq. simplify_eq. split; [lia|]. eexists. rewrite list_lookup_insert_eq by (by eapply lookup_lt_Some).
      split; [done|]. cbn. done.
    + destruct (wi_owner _ Hi _ _ _ _ Hg Hq) as (Ht & s0 & Hs0 & Hb0 & Hp0). split; [lia|]. exists s0.
      rewrite list_lookup_insert_ne; [done|]. intros ->. by eapply Hfree.
  - intros g g' q q' j t t' [[-> ->]|[Hne Hg]]%lookup_insert_cases [[-> ->]|[Hne' Hg']]%lookup_insert_cases Hq Hq';
      cbn in *; simplify_eq; try done; [by edestruct Hfree|by edestruct Hfree|by eapply (wi_unique _ Hi)].
  - intros g g' q q' j j' t [[-> ->]|[Hne Hg]]%lookup_insert_cases [[-> ->]|[Hne' Hg']]%lookup_insert_cases Hq Hq';
      cbn in *; simplify_eq; try done; [by edestruct Hnew|by edestruct Hnew|by eapply (wi_tickets _ Hi)].
  - intros j s0 [[-> ->]|[Hne Hj]]%lookup_insert_cases Hb0.
    + exists h, (HClaimed i (next w)), (next w). by rewrite list_lookup_insert_eq by (by eapply lookup_lt_Some).
    + destruct (wi_busy _ Hi _ _ Hj Hb0) as (g & q & t & Hg & Hq). exists g, q, t.
      rewrite list_lookup_insert_ne; [done|]. intros ->. by simplify_eq.
  - intros j s0 [[-> ->]|[Hne Hj]]%lookup_insert_cases Hb0; [done|]. by apply (wi_idle _ Hi j).
  - split; [done|]. eapply Forall_impl; [exact Hlt|]. cbn. lia.
  - apply (wi_joined _ Hi).
Qed.

Lemma free_inv (w : work_sys K) (h i t : nat) (s : WorkerSlot K) :
  work_inv w -> handles w !! h = Some (HJoined i t) -> slots w !! i = Some s ->
  work_inv (mkWork (<[i := free_slot s]> (slots w)) (<[h := HIdle]> (handles w)) (next w) (ran w) (joined w ++ [t])).
Proof.
  intros Hi Hh Hs. destruct (wi_owner _ Hi _ _ _ _ Hh eq_refl) as (_ & s0 & Hs0 & _ & Hbin & Hw & Hran). simplify_eq.
  assert (Hother : forall g q j u, g <> h -> handles w !! g = Some q -> holds q = Some (j, u) -> j <> i).
  { intros g q j u Hne Hg Hq ->. apply Hne. by eapply (wi_unique _ Hi). }
  split; cbn.
  - intros g q j u [[-> ->]|[Hne Hg]]%lookup_insert_cases Hq; [done|].
    rewrite list_lookup_insert_ne by (apply not_eq_sym; by eapply Hother). by apply (wi_owner _ Hi g).
  - intros g g' q q' j u u' [[-> ->]|[Hne Hg]]%lookup_insert_cases [[-> ->]|[Hne' Hg']]%lookup_insert_cases Hq Hq'; try done.
    by eapply (wi_unique _ Hi).
  - intros g g' q q' j j' u [[-> ->]|[Hne Hg]]%lookup_insert_cases [[-> ->]|[Hne' Hg']]%lookup_insert_cases Hq Hq'; try done.
    by eapply (wi_tickets _ Hi).
  - intros j s0 [[-> ->]|[Hne Hj]]%lookup_insert_cases Hb0; [done|].
    destruct (wi_busy _ Hi _ _ Hj Hb0) as (g & q & u & Hg & Hq). exists g, q, u.
    rewrite list_lookup_insert_ne; [done|]. intros ->. simplify_eq. by cbn in Hq; simplify_eq.
  - intros j s0 [[-> ->]|[Hne Hj]]%lookup_insert_cases Hb0; [done|]. by apply (wi_idle _ Hi j).
  - apply (wi_ran _ Hi).
  - apply Forall_app. split; [apply (wi_joined _ Hi)|by constructor].
Qed.

Lemma count_poll (s : K) : sem_count s = 0 -> (sem_poll s).1 = true -> False.
Proof. intros Hc Hp. destruct (sem_poll s) as [ok k] eqn:E. apply sem_poll_spec in E as (_ & [[_ ?]|[-> _]]); [lia|done]. Qed.

Lemma work_inv_step (w w' : work_sys K) : work_inv w -> work_step w w' -> work_inv w'.
Proof.
  intros Hi Hst.
  destruct Hst as [ws ws' hs n r d h i Hh Hc|ws hs n r d h i t s Hh Hs|ws hs n r d i s k Hs Hw Hk|ws hs n r d i s Hs Hw
                  |ws hs n r d i s e Hs Hw|ws hs n r d i s Hs Hw|ws hs n r d h i t s k Hh Hs Hk|ws hs n r d h i t s Hh Hs].
  - apply claim_slot_spec in Hc as (s & Hs & Hb & ->). by apply (claim_inv _ h i s) in Hi.
  - destruct (wi_owner _ Hi _ _ _ _ Hh eq_refl) as (_ & s0 & Hs0 & Hb & Hbin & Hw & He & Hr); cbn in *. simplify_eq.
    destruct Hbin as (Hm1 & Hm2 & Hc1 & Hc2). destruct (sem_give_room (start s) ltac:(lia)) as (k & Hg & Hm & Hc).
    apply (owner_moves_at _ _ _ _ _ h i t _ _ s _ Hi Hh); try done.
    cbn. left. unfold binary, give_start. cbn. rewrite Hg. cbn. split_and!; try done; lia.
  - destruct (slot_owner _ _ _ Hi Hs) as (h & pc & t & Hh & Hp & Hb & Hph).
    { intros [(_ & _ & Hc & _) _]. apply (count_poll (start s) Hc). by rewrite Hk. }
    apply (worker_moves_at _ _ _ _ _ _ h i t pc s _ Hi Hh Hp Hs); [exact Hb| |by left].
    apply sem_poll_spec in Hk as (Hm & [[_ Hc]|[? _]]); [|done].
    destruct pc as [|i' t'|i' t'|i' t']; cbn in *; unfold binary in *; cbn in *; simplify_eq; intuition (congruence || lia).
  - destruct (slot_owner _ _ _ Hi Hs) as (h & pc & t & Hh & Hp & Hb & Hph); [by intros [_ ?]; congruence|].
    apply (worker_moves_at _ _ _ _ _ _ h i t pc s _ Hi Hh Hp Hs); [exact Hb| |by left].
    destruct pc as [|i' t'|i' t'|i' t']; cbn in *; simplify_eq; try (destruct Hph as (_ & ? & _); congruence).
    right. right. left. destruct Hph as [(_ & ? & _)|[(Hbin & _ & -> & Hr)|[(_ & ? & _)|[(_ & ? & _)|(_ & ? & _)]]]]; congruence || done.
  - destruct (slot_owner _ _ _ Hi Hs) as (h & pc & t & Hh & Hp & Hb & Hph); [by intros [_ ?]; congruence|].
    destruct pc as [|i' t'|i' t'|i' t']; cbn in *; simplify_eq; try (destruct Hph as (_ & ? & _); congruence).
    destruct Hph as [(_ & ? & _)|[(_ & ? & _)|[(Hbin & He & Hr)|[(_ & ? & _)|(_ & ? & _)]]]]; try congruence.
    assert (e = Some t) as -> by congruence. cbn.
    apply (worker_moves_at _ _ _ _ _ _ h i t (HLive i t) s _ Hi Hh eq_refl Hs); [exact Hb| |by right].
    cbn. do 3 right. left. split_and!; try done. set_solver.
  - destruct (slot_owner _ _ _ Hi Hs) as (h & pc & t & Hh & Hp & Hb & Hph); [by intros [_ ?]; congruence|].
    apply (worker_moves_at _ _ _ _ _ _ h i t pc s _ Hi Hh Hp Hs); [exact Hb| |by left].
    destruct pc as [|i' t'|i' t'|i' t']; cbn in *; simplify_eq; try (destruct Hph as (_ & ? & _); congruence).
    destruct Hph as [(_ & ? & _)|[(_ & ? & _)|[(_ & ? & _)|[((Hm1 & Hm2 & Hc1 & Hc2) & _ & Hr)|(_ & ? & _)]]]]; try congruence.
    destruct (sem_give_room (join s) ltac:(lia)) as (k & Hg & Hm & Hc).
    do 4 right. unfold binary, give_join; cbn. rewrite Hg. cbn. split_and!; try done; lia.
  - destruct (wi_owner _ Hi _ _ _ _ Hh eq_refl) as (_ & s0 & Hs0 & Hb & Hph); cbn in *. simplify_eq.
    apply (owner_moves_at _ _ _ _ _ h i t _ _ s _ Hi Hh); try done.
    assert (Hno : sem_count (join s) <> 0) by (intros Hc; apply (count_poll _ Hc); by rewrite Hk).
    apply sem_poll_spec in Hk as (Hm & [[_ Hc]|[? _]]); [|done].
    cbn. unfold binary in *; cbn in *.
    destruct Hph as [(? & _)|[(? & _)|[(? & _)|[(? & _)|((? & ? & ? & ?) & Hw & Hr)]]]]; try (exfalso; intuition congruence).
    split_and!; try done; lia.
  - by apply (free_inv _ h i t s) in Hi.
Qed.

(** A client waiting in its join: the token is there, or its worker can move. *)
Lemma join_progress (w : work_sys K) (h i t : nat) :
  work_inv w -> handles w !! h = Some (HLive i t) ->
  exists s, slots w !! i = Some s /\
    ((sem_poll (join s)).1 = true /\ t ∈ ran w \/ exists w', work_step w w' /\ handles w' = handles w).
Proof.
  intros Hi Hh. destruct (wi_owner _ Hi _ _ _ _ Hh eq_refl) as (_ & s & Hs & _ & Hph). exists s. split; [done|].
  destruct w as [ws hs n r d]; cbn in *.
  destruct Hph as [((_ & _ & Hc & _) & Hw & _)|[(_ & Hw & _)|[(_ & Hw & _)|[(_ & Hw & _)|((_ & _ & _ & Hc) & _ & Hr)]]]].
  - right. destruct (sem_poll_token (start s) ltac:(lia)) as (k & Hk & _). eexists. split; [by eapply wk_take|done].
  - right. eexists. split; [by eapply wk_read|done].
  - right. eexists. split; [by eapply wk_run|done].
  - right. eexists. split; [by eapply wk_give|done].
  - left. split; [|done]. by destruct (sem_poll_token (join s) ltac:(lia)) as (k & -> & _).
Qed.
End spec.

(** C13: Work handed over runs exactly once.  For any number of resident workers and
    of clients that create and join in any interleaving with them: no entry runs
    twice, none runs that was not handed over, and when a join returns its entry
    has run; no two handles ever own the same slot, whatever the race for it; a
    client inside [thread_join] finds its token or has a worker that can still
    move; and a create is refused only when every slot belongs to a handle. *)
Theorem work_runs_exactly_once {K} `{HK : SemLaws K} (workers clients : nat) (w : work_sys K) :
  rtc work_step (work_start workers clients) w ->
  NoDup (ran w) /\ Forall (fun t => t < next w) (ran w) /\ Forall (fun t => t ∈ ran w) (joined w) /\
  (forall h h' pc pc' i t t', handles w !! h = Some pc -> handles w !! h' = Some pc' ->
     holds pc = Some (i, t) -> holds pc' = Some (i, t') -> h = h') /\
  (forall h i t, handles w !! h = Some (HLive i t) -> exists s, slots w !! i = Some s /\
     ((sem_poll (join s)).1 = true /\ t ∈ ran w \/ exists w', work_step w w' /\ handles w' = handles w)) /\
  (forall ticket, (claim_slot ticket (slots w)).1 = None ->
     forall i s, slots w !! i = Some s -> exists h pc t, handles w !! h = Some pc /\ holds pc = Some (i, t)).
Proof.
  intros Hrun. assert (Hi : work_inv w).
  { eapply (rtc_invariant work_step work_inv); [intros ??; apply work_inv_step| |exact Hrun]. apply work_inv_start. }
  destruct (wi_ran _ Hi) as [Hnd Hlt]. do 2 (split; [done|]). split; [apply (wi_joined _ Hi)|].
  split; [apply (wi_unique _ Hi)|]. split; [intros h i t; by apply join_progress|].
  intros ticket Hc i s Hs. apply (wi_busy _ Hi i s Hs).
  unfold claim_slot in Hc. destruct (find_idx _ (slots w)) eqn:Hf; [done|].
  apply (proj1 (find_idx_None _ _) Hf) in Hs. by apply negb_false_iff.
Qed.

(** One worker, two clients: the first client's work is done and joined, the
    second has claimed the slot again. *)
Lemma work_runs_exactly_once_witness :
  exists w : work_sys StaticSemaphore_t, rtc work_step (work_start 1 2) w /\ ran w = [0] /\
    joined w = [0] /\ handles w = [HIdle; HClaimed 0 1] /\ NoDup (ran w).
Proof.
  assert (Hrun : exists w : work_sys StaticSemaphore_t, rtc work_step (work_start 1 2) w /\ ran w = [0] /\
    joined w = [0] /\ handles w = [HIdle; HClaimed 0 1]).
  { eexists. split.
    - eapply rtc_l; [by eapply (wk_claim _ _ _ _ _ _ 0)|]. eapply rtc_l; [by eapply (wk_start _ _ _ _ _ 0)|].
      eapply rtc_l; [by eapply (wk_take _ _ _ _ _ 0)|]. eapply rtc_l; [by eapply (wk_read _ _ _ _ _ 0)|].
      eapply rtc_l; [by eapply (wk_run _ _ _ _ _ 0)|]. eapply rtc_l; [by eapply (wk_give _ _ _ _ _ 0)|].
      eapply rtc_l; [by eapply (wk_join _ _ _ _ _ 0)|]. eapply rtc_l; [by eapply (wk_free _ _ _ _ _ 0)|].
      eapply rtc_l; [by eapply (wk_claim _ _ _ _ _ _ 1)|]. apply rtc_refl.
    - split_and!; reflexivity. }
  destruct Hrun as (w & Hrun & Hr & Hj & Hh). exists w.
  exact (conj Hrun (conj Hr (conj Hj (conj Hh (proj1 (work_runs_exactly_once 1 2 w Hrun)))))).
Defined.

(** ** RT-Thread *)

(** A refused create leaves the table's slots as free as they were, a successful
    one takes exactly one, and the join gives it back. *)
Definition in_use_count (ws : list WorkerThreadSlot) : nat := countb in_use ws.

Lemma rt_create_counts (a b c : bool) (h ticket : nat) (t : RtThreadHandle) (ws : list WorkerThreadSlot) (used : nat) :
  let '(ok, t', ws', used') := rt_thread_create a b c h ticket t ws used in
  in_use_count ws' = in_use_count ws + (if ok then 1 else 0) /\ used <= used' /\
  (ok = true -> valid t' = true /\ ws' !! slot_idx t' = Some (mkRtSlot true (Some h) true) /\
     let '(t'', ws'') := rt_thread_join t' ws' in in_use_count ws'' = in_use_count ws /\ valid t'' = false).
Proof.
  unfold rt_thread_create, in_use_count. destruct (find_idx _ ws) as [i|] eqn:Hf; [|repeat split; lia || done].
  apply find_idx_Some in Hf as (s & Hs & Hu%negb_true_iff & _). pose proof (lookup_lt_Some _ _ _ Hs) as Hlt.
  assert (Hmax : used <= (if used <=? i then S i else used)) by (destruct (Nat.leb_spec used i); lia).
  destruct (negb a || negb b || negb c).
  - pose proof (countb_insert in_use ws i s (mkRtSlot false None false) Hs) as Hc. rewrite Hu in Hc. cbn in Hc.
    split; [lia|]. by split.
  - pose proof (countb_insert in_use ws i s (mkRtSlot true (Some h) true) Hs) as Hc. rewrite Hu in Hc. cbn in Hc.
    split; [lia|]. split; [done|]. intros _. cbn. split; [done|]. split; [by apply list_lookup_insert_eq|].
    split; [|done].
    assert (Ha : alter (fun s => mkRtSlot false (user_ctx s) false) i (<[i := mkRtSlot true (Some h) true]> ws)
                 = <[i := mkRtSlot false (Some h) false]> ws).
    { clear. revert i. induction ws as [|x ws IH]; intros [|i]; cbn; [done..|]. f_equal. apply IH. }
    rewrite Ha. pose proof (countb_insert in_use ws i s (mkRtSlot false (Some h) false) Hs) as Hc'.
    rewrite Hu in Hc'. cbn in Hc'. lia.
Qed.

(** What FreeRTOS refuses and RT-Thread does not: a create on a live handle.  The
    handle forgets its first slot, which no join will ever free. *)
Example rt_create_on_live_handle :
  let '(ok1, t, ws, used) := rt_thread_create true true true 0 7 (mkRtHandle None 0 false)
                               (replicate 2 (mkRtSlot false None false)) 0 in
  let '(ok2, t, ws, used) := rt_thread_create true true true 0 8 t ws used in
  let '(t, ws) := rt_thread_join t ws in
  let '(t, ws) := rt_thread_join t ws in
  ok1 = true /\ ok2 = true /\ map in_use ws = [true; false].
Proof. vm_compute. done. Qed.
