(* ===== verification/LogWriter.v ===== *)
(** * The log's writer thread (src/diag/log_rtthread.cpp, include/coact/diag/log_rtthread.hpp)

    [LogRtThreadBase] and [LogRtThread]: the lifecycle on static storage, the
    emission of one record through a rendering policy with its fallback, and the
    writer's loop.  [log_step_] interleaves any number of producers, each
    recording in one critical section and giving a wake token afterwards, with
    the writer, one step per pop, size, flag or semaphore access, and with the
    thread that calls [stop]. *)

From S2P Require Import Prelude Log LogSpec Kernel.
Local Open Scope Z_scope.

(** ** Lifecycle *)

Inductive LogRtError :=
| kOk | kSemInitFailed | kThreadInitFailed | kThreadStartFailed | kAlreadyInitialized | kAlreadyStarted | kBindFailed.
Inductive State := kUninitialized | kReady | kStarted | kStopped | kInitFailed.

#[export] Instance LogRtError_eq_dec : EqDecision LogRtError.
Proof. solve_decision. Defined.
#[export] Instance State_eq_dec : EqDecision State.
Proof. solve_decision. Defined.

Definition log_ms_to_ticks (forever rate timeout_ms : Z) : Z :=
  if 0 =? timeout_ms then 0
  else
    let ticks := wrap 64 (timeout_ms * rate + 999) / 1000 in
    if wrap 64 forever <=? ticks then forever else ticks.

(** The static instance of the template parameters. *)
#[export] Instance rt_log_config : LogConfig := {
  NormalCapacity := 32; CriticalCapacity := 8; NormalDebugWatermarkPercent := 50; NormalInfoWatermarkPercent := 75
}.

(** [initialize] gives every hook. *)
Definition default_hooks : LogHooks := mkHooks true true true true true.

(** [sems] counts the semaphores initialised and not detached. *)
Record LogRtThread := mkLogRt { state_ : State; last_error_ : LogRtError; logger_ : Logger; stop_requested_ : bool; sems : Z }.

Definition log_fail (e : LogRtError) (p : LogRtThread) : LogRtError * LogRtThread :=
  (e, mkLogRt kInitFailed e (logger_ p) (stop_requested_ p) (sems p)).
Definition with_sems (n : Z) (p : LogRtThread) : LogRtThread :=
  mkLogRt (state_ p) (last_error_ p) (logger_ p) (stop_requested_ p) n.

(** [wake_ok], [join_ok]: the answers of the two [rt_sem_init]. *)
Definition log_initialize (wake_ok join_ok : bool) (p : LogRtThread) : LogRtError * LogRtThread :=
  match state_ p with
  | kReady | kStarted => (kAlreadyInitialized, p)
  | kStopped | kInitFailed => (last_error_ p, p)
  | kUninitialized =>
      if negb wake_ok then log_fail kSemInitFailed p
      else if negb join_ok then log_fail kSemInitFailed (with_sems (sems p + 1) p)
      else
        let '(ok, l) := bind (logger_ p) default_hooks in
        if negb ok then log_fail kBindFailed (with_sems (sems p + 2) p)
        else (kOk, mkLogRt kReady kOk l false (sems p + 2))
  end.

(** [init_ok], [startup_ok]: the answers of [rt_thread_init] and [rt_thread_startup]. *)
Definition log_start (wake_ok join_ok init_ok startup_ok : bool) (p : LogRtThread) : LogRtError * LogRtThread :=
  match state_ p with
  | kInitFailed => (last_error_ p, p)
  | kStarted | kStopped => (kAlreadyStarted, p)
  | _ =>
      let '(e, p) := match state_ p with kUninitialized => log_initialize wake_ok join_ok p | _ => (kOk, p) end in
      if negb (bool_decide (e = kOk)) then (e, p)
      else if negb init_ok then log_fail kThreadInitFailed p
      else if negb startup_ok then log_fail kThreadStartFailed p
      else (kOk, mkLogRt kStarted (last_error_ p) (logger_ p) (stop_requested_ p) (sems p))
  end.

(** ** One record *)

Definition kLineBufferSize : Z := 160.
Definition kCriticalDrainBatch : nat := 4.

(** [emit]: [rendered] and [raw] are what the policy and the raw-hex renderer
    report, [newline] whether the policy's text ends in a newline, [sink] the
    sink's answer ([None]: no sink).  The result: the length handed to the sink. *)
Definition emit (rendered raw : LogRenderResult) (newline : bool) (sink : option bool) (count : Z) (l : Logger)
  : option Z * Z * Logger :=
  let usable := handled rendered && (0 <? length_ rendered) && (length_ rendered <? kLineBufferSize) && newline in
  let l := if usable then l else if negb (handled rendered) then note_catalog_miss l else l in
  let cut := if usable then truncated rendered else if negb (handled rendered) then false else true in
  let len := if usable then length_ rendered else length_ raw in
  let cut := if usable then cut else cut || truncated raw in
  let l := if cut then note_formatter_truncated l else l in
  match sink with
  | None => (None, count, l)
  | Some true => (Some len, wrap 32 (count + 1), l)
  | Some false => (Some len, count, note_sink_failed l)
  end.

(** ** The loop, interleaved *)

(** The writer, [any] being [drained_any]: before the [i]-th Critical pop of a
    pass; before the Normal pop; before the load of the stop flag; past it, before
    the two sizes; at the test of [drained_any]; blocked; past the loop; gone. *)
Inductive writer_pc :=
| WCritical (i : nat) (any : bool) | WNormal (any : bool) | WCheck (any : bool)
| WSize1 (any : bool) | WSize2 (any : bool) | WIdle (any : bool) | WBlocked | WExit | WGone.

(** A producer: outside, or owing the wake token of its record. *)
Inductive prod_pc := POutside | PSignal.
(** The caller of [stop]: not yet; the flag set; waiting for the join token; returned. *)
Inductive stop_pc := SNone | SFlag | SWaiting | SDone.

Section system.
Context {C : LogConfig} {K : Type} `{!SemKernel K}.

Record log_sys := mkSys {
  logger : Logger;
  hist : LogLane -> history;
  wake_sem : K;
  join_sem : K;
  stop_flag : bool;
  writer : writer_pc;
  prods : list prod_pc;
  stopper : stop_pc;
  printed : list (LogLane * LogRecord)   (* ghost: the records handed to [emit], in order, whatever it answers *)
}.

(** The record a pop hands to [emit]. *)
Definition popped (lane : LogLane) (l : Logger) : option LogRecord := (pop_from_lane lane l).1.2.

(** A pop and, when it found a record, its [emit], whose outcome is not the
    writer's: [rendered], [raw], [newline] and the sink's answer [ok] are free. *)
Definition pop_emit (lane : LogLane) (rendered raw : LogRenderResult) (newline ok : bool) (x : Logger * (LogLane -> history))
  : Logger * (LogLane -> history) :=
  let '(l, h) := log_step (LPop lane) x in
  match popped lane x.1 with Some _ => ((emit rendered raw newline (Some ok) 0 l).2, h) | None => (l, h) end.

Definition handed (lane : LogLane) (l : Logger) : list (LogLane * LogRecord) := pair lane <$> option_list (popped lane l).

Definition after_critical (i : nat) (any found : bool) : writer_pc :=
  if negb found then WNormal any
  else if (S i <? kCriticalDrainBatch)%nat then WCritical (S i) true else WNormal true.

Inductive log_step_ : log_sys -> log_sys -> Prop :=
| lw_record l h w j f pc ps pr k level event isr source cv a0 a1 a2 a3 l' h' :
    ps !! k = Some POutside ->
    log_step (LRecord level event isr source cv a0 a1 a2 a3) (l, h) = (l', h') ->
    log_step_ (mkSys l h w j f pc ps SNone pr)
      (mkSys l' h' w j f pc
         (if (record_impl level event isr source cv a0 a1 a2 a3 l).1.2 then <[k := PSignal]> ps else ps) SNone pr)
| lw_signal l h w j f pc ps sp pr k :
    ps !! k = Some PSignal ->
    log_step_ (mkSys l h w j f pc ps sp pr) (mkSys l h (sem_give w).2 j f pc (<[k := POutside]> ps) sp pr)
| lw_critical l h w j f i any ps sp pr rendered raw newline ok l' h' :
    pop_emit kCritical rendered raw newline ok (l, h) = (l', h') ->
    log_step_ (mkSys l h w j f (WCritical i any) ps sp pr)
      (mkSys l' h' w j f (after_critical i any (bool_decide (is_Some (popped kCritical l)))) ps sp
         (pr ++ handed kCritical l))
| lw_normal l h w j f any ps sp pr rendered raw newline ok l' h' :
    pop_emit kNormal rendered raw newline ok (l, h) = (l', h') ->
    log_step_ (mkSys l h w j f (WNormal any) ps sp pr)
      (mkSys l' h' w j f (WCheck (any || bool_decide (is_Some (popped kNormal l)))) ps sp
         (pr ++ handed kNormal l))
| lw_check l h w j f any ps sp pr :
    log_step_ (mkSys l h w j f (WCheck any) ps sp pr) (mkSys l h w j f (if f then WSize1 any else WIdle any) ps sp pr)
| lw_size1 l h w j f any ps sp pr :
    log_step_ (mkSys l h w j f (WSize1 any) ps sp pr)
      (mkSys l h w j f (if log_size kCritical l =? 0 then WSize2 any else WIdle any) ps sp pr)
| lw_size2 l h w j f any ps sp pr :
    log_step_ (mkSys l h w j f (WSize2 any) ps sp pr)
      (mkSys l h w j f (if log_size kNormal l =? 0 then WExit else WIdle any) ps sp pr)
| lw_idle l h w j f any ps sp pr :
    log_step_ (mkSys l h w j f (WIdle any) ps sp pr)
      (mkSys l h w j f (if any then WCritical 0 false else if f then WExit else WBlocked) ps sp pr)
| lw_wake l h w w' j f ps sp pr :
    sem_poll w = (true, w') ->
    log_step_ (mkSys l h w j f WBlocked ps sp pr) (mkSys l h w' j f (WCritical 0 false) ps sp pr)
| lw_exit l h w j f ps sp pr :
    log_step_ (mkSys l h w j f WExit ps sp pr) (mkSys l h w (sem_give j).2 f WGone ps sp pr)
| lw_stop l h w j f pc ps pr :
    Forall (fun p => p = POutside) ps ->
    log_step_ (mkSys l h w j f pc ps SNone pr) (mkSys l h w j true pc ps SFlag pr)
| lw_release l h w j f pc ps pr :
    log_step_ (mkSys l h w j f pc ps SFlag pr) (mkSys l h (sem_give w).2 j f pc ps SWaiting pr)
| lw_joined l h w j j' f pc ps pr :
    sem_poll j = (true, j') ->
    log_step_ (mkSys l h w j f pc ps SWaiting pr) (mkSys l h w j' f pc ps SDone pr).

(** After [start]: a bound logger, the writer at the top of its loop;
    [value_max] is the kernel's largest semaphore value. *)
Definition log_sys_start (value_max producers : nat) : log_sys :=
  mkSys (bind logger0 default_hooks).2 (fun _ => history0) (sem_create value_max 0) (sem_create value_max 0) false
    (WCritical 0 false) (replicate producers POutside) SNone [].
End system.
Arguments log_sys : clear implicits.

(** * What stopping the log's writer promises, and where it falls short

    About [LogWriter]: the records handed to the sink are those accepted, each
    lane in order; [stop] always returns; when it finds the writer asleep, at the
    Critical lane or in a pass that has emitted something, nothing accepted is left
    behind.  In the window left, a pass that has already found a lane empty, a
    record accepted before [stop] is never printed ([stop_loses_a_record]). *)

(** The writer will look at both lanes again before it can end. *)
Definition calm (pc : writer_pc) : bool :=
  match pc with WNormal any | WCheck any | WSize1 any | WSize2 any | WIdle any => any | _ => true end.

(** The last look at the lane found it empty, and nothing was emitted since. *)
Definition saw_empty (lane : LogLane) (pc : writer_pc) : bool :=
  match pc, lane with
  | WNormal any, kCritical => negb any
  | (WCheck any | WSize1 any | WIdle any), _ => negb any
  | WSize2 any, kCritical => true
  | WSize2 any, kNormal => negb any
  | (WExit | WGone), _ => true
  | _, _ => false
  end.

(** How far the writer is from its end, once the stop flag is set. *)
Definition pc_weight (pc : writer_pc) : nat :=
  match pc with
  | WCritical _ true => 24 | WNormal true => 23 | WCheck true => 22 | WSize1 true => 21 | WSize2 true => 20 | WIdle true => 19
  | WBlocked => 11
  | WCritical _ false => 10 | WNormal false => 9 | WCheck false => 8 | WSize1 false => 7 | WSize2 false => 6 | WIdle false => 5
  | WExit => 4 | WGone => 0
  end%nat.

Section spec.
Context {C : LogConfig} (HC : log_config_ok = true) {K : Type} `{HK : SemLaws K}.
Implicit Types s : log_sys K.

Definition lane_left (h : LogLane -> history) (lane : LogLane) : nat := length (h_accepted (h lane)) - length (h_popped (h lane)).
Definition emptied (h : LogLane -> history) (lane : LogLane) : Prop := h_accepted (h lane) = h_popped (h lane).
Definition printed_of (lane : LogLane) (pr : list (LogLane * LogRecord)) : list LogRecord :=
  (filter (fun x => x.1 = lane) pr).*2.

(** The lanes and the output. *)
Definition lanes_inv (l : Logger) (h : LogLane -> history) (pr : list (LogLane * LogRecord)) : Prop :=
  bound l = true /\ forall lane, lane_inv lane l (h lane) /\ printed_of lane pr = h_popped (h lane).

Definition flagged (sp : stop_pc) : bool := match sp with SNone => false | _ => true end.

Record log_inv s : Prop := {
  li_lanes : lanes_inv (logger s) (hist s) (printed s);
  li_wake : (0 < sem_max (wake_sem s))%nat;
  li_join : (0 < sem_max (join_sem s))%nat;
  li_flag : stop_flag s = flagged (stopper s);
  li_early : stop_flag s = false -> match writer s with WSize1 _ | WSize2 _ | WExit | WGone => False | _ => True end;
  li_quiet : stop_flag s = true -> Forall (fun p => p = POutside) (prods s);
  li_end : writer s = WGone <-> (0 < sem_count (join_sem s))%nat \/ stopper s = SDone;
  li_released : stopper s = SWaiting -> writer s = WBlocked -> (0 < sem_count (wake_sem s))%nat
}.

(** ** The lanes under a pop and its emission *)

Lemma emit_keeps rendered raw newline ok l :
  bound l = true ->
  bound (emit rendered raw newline (Some ok) 0 l).2 = true /\ forall lane, same_lane lane l (emit rendered raw newline (Some ok) 0 l).2.
Proof.
  intros Hb. unfold emit, note_sink_failed, note_formatter_truncated, note_catalog_miss.
  assert (Hs : forall lane, same_lane lane l l) by (intros []; by split_and!).
  repeat (rewrite ?Hb; case_match); simplify_eq; cbn in *; split; try done; intros []; by split_and!.
Qed.

Lemma printed_handed lane lane' l pr :
  printed_of lane' (pr ++ handed lane l) = printed_of lane' pr ++ (if bool_decide (lane' = lane) then option_list (popped lane l) else []).
Proof.
  unfold printed_of, handed. rewrite filter_app, fmap_app. f_equal.
  destruct (popped lane l); cbn; repeat (case_decide || case_bool_decide); subst; done.
Qed.

Lemma pop_emit_spec lane rendered raw newline ok l h pr l' h' :
  lanes_inv l h pr -> pop_emit lane rendered raw newline ok (l, h) = (l', h') ->
  lanes_inv l' h' (pr ++ handed lane l) /\ (forall other, other <> lane -> h' other = h other) /\
  match popped lane l with
  | None => emptied h lane /\ h' lane = h lane
  | Some _ => lane_left h lane = S (lane_left h' lane)
  end.
Proof using HC.
  intros [Hb Hl] E. destruct (Hl lane) as [(q & Hq & Hacc & _) _].
  pose proof (pop_effect lane l q Hb Hq) as (Ho & _).
  pose proof (log_step_inv HC (LPop lane) l h Hb (fun lane => proj1 (Hl lane))) as [Hb' Hl'].
  assert (Hp : popped lane l = head q) by (unfold popped; by rewrite Ho).
  unfold pop_emit in E. destruct (log_step (LPop lane) (l, h)) as [l1 h1] eqn:Es. cbn [fst snd] in *.
  assert (Hh1 : forall lane', h1 lane' =
    if bool_decide (lane' = lane) then
      match head q with Some r => mkHist (h_accepted (h lane)) (h_popped (h lane) ++ [r]) (h_refused (h lane)) | None => h lane end
    else h lane').
  { intros lane'. cbn [log_step] in Es. injection Es as _ <-. unfold on_lane. rewrite Ho.
    destruct (bool_decide_reflect (lane' = lane)) as [->|]; [by destruct q|done]. }
  assert (Hout : lanes_inv l1 h1 (pr ++ handed lane l)).
  { split; [done|]. intros lane'. split; [done|]. rewrite printed_handed, Hh1, Hp, (proj2 (Hl lane')).
    destruct (bool_decide_reflect (lane' = lane)) as [->|]; [destruct q; cbn; by rewrite ?app_nil_r|by rewrite app_nil_r]. }
  assert (Hother : forall other, other <> lane -> h1 other = h other) by (intros o Hne; rewrite Hh1; by rewrite bool_decide_false).
  assert (Hthis := Hh1 lane). rewrite bool_decide_true in Hthis by done. rewrite Hp in *.
  destruct q as [|r q]; cbn [head] in *; injection E as <- <-.
  - split_and!; try done. unfold emptied. by rewrite Hacc, app_nil_r.
  - destruct (emit_keeps rendered raw newline ok l1 Hb') as [Hb2 Hs2]. split_and!; try done.
    + split; [done|]. intros lane'. split; [|apply Hout]. eapply lane_inv_same; [apply Hs2|apply Hout].
    + unfold lane_left. rewrite Hthis. cbn [h_accepted h_popped]. rewrite Hacc, !length_app. cbn. lia.
Qed.

(** The lanes when a producer records. *)
Lemma record_lanes level event isr source cv a0 a1 a2 a3 l h pr l' h' :
  lanes_inv l h pr -> log_step (LRecord level event isr source cv a0 a1 a2 a3) (l, h) = (l', h') -> lanes_inv l' h' pr.
Proof using HC.
  intros [Hb Hl] E. pose proof (log_step_inv HC (LRecord level event isr source cv a0 a1 a2 a3) l h Hb (fun lane => proj1 (Hl lane))) as [Hb' Hl'].
  rewrite E in *. split; [done|]. intros lane. split; [done|]. rewrite (proj2 (Hl lane)).
  cbn [log_step] in E. injection E as _ <-. unfold on_lane. repeat case_match; done.
Qed.

Lemma log_size_left l h pr lane : lanes_inv l h pr -> log_size lane l = 0 -> emptied h lane.
Proof.
  intros [Hb Hl] H0. destruct (Hl lane) as [(q & Hq & Hacc & _) _]. destruct Hq as (_ & _ & Hc & _).
  assert (Hz : Z.of_nat (length q) = 0) by (rewrite <- Hc, <- H0; unfold log_size, dr_size; rewrite Hb; by destruct lane).
  unfold emptied. rewrite Hacc. destruct q; [by rewrite app_nil_r|done].
Qed.

(** ** The bookkeeping is kept *)

Lemma give_count (k : K) : (0 < sem_max k)%nat -> (0 < sem_max (sem_give k).2)%nat /\ (0 < sem_count (sem_give k).2)%nat.
Proof. intros Hm. destruct (sem_give k) as [b k'] eqn:E. apply sem_give_spec in E. cbn. lia. Qed.

Lemma log_inv_start (value_max n : nat) : (0 < value_max)%nat -> log_inv (log_sys_start value_max n).
Proof using HC HK.
  intros Hv. destruct (sem_create_spec (K := K) value_max 0 ltac:(lia)) as [Hm Hc].
  split; cbn -[bind Nat.lt]; rewrite ?Hm, ?Hc; try lia; try done.
  - split; [done|]. intros lane. split; [|done]. pose proof (cap_range HC lane). exists [].
    destruct lane; cbn in *; split_and!; try done; try lia; by apply diag_init.
  - split; [done|]. intros [?|?]; [lia|done].
Qed.

Ltac log_cbn := cbn -[Nat.lt pop_emit handed log_step lanes_inv after_critical].

Lemma log_inv_step s s' : log_inv s -> log_step_ s s' -> log_inv s'.
Proof using HC HK.
  intros [Hl Hw Hj Hf He Hq Hg Hr] Hs. destruct Hs; cbn -[Nat.lt pop_emit handed log_step lanes_inv after_critical] in *.
  - split; log_cbn; try done; [by eapply record_lanes|]. intros Ht. congruence.
  - pose proof (give_count w Hw) as [Hw' Hc']. split; log_cbn; try done.
    intros Hfl. apply Forall_insert; [by apply Hq|done].
  - split; log_cbn; try done.
    + eapply proj1, pop_emit_spec; eassumption.
    + intros _. unfold after_critical. by repeat case_match.
    + split; [unfold after_critical; by repeat case_match|]. intros Hx. by apply Hg in Hx.
    + intros _. unfold after_critical. by repeat case_match.
  - split; log_cbn; try done.
    + eapply proj1, pop_emit_spec; eassumption.
    + split; [done|]. intros Hx. by apply Hg in Hx.
  - split; log_cbn; try done; destruct f; try done; (split; [done|]; intros Hx; by apply Hg in Hx).
  - split; log_cbn; try done; case_match; try done; (split; [done|]; intros Hx; by apply Hg in Hx).
  - destruct f; [|destruct (He eq_refl)]. split; log_cbn; try done; case_match; try done; (split; [done|]; intros Hx; by apply Hg in Hx).
  - destruct any, f; split; log_cbn; try done; try (split; [done|]; intros Hx; by apply Hg in Hx); by intros ->.
  - apply sem_poll_spec in H as [Hm _]. split; log_cbn; try done; [lia|..].
    split; [done|]; intros Hx; by apply Hg in Hx.
  - pose proof (give_count j Hj) as [Hj' Hc']. split; log_cbn; try done; tauto.
  - split; log_cbn; try done. split; [intros Hx; by apply Hg in Hx as [|]; [left|]|intros [Hx|]; [apply Hg; by left|done]].
  - pose proof (give_count w Hw) as [Hw' Hc']. split; log_cbn; try done.
    split; [intros Hx; by apply Hg in Hx as [|]; [left|]|intros [Hx|]; [apply Hg; by left|done]].
  - pose proof (sem_poll_spec _ _ _ H) as [Hm Hc]. split; log_cbn; try done; [lia|]. 
    split; [tauto|intros _]. apply Hg. left. lia.
Qed.

Lemma log_inv_reach s s' : log_inv s -> rtc log_step_ s s' -> log_inv s'.
Proof using HC HK. intros Hi Hs. induction Hs; [done|]. eauto using log_inv_step. Qed.

(** ** After [stop] *)

(** Nothing is left in a lane the writer has just seen empty. *)
Definition drained_inv s : Prop :=
  stop_flag s = true /\ forall lane, saw_empty lane (writer s) = true -> emptied (hist s) lane.

Lemma drained_start s s' : log_inv s -> calm (writer s) = true -> stopper s = SNone -> log_step_ s s' ->
  stopper s' = SFlag -> drained_inv s'.
Proof.
  intros Hi Hc Hn Hs Hf. pose proof (li_early _ Hi) as He. pose proof (li_flag _ Hi) as Hfl.
  destruct Hs; cbn in *; try congruence; subst; cbn in *. specialize (He eq_refl).
  split; [done|]. cbn. intros lane. destruct pc; cbn in *; subst; try done; by destruct lane.
Qed.

Lemma drained_step s s' : log_inv s -> drained_inv s -> log_step_ s s' -> drained_inv s'.
Proof using HC.
  intros Hi [Hf Hd] Hs. pose proof (li_flag _ Hi) as Hfl. pose proof (li_lanes _ Hi) as Hl.
  destruct Hs; log_cbn; cbn -[Nat.lt pop_emit handed log_step lanes_inv after_critical] in *; try congruence; split; try done; log_cbn.
  - pose proof (pop_emit_spec _ _ _ _ _ _ _ _ _ _ Hl H) as (_ & Ho & Hp). intros lane Hw.
    unfold after_critical in Hw. destruct (popped kCritical l) as [r|]; cbn -[Nat.ltb] in Hw;
      [by destruct (S i <? kCriticalDrainBatch)%nat, lane|].
    destruct lane; [|done]. unfold emptied. rewrite (proj2 Hp). apply Hp.
  - pose proof (pop_emit_spec _ _ _ _ _ _ _ _ _ _ Hl H) as (_ & Ho & Hp). intros lane Hw.
    destruct (popped kNormal l) as [r|]; cbn in Hw; [by rewrite orb_true_r in Hw|]. rewrite orb_false_r in Hw.
    unfold emptied. destruct lane; [rewrite Ho by done; by apply (Hd kCritical)|]. rewrite (proj2 Hp). apply Hp.
  - subst f. done.
  - intros lane. destruct (Z.eqb_spec (log_size kCritical l) 0) as [H0|]; [|apply Hd].
    destruct lane; [|apply Hd]. intros _. by eapply log_size_left.
  - intros lane. destruct (Z.eqb_spec (log_size kNormal l) 0) as [H0|].
    + intros _. destruct lane; [by apply Hd|by eapply log_size_left].
    + intros Hw. destruct lane; [by apply Hd|by apply Hd].
  - subst f. intros lane. destruct any; [done|]. intros _. by apply Hd.
Qed.

Lemma drained_reach s s' : log_inv s -> drained_inv s -> rtc log_step_ s s' -> drained_inv s'.
Proof using HC HK. intros Hi Hd Hs. induction Hs; [done|]. eauto using log_inv_step, drained_step. Qed.

(** ** [stop] returns *)

Definition stop_measure s : nat :=
  16 * (lane_left (hist s) kCritical + lane_left (hist s) kNormal) + pc_weight (writer s) +
  match stopper s with SDone => 0 | _ => 1 end.

Lemma stop_measure_step s s' : log_inv s -> stopper s = SWaiting -> log_step_ s s' ->
  (stop_measure s' < stop_measure s)%nat /\ (stopper s' = SWaiting \/ stopper s' = SDone).
Proof using HC.
  intros Hi Hw Hs. pose proof (li_flag _ Hi) as Hf. pose proof (li_lanes _ Hi) as Hl. pose proof (li_quiet _ Hi) as Hq.
  destruct Hs; cbn -[Nat.lt pop_emit handed log_step lanes_inv after_critical Nat.mul] in *; subst; try done; unfold stop_measure; (split; [|by auto]);
    cbn -[Nat.lt pop_emit handed log_step lanes_inv after_critical Nat.mul] in *.
  - exfalso. specialize (Hq eq_refl). rewrite Forall_lookup in Hq. by specialize (Hq _ _ H).
  - pose proof (pop_emit_spec _ _ _ _ _ _ _ _ _ _ Hl H) as (_ & Ho & Hp). unfold lane_left in *. rewrite (Ho kNormal) by done.
    unfold after_critical. destruct (popped kCritical l); cbn -[Nat.mul]; [destruct any; case_match; cbn -[Nat.mul]; lia|].
    rewrite (proj2 Hp). destruct any; cbn -[Nat.mul]; lia.
  - pose proof (pop_emit_spec _ _ _ _ _ _ _ _ _ _ Hl H) as (_ & Ho & Hp). unfold lane_left in *. rewrite (Ho kCritical) by done.
    destruct (popped kNormal l); cbn -[Nat.mul]; [rewrite orb_true_r; destruct any; lia|].
    rewrite (proj2 Hp), orb_false_r. destruct any; cbn -[Nat.mul]; lia.
  - destruct any; cbn; lia.
  - destruct any; case_match; cbn; lia.
  - destruct any; case_match; cbn; lia.
  - destruct any; cbn; lia.
  - lia.
  - lia.
  - lia.
Qed.

Lemma stop_progress s : log_inv s -> stopper s = SWaiting -> exists s', log_step_ s s'.
Proof using HK.
  intros Hi Hw. pose proof (li_end _ Hi) as Hg. pose proof (li_released _ Hi) as Hr.
  destruct s as [l h w j f pc ps sp pr]. cbn in *. subst sp. destruct pc.
  - destruct (pop_emit kCritical (mkRender 0 false false) (mkRender 0 false false) false true (l, h)) as [l' h'] eqn:E. eexists. by eapply lw_critical.
  - destruct (pop_emit kNormal (mkRender 0 false false) (mkRender 0 false false) false true (l, h)) as [l' h'] eqn:E. eexists. by eapply lw_normal.
  - eexists. apply lw_check.
  - eexists. apply lw_size1.
  - eexists. apply lw_size2.
  - eexists. apply lw_idle.
  - destruct (sem_poll_token w (Hr eq_refl eq_refl)) as (w' & E & _). eexists. by eapply lw_wake.
  - eexists. apply lw_exit.
  - destruct (proj1 Hg eq_refl) as [Hc|]; [|done]. destruct (sem_poll_token j Hc) as (j' & E & _). eexists. by eapply lw_joined.
Qed.

Lemma stop_done_rests s s' : log_inv s -> stopper s = SDone -> ~ log_step_ s s'.
Proof.
  intros Hi Hd Hs. pose proof (proj2 (li_end _ Hi) (or_intror Hd)) as Hw. pose proof (li_flag _ Hi) as Hf. pose proof (li_quiet _ Hi) as Hq.
  destruct Hs; cbn in *; subst; try done. specialize (Hq eq_refl). rewrite Forall_lookup in Hq. by specialize (Hq _ _ H).
Qed.
End spec.

(** C30: Stopping the log drains it.  Start a writer with any number of producers,
    each recording any levels and events in any interleaving with the writer's
    passes.  Whatever the renderer and the sink answer, what has been handed to the
    sink is, in each lane, what was popped, in order.  If [stop] is called while
    the writer is asleep, before or at the Critical lane, or in a pass that has
    emitted something, then once [stop] has returned every record ever accepted has
    been handed to the sink, in each lane in the order of acceptance. *)
Theorem log_stop_drains {C : LogConfig} {K} `{HK : SemLaws K} (value_max producers : nat) (s0 s1 s : log_sys K) :
  log_config_ok = true -> (0 < value_max)%nat ->
  rtc log_step_ (log_sys_start value_max producers) s0 -> calm (writer s0) = true -> stopper s0 = SNone ->
  log_step_ s0 s1 -> stopper s1 = SFlag -> rtc log_step_ s1 s ->
  (forall lane, printed_of lane (printed s) = h_popped (hist s lane)) /\
  (stopper s = SDone -> forall lane, printed_of lane (printed s) = h_accepted (hist s lane)).
Proof.
  intros HC Hv H0 Hc Hn H1 Hf Hs. pose proof (log_inv_reach HC _ _ (log_inv_start HC value_max producers Hv) H0) as Hi0.
  pose proof (log_inv_step HC _ _ Hi0 H1) as Hi1. pose proof (log_inv_reach HC _ _ Hi1 Hs) as Hi.
  destruct (drained_reach HC _ _ Hi1 (drained_start _ _ Hi0 Hc Hn H1 Hf) Hs) as [_ Hd].
  assert (Hp : forall lane, printed_of lane (printed s) = h_popped (hist s lane)) by (intros lane; apply (li_lanes _ Hi)).
  split; [done|]. intros Hdone lane. rewrite Hp. symmetry. apply Hd. by rewrite (proj2 (li_end _ Hi)) by auto.
Qed.

(** [stop] returns.  From the moment [stop] waits for the writer, whatever was
    queued, whatever tokens its semaphore holds and whatever the sink answers, the
    writer and the waiter make at most [stop_measure] steps, a linear bound in the
    records still queued, and can only come to rest once [stop] has returned. *)
Theorem log_stop_returns {C : LogConfig} {K} `{HK : SemLaws K} (value_max producers : nat) (s : log_sys K) :
  log_config_ok = true -> (0 < value_max)%nat -> rtc log_step_ (log_sys_start value_max producers) s -> stopper s = SWaiting ->
  (forall n s', nsteps log_step_ n s s' -> (n <= stop_measure s)%nat) /\
  (forall s', rtc log_step_ s s' -> nf log_step_ s' -> stopper s' = SDone).
Proof.
  intros HC Hv H0 Hw. pose proof (log_inv_reach HC _ _ (log_inv_start HC value_max producers Hv) H0) as Hi. clear H0. split.
  - intros n. assert (Hc : stopper s = SWaiting \/ stopper s = SDone) by auto. clear Hw. revert s Hi Hc.
    induction n as [|n IH]; intros s Hi Hc s' Hn; [lia|]. inversion Hn as [|? ? s1 ? H1 Hn']; subst.
    destruct Hc as [Hw|Hd]; [|by destruct (stop_done_rests _ _ Hi Hd H1)].
    destruct (stop_measure_step HC _ _ Hi Hw H1) as [Hlt Hc']. specialize (IH s1 (log_inv_step HC _ _ Hi H1) Hc' _ Hn'). lia.
  - intros s' Hs. assert (Hc : stopper s = SWaiting \/ stopper s = SDone) by auto. clear Hw.
    induction Hs as [s|s s1 s' H1 Hs IH]; intros Hnf.
    + destruct Hc as [Hw|Hd]; [|done]. destruct (stop_progress _ Hi Hw) as [s1 H1]. destruct Hnf. by exists s1.
    + destruct Hc as [Hw|Hd]; [|by destruct (stop_done_rests _ _ Hi Hd H1)].
      destruct (stop_measure_step HC _ _ Hi Hw H1) as [_ Hc']. apply IH; [by eapply log_inv_step|done|done].
Qed.

(** ** Runs of the static instance, on the host stub's semaphores *)

Definition rt_start : log_sys StaticSemaphore_t := log_sys_start (C := rt_log_config) 4 1.

Ltac log_go step := eapply rtc_l; [step|].
Ltac go_record := log_go ltac:(eapply lw_record with (k := 0%nat) (level := kError) (event := 7) (isr := false) (source := 1) (cv := 100)
  (a0 := 0) (a1 := 0) (a2 := 0) (a3 := 0); reflexivity); log_go ltac:(eapply lw_signal with (k := 0%nat); vm_compute; reflexivity).
Ltac go_critical := log_go ltac:(eapply (lw_critical (C := rt_log_config)) with (ok := true) (newline := true)
  (rendered := mkRender 56 true false) (raw := mkRender 56 true false); reflexivity).
Ltac go_normal := log_go ltac:(eapply (lw_normal (C := rt_log_config)) with (ok := true) (newline := true)
  (rendered := mkRender 56 true false) (raw := mkRender 56 true false); reflexivity).
Ltac go_stop := eapply lw_stop; vm_compute; repeat constructor.
Ltac go_joined := log_go ltac:(eapply lw_joined; vm_compute; reflexivity); apply rtc_refl.

(** The bug.  The writer finds its Critical lane empty; an error record is accepted
    and its wake token given; [stop] sets the flag; the Normal lane is empty, the
    sizes are not both zero, but nothing was drained in this pass and the flag is
    set: the second [break] leaves the loop.  [stop] returns, and the record stays
    in its lane for good. *)
Lemma stop_loses_a_record :
  exists s, rtc log_step_ rt_start s /\ stopper s = SDone /\
    h_accepted (hist s kCritical) = [mkRec 100 7 1 0 0 0 0] /\ printed s = [].
Proof.
  eexists. split.
  { go_critical. go_record. log_go go_stop. log_go ltac:(eapply lw_release). go_normal. log_go ltac:(eapply lw_check).
    log_go ltac:(eapply lw_size1). log_go ltac:(eapply lw_idle). log_go ltac:(eapply lw_exit). go_joined. }
  by vm_compute.
Qed.

(** The same record, [stop] called while the writer is at the top of its loop. *)
Lemma calm_stop_run :
  exists s0 s1 s, rtc log_step_ rt_start s0 /\ calm (writer s0) = true /\ stopper s0 = SNone /\ log_step_ s0 s1 /\
    stopper s1 = SFlag /\ rtc log_step_ s1 s /\ stopper s = SDone /\ h_accepted (hist s kCritical) = [mkRec 100 7 1 0 0 0 0].
Proof.
  do 3 eexists. split; [go_record; apply rtc_refl|]. do 2 (split; [done|]). split; [go_stop|]. split; [done|]. split.
  { log_go ltac:(eapply lw_release). go_critical. go_critical. go_normal. log_go ltac:(eapply lw_check). log_go ltac:(eapply lw_size1).
    log_go ltac:(eapply lw_size2). log_go ltac:(eapply lw_exit). go_joined. }
  by vm_compute.
Qed.

Lemma log_stop_drains_witness :
  exists s : log_sys StaticSemaphore_t, stopper s = SDone /\ printed_of kCritical (printed s) = [mkRec 100 7 1 0 0 0 0].
Proof.
  destruct calm_stop_run as (s0 & s1 & s & H0 & Hc & Hn & H1 & Hf & Hs & Hd & Ha). exists s. split; [exact Hd|].
  rewrite <- Ha. exact (proj2 (log_stop_drains (C := rt_log_config) 4 1 s0 s1 s eq_refl ltac:(lia) H0 Hc Hn H1 Hf Hs) Hd kCritical).
Defined.

(** [stop] waits with a record queued: at most 27 steps are left. *)
Lemma stop_waits_run :
  exists s, rtc log_step_ rt_start s /\ stopper s = SWaiting /\ stop_measure s = 27%nat.
Proof. eexists. split; [go_record; log_go go_stop; log_go ltac:(eapply lw_release); apply rtc_refl|]. by vm_compute. Qed.

Lemma log_stop_returns_witness :
  exists s : log_sys StaticSemaphore_t, stopper s = SWaiting /\ forall n s', nsteps log_step_ n s s' -> (n <= 27)%nat.
Proof.
  destruct stop_waits_run as (s & H0 & Hw & Hm). exists s. split; [exact Hw|]. rewrite <- Hm.
  exact (proj1 (log_stop_returns (C := rt_log_config) 4 1 s eq_refl ltac:(lia) H0 Hw)).
Defined.

(** ** One record *)

(** Each record goes to the sink exactly once, as the policy's text when that is a
    complete line that fits the buffer, and as the raw text otherwise. *)
Lemma emit_writes_once rendered raw newline ok count l :
  let '(len, count', _) := emit rendered raw newline (Some ok) count l in
  len = Some (if handled rendered && (0 <? length_ rendered) && (length_ rendered <? kLineBufferSize) && newline
              then length_ rendered else length_ raw) /\
  count' = (if ok then wrap 32 (count + 1) else count).
Proof. unfold emit. by destruct ok; repeat case_match. Qed.

(** After [stop], [initialize] reports what the last one did, not that it refuses. *)
Lemma initialize_after_stop wake_ok join_ok (p : LogRtThread) :
  state_ p = kStopped -> last_error_ p = kOk -> log_initialize wake_ok join_ok p = (kOk, p).
Proof. intros Hs He. unfold log_initialize. by rewrite Hs, He. Qed.

(** A failing join semaphore leaves the wake semaphore initialised. *)
Lemma initialize_leaks (p : LogRtThread) :
  state_ p = kUninitialized -> sems (log_initialize true false p).2 = sems p + 1 /\ state_ (log_initialize true false p).2 = kInitFailed.
Proof. intros Hs. unfold log_initialize. by rewrite Hs. Qed.
