(* ===== verification/TimerDrive.v ===== *)
(** * The timer's drive thread (include/coact/timer.hpp)

    [run_loop] on a thread of its own, [start] and [stop] from any number of
    callers under the lifecycle mutex, and the table of [Timer] that callers change
    meanwhile.  [drive_step] interleaves them: one step per load or store of
    [running_], per critical section of the table, per submission, per clock read
    of the sleep, and per system call of [start] and [stop]. *)

From S2P Require Import Prelude Vocab Staging Timer.

Definition kIdleSleepNs : Z := 10000000.
Definition kMinSleepNs : Z := 1000000.
Definition kMaxSleepNs : Z := 10000000.

(** The argument of [sleep_ns] at the end of a pass; [None]: no sleep. *)
Definition loop_sleep (next : Z) : option Z :=
  let sleep_ns := if 2 ^ 64 - 1 =? next then kIdleSleepNs else next in
  let sleep_ns := if kMaxSleepNs <? sleep_ns then kMaxSleepNs else sleep_ns in
  if kMinSleepNs <=? sleep_ns then Some sleep_ns else None.

(** The loop thread: at the test of [running_]; before the collect section; the
    submissions left; before [ns_to_next_task]; in [sleep_ns] before it reads the
    clock ([asked]: when the remaining time was computed); asleep until
    [start + ns]; returned. *)
Inductive loop_pc :=
| LTop | LCollect | LSubmit (ps : list PendingFire) | LAsk
| LNap (ns asked : Z) | LSleep (ns asked start : Z) | LGone.

(** One step of the loop at time [now]; the output is a submission and whether the
    pool had a block for it. *)
Inductive loop_step (now : Z) (running : bool) : Timer * loop_pc -> Timer * loop_pc -> option (bool * PendingFire) -> Prop :=
| lp_test T : loop_step now running (T, LTop) (T, if running then LCollect else LGone) None
| lp_collect T fires l' :
    collect now (slots T) = Some (fires, l') ->
    loop_step now running (T, LCollect) (mkTimer l' (next_id_ T), LSubmit fires) None
| lp_submit T p ps allocated : loop_step now running (T, LSubmit (p :: ps)) (T, LSubmit ps) (Some (allocated, p))
| lp_submitted T : loop_step now running (T, LSubmit []) (T, LAsk) None
| lp_ask T :
    loop_step now running (T, LAsk)
      (T, match loop_sleep (ns_to_next_task T now) with Some ns => LNap ns now | None => LTop end) None
| lp_nap T ns asked : loop_step now running (T, LNap ns asked) (T, LSleep ns asked now) None
| lp_wake T ns asked start : start + ns <= now -> loop_step now running (T, LSleep ns asked start) (T, LTop) None.

(** A caller: outside, or holding the lifecycle mutex in [start] before the
    exchange, before [pthread_create]; in [stop] before the store, in
    [pthread_join]. *)
Inductive caller_pc := CIdle | CStart | CCreate | CStop | CJoin.

Record drive_sys := mkDrive {
  timer : Timer;
  clock : Z;
  running_ : bool;
  thread_valid_ : bool;
  thread_ : nat;                (* the last thread created *)
  threads : list loop_pc;
  lifecycle_mutex_ : option nat;
  callers : list caller_pc;
  fired_ : Z;
  skipped_ : Z
}.

Definition count_fire (o : option (bool * PendingFire)) (fired skipped : Z) : Z * Z :=
  match o with
  | None => (fired, skipped)
  | Some (true, _) => (u32 (fired + 1), skipped)
  | Some (false, _) => (fired, u32 (skipped + 1))
  end.

Inductive drive_step : drive_sys -> drive_sys -> Prop :=
| ds_loop T t r v th ths m cs f k T' n pc pc' o :
    ths !! n = Some pc -> loop_step t r (T, pc) (T', pc') o ->
    drive_step (mkDrive T t r v th ths m cs f k)
      (mkDrive T' t r v th (<[n := pc']> ths) m cs (count_fire o f k).1 (count_fire o f k).2)
| ds_tick T t r v th ths m cs f k t' :
    t <= t' -> clock_ok t' -> drive_step (mkDrive T t r v th ths m cs f k) (mkDrive T t' r v th ths m cs f k)
| ds_schedule T t r v th ths m cs f k target signal ms qos once :
    0 <= ms < 2 ^ 32 ->
    drive_step (mkDrive T t r v th ths m cs f k) (mkDrive (schedule T t target signal ms qos once).2 t r v th ths m cs f k)
| ds_cancel T t r v th ths m cs f k id :
    drive_step (mkDrive T t r v th ths m cs f k) (mkDrive (cancel T id).2 t r v th ths m cs f k)
| ds_start T t r v th ths cs f k c :
    cs !! c = Some CIdle ->
    drive_step (mkDrive T t r v th ths None cs f k) (mkDrive T t r v th ths (Some c) (<[c := CStart]> cs) f k)
| ds_exchange T t v th ths m cs f k c :
    cs !! c = Some CStart ->
    drive_step (mkDrive T t false v th ths m cs f k) (mkDrive T t true v th ths m (<[c := CCreate]> cs) f k)
| ds_already T t v th ths m cs f k c :   (* kAlreadyRunning *)
    cs !! c = Some CStart ->
    drive_step (mkDrive T t true v th ths m cs f k) (mkDrive T t true v th ths None (<[c := CIdle]> cs) f k)
| ds_created T t r v th ths m cs f k c :
    cs !! c = Some CCreate ->
    drive_step (mkDrive T t r v th ths m cs f k)
      (mkDrive T t r true (length ths) (ths ++ [LTop]) None (<[c := CIdle]> cs) f k)
| ds_create_failed T t r v th ths m cs f k c :   (* kThreadStartFailed *)
    cs !! c = Some CCreate ->
    drive_step (mkDrive T t r v th ths m cs f k) (mkDrive T t false v th ths None (<[c := CIdle]> cs) f k)
| ds_stop T t r v th ths cs f k c :
    cs !! c = Some CIdle ->
    drive_step (mkDrive T t r v th ths None cs f k) (mkDrive T t r v th ths (Some c) (<[c := CStop]> cs) f k)
| ds_request T t r v th ths m cs f k c :
    cs !! c = Some CStop ->
    drive_step (mkDrive T t r v th ths m cs f k)
      (if v then mkDrive T t false v th ths m (<[c := CJoin]> cs) f k
       else mkDrive T t false v th ths None (<[c := CIdle]> cs) f k)
| ds_joined T t r v th ths m cs f k c :
    cs !! c = Some CJoin -> ths !! th = Some LGone ->
    drive_step (mkDrive T t r v th ths m cs f k) (mkDrive T t r false th ths None (<[c := CIdle]> cs) f k).

Definition drive_start (MaxTasks ncallers : nat) (now : Z) : drive_sys :=
  mkDrive (timer_ctor MaxTasks) now false false 0 [] None (replicate ncallers CIdle) 0 0.

(** [stop] from within a submission of the loop itself, as a handler run in place
    may do: [pthread_join] of the calling thread returns [EDEADLK], which is
    ignored. *)
Definition self_stop (s : drive_sys) : drive_sys :=
  mkDrive (timer s) (clock s) false false (thread_ s) (threads s) None (callers s) (fired_ s) (skipped_ s).

(** * The drive thread: one at a time, on time, and gone after [stop]

    About [TimerDrive]: [held] is what the owner of the lifecycle mutex is doing;
    the invariant ties it to [running_], [thread_valid_] and the threads. *)

(** What the holder of the lifecycle mutex is doing; [CIdle] when it is free. *)
Definition held (s : drive_sys) : caller_pc :=
  match lifecycle_mutex_ s with None => CIdle | Some c => default CIdle (callers s !! c) end.

(** The flags, by what the holder is doing. *)
Definition flags_ok (pc : caller_pc) (running valid : bool) : Prop :=
  match pc with
  | CIdle | CStart | CStop => running = valid
  | CCreate => running = true /\ valid = false
  | CJoin => running = false /\ valid = true
  end.

(** The latest a sleep may end after a task's due time: what a task scheduled
    during the sleep can lose, and the time lost between the two clock reads. *)
Definition kSlackNs : Z := kMaxSleepNs - kMinSleepNs.

Definition sleep_ok (T : Timer) (now : Z) (pc : loop_pc) : Prop :=
  match pc with
  | LNap ns asked => asked <= now /\ kMinSleepNs <= ns <= kMaxSleepNs /\
      forall s, s ∈ slots T -> active s = true -> asked + ns <= next_fire_ns s + kSlackNs
  | LSleep ns asked start => asked <= start <= now /\ kMinSleepNs <= ns <= kMaxSleepNs /\
      forall s, s ∈ slots T -> active s = true -> asked + ns <= next_fire_ns s + kSlackNs
  | _ => True
  end.

Record drive_inv (s : drive_sys) : Prop := {
  di_clock : clock_ok (clock s);
  di_timer : timer_ok (clock s) (timer s);
  di_owner : forall c pc, callers s !! c = Some pc -> pc <> CIdle -> lifecycle_mutex_ s = Some c;
  di_flags : flags_ok (held s) (running_ s) (thread_valid_ s);
  di_live : forall n pc, threads s !! n = Some pc -> pc <> LGone -> thread_valid_ s = true /\ n = thread_ s;
  di_thread : thread_valid_ s = true -> is_Some (threads s !! thread_ s);
  di_runs : running_ s = true -> threads s !! thread_ s = Some LGone -> thread_valid_ s = false;
  di_sleep : forall n pc, threads s !! n = Some pc -> sleep_ok (timer s) (clock s) pc
}.

(** ** The sleep *)

Lemma loop_sleep_spec next ns :
  loop_sleep next = Some ns -> kMinSleepNs <= ns <= kMaxSleepNs /\ ns <= next.
Proof.
  unfold loop_sleep, kIdleSleepNs, kMaxSleepNs, kMinSleepNs. destruct (Z.eqb_spec (2 ^ 64 - 1) next).
  - intros [= <-]. lia.
  - destruct (Z.ltb_spec 10000000 next); [intros [= <-]; lia|]. case_test; intros [= <-]; lia.
Qed.

Lemma ns_to_next_le now m l : 0 <= m -> ns_to_next now m l <= m.
Proof.
  revert m. induction l as [|s l IH]; intros m Hm; cbn; [lia|]. destruct (active s); cbn; [|auto].
  destruct (Z.leb_spec (next_fire_ns s) now); [lia|]. destruct (Z.ltb_spec (next_fire_ns s - now) m); [|auto].
  etrans; [apply IH|]; lia.
Qed.

(** The remaining time, when it is positive, is a lower bound for every task. *)
Lemma ns_to_next_bounds now m l s :
  0 <= m -> s ∈ l -> active s = true -> 0 < ns_to_next now m l -> ns_to_next now m l <= next_fire_ns s - now.
Proof.
  intros Hm Hs Ha. revert m Hm. induction Hs as [s l|s s' l Hs IH]; intros m Hm; cbn.
  - rewrite Ha. cbn. destruct (Z.leb_spec (next_fire_ns s) now); [lia|]. intros _.
    destruct (Z.ltb_spec (next_fire_ns s - now) m); (etrans; [apply ns_to_next_le|]; lia).
  - destruct (active s'); cbn; [|by apply IH]. destruct (Z.leb_spec (next_fire_ns s') now); [lia|].
    apply IH; [done|]. case_match; lia.
Qed.

Lemma asked_ok T now ns :
  loop_sleep (ns_to_next_task T now) = Some ns ->
  kMinSleepNs <= ns <= kMaxSleepNs /\ forall s, s ∈ slots T -> active s = true -> now + ns <= next_fire_ns s.
Proof.
  intros Hs. pose proof (loop_sleep_spec _ _ Hs) as [Hr Hm]. split; [done|]. intros s Hin Ha.
  pose proof (ns_to_next_bounds now (2 ^ 64 - 1) (slots T) s ltac:(lia) Hin Ha) as Hb.
  unfold ns_to_next_task, kMinSleepNs in *. lia.
Qed.

(** ** The table under the callers *)

Lemma schedule_ok T now target signal ms qos once :
  clock_ok now -> timer_ok now T -> 0 <= ms < 2 ^ 32 ->
  let T' := (schedule T now target signal ms qos once).2 in
  timer_ok now T' /\ length (slots T') = length (slots T) /\
  forall s, s ∈ slots T' -> active s = true -> s ∈ slots T \/ now + kMinSleepNs <= next_fire_ns s.
Proof.
  intros [H0 Hc] Hok Hms. unfold schedule, kNsPerMs in *. destruct (Z.eqb_spec 0 ms); [split_and!; auto|].
  destruct (find_idx _ (slots T)) as [i|] eqn:Hf; [|split_and!; auto]. cbn.
  rewrite (wrap_small 64 (ms * 1000000)), (wrap_small 64 (now + _)) by (unfold in_u; lia). split_and!.
  - apply Forall_insert; [done|]. split; cbn; unfold kNsPerMs; lia.
  - apply length_insert.
  - intros s Hs Ha. apply list_elem_of_lookup in Hs as [j Hj].
    apply lookup_insert_cases in Hj as [[-> ->]|[_ Hj]]; [right; cbn; unfold kMinSleepNs; lia|].
    left. by eapply list_elem_of_lookup_2.
Qed.

Lemma cancel_ok T now id :
  timer_ok now T ->
  let T' := (cancel T id).2 in
  timer_ok now T' /\ length (slots T') = length (slots T) /\
  forall s, s ∈ slots T' -> active s = true -> s ∈ slots T.
Proof.
  intros Hok. unfold cancel. destruct (find_idx _ (slots T)) as [i|] eqn:Hf; [|by auto]. cbn.
  apply find_idx_Some in Hf as (x & Hx & _). rewrite (alter_as_insert _ _ _ _ Hx). split_and!.
  - apply Forall_insert; [done|]. by split.
  - apply length_insert.
  - intros s Hs Ha. apply list_elem_of_lookup in Hs as [j Hj].
    apply lookup_insert_cases in Hj as [[-> ->]|[_ Hj]]; [done|]. by eapply list_elem_of_lookup_2.
Qed.

Lemma timer_ok_later now now' T : now <= now' -> timer_ok now T -> timer_ok now' T.
Proof.
  intros Hle Hok. eapply Forall_impl; [exact Hok|]. intros s [Hp Hn]. split; [done|]. intros Ha. specialize (Hn Ha). specialize (Hp Ha). lia.
Qed.

Lemma collect_ok T now fires l' :
  clock_ok now -> timer_ok now T -> collect now (slots T) = Some (fires, l') ->
  timer_ok now (mkTimer l' (next_id_ T)) /\ length l' = length (slots T) /\ (length fires <= length (slots T))%nat.
Proof.
  intros Hc Hok Hcol. destruct (timer_poll_exact now T Hc Hok) as (f & l & Hcol' & Hf & Hp & Hok' & _).
  rewrite Hcol in Hcol'. simplify_eq. split_and!; [done|symmetry; by eapply Forall2_length|].
  rewrite length_map. apply length_filter.
Qed.

(** ** The invariant *)

Lemma gone_or_not (pc : loop_pc) : pc = LGone \/ pc <> LGone.
Proof. destruct pc; first [by left|by right]. Qed.

Lemma sleep_ok_later T T' now now' pc :
  now <= now' -> (forall s, s ∈ slots T' -> active s = true -> s ∈ slots T \/ now + kMinSleepNs <= next_fire_ns s) ->
  sleep_ok T now pc -> sleep_ok T' now' pc.
Proof.
  intros Hle Hs. destruct pc; cbn; try done; intros (Ha & Hr & Hn); (split; [lia|]); (split; [done|]);
    intros s Hin Hact; unfold kSlackNs in *; (destruct (Hs s Hin Hact); [by apply Hn|lia]).
Qed.

(** The holder of the mutex moves; nobody else is inside. *)
Lemma holder_moves (cs : list caller_pc) (m m' : option nat) (c : nat) (pc' : caller_pc) :
  (forall c pc, cs !! c = Some pc -> pc <> CIdle -> m = Some c) -> (m = None \/ m = Some c) -> (pc' <> CIdle -> m' = Some c) ->
  forall d pc, <[c := pc']> cs !! d = Some pc -> pc <> CIdle -> m' = Some d.
Proof.
  intros Ho Hm Hp d pc Hd Hne. apply lookup_insert_cases in Hd as [[-> ->]|[Hcd Hd]]; [by apply Hp|].
  specialize (Ho d pc Hd Hne). destruct Hm; congruence.
Qed.

Lemma drive_inv_start (MaxTasks ncallers : nat) (now : Z) : clock_ok now -> drive_inv (drive_start MaxTasks ncallers now).
Proof.
  intros Hc. split; cbn; try done.
  - unfold timer_ok. cbn. by apply Forall_replicate.
  - intros c pc [-> _]%lookup_replicate. done.
Qed.

(** One step of a loop keeps its own promises. *)
Lemma loop_step_ok T now r pc T' pc' o :
  clock_ok now -> timer_ok now T -> sleep_ok T now pc -> loop_step now r (T, pc) (T', pc') o ->
  pc <> LGone /\ timer_ok now T' /\ length (slots T') = length (slots T) /\ sleep_ok T' now pc' /\ (pc' = LGone -> r = false).
Proof.
  intros Hc Hok Hs Hl. inversion Hl; subst; try (split_and!; by auto); cbn in *.
  - destruct r; by split_and!.
  - edestruct collect_ok as (? & ? & ?); [exact Hc|exact Hok|eassumption|]. by split_and!.
  - destruct (loop_sleep _) as [ns|] eqn:E; [|by split_and!]. destruct (asked_ok _ _ _ E) as [Hr Hn]. cbn. split_and!; try done; try lia.
    intros s Hin Ha. specialize (Hn s Hin Ha). unfold kSlackNs, kMaxSleepNs, kMinSleepNs. lia.
  - destruct Hs as (? & ? & ?). cbn. split_and!; try done; lia.
Qed.

Lemma held_at s c pc : drive_inv s -> callers s !! c = Some pc -> pc <> CIdle -> lifecycle_mutex_ s = Some c /\ held s = pc.
Proof. intros Hi Hc Hne. pose proof (di_owner _ Hi c pc Hc Hne) as Hm. split; [done|]. unfold held. by rewrite Hm, Hc. Qed.

Ltac drive_cbn := cbn [timer clock running_ thread_valid_ thread_ threads lifecycle_mutex_ callers fired_ skipped_ held flags_ok] in *.

(** A step of a caller that leaves the loop threads alone. *)
Lemma caller_moves T t r v th ths m cs f k c pc' r' v' m' :
  drive_inv (mkDrive T t r v th ths m cs f k) -> is_Some (cs !! c) -> (m = None \/ m = Some c) ->
  m' = match pc' with CIdle => None | _ => Some c end -> flags_ok pc' r' v' ->
  (v' = v \/ v' = false /\ (v = true -> ths !! th = Some LGone)) -> (r' = true -> v' = true -> r = true) ->
  drive_inv (mkDrive T t r' v' th ths m' (<[c := pc']> cs) f k).
Proof.
  intros [Hc Ht Ho Hf Hl Hth Hr Hs] [pc0 Hpc] Hm -> Hfl Hv Hr'. split; drive_cbn; try done.
  - eapply holder_moves; [exact Ho|done|]. by destruct pc'.
  - unfold held. drive_cbn. destruct pc'; [done|..]; cbn; by rewrite list_lookup_insert_eq by (by eapply lookup_lt_Some).
  - intros n pc Hn Hne. destruct (Hl n pc Hn Hne) as [-> ->]. destruct Hv as [->|[-> Hg]]; [done|]. specialize (Hg eq_refl). congruence.
  - intros ->. destruct Hv as [<-|[? _]]; [by apply Hth|done].
  - intros -> Hg. destruct v'; [|done]. exfalso. specialize (Hr' eq_refl eq_refl). destruct Hv as [<-|[? _]]; [|done].
    by specialize (Hr Hr' Hg).
Qed.

Lemma table_moves T T' t r v th ths m cs f k :
  drive_inv (mkDrive T t r v th ths m cs f k) -> timer_ok t T' ->
  (forall s, s ∈ slots T' -> active s = true -> s ∈ slots T \/ t + kMinSleepNs <= next_fire_ns s) ->
  drive_inv (mkDrive T' t r v th ths m cs f k).
Proof.
  intros [Hc Ht Ho Hf Hl Hth Hr Hs] Hok Hnew. split; drive_cbn; try done.
  intros n pc Hn. eapply sleep_ok_later; [reflexivity|exact Hnew|]. by eapply Hs.
Qed.

Lemma loop_moves T t r v th ths m cs f k f' k' T' n pc pc' o :
  drive_inv (mkDrive T t r v th ths m cs f k) -> ths !! n = Some pc -> loop_step t r (T, pc) (T', pc') o ->
  drive_inv (mkDrive T' t r v th (<[n := pc']> ths) m cs f' k').
Proof.
  intros [Hc Ht Ho Hf Hl Hth Hr Hs] Hn Hl'. drive_cbn.
  destruct (loop_step_ok _ _ _ _ _ _ _ Hc Ht (Hs n pc Hn) Hl') as (Hg & Ht' & Hlen & Hs' & Hend).
  destruct (Hl n pc Hn Hg) as [-> ->]. split; drive_cbn; try done.
  - intros j p Hj Hne. apply lookup_insert_cases in Hj as [[-> ->]|[_ Hj]]; [done|by eapply Hl].
  - intros _. rewrite list_lookup_insert_eq by (by eapply lookup_lt_Some). by eexists.
  - intros -> Hd. rewrite list_lookup_insert_eq in Hd by (by eapply lookup_lt_Some). injection Hd as ->. by specialize (Hend eq_refl).
  - intros j p Hj. apply lookup_insert_cases in Hj as [[-> ->]|[Hne Hj]]; [done|].
    destruct (gone_or_not p) as [->|Hp]; [by cbn|]. by destruct Hne; apply (Hl j p Hj Hp).
Qed.

Lemma created_moves T t r v th ths m cs f k c :
  drive_inv (mkDrive T t r v th ths m cs f k) -> cs !! c = Some CCreate ->
  drive_inv (mkDrive T t r true (length ths) (ths ++ [LTop]) None (<[c := CIdle]> cs) f k).
Proof.
  intros Hi Hcs. destruct (held_at _ _ _ Hi Hcs ltac:(done)) as [Hm Hh]. drive_cbn. pose proof (di_flags _ Hi) as Hf. rewrite Hh in Hf. drive_cbn.
  destruct Hf as [-> ->], Hi as [Hc Ht Ho _ Hl Hth Hr Hs]. drive_cbn.
  assert (Hgone : forall n pc, ths !! n = Some pc -> pc = LGone).
  { intros n pc Hn. destruct (gone_or_not pc) as [|Hp]; [done|]. by destruct (Hl n pc Hn Hp). }
  split; drive_cbn; try done.
  - eapply holder_moves; [exact Ho|by right|done].
  - intros n pc Hn Hne. apply lookup_app_Some in Hn as [Hn|[Hge Hn]]; [by destruct Hne; eapply Hgone|].
    split; [done|]. apply list_lookup_singleton_Some in Hn as [Hz _]. lia.
  - intros _. rewrite lookup_app_r, Nat.sub_diag by done. by eexists.
  - intros _. by rewrite lookup_app_r, Nat.sub_diag by done.
  - intros n pc Hn. apply lookup_app_Some in Hn as [Hn|[Hge Hn]]; [by rewrite (Hgone _ _ Hn)|].
    by apply list_lookup_singleton_Some in Hn as [_ <-].
Qed.

Ltac holder Hi Hm Hf :=
  destruct (held_at _ _ _ Hi ltac:(eassumption) ltac:(done)) as [Hm Hf]; pose proof (di_flags _ Hi); rewrite Hf in *; clear Hf; rename select (flags_ok _ _ _) into Hf; drive_cbn.
Ltac caller_case := eapply caller_moves; try (by eauto); drive_cbn; naive_solver.

Lemma drive_inv_step s s' : drive_inv s -> drive_step s s' -> drive_inv s'.
Proof.
  intros Hi Hst. destruct Hst.
  - by eapply loop_moves.
  - destruct Hi as [Hc Ht Ho Hf Hl Hth Hr Hs]. split; drive_cbn; try done; [by eapply timer_ok_later|].
    intros n pc Hn. eapply sleep_ok_later; [done| |by eapply Hs]. by auto.
  - pose proof (schedule_ok T t target signal ms qos once (di_clock _ Hi) (di_timer _ Hi) ltac:(done)) as (? & _ & ?).
    by eapply table_moves.
  - pose proof (cancel_ok T t id (di_timer _ Hi)) as (? & _ & Hin). eapply table_moves; [done|done|]. intros s Hs Ha. left. by apply Hin.
  - pose proof (di_flags _ Hi) as Hf. by caller_case.
  - holder Hi Hm Hf. subst. by caller_case.
  - holder Hi Hm Hf. subst. by caller_case.
  - by eapply created_moves.
  - holder Hi Hm Hf. destruct Hf as [-> ->]. by caller_case.
  - pose proof (di_flags _ Hi) as Hf. by caller_case.
  - holder Hi Hm Hf. subst. destruct v; by caller_case.
  - holder Hi Hm Hf. destruct Hf as [-> ->]. by caller_case.
Qed.

Lemma drive_inv_reach s s' : drive_inv s -> rtc drive_step s s' -> drive_inv s'.
Proof. intros Hi Hs. induction Hs; eauto using drive_inv_step. Qed.

(** ** [stop] joins *)

(** The steps the loop can still take once [running_] is false. *)
Definition pc_left (MaxTasks : nat) (pc : loop_pc) : nat :=
  match pc with
  | LGone => 0 | LTop => 1 | LSleep _ _ _ => 2 | LNap _ _ => 3 | LAsk => 4
  | LSubmit ps => 5 + length ps | LCollect => 6 + MaxTasks
  end.

Definition loop_left (s : drive_sys) : nat :=
  from_option (pc_left (length (slots (timer s)))) 0%nat (threads s !! thread_ s).

Lemma loop_step_less T now pc T' pc' o :
  clock_ok now -> timer_ok now T -> loop_step now false (T, pc) (T', pc') o ->
  length (slots T') = length (slots T) /\ (pc_left (length (slots T)) pc' < pc_left (length (slots T)) pc)%nat.
Proof.
  intros Hc Hok Hl. inversion Hl; subst; cbn; try (split; [done|lia]).
  - edestruct collect_ok as (_ & Hlen & Hf); [exact Hc|exact Hok|eassumption|]. split; [done|lia].
  - split; [done|]. destruct (loop_sleep _); cbn; lia.
Qed.

(** What any step does while a caller is in [pthread_join]. *)
Lemma drive_join_step s s' : drive_inv s -> held s = CJoin -> drive_step s s' ->
  held s' = CIdle /\ threads s !! thread_ s = Some LGone \/
  held s' = CJoin /\ (loop_left s' <= loop_left s)%nat /\ (threads s' = threads s \/ (loop_left s' < loop_left s)%nat).
Proof.
  intros Hi Hh Hst. pose proof (di_flags _ Hi) as Hf. rewrite Hh in Hf. drive_cbn. destruct Hf as [Hr Hv].
  assert (Honly : forall c pc, callers s !! c = Some pc -> pc <> CIdle -> pc = CJoin).
  { intros c pc Hc Hne. destruct (held_at _ _ _ Hi Hc Hne) as [_ Hpc]. congruence. }
  destruct Hst; drive_cbn; subst; unfold held in Hh |- *; drive_cbn; try done;
    try (by specialize (Honly _ _ ltac:(eassumption) ltac:(done))).
  - right. split; [done|]. destruct (loop_step_ok _ _ _ _ _ _ _ (di_clock _ Hi) (di_timer _ Hi) (di_sleep _ Hi n pc H) H0) as (Hg & _).
    destruct (di_live _ Hi n pc H Hg) as [_ ->]. drive_cbn.
    destruct (loop_step_less _ _ _ _ _ _ (di_clock _ Hi) (di_timer _ Hi) H0) as [Hlen Hlt]. drive_cbn.
    assert (Hless : (loop_left (mkDrive T' t false true th (<[th := pc']> ths) m cs (count_fire o f k).1 (count_fire o f k).2) <
      loop_left (mkDrive T t false true th ths m cs f k))%nat); [|split; [lia|by right]].
    unfold loop_left. drive_cbn. rewrite list_lookup_insert_eq by (by eapply lookup_lt_Some). rewrite H, Hlen. exact Hlt.
  - right. split; [done|]. split; [done|by left].
  - right. split; [done|]. unfold loop_left. drive_cbn.
    pose proof (schedule_ok T t target signal ms qos once (di_clock _ Hi) (di_timer _ Hi) H) as (_ & Hlen & _). rewrite Hlen. split; [done|by left].
  - right. split; [done|]. unfold loop_left. drive_cbn. pose proof (cancel_ok T t id (di_timer _ Hi)) as (_ & Hlen & _). rewrite Hlen.
    split; [done|by left].
  - left. by split.
Qed.

(** The loop or the join can move, at once or when the sleep is over. *)
Lemma drive_join_progress s : drive_inv s -> held s = CJoin -> clock_ok (clock s + kMaxSleepNs) ->
  exists s1 s2, (s1 = s \/ drive_step s s1 /\ clock s1 = clock s + kMaxSleepNs) /\ held s1 = CJoin /\
    drive_step s1 s2 /\ (held s2 = CIdle \/ (loop_left s2 < loop_left s)%nat).
Proof.
  intros Hi Hh Hc. pose proof (di_flags _ Hi) as Hf. rewrite Hh in Hf. drive_cbn. destruct Hf as [Hr Hv].
  destruct (di_thread _ Hi Hv) as [pc Hpc]. pose proof (di_sleep _ Hi _ _ Hpc) as Hs. pose proof (di_clock _ Hi) as Hc0.
  pose proof (di_timer _ Hi) as Hok. destruct s as [T t r v th ths m cs f k]. drive_cbn. subst.
  assert (Hmove : forall T' pc' o, loop_step t false (T, pc) (T', pc') o ->
    exists s1 s2, (s1 = mkDrive T t false true th ths m cs f k \/
        drive_step (mkDrive T t false true th ths m cs f k) s1 /\ clock s1 = t + kMaxSleepNs) /\ held s1 = CJoin /\
      drive_step s1 s2 /\ (held s2 = CIdle \/ (loop_left s2 < loop_left (mkDrive T t false true th ths m cs f k))%nat)).
  { intros T' pc' o Hl. do 2 eexists. split; [by left|]. split; [done|]. split; [by eapply ds_loop|]. right. unfold loop_left. drive_cbn.
    destruct (loop_step_less _ _ _ _ _ _ Hc0 Hok Hl) as [-> ?]. by rewrite list_lookup_insert_eq, Hpc by (by eapply lookup_lt_Some). }
  destruct pc as [| |[|p ps]| |ns asked|ns asked start|].
  - eapply Hmove, lp_test.
  - destruct (collect_spec t (slots T) Hc0 Hok) as (l' & Hcol & _). eapply Hmove. by eapply lp_collect.
  - eapply Hmove, lp_submitted.
  - by eapply Hmove, (lp_submit _ _ _ _ _ true).
  - eapply Hmove, lp_ask.
  - eapply Hmove, lp_nap.
  - cbn in Hs. eexists (mkDrive T (t + kMaxSleepNs) _ _ _ _ _ _ _ _), _. split.
    { right. split; [apply ds_tick; [unfold kMaxSleepNs; lia|done]|done]. }
    split; [exact Hh|]. split; [eapply ds_loop; [exact Hpc|apply lp_wake; lia]|]. right. unfold loop_left. drive_cbn.
    rewrite list_lookup_insert_eq, Hpc by (by eapply lookup_lt_Some). cbn. lia.
  - unfold held in Hh. drive_cbn. destruct m as [c|]; [|done]. destruct (cs !! c) as [p|] eqn:Ec; [|done]. cbn in Hh. subst p.
    do 2 eexists. split; [by left|]. split; [unfold held; drive_cbn; by rewrite Ec|]. split; [by eapply ds_joined|]. by left.
Qed.

(** C19: The timer's drive thread.  Let any number of callers start, stop, schedule
    and cancel in any interleaving with the loop, its submissions and the clock.
    At most one loop thread is ever alive; when the lifecycle mutex is free, it is
    alive if and only if [running_] says so: after [stop] returned, or after a
    failed [pthread_create], nothing fires until the next [start], and after a
    successful [start] the loop is there. *)
Theorem timer_drive_sound (MaxTasks ncallers : nat) (now : Z) (s : drive_sys) :
  clock_ok now -> rtc drive_step (drive_start MaxTasks ncallers now) s ->
  (forall i j pi pj, threads s !! i = Some pi -> threads s !! j = Some pj -> pi <> LGone -> pj <> LGone -> i = j) /\
  (lifecycle_mutex_ s = None ->
     (running_ s = true <-> exists n pc, threads s !! n = Some pc /\ pc <> LGone)).
Proof.
  intros Hc Hs. pose proof (drive_inv_reach _ _ (drive_inv_start MaxTasks ncallers now Hc) Hs) as Hi. split.
  - intros i j pi pj Hpi Hpj Hni Hnj. destruct (di_live _ Hi _ _ Hpi Hni) as [_ ->]. by destruct (di_live _ Hi _ _ Hpj Hnj) as [_ ->].
  - intros Hm. pose proof (di_flags _ Hi) as Hf. unfold held in Hf. rewrite Hm in Hf. cbn in Hf. split.
    + intros Hr. rewrite Hr in Hf. destruct (di_thread _ Hi (eq_sym Hf)) as [pc Hpc]. exists (thread_ s), pc. split; [done|].
      intros ->. pose proof (di_runs _ Hi Hr Hpc). congruence.
    + intros (n & pc & Hpc & Hne). rewrite Hf. by eapply di_live.
Qed.

(** The loop does not oversleep.  Whenever it is asleep, for every active
    task, the sleep ends at the task's due time at the latest, but for what no
    sleeper can know: 9 ms at most for a task scheduled during the sleep, plus the
    time the thread lost between computing the sleep and reading the clock for it.
    A sleep is 1 to 10 ms long. *)
Theorem timer_wakes_in_time (MaxTasks ncallers : nat) (now : Z) (s : drive_sys) (n : nat) (ns asked start : Z) :
  clock_ok now -> rtc drive_step (drive_start MaxTasks ncallers now) s -> threads s !! n = Some (LSleep ns asked start) ->
  kMinSleepNs <= ns <= kMaxSleepNs /\ asked <= start <= clock s /\
  forall t, t ∈ slots (timer s) -> active t = true ->
    start + ns <= next_fire_ns t + (kMaxSleepNs - kMinSleepNs) + (start - asked).
Proof.
  intros Hc Hs Hn. pose proof (drive_inv_reach _ _ (drive_inv_start MaxTasks ncallers now Hc) Hs) as Hi.
  destruct (di_sleep _ Hi _ _ Hn) as (Ha & Hr & Ht). split_and!; try lia. intros t Hin Hact. specialize (Ht t Hin Hact).
  unfold kSlackNs in Ht. lia.
Qed.

(** [stop] joins.  While a caller is in [pthread_join], no step of anybody
    increases what the loop has left, each step of the loop decreases it, the
    caller returns only when the loop thread is gone, and something of this can
    always happen, within 10 ms of the clock: at most [MaxTasks] submissions and a
    constant number of steps separate the caller from its return. *)
Theorem timer_stop_joins (MaxTasks ncallers : nat) (now : Z) (s : drive_sys) :
  clock_ok now -> rtc drive_step (drive_start MaxTasks ncallers now) s -> held s = CJoin ->
  (forall s', drive_step s s' ->
     held s' = CIdle /\ threads s !! thread_ s = Some LGone \/
     held s' = CJoin /\ (loop_left s' <= loop_left s)%nat /\ (threads s' = threads s \/ (loop_left s' < loop_left s)%nat)) /\
  (clock_ok (clock s + kMaxSleepNs) ->
     exists s1 s2, (s1 = s \/ drive_step s s1 /\ clock s1 = clock s + kMaxSleepNs) /\ held s1 = CJoin /\
       drive_step s1 s2 /\ (held s2 = CIdle \/ (loop_left s2 < loop_left s)%nat)).
Proof.
  intros Hc Hs Hh. pose proof (drive_inv_reach _ _ (drive_inv_start MaxTasks ncallers now Hc) Hs) as Hi.
  split; [intros s'; by apply drive_join_step|by apply drive_join_progress].
Qed.

(** ** Runs: one caller, two slots, a task every 5 ms *)

Ltac drive_go step := eapply rtc_l; [step|].
Ltac go_loop rule := drive_go ltac:(eapply (ds_loop _ _ _ _ _ _ _ _ _ _ _ 0); [reflexivity|by eapply rule]).
Ltac go_started := drive_go ltac:(by apply (ds_start _ _ _ _ _ _ _ _ _ 0)); drive_go ltac:(by eapply (ds_exchange _ _ _ _ _ _ _ _ _ 0));
  drive_go ltac:(by eapply (ds_created _ _ _ _ _ _ _ _ _ _ 0)).
Ltac go_schedule := drive_go ltac:(apply (ds_schedule _ _ _ _ _ _ _ _ _ _ (mkTarget 1) 7 5 (mkQos false false) false); lia).
Ltac go_tick t := drive_go ltac:(apply (ds_tick _ _ _ _ _ _ _ _ _ _ t); [vm_compute; congruence|unfold clock_ok, kNsPerMs; lia]).

Definition demo_start : drive_sys := drive_start 2 1 1000.

Lemma demo_clock : clock_ok 1000.
Proof. unfold clock_ok, kNsPerMs. lia. Qed.

Lemma sleeping_run : exists s, rtc drive_step demo_start s /\ threads s = [LSleep 5000000 1000 2000] /\ lifecycle_mutex_ s = None /\
  running_ s = true /\ map next_fire_ns (slots (timer s)) = [5001000; 0] /\ map active (slots (timer s)) = [true; false].
Proof.
  eexists. split; [|split].
  { go_started. go_schedule. go_loop lp_test. go_loop lp_collect. go_loop lp_submitted. go_loop lp_ask. go_tick 2000. go_loop lp_nap. apply rtc_refl. }
  all: by vm_compute.
Qed.

Lemma joining_run : exists s, rtc drive_step demo_start s /\ held s = CJoin /\ loop_left s = 8%nat.
Proof.
  eexists. split; [|split].
  { go_started. go_loop lp_test. drive_go ltac:(by apply (ds_stop _ _ _ _ _ _ _ _ _ 0)). drive_go ltac:(by eapply (ds_request _ _ _ _ _ _ _ _ _ _ 0)). apply rtc_refl. }
  all: by vm_compute.
Qed.

Lemma timer_drive_sound_witness :
  exists s, threads s = [LSleep 5000000 1000 2000] /\ (running_ s = true <-> exists n pc, threads s !! n = Some pc /\ pc <> LGone).
Proof.
  destruct sleeping_run as (s & Hs & Ht & Hm & _). exists s. split; [exact Ht|].
  exact (proj2 (timer_drive_sound 2 1 1000 s demo_clock Hs) Hm).
Defined.

Lemma timer_wakes_in_time_witness :
  exists s, threads s = [LSleep 5000000 1000 2000] /\
    forall t, t ∈ slots (timer s) -> active t = true -> 2000 + 5000000 <= next_fire_ns t + 9000000 + (2000 - 1000).
Proof.
  destruct sleeping_run as (s & Hs & Ht & _). exists s. split; [exact Ht|].
  exact (proj2 (proj2 (timer_wakes_in_time 2 1 1000 s 0 5000000 1000 2000 demo_clock Hs ltac:(by rewrite Ht)))).
Defined.

Lemma timer_stop_joins_witness :
  exists s, held s = CJoin /\ loop_left s = 8%nat /\
    (forall s', drive_step s s' ->
      held s' = CIdle /\ threads s !! thread_ s = Some LGone \/
      held s' = CJoin /\ (loop_left s' <= loop_left s)%nat /\ (threads s' = threads s \/ (loop_left s' < loop_left s)%nat)).
Proof.
  destruct joining_run as (s & Hs & Hh & Hl). exists s. split; [exact Hh|]. split; [exact Hl|].
  exact (proj1 (timer_stop_joins 2 1 1000 s demo_clock Hs Hh)).
Defined.

(** [stop] called by the loop thread itself, from a handler run in place, does not
    join it; the next [start] succeeds and leaves two loops on one table. *)
Lemma self_stop_leaves_two_loops :
  exists s s', rtc drive_step demo_start s /\ lifecycle_mutex_ s = None /\ threads s = [LSubmit []] /\
    rtc drive_step (self_stop s) s' /\ threads s' = [LCollect; LCollect].
Proof.
  do 2 eexists. split; [|split; [|split; [|split]]].
  { go_started. go_schedule. go_tick 6000000. go_loop lp_test. go_loop lp_collect. drive_go ltac:(eapply (ds_loop _ _ _ _ _ _ _ _ _ _ _ 0); [reflexivity|by apply (lp_submit _ _ _ _ _ true)]). apply rtc_refl. }
  { by vm_compute. }
  { by vm_compute. }
  { go_started. go_loop lp_submitted. go_loop lp_ask. drive_go ltac:(eapply (ds_loop _ _ _ _ _ _ _ _ _ _ _ 0); [reflexivity|apply lp_nap]).
    go_tick 30000000. drive_go ltac:(eapply (ds_loop _ _ _ _ _ _ _ _ _ _ _ 0); [reflexivity|apply lp_wake; vm_compute; congruence]). go_loop lp_test.
    drive_go ltac:(eapply (ds_loop _ _ _ _ _ _ _ _ _ _ _ 1); [reflexivity|apply lp_test]). apply rtc_refl. }
  by vm_compute.
Qed.

(** Within a millisecond of the next task the loop does not sleep at all. *)
Lemma no_sleep_below_floor next : 0 <= next < kMinSleepNs -> loop_sleep next = None.
Proof.
  unfold loop_sleep, kMinSleepNs, kMaxSleepNs, kIdleSleepNs. intros H. rewrite (proj2 (Z.eqb_neq _ _)) by lia.
  rewrite (proj2 (Z.ltb_ge _ _)) by lia. by rewrite (proj2 (Z.leb_gt _ _)) by lia.
Qed.
