(* ===== verification/PosixSync.v ===== *)
(** * The POSIX platform layer (src/core/pal_posix.cpp, include/coact/pal_posix.hpp)

    Time, the execution context of a thread, the dispatcher thread's handle, and
    the counting semaphore over a mutex and a condition variable.  [sem_step]
    interleaves any number of takers and releasers: each critical section of the
    semaphore's mutex is one step, and a wait gives the mutex up at the moment it
    blocks.  The dispatcher's own wait and signal are in [WakeLatch], the software
    interrupts in [PosixIrq]. *)

From stdpp Require Import functions.
From S2P Require Import Prelude Vocab PalTime PalContext.
Local Open Scope Z_scope.

(** ** Time *)

Record timespec := mkTs { tv_sec : Z; tv_nsec : Z }.

Definition ts_ns (t : timespec) : Z := tv_sec t * 1000000000 + tv_nsec t.

(** The absolute deadline that every timed wait computes from the realtime clock. *)
Definition deadline_after (now : timespec) (timeout_ms : Z) : timespec :=
  let sec := tv_sec now + timeout_ms / 1000 in
  let nsec := tv_nsec now + timeout_ms mod 1000 * 1000000 in
  if 1000000000 <=? nsec then mkTs (sec + 1) (nsec - 1000000000) else mkTs sec nsec.

Record tick_config := mkTickCfg { tick_hz_ : Z; ns_per_tick_ : Z }.

Definition set_tick_hz (hz : Z) : tick_config :=
  if (0 =? hz) || (1000000000 <? hz) then mkTickCfg 0 0 else mkTickCfg hz (1000000000 / hz).

Definition posix_monotonic_ns (c : tick_config) (ts : timespec) : Z :=
  let raw := wrap 64 (wrap 64 (tv_sec ts * 1000000000) + tv_nsec ts) in
  if negb (0 =? tick_hz_ c) then raw / ns_per_tick_ c * ns_per_tick_ c else raw.

(** [res] is what [clock_getres] reports. *)
Definition posix_resolution_ns (c : tick_config) (res : timespec) : Z :=
  if negb (0 =? tick_hz_ c) then ns_per_tick_ c else wrap 64 (wrap 64 (tv_sec res * 1000000000) + tv_nsec res).

(** [sleep_us]'s first [nanosleep]; an interrupted one goes on with what is left. *)
Definition sleep_request (us : Z) : timespec := mkTs (us / 1000000) (us mod 1000000 * 1000).

(** ** A thread's context: thread-local, so one per thread *)

Definition contexts : Type := nat -> ExecutionContext.

Definition tls_set (self : nat) (c : ExecutionContext) (tls : contexts) : contexts := <[self := c]> tls.

Definition posix_register (self : nat) (prio : Z) (tls : contexts) : bool * contexts :=
  if negb (valid_prio prio) then (false, tls) else (true, tls_set self (mkCtx Task prio 0 true) tls).

Definition posix_enter_direct (self : nat) (tls : contexts) : contexts :=
  let c := tls self in tls_set self (mkCtx (kind c) (logical_prio c) (depth_up (direct_depth c)) (prio_valid c)) tls.
Definition posix_leave_direct (self : nat) (tls : contexts) : contexts :=
  let c := tls self in tls_set self (mkCtx (kind c) (logical_prio c) (depth_down (direct_depth c)) (prio_valid c)) tls.

(** [dispatcher_entry], on the new thread. *)
Definition posix_dispatcher_entry (self : nat) (tls : contexts) : contexts := tls_set self (plain_ctx Dispatcher) tls.

Definition in_dispatcher_thread (self : nat) (tls : contexts) : bool :=
  match kind (tls self) with Dispatcher => true | _ => false end.

Definition tls_start : contexts := fun _ => plain_ctx Task.

(** ** Threads *)

(** [created]: the answer of [pthread_create]; the result of [join]: whether
    [pthread_join] is called. *)
Definition start_dispatcher (created : bool) (thread_valid_ : bool) : bool := created.
Definition join_dispatcher (thread_valid_ : bool) : bool * bool := (thread_valid_, false).
Definition posix_thread_create (created : bool) (valid : bool) : bool * bool := (created, created).
Definition posix_thread_join (valid : bool) : bool * bool := (valid, false).

(** ** The semaphore *)

Inductive take_mode := TryOnce | Forever | Timed.

Definition take_mode_of (timeout_ms : Z) : take_mode :=
  if 0 =? timeout_ms then TryOnce else if PalTime.kWaitForever =? timeout_ms then Forever else Timed.

(** [sem_init]: the two system calls' answers. *)
Definition posix_sem_init (mutex_ok cond_ok : bool) (initial : Z) : option Z :=
  if negb mutex_ok then None else if negb cond_ok then None else Some initial.

(** A taker: outside; in its condition wait; leaving the wait without a timeout,
    before it has the mutex back; the same after a timeout; returned. *)
Inductive taker := TOut | TBlocked (m : take_mode) | TWoken (m : take_mode) | TTimedOut | TDone (ok : bool).

Record sem_sys := mkSem {
  count : Z;               (* uint32_t *)
  takers : list taker;
  released : nat           (* [sem_release] calls so far *)
}.

(** The critical section of a taker that looks at the count; [gives_up]: it may
    not wait (again). *)
Definition take_section (m : take_mode) (gives_up : bool) (count : Z) : Z * taker :=
  if 0 <? count then (count - 1, TDone true) else if gives_up then (count, TDone false) else (count, TBlocked m).

Definition is_blocked (t : taker) : bool := match t with TBlocked _ => true | _ => false end.
Definition is_woken (t : taker) : bool := match t with TWoken _ | TTimedOut => true | _ => false end.

Definition wake_taker (t : taker) : taker := match t with TBlocked m => TWoken m | t => t end.

Inductive sem_step : sem_sys -> sem_sys -> Prop :=
| ss_take c ts r i m c' t' :
    ts !! i = Some TOut -> take_section m (match m with TryOnce => true | _ => false end) c = (c', t') ->
    sem_step (mkSem c ts r) (mkSem c' (<[i := t']> ts) r)
| ss_woken c ts r i m c' t' :
    ts !! i = Some (TWoken m) -> take_section m false c = (c', t') ->
    sem_step (mkSem c ts r) (mkSem c' (<[i := t']> ts) r)
| ss_timed_out c ts r i c' t' :
    ts !! i = Some TTimedOut -> take_section Timed true c = (c', t') ->
    sem_step (mkSem c ts r) (mkSem c' (<[i := t']> ts) r)
| ss_spurious c ts r i m :
    ts !! i = Some (TBlocked m) -> sem_step (mkSem c ts r) (mkSem c (<[i := TWoken m]> ts) r)
| ss_timeout c ts r i :
    ts !! i = Some (TBlocked Timed) -> sem_step (mkSem c ts r) (mkSem c (<[i := TTimedOut]> ts) r)
| ss_release c ts r i t :   (* pthread_cond_signal wakes one of the blocked *)
    ts !! i = Some t -> is_blocked t = true ->
    sem_step (mkSem c ts r) (mkSem (wrap 32 (c + 1)) (<[i := wake_taker t]> ts) (S r))
| ss_release_nobody c ts r :
    Forall (fun t => is_blocked t = false) ts -> sem_step (mkSem c ts r) (mkSem (wrap 32 (c + 1)) ts (S r)).

Definition sem_start (initial : Z) (ntakers : nat) : sem_sys := mkSem initial (replicate ntakers TOut) 0.

(** ** The serializing critical section of include/coact/pal.hpp *)

(** [test_and_set] and [clear] of the flag, one step each; a thread is outside,
    spinning or holding. *)
Inductive spin_pc := SpOut | SpTry | SpHeld.

Inductive spin_step : bool * list spin_pc -> bool * list spin_pc -> Prop :=
| sp_enter f ps i : ps !! i = Some SpOut -> spin_step (f, ps) (f, <[i := SpTry]> ps)
| sp_test f ps i : ps !! i = Some SpTry -> spin_step (f, ps) (true, if f then ps else <[i := SpHeld]> ps)
| sp_clear f ps i : ps !! i = Some SpHeld -> spin_step (f, ps) (false, <[i := SpOut]> ps).

(** * What the POSIX layer's primitives promise

    About [PosixSync]: deadlines and clock readings are exact, a context belongs to
    its thread, no release of a semaphore is lost, the spinning critical section
    excludes. *)

(** ** Time *)

Definition ts_ok (t : timespec) : Prop := 0 <= tv_sec t /\ 0 <= tv_nsec t < 1000000000.

(** A timed wait's deadline is a valid time exactly [timeout_ms] away. *)
Lemma deadline_exact (now : timespec) (timeout_ms : Z) :
  ts_ok now -> in_u 32 timeout_ms ->
  ts_ok (deadline_after now timeout_ms) /\ ts_ns (deadline_after now timeout_ms) = ts_ns now + timeout_ms * 1000000.
Proof.
  intros [Hs Hn] Hm. unfold in_u in Hm. unfold deadline_after, ts_ok, ts_ns.
  pose proof (Z.div_mod timeout_ms 1000 ltac:(lia)). pose proof (Z.mod_pos_bound timeout_ms 1000 ltac:(lia)).
  pose proof (Z.div_pos timeout_ms 1000 ltac:(lia) ltac:(lia)). case_test; cbn; lia.
Qed.

Lemma sleep_request_exact (us : Z) :
  in_u 32 us -> ts_ok (sleep_request us) /\ ts_ns (sleep_request us) = us * 1000.
Proof.
  intros Hu. unfold in_u in Hu. unfold sleep_request, ts_ok, ts_ns. cbn.
  pose proof (Z.div_mod us 1000000 ltac:(lia)). pose proof (Z.mod_pos_bound us 1000000 ltac:(lia)).
  pose proof (Z.div_pos us 1000000 ltac:(lia) ltac:(lia)). lia.
Qed.

Lemma posix_raw (t : timespec) : ts_ok t -> ts_ns t < 2 ^ 64 -> wrap 64 (wrap 64 (tv_sec t * 1000000000) + tv_nsec t) = ts_ns t.
Proof. unfold ts_ns. intros [? ?] ?. rewrite (wrap_small 64 (tv_sec t * _)), wrap_small by (unfold in_u; lia). done. Qed.

(** The clock, quantised or not: a reading is a multiple of the resolution, at most
    one resolution behind the time, and never runs backwards. *)
Lemma posix_clock_quantises (hz : Z) (res t t' : timespec) :
  ts_ok t -> ts_ok t' -> ts_ns t <= ts_ns t' < 2 ^ 64 -> 0 < hz <= 1000000000 ->
  let c := set_tick_hz hz in
  let q := posix_resolution_ns c res in
  0 < q /\ posix_monotonic_ns c t mod q = 0 /\
  posix_monotonic_ns c t <= ts_ns t < posix_monotonic_ns c t + q /\ posix_monotonic_ns c t <= posix_monotonic_ns c t'.
Proof.
  intros Ht Ht' Hle Hhz. cbv zeta. unfold set_tick_hz. rewrite (proj2 (Z.eqb_neq 0 hz)), (proj2 (Z.ltb_ge _ _)) by lia. cbn [orb].
  unfold posix_resolution_ns, posix_monotonic_ns. cbn [tick_hz_ ns_per_tick_]. rewrite (proj2 (Z.eqb_neq 0 hz)) by lia. cbn [negb]. rewrite !posix_raw by (done || lia).
  assert (Hq : 0 < 1000000000 / hz) by (apply Z.div_str_pos; lia). set (q := 1000000000 / hz) in *.
  pose proof (Z.div_mod (ts_ns t) q ltac:(lia)). pose proof (Z.mod_pos_bound (ts_ns t) q Hq).
  pose proof (Z.div_le_mono (ts_ns t) (ts_ns t') q Hq ltac:(lia)). split_and!; try nia. by apply Z.mod_mul; lia.
Qed.

(** ** Contexts *)

Inductive tls_op := TRegister (prio : Z) | TEnter | TLeave | TDispatcher.

Definition tls_step (self : nat) (o : tls_op) (tls : contexts) : contexts :=
  match o with
  | TRegister prio => (posix_register self prio tls).2
  | TEnter => posix_enter_direct self tls
  | TLeave => posix_leave_direct self tls
  | TDispatcher => posix_dispatcher_entry self tls
  end.

Definition tls_run (ops : list (nat * tls_op)) : contexts := foldl (fun tls o => tls_step o.1 o.2 tls) tls_start ops.

Lemma tls_set_same self c tls : tls_set self c tls self = c.
Proof. apply fn_lookup_insert. Qed.

Lemma tls_set_other self u c tls : u <> self -> tls_set self c tls u = tls u.
Proof. intros Hne. by apply fn_lookup_insert_ne. Qed.

(** What a call makes of its own thread's context. *)
Definition own_step (o : tls_op) (c : ExecutionContext) : ExecutionContext :=
  match o with
  | TRegister prio => if valid_prio prio then mkCtx Task prio 0 true else c
  | TEnter => mkCtx (kind c) (logical_prio c) (depth_up (direct_depth c)) (prio_valid c)
  | TLeave => mkCtx (kind c) (logical_prio c) (depth_down (direct_depth c)) (prio_valid c)
  | TDispatcher => plain_ctx Dispatcher
  end.

Lemma tls_step_own self o tls u : tls_step self o tls u = if bool_decide (u = self) then own_step o (tls self) else tls u.
Proof.
  case_bool_decide as Hu; [subst u|]; destruct o; unfold tls_step, posix_register, posix_enter_direct, posix_leave_direct, posix_dispatcher_entry, own_step;
    try destruct (valid_prio prio); cbn [negb snd]; rewrite ?tls_set_same, ?tls_set_other by done; done.
Qed.

(** A thread's context is what its own calls made it, whatever the others do; only
    [dispatcher_entry] makes a dispatcher. *)
Lemma context_is_thread_local (ops : list (nat * tls_op)) (t : nat) :
  tls_run ops t = tls_run (filter (fun o => o.1 = t) ops) t /\
  (in_dispatcher_thread t (tls_run ops) = true -> (t, TDispatcher) ∈ ops).
Proof.
  unfold tls_run, in_dispatcher_thread. induction ops as [|[u o] ops [IH Hd]] using rev_ind; [done|].
  rewrite filter_app, !foldl_app. cbn [foldl fst snd]. rewrite tls_step_own, filter_cons, filter_nil. cbn [fst].
  destruct (decide (u = t)) as [->|Hne].
  - rewrite bool_decide_true by done. cbn [foldl fst snd]. rewrite tls_step_own, bool_decide_true, <- IH by done. split; [done|].
    intros Hk. apply elem_of_app. destruct o as [prio| | |]; [left; apply Hd..|right; by apply list_elem_of_singleton];
      unfold own_step in Hk; try done. by destruct (valid_prio prio).
  - rewrite bool_decide_false by done. cbn [foldl]. split; [done|]. intros Hk. apply elem_of_app. left. by apply Hd.
Qed.

(** Direct dispatches nest: a balanced pair gives the depth back, below 255. *)
Lemma direct_nests self tls :
  0 <= direct_depth (tls self) < 255 -> posix_leave_direct self (posix_enter_direct self tls) self = tls self.
Proof.
  intros Hd. unfold posix_leave_direct, posix_enter_direct. rewrite !tls_set_same. cbn [kind logical_prio direct_depth prio_valid].
  destruct (tls self) as [k p d v]. cbn in *. unfold depth_up, depth_down. rewrite wrap_small by (unfold in_u; lia).
  rewrite (proj2 (Z.ltb_lt 0 (d + 1))) by lia. f_equal. lia.
Qed.

(** ** The semaphore *)

Definition took (t : taker) : bool := match t with TDone true => true | _ => false end.

(** Tokens are conserved; while somebody is blocked, every token has a woken taker
    on its way. *)
Record sem_inv (initial : Z) (s : sem_sys) : Prop := {
  si_count : 0 <= count s;
  si_tokens : count s + Z.of_nat (countb took (takers s)) = initial + Z.of_nat (released s);
  si_woken : (exists i t, takers s !! i = Some t /\ is_blocked t = true) -> count s <= Z.of_nat (countb is_woken (takers s))
}.

Lemma blocked_stays (ts : list taker) (i : nat) (t' : taker) :
  is_blocked t' = false -> (exists j u, <[i := t']> ts !! j = Some u /\ is_blocked u = true) ->
  exists j u, ts !! j = Some u /\ is_blocked u = true.
Proof.
  intros Hb (j & u & Hj & Hu). apply lookup_insert_cases in Hj as [[-> ->]|[_ Hj]]; [congruence|]. by exists j, u.
Qed.

(** One taker moves and the count with it. *)
Lemma taker_moves initial c ts r i t c' t' r' :
  sem_inv initial (mkSem c ts r) -> ts !! i = Some t -> took t = false ->
  c' + (if took t' then 1 else 0) = c + (Z.of_nat r' - Z.of_nat r) -> 0 <= c' ->
  (is_blocked t' = true -> c' <= Z.of_nat (countb is_woken ts) - (if is_woken t then 1 else 0)) ->
  (is_blocked t' = false -> is_blocked t = true \/ (exists j u, ts !! j = Some u /\ is_blocked u = true) ->
     c' - c <= (if is_woken t' then 1 else 0) - (if is_woken t then 1 else 0) \/
     c' <= Z.of_nat (countb is_woken ts) + (if is_woken t' then 1 else 0) - (if is_woken t then 1 else 0)) ->
  sem_inv initial (mkSem c' (<[i := t']> ts) r').
Proof.
  intros [Hc Ht Hw] Hi Htk Htok H0 Hbl Hnb. cbn in *.
  pose proof (countb_insert took ts i t t' Hi) as Htook. pose proof (countb_insert is_woken ts i t t' Hi) as Hwoken.
  rewrite Htk in Htook. split; cbn; [done|destruct (took t'); lia|]. intros Hex. destruct (is_blocked t') eqn:Hb.
  - specialize (Hbl eq_refl). assert (is_woken t' = false) as Hw' by (by destruct t'). rewrite Hw' in Hwoken. destruct (is_woken t); lia.
  - pose proof (blocked_stays _ _ _ Hb Hex) as Hex'. specialize (Hw Hex'). specialize (Hnb eq_refl (or_intror Hex')).
    destruct (is_woken t), (is_woken t'); lia.
Qed.

Lemma sem_inv_start (initial : Z) (n : nat) : 0 <= initial -> sem_inv initial (sem_start initial n).
Proof.
  intros Hi. assert (Hz : countb took (replicate n TOut) = 0%nat) by (by induction n).
  split; cbn; rewrite ?Hz; [lia|lia|]. intros (i & t & [-> _]%lookup_replicate & Hb). done.
Qed.

Lemma take_section_spec m g c c' t' :
  0 <= c -> take_section m g c = (c', t') ->
  0 <= c' /\ c' + (if took t' then 1 else 0) = c /\ is_woken t' = false /\ (is_blocked t' = true -> c' = 0).
Proof. intros Hc. unfold take_section. destruct (Z.ltb_spec 0 c); [|destruct g]; intros [= <- <-]; cbn; split_and!; try done; lia. Qed.

Lemma woken_counts (ts : list taker) (i : nat) (t : taker) :
  ts !! i = Some t -> is_woken t = true -> (0 < countb is_woken ts)%nat.
Proof.
  revert i. induction ts as [|u ts IH]; intros [|i]; cbn; try done; [intros [= ->] ->; lia|]. intros Hi Ht. specialize (IH i Hi Ht). lia.
Qed.

Lemma sem_inv_step initial s s' :
  sem_inv initial s -> initial + Z.of_nat (released s') < 2 ^ 32 -> sem_step s s' -> sem_inv initial s'.
Proof.
  intros Hi Hb Hst. pose proof (si_count _ _ Hi) as Hc. pose proof (si_tokens _ _ Hi) as Ht. pose proof (si_woken _ _ Hi) as Hw.
  destruct Hst as [c ts r i m c' t' Hl E|c ts r i m c' t' Hl E|c ts r i c' t' Hl E|c ts r i m Hl|c ts r i Hl|c ts r i t Hl Hbt|c ts r Hn];
    cbn [count takers released] in *.
  1-3: destruct (take_section_spec _ _ _ _ _ Hc E) as (H0 & Htok & Hwk & Hbk).
  - eapply taker_moves; [exact Hi|exact Hl|done|lia|done| |].
    + intros Hbt. specialize (Hbk Hbt). cbn. lia.
    + intros _ _. left. rewrite Hwk. cbn. destruct (took t'); lia.
  - pose proof (woken_counts _ _ _ Hl eq_refl). eapply taker_moves; [exact Hi|exact Hl|done|lia|done| |].
    + intros Hbt. specialize (Hbk Hbt). cbn. lia.
    + intros _ Hex. rewrite Hwk. cbn. destruct (took t') eqn:Etk; [left; lia|]. right.
      assert (c' = 0); [|lia]. revert E. unfold take_section. destruct (Z.ltb_spec 0 c); intros [= <- <-]; [done|lia].
  - pose proof (woken_counts _ _ _ Hl eq_refl). eapply taker_moves; [exact Hi|exact Hl|done|lia|done| |].
    + intros Hbt. specialize (Hbk Hbt). cbn. lia.
    + intros _ Hex. rewrite Hwk. cbn. destruct (took t') eqn:Etk; [left; lia|]. right.
      assert (c' = 0); [|lia]. revert E. unfold take_section. destruct (Z.ltb_spec 0 c); intros [= <- <-]; [done|lia].
  - eapply taker_moves; [exact Hi|exact Hl|done|cbn; lia|done|done|]. intros _ _. left. cbn. lia.
  - eapply taker_moves; [exact Hi|exact Hl|done|cbn; lia|done|done|]. intros _ _. left. cbn. lia.
  - destruct t as [|m| | |]; try done. rewrite wrap_small by (unfold in_u; lia).
    eapply taker_moves; [exact Hi|exact Hl|done|cbn; lia|lia|done|]. intros _ _. left. cbn. lia.
  - rewrite wrap_small by (unfold in_u; lia). split; cbn; [lia|lia|]. intros (i & t & Hl & Hbt).
    rewrite Forall_lookup in Hn. specialize (Hn _ _ Hl). congruence.
Qed.

Lemma released_grows s s' : sem_step s s' -> (released s <= released s')%nat.
Proof. intros Hst. destruct Hst; cbn; lia. Qed.

Lemma sem_inv_reach initial s s' :
  sem_inv initial s -> rtc sem_step s s' -> initial + Z.of_nat (released s') < 2 ^ 32 -> sem_inv initial s'.
Proof.
  intros Hi Hs Hb. assert (Hle : (released s <= released s')%nat /\ sem_inv initial s'); [|by apply Hle].
  induction Hs as [s|s s1 s' H1 Hs IH]; [done|]. pose proof (released_grows _ _ H1) as Hg.
  assert (Hg2 : (released s1 <= released s')%nat) by (clear -Hs; induction Hs; [done|]; etrans; [by eapply released_grows|done]).
  destruct IH as [_ Hi']; [|done|split; [lia|done]]. eapply sem_inv_step; [done| |done]. lia.
Qed.

(** C15: No release of a POSIX semaphore is lost.  For any initial count, any number
    of takers, trying, waiting with or without a timeout, with spurious wakeups,
    timeouts and releases in any interleaving, as long as the tokens ever given
    fit the 32-bit counter: each token is either still counted or was taken by
    exactly one taker; and while a taker is blocked and a token is there, some
    other taker has been woken and its next step takes a token, so nobody sleeps
    over a token that nobody is on the way to take. *)
Theorem posix_semaphore_loses_nothing (initial : Z) (ntakers : nat) (s : sem_sys) :
  0 <= initial -> rtc sem_step (sem_start initial ntakers) s -> initial + Z.of_nat (released s) < 2 ^ 32 ->
  0 <= count s /\ count s + Z.of_nat (countb took (takers s)) = initial + Z.of_nat (released s) /\
  ((exists i t, takers s !! i = Some t /\ is_blocked t = true) -> 0 < count s ->
   exists i t s', takers s !! i = Some t /\ is_woken t = true /\ sem_step s s' /\ takers s' !! i = Some (TDone true)).
Proof.
  intros H0 Hs Hb. pose proof (sem_inv_reach _ _ _ (sem_inv_start initial ntakers H0) Hs Hb) as [Hc Ht Hw].
  split; [done|]. split; [done|]. intros Hex Hpos. specialize (Hw Hex). destruct s as [c ts r]. cbn in *.
  assert (Hsome : exists i t, ts !! i = Some t /\ is_woken t = true).
  { clear -Hw Hpos. induction ts as [|t ts IH]; cbn in Hw; [lia|]. destruct (is_woken t) eqn:E; [by exists 0%nat, t|].
    destruct IH as (i & u & Hi & Hu); [lia|]. by exists (S i), u. }
  destruct Hsome as (i & t & Hi & Hwk). destruct t as [|m|m| |]; try done.
  - exists i, (TWoken m). eexists. split; [done|]. split; [done|]. split; [apply ss_woken with (i := i) (m := m) (c' := c - 1) (t' := TDone true); [done|]|].
    + unfold take_section. by rewrite (proj2 (Z.ltb_lt 0 c)).
    + cbn. apply list_lookup_insert_eq. by eapply lookup_lt_Some.
  - exists i, TTimedOut. eexists. split; [done|]. split; [done|]. split; [apply ss_timed_out with (i := i) (c' := c - 1) (t' := TDone true); [done|]|].
    + unfold take_section. by rewrite (proj2 (Z.ltb_lt 0 c)).
    + cbn. apply list_lookup_insert_eq. by eapply lookup_lt_Some.
Qed.

(** Two takers block; one release wakes the first; before it runs, the second is
    still blocked and a token is there. *)
Lemma one_release_run : rtc sem_step (sem_start 0 2) (mkSem 1 [TWoken Forever; TBlocked Timed] 1).
Proof.
  eapply rtc_l; [by apply (ss_take 0 [TOut; TOut] 0 0 Forever 0 (TBlocked Forever))|].
  eapply rtc_l; [by apply (ss_take 0 [TBlocked Forever; TOut] 0 1 Timed 0 (TBlocked Timed))|].
  eapply rtc_l; [by apply (ss_release 0 [TBlocked Forever; TBlocked Timed] 0 0 (TBlocked Forever))|]. apply rtc_refl.
Qed.

Lemma posix_semaphore_loses_nothing_witness :
  exists i t s', [TWoken Forever; TBlocked Timed] !! i = Some t /\ is_woken t = true /\
    sem_step (mkSem 1 [TWoken Forever; TBlocked Timed] 1) s' /\ takers s' !! i = Some (TDone true).
Proof.
  refine (proj2 (proj2 (posix_semaphore_loses_nothing 0 2 (mkSem 1 [TWoken Forever; TBlocked Timed] 1) _ one_release_run _)) _ _).
  - lia.
  - vm_compute. reflexivity.
  - exists 1%nat, (TBlocked Timed). split; reflexivity.
  - vm_compute. reflexivity.
Defined.

(** ** The spinning critical section excludes *)

Definition is_held (p : spin_pc) : bool := match p with SpHeld => true | _ => false end.

Lemma spin_excludes (n : nat) (f : bool) (ps : list spin_pc) :
  rtc spin_step (false, replicate n SpOut) (f, ps) -> countb is_held ps = if f then 1%nat else 0%nat.
Proof.
  intros Hs. assert (Hind : forall x y, rtc spin_step x y -> countb is_held x.2 = (if x.1 : bool then 1%nat else 0%nat) ->
    countb is_held y.2 = (if y.1 : bool then 1%nat else 0%nat)).
  { intros x y Hxy. induction Hxy as [|x y z Hst Hyz IH]; [done|]. intros Hx. apply IH. destruct Hst as [g qs i Hi|g qs i Hi|g qs i Hi]; cbn in *.
    - pose proof (countb_insert is_held qs i _ SpTry Hi) as Hc. cbn in Hc. lia.
    - destruct g; [done|]. pose proof (countb_insert is_held qs i _ SpHeld Hi) as Hc. cbn in Hc. lia.
    - pose proof (countb_insert is_held qs i _ SpOut Hi) as Hc. cbn in Hc. destruct g; lia. }
  apply (Hind _ _ Hs). cbn. clear. by induction n.
Qed.
