(* ===== verification/PosixIrq.v ===== *)
(** * Software interrupts on POSIX (src/core/pal_posix.cpp)

    [softirq_*]: a realtime signal that is blocked in the threads that call these
    functions and read back through a signalfd.  The kernel is a parameter,
    [SignalKernel]: the calls the functions make and what can be observed of the
    process (each thread's mask for the one signal, the payloads waiting, whether
    it lives).  [SignalLaws] is what signal(7) and signalfd(2) document: queued
    realtime signals are read in order; a process-directed signal that waits while
    some thread does not block it is delivered there, and without a handler the
    default action ends the process.  What the functions add is that it is blocked
    in time. *)

From S2P Require Import Prelude PalTime.
Local Open Scope Z_scope.

Definition SoftIrqSignal : Z := 34.

Class SignalKernel := {
  process : Type;
  masks : process -> list bool;                   (* per thread: is the signal blocked? *)
  waiting : process -> list Z;                    (* payloads, oldest first *)
  lives : process -> bool;
  pthread_sigmask : nat -> bool -> process -> process;
  sigqueue : Z -> process -> bool * process;      (* the process's queue has a limit *)
  read_signalfd : process -> option Z * process
}.

Definition all_blocked `{SignalKernel} (p : process) : Prop := Forall (fun b => b = true) (masks p).
Definition same_process `{SignalKernel} (p p' : process) : Prop := masks p' = masks p /\ lives p' = lives p.

Class SignalLaws `{SignalKernel} := {
  mask_set t b p : masks (pthread_sigmask t b p) = <[t := b]> (masks p);
  mask_quiet t b p : waiting p = [] \/ all_blocked (pthread_sigmask t b p) ->
    waiting (pthread_sigmask t b p) = waiting p /\ lives (pthread_sigmask t b p) = lives p;
  mask_fatal t b p : waiting p <> [] -> ~ all_blocked (pthread_sigmask t b p) -> lives (pthread_sigmask t b p) = false;
  queue_refused v p : (sigqueue v p).1 = false -> (sigqueue v p).2 = p;
  queue_waits v p : (sigqueue v p).1 = true -> all_blocked p ->
    same_process p (sigqueue v p).2 /\ waiting (sigqueue v p).2 = waiting p ++ [v];
  queue_fatal v p : (sigqueue v p).1 = true -> ~ all_blocked p -> lives (sigqueue v p).2 = false;
  read_nothing p : waiting p = [] -> read_signalfd p = (None, p);
  read_oldest v rest p : waiting p = v :: rest -> all_blocked p ->
    (read_signalfd p).1 = Some v /\ same_process p (read_signalfd p).2 /\ waiting (read_signalfd p).2 = rest
}.

Section softirq.
Context `{SignalKernel}.

Record SoftIrqHandle := mkSoftIrq { fd : option nat; consumer : option nat }.

(** A descriptor is named by [1] here; only whether there is one matters. *)
Definition softirq_init (t : nat) (mask_ok fd_ok : bool) (h : SoftIrqHandle) (p : process) : bool * SoftIrqHandle * process :=
  if negb mask_ok then (false, h, p)
  else
    let p := pthread_sigmask t true p in
    if negb fd_ok then (false, mkSoftIrq None None, pthread_sigmask t false p)
    else (true, mkSoftIrq (Some 1%nat) (Some t), p).

Definition softirq_raise (t : nat) (payload : Z) (mask_ok : bool) (p : process) : bool * process :=
  if negb mask_ok then (false, p) else sigqueue payload (pthread_sigmask t true p).

(** The timeout handed to [poll], as an [int]; negative: forever. *)
Definition poll_timeout (timeout_ms : Z) : Z :=
  if (0 =? timeout_ms) || (kWaitForever =? timeout_ms) then -1 else to_i32 timeout_ms.

(** [ready]: [poll] did not time out or fail. *)
Definition softirq_take (ready : bool) (p : process) : Z * process :=
  if negb ready then (-1, p)
  else match read_signalfd p with (Some v, p) => (v, p) | (None, p) => (-1, p) end.

Definition softirq_deinit (t : nat) (h : SoftIrqHandle) (p : process) : SoftIrqHandle * process :=
  (mkSoftIrq None (consumer h), pthread_sigmask t false p).

(** ** Runs *)

Inductive irq_op := IRaise (t : nat) (payload : Z) (mask_ok : bool) | ITake (ready : bool).

(** The state with what was raised successfully and what was taken. *)
Record irq_run := mkRun { proc : process; raised : list Z; taken : list Z }.

Definition irq_op_step (r : irq_run) (o : irq_op) : irq_run :=
  match o with
  | IRaise t payload mask_ok =>
      let '(ok, p) := softirq_raise t payload mask_ok (proc r) in
      mkRun p (if ok then raised r ++ [payload] else raised r) (taken r)
  | ITake ready =>
      let '(v, p) := softirq_take ready (proc r) in
      mkRun p (raised r) (if ready && negb (bool_decide (waiting (proc r) = [])) then taken r ++ [v] else taken r)
  end.

(** The thread of the first raise that gets as far as the mask. *)
Fixpoint first_raiser (ops : list irq_op) : option nat :=
  match ops with
  | [] => None
  | IRaise t _ true :: _ => Some t
  | _ :: ops => first_raiser ops
  end.
End softirq.

(** ** Blocked in time *)

Section spec.
Context `{SignalLaws}.

Lemma block_all t p : all_blocked p -> all_blocked (pthread_sigmask t true p).
Proof. unfold all_blocked. rewrite mask_set. intros Hb. by apply Forall_insert. Qed.

(** Every thread blocks the signal, but [free] perhaps. *)
Definition blocked_but (free : list nat) (p : process) : Prop :=
  forall t b, masks p !! t = Some b -> t ∉ free -> b = true.

Lemma blocked_but_nil p : blocked_but [] p <-> all_blocked p.
Proof.
  unfold blocked_but, all_blocked. rewrite Forall_lookup. split; intros Hb t b; [intros Hm; eapply Hb; [exact Hm|apply not_elem_of_nil]|eauto].
Qed.

Lemma block_one t free p : blocked_but (t :: free) p -> blocked_but free (pthread_sigmask t true p).
Proof.
  intros Hb u b. rewrite mask_set. intros [(-> & <- & _)|[Hne Hu]]%list_lookup_insert_Some Hf; [done|].
  eapply Hb; [exact Hu|]. rewrite not_elem_of_cons. done.
Qed.

(** Nothing raised yet, or blocked everywhere: what was raised is taken or waits. *)
Record signal_inv (r : nat) (ops : list irq_op) (x : irq_run) : Prop := {
  ii_lives : lives (proc x) = true;
  ii_exact : taken x ++ waiting (proc x) = raised x;
  ii_phase : all_blocked (proc x) \/
    (waiting (proc x) = [] /\ blocked_but [r] (proc x) /\ (first_raiser ops = None \/ first_raiser ops = Some r))
}.

Lemma raise_blocked r t v ops x : signal_inv r (IRaise t v true :: ops) x ->
  let p := pthread_sigmask t true (proc x) in
  all_blocked p /\ waiting p = waiting (proc x) /\ lives p = true.
Proof.
  intros [Hl _ Hp]. cbv zeta.
  assert (Hb : all_blocked (pthread_sigmask t true (proc x))).
  { destruct Hp as [Hp|(_ & Hp & [[=]|[= ->]])]; [by apply block_all|]. by apply blocked_but_nil, block_one. }
  destruct (mask_quiet t true (proc x) (or_intror Hb)) as [-> ->]. done.
Qed.

Lemma signal_inv_step r o ops x : signal_inv r (o :: ops) x -> signal_inv r ops (irq_op_step x o).
Proof.
  intros Hi. destruct o as [t v [|]|[|]]; cbn; [| |unfold softirq_take; cbn|].
  - destruct (raise_blocked r t v ops x Hi) as (Hb & Hw & Hl). unfold softirq_raise. cbn.
    set (p := pthread_sigmask t true (proc x)) in *. destruct (sigqueue v p) as [[|] p'] eqn:E.
    + destruct (queue_waits v p ltac:(by rewrite E) Hb) as [[Hm Hl'] Hq]. rewrite E in Hm, Hl', Hq. simpl in Hm, Hl', Hq.
      split; cbn; [by rewrite Hl'|by rewrite Hq, Hw, app_assoc, (ii_exact _ _ _ Hi)|left; unfold all_blocked; by rewrite Hm].
    + pose proof (queue_refused v p ltac:(by rewrite E)) as Hq. rewrite E in Hq. simpl in Hq. subst p'.
      split; cbn; [done|by rewrite Hw, (ii_exact _ _ _ Hi)|by left].
  - destruct Hi as [Hl He Hp]. split; [done|done|]. exact Hp.
  - destruct Hi as [Hl He Hp]. destruct (waiting (proc x)) as [|v rest] eqn:Hw.
    + rewrite (read_nothing _ Hw). rewrite bool_decide_eq_true_2 by done. split; cbn; [done|by rewrite Hw|]. rewrite Hw. exact Hp.
    + rewrite bool_decide_eq_false_2 by done. destruct Hp as [Hb|([=] & _)].
      destruct (read_oldest v rest _ Hw Hb) as (E & [Hm Hl'] & Hr). destruct (read_signalfd (proc x)) as [o p']. simpl in *. subst o.
      split; cbn; [by rewrite Hl'|by rewrite Hr, <- He, <- app_assoc|left; unfold all_blocked; by rewrite Hm].
  - destruct Hi as [Hl He Hp]. split; [done|done|exact Hp].
Qed.

Lemma signal_inv_run r ops x : signal_inv r ops x -> signal_inv r [] (foldl irq_op_step x ops).
Proof. revert x. induction ops as [|o ops IH]; intros x Hx; [done|]. by apply IH, signal_inv_step. Qed.

(** A payload raised and not taken by the time of [deinit] ends the process. *)
Lemma deinit_with_pending_is_fatal (t : nat) (h : SoftIrqHandle) (p : process) :
  (t < length (masks p))%nat -> waiting p <> [] -> lives (softirq_deinit t h p).2 = false.
Proof.
  intros Ht Hp. apply mask_fatal; [done|]. unfold all_blocked. rewrite mask_set, Forall_lookup. intros Hf.
  specialize (Hf t false (list_lookup_insert_eq _ _ _ Ht)). done.
Qed.

(** A thread that does not block the signal when a raise of another thread is
    queued: the process ends. *)
Lemma bystander_is_fatal (t u : nat) (v : Z) (p : process) : t <> u -> masks p !! u = Some false ->
  (softirq_raise t v true p).1 = true -> lives (softirq_raise t v true p).2 = false.
Proof.
  intros Hne Hu Hok. apply queue_fatal; [exact Hok|]. unfold all_blocked. rewrite mask_set, Forall_lookup. intros Hf.
  specialize (Hf u false). rewrite list_lookup_insert_ne in Hf by done. by specialize (Hf Hu).
Qed.
End spec.

(** The signal is blocked in time.  Let every thread but the consumer [c] and
    one producer [r] block the signal before [init] (threads created afterwards by
    threads that block it do).  Then after [c]'s [init], for any raises by any
    threads, the first of them by [r], and any takes: the process lives, and the
    payloads taken followed by those waiting are those whose raise reported
    success, in order.  That the queue keeps order is the kernel's law; that no
    payload ever meets a thread which does not block the signal is the work of the
    masks that [init] and [raise] set first. *)
Theorem softirq_blocked_in_time `{SignalLaws} (c r : nat) (h : SoftIrqHandle) (ops : list irq_op) (p : process) :
  blocked_but [c; r] p -> waiting p = [] -> lives p = true -> first_raiser ops = None \/ first_raiser ops = Some r ->
  let x := foldl irq_op_step (mkRun (softirq_init c true true h p).2 [] []) ops in
  lives (proc x) = true /\ taken x ++ waiting (proc x) = raised x.
Proof.
  intros Hb Hw Hl Hf. cbv zeta. destruct (mask_quiet c true p (or_introl Hw)) as [Hw' Hl'].
  assert (Hi : signal_inv r ops (mkRun (softirq_init c true true h p).2 [] [])).
  { split; cbn; [by rewrite Hl'|by rewrite Hw'|right]. split_and!; [by rewrite Hw'|by apply block_one|done]. }
  destruct (signal_inv_run _ _ _ Hi) as [H1 H2 _]. done.
Qed.

(** A kernel with a queue of two that takes the default action at once. *)
Record kproc := mkProc { k_masks : list bool; k_waiting : list Z; k_lives : bool }.
Definition default_action (p : kproc) : kproc :=
  match k_waiting p with
  | [] => p
  | _ => if forallb id (k_masks p) then p else mkProc (k_masks p) (k_waiting p) false
  end.
#[export] Instance queue_of_two : SignalKernel := {
  process := kproc; masks := k_masks; waiting := k_waiting; lives := k_lives;
  pthread_sigmask t b p := default_action (mkProc (<[t := b]> (k_masks p)) (k_waiting p) (k_lives p));
  sigqueue v p :=
    if (length (k_waiting p) <? 2)%nat then (true, default_action (mkProc (k_masks p) (k_waiting p ++ [v]) (k_lives p))) else (false, p);
  read_signalfd p := match k_waiting p with [] => (None, p) | v :: rest => (Some v, mkProc (k_masks p) rest (k_lives p)) end
}.

Lemma forallb_blocked (l : list bool) : forallb id l = true <-> Forall (fun b => b = true) l.
Proof. rewrite forallb_forall, Forall_forall. unfold id. split; intros H x Hx; apply H; by apply list_elem_of_In. Qed.

Lemma default_action_cases p : k_masks (default_action p) = k_masks p /\ k_waiting (default_action p) = k_waiting p /\
  (k_waiting p = [] \/ Forall (fun b => b = true) (k_masks p) -> default_action p = p) /\
  (k_waiting p <> [] -> ~ Forall (fun b => b = true) (k_masks p) -> k_lives (default_action p) = false).
Proof.
  unfold default_action. rewrite <- forallb_blocked. destruct p as [m [|v w] l]; cbn; [naive_solver|].
  destruct (forallb id m) eqn:E; cbn; naive_solver.
Qed.

#[export] Instance queue_of_two_laws : SignalLaws.
Proof.
  split.
  - intros t b p. apply (default_action_cases (mkProc _ _ _)).
  - intros t b p Hq. destruct (default_action_cases (mkProc (<[t := b]> (k_masks p)) (k_waiting p) (k_lives p))) as (Hm & _ & He & _).
    unfold all_blocked in Hq. cbn in Hq |- *. rewrite Hm in Hq. by rewrite (He Hq).
  - intros t b p Hw Hq. destruct (default_action_cases (mkProc (<[t := b]> (k_masks p)) (k_waiting p) (k_lives p))) as (Hm & _ & _ & He).
    unfold all_blocked in Hq. cbn in Hq |- *. rewrite Hm in Hq. by apply He.
  - intros v p. cbn [sigqueue queue_of_two]. by case_match.
  - intros v p. cbn [sigqueue queue_of_two]. case_match; [|done]. intros _ Hb.
    destruct (default_action_cases (mkProc (k_masks p) (k_waiting p ++ [v]) (k_lives p))) as (_ & _ & He & _).
    cbn [snd]. rewrite (He (or_intror Hb)). done.
  - intros v p. cbn [sigqueue queue_of_two]. case_match; [|done]. intros _ Hb.
    destruct (default_action_cases (mkProc (k_masks p) (k_waiting p ++ [v]) (k_lives p))) as (_ & _ & _ & He).
    apply He; [cbn; by destruct (k_waiting p)|done].
  - intros p. cbn. by intros ->.
  - intros v rest p. cbn. intros -> _. done.
Qed.

(** Consumer 0 and producer 1 start unblocked; the third raise is refused. *)
Lemma softirq_blocked_in_time_witness :
  let x := foldl irq_op_step (mkRun (softirq_init 0 true true (mkSoftIrq None None) (mkProc [false; false; true] [] true)).2 [] [])
    [IRaise 1 7 true; IRaise 2 7 true; IRaise 0 8 true; ITake true] in
  lives (proc x) = true /\ taken x ++ waiting (proc x) = raised x /\ raised x = [7; 7] /\ taken x = [7].
Proof.
  cbv zeta. refine (let H := softirq_blocked_in_time 0 1 (mkSoftIrq None None)
    [IRaise 1 7 true; IRaise 2 7 true; IRaise 0 8 true; ITake true] (mkProc [false; false; true] [] true) _ eq_refl eq_refl (or_intror eq_refl) in
    conj (proj1 H) (conj (proj2 H) (conj eq_refl eq_refl))).
  intros t b Ht Hf. rewrite !not_elem_of_cons in Hf. destruct t as [|[|[|]]]; simplify_eq/=; [naive_solver..|done].
Defined.

(** [deinit] unblocks even where the caller had the signal blocked before [init],
    and the producers' masks stay as the raises left them. *)
Lemma masks_are_not_restored :
  let p0 := mkProc [true; false] [] true in
  let p1 := (softirq_init 0 true true (mkSoftIrq None None) p0).2 in
  let p2 := (softirq_take true (softirq_raise 1 7 true p1).2).2 in
  masks (softirq_deinit 0 (mkSoftIrq (Some 1%nat) (Some 0%nat)) p2).2 = [false; true].
Proof. reflexivity. Qed.

(** A long timeout, of 2^31 ms or more, becomes a negative one: [poll] waits forever. *)
Lemma long_timeouts_never_end (timeout_ms : Z) :
  2 ^ 31 <= timeout_ms < 2 ^ 32 -> poll_timeout timeout_ms < 0.
Proof.
  intros Hm. unfold poll_timeout. case_match; [lia|]. unfold to_i32. rewrite wrap_small by (unfold in_u; lia).
  rewrite (proj2 (Z.ltb_ge _ _)) by lia. lia.
Qed.

Lemma poll_timeout_exact (timeout_ms : Z) : 0 < timeout_ms < 2 ^ 31 -> poll_timeout timeout_ms = timeout_ms.
Proof.
  intros Hm. unfold poll_timeout, kWaitForever. rewrite (proj2 (Z.eqb_neq 0 _)), (proj2 (Z.eqb_neq _ _)) by lia. cbn [orb].
  unfold to_i32. rewrite wrap_small by (unfold in_u; lia). by rewrite (proj2 (Z.ltb_lt _ _)) by lia.
Qed.
