(* ===== verification/WinStart.v ===== *)
(** * Starting the dispatcher thread on Windows (src/core/pal_windows.cpp)

    [start_dispatcher], [dispatcher_entry] and [join_dispatcher] with their two
    auto-reset events and the abandon flag: the starter waits for the entry to
    announce itself, then opens the gate that lets it into the user's loop, or
    abandons it and opens the gate all the same.  [start_step] interleaves the
    starter with the entry thread of its latest attempt, one step per kernel call
    or atomic access; any wait but the endless ones may time out. *)

From S2P Require Import Prelude.
Local Open Scope nat_scope.

(** The entry thread: not there; created; before the gate; past the gate, before
    it looks at [start_abandoned_]; in [user_entry_]; returned. *)
Inductive entry_pc := ENone | ENew | EGate | ECheck | EUser | EExit.

(** The thread that starts and joins: outside; in [start_dispatcher] before
    [ResetEvent], before [_beginthreadex], in the handshake wait, before it opens
    the gate to a live entry; timed out: before the abandon flag, before it opens
    the gate to the abandoned entry, in the bounded wait for it; in
    [join_dispatcher]. *)
Inductive starter_pc := SIdle | SReset | SCreate | SWait | SOpen | SAbandon | SOpenLate | SReclaim | SJoin.

Record start_sys := mkStart {
  started_event_ : bool;
  start_gate_event_ : bool;
  start_abandoned_ : bool;
  thread_valid_ : bool;
  entry : entry_pc;
  starter : starter_pc;
  attempt : nat;                    (* the latest call that got past its guard *)
  entered : list nat;               (* the attempts whose entry called [user_entry_] *)
  results : list (nat * bool)       (* what each attempt returned *)
}.

Inductive start_step : start_sys -> start_sys -> Prop :=
(* the starter *)
| st_refused sd g a e n us rs :   (* the guard: a thread is still owned *)
    start_step (mkStart sd g a true e SIdle n us rs) (mkStart sd g a true e SIdle n us rs)
| st_call sd g a e n us rs :
    start_step (mkStart sd g a false e SIdle n us rs) (mkStart sd g false false e SReset (S n) us rs)
| st_reset sd g a v e n us rs :
    start_step (mkStart sd g a v e SReset n us rs) (mkStart false g a v e SCreate n us rs)
| st_create sd g a v e n us rs :
    start_step (mkStart sd g a v e SCreate n us rs) (mkStart sd g a true ENew SWait n us rs)
| st_create_failed sd g a v e n us rs :
    start_step (mkStart sd g a v e SCreate n us rs) (mkStart sd g a v e SIdle n us (rs ++ [(n, false)]))
| st_handshake g a v e n us rs :
    start_step (mkStart true g a v e SWait n us rs) (mkStart false g a v e SOpen n us rs)
| st_open sd g a v e n us rs :
    start_step (mkStart sd g a v e SOpen n us rs) (mkStart sd true a v e SIdle n us (rs ++ [(n, true)]))
| st_timeout g a v e n us rs :
    start_step (mkStart false g a v e SWait n us rs) (mkStart false g a v e SAbandon n us rs)
| st_abandon sd g a v e n us rs :
    start_step (mkStart sd g a v e SAbandon n us rs) (mkStart sd g true v e SOpenLate n us rs)
| st_open_late sd g a v e n us rs :
    start_step (mkStart sd g a v e SOpenLate n us rs) (mkStart sd true a v e SReclaim n us rs)
| st_reclaimed sd g a v n us rs :
    start_step (mkStart sd g a v EExit SReclaim n us rs) (mkStart sd g a false ENone SIdle n us (rs ++ [(n, false)]))
| st_reclaim_timeout sd g a v e n us rs :
    start_step (mkStart sd g a v e SReclaim n us rs) (mkStart sd g a v e SIdle n us (rs ++ [(n, false)]))
| st_join sd g a e n us rs :
    start_step (mkStart sd g a true e SIdle n us rs) (mkStart sd g a true e SJoin n us rs)
| st_joined sd g a v n us rs :
    start_step (mkStart sd g a v EExit SJoin n us rs) (mkStart sd g a false ENone SIdle n us rs)
(* the entry thread *)
| st_announce sd g a v s n us rs :
    start_step (mkStart sd g a v ENew s n us rs) (mkStart true g a v EGate s n us rs)
| st_gate sd a v s n us rs :
    start_step (mkStart sd true a v EGate s n us rs) (mkStart sd false a v ECheck s n us rs)
| st_check sd g a v s n us rs :
    start_step (mkStart sd g a v ECheck s n us rs)
      (mkStart sd g a v (if a then EExit else EUser) s n (if a then us else us ++ [n]) rs)
| st_return sd g a v s n us rs :
    start_step (mkStart sd g a v EUser s n us rs) (mkStart sd g a v EExit s n us rs).

Definition start_init : start_sys := mkStart false false false false ENone SIdle 0 [] [].

(** * The start of the dispatcher tells the truth

    About [WinStart]: what [start_dispatcher] returned is what the entry thread
    does, however late it is scheduled. *)

(** An entry that was let in, and one that was abandoned with the gate open. *)
Definition let_in (s : start_sys) : Prop :=
  start_abandoned_ s = false /\
  match entry s with
  | EGate => start_gate_event_ s = true /\ attempt s ∉ entered s
  | ECheck => start_gate_event_ s = false /\ attempt s ∉ entered s
  | EUser | EExit => start_gate_event_ s = false /\ attempt s ∈ entered s
  | _ => False
  end.

Definition sent_away (s : start_sys) : Prop :=
  start_abandoned_ s = true /\ attempt s ∉ entered s /\
  match entry s with
  | ENew | EGate => start_gate_event_ s = true
  | ECheck | EExit => start_gate_event_ s = false
  | _ => False
  end.

(** A new entry before the decision: its announcement is the only one. *)
Definition undecided (s : start_sys) : Prop :=
  thread_valid_ s = true /\ start_gate_event_ s = false /\ attempt s ∉ entered s /\
  (entry s = ENew /\ started_event_ s = false \/ entry s = EGate /\ started_event_ s = true).

Definition nobody (s : start_sys) : Prop := thread_valid_ s = false /\ entry s = ENone /\ start_gate_event_ s = false.

Definition settled (s : start_sys) : Prop :=
  nobody s \/ thread_valid_ s = true /\ (let_in s /\ (attempt s, true) ∈ results s /\ (attempt s, false) ∉ results s \/ sent_away s /\ (attempt s, false) ∈ results s).

Definition phase (s : start_sys) : Prop :=
  match starter s with
  | SIdle => settled s
  | SJoin => settled s /\ thread_valid_ s = true
  | SReset => nobody s /\ start_abandoned_ s = false /\ attempt s ∉ entered s
  | SCreate => nobody s /\ start_abandoned_ s = false /\ started_event_ s = false /\ attempt s ∉ entered s
  | SWait => undecided s /\ start_abandoned_ s = false
  | SOpen => thread_valid_ s = true /\ entry s = EGate /\ start_gate_event_ s = false /\ start_abandoned_ s = false /\ attempt s ∉ entered s
  | SAbandon => undecided s /\ start_abandoned_ s = false
  | SOpenLate => undecided s /\ start_abandoned_ s = true
  | SReclaim => thread_valid_ s = true /\ sent_away s
  end.

Definition in_handshake (pc : starter_pc) : bool := match pc with SIdle | SJoin => false | _ => true end.

Record start_inv (s : start_sys) : Prop := {
  wi_phase : phase s;
  wi_entered : NoDup (entered s) /\ forall m, m ∈ entered s -> m <= attempt s;
  wi_results : forall m b, (m, b) ∈ results s -> m <= attempt s /\ (in_handshake (starter s) = true -> m < attempt s);
  wi_false : forall m, (m, false) ∈ results s -> m ∉ entered s;
  wi_true : forall m, (m, true) ∈ results s -> m ∈ entered s \/ m = attempt s /\ thread_valid_ s = true /\ let_in s
}.

Lemma start_inv_init : start_inv start_init.
Proof. split; cbn; [by left|split; [constructor|]; by intros m ?%not_elem_of_nil|by intros m b ?%not_elem_of_nil|by intros m ?%not_elem_of_nil..]. Qed.

Ltac start_unfold := unfold phase, settled, nobody, let_in, sent_away, undecided in *; cbn in *.

Lemma phase_step s s' :
  start_step s s' -> phase s -> (forall m, m ∈ entered s -> m <= attempt s) ->
  (in_handshake (starter s) = true -> (attempt s, false) ∉ results s) -> phase s'.
Proof.
  intros Hst Hp Hle Hfresh. destruct Hst; start_unfold; rewrite ?elem_of_app, ?list_elem_of_singleton; try tauto.
  all: try (destruct s; intuition congruence).
  - assert (S n ∉ us) by (intros Hin; apply Hle in Hin; lia). intuition congruence.
  - destruct e; intuition congruence.
  - destruct e; intuition congruence.
  - destruct e; intuition congruence.
  - destruct a, s; rewrite ?elem_of_app, ?list_elem_of_singleton; intuition congruence.
Qed.

(** What the steps that record nothing keep of the records. *)
Lemma kept_true s s' :
  entered s' = entered s -> results s' = results s -> attempt s' = attempt s ->
  (in_handshake (starter s) = false -> thread_valid_ s = true -> let_in s -> thread_valid_ s' = true /\ let_in s' \/ attempt s ∈ entered s) ->
  start_inv s -> phase s' -> in_handshake (starter s') = in_handshake (starter s) -> start_inv s'.
Proof.
  intros He Hr Ha Hl [Hp Hn Hre Hf Ht] Hp' Hh. split; rewrite ?He, ?Hr, ?Ha, ?Hh; try done.
  intros m Hm. destruct (Ht m Hm) as [|(-> & Hv & Hli)]; [by left|]. destruct (Hre _ _ Hm) as [_ Hlt].
  destruct (in_handshake (starter s)); [specialize (Hlt eq_refl); lia|].
  destruct (Hl eq_refl Hv Hli) as [?|?]; [by right|by left].
Qed.

(** A step that records what the attempt returned. *)
Lemma returned_keeps s s' (b : bool) :
  entered s' = entered s -> attempt s' = attempt s -> results s' = results s ++ [(attempt s, b)] ->
  in_handshake (starter s) = true -> in_handshake (starter s') = false -> (b = false -> attempt s ∉ entered s) ->
  (b = true -> thread_valid_ s' = true /\ let_in s') -> start_inv s -> phase s' -> start_inv s'.
Proof.
  intros He Ha Hr Hh Hh' Hb Ht' [Hp Hn Hre Hf Ht] Hp'. split; rewrite ?He, ?Ha, ?Hr, ?Hh'; try done.
  - intros m c Hm. apply elem_of_app in Hm as [Hm|Hm%list_elem_of_singleton]; [split; [by eapply Hre|done]|]. simplify_eq. done.
  - intros m Hm. apply elem_of_app in Hm as [Hm|Hm%list_elem_of_singleton]; [by apply Hf|]. simplify_eq. by apply Hb.
  - intros m Hm. apply elem_of_app in Hm as [Hm|Hm%list_elem_of_singleton].
    + left. destruct (Ht m Hm) as [|(-> & _)]; [done|]. destruct (Hre _ _ Hm) as [_ Hlt]. specialize (Hlt Hh). lia.
    + simplify_eq. right. split; [done|]. by apply Ht'.
Qed.

Lemma fresh_result s : start_inv s -> in_handshake (starter s) = true -> (attempt s, false) ∉ results s.
Proof. intros Hi Hh Hin. destruct (wi_results _ Hi _ _ Hin) as [_ Hlt]. specialize (Hlt Hh). lia. Qed.

Ltac quiet Hi Hp' :=
  match type of Hi with start_inv ?s => eapply (kept_true s) end; [reflexivity|reflexivity|reflexivity| |exact Hi|exact Hp'|reflexivity]; start_unfold; intuition congruence.
Ltac returned b Hi Hp' :=
  match type of Hi with start_inv ?s => eapply (returned_keeps s _ b) end; [reflexivity|reflexivity|reflexivity|reflexivity|reflexivity| | |exact Hi|exact Hp'];
    start_unfold; intuition (subst; congruence || done).

Lemma start_inv_step s s' : start_inv s -> start_step s s' -> start_inv s'.
Proof.
  intros Hi Hst. pose proof (phase_step _ _ Hst (wi_phase _ Hi) (proj2 (wi_entered _ Hi)) (fresh_result _ Hi)) as Hp'. pose proof (wi_phase _ Hi) as Hp.
  destruct Hst; try (quiet Hi Hp').
  - destruct Hi as [_ [Hnd Hle] Hre Hf Ht]. split; cbn in *; try done.
    + split; [done|]. intros m Hm. specialize (Hle m Hm). lia.
    + intros m b Hm. destruct (Hre m b Hm). lia.
    + intros m Hm. left. destruct (Ht m Hm) as [|(_ & ? & _)]; done.
  - returned false Hi Hp'.
  - returned true Hi Hp'.
  - returned false Hi Hp'.
  - returned false Hi Hp'.
  - destruct a; [quiet Hi Hp'|].
    assert (Hn : n ∉ us /\ (n, false) ∉ rs).
    { pose proof (fresh_result _ Hi) as Hfr. start_unfold. destruct s; intuition congruence. }
    destruct Hn as [Hn Hnf]. destruct Hi as [_ [Hnd Hle] Hre Hf Ht]. split; cbn in *; try done.
    + split; [apply NoDup_app; split_and!; [done| |by apply NoDup_singleton]; by intros x Hx ->%list_elem_of_singleton|].
      intros m [Hm|Hm%list_elem_of_singleton]%elem_of_app; [by apply Hle|lia].
    + intros m Hm [Hin|Heq%list_elem_of_singleton]%elem_of_app; [by eapply Hf|]. by subst m.
    + intros m Hm. left. apply elem_of_app. destruct (Ht m Hm) as [|(-> & _)]; [by left|right; by apply list_elem_of_singleton].
Qed.

Lemma start_inv_reach s : rtc start_step start_init s -> start_inv s.
Proof. intros Hs. eapply (rtc_invariant start_step start_inv); [intros ??; apply start_inv_step| |exact Hs]. apply start_inv_init. Qed.

(** An entry that was let in reaches the user's function by its own steps. *)
Lemma let_in_enters s : let_in s -> attempt s ∈ entered s \/
  exists s', rtc start_step s s' /\ starter s' = starter s /\ entry s' = EUser /\ attempt s ∈ entered s'.
Proof.
  destruct s as [sd g a v e st n us rs]. unfold let_in. cbn. intros [-> He].
  assert (Hin : n ∈ us ++ [n]) by (apply elem_of_app; right; by apply list_elem_of_singleton).
  destruct e; try done; try (by left; apply He).
  - destruct He as [-> _]. right. eexists. split; [eapply rtc_l; [apply st_gate|eapply rtc_l; [apply st_check|apply rtc_refl]]|done].
  - destruct He as [-> _]. right. eexists. split; [eapply rtc_l; [apply st_check|apply rtc_refl]|done].
Qed.

(** C17: Starting the dispatcher tells the truth (Windows).  For any number of
    starts and joins, any thread-creation failures and any timeouts of the two
    bounded waits, interleaved in any way with entry threads that may be scheduled
    arbitrarily late: an attempt that reported failure never runs the user's
    function, then or later; one that reported success has run it or its entry is
    past every obstacle and runs it by its own next steps; no attempt runs it
    twice; and once the starter has decided, an entry at the gate finds it open,
    so that nobody waits for ever but for the user's own loop. *)
Theorem start_tells_the_truth (s : start_sys) :
  rtc start_step start_init s ->
  (forall m, (m, false) ∈ results s -> m ∉ entered s) /\
  (forall m, (m, true) ∈ results s -> m ∈ entered s \/
     exists s', rtc start_step s s' /\ starter s' = starter s /\ entry s' = EUser /\ m ∈ entered s') /\
  NoDup (entered s) /\
  (starter s = SIdle \/ starter s = SJoin \/ starter s = SReclaim -> entry s = EGate -> start_gate_event_ s = true).
Proof.
  intros Hs. pose proof (start_inv_reach _ Hs) as Hi. pose proof (wi_phase _ Hi) as Hp. split_and!.
  - apply (wi_false _ Hi).
  - intros m Hm. destruct (wi_true _ Hi m Hm) as [|(-> & _ & Hl)]; [by left|]. by apply let_in_enters.
  - apply (wi_entered _ Hi).
  - destruct s as [sd g a v e st n us rs]. cbn in *. intros Hst ->. start_unfold. destruct Hst as [-> | [-> | ->]]; cbn in *; intuition congruence.
Qed.

(** The first attempt times out and its entry, scheduled late, is reclaimed; the
    late announcement is still in the event when the second attempt starts, which
    then waits for its own entry and lets it in. *)
Lemma second_attempt_run :
  rtc start_step start_init (mkStart false true false true EGate SIdle 2 [] [(1, false); (2, true)]).
Proof.
  eapply rtc_l; [apply st_call|]. eapply rtc_l; [apply st_reset|]. eapply rtc_l; [apply st_create|].
  eapply rtc_l; [apply st_timeout|]. eapply rtc_l; [apply st_abandon|]. eapply rtc_l; [apply st_open_late|].
  eapply rtc_l; [apply st_announce|]. eapply rtc_l; [apply st_gate|]. eapply rtc_l; [apply st_check|]. eapply rtc_l; [apply st_reclaimed|].
  eapply rtc_l; [apply st_call|]. eapply rtc_l; [apply st_reset|]. eapply rtc_l; [apply st_create|]. eapply rtc_l; [apply st_announce|].
  eapply rtc_l; [apply st_handshake|]. eapply rtc_l; [apply st_open|]. apply rtc_refl.
Qed.

Lemma start_tells_the_truth_witness :
  1 ∉ entered (mkStart false true false true EGate SIdle 2 [] [(1, false); (2, true)]) /\
  exists s', rtc start_step (mkStart false true false true EGate SIdle 2 [] [(1, false); (2, true)]) s' /\
    starter s' = SIdle /\ entry s' = EUser /\ 2 ∈ entered s'.
Proof.
  destruct (start_tells_the_truth _ second_attempt_run) as (Hf & Ht & _). split.
  - apply Hf. left.
  - destruct (Ht 2) as [Hin|Hs']; [right; left|by apply not_elem_of_nil in Hin|exact Hs'].
Defined.
