(* ===== verification/WinPal.v ===== *)
(** * Clock and software interrupts on Windows (src/core/pal_windows.cpp)

    The performance counter as nanoseconds and milliseconds, the timeouts handed to
    the kernel, and the mailbox of [softirq_raise] and [softirq_take]: the ring of
    [PalMailbox] with one producer and one consumer, plus an auto-reset event on
    which the consumer sleeps.  [win_irq_step] interleaves the two at every load,
    store and kernel call. *)

From S2P Require Import Prelude Kernel PalTime PalMailbox PosixSync.
Local Open Scope Z_scope.

(** ** Time *)

(** [counter] and [freq] are what the two performance-counter calls report. *)
Definition win_monotonic_ns (c : tick_config) (freq counter : Z) : Z :=
  if freq <=? 0 then 0
  else
    let raw := wrap 64 (wrap 64 (counter / freq * 1000000000) + wrap 64 (counter mod freq * 1000000000) / freq) in
    if negb (0 =? tick_hz_ c) then raw / ns_per_tick_ c * ns_per_tick_ c else raw.

(** [None]: the signed product overflows. *)
Definition win_monotonic_ms (freq counter : Z) : option Z :=
  if freq <=? 0 then Some 0
  else if 2 ^ 63 <=? counter * 1000 then None else Some (counter * 1000 / freq).

(** The whole milliseconds slept and the microseconds busy-waited. *)
Definition win_sleep_us (us : Z) : Z * Z := (us / 1000, us mod 1000).

(** The counter distance the busy wait waits for. *)
Definition busy_target (us freq : Z) : Z := wrap 64 (us * freq) / 1000000.

Definition kInfinite : Z := 2 ^ 32 - 1.

Definition win_wait_ms (timeout_ms : Z) : Z := if 0 =? timeout_ms then kInfinite else timeout_ms.
Definition win_take_ms (timeout_ms : Z) : Z :=
  if 0 =? timeout_ms then 0 else if kWaitForever =? timeout_ms then kInfinite else timeout_ms.
Definition win_cond_ms (timeout_ms : Z) : Z := if (0 =? timeout_ms) || (kWaitForever =? timeout_ms) then kInfinite else timeout_ms.

(** The wait of one round of [softirq_take], [elapsed] ms after its start;
    [None]: give up. *)
Definition take_round_ms (timeout_ms elapsed : Z) : option Z :=
  if (0 =? timeout_ms) || (kWaitForever =? timeout_ms) then Some kInfinite
  else if timeout_ms <=? elapsed then None
  else let wait_ms := wrap 32 (timeout_ms - elapsed) in Some (if 0 =? wait_ms then 1 else wait_ms).

(** ** The mailbox *)

(** The producer: outside; past its loads; past the write; past the publication,
    owing the event.  The consumer: outside; past its loads; holding a payload;
    before its wait; asleep on the event. *)
Inductive win_raise_pc := VOutside | VLoaded (tail_seen payload : Z) | VWritten (payload : Z) | VSignal.
Inductive win_take_pc := TkOutside | TkLoaded (head_seen : Z) | TkRead (payload : Z) | TkWait | TkAsleep.

Record win_irq_sys := mkWin {
  w_ring : irq_ring;
  w_event : bool;
  w_raiser : win_raise_pc;
  w_taker : win_take_pc;
  w_accepted : list Z;
  w_delivered : list Z
}.

Inductive win_irq_step : win_irq_sys -> win_irq_sys -> Prop :=
(* softirq_raise *)
| wr_load r ev c acc del p :
    win_irq_step (mkWin r ev VOutside c acc del) (mkWin r ev (VLoaded (tail r) p) c acc del)
| wr_full r ev t p c acc del :
    rt_full (head r) t = true -> win_irq_step (mkWin r ev (VLoaded t p) c acc del) (mkWin r ev VOutside c acc del)
| wr_write r ev t p c acc del :
    rt_full (head r) t = false -> win_irq_step (mkWin r ev (VLoaded t p) c acc del) (mkWin (ring_put p r) ev (VWritten p) c acc del)
| wr_publish r ev p c acc del :
    win_irq_step (mkWin r ev (VWritten p) c acc del) (mkWin (ring_publish r) ev VSignal c (acc ++ [p]) del)
| wr_signal r ev c acc del :   (* a sleeper takes the signal at once *)
    win_irq_step (mkWin r ev VSignal c acc del)
      (mkWin r (match c with TkAsleep => ev | _ => true end) VOutside (match c with TkAsleep => TkOutside | c => c end) acc del)
(* softirq_take *)
| wt_load r ev q acc del :
    win_irq_step (mkWin r ev q TkOutside acc del) (mkWin r ev q (TkLoaded (head r)) acc del)
| wt_read r ev q h acc del :
    tail r <> h -> win_irq_step (mkWin r ev q (TkLoaded h) acc del) (mkWin r ev q (TkRead (ring_peek r)) acc del)
| wt_consume r ev q p acc del :
    win_irq_step (mkWin r ev q (TkRead p) acc del) (mkWin (ring_consume r) ev q TkOutside acc (del ++ [p]))
| wt_empty r ev q h acc del :
    tail r = h -> win_irq_step (mkWin r ev q (TkLoaded h) acc del) (mkWin r ev q TkWait acc del)
| wt_give_up r ev q acc del :   (* the deadline has passed: -1 *)
    win_irq_step (mkWin r ev q TkWait acc del) (mkWin r ev q TkOutside acc del)
| wt_wait r ev q acc del :
    win_irq_step (mkWin r ev q TkWait acc del) (mkWin r false q (if ev then TkOutside else TkAsleep) acc del)
| wt_timeout r ev q acc del :
    win_irq_step (mkWin r ev q TkAsleep acc del) (mkWin r ev q TkOutside acc del).

Definition win_irq_start : win_irq_sys := mkWin empty_ring false VOutside TkOutside [] [].

(** * The Windows clock is exact and its mailbox loses neither payload nor wake

    About [WinPal]; the ring's lemmas are those of [PalMailbox]. *)

(** ** Time *)

(** The split conversion is the exact one, without overflow for counters below
    2^33 Hz and 2^64 ns of time. *)
Lemma win_clock_exact (freq counter : Z) :
  0 < freq < 2 ^ 33 -> 0 <= counter -> counter * 1000000000 / freq < 2 ^ 64 ->
  win_monotonic_ns (mkTickCfg 0 0) freq counter = counter * 1000000000 / freq.
Proof.
  intros Hf Hc Hlt. unfold win_monotonic_ns. rewrite (proj2 (Z.leb_gt _ _)) by lia. cbn [tick_hz_ Z.eqb negb].
  pose proof (Z.div_mod counter freq ltac:(lia)) as Hdm. pose proof (Z.mod_pos_bound counter freq ltac:(lia)) as Hm.
  assert (Hsplit : counter * 1000000000 / freq = counter / freq * 1000000000 + counter mod freq * 1000000000 / freq).
  { rewrite Hdm at 1. replace ((freq * (counter / freq) + counter mod freq) * 1000000000)
      with (counter mod freq * 1000000000 + counter / freq * 1000000000 * freq) by lia. rewrite Z.div_add by lia. lia. }
  pose proof (Z.div_pos counter freq ltac:(lia) ltac:(lia)). pose proof (Z.div_pos (counter mod freq * 1000000000) freq ltac:(lia) ltac:(lia)).
  rewrite (wrap_small 64 (counter mod freq * _)) by (unfold in_u; lia).
  rewrite (wrap_small 64 (counter / freq * _)) by (unfold in_u; lia). rewrite wrap_small by (unfold in_u; lia). done.
Qed.

(** The split of [sleep_us] covers the request when the counter's frequency is a
    whole number of MHz. *)
Lemma win_sleep_covers (us mhz : Z) :
  in_u 32 us -> 0 < mhz < 2 ^ 20 ->
  let '(ms, rest) := win_sleep_us us in ms * 1000 + rest = us /\ 0 <= rest < 1000 /\ busy_target rest (mhz * 1000000) = rest * mhz.
Proof.
  intros Hu Hm. unfold in_u in Hu. cbn. pose proof (Z.div_mod us 1000 ltac:(lia)). pose proof (Z.mod_pos_bound us 1000 ltac:(lia)).
  split; [lia|]. split; [lia|]. unfold busy_target. rewrite wrap_small by (unfold in_u; nia).
  replace (us mod 1000 * (mhz * 1000000)) with (us mod 1000 * mhz * 1000000) by lia. by rewrite Z.div_mul.
Qed.

(** Endless exactly where the API says so, and never cut short. *)
Lemma win_waits_are_as_asked (timeout_ms : Z) :
  in_u 32 timeout_ms ->
  (win_wait_ms timeout_ms = kInfinite <-> timeout_ms = 0 \/ timeout_ms = kWaitForever) /\
  (win_take_ms timeout_ms = kInfinite <-> timeout_ms = kWaitForever) /\
  (win_cond_ms timeout_ms = kInfinite <-> timeout_ms = 0 \/ timeout_ms = kWaitForever) /\
  (0 < timeout_ms -> win_wait_ms timeout_ms = timeout_ms /\ win_take_ms timeout_ms = timeout_ms /\ win_cond_ms timeout_ms = timeout_ms).
Proof.
  intros Hu. unfold in_u in Hu. unfold win_wait_ms, win_take_ms, win_cond_ms, kInfinite, kWaitForever.
  destruct (Z.eqb_spec 0 timeout_ms), (Z.eqb_spec (2 ^ 32 - 1) timeout_ms); cbn [orb]; lia.
Qed.

Lemma take_round_bounded (timeout_ms elapsed : Z) :
  in_u 32 timeout_ms -> 0 <= elapsed -> 0 < timeout_ms < kWaitForever ->
  take_round_ms timeout_ms elapsed = if timeout_ms <=? elapsed then None else Some (timeout_ms - elapsed).
Proof.
  unfold in_u, take_round_ms, kWaitForever. intros Hu He Ht. rewrite (proj2 (Z.eqb_neq 0 _)), (proj2 (Z.eqb_neq (2 ^ 32 - 1) _)) by lia. cbn [orb].
  destruct (Z.leb_spec timeout_ms elapsed); [done|]. rewrite wrap_small by (unfold in_u; lia). by rewrite (proj2 (Z.eqb_neq 0 _)) by lia.
Qed.

(** ** The mailbox *)

(** The event is set or owed. *)
Definition due_wake (ev : bool) (q : win_raise_pc) : Prop := ev = true \/ q = VSignal.

Definition taker_ok (acc : list Z) (d : nat) (ev : bool) (q : win_raise_pc) (c : win_take_pc) : Prop :=
  match c with
  | TkLoaded h => exists a, h = wrap 32 (Z.of_nat a) /\ (d <= a <= length acc)%nat /\ ((a < length acc)%nat -> due_wake ev q)
  | TkRead p => acc !! d = Some p
  | TkWait | TkAsleep => (d < length acc)%nat -> due_wake ev q
  | TkOutside => True
  end.

Lemma taker_keeps acc d ev ev' q q' c :
  (due_wake ev q -> due_wake ev' q') -> taker_ok acc d ev q c -> taker_ok acc d ev' q' c.
Proof. intros Hw. destruct c; cbn; try done; [|by auto..]. intros (a & ? & ? & ?). exists a. by auto. Qed.

Record win_irq_inv (s : win_irq_sys) : Prop := {
  wii_ring : ring_inv (w_accepted s) (length (w_delivered s)) (w_ring s);
  wii_prefix : w_delivered s = take (length (w_delivered s)) (w_accepted s);
  wii_raiser : match w_raiser s with
    | VLoaded t _ => exists d, t = wrap 32 (Z.of_nat d) /\ (d <= length (w_delivered s))%nat /\ (length (w_accepted s) <= d + 8)%nat
    | VWritten p => (length (w_accepted s) < length (w_delivered s) + 8)%nat /\
        ring (w_ring s) !! cell_of (length (w_accepted s)) = Some p
    | _ => True end;
  wii_taker : taker_ok (w_accepted s) (length (w_delivered s)) (w_event s) (w_raiser s) (w_taker s);
  wii_asleep : w_taker s = TkAsleep -> w_event s = false
}.

Lemma win_irq_inv_start : win_irq_inv win_irq_start.
Proof. split; cbn; try done. apply empty_ring_inv. Qed.

Lemma win_irq_inv_step (s s' : win_irq_sys) : win_irq_inv s -> win_irq_step s s' -> win_irq_inv s'.
Proof.
  intros [Hr Hp Hq Hc Ha] Hst. pose proof (ri_window _ _ _ Hr) as Hwin.
  destruct Hst as [r ev c acc del p|r ev t p c acc del Hf|r ev t p c acc del Hf|r ev p c acc del|r ev c acc del|r ev q acc del
    |r ev q h acc del Hne|r ev q p acc del|r ev q h acc del E|r ev q acc del|r ev q acc del|r ev q acc del]; cbn in *.
  - split; cbn; try done; [exists (length del); rewrite (ri_tail _ _ _ Hr); lia|].
    eapply taker_keeps; [|exact Hc]. intros [|]; [by left|done].
  - split; cbn; try done.
    eapply taker_keeps; [|exact Hc]. intros [|]; [by left|done].
  - destruct Hq as (d & -> & Hd & Hl). pose proof (rt_room _ _ _ _ Hr Hd Hl Hf) as Hlt. destruct (ring_put_inv _ _ _ Hr p Hlt) as [Hr' Hs].
    split; cbn; try done.
    eapply taker_keeps; [|exact Hc]. intros [|]; [by left|done].
  - destruct Hq as [Hlt Hs]. split; cbn; [by apply ring_publish_inv|by apply delivered_kept; [lia|]|done| |done].
    destruct c as [|h|v| |]; cbn in *; try (intros _; by right); [done| |by rewrite lookup_app_l by (by eapply lookup_lt_Some)].
    destruct Hc as (a & -> & ? & _). exists a. rewrite length_app. cbn. split_and!; [done|lia|lia|intros _; by right].
  - assert (Hk : forall c', taker_ok acc (length del) ev VSignal c' -> taker_ok acc (length del) true VOutside c')
      by (intros c'; apply taker_keeps; intros _; by left).
    destruct c; split; cbn -[taker_ok]; try done; by apply Hk.
  - split; cbn; try done. exists (length acc). rewrite (ri_head _ _ _ Hr). split_and!; try done; lia.
  - destruct Hc as (a & -> & Hb & _). rewrite (ri_tail _ _ _ Hr) in Hne. split; cbn; try done.
    apply (ring_peek_inv _ _ _ Hr). destruct (decide (a = length del)) as [->|]; [done|lia].
  - pose proof (lookup_lt_Some _ _ _ Hc) as Hlt. pose proof (ring_consume_inv _ _ _ Hr Hlt) as Hr'.
    split; cbn; rewrite ?length_app, ?Nat.add_1_r; try done.
    + rewrite <- (Nat.add_1_r (length del)). pose proof (delivered_grows acc del p Hp Hc) as Hg. by rewrite length_app in Hg.
    + destruct q; cbn in *; try done; [destruct Hq as (d & -> & Hd & Hl); exists d; split; [done|lia]|]. destruct Hq as [Hq Hs]. split; [lia|done].
  - destruct Hc as (a & -> & Hb & Hev). rewrite (ri_tail _ _ _ Hr) in E. split; cbn; try done. intros Hlt.
    apply Hev. pose proof (window_wrap a (length del) ltac:(lia)) as Hw. rewrite E, Z.sub_diag in Hw. change (wrap 32 0) with 0 in Hw. lia.
  - by split; cbn.
  - destruct ev; by split; cbn.
  - by split; cbn.
Qed.

(** The Windows mailbox loses neither payload nor wake.  For one producer and
    one consumer, interleaved at every load, store and kernel call, with any
    timeouts, stale signals and wraps of the indices: the payloads delivered are a
    prefix of those accepted and at most eight are outstanding; and a consumer
    asleep with a payload in the ring is owed the event by the producer, whose own
    next step wakes it, so a wait without a timeout is safe. *)
Theorem win_mailbox_never_sleeps_over (s : win_irq_sys) :
  rtc win_irq_step win_irq_start s ->
  exists pending, w_accepted s = w_delivered s ++ pending /\ (length pending <= 8)%nat /\
    (w_taker s = TkAsleep -> pending <> [] ->
     w_raiser s = VSignal /\ exists s', win_irq_step s s' /\ w_taker s' = TkOutside /\ w_delivered s' = w_delivered s).
Proof.
  intros Hrun. assert (Hi : win_irq_inv s).
  { eapply (rtc_invariant win_irq_step win_irq_inv); [intros ??; apply win_irq_inv_step| |exact Hrun]. apply win_irq_inv_start. }
  pose proof (ri_window _ _ _ (wii_ring _ Hi)) as Hwin. exists (drop (length (w_delivered s)) (w_accepted s)). rewrite length_drop.
  split; [rewrite (wii_prefix _ Hi) at 1; by rewrite take_drop|]. split; [lia|]. intros Hsl Hne.
  pose proof (wii_taker _ Hi) as Hc. pose proof (wii_asleep _ Hi Hsl) as Hev. rewrite Hsl in Hc.
  assert (Hlt : (length (w_delivered s) < length (w_accepted s))%nat).
  { destruct (decide (length (w_delivered s) < length (w_accepted s))%nat) as [|Hge]; [done|]. destruct Hne. apply drop_ge. lia. }
  destruct (Hc Hlt) as [|Hsig]; [congruence|]. split; [done|]. destruct s as [r ev q c acc del]. cbn in *. subst.
  eexists. split; [apply wr_signal|done].
Qed.

(** The consumer falls asleep between a producer's publication and its event. *)
Lemma asleep_run : exists s, rtc win_irq_step win_irq_start s /\ w_taker s = TkAsleep /\ w_accepted s = [7] /\ w_delivered s = [].
Proof.
  eexists. split.
  { eapply rtc_l; [apply (wr_load _ _ _ _ _ 7)|]. eapply rtc_l; [by apply wr_write|]. eapply rtc_l; [apply wt_load|].
    eapply rtc_l; [by apply wt_empty|]. eapply rtc_l; [apply wr_publish|]. eapply rtc_l; [apply wt_wait|]. apply rtc_refl. }
  done.
Qed.

Lemma win_mailbox_never_sleeps_over_witness :
  exists s, rtc win_irq_step win_irq_start s /\ w_taker s = TkAsleep /\ w_accepted s = [7] /\ w_raiser s = VSignal.
Proof.
  destruct asleep_run as (s & Hrun & Ht & Ha & Hd). exists s. split; [exact Hrun|]. split; [exact Ht|]. split; [exact Ha|].
  destruct (win_mailbox_never_sleeps_over s Hrun) as (pending & Hp & _ & Hs). apply (Hs Ht). intros ->. rewrite Ha, Hd in Hp. discriminate.
Defined.
