(* ===== verification/Supervisor.v ===== *)
(** * The safety supervisor (src/examples/safety_supervisor_demo.cpp)

    The board's half of the protection: it turns queue occupancy, stalled
    progress and refused critical submits into breaker inputs, and drives a
    breaker back by probes.  [service_watchdog] is a function of what the board
    measures; a run is the list of its polls.  [probe_step] interleaves
    [drive_probes], one step per call of the component it drives, with the loop
    of the dispatcher that handles the probes: its batches, the cycle it counts
    after every event and the one it counts on every idle pass, the wake latch
    and the wait.  The label of a step says whether the answer it takes from its
    surroundings is the healthy one; a spurious wakeup is a label of its own. *)

From S2P Require Import Prelude Vocab Breaker Monitor WakeLatch.
Local Open Scope Z_scope.

Record SafetySupervisor := mkSup {
  last_progress_ns_ : Z; last_handled_ : Z; samples_ : Z; watchdog_fires_ : Z
}.
Definition sup_init : SafetySupervisor := mkSup 0 0 0 0.

Definition kWatchdogTimeoutNs : Z := 5 * 1000 * 1000.

(** ** The inputs *)

Section inputs.
Context (cfg : Config).

(** [wm] answers [partition_watermark]. *)
Definition sup_sample_watermarks (wm : PriorityClass -> Z) (s : SafetySupervisor) (m : Monitor) (b : list Z) :
    SafetySupervisor * Monitor * list Z :=
  let high := wm High in let normal := wm Normal in let low := wm Low in
  let m := sample_watermark m High high in
  let m := sample_watermark m Normal normal in
  let m := sample_watermark m Low low in
  let overall := high in
  let overall := if overall <? normal then normal else overall in
  let overall := if overall <? low then low else overall in
  (mkSup (last_progress_ns_ s) (last_handled_ s) (u32 (samples_ s + 1)) (watchdog_fires_ s), m,
   bank_broadcast cfg (Watermark overall) b).

Definition service_watchdog (s : SafetySupervisor) (b : list Z) (handled_now : Z) (work_pending : bool) (now_ns : Z) :
    bool * SafetySupervisor * list Z :=
  if negb work_pending || negb (handled_now =? last_handled_ s) then
    (false, mkSup now_ns handled_now (samples_ s) (watchdog_fires_ s), b)
  else if u64 (now_ns - last_progress_ns_ s) <? kWatchdogTimeoutNs then (false, s, b)
  else (true, mkSup now_ns (last_handled_ s) (samples_ s) (u32 (watchdog_fires_ s + 1)), bank_broadcast cfg Watchdog b).

Definition sup_on_submit (d : SubmitDisposition) (critical : bool) (b : list Z) : list Z :=
  if critical && bool_decide (d = RejectedFull) then bank_broadcast cfg KeyReserveExhausted b else b.

Definition request_safe_restore (b : list Z) : list Z := bank_broadcast cfg ExternalSafeRestore b.
Definition note_probe_success (target : TargetId) (b : list Z) : list Z := bank_on cfg ProbeSuccess b target.

(** ** Runs of the watchdog *)

Record poll := mkPoll { p_handled : Z; p_pending : bool; p_now : Z }.

Definition poll_step (x : SafetySupervisor * list Z) (p : poll) : SafetySupervisor * list Z :=
  let r := service_watchdog x.1 x.2 (p_handled p) (p_pending p) (p_now p) in (r.1.2, r.2).
Definition polls_run (b : list Z) (ps : list poll) : SafetySupervisor * list Z := fold_left poll_step ps (sup_init, b).

(** Poll [i] of [ps] fires. *)
Definition fired (b : list Z) (ps : list poll) (i : nat) : bool :=
  match ps !! i with
  | Some p => let x := polls_run b (take i ps) in (service_watchdog x.1 x.2 (p_handled p) (p_pending p) (p_now p)).1.1
  | None => false
  end.
End inputs.

(** A clock that does not run backwards, in 64 bits. *)
Definition clock_ok (ps : list poll) : Prop :=
  forall i j p q, (i <= j)%nat -> ps !! i = Some p -> ps !! j = Some q -> 0 <= p_now p <= p_now q /\ p_now q < 2 ^ 64.

(** From poll [j] to poll [i] work was pending and nothing was handled. *)
Definition stalled (ps : list poll) (j i : nat) : Prop :=
  exists p, ps !! j = Some p /\
    forall k q, (j < k <= i)%nat -> ps !! k = Some q -> p_pending q = true /\ p_handled q = p_handled p.

Definition elapsed (ps : list poll) (j i : nat) (d : Z) : Prop :=
  exists p q, ps !! j = Some p /\ ps !! i = Some q /\ d = p_now q - p_now p.

(** ** The probe loop and the dispatcher *)

Inductive sup_pc :=
| PCheck | PAlloc | PRead
| PSubmit (before : Z) | PPublished (before : Z) | PSignal (before : Z)   (* submit: enqueue, exchange the latch, signal *)
| PWait (before : Z) | PNote | PSample | PDone (r : bool).

(** The dispatcher: in a batch of which [used] events are taken; after an event's
    action; after the verdict on its budget; on an idle pass, before the cycle,
    before it arms, before the ready check, before the wait; in the wait; woken. *)
Inductive work_pc :=
| WBatch (used : Z) | WHandled (used : Z) | WJudged (used : Z) | WIdle | WArm | WCheck | WWait | WBlocked | WWaking.

Record probe_world := mkPW {
  pw_round : Z; pw_sup : sup_pc; pw_work : work_pc;
  pw_queue : nat;                 (* probes accepted, not yet taken *)
  pw_probes : Z;                  (* WorkContext::probes *)
  pw_latch : bool;                (* Staging::wake_pending_ *)
  pw_wake : bool;                 (* Posix::wake_ *)
  pw_bank : list Z
}.

#[export] Instance sup_pc_eq_dec : EqDecision sup_pc.
Proof. solve_decision. Defined.

Inductive outcome := Healthy | Unhealthy | Spurious.
#[export] Instance outcome_eq_dec : EqDecision outcome.
Proof. solve_decision. Defined.

Section probes.
Context (cfg : Config) (target : TargetId).

Definition kProbeRounds : Z := 24.

Definition is_normal (b : list Z) : bool := bool_decide (bank_level cfg b target = LNormal).

Definition overall_of (wm : PriorityClass -> Z) : Z := Z.max (Z.max (wm High) (wm Normal)) (wm Low).

Definition answer (ok : bool) : outcome := if ok then Healthy else Unhealthy.

Inductive probe_step : probe_world -> outcome -> probe_world -> Prop :=
| pb_check r w q n l k b :
    probe_step (mkPW r PCheck w q n l k b) Healthy
      (mkPW r (if r <? kProbeRounds then (if is_normal b then PDone true else PAlloc) else PDone (is_normal b)) w q n l k b)
| pb_alloc r w q n l k b ok :
    probe_step (mkPW r PAlloc w q n l k b) (answer ok) (mkPW r (if ok then PRead else PDone false) w q n l k b)
| pb_read r w q n l k b :
    probe_step (mkPW r PRead w q n l k b) Healthy (mkPW r (PSubmit n) w q n l k b)
| pb_submit r before w q n l k b ok :
    probe_step (mkPW r (PSubmit before) w q n l k b) (answer ok)
      (if ok then mkPW r (PPublished before) w (S q) n l k b else mkPW r (PDone false) w q n l k b)
| pb_exchange r before w q n l k b won l' :
    request_dispatcher_wake l = (won, l') ->
    probe_step (mkPW r (PPublished before) w q n l k b) Healthy
      (mkPW r (if won then PSignal before else PWait before) w q n l' k b)
| pb_signal r before w q n l k b :
    probe_step (mkPW r (PSignal before) w q n l k b) Healthy
      (mkPW r (PWait before) (match w with WBlocked => WWaking | _ => w end) q n l true b)
| pb_seen r before w q n l k b :
    n <> before -> probe_step (mkPW r (PWait before) w q n l k b) Healthy (mkPW r PNote w q n l k b)
| pb_gave_up r before w q n l k b :
    n = before -> probe_step (mkPW r (PWait before) w q n l k b) Unhealthy (mkPW r (PDone false) w q n l k b)
| pb_note r w q n l k b :
    probe_step (mkPW r PNote w q n l k b) Healthy (mkPW r PSample w q n l k (note_probe_success cfg target b))
| pb_sample r w q n l k b wm s m :
    probe_step (mkPW r PSample w q n l k b) (answer (overall_of wm <? kLowWatermarkPct))
      (mkPW (r + 1) PCheck w q n l k (sup_sample_watermarks cfg wm s m b).2)
(* the dispatcher *)
| pb_take r p u q n l k b :
    u < kBatchSizeMax cfg ->
    probe_step (mkPW r p (WBatch u) (S q) n l k b) Healthy (mkPW r p (WHandled (u + 1)) q (u32 (n + 1)) l k b)
| pb_judge r p u q n l k b ok :
    probe_step (mkPW r p (WHandled u) q n l k b) (answer ok)
      (mkPW r p (WJudged u) q n l k (bank_on cfg (if ok then RtcOk else RtcTimeout) b target))
| pb_cycle r p u q n l k b :
    probe_step (mkPW r p (WJudged u) q n l k b) Healthy (mkPW r p (WBatch u) q n l k (bank_on cfg DispatchCycle b target))
| pb_batch_end r p u q n l k b :
    kBatchSizeMax cfg <= u \/ q = 0%nat ->
    probe_step (mkPW r p (WBatch u) q n l k b) Healthy (mkPW r p (if u =? 0 then WIdle else WBatch 0) q n l k b)
| pb_idle r p q n l k b :
    probe_step (mkPW r p WIdle q n l k b) Healthy (mkPW r p WArm q n l k (bank_broadcast cfg DispatchCycle b))
| pb_arm r p q n l k b :
    probe_step (mkPW r p WArm q n l k b) Healthy (mkPW r p WCheck q n (arm_dispatcher_wait l) k b)
| pb_ready r p q n l k b :
    probe_step (mkPW r p WCheck q n l k b) Healthy (mkPW r p (if decide (q = 0%nat) then WWait else WBatch 0) q n l k b)
| pb_wait r p q n l k b :
    probe_step (mkPW r p WWait q n l k b) Healthy (mkPW r p (if k then WBatch 0 else WBlocked) q n l false b)
| pb_spurious r p q n l k b :
    probe_step (mkPW r p WBlocked q n l k b) Spurious (mkPW r p WWaking q n l k b)
| pb_woken r p q n l k b :
    probe_step (mkPW r p WWaking q n l k b) Healthy (mkPW r p (WBatch 0) q n l false b).

(** Runs, with the labels of their steps. *)
Fixpoint probe_run (x : probe_world) (hs : list outcome) (y : probe_world) : Prop :=
  match hs with
  | [] => x = y
  | h :: hs => exists z, probe_step x h z /\ probe_run z hs y
  end.

Definition spurious (hs : list outcome) : nat := countb (fun h => bool_decide (h = Spurious)) hs.

(** [drive_probes] is called with no probe queued, at any point of the dispatcher's
    loop; [no_wake_owed] is what the wake protocol guarantees when no producer is
    inside it ([WakeLatch]). *)
Definition probe_init (w : work_pc) (n : Z) (l k : bool) (b : list Z) : probe_world := mkPW 0 PCheck w 0 n l k b.
Definition no_wake_owed (w : work_pc) (l k : bool) : Prop :=
  match w with
  | WCheck | WWait => l = true -> k = true
  | WBlocked => l = false /\ k = false
  | _ => True
  end.
End probes.

Ltac pw_simpl := cbn [pw_round pw_sup pw_work pw_queue pw_probes pw_latch pw_wake pw_bank].
Tactic Notation "pw_simpl" "in" "*" := cbn [pw_round pw_sup pw_work pw_queue pw_probes pw_latch pw_wake pw_bank] in *.

(** ** Banks of packed breakers *)

Section banks.
Context (cfg : Config).

Definition packed (w : Z) : Prop := exists s, breaker_ok s /\ breaker_inv (u16 (kCooldownCycles cfg)) s /\ w = pack s.

Lemma cooldown_u16 : in_u 16 (u16 (kCooldownCycles cfg)).
Proof. apply wrap_range. lia. Qed.

Lemma on_packed e w s : breaker_inv (u16 (kCooldownCycles cfg)) s -> w = pack s ->
  breaker_on (u16 (kCooldownCycles cfg)) e w = pack (transition (u16 (kCooldownCycles cfg)) e s) /\
  breaker_inv (u16 (kCooldownCycles cfg)) (transition (u16 (kCooldownCycles cfg)) e s).
Proof.
  intros Hi ->. split; [by apply breaker_on_pack, Hi|apply transition_inv; [apply cooldown_u16|done]].
Qed.

Lemma broadcast_packed e l : Forall packed l -> Forall packed (bank_broadcast cfg e l).
Proof.
  intros Hl. unfold bank_broadcast. apply Forall_fmap. eapply Forall_impl; [exact Hl|].
  intros w (s & _ & Hi & Hw). destruct (on_packed e w s Hi Hw) as [E Hi']. simpl. rewrite E.
  eexists. split_and!; [apply Hi'|exact Hi'|done].
Qed.

Lemma watchdog_makes_safe l : Forall packed l -> Forall (fun w => breaker_level w = LSafe) (bank_broadcast cfg Watchdog l).
Proof.
  intros Hl. unfold bank_broadcast. apply Forall_fmap. eapply Forall_impl; [exact Hl|].
  intros w (s & _ & Hi & Hw). destruct (on_packed Watchdog w s Hi Hw) as [E Hi']. simpl. rewrite E.
  unfold breaker_level. rewrite unpack_pack by apply Hi'. cbn [transition].
  unfold t_key_reserve_exhausted. by case_bool_decide.
Qed.

Lemma ctor_packed : Forall packed (bank_ctor cfg).
Proof.
  apply Forall_replicate. eexists. pose proof (breaker_init_inv _ cooldown_u16) as H. split_and!; [apply H|exact H|done].
Qed.
End banks.

(** ** The watchdog *)

Section watchdog.
Context (cfg : Config) (b : list Z) (ps : list poll) (Hclock : clock_ok ps).

Local Abbreviation at_ k := (polls_run cfg b (take k ps)).
Local Abbreviation lp k := (last_progress_ns_ (at_ k).1).
Local Abbreviation lh k := (last_handled_ (at_ k).1).

Lemma at_S k p : ps !! k = Some p -> at_ (S k) = poll_step cfg (at_ k) p.
Proof using Type. intros Hk. rewrite (take_S_r _ _ _ Hk). unfold polls_run. by rewrite fold_left_app. Qed.

(** The three outcomes of a poll. *)
Lemma poll_cases k p : ps !! k = Some p ->
  (fired cfg b ps k = false /\ lp (S k) = p_now p /\ lh (S k) = p_handled p /\
     (p_pending p = false \/ p_handled p <> lh k)) \/
  (fired cfg b ps k = false /\ at_ (S k) = at_ k /\ p_handled p = lh k /\ p_pending p = true /\
     u64 (p_now p - lp k) < kWatchdogTimeoutNs) \/
  (fired cfg b ps k = true /\ lp (S k) = p_now p /\ lh (S k) = lh k /\ p_handled p = lh k /\ p_pending p = true /\
     kWatchdogTimeoutNs <= u64 (p_now p - lp k) /\ (at_ (S k)).2 = bank_broadcast cfg Watchdog (at_ k).2).
Proof using Type.
  intros Hk. rewrite (at_S k p Hk). unfold fired. rewrite Hk. unfold poll_step.
  generalize (at_ k). intros [s w]. unfold service_watchdog. cbn [fst snd].
  destruct (p_pending p) eqn:Ep; cbn [negb orb]; [|left; auto].
  destruct (Z.eqb_spec (p_handled p) (last_handled_ s)) as [He|He]; cbn [negb]; [|left; auto].
  destruct (Z.ltb_spec (u64 (p_now p - last_progress_ns_ s)) kWatchdogTimeoutNs); cbn [fst snd];
    [right; left|right; right]; auto 10.
Qed.

Lemma now_u64 k p : ps !! k = Some p -> 0 <= lp k <= p_now p -> u64 (p_now p - lp k) = p_now p - lp k.
Proof using Hclock.
  intros Hk H. apply wrap_small. destruct (Hclock k k p p) as [? ?]; try done. unfold in_u. lia.
Qed.

(** The mark never lies in the future. *)
Lemma lp_past k p : ps !! k = Some p -> 0 <= lp k <= p_now p.
Proof using Hclock.
  revert p. induction k as [|k IH]; intros q Hq.
  - destruct (Hclock 0%nat 0%nat q q); try done. simpl. lia.
  - destruct (lookup_lt_is_Some_2 ps k) as [p Hp]; [apply lookup_lt_Some in Hq; lia|].
    specialize (IH p Hp). destruct (Hclock k (S k) p q) as [[? ?] ?]; try done; [lia|].
    destruct (poll_cases k p Hp) as [(_ & -> & _)|[(_ & -> & _)|(_ & -> & _)]]; lia.
Qed.

(** Where the mark comes from. *)
Definition marked (k j : nat) : Prop :=
  (j < k)%nat /\ exists p, ps !! j = Some p /\ lp k = p_now p /\ lh k = p_handled p /\
  forall i q, (j < i < k)%nat -> ps !! i = Some q -> p_pending q = true /\ p_handled q = p_handled p.

Lemma mark_cases k : (k <= length ps)%nat ->
  (lp k = 0 /\ lh k = 0 /\ forall i q, (i < k)%nat -> ps !! i = Some q -> p_pending q = true /\ p_handled q = 0) \/
  exists j, marked k j.
Proof using Type.
  induction k as [|k IH]; intros Hk; [left; split_and!; try done; intros; lia|].
  destruct (lookup_lt_is_Some_2 ps k) as [p Hp]; [lia|].
  assert (Hnew : lp (S k) = p_now p -> lh (S k) = p_handled p -> exists j, marked (S k) j).
  { intros H1 H2. exists k. split; [lia|]. exists p. split_and!; try done. intros; lia. }
  destruct (poll_cases k p Hp) as [(_ & H1 & H2 & _)|[(_ & Heq & H1 & H2 & _)|(_ & H1 & H2 & H3 & _)]].
  - right. auto.
  - rewrite Heq. destruct IH as [(E1 & E2 & E3)|(j & Hj & q & E1 & E2 & E3 & E4)]; [lia|left|right].
    + split_and!; try done. intros i r Hi Hr. destruct (decide (i = k)) as [->|]; [|apply (E3 i); [lia|done]].
      assert (r = p) as -> by congruence. split; [done|congruence].
    + exists j. split; [lia|]. exists q. split_and!; try (done || congruence).
      intros i r [Hji Hik] Hr. destruct (decide (i = k)) as [->|]; [|apply (E4 i); [lia|done]].
      assert (r = p) as -> by congruence. split; [done|congruence].
  - right. apply Hnew; [done|congruence].
Qed.

Lemma fired_inv k : fired cfg b ps k = true -> exists p, ps !! k = Some p /\
  p_handled p = lh k /\ p_pending p = true /\ kWatchdogTimeoutNs <= p_now p - lp k /\
  lp (S k) = p_now p /\ (at_ (S k)).2 = bank_broadcast cfg Watchdog (at_ k).2.
Proof using Hclock.
  intros Hf. destruct (ps !! k) as [p|] eqn:Hp; [|by unfold fired in Hf; rewrite Hp in Hf].
  exists p. rewrite <- (now_u64 k p Hp (lp_past k p Hp)).
  destruct (poll_cases k p Hp) as [(H & _)|[(H & _)|(_ & H1 & H2 & H3 & H4 & H5 & H6)]]; [congruence..|by split_and!].
Qed.

(** During a stall the mark does not move past its beginning unless it fires. *)
Lemma stall_mark j i k p : stalled ps j i -> ps !! j = Some p -> (j < k <= i)%nat -> (i < length ps)%nat ->
  (exists m, (j < m < k)%nat /\ fired cfg b ps m = true) \/ (lh k = p_handled p /\ lp k <= p_now p).
Proof using Hclock.
  intros (p' & Hp' & Hst) Hp Hk Hi. assert (p' = p) as -> by congruence.
  induction k as [|k IH]; [lia|]. destruct (decide (k = j)) as [->|].
  - right. pose proof (lp_past j p Hp).
    destruct (poll_cases j p Hp) as [(_ & -> & -> & _)|[(_ & -> & -> & _)|(_ & -> & -> & -> & _)]]; split; (done || lia).
  - destruct IH as [(m & Hm & Hf)|[H1 H2]]; [lia|left; exists m; split; [lia|done]|].
    destruct (lookup_lt_is_Some_2 ps k) as [q Hq]; [lia|]. destruct (Hst k q) as [E1 E2]; [lia|done|].
    destruct (poll_cases k q Hq) as [(_ & _ & _ & [?|?])|[(_ & -> & _)|(Hf & _)]]; [congruence..|by right|].
    left. exists k. split; [lia|done].
Qed.

Lemma mark_after_fire i k p : fired cfg b ps i = true -> ps !! i = Some p -> (i < k)%nat -> (k <= length ps)%nat ->
  p_now p <= lp k.
Proof using Hclock.
  intros Hf Hp Hik. induction k as [|k IH]; [lia|]. intros Hk. destruct (decide (k = i)) as [->|].
  - destruct (fired_inv i Hf) as (p' & Hp' & _ & _ & _ & -> & _). assert (p' = p) as -> by congruence. done.
  - destruct (lookup_lt_is_Some_2 ps k) as [q Hq]; [lia|]. pose proof (lp_past k q Hq).
    assert (p_now p <= lp k) by (apply IH; lia).
    destruct (poll_cases k q Hq) as [(_ & -> & _)|[(_ & -> & _)|(_ & -> & _)]]; lia.
Qed.

Lemma bank_stays k : Forall (packed cfg) b -> Forall (packed cfg) (at_ k).2.
Proof using Type.
  intros Hb. induction k as [|k IH]; [done|]. destruct (ps !! k) as [p|] eqn:Hp.
  - rewrite (at_S k p Hp). unfold poll_step, service_watchdog.
    repeat case_test; cbn [snd]; (done || by apply broadcast_packed).
  - apply lookup_ge_None in Hp. rewrite take_ge by lia. by rewrite take_ge in IH by lia.
Qed.
End watchdog.

(** C24: The supervisor's watchdog reports stalls and nothing else.  For every
    run of its polls on a clock that does not go back: once some poll has given
    it a starting point (nothing pending, or events already handled), a poll
    fires only at the end of a stretch of at least five milliseconds in which
    work was pending at every poll and nothing was handled; every such stretch
    makes a poll fire before it is over; two fires are at least five
    milliseconds apart; and a fire leaves every breaker of the bank in Safe. *)
Theorem watchdog_exact (cfg : Config) (b : list Z) (ps : list poll) :
  clock_ok ps -> Forall (packed cfg) b ->
  (forall i, fired cfg b ps i = true ->
     (exists k p, (k < i)%nat /\ ps !! k = Some p /\ (p_pending p = false \/ p_handled p <> 0)) ->
     exists j d, (j < i)%nat /\ stalled ps j i /\ elapsed ps j i d /\ kWatchdogTimeoutNs <= d) /\
  (forall j i d, (j < i)%nat -> stalled ps j i -> elapsed ps j i d -> kWatchdogTimeoutNs <= d ->
     exists k, (j < k <= i)%nat /\ fired cfg b ps k = true) /\
  (forall i k d, (i < k)%nat -> fired cfg b ps i = true -> fired cfg b ps k = true -> elapsed ps i k d ->
     kWatchdogTimeoutNs <= d) /\
  (forall i, fired cfg b ps i = true ->
     Forall (fun w => breaker_level w = LSafe) (polls_run cfg b (take (S i) ps)).2).
Proof.
  intros Hc Hb. split_and!.
  - intros i Hf (k & pk & Hki & Hpk & Hev). destruct (fired_inv cfg b ps Hc i Hf) as (p & Hp & E1 & E2 & E3 & _).
    destruct (mark_cases cfg b ps i) as [(_ & _ & H)|(j & Hji & q & Hq & M1 & M2 & M3)];
      [apply lookup_lt_Some in Hp; lia|destruct (H k pk Hki Hpk); destruct Hev; congruence|].
    exists j, (p_now p - p_now q). split_and!; [done| |by exists q, p|lia].
    exists q. split; [done|]. intros m r Hm Hr. destruct (decide (m = i)) as [->|]; [|apply (M3 m); [lia|done]].
    assert (r = p) as -> by congruence. split; congruence.
  - intros j i d Hji Hst (p & q & Hp & Hq & ->) Hd. pose proof (lookup_lt_Some _ _ _ Hq) as Hi.
    destruct (stall_mark cfg b ps Hc j i i p Hst Hp) as [(m & Hm & Hf)|[H1 H2]]; [lia|done|exists m; split; [lia|done]|].
    exists i. split; [lia|]. pose proof (lp_past cfg b ps Hc i q Hq) as Hl.
    destruct Hst as (p' & Hp' & Hst). assert (p' = p) as -> by congruence. destruct (Hst i q) as [E1 E2]; [lia|done|].
    destruct (poll_cases cfg b ps i q Hq) as [(_ & _ & _ & [?|?])|[(_ & _ & _ & _ & E5)|(Hf & _)]]; [congruence..| |done].
    rewrite (now_u64 cfg b ps Hc i q Hq Hl) in E5. lia.
  - intros i k d Hik Hfi Hfk (p & q & Hp & Hq & ->). destruct (fired_inv cfg b ps Hc k Hfk) as (q' & Hq' & _ & _ & E3 & _).
    assert (q' = q) as -> by congruence. pose proof (lookup_lt_Some _ _ _ Hq) as Hk.
    pose proof (mark_after_fire cfg b ps Hc i k p Hfi Hp Hik ltac:(lia)). lia.
  - intros i Hf. destruct (fired_inv cfg b ps Hc i Hf) as (p & Hp & _ & _ & _ & _ & ->).
    by apply watchdog_makes_safe, bank_stays.
Qed.

Lemma clock_ok_cons p ps :
  Forall (fun q => 0 <= p_now p <= p_now q /\ p_now q < 2 ^ 64) (p :: ps) -> clock_ok ps -> clock_ok (p :: ps).
Proof.
  intros Hp Hps [|i] [|j] r q Hij Hr Hq; simpl in Hr, Hq; [|..|by eapply (Hps i j); eauto with lia]; simplify_eq; try lia.
  - by inversion Hp.
  - inversion Hp as [|? ? _ Hall]; subst. rewrite Forall_lookup in Hall. by apply (Hall j).
Qed.

(** Idle at 1 ms, a stall from 2 ms on, one poll per 2 ms: it fires at 6 ms. *)
Definition stall_polls : list poll :=
  [mkPoll 0 false 1000000; mkPoll 0 true 2000000; mkPoll 0 true 4000000; mkPoll 0 true 6000000; mkPoll 0 true 8000000].

Lemma watchdog_exact_witness :
  fired DefaultConfig (bank_ctor DefaultConfig) stall_polls 3 = true /\
  exists j d, (j < 3)%nat /\ stalled stall_polls j 3 /\ elapsed stall_polls j 3 d /\ kWatchdogTimeoutNs <= d.
Proof.
  split; [vm_compute; reflexivity|].
  apply (watchdog_exact DefaultConfig (bank_ctor DefaultConfig) stall_polls).
  - repeat (apply clock_ok_cons; [repeat constructor; simpl; lia|]). intros i j p q _ Hp. by rewrite lookup_nil in Hp.
  - apply ctor_packed.
  - vm_compute. reflexivity.
  - exists 0%nat, (mkPoll 0 false 1000000). split_and!; [lia|done|by left].
Defined.

(** Without the starting point the first poll is compared with time 0: a
    supervisor first asked while the first event is still unhandled reports a
    stall at once, if the clock is past five milliseconds. *)
Lemma first_poll_fires_early :
  fired DefaultConfig (bank_ctor DefaultConfig) [mkPoll 0 true 60000000] 0 = true.
Proof. vm_compute. reflexivity. Qed.

(** ** Bringing a breaker back *)

Section recovery.
Context (cfg : Config) (target : TargetId) (Hvalid : bank_valid cfg target = true).

Local Abbreviation cc := (u16 (kCooldownCycles cfg)).

(** Rounds a recovering breaker still owes: a round is one probe success and
    one dispatch cycle, in either order, and takes at least one off. *)
Definition rounds_owed (s : BState) : Z :=
  cooldown_remaining s + 2 * (kHealthyWindowsRequired - healthy_window_count s) - (if probe_success s then 1 else 0).

Definition on_the_way (P : BState -> Prop) (s : BState) : Prop := level s = LNormal \/ (level s = LRecovering /\ P s).

(** Between rounds; after the success of a round but before its cycle; after
    the cycle but before the success. *)
Definition between (k : Z) : BState -> Prop := on_the_way (fun s => rounds_owed s <= k).
Definition cycle_due (k : Z) : BState -> Prop := on_the_way (fun s => probe_success s = true /\ rounds_owed s <= k + 1).
Definition success_due (k : Z) : BState -> Prop :=
  on_the_way (fun s => rounds_owed s <= k \/ (probe_success s = false /\ rounds_owed s <= k + 1)).

Definition at_target (P : BState -> Prop) (b : list Z) : Prop :=
  exists s, b !! bank_index target = Some (pack s) /\ breaker_inv cc s /\ P s.

Lemma at_target_on e (P Q : BState -> Prop) b :
  (forall s, breaker_inv cc s -> P s -> Q (transition cc e s)) -> at_target P b -> at_target Q (bank_on cfg e b target).
Proof using Hvalid.
  intros H (s & Hb & Hi & HP). destruct (on_packed cfg e _ s Hi eq_refl) as [E Hi']. unfold bank_on. rewrite Hvalid.
  exists (transition cc e s). rewrite list_lookup_alter_eq, Hb. simpl. rewrite E. split_and!; [done|exact Hi'|by apply H].
Qed.

Lemma at_target_broadcast e (P Q : BState -> Prop) b :
  (forall s, breaker_inv cc s -> P s -> Q (transition cc e s)) -> at_target P b -> at_target Q (bank_broadcast cfg e b).
Proof using Type.
  intros H (s & Hb & Hi & HP). destruct (on_packed cfg e _ s Hi eq_refl) as [E Hi']. unfold bank_broadcast.
  exists (transition cc e s). rewrite list_lookup_fmap, Hb. simpl. rewrite E. split_and!; [done|exact Hi'|by apply H].
Qed.

Lemma at_target_level P b : at_target P b -> exists s, bank_level cfg b target = level s /\ breaker_inv cc s /\ P s.
Proof using Hvalid.
  intros (s & Hb & Hi & HP). exists s. unfold bank_level, breaker_level. rewrite Hb, Hvalid, unpack_pack by apply Hi. done.
Qed.

(** A healthy event other than the two of the recovery changes nothing it reads. *)
Definition calm (e : breaker_event) : Prop := e = RtcOk \/ exists p, e = Watermark p /\ p < kLowWatermarkPct.

Lemma calm_keeps e s : calm e -> level s = LNormal \/ level s = LRecovering ->
  level (transition cc e s) = level s /\ rounds_owed (transition cc e s) = rounds_owed s /\
  probe_success (transition cc e s) = probe_success s.
Proof using Type.
  intros [->|(p & -> & Hp)] Hl; [done|]. simpl. unfold t_watermark, kLowWatermarkPct, kWatermarkViolationPct in *.
  rewrite (proj2 (Z.ltb_ge 80 p)), (proj2 (Z.ltb_lt p 50)) by lia. cbn [level high_watermark_consec fst snd].
  destruct Hl as [El|El]; rewrite El; [done|]. by rewrite (proj2 (Z.leb_gt 50 p)).
Qed.

Lemma calm_on_the_way e (P : BState -> Prop) s :
  (forall s s', rounds_owed s' = rounds_owed s -> probe_success s' = probe_success s -> P s -> P s') ->
  calm e -> on_the_way P s -> on_the_way P (transition cc e s).
Proof using Type.
  intros HP He Hs. destruct (calm_keeps e s He) as (E1 & E2 & E3); [destruct Hs; naive_solver|].
  unfold on_the_way. rewrite E1. destruct Hs as [|[? ?]]; [by left|right; split; [done|by eapply HP]].
Qed.

Lemma success_step s : level (transition cc ProbeSuccess s) = level s /\
  (level s = LRecovering -> probe_success (transition cc ProbeSuccess s) = true /\
     rounds_owed (transition cc ProbeSuccess s) = rounds_owed s - (if probe_success s then 0 else 1)).
Proof using Type.
  simpl. unfold t_probe_success, rounds_owed. case_bool_decide as E; [|done].
  split; [done|]. intros _. split; [done|]. cbn. destruct (probe_success s); lia.
Qed.

Lemma cycle_step s : breaker_inv cc s -> level s = LNormal \/ level s = LRecovering ->
  let s' := transition cc DispatchCycle s in
  level s' = LNormal \/
  (level s = LRecovering /\ level s' = LRecovering /\
   (rounds_owed s' < rounds_owed s \/ (rounds_owed s' = rounds_owed s /\ probe_success s = false /\ probe_success s' = false))).
Proof using Type.
  intros Hi Hl. cbv zeta. destruct Hl as [El|El]; [left|].
  - simpl. unfold t_dispatch_cycle. rewrite El, bool_decide_eq_false_2 by done. done.
  - destruct Hi as [[Hcd _ _ _ _ Hhc] _ H3]. unfold in_u, kHealthyWindowsRequired in *.
    simpl. unfold t_dispatch_cycle. rewrite El, bool_decide_eq_true_2 by done. cbn [andb].
    unfold rounds_owed, counter_up, kCounterMask, kHealthyWindowsRequired.
    set (cd := if 0 <? cooldown_remaining s then _ else _).
    assert (Hcd' : (0 < cooldown_remaining s /\ cd = cooldown_remaining s - 1) \/ (cooldown_remaining s = 0 /\ cd = 0))
      by (subst cd; case_test; lia). clearbody cd. rewrite (proj2 (Z.ltb_lt (healthy_window_count s) 3)) by lia.
    destruct (Z.eqb_spec cd 0) as [->|]; cbn [andb]; [|right; cbn; split_and!; try done; lia].
    destruct (probe_success s) eqn:Ef; [case_test; cbn; [by left|right; split_and!; try done; lia]|].
    right. cbn. split_and!; try done. rewrite ?Ef. destruct Hcd' as [[? ?]|[? ?]]; [left; lia|right]. split_and!; (done || lia).
Qed.

Lemma round_success k s : breaker_inv cc s -> between k s -> cycle_due (k - 1) (transition cc ProbeSuccess s).
Proof using Type.
  intros _ Hs. destruct (success_step s) as [E H]. unfold cycle_due, on_the_way. rewrite E.
  destruct Hs as [|[El Ho]]; [by left|right]. destruct (H El) as [-> ->]. split_and!; try done. destruct (probe_success s); lia.
Qed.

Lemma due_success k s : breaker_inv cc s -> success_due k s -> between k (transition cc ProbeSuccess s).
Proof using Type.
  intros _ Hs. destruct (success_step s) as [E H]. unfold between, on_the_way. rewrite E.
  destruct Hs as [|[El Ho]]; [by left|right]. destruct (H El) as [_ ->]. split; [done|].
  destruct Ho as [?|[-> ?]]; [destruct (probe_success s)|]; lia.
Qed.

Lemma round_cycle k s : breaker_inv cc s -> between k s -> success_due (k - 1) (transition cc DispatchCycle s).
Proof using Type.
  intros Hi Hs. destruct (cycle_step s Hi) as [E|(E1 & E2 & E3)]; [unfold between, on_the_way in Hs; naive_solver|by left|].
  destruct Hs as [|[_ Ho]]; [congruence|]. right. split; [done|]. destruct E3 as [?|(? & ? & ?)]; [left; lia|right; split; [done|lia]].
Qed.

Lemma due_cycle k s : breaker_inv cc s -> cycle_due k s -> between k (transition cc DispatchCycle s).
Proof using Type.
  intros Hi Hs. destruct (cycle_step s Hi) as [E|(E1 & E2 & E3)]; [unfold cycle_due, on_the_way in Hs; naive_solver|by left|].
  destruct Hs as [|[_ [Hf Ho]]]; [congruence|]. right. split; [done|]. destruct E3 as [?|(_ & ? & _)]; [lia|congruence].
Qed.

(** *** The loop *)

(** A cycle that follows an event is still to come. *)
Definition busy (w : work_pc) : bool := match w with WHandled _ | WJudged _ => true | _ => false end.

Definition phase (w : work_pc) (free busy_ : BState -> Prop) (b : list Z) : Prop := at_target (if busy w then busy_ else free) b.

(** Before the round's event is taken the last cycle of the round before may be
    outstanding, or one of an event from before the loop. *)
Definition settling (k : Z) (s : BState) : Prop := cycle_due k s \/ between k s.

Definition probe_inv (d : Z) (x : probe_world) : Prop :=
  let k := d - pw_round x in
  let open_ := phase (pw_work x) (between k) (settling k) (pw_bank x) in
  let shut := phase (pw_work x) (success_due (k - 1)) (between k) (pw_bank x) in
  let taken before := (pw_probes x = before /\ pw_queue x = 1%nat /\ open_) \/ (pw_probes x <> before /\ pw_queue x = 0%nat /\ shut) in
  0 <= pw_round x <= kProbeRounds /\ in_u 32 (pw_probes x) /\
  match pw_sup x with
  | PCheck => pw_queue x = 0%nat /\ open_
  | PAlloc | PRead => pw_round x < kProbeRounds /\ pw_queue x = 0%nat /\ open_
  | PSubmit before => pw_round x < kProbeRounds /\ pw_probes x = before /\ pw_queue x = 0%nat /\ open_
  | PPublished before | PSignal before | PWait before => pw_round x < kProbeRounds /\ taken before
  | PNote => pw_round x < kProbeRounds /\ pw_queue x = 0%nat /\ shut
  | PSample => pw_round x < kProbeRounds /\ pw_queue x = 0%nat /\
      phase (pw_work x) (between (k - 1)) (settling (k - 1)) (pw_bank x)
  | PDone r => r = true /\ at_target (fun s => level s = LNormal) (pw_bank x)
  end.

(** The wake protocol, with this one producer. *)
Definition probe_wake (x : probe_world) : Prop :=
  (match pw_work x with WCheck | WWait | WBlocked => pw_latch x = true -> pw_wake x = true \/ exists v, pw_sup x = PSignal v | _ => True end) /\
  (match pw_work x with WWait | WBlocked => (0 < pw_queue x)%nat -> pw_latch x = false -> exists v, pw_sup x = PPublished v | _ => True end) /\
  (pw_work x = WBlocked -> pw_wake x = false).

Lemma at_target_impl (P Q : BState -> Prop) b : (forall s, breaker_inv cc s -> P s -> Q s) -> at_target P b -> at_target Q b.
Proof using Type. intros H (s & Hb & Hi & HP). exists s. split_and!; [done|done|by apply H]. Qed.

Lemma owed_pos s : breaker_inv cc s -> 1 <= rounds_owed s.
Proof using Type.
  intros [[Hcd _ _ _ _ _] _ Hh]. unfold in_u, rounds_owed, kHealthyWindowsRequired in *. destruct (probe_success s); lia.
Qed.

(** After the last round nothing is owed. *)
Lemma nothing_owed w k b : k < 0 -> phase w (between k) (settling k) b -> at_target (fun s => level s = LNormal) b.
Proof using Type.
  intros Hk. apply at_target_impl. intros s Hi. pose proof (owed_pos s Hi).
  destruct (busy w); unfold settling, between, cycle_due, on_the_way;
    [intros [[?|[_ Ho]]|[?|[_ Ho]]]|intros [?|[_ Ho]]]; try done; lia.
Qed.

Lemma normal_spec b : is_normal cfg target b = true -> (exists P, at_target P b) -> at_target (fun s => level s = LNormal) b.
Proof using Hvalid.
  unfold is_normal. intros Hn%bool_decide_eq_true_1 (P & s & Hb & Hi & _). exists s. split_and!; try done.
  revert Hn. unfold bank_level, breaker_level. by rewrite Hb, Hvalid, unpack_pack by apply Hi.
Qed.

Lemma normal_here b : at_target (fun s => level s = LNormal) b -> is_normal cfg target b = true.
Proof using Hvalid.
  intros H. apply bool_decide_eq_true_2. destruct (at_target_level _ _ H) as (s & -> & _ & Hs). done.
Qed.

(** The quiet events keep every phase. *)
Lemma between_calm k e s : calm e -> between k s -> between k (transition cc e s).
Proof using Type. apply calm_on_the_way. intros ? ? ->. done. Qed.
Lemma cycle_due_calm k e s : calm e -> cycle_due k s -> cycle_due k (transition cc e s).
Proof using Type. apply calm_on_the_way. intros ? ? -> ->. done. Qed.
Lemma success_due_calm k e s : calm e -> success_due k s -> success_due k (transition cc e s).
Proof using Type. apply calm_on_the_way. intros ? ? -> ->. done. Qed.
Lemma settling_calm k e s : calm e -> settling k s -> settling k (transition cc e s).
Proof using Type. intros He [H|H]; [left; by apply cycle_due_calm|right; by apply between_calm]. Qed.

(** A further cycle, of an idle pass, takes nothing back. *)
Lemma between_cycle k s : breaker_inv cc s -> between k s -> between k (transition cc DispatchCycle s).
Proof using Type.
  intros Hi Hs. destruct (cycle_step s Hi) as [E|(E1 & E2 & E3)]; [unfold between, on_the_way in Hs; naive_solver|by left|].
  destruct Hs as [|[_ Ho]]; [congruence|]. right. split; [done|]. lia.
Qed.
Lemma success_due_cycle k s : breaker_inv cc s -> success_due k s -> success_due k (transition cc DispatchCycle s).
Proof using Type.
  intros Hi Hs. destruct (cycle_step s Hi) as [E|(E1 & E2 & E3)]; [unfold success_due, on_the_way in Hs; naive_solver|by left|].
  destruct Hs as [|[_ Ho]]; [congruence|]. right. split; [done|].
  destruct Ho as [?|[? ?]], E3 as [?|(? & ? & ?)]; first [left; lia|right; split; [done|lia]].
Qed.
Lemma settling_cycle k s : breaker_inv cc s -> settling k s -> between k (transition cc DispatchCycle s).
Proof using Type. intros Hi [H|H]; [by apply due_cycle|by apply between_cycle]. Qed.
Lemma round_settling k s : breaker_inv cc s -> between k s -> settling (k - 1) (transition cc ProbeSuccess s).
Proof using Type. left. by apply round_success. Qed.

Lemma normal_calm e s : calm e -> level s = LNormal -> level (transition cc e s) = LNormal.
Proof using Type. intros He Hs. destruct (calm_keeps e s He) as (-> & _); [by left|done]. Qed.
Lemma normal_cycle s : breaker_inv cc s -> level s = LNormal -> level (transition cc DispatchCycle s) = LNormal.
Proof using Type. intros Hi Hs. destruct (cycle_step s Hi) as [?|[? _]]; [by left|done|congruence]. Qed.

Lemma calm_ok : calm RtcOk.
Proof using Type. by left. Qed.
Lemma calm_low p : p < kLowWatermarkPct -> calm (Watermark p).
Proof using Type. right. eauto. Qed.
Lemma sample_bank wm s m b : (sup_sample_watermarks cfg wm s m b).2 = bank_broadcast cfg (Watermark (overall_of wm)) b.
Proof using Type.
  assert (Hm : forall x y, (if x <? y then y else x) = Z.max x y) by (intros; case_test; lia).
  unfold sup_sample_watermarks, overall_of. cbn [snd]. by rewrite !Hm.
Qed.
Lemma bumped n : in_u 32 n -> u32 (n + 1) <> n.
Proof using Type.
  unfold in_u, wrap. intros Hn He. assert (n + 1 = 2 ^ 32 \/ n + 1 < 2 ^ 32) as [E|E] by lia.
  - rewrite E, Z_mod_same_full in He. lia.
  - rewrite Z.mod_small in He; lia.
Qed.



(** What the dispatcher keeps, whatever the supervisor is at. *)
Record steady (free busy_ : BState -> Prop) : Prop := {
  st_free : forall e s, calm e -> free s -> free (transition cc e s);
  st_busy : forall e s, calm e -> busy_ s -> busy_ (transition cc e s);
  st_cycle : forall s, breaker_inv cc s -> busy_ s -> free (transition cc DispatchCycle s);
  st_idle : forall s, breaker_inv cc s -> free s -> free (transition cc DispatchCycle s)
}.

Lemma steady_open k : steady (between k) (settling k).
Proof using Type.
  split; intros; [by apply between_calm|by apply settling_calm|by apply settling_cycle|by apply between_cycle].
Qed.
Lemma steady_shut k : steady (success_due (k - 1)) (between k).
Proof using Type.
  split; intros; [by apply success_due_calm|by apply between_calm|by apply round_cycle|by apply success_due_cycle].
Qed.
Lemma steady_normal : steady (fun s => level s = LNormal) (fun s => level s = LNormal).
Proof using Type. split; intros; [by apply normal_calm..|by apply normal_cycle|by apply normal_cycle]. Qed.

(** A step of the dispatcher that takes no event. *)
Lemma inv_dispatch d r p w w' q n l l' k k' b b' :
  (forall F B, steady F B -> phase w F B b -> phase w' F B b') ->
  probe_inv d (mkPW r p w q n l k b) -> probe_inv d (mkPW r p w' q n l' k' b').
Proof using Type.
  intros Hp (Hr & Hn & Hx). split; [exact Hr|split; [exact Hn|]]. pw_simpl in *.
  pose proof (Hp _ _ (steady_open (d - r))) as Ho. pose proof (Hp _ _ (steady_shut (d - r))) as Hs.
  pose proof (Hp _ _ (steady_open (d - r - 1))) as Ho'.
  assert (Hd : at_target (fun s => level s = LNormal) b -> at_target (fun s => level s = LNormal) b').
  { pose proof (Hp _ _ steady_normal) as H. unfold phase in H. by destruct (busy w), (busy w'). }
  destruct p; tauto.
Qed.

Lemma steady_judge F B ok u b : steady F B -> ok = true -> phase (WHandled u) F B b ->
  phase (WJudged u) F B (bank_on cfg (if ok : bool then RtcOk else RtcTimeout) b target).
Proof using Hvalid. intros HS -> . apply (at_target_on RtcOk). intros s _. apply (st_busy _ _ HS), calm_ok. Qed.
Lemma steady_cycle F B u b : steady F B -> phase (WJudged u) F B b -> phase (WBatch u) F B (bank_on cfg DispatchCycle b target).
Proof using Hvalid. intros HS. apply at_target_on. apply (st_cycle _ _ HS). Qed.
Lemma steady_idle F B b : steady F B -> phase WIdle F B b -> phase WArm F B (bank_broadcast cfg DispatchCycle b).
Proof using Type. intros HS. apply at_target_broadcast. apply (st_idle _ _ HS). Qed.

Lemma inv_probe_taken d r p u q n l k b :
  probe_inv d (mkPW r p (WBatch u) (S q) n l k b) -> probe_inv d (mkPW r p (WHandled (u + 1)) q (u32 (n + 1)) l k b).
Proof using Type.
  intros (Hr & Hn & Hx). split; [exact Hr|split; [by apply wrap_range|]]. pw_simpl in *.
  destruct p; try (destruct Hx as (? & ? & ?); done); try (destruct Hx as (? & ?); done);
    try (destruct Hx as (? & ? & ? & ?); done);
    (destruct Hx as (Hr' & [(-> & [= ->] & Hx)|(_ & [=] & _)]); split; [done|right];
      split_and!; [by apply bumped|done|exact Hx]).
Qed.

Lemma inv_sup d x h y : d <= kProbeRounds - 1 -> probe_inv d x ->
  probe_step cfg target x h y -> h = Healthy -> pw_sup y <> pw_sup x -> probe_inv d y.
Proof using Hvalid.
  unfold kProbeRounds. intros Hd (Hr & Hn & Hx) Hs.
  destruct Hs; intros Hh Hne; pw_simpl in *; try done; unfold probe_inv, kProbeRounds in *; pw_simpl.
  - (* check *)
    split; [lia|split; [done|]]. destruct Hx as [-> Hx]. destruct (Z.ltb_spec r 24).
    + destruct (is_normal cfg target b) eqn:En; [|done]. split; [done|]. apply (normal_spec b En). unfold phase in Hx. eauto.
    + assert (Hl : at_target (fun s => level s = LNormal) b) by (eapply (nothing_owed w (d - r)); [lia|done]).
      split; [by apply normal_here|done].
  - destruct ok; [|done]. split; [lia|split; done].
  - split; [lia|split; [done|]]. destruct Hx as (? & ? & ?). done.
  - destruct ok; [|done]. pw_simpl. split; [lia|split; [done|]]. destruct Hx as (? & ? & -> & ?). split; [done|]. by left.
  - split; [lia|split; [done|]]. by destruct won.
  - split; [lia|split; [done|]]. destruct Hx as [? Hx]. split; [done|]. by destruct w.
  - split; [lia|split; [done|]]. destruct Hx as (? & [(? & _)|(_ & Hq & Hx)]); done.
  - (* note *)
    split; [lia|split; [done|]]. destruct Hx as (? & ? & Hx). split_and!; [done|done|]. unfold note_probe_success, phase in *.
    destruct (busy w); (eapply at_target_on; [|exact Hx]); intros s Hi; [by apply round_settling|by apply due_success].
  - (* sample *)
    split; [lia|split; [done|]]. destruct Hx as (? & -> & Hx). rewrite sample_bank.
    assert (Hc : calm (Watermark (overall_of wm))) by (apply calm_low; destruct (Z.ltb_spec (overall_of wm) kLowWatermarkPct); done).
    split; [done|]. replace (d - (r + 1)) with (d - r - 1) by lia. unfold phase in *.
    destruct (busy w); (eapply at_target_broadcast; [|exact Hx]); intros s' _; [by apply settling_calm|by apply between_calm].
Qed.

Lemma spurious_sup x y : probe_step cfg target x Spurious y -> pw_sup y = pw_sup x /\ exists r p q n l k b,
  x = mkPW r p WBlocked q n l k b /\ y = mkPW r p WWaking q n l k b.
Proof using Type.
  intros Hs. remember Spurious as h eqn:Eh. destruct Hs; try discriminate Eh; try (unfold answer in Eh; case_match; discriminate).
  split; [done|]. by eexists _, _, _, _, _, _, _.
Qed.

Lemma probe_inv_step d x h y : d <= kProbeRounds - 1 -> probe_inv d x -> probe_step cfg target x h y -> h <> Unhealthy -> probe_inv d y.
Proof using Hvalid.
  intros Hd Hx Hs Hh. destruct (decide (pw_sup y = pw_sup x)) as [Hp|Hne].
  2: { destruct h; [by eapply inv_sup|done|]. destruct Hne. by apply spurious_sup. }
  destruct Hs; pw_simpl in *; try (destruct ok; discriminate Hp || by destruct Hh); try discriminate Hp.
  - by destruct (r <? kProbeRounds), (is_normal cfg target b).
  - by destruct won.
  - by eapply inv_probe_taken.
  - destruct ok; [|by destruct Hh]. eapply inv_dispatch; [|exact Hx]. intros F B HS. by apply (steady_judge F B true).
  - eapply inv_dispatch; [|exact Hx]. intros F B HS. by apply steady_cycle.
  - eapply inv_dispatch; [|exact Hx]. intros F B HS. by case_match.
  - eapply inv_dispatch; [|exact Hx]. intros F B HS. by apply steady_idle.
  - by eapply inv_dispatch; [|exact Hx].
  - eapply inv_dispatch; [|exact Hx]. intros F B HS. by case_match.
  - eapply inv_dispatch; [|exact Hx]. intros F B HS. by case_match.
  - by eapply inv_dispatch; [|exact Hx].
  - by eapply inv_dispatch; [|exact Hx].
Qed.

Lemma probe_wake_step x h y : probe_wake x -> probe_step cfg target x h y -> probe_wake y.
Proof using Type.
  intros (H1 & H2 & H3) Hs. unfold probe_wake in *.
  destruct Hs; pw_simpl in *; unfold arm_dispatcher_wait, request_dispatcher_wake in *; simplify_eq;
    repeat match goal with x : bool |- _ => destruct x end; repeat case_match; simplify_eq; pw_simpl; split_and!;
    try solve [done|naive_solver lia].
Qed.

(** *** Its end *)

Definition pc_weight (p : sup_pc) : Z :=
  match p with
  | PCheck => 30 | PAlloc => 29 | PRead => 28 | PSubmit _ => 27 | PPublished _ => 18 | PSignal _ => 17
  | PWait _ => 4 | PNote => 3 | PSample => 2 | PDone _ => 0
  end.
Definition work_weight (w : work_pc) (q : nat) : Z :=
  let late := if decide (q = 0%nat) then 0 else 4 in
  match w with
  | WHandled _ => 9 | WJudged _ => 8 | WBatch u => if u =? 0 then 6 else 7 | WWaking => 7
  | WIdle => 5 + late | WArm => 4 + late | WCheck => 3 + late | WWait => 2 | WBlocked => 1
  end.
Definition steps_left (x : probe_world) : Z :=
  29 * (kProbeRounds - pw_round x) + pc_weight (pw_sup x) + 4 * Z.of_nat (pw_queue x) + work_weight (pw_work x) (pw_queue x)
  + (if pw_wake x then 5 else 0).

Lemma weight_late w q : work_weight w (S q) <= work_weight w q + 4.
Proof using Type. unfold work_weight. destruct w; repeat case_decide; lia. Qed.
Lemma weight_batch u q : 6 <= work_weight (WBatch u) q <= 7 /\ (u <> 0 -> work_weight (WBatch u) q = 7).
Proof using Type. unfold work_weight. case_test; lia. Qed.

(** Every step makes progress; a spurious wakeup costs the six steps back to the wait. *)
Lemma steps_left_step d x h y : 0 < kBatchSizeMax cfg -> probe_inv d x -> probe_step cfg target x h y -> h <> Unhealthy ->
  steps_left y + 1 <= steps_left x + (if decide (h = Spurious) then 7 else 0).
Proof using Type.
  intros HB (_ & _ & Hx) Hs Hh. assert (Hd : 0 <= (if decide (h = Spurious) then 7 else 0)) by (case_decide; lia).
  destruct Hs; pw_simpl in *; unfold steps_left; pw_simpl; try (destruct ok; [|by destruct Hh]); pw_simpl;
    try (set (E := if decide _ then 7 else 0) in * ); clear Hh.
  - destruct (r <? kProbeRounds), (is_normal cfg target b); simpl; lia.
  - simpl; lia.
  - simpl; lia.
  - pose proof (weight_late w q). simpl pc_weight. lia.
  - destruct won; simpl; lia.
  - simpl pc_weight. destruct w; simpl; destruct k; lia.
  - simpl; lia.
  - simpl; lia.
  - simpl; lia.
  - simpl; lia.
  - pose proof (weight_batch u (S q)). change (work_weight (WHandled (u + 1)) q) with 9. lia.
  - simpl; lia.
  - pose proof (weight_batch u q). change (work_weight (WJudged u) q) with 8. lia.
  - destruct (weight_batch u q) as [_ Hu]. destruct (Z.eqb_spec u 0) as [->|Hne].
    + destruct H as [?| ->]; [lia|]. simpl. lia.
    + rewrite Hu by done. simpl. lia.
  - simpl. case_decide; lia.
  - simpl. case_decide; lia.
  - case_decide; subst; simpl; [lia|]. rewrite decide_False by done. lia.
  - destruct k; simpl; lia.
  - unfold E. simpl. lia.
  - destruct k; simpl; lia.
Qed.

Lemma healthy_run d hs x y : 0 < kBatchSizeMax cfg -> d <= kProbeRounds - 1 -> probe_inv d x -> probe_wake x ->
  Forall (fun h => h <> Unhealthy) hs -> probe_run cfg target x hs y ->
  probe_inv d y /\ probe_wake y /\ Z.of_nat (length hs) + steps_left y <= steps_left x + 7 * Z.of_nat (spurious hs).
Proof using Hvalid.
  intros HB Hd Hx Hw Hh Hrun. revert x Hx Hw Hrun.
  induction Hh as [|h hs Hh _ IH]; intros x Hx Hw; [intros ->; split_and!; [done|done|simpl; lia]|].
  intros (z & Hs & Hrun). pose proof (steps_left_step d x h z HB Hx Hs Hh) as Hl.
  destruct (IH z ltac:(by eapply probe_inv_step) ltac:(by eapply probe_wake_step) Hrun) as (Hy & Hwy & Hle).
  split_and!; [done|done|]. unfold spurious in *. simpl. revert Hl. case_decide as Hsp.
  - rewrite bool_decide_eq_true_2 by done. simpl. lia.
  - rewrite bool_decide_eq_false_2 by done. simpl. lia.
Qed.

Lemma healthy_progress d x : probe_inv d x -> probe_wake x -> (forall r, pw_sup x <> PDone r) ->
  exists y, probe_step cfg target x Healthy y.
Proof using Type.
  destruct x as [r p w q n l k b]. intros (_ & _ & Hx) (H1 & H2 & H3) Hp. pw_simpl in *.
  destruct p as [| | |before|before|before|before| | |r'].
  - eexists. apply pb_check.
  - eexists. apply (pb_alloc _ _ _ _ _ _ _ _ _ true).
  - eexists. apply pb_read.
  - eexists. apply (pb_submit _ _ _ _ _ _ _ _ _ _ true).
  - eexists. by apply pb_exchange.
  - eexists. apply pb_signal.
  - destruct Hx as (_ & [(-> & -> & _)|(Hne & _ & _)]); [|eexists; by constructor].
    destruct w as [u|u|u| | | | | |]; try (eexists; by constructor).
    + destruct (Z.ltb_spec u (kBatchSizeMax cfg)); eexists; [by apply pb_take|apply pb_batch_end; by left].
    + eexists. apply (pb_judge _ _ _ _ _ _ _ _ _ _ true).
    + exfalso. specialize (H3 eq_refl). destruct l; [destruct (H1 eq_refl) as [?|[? ?]]; congruence|].
      by destruct (H2 ltac:(lia) eq_refl).
  - eexists. apply pb_note.
  - eexists. apply (pb_sample cfg target _ _ _ _ _ _ _ (fun _ => 0) sup_init (mkMonitor [] global0)).
  - by destruct (Hp r').
Qed.
End recovery.

(** C21: Controlled probes bring a breaker back.  With a cool-down of at most 17
    cycles, from a restored breaker ([Recovering]) in any reachable state and with
    the dispatcher anywhere in its loop, the probe loop ends with success on every
    interleaving with the dispatcher (its batches, its idle passes, which count a
    cycle in every breaker, the wake latch and the wait) in which what it depends
    on stays healthy: blocks and queue cells are there, the probes are dispatched
    within their budget, the occupancy stays below 50%.  It never reports failure,
    it is never stuck before its end, not even with the dispatcher asleep, and it
    takes at most 740 steps, plus 7 for each spurious wakeup of the dispatcher; at
    the end the breaker is Normal. *)
Theorem probes_bring_back (cfg : Config) (target : TargetId) (w : work_pc) (n : Z) (l k : bool) (b : list Z)
    (hs : list outcome) (y : probe_world) :
  bank_valid cfg target = true -> 0 < kBatchSizeMax cfg -> u16 (kCooldownCycles cfg) <= 17 -> in_u 32 n ->
  Forall (packed cfg) b -> bank_level cfg b target = LRecovering -> no_wake_owed w l k ->
  Forall (fun h => h <> Unhealthy) hs -> probe_run cfg target (probe_init w n l k b) hs y ->
  (length hs <= 740 + 7 * spurious hs)%nat /\
  (forall r, pw_sup y = PDone r -> r = true /\ bank_level cfg (pw_bank y) target = LNormal) /\
  ((forall r, pw_sup y <> PDone r) -> exists z, probe_step cfg target y Healthy z).
Proof.
  intros Hv HB Hcd Hn Hb Hl Hw Hh Hrun.
  assert (H0 : probe_inv cfg target 23 (probe_init w n l k b)).
  { split; [unfold kProbeRounds; simpl; lia|split; [done|split; [done|]]]. unfold bank_level in Hl.
    destruct (b !! bank_index target) as [wd|] eqn:Hwd; [|done]. rewrite Hv in Hl.
    destruct (proj1 (Forall_lookup _ _) Hb _ _ Hwd) as (s & Hok & Hi & ->). unfold breaker_level in Hl.
    rewrite unpack_pack in Hl by done.
    assert (Hs : rounds_owed s <= 23).
    { destruct Hi as [[_ _ _ _ _ Hhw] Hle _]. unfold rounds_owed, kHealthyWindowsRequired, in_u in *. destruct (probe_success s); lia. }
    exists s. split_and!; [done|done|]. simpl. destruct (busy w); [right|]; by right. }
  assert (Hw0 : probe_wake (probe_init w n l k b)).
  { unfold probe_wake, probe_init, no_wake_owed in *. cbn. destruct w; split_and!; naive_solver lia. }
  destruct (healthy_run cfg target Hv 23 hs _ y HB ltac:(done) H0 Hw0 Hh Hrun) as (Hy & Hwy & Hk). split_and!.
  - unfold steps_left in Hk. simpl in Hk. destruct Hy as ([? ?] & _). unfold kProbeRounds in *.
    assert (0 <= pc_weight (pw_sup y)) by (destruct (pw_sup y); simpl; lia).
    assert (Hww : forall v j, 0 <= work_weight v j) by (intros v j; destruct v; unfold work_weight; repeat (case_decide || case_test); lia).
    assert (work_weight w 0 <= 9) by (destruct w; simpl; repeat case_test; lia).
    specialize (Hww (pw_work y) (pw_queue y)). destruct k, (pw_wake y); lia.
  - intros r Hr. destruct Hy as (_ & _ & Hy). rewrite Hr in Hy. destruct Hy as [-> Hy]. split; [done|].
    destruct (at_target_level cfg target Hv _ _ Hy) as (s & -> & _ & Hs). done.
  - by eapply healthy_progress.
Qed.

(** [SupervisorConfig]. *)
Definition SupervisorConfig : Config := {|
  kMaxAo := 16; kBatchSizeMax := 8;
  kHighCapacity := 32; kNormalCapacity := 64; kLowCapacity := 128;
  kCooldownCycles := 8;
  kHighCriticalReserve := 2; kNormalReservedCapacity := 0;
  kBatchTimeoutMs := 5; kLowMaxWaitMs := 100;
  kAdmissionSnapshotSlots := 0 |}.

(** A bank after a watchdog trip and the restore. *)
Definition restored_bank (cfg : Config) : list Z := request_safe_restore cfg (bank_broadcast cfg Watchdog (bank_ctor cfg)).

Lemma restored_packed cfg : Forall (packed cfg) (restored_bank cfg).
Proof. apply broadcast_packed, broadcast_packed, ctor_packed. Qed.

(** The dispatcher sleeps; the first probe is accepted and wakes it. *)
Lemma first_submit cfg target b : is_normal cfg target b = false ->
  probe_run cfg target (probe_init WBlocked 0 false false b) (replicate 6 Healthy) (mkPW 0 (PWait 0) WWaking 1 0 true true b).
Proof.
  intros Hn. exists (mkPW 0 PAlloc WBlocked 0 0 false false b). split; [pose proof (pb_check cfg target 0 WBlocked 0 0 false false b) as H; by rewrite Hn in H|].
  eexists. split; [apply (pb_alloc _ _ _ _ _ _ _ _ _ true)|]. eexists. split; [apply pb_read|].
  eexists. split; [apply (pb_submit _ _ _ _ _ _ _ _ _ _ true)|]. eexists. split; [by apply pb_exchange|].
  eexists. split; [apply pb_signal|]. done.
Qed.

Lemma probes_bring_back_witness :
  exists y, probe_run SupervisorConfig (mkTarget 1) (probe_init WBlocked 0 false false (restored_bank SupervisorConfig)) (replicate 6 Healthy) y /\
    exists z, probe_step SupervisorConfig (mkTarget 1) y Healthy z.
Proof.
  exists (mkPW 0 (PWait 0) WWaking 1 0 true true (restored_bank SupervisorConfig)).
  pose proof (first_submit SupervisorConfig (mkTarget 1) (restored_bank SupervisorConfig) ltac:(vm_compute; reflexivity)) as Hrun.
  split; [exact Hrun|].
  refine (proj2 (proj2 (probes_bring_back SupervisorConfig (mkTarget 1) WBlocked 0 false false (restored_bank SupervisorConfig) (replicate 6 Healthy) _
    eq_refl _ _ _ (restored_packed _) _ _ _ Hrun)) _);
    [reflexivity|vm_compute; discriminate|split; [lia|reflexivity]|vm_compute; reflexivity|split; reflexivity
    |apply Forall_replicate; discriminate|discriminate].
Defined.

(** *** A long cool-down *)

Section long.
Context (cfg : Config) (target : TargetId) (Hvalid : bank_valid cfg target = true) (HB : 0 < kBatchSizeMax cfg).

Local Abbreviation cc := (u16 (kCooldownCycles cfg)).

(** Cycles the dispatcher may still count before it sleeps: one for each queued
    event, one for an event it has in hand, one for its next idle pass, one for
    the pass after a wake that is already set. *)
Definition disp_cycles (w : work_pc) (q : nat) (k : bool) : Z :=
  let late := if decide (q = 0%nat) then 0 else 1 in
  Z.of_nat q +
  match w with
  | WHandled _ | WJudged _ => 2 | WBatch _ | WWaking => 1 | WIdle => 1 + late | WArm | WCheck => late | WWait | WBlocked => 0
  end + (if k then match w with WWaking => 0 | _ => 1 end else 0).
(** Rounds the loop may still begin, and the wake it may still give. *)
Definition to_submit (x : probe_world) : Z :=
  match pw_sup x with
  | PCheck | PAlloc | PRead | PSubmit _ => kProbeRounds - pw_round x
  | PDone _ => 0
  | _ => kProbeRounds - pw_round x - 1
  end.
Definition to_signal (x : probe_world) : Z := match pw_sup x with PPublished _ | PSignal _ => 1 | _ => 0 end.
Definition cycles_to_come (x : probe_world) : Z :=
  3 * to_submit x + to_signal x + disp_cycles (pw_work x) (pw_queue x) (pw_wake x).

(** [j]: spurious wakeups to come. *)
Definition far (j : nat) (x : probe_world) : Prop :=
  0 <= to_submit x /\
  (match pw_sup x with PCheck => True | PDone r => r = false | _ => pw_round x < kProbeRounds end) /\
  at_target cfg target (fun s => cycles_to_come x + Z.of_nat j < cycles_owed s) (pw_bank x).

Lemma disp_pos w q k : 0 <= disp_cycles w q k.
Proof using All. unfold disp_cycles. destruct w, k; repeat case_decide; lia. Qed.
Lemma come_pos x : 0 <= to_submit x -> 0 <= cycles_to_come x.
Proof using All. intros H. unfold cycles_to_come. pose proof (disp_pos (pw_work x) (pw_queue x) (pw_wake x)). unfold to_signal. destruct (pw_sup x); lia. Qed.

Lemma far_level c b : 0 <= c -> at_target cfg target (fun s => c < cycles_owed s) b -> is_normal cfg target b = false.
Proof using All.
  intros H0 H. apply bool_decide_eq_false_2. destruct (at_target_level _ _ Hvalid _ _ H) as (s & -> & _ & Hs).
  intros El. unfold cycles_owed in Hs. rewrite El in Hs. lia.
Qed.

(** An event takes at most one cycle off, and only a dispatch cycle does. *)
Lemma owed_down e c s : breaker_inv cc s -> 0 <= c -> c < cycles_owed s ->
  c - (if is_cycle e then 1 else 0) < cycles_owed (transition cc e s).
Proof using All.
  intros Hi Hc Hs. destruct (owed_step cc (cooldown_u16 cfg) e s Hi) as [_ H]; [|lia].
  intros El. unfold cycles_owed in Hs. rewrite El in Hs. lia.
Qed.

Lemma far_same c c' b : c' <= c -> at_target cfg target (fun s => c < cycles_owed s) b -> at_target cfg target (fun s => c' < cycles_owed s) b.
Proof using All. intros Hc. apply at_target_impl. intros s _. lia. Qed.

Lemma far_via e c c' b b' : at_target cfg target (fun s => c < cycles_owed s) b -> 0 <= c ->
  c' + (if is_cycle e then 1 else 0) <= c -> b' = bank_on cfg e b target \/ b' = bank_broadcast cfg e b ->
  at_target cfg target (fun s => c' < cycles_owed s) b'.
Proof using All.
  intros Ht H0 Hc Hb. revert Ht. assert (Hs : forall s, breaker_inv cc s -> c < cycles_owed s -> c' < cycles_owed (transition cc e s)).
  { intros s Hi Hs. pose proof (owed_down e c s Hi H0 Hs). lia. }
  destruct Hb as [-> | ->]; [by apply at_target_on|by apply at_target_broadcast].
Qed.

(** An accepted probe costs at most two cycles, its wake one more. *)
Lemma disp_late w q k : disp_cycles w (S q) k <= disp_cycles w q k + 2.
Proof using All. unfold disp_cycles. destruct w; repeat case_decide; lia. Qed.
Lemma disp_signal w q k : disp_cycles (match w with WBlocked => WWaking | _ => w end) q true <= disp_cycles w q k + 1.
Proof using All. unfold disp_cycles. destruct w, k; repeat case_decide; lia. Qed.

Lemma far_step j x h y : probe_step cfg target x h y -> far (if decide (h = Spurious) then S j else j) x -> far j y.
Proof using All.
  intros Hs (Ht & Hr & Hb). pose proof (come_pos x Ht) as H0.
  set (J := Z.of_nat (if decide (h = Spurious) then S j else j)) in *.
  assert (HJ : Z.of_nat j <= J) by (unfold J; case_decide; lia).
  assert (Hn : is_normal cfg target (pw_bank x) = false) by (eapply far_level; [|exact Hb]; lia).
  unfold far, cycles_to_come, to_submit, to_signal in *.
  destruct Hs; unfold kProbeRounds in *; pw_simpl in *.
  - rewrite Hn. destruct (Z.ltb_spec r 24); split_and!; try done; try lia; (eapply far_same; [|exact Hb]); lia.
  - destruct ok; split_and!; try done; try lia; (eapply far_same; [|exact Hb]); lia.
  - split_and!; try done; (eapply far_same; [|exact Hb]; lia).
  - pose proof (disp_late w q k). pose proof (disp_pos w q k).
    destruct ok; pw_simpl; split_and!; try done; try lia; (eapply far_same; [|exact Hb]); lia.
  - destruct won; split_and!; try done; (eapply far_same; [|exact Hb]); lia.
  - pose proof (disp_signal w q k). split_and!; try done; (eapply far_same; [|exact Hb]; lia).
  - split_and!; try done; (eapply far_same; [|exact Hb]; lia).
  - pose proof (disp_pos w q k). split_and!; try done; (eapply far_same; [|exact Hb]; lia).
  - split_and!; try done. eapply (far_via ProbeSuccess); [exact Hb|lia|simpl; lia|by left].
  - pose proof (disp_pos w q k). rewrite sample_bank. split_and!; try done; try lia.
    eapply far_via; [exact Hb|lia| |by right]. simpl. lia.
  - split_and!; try done; (eapply far_same; [|exact Hb]); unfold disp_cycles; lia.
  - split_and!; try done. eapply (far_via (if ok then RtcOk else RtcTimeout)); [exact Hb|lia| |by left].
    unfold disp_cycles. destruct ok; simpl; lia.
  - split_and!; try done. eapply (far_via DispatchCycle); [exact Hb|lia| |by left]. unfold disp_cycles. simpl. lia.
  - split_and!; try done; (eapply far_same; [|exact Hb]); unfold disp_cycles; destruct (Z.eqb_spec u 0); [|lia].
    destruct H as [?| ->]; [lia|simpl; lia].
  - split_and!; try done. eapply (far_via DispatchCycle); [exact Hb|lia| |by right]. unfold disp_cycles. simpl. lia.
  - split_and!; try done; (eapply far_same; [|exact Hb]); unfold disp_cycles; lia.
  - split_and!; try done; (eapply far_same; [|exact Hb]); unfold disp_cycles; repeat case_decide; lia.
  - split_and!; try done; (eapply far_same; [|exact Hb]); unfold disp_cycles; destruct k; lia.
  - split_and!; try done; (eapply far_same; [|exact Hb]); unfold disp_cycles, J; simpl; destruct k; lia.
  - split_and!; try done; (eapply far_same; [|exact Hb]); unfold disp_cycles; destruct k; lia.
Qed.
Lemma far_run hs x y : probe_run cfg target x hs y -> far (spurious hs) x -> far 0 y.
Proof using All.
  revert x. induction hs as [|h hs IH]; intros x; [by intros ->|]. intros (z & Hs & Hrun) Hx. apply (IH z Hrun).
  apply (far_step _ x h); [done|]. unfold spurious in *. simpl in Hx.
  case_decide as Hh; [rewrite bool_decide_eq_true_2 in Hx by done|rewrite bool_decide_eq_false_2 in Hx by done]; done.
Qed.
End long.

(** With a long cool-down the loop cannot succeed.  A round gives the breaker at
    most three cycles (its event's, that of the idle pass after it, and that of
    one more idle pass when its wake comes late), the dispatcher's state at the
    start at most three, a spurious wakeup one.  If the breaker owes more than
    that and no other traffic supplies the cycles, the 24 rounds end in failure
    whatever happens; the default cool-down of 100 cycles is such a case. *)
Theorem long_cooldown_defeats_probes (cfg : Config) (target : TargetId) (w : work_pc) (n : Z) (l k : bool) (b : list Z) (s : BState)
    (hs : list outcome) (y : probe_world) (r : bool) :
  bank_valid cfg target = true -> 0 < kBatchSizeMax cfg ->
  b !! bank_index target = Some (pack s) -> breaker_inv (u16 (kCooldownCycles cfg)) s ->
  3 * kProbeRounds + 3 + Z.of_nat (spurious hs) < cycles_owed s ->
  probe_run cfg target (probe_init w n l k b) hs y -> pw_sup y = PDone r -> r = false.
Proof.
  intros Hv HB Hb Hi Ho Hrun Hy. unfold kProbeRounds in Ho.
  assert (Hf : far cfg target 0 y).
  { eapply (far_run cfg target Hv HB); [exact Hrun|]. split_and!; [done|done|]. exists s. split_and!; [done|done|].
    assert (disp_cycles w 0 k <= 3) by (destruct w, k; done).
    unfold cycles_to_come, probe_init, to_submit, to_signal, kProbeRounds. pw_simpl. lia. }
  destruct Hf as (_ & Hf & _). by rewrite Hy in Hf.
Qed.

Lemma long_cooldown_defeats_probes_witness :
  cycles_owed (unpack (hd 0 (restored_bank DefaultConfig))) = 102 /\
  (forall w n l k hs y r, (spurious hs <= 26)%nat ->
     probe_run DefaultConfig (mkTarget 1) (probe_init w n l k (restored_bank DefaultConfig)) hs y -> pw_sup y = PDone r -> r = false).
Proof.
  split; [vm_compute; reflexivity|]. intros w n l k hs y r Hsp.
  apply (long_cooldown_defeats_probes DefaultConfig (mkTarget 1) w n l k (restored_bank DefaultConfig) (mkB LRecovering 100 0 0 0 0 0 false));
    [reflexivity|vm_compute; reflexivity|vm_compute; reflexivity| |].
  - split; [split|..]; vm_compute; intuition discriminate.
  - change (cycles_owed _) with 102. unfold kProbeRounds. lia.
Defined.
