(* ===== verification/FlashOwner.v ===== *)
(** * The owner of a flash device (src/examples/flash_proxy_demo.cpp)

    One active object owns the flash; others ask it by events.  It hands one job
    at a time to a worker thread through a shared transfer buffer and answers when
    the worker's completion event arrives.  [fstep] interleaves the dispatcher,
    which gives the owner its events in order, with the worker, one step per
    section of its mutex or transfer, with arriving requests and with the stop.
    Printed lines and the delays of the device are left out.  What the pool
    answers is an argument of the steps; a copy that would leave its array sets
    [o_fault]. *)

From S2P Require Import Prelude Hsm Mem.
Local Open Scope Z_scope.

Definition kFlashSize : Z := 256.
Definition kFlashDmaMax : Z := 128.

Definition kWriteReq : Z := 1.
Definition kReadReq : Z := 2.
Definition kHwDone : Z := 3.
Definition kDataUpdated : Z := 4.
Definition kDataReady : Z := 5.
Definition kTriggerWrite : Z := 6.
Definition kTriggerRead : Z := 7.

Record IoMeta := mkMeta { m_reply_to : Z; m_addr : Z; m_len : Z; m_flags : Z; m_seq : Z; m_result : Z }.
Record fevent := mkFe { fe_sig : Z; fe_meta : IoMeta; fe_payload : list Z }.

Definition meta0 : IoMeta := mkMeta 0 0 0 0 0 0.
Definition payload0 : list Z := replicate 128 0.
(** [alloc_typed], when there is a block. *)
Definition fresh (sig : Z) : fevent := mkFe sig meta0 payload0.

(** ** The worker *)

Record Job := mkJob { j_is_write : bool; j_addr : Z; j_len : Z; j_seq : Z }.

(** Where the thread is: at its wait; in the transfer; after it; at the
    completion event; returned. *)
Inductive worker_pc := NWait | NMoving (j : Job) | NMoved (j : Job) | NIrq (j : Job) | NEnd.

(** [job] is [None] when not valid. *)
Record NandWorker := mkNand {
  dma_buf : list Z; job : option Job; running : bool; active : bool; seq_counter : Z; nw_at : worker_pc
}.

Definition worker_submit (w : NandWorker) (j : Job) : bool * NandWorker :=
  if negb (running w) || active w || match job w with Some _ => true | None => false end || (kFlashDmaMax <? j_len j)
  then (false, w)
  else (true, mkNand (dma_buf w) (Some j) (running w) (active w) (seq_counter w) (nw_at w)).

Definition worker_stop (w : NandWorker) : NandWorker :=
  mkNand (dma_buf w) (job w) false (active w) (seq_counter w) (nw_at w).

(** The transfer into the buffer: [dma_buf[i] = (addr + i) & 0xFF]. *)
Definition dma_in (buf : list Z) (j : Job) : outcome (list Z) :=
  copy_to buf 0 (map (fun i => Z.land (u32 (j_addr j + Z.of_nat i)) 0xFF) (seq 0 (Z.to_nat (j_len j)))).

Definition done_event (j : Job) : fevent :=
  mkFe kHwDone (mkMeta 0 (j_addr j) (j_len j) (if j_is_write j then 1 else 0) (j_seq j) 0) payload0.

(** One section of [run].  [block]: the pool has a block and the submit accepts
    the event; the result carries what was submitted.  [None]: the thread sleeps
    or has returned. *)
Definition worker_run (w : NandWorker) (block : bool) : option (outcome (NandWorker * list fevent)) :=
  match nw_at w with
  | NWait =>
    match job w with
    | Some j => Some (mret (mkNand (dma_buf w) None (running w) true (seq_counter w) (NMoving j), []))
    | None => if running w then None
              else Some (mret (mkNand (dma_buf w) None (running w) (active w) (seq_counter w) NEnd, []))
    end
  | NMoving j => Some (
      buf ← (if j_is_write j then mret (dma_buf w) else dma_in (dma_buf w) j);
      mret (mkNand buf (job w) (running w) (active w) (seq_counter w) (NMoved j), []))
  | NMoved j => Some (mret (mkNand (dma_buf w) (job w) (running w) false (seq_counter w) (NIrq j), []))
  | NIrq j => Some (mret (mkNand (dma_buf w) (job w) (running w) (active w) (seq_counter w) NWait,
                          if block then [done_event j] else []))
  | NEnd => None
  end.

(** ** The owner *)

Record OwnerCtx := mkOwner {
  o_worker : NandWorker;
  storage : list Z;
  subscribers : list Z;           (* the first subscriber_count of them *)
  pending_reply_to : Z; pending_addr : Z; pending_len : Z; pending_is_write : bool;
  o_pool : list bool;             (* answers of the pool, [true] beyond *)
  o_out : list (Z * fevent);      (* submitted, in order *)
  o_fault : bool
}.

Definition set_faulted (c : OwnerCtx) : OwnerCtx :=
  mkOwner (o_worker c) (storage c) (subscribers c) (pending_reply_to c) (pending_addr c) (pending_len c) (pending_is_write c)
    (o_pool c) (o_out c) true.

Definition begin_request (c : OwnerCtx) (w : NandWorker) (m : IoMeta) (is_write : bool) : OwnerCtx :=
  let j := mkJob is_write (m_addr m) (m_len m) (seq_counter w) in
  let w := mkNand (dma_buf w) (job w) (running w) (active w) (u32 (seq_counter w + 1)) (nw_at w) in
  mkOwner (worker_submit w j).2 (storage c) (subscribers c) (m_reply_to m) (m_addr m) (m_len m) is_write
    (o_pool c) (o_out c) (o_fault c).

Definition ownerWriteReq (c : OwnerCtx) (e : fevent) : OwnerCtx :=
  let w := o_worker c in
  match (src ← span (fe_payload e) 0 (m_len (fe_meta e)); copy_to (dma_buf w) 0 src) with
  | Ret buf => begin_request c (mkNand buf (job w) (running w) (active w) (seq_counter w) (nw_at w)) (fe_meta e) true
  | Fatal => set_faulted c
  end.

Definition ownerReadReq (c : OwnerCtx) (e : fevent) : OwnerCtx := begin_request c (o_worker c) (fe_meta e) false.

Definition pool_answer (c : OwnerCtx) : bool := match o_pool c with [] => true | b :: _ => b end.
Definition after_answer (c : OwnerCtx) (out : list (Z * fevent)) : OwnerCtx :=
  mkOwner (o_worker c) (storage c) (subscribers c) (pending_reply_to c) (pending_addr c) (pending_len c) (pending_is_write c)
    (tl (o_pool c)) (o_out c ++ out) (o_fault c).
Definition set_storage (c : OwnerCtx) (s : list Z) : OwnerCtx :=
  mkOwner (o_worker c) s (subscribers c) (pending_reply_to c) (pending_addr c) (pending_len c) (pending_is_write c)
    (o_pool c) (o_out c) (o_fault c).

(** The loop over the subscribers. *)
Fixpoint fan_out (subs : list Z) (c : OwnerCtx) : OwnerCtx :=
  match subs with
  | [] => c
  | t :: subs => fan_out subs (after_answer c (if pool_answer c then [(t, fresh kDataUpdated)] else []))
  end.

Definition ready_event (c : OwnerCtx) (payload : list Z) : fevent :=
  mkFe kDataReady (mkMeta (pending_reply_to c) (pending_addr c) (pending_len c) 0 0 0) payload.

Definition ownerHwDone (c : OwnerCtx) (_ : fevent) : OwnerCtx :=
  if pending_is_write c then
    match (src ← span (dma_buf (o_worker c)) 0 (pending_len c); copy_to (storage c) (pending_addr c) src) with
    | Ret s => fan_out (subscribers c) (set_storage c s)
    | Fatal => set_faulted c
    end
  else if pool_answer c then
    match (src ← span (storage c) (pending_addr c) (pending_len c); copy_to payload0 0 src) with
    | Ret p => after_answer c [(pending_reply_to c, ready_event c p)]
    | Fatal => set_faulted c
    end
  else after_answer c [].

Definition kOwnerRoot : Z := 0.
Definition kOwnerIdle : Z := 1.
Definition kOwnerBusy : Z := 2.

(** The two entry actions of the source do nothing. *)
Definition kOwnerStates : list (StateDef OwnerCtx) :=
  [mkState (-1) None None (-1); mkState kOwnerRoot (Some (fun c => c)) None (-1); mkState kOwnerRoot (Some (fun c => c)) None (-1)].
Definition kOwnerTransitions : list (TransitionDef OwnerCtx fevent) :=
  [mkTrans kOwnerIdle kWriteReq kOwnerBusy External None (Some ownerWriteReq);
   mkTrans kOwnerIdle kReadReq kOwnerBusy External None (Some ownerReadReq);
   mkTrans kOwnerBusy kHwDone kOwnerIdle External None (Some ownerHwDone)].
Definition owner_machine (s : Z) : Hsm OwnerCtx fevent := mkHsm kOwnerStates kOwnerTransitions kOwnerIdle 2 s.

(** ** The callers *)

Record CallerCtx := mkCaller {
  c_self : Z; c_owner : Z; writes_done : Z; reads_done : Z; updates_received : Z;
  c_pool : list bool; c_out : list (Z * fevent)
}.

Definition caller_answer (c : CallerCtx) : bool := match c_pool c with [] => true | b :: _ => b end.
Definition caller_step (c : CallerCtx) (w r u : Z) (out : list (Z * fevent)) : CallerCtx :=
  mkCaller (c_self c) (c_owner c) (u32 (writes_done c + w)) (u32 (reads_done c + r)) (u32 (updates_received c + u))
    (c_pool c) (c_out c ++ out).
Definition caller_pop (c : CallerCtx) : CallerCtx :=
  mkCaller (c_self c) (c_owner c) (writes_done c) (reads_done c) (updates_received c) (tl (c_pool c)) (c_out c).

Definition write_request : fevent :=
  mkFe kWriteReq (mkMeta 0 0x40 16 1 0 0)
    (map (fun i => u8 (0xB0 + Z.land (Z.of_nat i) 0x0F)) (seq 0 16) ++ drop 16 payload0).
Definition read_request (self : Z) : fevent := mkFe kReadReq (mkMeta self 0x40 16 0 0 0) payload0.

Definition callerWriteTrigger (c : CallerCtx) (_ : fevent) : CallerCtx :=
  if caller_answer c then caller_step (caller_pop c) 1 0 0 [(c_owner c, write_request)] else caller_pop c.
Definition callerReadTrigger (c : CallerCtx) (_ : fevent) : CallerCtx :=
  if caller_answer c then caller_step (caller_pop c) 0 0 0 [(c_owner c, read_request (c_self c))] else caller_pop c.
Definition callerOnUpdate (c : CallerCtx) (_ : fevent) : CallerCtx := caller_step c 0 0 1 [].
Definition callerOnReady (c : CallerCtx) (_ : fevent) : CallerCtx := caller_step c 0 1 0 [].

Definition kCallerStates : list (StateDef CallerCtx) := [mkState (-1) None None (-1); mkState 0 None None (-1)].
Definition kCallerTransitions : list (TransitionDef CallerCtx fevent) :=
  [mkTrans 1 kTriggerWrite 1 Internal None (Some callerWriteTrigger);
   mkTrans 1 kTriggerRead 1 Internal None (Some callerReadTrigger);
   mkTrans 1 kDataUpdated 1 Internal None (Some callerOnUpdate);
   mkTrans 1 kDataReady 1 Internal None (Some callerOnReady)].
Definition caller_machine : Hsm CallerCtx fevent := mkHsm kCallerStates kCallerTransitions 1 2 1.

(** ** The owner, its queue and the worker *)

Record fsys := mkFS { f_queue : list fevent; f_ctx : OwnerCtx; f_state : Z }.

Definition with_answers (c : OwnerCtx) (a : list bool) : OwnerCtx :=
  mkOwner (o_worker c) (storage c) (subscribers c) (pending_reply_to c) (pending_addr c) (pending_len c) (pending_is_write c)
    a [] (o_fault c).
Definition with_worker (c : OwnerCtx) (w : NandWorker) : OwnerCtx :=
  mkOwner w (storage c) (subscribers c) (pending_reply_to c) (pending_addr c) (pending_len c) (pending_is_write c)
    (o_pool c) (o_out c) (o_fault c).

(** What the owner did with an event: what it submitted. *)
Inductive fobs := FServed (e : fevent) (answers : list bool) (out : list (Z * fevent)).

Inductive fstep : fsys -> option fobs -> fsys -> Prop :=
| fs_arrive q c s e : fe_sig e = kWriteReq \/ fe_sig e = kReadReq -> fstep (mkFS q c s) None (mkFS (q ++ [e]) c s)
| fs_dispatch e q c s a b c' h :
    dispatch fe_sig (owner_machine s) (with_answers c a) e = Ret (b, c', h) ->
    fstep (mkFS (e :: q) c s) (Some (FServed e a (o_out c'))) (mkFS q c' (current_ h))
| fs_worker q c s block w es :
    worker_run (o_worker c) block = Some (Ret (w, es)) -> fstep (mkFS q c s) None (mkFS (q ++ es) (with_worker c w) s)
| fs_stop q c s : fstep (mkFS q c s) None (mkFS q (with_worker c (worker_stop (o_worker c))) s).

Definition nand0 : NandWorker := mkNand (replicate 128 0) None true false 0 NWait.
Definition owner_ctx0 (subs : list Z) : OwnerCtx := mkOwner nand0 (replicate 256 0) subs 0 0 0 false [] [] false.
Definition fsys0 (subs : list Z) : fsys := mkFS [] (owner_ctx0 subs) kOwnerIdle.

(** ** The specification: a memory that serves one request at a time *)

Inductive request := RWrite (addr : Z) (data : list Z) | RRead (reply addr len : Z).

Definition request_of (e : fevent) : request :=
  let m := fe_meta e in
  if fe_sig e =? kWriteReq then RWrite (m_addr m) (take (Z.to_nat (m_len m)) (fe_payload e))
  else RRead (m_reply_to m) (m_addr m) (m_len m).

Record flash_spec := mkFlash { mem : list Z; serving : option request }.

Definition written (l : list Z) (addr : Z) (data : list Z) : list Z :=
  take (Z.to_nat addr) l ++ data ++ drop (Z.to_nat addr + length data) l.
Definition snapshot (l : list Z) (addr len : Z) : list Z := take (Z.to_nat len) (drop (Z.to_nat addr) l).

Definition head_answer (a : list bool) : bool := match a with [] => true | b :: _ => b end.

(** A notice to each subscriber for which there was a block. *)
Fixpoint notices (subs : list Z) (a : list bool) : list (Z * fevent) :=
  match subs with
  | [] => []
  | t :: subs => (if head_answer a then [(t, fresh kDataUpdated)] else []) ++ notices subs (tl a)
  end.

Definition reply (to addr len : Z) (data : list Z) : fevent :=
  mkFe kDataReady (mkMeta to addr len 0 0 0) (data ++ drop (length data) payload0).

(** [None]: a completion nobody waits for. *)
Definition serve (subs : list Z) (s : flash_spec) (e : fevent) (a : list bool) : option (flash_spec * list (Z * fevent)) :=
  match serving s with
  | None => if fe_sig e =? kHwDone then None else Some (mkFlash (mem s) (Some (request_of e)), [])
  | Some r =>
    if fe_sig e =? kHwDone then
      match r with
      | RWrite addr data => Some (mkFlash (written (mem s) addr data) None, notices subs a)
      | RRead to addr len => Some (mkFlash (mem s) None,
          if head_answer a then [(to, reply to addr len (snapshot (mem s) addr len))] else [])
      end
    else Some (s, [])
  end.

(** The specification serves the events of [tr] with the observed outputs. *)
Fixpoint serves (subs : list Z) (s : flash_spec) (tr : list fobs) (s' : flash_spec) : Prop :=
  match tr with
  | [] => s = s'
  | FServed e a out :: tr => exists s1, serve subs s e a = Some (s1, out) /\ serves subs s1 tr s'
  end.

(** A request that stays inside the flash and the buffer. *)
Definition request_ok (e : fevent) : bool :=
  let m := fe_meta e in
  (0 <=? m_addr m) && (0 <=? m_len m) && (m_len m <=? kFlashDmaMax) && (m_addr m + m_len m <=? kFlashSize) &&
  (Z.of_nat (length (fe_payload e)) =? kFlashDmaMax).
Definition obs_ok (o : fobs) : Prop := match o with FServed e _ _ => fe_sig e <> kHwDone -> request_ok e = true end.

(** The next event runs one of the owner's handlers, all of which use the shared
    worker: its buffer, its job. *)
Definition owner_acts (s : fsys) : Prop :=
  exists e q, f_queue s = e :: q /\
    (f_state s = kOwnerIdle /\ fe_sig e <> kHwDone \/ f_state s = kOwnerBusy /\ fe_sig e = kHwDone).
(** The worker has no job, has said so, and is outside its transfer. *)
Definition worker_rests (w : NandWorker) : Prop :=
  job w = None /\ active w = false /\ (nw_at w = NWait \/ nw_at w = NEnd).

(** ** The invariant *)

(** The jobs between the owner and the completion event. *)
Definition pipeline (w : NandWorker) : list Job :=
  match job w with Some j => [j] | None => [] end ++
  match nw_at w with NMoving j | NMoved j | NIrq j => [j] | NWait | NEnd => [] end.
Definition is_done (e : fevent) : bool := fe_sig e =? kHwDone.

Definition pending_is (c : OwnerCtx) (r : request) : Prop :=
  0 <= pending_addr c /\ 0 <= pending_len c <= kFlashDmaMax /\ pending_addr c + pending_len c <= kFlashSize /\
  match r with
  | RWrite addr data => pending_is_write c = true /\ pending_addr c = addr /\ pending_len c = Z.of_nat (length data) /\
      take (length data) (dma_buf (o_worker c)) = data
  | RRead to addr len => pending_is_write c = false /\ pending_reply_to c = to /\ pending_addr c = addr /\ pending_len c = len
  end.
Definition job_for (c : OwnerCtx) (j : Job) : Prop := j_is_write j = pending_is_write c /\ 0 <= j_len j <= kFlashDmaMax.

Record flash_inv (subs : list Z) (s : fsys) (sp : flash_spec) : Prop := {
  fi_mem : storage (f_ctx s) = mem sp;
  fi_size : length (mem sp) = 256%nat;
  fi_dma : length (dma_buf (o_worker (f_ctx s))) = 128%nat;
  fi_fault : o_fault (f_ctx s) = false;
  fi_subs : subscribers (f_ctx s) = subs;
  fi_active : active (o_worker (f_ctx s)) = match nw_at (o_worker (f_ctx s)) with NMoving _ | NMoved _ => true | _ => false end;
  fi_queue : Forall (fun e => fe_sig e = kWriteReq \/ fe_sig e = kReadReq \/ fe_sig e = kHwDone) (f_queue s);
  fi_serving : match serving sp with
    | None => f_state s = kOwnerIdle /\ pipeline (o_worker (f_ctx s)) = [] /\ countb is_done (f_queue s) = 0%nat
    | Some r => f_state s = kOwnerBusy /\ pending_is (f_ctx s) r /\
        (length (pipeline (o_worker (f_ctx s))) + countb is_done (f_queue s) <= 1)%nat /\
        Forall (job_for (f_ctx s)) (pipeline (o_worker (f_ctx s)))
    end
}.

(** ** The handlers on the machine *)

Lemma idle_write c e : fe_sig e = kWriteReq ->
  dispatch fe_sig (owner_machine kOwnerIdle) c e = Ret (true, ownerWriteReq c e, owner_machine kOwnerBusy).
Proof. destruct e as [sig m p]. simpl. intros ->. reflexivity. Qed.
Lemma idle_read c e : fe_sig e = kReadReq ->
  dispatch fe_sig (owner_machine kOwnerIdle) c e = Ret (true, ownerReadReq c e, owner_machine kOwnerBusy).
Proof. destruct e as [sig m p]. simpl. intros ->. reflexivity. Qed.
Lemma busy_done c e : fe_sig e = kHwDone ->
  dispatch fe_sig (owner_machine kOwnerBusy) c e = Ret (true, ownerHwDone c e, owner_machine kOwnerIdle).
Proof. destruct e as [sig m p]. simpl. intros ->. reflexivity. Qed.
Lemma busy_request c e : fe_sig e = kWriteReq \/ fe_sig e = kReadReq ->
  dispatch fe_sig (owner_machine kOwnerBusy) c e = Ret (false, c, owner_machine kOwnerBusy).
Proof. destruct e as [sig m p]. simpl. intros [-> | ->]; reflexivity. Qed.

(** ** Single operations *)

Lemma fan_out_spec subs c : fan_out subs c =
  mkOwner (o_worker c) (storage c) (subscribers c) (pending_reply_to c) (pending_addr c) (pending_len c) (pending_is_write c)
    (drop (length subs) (o_pool c)) (o_out c ++ notices subs (o_pool c)) (o_fault c).
Proof.
  revert c. induction subs as [|t subs IH]; intros c; simpl; [rewrite app_nil_r, drop_0; by destruct c|].
  rewrite IH. unfold after_answer. cbn [o_worker storage subscribers pending_reply_to pending_addr pending_len
    pending_is_write o_pool o_out o_fault]. rewrite <- app_assoc. unfold pool_answer, head_answer.
  destruct (o_pool c); simpl; rewrite ?drop_nil; done.
Qed.

Lemma submit_spec w j : pipeline w = [] ->
  active w = match nw_at w with NMoving _ | NMoved _ => true | _ => false end ->
  let w' := (worker_submit w j).2 in
  dma_buf w' = dma_buf w /\ active w' = active w /\ nw_at w' = nw_at w /\
  (pipeline w' = [] \/ (pipeline w' = [j] /\ j_len j <= kFlashDmaMax)).
Proof.
  unfold pipeline. intros Hp Ha. destruct w as [buf [k|] run act cnt at_]; [done|]. cbn in Hp, Ha.
  assert (act = false) as -> by (by destruct at_). unfold worker_submit. cbn [running active job nw_at j_len].
  destruct run; cbn [negb orb]; [|cbn; rewrite Hp; auto]. destruct (Z.ltb_spec kFlashDmaMax (j_len j)); cbn; rewrite Hp; auto 6.
Qed.

Lemma bytes_length j : length (map (fun i => Z.land (u32 (j_addr j + Z.of_nat i)) 0xFF) (seq 0 (Z.to_nat (j_len j)))) = Z.to_nat (j_len j).
Proof. by rewrite length_map, length_seq. Qed.

Lemma dma_in_spec buf j : length buf = 128%nat -> 0 <= j_len j <= kFlashDmaMax ->
  exists buf', dma_in buf j = Ret buf' /\ length buf' = 128%nat.
Proof.
  unfold kFlashDmaMax. intros Hb Hj. unfold dma_in. rewrite copy_to_ret by (rewrite ?bytes_length; lia).
  eexists. split; [done|]. rewrite !length_app, length_take, length_drop, bytes_length. lia.
Qed.

Lemma written_length l addr data : 0 <= addr -> addr + Z.of_nat (length data) <= Z.of_nat (length l) ->
  length (written l addr data) = length l.
Proof. intros. unfold written. rewrite !length_app, length_take, length_drop. lia. Qed.

Lemma pending_is_write_buf c r w : (pending_is_write c = true -> dma_buf w = dma_buf (o_worker c)) -> pending_is c r ->
  pending_is (with_worker c w) r.
Proof.
  intros H (H1 & H2 & H3 & H4). split; [exact H1|split; [exact H2|split; [exact H3|]]]. destruct r; [|exact H4].
  destruct H4 as (E & ? & ? & ?). split_and!; try done. simpl. by rewrite (H E).
Qed.

(** ** Steps *)

Lemma inv_init subs : flash_inv subs (fsys0 subs) (mkFlash (replicate 256 0) None).
Proof. split; try done. Qed.

Lemma inv_arrive subs q c s e sp : fe_sig e = kWriteReq \/ fe_sig e = kReadReq ->
  flash_inv subs (mkFS q c s) sp -> flash_inv subs (mkFS (q ++ [e]) c s) sp.
Proof.
  intros He [H1 H2 H3 H4 H5 H6 H7 H8]. cbn [f_ctx f_queue f_state] in *.
  assert (Hc : countb is_done (q ++ [e]) = countb is_done q).
  { rewrite countb_app. simpl. unfold is_done. destruct He as [-> | ->]; simpl; lia. }
  split; cbn [f_ctx f_queue f_state]; try done.
  - apply Forall_app. split; [done|]. apply Forall_singleton. naive_solver.
  - rewrite Hc. done.
Qed.

Lemma inv_stop subs q c s sp :
  flash_inv subs (mkFS q c s) sp -> flash_inv subs (mkFS q (with_worker c (worker_stop (o_worker c))) s) sp.
Proof.
  by intros [H1 H2 H3 H4 H5 H6 H7 H8].
Qed.

Lemma inv_worker subs q c s block r sp : flash_inv subs (mkFS q c s) sp -> worker_run (o_worker c) block = Some r ->
  exists w es, r = Ret (w, es) /\ flash_inv subs (mkFS (q ++ es) (with_worker c w) s) sp.
Proof.
  intros [H1 H2 H3 H4 H5 H6 H7 H8] Hr. cbn [f_ctx f_queue f_state] in *.
  destruct c as [[buf jb run act cnt at_] st sb prt pa pl pw po oo fl]. cbn [o_worker dma_buf active nw_at storage subscribers o_fault] in *.
  unfold worker_run in Hr. cbn [o_worker dma_buf job running active seq_counter nw_at] in Hr.
  destruct at_ as [|j|j|j|]; [destruct jb as [j|]; [|destruct run; [done|]]|..|done]; simplify_eq.
  - do 2 eexists. split; [done|]. rewrite app_nil_r. split; done.
  - do 2 eexists. split; [done|]. rewrite app_nil_r. split; done.
  - assert (Hj : 0 <= j_len j <= kFlashDmaMax).
    { destruct (serving sp); [|by destruct H8 as (_ & H8 & _), jb].
      destruct H8 as (_ & _ & _ & Hf%Forall_app). destruct Hf as [_ Hf]. by inversion Hf as [|? ? [_ ?]]. }
    assert (Hw : serving sp <> None -> j_is_write j = pw).
    { destruct (serving sp); [|done]. intros _. destruct H8 as (_ & _ & _ & Hf%Forall_app). destruct Hf as [_ Hf].
      by inversion Hf as [|? ? [? _]]. }
    destruct (dma_in_spec buf j H3 Hj) as (buf' & Hd & Hlen). destruct (j_is_write j) eqn:Ej.
    + do 2 eexists. split; [done|]. rewrite app_nil_r. split; done.
    + rewrite Hd. do 2 eexists. split; [done|]. rewrite app_nil_r. split; try done. cbn [f_ctx f_queue f_state].
      destruct (serving sp) as [r|]; [|done]. destruct H8 as (? & Hp & ? & ?). split_and!; try done.
      apply (pending_is_write_buf (mkOwner (mkNand buf jb run _ cnt (NMoving j)) _ _ _ _ _ pw _ _ _)); [|done].
      simpl. intros ->. by specialize (Hw ltac:(done)).
  - do 2 eexists. split; [done|]. rewrite app_nil_r. split; done.
  - do 2 eexists. split; [done|]. destruct block; [|rewrite app_nil_r].
    + split; try done; cbn [f_ctx f_queue f_state].
      * apply Forall_app. split; [done|]. apply Forall_singleton. by right; right.
      * rewrite countb_app. change (countb is_done [done_event j]) with 1%nat.
        destruct (serving sp); [|by destruct H8 as (_ & H8 & _), jb]. destruct H8 as (? & ? & Hl & ?).
        destruct jb; [unfold pipeline in Hl; cbn in Hl; lia|]. split_and!; try done. unfold pipeline in *. cbn in *. lia.
    + split; try done; cbn [f_ctx f_queue f_state]. destruct (serving sp); [|by destruct H8 as (_ & H8 & _), jb].
      destruct H8 as (? & ? & Hl & Hf). destruct jb; [unfold pipeline in Hl; cbn in Hl; lia|].
      split_and!; try done. unfold pipeline in *. cbn in *. lia.
Qed.

(** A copy in two halves, by position. *)
Lemma copy_part src n dst i : 0 <= n <= Z.of_nat (length src) -> 0 <= i -> i + n <= Z.of_nat (length dst) ->
  (s ← span src 0 n; copy_to dst i s) = Ret (written dst i (take (Z.to_nat n) src)).
Proof.
  intros Hn Hi Hd. rewrite span_ret by lia. cbn [mbind outcome_bind]. rewrite drop_0.
  rewrite copy_to_ret by (rewrite ?length_take; lia). done.
Qed.

Lemma request_ok_inv e : request_ok e = true -> let m := fe_meta e in
  0 <= m_addr m /\ 0 <= m_len m <= kFlashDmaMax /\ m_addr m + m_len m <= kFlashSize /\ length (fe_payload e) = 128%nat.
Proof. unfold request_ok, kFlashDmaMax, kFlashSize. intros H. cbv zeta in *. split_bools. lia. Qed.

(** What [begin_request] leaves, on an idle worker. *)
Lemma begin_spec c w m is_write : pipeline w = [] ->
  active w = match nw_at w with NMoving _ | NMoved _ => true | _ => false end ->
  exists w', begin_request c w m is_write =
    mkOwner w' (storage c) (subscribers c) (m_reply_to m) (m_addr m) (m_len m) is_write (o_pool c) (o_out c) (o_fault c) /\
    dma_buf w' = dma_buf w /\ active w' = match nw_at w' with NMoving _ | NMoved _ => true | _ => false end /\
    (length (pipeline w') <= 1)%nat /\ Forall (fun j => j_is_write j = is_write /\ j_len j = m_len m) (pipeline w').
Proof.
  intros Hp Ha. unfold begin_request.
  set (j := mkJob is_write (m_addr m) (m_len m) (seq_counter w)).
  set (w1 := mkNand (dma_buf w) (job w) (running w) (active w) (u32 (seq_counter w + 1)) (nw_at w)).
  destruct (submit_spec w1 j Hp Ha) as (E1 & E2 & E3 & E4). eexists. split; [done|]. rewrite E1, E2, E3. split_and!; try done.
  - destruct E4 as [-> | [-> _]]; simpl; lia.
  - destruct E4 as [-> | [-> _]]; [constructor|by apply Forall_singleton].
Qed.

Lemma inv_accept subs q c s e sp a : flash_inv subs (mkFS (e :: q) c s) sp -> serving sp = None ->
  fe_sig e <> kHwDone -> request_ok e = true ->
  exists b c' h, dispatch fe_sig (owner_machine s) (with_answers c a) e = Ret (b, c', h) /\
    serve subs sp e a = Some (mkFlash (mem sp) (Some (request_of e)), o_out c') /\
    flash_inv subs (mkFS q c' (current_ h)) (mkFlash (mem sp) (Some (request_of e))).
Proof.
  intros [H1 H2 H3 H4 H5 H6 H7 H8] Hs Hd Hok. cbn [f_ctx f_queue f_state] in *. rewrite Hs in H8.
  destruct H8 as (-> & Hpipe & Hcnt). apply request_ok_inv in Hok as (Ha & Hl & Hal & Hpay). cbv zeta in *.
  assert (Hserve : serve subs sp e a = Some (mkFlash (mem sp) (Some (request_of e)), [])).
  { unfold serve. rewrite Hs. by rewrite (proj2 (Z.eqb_neq _ _) Hd). }
  assert (Hcnt' : countb is_done q = 0%nat) by (simpl in Hcnt; destruct (is_done e); lia).
  inversion H7 as [|? ? He Hq]; subst. unfold kFlashDmaMax in *. destruct He as [He|[He|He]]; [| |done].
  - destruct (begin_spec (with_answers c a) (mkNand (written (dma_buf (o_worker c)) 0 (take (Z.to_nat (m_len (fe_meta e))) (fe_payload e)))
      (job (o_worker c)) (running (o_worker c)) (active (o_worker c)) (seq_counter (o_worker c)) (nw_at (o_worker c)))
      (fe_meta e) true Hpipe H6) as (w' & Hw & E1 & E2 & E3 & E4).
    assert (Hh : ownerWriteReq (with_answers c a) e = begin_request (with_answers c a)
      (mkNand (written (dma_buf (o_worker c)) 0 (take (Z.to_nat (m_len (fe_meta e))) (fe_payload e)))
      (job (o_worker c)) (running (o_worker c)) (active (o_worker c)) (seq_counter (o_worker c)) (nw_at (o_worker c))) (fe_meta e) true).
    { unfold ownerWriteReq. cbn [o_worker with_answers]. rewrite copy_part by (rewrite ?H3, ?Hpay; lia). done. }
    exists true, (ownerWriteReq (with_answers c a) e), (owner_machine kOwnerBusy). rewrite (idle_write _ _ He), Hh, Hw.
    split; [done|]. split; [exact Hserve|]. split; try done; cbn [f_ctx f_queue f_state o_worker].
    + rewrite E1. cbn [dma_buf]. rewrite written_length; [done|lia|rewrite length_take, H3; lia].
    + cbn [serving]. split_and!; [done| |lia|].
      * unfold pending_is, request_of. rewrite He. cbn. rewrite E1. cbn [dma_buf]. unfold written.
        change (Z.to_nat 0) with 0%nat. rewrite take_0, app_nil_l, take_app_length. unfold kFlashDmaMax. rewrite length_take, Hpay. split_and!; (done || lia).
      * eapply Forall_impl; [exact E4|]. intros j [? ?]. split; [done|unfold kFlashDmaMax; lia].
  - destruct (begin_spec (with_answers c a) (o_worker c) (fe_meta e) false Hpipe H6) as (w' & Hw & E1 & E2 & E3 & E4).
    exists true, (ownerReadReq (with_answers c a) e), (owner_machine kOwnerBusy). rewrite (idle_read _ _ He).
    change (ownerReadReq (with_answers c a) e) with (begin_request (with_answers c a) (o_worker c) (fe_meta e) false). rewrite Hw.
    split; [done|]. split; [exact Hserve|]. split; try done; cbn [f_ctx f_queue f_state o_worker].
    + by rewrite E1.
    + cbn [serving]. split_and!; [done| |lia|].
      * unfold pending_is, request_of. rewrite He. cbn. unfold kFlashDmaMax. split_and!; (done || lia).
      * eapply Forall_impl; [exact E4|]. intros j [? ?]. split; [done|unfold kFlashDmaMax; lia].
Qed.

Lemma inv_refuse subs q c s e sp a r : flash_inv subs (mkFS (e :: q) c s) sp -> serving sp = Some r -> fe_sig e <> kHwDone ->
  exists b c' h, dispatch fe_sig (owner_machine s) (with_answers c a) e = Ret (b, c', h) /\
    serve subs sp e a = Some (sp, o_out c') /\ flash_inv subs (mkFS q c' (current_ h)) sp.
Proof.
  intros [H1 H2 H3 H4 H5 H6 H7 H8] Hs Hd. cbn [f_ctx f_queue f_state] in *. pose proof H8 as H8'. rewrite Hs in H8.
  destruct H8 as (-> & _). inversion H7 as [|? ? He Hq]; subst.
  exists false, (with_answers c a), (owner_machine kOwnerBusy). rewrite busy_request by naive_solver. split_and!; [done| |].
  - unfold serve. rewrite Hs. by rewrite (proj2 (Z.eqb_neq _ _) Hd).
  - split; try done. cbn [f_ctx f_queue f_state]. destruct (serving sp); [|done]. destruct H8' as (? & ? & Hl & ?).
    split_and!; try done. simpl in Hl. unfold with_answers. cbn [o_worker]. destruct (is_done e); lia.
Qed.

Lemma hw_done_spec c r a : pending_is c r -> length (storage c) = 256%nat -> length (dma_buf (o_worker c)) = 128%nat ->
  exists c', ownerHwDone (with_answers c a) (fresh kHwDone) = c' /\
    o_worker c' = o_worker c /\ subscribers c' = subscribers c /\ o_fault c' = o_fault c /\
    match r with
    | RWrite addr data => storage c' = written (storage c) addr data /\ o_out c' = notices (subscribers c) a
    | RRead to addr len => storage c' = storage c /\
        o_out c' = if head_answer a then [(to, reply to addr len (snapshot (storage c) addr len))] else []
    end.
Proof.
  unfold pending_is, kFlashDmaMax, kFlashSize. intros (H1 & H2 & H3 & H4) Hs Hd. eexists. split; [done|].
  unfold ownerHwDone. cbn [pending_is_write with_answers pool_answer o_pool]. destruct r as [addr data|to addr len].
  - destruct H4 as (-> & E1 & E2 & E3). unfold with_answers. cbn [o_worker storage pending_len pending_addr].
    rewrite copy_part by (rewrite ?Hs, ?Hd; lia). rewrite fan_out_spec. cbn. rewrite E1, E2, Nat2Z.id, E3. done.
  - destruct H4 as (E0 & <- & <- & <-). unfold pool_answer, with_answers. cbn [o_pool pending_is_write]. rewrite E0. fold (head_answer a).
    destruct (head_answer a); [|done]. cbn [storage pending_addr pending_len pending_reply_to].
    rewrite span_ret by (rewrite ?Hs; lia). cbn [mbind outcome_bind].
    rewrite copy_to_ret by (rewrite ?length_take, ?length_drop, ?Hs; simpl; lia). cbn.
    split_and!; try done.
Qed.

Lemma inv_done subs q c s e sp a r : flash_inv subs (mkFS (e :: q) c s) sp -> serving sp = Some r -> fe_sig e = kHwDone ->
  exists b c' h sp', dispatch fe_sig (owner_machine s) (with_answers c a) e = Ret (b, c', h) /\
    serve subs sp e a = Some (sp', o_out c') /\ flash_inv subs (mkFS q c' (current_ h)) sp'.
Proof.
  intros [H1 H2 H3 H4 H5 H6 H7 H8] Hs Hd. cbn [f_ctx f_queue f_state] in *. rewrite Hs in H8.
  destruct H8 as (-> & Hpend & Hl & _). inversion H7 as [|? ? He Hq]; subst.
  destruct (hw_done_spec c r a Hpend) as (c' & Hc & E1 & E2 & E3 & E4); [by rewrite H1|done|].
  change (ownerHwDone (with_answers c a) (fresh kHwDone)) with (ownerHwDone (with_answers c a) e) in Hc.
  assert (Hempty : pipeline (o_worker c) = [] /\ countb is_done q = 0%nat).
  { simpl in Hl. unfold is_done at 1 in Hl. rewrite Hd in Hl. simpl in Hl. split; [|lia].
    destruct (pipeline (o_worker c)); [done|simpl in Hl; lia]. }
  exists true, c', (owner_machine kOwnerIdle), (mkFlash (storage c') None). rewrite (busy_done _ _ Hd), Hc.
  split; [done|]. rewrite H1 in E4. split.
  - unfold serve. rewrite Hs, Hd. simpl. destruct r; destruct E4 as [-> ->]; done.
  - split; cbn [f_ctx f_queue f_state mem serving]; rewrite ?E1, ?E2, ?E3; try done.
    destruct Hpend as (P1 & P2 & P3 & P4). unfold kFlashDmaMax, kFlashSize in *.
    destruct r; destruct E4 as [-> _]; [|done]. destruct P4 as (_ & P5 & P6 & _). rewrite written_length; lia.
Qed.

Lemma serves_app subs s tr1 tr2 s' : serves subs s (tr1 ++ tr2) s' <-> exists s1, serves subs s tr1 s1 /\ serves subs s1 tr2 s'.
Proof.
  revert s. induction tr1 as [|[e a out] tr1 IH]; intros s; simpl; [naive_solver|]. setoid_rewrite IH. naive_solver.
Qed.

Lemma owner_dispatch_step subs q c s e sp a : flash_inv subs (mkFS (e :: q) c s) sp -> obs_ok (FServed e a []) ->
  exists b c' h sp', dispatch fe_sig (owner_machine s) (with_answers c a) e = Ret (b, c', h) /\
    serve subs sp e a = Some (sp', o_out c') /\ flash_inv subs (mkFS q c' (current_ h)) sp'.
Proof.
  intros Hi Hok. destruct (decide (fe_sig e = kHwDone)) as [Hd|Hd].
  - destruct (serving sp) as [r|] eqn:Hs; [by eapply inv_done|]. pose proof (fi_serving _ _ _ Hi) as H. rewrite Hs in H.
    destruct H as (_ & _ & H). simpl in H. unfold is_done at 1 in H. rewrite Hd in H. simpl in H. lia.
  - destruct (serving sp) as [r|] eqn:Hs.
    + destruct (inv_refuse subs q c s e sp a r Hi Hs Hd) as (b & c' & h & ? & ? & ?). by exists b, c', h, sp.
    + destruct (inv_accept subs q c s e sp a Hi Hs Hd (Hok Hd)) as (b & c' & h & ? & ? & ?). eauto 10.
Qed.

Lemma worker_at_rest subs s sp : flash_inv subs s sp -> owner_acts s -> worker_rests (o_worker (f_ctx s)).
Proof.
  intros Hi (e & q & Hq & He).
  assert (Hp : pipeline (o_worker (f_ctx s)) = []).
  { pose proof (fi_serving _ _ _ Hi) as H. destruct (serving sp) as [r|]; [|apply H]. destruct H as (Hst & _ & Hl & _).
    destruct He as [[E _]|[_ E]]; [by rewrite Hst in E|]. rewrite Hq in Hl. simpl in Hl. unfold is_done at 1 in Hl. rewrite E in Hl. simpl in Hl.
    destruct (pipeline (o_worker (f_ctx s))); [done|simpl in Hl; lia]. }
  pose proof (fi_active _ _ _ Hi) as Ha. unfold worker_rests, pipeline in *.
  destruct (job (o_worker (f_ctx s))), (nw_at (o_worker (f_ctx s))); try discriminate; auto.
Qed.

(** C25: The owner implements a memory that serves one request at a time.  For
    every interleaving of the dispatcher, the worker's thread, arriving requests
    and the stop, and every answer of the pool, as long as the requests it serves
    stay inside the flash and the buffer: what the owner submits for each event is
    what the specification submits (a request is accepted only when none is in
    service; a completion arrives only for the request in service, commits
    exactly the bytes of that write's event and notifies each subscriber for which
    there is a block, or answers that read with the bytes all earlier writes
    left); the flash holds the specification's memory; whenever one of the owner's
    handlers runs, and so uses the shared buffer or hands over a job, the worker
    rests: it has no job, has cleared [active] and is outside its transfer, so the
    buffer is never used by both sides; no copy leaves its array; and no step is
    undefined. *)
Theorem flash_serves_requests (subs : list Z) (tr : list fobs) (s : fsys) :
  lrun fstep (fsys0 subs) tr s -> Forall obs_ok tr ->
  exists sp, serves subs (mkFlash (replicate 256 0) None) tr sp /\
    storage (f_ctx s) = mem sp /\ (serving sp = None <-> f_state s = kOwnerIdle) /\
    (owner_acts s -> worker_rests (o_worker (f_ctx s))) /\
    o_fault (f_ctx s) = false /\
    (forall block r, worker_run (o_worker (f_ctx s)) block = Some r -> r <> Fatal) /\
    (forall e q a, f_queue s = e :: q -> obs_ok (FServed e a []) ->
       dispatch fe_sig (owner_machine (f_state s)) (with_answers (f_ctx s) a) e <> Fatal).
Proof.
  intros Hrun Hok.
  assert (Hinv : exists sp, serves subs (mkFlash (replicate 256 0) None) tr sp /\ flash_inv subs s sp).
  { remember (fsys0 subs) as s0 eqn:E0. induction Hrun as [s|s s1 s2 tr Hrun IH Hst|s s1 s2 tr e Hrun IH Hst]; subst.
    - eexists. split; [done|apply inv_init].
    - destruct IH as (sp & Hsp & Hi); [done|done|]. exists sp. split; [done|]. inversion Hst; subst.
      + by apply inv_arrive.
      + destruct (inv_worker _ _ _ _ _ _ _ Hi H) as (w' & es' & [= <- <-] & H'). done.
      + by apply inv_stop.
    - apply Forall_app in Hok as [Hok He]. pose proof (Forall_inv He) as He'. destruct IH as (sp & Hsp & Hi); [done|done|].
      inversion Hst; subst. destruct (owner_dispatch_step _ _ _ _ _ _ a Hi He') as (b' & c2 & h' & sp' & Hd & Hv & Hi').
      match goal with H : dispatch _ _ _ _ = Ret (_, _, h) |- _ => rewrite Hd in H end. simplify_eq. exists sp'. split; [|done]. apply serves_app. exists sp. split; [done|]. simpl. eauto. }
  destruct Hinv as (sp & Hsp & Hi). exists sp. split_and!; [done|apply Hi| |by eapply worker_at_rest|apply Hi| |].
  - pose proof (fi_serving _ _ _ Hi) as H. destruct (serving sp); destruct H as [-> _]; [|done]. split; done.
  - intros block r Hr. destruct s as [q c st]. destruct (inv_worker _ _ _ _ _ _ _ Hi Hr) as (? & ? & -> & _). done.
  - intros e q a Hq He. destruct s as [q' c st]. cbn in Hq |- *. subst q'.
    destruct (owner_dispatch_step _ _ _ _ _ _ a Hi He) as (? & ? & ? & ? & -> & _). done.
Qed.

(** A schedule, executed. *)
Inductive faction := AArrive (e : fevent) | ADispatch (a : list bool) | AWorker (block : bool) | AStop.

Definition fexec (x : fsys) (act : faction) : option (fsys * list fobs) :=
  let '(mkFS q c s) := x in
  match act with
  | AArrive e => if (fe_sig e =? kWriteReq) || (fe_sig e =? kReadReq) then Some (mkFS (q ++ [e]) c s, []) else None
  | ADispatch a =>
    match q with
    | [] => None
    | e :: q => match dispatch fe_sig (owner_machine s) (with_answers c a) e with
                | Ret (_, c', h) => Some (mkFS q c' (current_ h), [FServed e a (o_out c')])
                | Fatal => None
                end
    end
  | AWorker block => match worker_run (o_worker c) block with Some (Ret (w, es)) => Some (mkFS (q ++ es) (with_worker c w) s, []) | _ => None end
  | AStop => Some (mkFS q (with_worker c (worker_stop (o_worker c))) s, [])
  end.

Fixpoint frun (acts : list faction) (x : fsys) (tr : list fobs) : option (fsys * list fobs) :=
  match acts with
  | [] => Some (x, tr)
  | act :: acts => match fexec x act with Some (y, os) => frun acts y (tr ++ os) | None => None end
  end.

Lemma fexec_sound x act y os tr x0 : fexec x act = Some (y, os) -> lrun fstep x0 tr x -> lrun fstep x0 (tr ++ os) y.
Proof.
  destruct x as [q c s]. intros H Hrun. destruct act as [e|a|block|]; simpl in H.
  - destruct ((_ || _)) eqn:He; [|done]. simplify_eq. rewrite app_nil_r. eapply lrun_tau; [exact Hrun|].
    apply fs_arrive. apply orb_prop in He as [?%Z.eqb_eq|?%Z.eqb_eq]; auto.
  - destruct q as [|e q]; [done|]. destruct (dispatch _ _ _ _) as [[[b c'] h]|] eqn:Hd; [|done]. simplify_eq.
    eapply lrun_vis; [exact Hrun|]. by eapply fs_dispatch.
  - destruct (worker_run _ _) as [[[w es]|]|] eqn:Hw; [|done..]. simplify_eq. rewrite app_nil_r.
    eapply lrun_tau; [exact Hrun|]. by eapply fs_worker.
  - simplify_eq. rewrite app_nil_r. eapply lrun_tau; [exact Hrun|]. apply fs_stop.
Qed.

Lemma frun_sound acts x tr y tr' x0 : frun acts x tr = Some (y, tr') -> lrun fstep x0 tr x -> lrun fstep x0 tr' y.
Proof.
  revert x tr. induction acts as [|act acts IH]; intros x tr H Hrun; simpl in H; [by simplify_eq|].
  destruct (fexec x act) as [[z os]|] eqn:E; [|done]. eapply IH; [exact H|]. by eapply fexec_sound.
Qed.

(** One write, from its arrival to its commit. *)
Definition one_write : list faction :=
  [AArrive write_request; ADispatch []; AWorker true; AWorker true; AWorker true; AWorker true; ADispatch []].

Lemma flash_serves_requests_witness :
  match frun one_write (fsys0 [2; 3]) [] with
  | Some (s, tr) => lrun fstep (fsys0 [2; 3]) tr s /\ length tr = 2%nat /\ nth 0x40 (storage (f_ctx s)) 0 = 0xB0 /\
      exists sp, serves [2; 3] (mkFlash (replicate 256 0) None) tr sp /\ storage (f_ctx s) = mem sp
  | None => False
  end.
Proof.
  destruct (frun one_write (fsys0 [2; 3]) []) as [[s tr]|] eqn:E; [|vm_compute in E; discriminate].
  pose proof (frun_sound _ _ _ _ _ _ E (lrun_nil fstep _)) as Hrun. split; [exact Hrun|].
  assert (Hok : Forall obs_ok tr) by (vm_compute in E; injection E as _ <-; repeat constructor; intros _; vm_compute; reflexivity).
  split; [vm_compute in E; injection E as _ <-; reflexivity|]. split; [vm_compute in E; injection E as <- _; reflexivity|].
  destruct (flash_serves_requests [2; 3] tr s Hrun Hok) as (sp & H1 & H2 & _). exists sp. split; [exact H1|exact H2].
Defined.

(** *** What the owner does not survive *)

(** A write longer than the buffer is copied before the worker refuses it. *)
Lemma oversized_write_overflows c : length (dma_buf (o_worker c)) = 128%nat ->
  o_fault (ownerWriteReq c (mkFe kWriteReq (mkMeta 0 0 129 1 0 0) payload0)) = true.
Proof. done. Qed.

(** No job and no completion left while the owner waits for one. *)
Definition abandoned (s : fsys) : Prop :=
  f_state s = kOwnerBusy /\ pipeline (o_worker (f_ctx s)) = [] /\ countb is_done (f_queue s) = 0%nat /\
  Forall (fun e => fe_sig e = kWriteReq \/ fe_sig e = kReadReq) (f_queue s).

Lemma abandoned_step s o s' : abandoned s -> fstep s o s' -> abandoned s'.
Proof.
  intros (H1 & H2 & H3 & H4) Hst. destruct Hst as [q c st e He|e q c st a b c' h Hd|q c st block w es Hw|q c st];
    cbn [f_state f_ctx f_queue] in *; subst.
  - split_and!; try done; cbn [f_queue].
    + rewrite countb_app, H3. simpl. unfold is_done. by destruct He as [-> | ->].
    + apply Forall_app. split; [done|by apply Forall_singleton].
  - inversion H4 as [|? ? He Hq]; subst. rewrite busy_request in Hd by done. simplify_eq. split_and!; try done.
    cbn [f_queue]. simpl in H3. destruct (is_done e); [done|exact H3].
  - unfold pipeline in H2. apply app_nil in H2 as [E1 E2]. unfold worker_run in Hw. destruct (job (o_worker c)) eqn:Ej; [done|].
    destruct (nw_at (o_worker c)) eqn:Ea; try done. destruct (running (o_worker c)); [done|]. injection Hw as <- <-. rewrite app_nil_r.
    by split_and!.
  - by split_and!.
Qed.

(** A completion that finds no block is lost and with it the device: no run
    brings the owner back to Idle, and it discards every request. *)
Theorem lost_completion_blocks (s s' : fsys) : abandoned s -> rtc (fun x y => exists o, fstep x o y) s s' ->
  f_state s' = kOwnerBusy /\
  (forall e q a, f_queue s' = e :: q ->
     dispatch fe_sig (owner_machine (f_state s')) (with_answers (f_ctx s') a) e = Ret (false, with_answers (f_ctx s') a, owner_machine kOwnerBusy)).
Proof.
  intros Ha Hrun. assert (Hs : abandoned s') by (refine (rtc_invariant _ abandoned _ _ _ Ha Hrun); intros x y Hx [o Ho]; by eapply abandoned_step).
  destruct Hs as (H1 & _ & _ & H4). split; [done|]. intros e q a Hq. rewrite Hq in H4. inversion H4; subst. rewrite H1. by apply busy_request.
Qed.

Definition lost_read : list faction :=
  [AArrive (read_request 3); ADispatch []; AWorker true; AWorker true; AWorker true; AWorker false].

Lemma lost_completion_blocks_witness :
  match frun lost_read (fsys0 [2; 3]) [] with
  | Some (s, tr) => lrun fstep (fsys0 [2; 3]) tr s /\ abandoned s /\ f_state s = kOwnerBusy
  | None => False
  end.
Proof.
  destruct (frun lost_read (fsys0 [2; 3]) []) as [[s tr]|] eqn:E; [|vm_compute in E; discriminate].
  split; [exact (frun_sound _ _ _ _ _ _ E (lrun_nil fstep _))|].
  assert (Ha : abandoned s) by (vm_compute in E; injection E as <- _; split_and!; [reflexivity|reflexivity|reflexivity|constructor]).
  split; [exact Ha|]. exact (proj1 (lost_completion_blocks s s Ha (rtc_refl _ s))).
Defined.
