(* ===== verification/Demos.v ===== *)
(** * Machines of the examples (src/examples/node_manager_demo.cpp,
      src/examples/hsm_protocol_demo.cpp, src/examples/safety_supervisor_demo.cpp)

    The tables of a node that is watched by heartbeats and of a connection
    protocol, run on [Hsm], against flat specifications, and the tables of the
    supervised worker.  An event is its signal;
    printed lines are left out.  [int] counters of the protocol are unbounded
    here. *)

From Stdlib Require Import String.
From S2P Require Import Prelude Hsm.
Local Open Scope Z_scope.

(** ** Runs *)

Fixpoint hsm_run {Ctx Ev} (ev_signal : Ev -> Z) (h : Hsm Ctx Ev) (c : Ctx) (es : list Ev) : outcome (Ctx * Hsm Ctx Ev) :=
  match es with
  | [] => mret (c, h)
  | e :: es => '(_, c, h) ← dispatch ev_signal h c e; hsm_run ev_signal h c es
  end.

(** A machine that a function on (state, context) follows event by event. *)
Lemma run_follows {Ctx Ev} (ev_signal : Ev -> Z) (h : Hsm Ctx Ev) (step : Z * Ctx -> Ev -> Z * Ctx) (I : Z * Ctx -> Prop) :
  (forall x e, I x -> I (step x e) /\ exists b,
     dispatch ev_signal (set_current h x.1) x.2 e = Ret (b, (step x e).2, set_current h (step x e).1)) ->
  forall es x, I x -> I (fold_left step es x) /\
    hsm_run ev_signal (set_current h x.1) x.2 es = Ret ((fold_left step es x).2, set_current h (fold_left step es x).1).
Proof.
  intros H es. induction es as [|e es IH]; intros x Hx; [done|]. destruct (H x e Hx) as [Hi [b Hd]].
  simpl. rewrite Hd. cbn [mbind outcome_bind]. by apply IH.
Qed.

(** ** A node under heartbeats *)

Module Node.
Definition kHeartbeatOk : Z := 1.
Definition kHeartbeatMiss : Z := 2.
Definition kNodeDisconnect : Z := 3.
Definition kReconnect : Z := 4.

Record NodeContext := mkNode {
  node_id : Z; missed_heartbeats : Z; total_heartbeats : Z; peak_missed : Z; disconnects : Z; connected : bool
}.

Definition kNodeRoot : Z := 0.
Definition kNodeConnected : Z := 1.
Definition kNodeSuspect : Z := 2.
Definition kNodeDisconnected : Z := 3.

Definition node_connected_entry (c : NodeContext) : NodeContext :=
  mkNode (node_id c) 0 (total_heartbeats c) (peak_missed c) (disconnects c) true.
Definition suspect_entry (c : NodeContext) : NodeContext := c.
Definition node_disconnected_entry (c : NodeContext) : NodeContext :=
  mkNode (node_id c) (missed_heartbeats c) (total_heartbeats c) (peak_missed c) (u32 (disconnects c + 1)) false.

Definition already_suspect (c : NodeContext) (_ : Z) : bool := 1 <=? missed_heartbeats c.
Definition first_miss (c : NodeContext) (_ : Z) : bool := 0 =? missed_heartbeats c.
Definition already_disconnect (c : NodeContext) (_ : Z) : bool := 4 <=? missed_heartbeats c.
Definition below_disconnect (c : NodeContext) (_ : Z) : bool := missed_heartbeats c <? 4.

Definition miss_count (c : NodeContext) (_ : Z) : NodeContext :=
  let m := u32 (missed_heartbeats c + 1) in
  mkNode (node_id c) m (total_heartbeats c) (if peak_missed c <? m then m else peak_missed c) (disconnects c) (connected c).
Definition ok_count (c : NodeContext) (_ : Z) : NodeContext :=
  mkNode (node_id c) (missed_heartbeats c) (u32 (total_heartbeats c + 1)) (peak_missed c) (disconnects c) (connected c).
Definition ok_recover (c : NodeContext) (_ : Z) : NodeContext :=
  mkNode (node_id c) 0 (u32 (total_heartbeats c + 1)) (peak_missed c) (disconnects c) (connected c).
Definition reconnect_action (c : NodeContext) (_ : Z) : NodeContext :=
  mkNode (node_id c) 0 (total_heartbeats c) (peak_missed c) (disconnects c) (connected c).
Definition ignore_heartbeat (c : NodeContext) (_ : Z) : NodeContext := c.

Definition kNodeStates : list (StateDef NodeContext) :=
  [mkState (-1) None None (-1); mkState kNodeRoot (Some node_connected_entry) None (-1);
   mkState kNodeRoot (Some suspect_entry) None (-1); mkState kNodeRoot (Some node_disconnected_entry) None (-1)].

Definition kNodeTransitions : list (TransitionDef NodeContext Z) :=
  [mkTrans kNodeConnected kHeartbeatOk kNodeConnected Internal None (Some ok_count);
   mkTrans kNodeConnected kHeartbeatMiss kNodeSuspect External (Some already_suspect) (Some miss_count);
   mkTrans kNodeConnected kHeartbeatMiss kNodeConnected Internal (Some first_miss) (Some miss_count);
   mkTrans kNodeConnected kNodeDisconnect kNodeDisconnected External None None;
   mkTrans kNodeSuspect kHeartbeatOk kNodeConnected External None (Some ok_recover);
   mkTrans kNodeSuspect kHeartbeatMiss kNodeDisconnected External (Some already_disconnect) (Some miss_count);
   mkTrans kNodeSuspect kHeartbeatMiss kNodeSuspect Internal (Some below_disconnect) (Some miss_count);
   mkTrans kNodeSuspect kNodeDisconnect kNodeDisconnected External None None;
   mkTrans kNodeDisconnected kReconnect kNodeConnected External None (Some reconnect_action);
   mkTrans kNodeDisconnected kHeartbeatOk kNodeDisconnected Internal None (Some ignore_heartbeat);
   mkTrans kNodeDisconnected kHeartbeatMiss kNodeDisconnected Internal None (Some ignore_heartbeat)].

Definition node_machine : Hsm NodeContext Z := mkHsm kNodeStates kNodeTransitions kNodeConnected 2 (-1).
Definition node_ctx0 (id : Z) : NodeContext := mkNode id 0 0 0 0 false.

(** [node.init], then the events. *)
Definition node_run (id : Z) (es : list Z) : outcome (NodeContext * Hsm NodeContext Z) :=
  '(c, h) ← hsm_init node_machine (node_ctx0 id); hsm_run (fun e => e) h c es.

(** What is promised: a count of the misses since the last fresh start. *)
Definition node_step (x : Z * NodeContext) (sig : Z) : Z * NodeContext :=
  let '(st, c) := x in
  let up := st =? kNodeConnected in
  let down := st =? kNodeDisconnected in
  if sig =? kHeartbeatOk then
    if down then x else if up then (st, ok_count c sig) else (kNodeConnected, node_connected_entry (ok_recover c sig))
  else if sig =? kHeartbeatMiss then
    if down then x
    else let c' := miss_count c sig in
         let m := missed_heartbeats c' in
         if m <=? 1 then (kNodeConnected, c') else if m <=? 4 then (kNodeSuspect, c') else (kNodeDisconnected, node_disconnected_entry c')
  else if sig =? kNodeDisconnect then if down then x else (kNodeDisconnected, node_disconnected_entry c)
  else if sig =? kReconnect then if down then (kNodeConnected, node_connected_entry c) else x
  else x.

Definition node_inv (x : Z * NodeContext) : Prop :=
  let '(st, c) := x in
  0 <= peak_missed c <= 5 /\
  ((st = kNodeConnected /\ 0 <= missed_heartbeats c <= 1 /\ connected c = true) \/
   (st = kNodeSuspect /\ 2 <= missed_heartbeats c <= 4 /\ connected c = true) \/
   (st = kNodeDisconnected /\ connected c = false)).

Local Abbreviation at_ st := (set_current node_machine st).

(** What the machine does for a signal, by its current state. *)
Lemma node_dispatches st c sig : node_inv (st, c) ->
  exists b, dispatch (fun e => e) (at_ st) c sig = Ret (b, (node_step (st, c) sig).2, at_ (node_step (st, c) sig).1).
Proof.
  intros (_ & Hi). unfold node_step.
  assert (Hsig : sig = 1 \/ sig = 2 \/ sig = 3 \/ sig = 4 \/
    ((1 =? sig) = false /\ (2 =? sig) = false /\ (3 =? sig) = false /\ (4 =? sig) = false)).
  { destruct (Z.eqb_spec 1 sig), (Z.eqb_spec 2 sig), (Z.eqb_spec 3 sig), (Z.eqb_spec 4 sig); subst; auto 10. }
  destruct Hsig as [->|[->|[->|[->|(E1 & E2 & E3 & E4)]]]].
  - destruct Hi as [(-> & _)|[(-> & _)|(-> & _)]]; eexists; reflexivity.
  - destruct c as [id m t p d cn]. cbn [missed_heartbeats connected] in Hi.
    assert (Hm : st = kNodeDisconnected \/ st = kNodeConnected /\ (m = 0 \/ m = 1) \/ st = kNodeSuspect /\ (m = 2 \/ m = 3 \/ m = 4)).
    { destruct Hi as [(-> & ? & _)|[(-> & ? & _)|(-> & _)]]; [right; left|right; right|by left]; split; (done || lia). }
    destruct Hm as [->|[[-> [-> | ->]]|[-> [-> | [-> | ->]]]]]; eexists; reflexivity.
  - destruct Hi as [(-> & _)|[(-> & _)|(-> & _)]]; eexists; reflexivity.
  - destruct Hi as [(-> & _)|[(-> & _)|(-> & _)]]; eexists; reflexivity.
  - unfold kHeartbeatOk, kHeartbeatMiss, kNodeDisconnect, kReconnect. rewrite !(Z.eqb_sym sig), E1, E2, E3, E4.
    destruct Hi as [(-> & _)|[(-> & _)|(-> & _)]]; cbn -[Z.eqb]; unfold find_transition; cbn -[Z.eqb];
      unfold kHeartbeatOk, kHeartbeatMiss, kNodeDisconnect, kReconnect; rewrite ?E1, ?E2, ?E3, ?E4, ?andb_false_r; eexists; reflexivity.
Qed.

Lemma node_step_inv x sig : node_inv x -> node_inv (node_step x sig).
Proof.
  destruct x as [st [id m t p d cn]]. unfold node_step, node_inv, miss_count, ok_count, ok_recover, node_connected_entry, node_disconnected_entry.
  intros (Hp & Hi). cbn [missed_heartbeats peak_missed connected] in *.
  assert (Hm : st <> kNodeDisconnected -> u32 (m + 1) = m + 1) by (intros; apply wrap_small; unfold in_u; naive_solver lia).
  destruct (Z.eqb_spec sig kHeartbeatOk); [|destruct (Z.eqb_spec sig kHeartbeatMiss); [|destruct (Z.eqb_spec sig kNodeDisconnect); [|destruct (Z.eqb_spec sig kReconnect)]]];
    destruct Hi as [(-> & Hc & ->)|[(-> & Hc & ->)|(-> & ->)]]; simpl; rewrite ?Hm by done;
    unfold kNodeConnected, kNodeSuspect, kNodeDisconnected; repeat case_test; simpl; (split; [lia|]);
    first [left; split_and!; (done || lia)|right; left; split_and!; (done || lia)|right; right; split_and!; (done || lia)].
Qed.

Lemma node_counts_run (id : Z) (es : list Z) :
  exists st c, node_run id es = Ret (c, set_current node_machine st) /\
    (st, c) = fold_left node_step es (kNodeConnected, node_connected_entry (node_ctx0 id)) /\
    node_inv (st, c).
Proof.
  destruct (run_follows (fun e => e) node_machine node_step node_inv) with (es := es)
    (x := (kNodeConnected, node_connected_entry (node_ctx0 id))) as [Hi Hr].
  - intros [st c] e Hx. split; [by apply node_step_inv|by apply node_dispatches].
  - split; [split; reflexivity || (simpl; lia)|]. left. split_and!; (done || simpl; lia).
  - destruct (fold_left node_step es (kNodeConnected, node_connected_entry (node_ctx0 id))) as [st c] eqn:E.
    exists st, c. split; [|split; [done|exact Hi]]. unfold node_run.
    change (hsm_init node_machine (node_ctx0 id)) with (Ret (node_connected_entry (node_ctx0 id), set_current node_machine kNodeConnected)).
    cbn [mbind outcome_bind]. exact Hr.
Qed.

(** A watched node is in the state its count of misses says.  For every
    sequence of signals the machine never leaves its tables and follows the
    flat specification, which counts the misses since the last fresh start (an
    entry to Connected): up to one the node is Connected, from two to four it is
    Suspect, and exactly the fifth, or an explicit disconnect, disconnects it; a
    disconnected node takes nothing but a reconnect; the connected flag is always
    that of the state, and the recorded peak never exceeds five. *)
Theorem node_counts_misses (id : Z) (es : list Z) :
  exists st c, node_run id es = Ret (c, set_current node_machine st) /\
    (st, c) = fold_left node_step es (kNodeConnected, node_connected_entry (node_ctx0 id)) /\
    node_inv (st, c).
Proof. exact (node_counts_run id es). Qed.

(** Heartbeats that arrive in Connected do not clear the count: two single
    misses make a node Suspect however many heartbeats lie between them. *)
Lemma single_misses_add_up id n :
  exists c, node_run id (kHeartbeatMiss :: replicate n kHeartbeatOk ++ [kHeartbeatMiss]) = Ret (c, set_current node_machine kNodeSuspect).
Proof.
  destruct (node_counts_run id (kHeartbeatMiss :: replicate n kHeartbeatOk ++ [kHeartbeatMiss])) as (st & c & -> & E & _).
  exists c. cbn [fold_left] in E. rewrite fold_left_app in E. cbn [fold_left] in E.
  change (node_step (kNodeConnected, node_connected_entry (node_ctx0 id)) kHeartbeatMiss) with (kNodeConnected, mkNode id 1 0 1 0 true) in E.
  assert (H : forall t, exists t', fold_left node_step (replicate n kHeartbeatOk) (kNodeConnected, mkNode id 1 t 1 0 true) =
    (kNodeConnected, mkNode id 1 t' 1 0 true)).
  { clear E. induction n as [|n IH]; intros t; [by exists t|]. destruct (IH (u32 (t + 1))) as [t' Ht]. exists t'. exact Ht. }
  destruct (H 0) as [t' Ht]. rewrite Ht in E. by injection E as -> _.
Qed.
End Node.

(** ** A connection protocol *)

Module Protocol.
Definition kConnect : Z := 1.
Definition kSynAck : Z := 2.
Definition kDisconnect : Z := 3.
Definition kFinAck : Z := 4.
Definition kTimeout : Z := 5.
Definition kDataReady : Z := 6.
Definition kDataSent : Z := 7.
Definition kError : Z := 8.

Record ProtocolContext := mkProto {
  syn_count : Z; ack_count : Z; data_sent_count : Z; error_count : Z; connected : bool; last_action : string
}.

Definition set_action (a : string) (c : ProtocolContext) : ProtocolContext :=
  mkProto (syn_count c) (ack_count c) (data_sent_count c) (error_count c) (connected c) a.
Definition set_connected (b : bool) (c : ProtocolContext) : ProtocolContext :=
  mkProto (syn_count c) (ack_count c) (data_sent_count c) (error_count c) b (last_action c).

Definition kOperational : Z := 0.
Definition kDisconnected : Z := 1.
Definition kConnecting : Z := 2.
Definition kConnected : Z := 3.
Definition kIdle : Z := 4.
Definition kActive : Z := 5.
Definition kDisconnecting : Z := 6.

Definition disconnected_entry (c : ProtocolContext) : ProtocolContext := set_action "disconnected" (set_connected false c).
Definition connecting_entry (c : ProtocolContext) : ProtocolContext :=
  set_action "connecting" (mkProto (syn_count c + 1) (ack_count c) (data_sent_count c) (error_count c) (connected c) (last_action c)).
Definition connected_entry (c : ProtocolContext) : ProtocolContext := set_action "connected" (set_connected true c).
Definition connected_exit (c : ProtocolContext) : ProtocolContext := c.
Definition idle_entry (c : ProtocolContext) : ProtocolContext := set_action "idle" c.
Definition active_entry (c : ProtocolContext) : ProtocolContext := set_action "active" c.
Definition disconnecting_entry (c : ProtocolContext) : ProtocolContext := set_action "disconnecting" c.

Definition ack_action (c : ProtocolContext) (_ : Z) : ProtocolContext :=
  mkProto (syn_count c) (ack_count c + 1) (data_sent_count c) (error_count c) (connected c) (last_action c).
Definition sent_action (c : ProtocolContext) (_ : Z) : ProtocolContext :=
  mkProto (syn_count c) (ack_count c) (data_sent_count c + 1) (error_count c) (connected c) (last_action c).
Definition error_action (c : ProtocolContext) (_ : Z) : ProtocolContext :=
  mkProto (syn_count c) (ack_count c) (data_sent_count c) (error_count c + 1) (connected c) (last_action c).

Definition kProtocolStates : list (StateDef ProtocolContext) :=
  [mkState (-1) None None (-1); mkState kOperational (Some disconnected_entry) None (-1);
   mkState kOperational (Some connecting_entry) None (-1); mkState kOperational (Some connected_entry) (Some connected_exit) (-1);
   mkState kConnected (Some idle_entry) None (-1); mkState kConnected (Some active_entry) None (-1);
   mkState kOperational (Some disconnecting_entry) None (-1)].

Definition kProtocolTransitions : list (TransitionDef ProtocolContext Z) :=
  [mkTrans kDisconnected kConnect kConnecting External None None;
   mkTrans kConnecting kSynAck kIdle External None (Some ack_action);
   mkTrans kConnecting kTimeout kDisconnected External None None;
   mkTrans kConnected kDisconnect kDisconnecting External None None;
   mkTrans kIdle kDataReady kActive External None None;
   mkTrans kActive kDataSent kIdle External None (Some sent_action);
   mkTrans kActive kError kIdle External None (Some error_action);
   mkTrans kDisconnecting kFinAck kDisconnected External None None;
   mkTrans kDisconnecting kTimeout kDisconnected External None None].

Definition protocol_machine : Hsm ProtocolContext Z := mkHsm kProtocolStates kProtocolTransitions kDisconnected 3 (-1).
Definition protocol_ctx0 : ProtocolContext := mkProto 0 0 0 0 false "".

Definition protocol_run (es : list Z) : outcome (ProtocolContext * Hsm ProtocolContext Z) :=
  '(c, h) ← hsm_init protocol_machine protocol_ctx0; hsm_run (fun e => e) h c es.

(** The same protocol without a hierarchy: one row per state and signal, with
    everything a move runs. *)
Definition flat_step (x : Z * ProtocolContext) (sig : Z) : Z * ProtocolContext :=
  let '(st, c) := x in
  if st =? kDisconnected then
    if sig =? kConnect then (kConnecting, connecting_entry c) else x
  else if st =? kConnecting then
    if sig =? kSynAck then (kIdle, idle_entry (connected_entry (ack_action c sig)))
    else if sig =? kTimeout then (kDisconnected, disconnected_entry c) else x
  else if st =? kIdle then
    if sig =? kDataReady then (kActive, active_entry c)
    else if sig =? kDisconnect then (kDisconnecting, disconnecting_entry c) else x
  else if st =? kActive then
    if sig =? kDataSent then (kIdle, idle_entry (sent_action c sig))
    else if sig =? kError then (kIdle, idle_entry (error_action c sig))
    else if sig =? kDisconnect then (kDisconnecting, disconnecting_entry c) else x
  else if st =? kDisconnecting then
    if (sig =? kFinAck) || (sig =? kTimeout) then (kDisconnected, disconnected_entry c) else x
  else x.

(** Never in a state with children; connected between the acknowledgement and
    the end of the disconnection; handshakes are counted in pairs. *)
Definition protocol_inv (x : Z * ProtocolContext) : Prop :=
  let '(st, c) := x in
  (st = kDisconnected \/ st = kConnecting \/ st = kIdle \/ st = kActive \/ st = kDisconnecting) /\
  connected c = (st =? kIdle) || (st =? kActive) || (st =? kDisconnecting) /\
  0 <= ack_count c <= syn_count c /\ (st = kConnecting -> ack_count c < syn_count c).

Local Abbreviation at_ st := (set_current protocol_machine st).

Lemma signal_cases sig : (exists k, sig = Z.of_nat k /\ (1 <= k <= 8)%nat) \/ (forall k, 1 <= k <= 8 -> (k =? sig) = false).
Proof.
  destruct (decide (1 <= sig <= 8)); [left; exists (Z.to_nat sig); lia|right]. intros k Hk. apply Z.eqb_neq. lia.
Qed.

Lemma protocol_dispatch x sig : protocol_inv x ->
  exists b, dispatch (fun e => e) (at_ x.1) x.2 sig = Ret (b, (flat_step x sig).2, at_ (flat_step x sig).1).
Proof.
  destruct x as [st c]. intros (Hst & _). cbn [fst snd].
  destruct (signal_cases sig) as [(k & -> & Hk)|E].
  - do 9 (destruct k as [|k]; [try lia; destruct Hst as [->|[->|[->|[->| ->]]]]; eexists; reflexivity|]). lia.
  - unfold flat_step, kConnect, kSynAck, kDisconnect, kFinAck, kTimeout, kDataReady, kDataSent, kError. rewrite !(Z.eqb_sym sig).
    destruct Hst as [->|[->|[->|[->| ->]]]]; cbn -[Z.eqb]; unfold find_transition; cbn -[Z.eqb];
      unfold kConnect, kSynAck, kDisconnect, kFinAck, kTimeout, kDataReady, kDataSent, kError;
      rewrite ?E by lia; rewrite ?andb_false_r; eexists; reflexivity.
Qed.

Lemma flat_inv x sig : protocol_inv x -> protocol_inv (flat_step x sig).
Proof.
  destruct x as [st [sy ak ds er cn la]]. intros (Hst & Hc & Hn & Hs). cbn [connected ack_count syn_count] in *. unfold flat_step.
  destruct Hst as [->|[->|[->|[->| ->]]]]; cbn in Hc; subst cn; simpl; repeat case_test; simpl;
    split_and!; try done; try lia; auto 6; intros; try lia; by apply Hs.
Qed.

(** The protocol machine is the flat protocol.  For every sequence of
    signals, dispatch on the hierarchical tables never leaves them and has
    exactly the effect of the flat table: the state, the counters, the connected
    flag and the last action agree, so a DISCONNECT that only the parent handles
    ends the connection from Idle and from Active alike and leaves Connected on
    the way.  The flag is set exactly from the acknowledgement to the end of the
    disconnection, and no acknowledgement is counted without its request. *)
Theorem protocol_is_flat (es : list Z) :
  exists st c, protocol_run es = Ret (c, set_current protocol_machine st) /\
    (st, c) = fold_left flat_step es (kDisconnected, disconnected_entry protocol_ctx0) /\ protocol_inv (st, c).
Proof.
  destruct (run_follows (fun e => e) protocol_machine flat_step protocol_inv) with (es := es)
    (x := (kDisconnected, disconnected_entry protocol_ctx0)) as [Hi Hr].
  - intros x e Hx. split; [by apply flat_inv|by apply protocol_dispatch].
  - simpl. split_and!; try done. by left.
  - destruct (fold_left flat_step es _) as [st c] eqn:E. exists st, c. split; [|split; [done|exact Hi]].
    unfold protocol_run. change (hsm_init protocol_machine protocol_ctx0) with
      (Ret (disconnected_entry protocol_ctx0, set_current protocol_machine kDisconnected)). exact Hr.
Qed.

(** The script of the example. *)
Definition script : list Z :=
  [kConnect; kSynAck; kDataReady; kDataSent; kDataReady; kDataSent; kDataReady; kDataSent; kDataReady; kError; kDataReady; kDataSent;
   kDisconnect; kFinAck].
Example script_ends : exists c, protocol_run script = Ret (c, set_current protocol_machine kDisconnected) /\
  syn_count c = 1 /\ ack_count c = 1 /\ data_sent_count c = 4 /\ error_count c = 1 /\ connected c = false.
Proof. eexists. split; [vm_compute; reflexivity|]. done. Qed.
End Protocol.

(** ** The supervised worker *)

Module Supervised.
Definition kWork : Z := 1.
Definition kProbe : Z := 2.

(** [block] holds an action back; how long is not part of its effect. *)
Record WorkContext := mkWork { block : bool; handled : Z; probes : Z }.

Definition work_action (c : WorkContext) (_ : Z) : WorkContext := mkWork (block c) (u32 (handled c + 1)) (probes c).
Definition probe_action (c : WorkContext) (_ : Z) : WorkContext := mkWork (block c) (u32 (handled c + 1)) (u32 (probes c + 1)).

Definition kWorkRoot : Z := 0.
Definition kWorkIdle : Z := 1.
Definition kWorkStates : list (StateDef WorkContext) := [mkState (-1) None None kWorkIdle; mkState kWorkRoot None None (-1)].
Definition kWorkTransitions : list (TransitionDef WorkContext Z) :=
  [mkTrans kWorkIdle kWork kWorkIdle Internal None (Some work_action); mkTrans kWorkIdle kProbe kWorkIdle Internal None (Some probe_action)].
Definition worker_machine : Hsm WorkContext Z := mkHsm kWorkStates kWorkTransitions kWorkIdle 2 (-1).
End Supervised.
