(* ===== verification/Machines.v ===== *)
(** * The machines of the repository (include/coact/hsm.hpp and the tables under
      src/examples)

    A machine is well typed when the constructor accepts its states, its external
    transitions point into them, its chains of initial children end and its depth
    bound covers every path.  The machinery of such a machine stays inside its
    tables: every run from [init] passes its assertions, rests on leaves, and looks
    an event up on the whole path of its state.  Every table modelled in this
    development is well typed.  This says nothing of the actions: what they may do
    wrong (the copy of [FlashOwner.oversized_write_overflows], say) is a flag of
    their context, which this file does not look at. *)

From S2P Require Import Prelude Hsm HsmSpec Msh Irsc IspChain Output Recfg VideoStream FlashOwner Demos.
Local Open Scope Z_scope.

Section typed.
Context {Ctx Ev : Type} (ev_signal : Ev -> Z).

Definition covered (h : Hsm Ctx Ev) (s : Z) : bool :=
  match chain_depth h s with Ret d => d <=? max_depth_ h + 1 | Fatal => false end.

Definition well_typed (h : Hsm Ctx Ev) : bool :=
  is_ret (validate_topology h) && tables_ok h && (0 <=? initial_state_ h) && (initial_state_ h <? num_states h) &&
  forallb (fun i => covered h (Z.of_nat i)) (seq 0 (length (states_ h))).

(** [init], then the events. *)
Definition machine_run (h : Hsm Ctx Ev) (c : Ctx) (es : list Ev) : outcome (Ctx * Hsm Ctx Ev) :=
  '(c, h) ← hsm_init h c; hsm_run ev_signal h c es.

(** Where a machine of these tables may be. *)
Definition at_leaf (h : Hsm Ctx Ev) (s : Z) : Prop :=
  is_leaf (states_ h) s /\ exists l, l <> [] /\ is_path (states_ h) s l.

Lemma well_typed_inv h : well_typed h = true ->
  valid h /\ tables_ok h = true /\ 0 <= initial_state_ h < num_states h /\
  forall s l, is_path (states_ h) s l -> l <> [] -> (length l <= S (Z.to_nat (max_depth_ h)))%nat.
Proof.
  unfold well_typed. intros H. split_bools.
  match goal with H : is_ret _ = true |- _ => rename H into Hv end.
  match goal with H : forallb _ _ = true |- _ => rename H into Hf end.
  assert (Hvalid : valid h) by (unfold valid; by destruct (validate_topology h) as [[]|]).
  split_and!; try done. intros s l Hl Hne. assert (Hr : 0 <= s < num_states h).
  { destruct l as [|x l]; [done|]. destruct (path_tail h s x l Hl) as [-> _]. unfold num_states.
    apply (path_range _ _ _ x Hl). by left. }
  rewrite forallb_forall in Hf. specialize (Hf (Z.to_nat s)). unfold covered in Hf. unfold num_states in Hr.
  rewrite Z2Nat.id, (chain_depth_spec h Hvalid s l Hl) in Hf by lia.
  assert (Hb : (Z.of_nat (length l) <=? max_depth_ h + 1) = true) by (apply Hf, in_seq; lia). apply Z.leb_le in Hb. lia.
Qed.
End typed.

(** The checks do not read the current state. *)
Lemma check_chain_current {Ctx Ev} (h : Hsm Ctx Ev) c fuel s hops :
  check_chain (set_current h c) fuel s hops = check_chain h fuel s hops.
Proof.
  revert s hops. induction fuel as [|f IH]; intros s hops; simpl; [done|]. case_test; [done|].
  unfold num_states. cbn [set_current states_]. destruct (coact_assert _); [cbn|done].
  destruct (coact_assert _); [cbn|done]. destruct (state_at _ _); [cbn; apply IH|done].
Qed.

Lemma valid_current {Ctx Ev} (h : Hsm Ctx Ev) c : valid h -> valid (set_current h c).
Proof.
  assert (H : forall fuel i, check_states (set_current h c) i fuel = check_states h i fuel).
  { induction fuel as [|f IH]; intros i; [done|]. cbn [check_states]. rewrite IH. f_equal. unfold check_state.
    change (states_ (set_current h c)) with (states_ h). change (chain_fuel (set_current h c)) with (chain_fuel h).
    destruct (state_at _ i) as [d|]; [|done]. cbn [mbind outcome_bind]. by rewrite check_chain_current. }
  unfold valid, validate_topology. cbn [set_current states_]. by rewrite H.
Qed.

Lemma rev_not_nil {A} (x : A) l r : rev (x :: l) ++ r <> [].
Proof. simpl. by destruct (rev l). Qed.

Section progress.
Context {Ctx Ev : Type} (ev_signal : Ev -> Z) (h : Hsm Ctx Ev) (Hwt : well_typed h = true).

(** The innermost state of the whole path with an enabled transition. *)
Definition enabled (s : Z) (c : Ctx) (e : Ev) (l : list Z) : option (Z * TransitionDef Ctx Ev) :=
  handler ev_signal (set_current h s) c e l.

(** One event: it succeeds, it stays on leaves, and it is handled exactly when
    some state of the path has an enabled transition. *)
Lemma step_typed s c e : at_leaf h s ->
  exists b c' s', dispatch ev_signal (set_current h s) c e = Ret (b, c', set_current h s') /\ at_leaf h s' /\
    forall l, is_path (states_ h) s l -> b = match enabled s c e l with Some _ => true | None => false end.
Proof using Hwt.
  intros (Hleaf & lc & Hne & Hp). destruct (well_typed_inv h Hwt) as (Hv & Hok & _ & Hlen).
  pose proof (dispatch_moves ev_signal (set_current h s) c e lc (valid_current h s Hv) Hok Hp Hne) as Hd.
  change (max_depth_ (set_current h s)) with (max_depth_ h) in Hd. rewrite take_ge in Hd by (by eapply Hlen).
  destruct (handler ev_signal (set_current h s) c e lc) as [[src t]|] eqn:Hh.
  - destruct Hd as (ex & en & rest & cur & [Hlc Hm] & Hd & Hp' & Hl'). eexists true, _, cur. split; [exact Hd|]. split.
    + destruct (kind t) eqn:Hk.
      * destruct Hm as [-> ->]. simpl in Hlc, Hp'. subst rest. assert (cur = s) as ->.
        { apply path_top in Hp as ->. by apply path_top in Hp'. }
        split; [done|by exists lc].
      * split; [by apply Hl'|]. exists (rev en ++ rest). split; [|done]. destruct Hm as [_ Hm]. by destruct en as [|x en]; [|apply rev_not_nil].
      * split; [by apply Hl'|]. exists (rev en ++ rest). split; [|done]. destruct Hm as (_ & Hm & _). by destruct en as [|x en]; [by apply elem_of_nil in Hm|apply rev_not_nil].
    + intros l Hl. assert (l = lc) as -> by (by eapply path_det). unfold enabled. by rewrite Hh.
  - exists false, c, s. split; [exact Hd|]. split; [split; [done|by exists lc]|].
    intros l Hl. assert (l = lc) as -> by (by eapply path_det). unfold enabled. by rewrite Hh.
Qed.
End progress.

(** ** The tables *)

Record Shipped := mkShipped { sh_ctx : Type; sh_ev : Type; sh_sig : sh_ev -> Z; sh_machine : Hsm sh_ctx sh_ev }.

(** As their objects are constructed, before [init]. *)
Definition shipped : list Shipped :=
  [mkShipped _ _ ev_sig (recfg_machine (-1));
   mkShipped _ _ i_sig irsc_machine;
   mkShipped _ _ n_sig (enhance_machine (-1));
   mkShipped _ _ n_sig (tpd_machine (-1));
   mkShipped _ _ n_sig (video_machine (-1));
   mkShipped _ _ n_sig (pack_machine (-1));
   mkShipped _ _ pe_sig (mipi_machine (-1));
   mkShipped _ _ n_sig orch_machine;
   mkShipped _ _ fe_sig (owner_machine (-1));
   mkShipped _ _ fe_sig caller_machine;
   mkShipped _ _ (fun e => e) Node.node_machine;
   mkShipped _ _ (fun e => e) Protocol.protocol_machine;
   mkShipped _ _ (fun e => e) Supervised.worker_machine;
   mkShipped _ _ Msh.me_sig (Msh.irsc_machine (-1));
   mkShipped _ _ Msh.me_sig (Msh.orch_machine (-1));
   mkShipped _ _ Msh.me_sig (Msh.gain_machine (-1));
   mkShipped _ _ Msh.me_sig (Msh.fuse_machine (-1));
   mkShipped _ _ Msh.me_sig (Msh.enh_machine (-1));
   mkShipped _ _ Msh.me_sig (Msh.observer_machine (-1));
   mkShipped _ _ Msh.me_sig (Msh.recfg_machine (-1))].

(** The machinery stays inside the tables, from any context and under any events;
    the actions are functions on the context and their own faults are not judged. *)
Definition stays_in_tables (M : Shipped) : Prop :=
  let h := sh_machine M in
  forall c es, exists c' s, machine_run (sh_sig M) h c es = Ret (c', set_current h s) /\ at_leaf h s /\
    forall e, exists b c2 s2, dispatch (sh_sig M) (set_current h s) c' e = Ret (b, c2, set_current h s2) /\
      forall l, is_path (states_ h) s l -> b = match enabled (sh_sig M) h s c' e l with Some _ => true | None => false end.

Lemma run_typed {Ctx Ev} (ev_signal : Ev -> Z) (h : Hsm Ctx Ev) : well_typed h = true ->
  forall es s c, at_leaf h s -> exists c' s', hsm_run ev_signal (set_current h s) c es = Ret (c', set_current h s') /\ at_leaf h s'.
Proof.
  intros Hwt es. induction es as [|e es IH]; intros s c Hs; [by exists c, s|].
  destruct (step_typed ev_signal h Hwt s c e Hs) as (b & c' & s' & Hd & Hs' & _).
  simpl. rewrite Hd. cbn [mbind outcome_bind]. by apply IH.
Qed.

Lemma typed_stays_in_tables M : well_typed (sh_machine M) = true -> stays_in_tables M.
Proof.
  intros Hwt c es. destruct (well_typed_inv _ Hwt) as (Hv & Hok & Hi & _).
  destruct (init_enters_path (sh_machine M) c Hv Hok Hi) as (en & leaf & Hinit & Hp & Hleaf & Hin).
  assert (Hl : at_leaf (sh_machine M) leaf).
  { split; [done|]. exists (rev en). split; [|done]. destruct en as [|x en]; [by apply elem_of_nil in Hin|].
    rewrite <- (app_nil_r (rev _)). apply rev_not_nil. }
  destruct (run_typed (sh_sig M) (sh_machine M) Hwt es leaf (run_entries (states_ (sh_machine M)) en c) Hl) as (c' & s & Hr & Hs).
  exists c', s. split; [unfold machine_run; rewrite Hinit; exact Hr|]. split; [done|].
  intros e. destruct (step_typed (sh_sig M) (sh_machine M) Hwt s c' e Hs) as (b & c2 & s2 & Hd & _ & Hb). by exists b, c2, s2.
Qed.

(** The tables of the examples are well typed.  Each table modelled in this
    development passes the constructor's check, every run from [init] under any
    events and from any context passes the machinery's assertions, always rests in
    a leaf state, and handles an event exactly when some state on the path from
    that leaf to the root has an enabled transition: no event is lost to the depth
    bound.  The faults of the actions are a matter of their own theorems. *)
Theorem shipped_machines_stay_in_tables :
  Forall (fun M => well_typed (sh_machine M) = true /\ stays_in_tables M) shipped.
Proof.
  assert (H : Forall (fun M => well_typed (sh_machine M) = true) shipped) by (repeat constructor; vm_compute; reflexivity).
  eapply Forall_impl; [exact H|]. intros M HM. split; [done|by apply typed_stays_in_tables].
Qed.
