(* ===== verification/Utilities.v ===== *)
(** * Utilities (include/coact/expected.hpp, assert.hpp, static_ao.hpp,
      coro/error.hpp, coro/awaitable.hpp, coro/scheduler.hpp)

    The value-or-error type with its storage, the fatal handler, the type-erased
    dispatch entry, the error names, the payload of a completion event and the
    facade of the timer.  [Expected]'s value is an object that may own a resource;
    a move leaves it empty, and a destructor releases what it still owns, so that
    leaks and double releases can be seen. *)

From Stdlib Require Import String.
From stdpp Require Import gmap.
From S2P Require Import Prelude Vocab Timer TaskRegistry.
Local Open Scope Z_scope.

(** ** Expected *)

Module Expected.
Section expected.
Context {E : Type} (err0 : E).     (* [E{}] *)

(** An object of the value type: what it owns. *)
Abbreviation vobj := (option nat).

(** [storage_] is [None] while no object lives in it. *)
Record Expected := mkExp { storage_ : option vobj; err_ : E; has_value_ : bool }.

(** The objects in scope, by name, and the resources released so far. *)
Record world := mkW { objs : gmap nat Expected; released : list nat }.

Definition ctor : Expected := mkExp None err0 false.

Definition success (v : vobj) : Expected := mkExp (Some v) (err_ ctor) true.
Definition error_of (e : E) : Expected := mkExp None e false.

(** The object in the storage; there is none to read otherwise. *)
Definition value_ptr (x : Expected) : outcome vobj := match storage_ x with Some v => Ret v | None => Fatal end.

(** The destructor of a value. *)
Definition drop_value (v : vobj) (l : list nat) : list nat := match v with Some t => l ++ [t] | None => l end.

Definition destroy_value (x : Expected) (l : list nat) : outcome (Expected * list nat) :=
  v ← value_ptr x; mret (mkExp None (err_ x) false, drop_value v l).

(** [V(std::move(other.value()))] and [other.destroy_value()]: the new storage, the source, the releases. *)
Definition move_value (other : Expected) (l : list nat) : outcome (vobj * Expected * list nat) :=
  _ ← coact_assert (has_value_ other);
  v ← value_ptr other;
  '(other, l) ← destroy_value (mkExp (Some None) (err_ other) (has_value_ other)) l;
  mret (v, other, l).

(** [Expected(Expected&&)]: the new object, the source, the releases. *)
Definition move_ctor (other : Expected) (l : list nat) : outcome (Expected * Expected * list nat) :=
  if has_value_ other then
    '(v, other', l) ← move_value other l; mret (mkExp (Some v) (err_ other) true, other', l)
  else mret (mkExp None (err_ other) false, other, l).

(** [operator=(Expected&&)] between different objects. *)
Definition move_assign (this other : Expected) (l : list nat) : outcome (Expected * Expected * list nat) :=
  '(this, l) ← (if has_value_ this then destroy_value this l else mret (this, l));
  if has_value_ other then
    '(v, other', l) ← move_value other l; mret (mkExp (Some v) (err_ other) true, other', l)
  else mret (mkExp (storage_ this) (err_ other) (has_value_ this), other, l).

Definition dtor (x : Expected) (l : list nat) : outcome (list nat) :=
  if has_value_ x then '(_, l) ← destroy_value x l; mret l else mret l.

Definition value (x : Expected) : outcome vobj := _ ← coact_assert (has_value_ x); value_ptr x.
Definition error (x : Expected) : outcome E := _ ← coact_assert (negb (has_value_ x)); mret (err_ x).

(** What a program in scope of its objects may do; [issued]: the resources
    given to values so far. *)
Inductive op := OSuccess (a t : nat) | OError (a : nat) (e : E) | OMoveCtor (a b : nat) | OMoveAssign (a b : nat) | ODtor (a : nat).

Definition in_scope (w : world) (issued : list nat) (o : op) : Prop :=
  match o with
  | OSuccess a t => objs w !! a = None /\ t ∉ issued
  | OError a _ => objs w !! a = None
  | OMoveCtor a b => objs w !! a = None /\ is_Some (objs w !! b)
  | OMoveAssign a b => is_Some (objs w !! a) /\ is_Some (objs w !! b)
  | ODtor a => is_Some (objs w !! a)
  end.

Definition get (w : world) (a : nat) : outcome Expected := match objs w !! a with Some x => Ret x | None => Fatal end.

Definition exec (w : world) (o : op) : outcome world :=
  match o with
  | OSuccess a t => mret (mkW (<[a := success (Some t)]> (objs w)) (released w))
  | OError a e => mret (mkW (<[a := error_of e]> (objs w)) (released w))
  | OMoveCtor a b => y ← get w b; '(x, y, l) ← move_ctor y (released w); mret (mkW (<[a := x]> (<[b := y]> (objs w))) l)
  | OMoveAssign a b =>
    if bool_decide (a = b) then mret w
    else x ← get w a; y ← get w b; '(x, y, l) ← move_assign x y (released w); mret (mkW (<[a := x]> (<[b := y]> (objs w))) l)
  | ODtor a => x ← get w a; l ← dtor x (released w); mret (mkW (delete a (objs w)) l)
  end.

Definition issues (o : op) : list nat := match o with OSuccess _ t => [t] | _ => [] end.

(** A program: each step in scope of the state it runs in. *)
Fixpoint scoped (w : world) (issued : list nat) (os : list op) : Prop :=
  match os with
  | [] => True
  | o :: os => in_scope w issued o /\ forall w', exec w o = Ret w' -> scoped w' (issued ++ issues o) os
  end.
Fixpoint exec_all (w : world) (os : list op) : outcome world :=
  match os with [] => mret w | o :: os => w ← exec w o; exec_all w os end.
End expected.
Arguments Expected : clear implicits.
Arguments world : clear implicits.
Arguments op : clear implicits.
End Expected.

(** ** Ownership *)

Section ownership.
Import Expected.
Context {E : Type} (err0 : E).

Definition own (x : Expected E) : list nat := match storage_ x with Some (Some t) => [t] | _ => [] end.
Definition exp_ok (x : Expected E) : Prop := has_value_ x = match storage_ x with Some _ => true | None => false end.

(** What the objects in scope own. *)
Definition held (m : gmap nat (Expected E)) : list nat := mjoin ((fun p => own p.2) <$> map_to_list m).

Lemma held_insert m a x : m !! a = None -> held (<[a := x]> m) ≡ₚ own x ++ held m.
Proof. intros Ha. unfold held. by rewrite map_to_list_insert. Qed.

Lemma held_delete m a x : m !! a = Some x -> held m ≡ₚ own x ++ held (delete a m).
Proof. intros Ha. unfold held. by rewrite <- (map_to_list_delete m a x). Qed.

Lemma held_replace m a x y : m !! a = Some x -> own x ++ held (<[a := y]> m) ≡ₚ own y ++ held m.
Proof.
  intros Ha. rewrite <- insert_delete_eq, held_insert by apply lookup_delete_eq. rewrite (held_delete m a x Ha).
  by rewrite !app_assoc, (Permutation_app_comm (own x)).
Qed.

Lemma move_ctor_spec y l : exp_ok y -> exists x y', move_ctor y l = Ret (x, y', l) /\
  exp_ok x /\ exp_ok y' /\ own x = own y /\ own y' = [] /\ has_value_ y' = false.
Proof.
  destruct y as [[v|] e b]; unfold exp_ok; simpl; intros ->; do 2 eexists; (split; [reflexivity|]); split_and!; done.
Qed.

Lemma move_assign_spec x y l : exp_ok x -> exp_ok y -> exists x' y', move_assign x y l = Ret (x', y', l ++ own x) /\
  exp_ok x' /\ exp_ok y' /\ own x' = own y /\ own y' = [] /\ has_value_ y' = false.
Proof.
  destruct x as [[[t|]|] e b], y as [[v|] e' b']; unfold exp_ok, own; simpl; intros -> ->; do 2 eexists;
    (split; [unfold move_assign; simpl; rewrite ?app_nil_r; reflexivity|]); split_and!; done.
Qed.

Lemma dtor_spec x l : exp_ok x -> dtor x l = Ret (l ++ own x).
Proof. destruct x as [[[t|]|] e b]; unfold exp_ok, own, dtor; simpl; intros ->; simpl; rewrite ?app_nil_r; done. Qed.

Record owned (w : world E) (issued : list nat) : Prop := {
  ow_ok : map_Forall (fun _ x => exp_ok x) (objs w);
  ow_all : held (objs w) ++ released w ≡ₚ issued;
  ow_once : NoDup issued
}.

Lemma owned_step w issued o : owned w issued -> in_scope w issued o ->
  exists w', exec err0 w o = Ret w' /\ owned w' (issued ++ issues o).
Proof.
  intros [H1 H2 H3] Hs. destruct o as [a t|a e|a b|a b|a]; simpl in Hs |- *; rewrite ?app_nil_r.
  - destruct Hs as [Ha Ht]. eexists. split; [done|]. split; simpl.
    + by apply map_Forall_insert_2.
    + rewrite held_insert by done. cbn. rewrite H2. by rewrite Permutation_app_comm.
    + apply NoDup_app. split_and!; [done| |apply NoDup_singleton]. intros z Hz ->%list_elem_of_singleton. done.
  - eexists. split; [done|]. split; simpl; [by apply map_Forall_insert_2| |done]. by rewrite held_insert.
  - destruct Hs as [Ha [y Hb]]. unfold get. rewrite Hb. cbn [mbind outcome_bind].
    destruct (move_ctor_spec y (released w) (H1 b y Hb)) as (x & y' & -> & Ox & Oy & E1 & E2 & _). cbn [mbind outcome_bind].
    assert (Hne : a <> b) by congruence. eexists. split; [done|]. split; simpl; [apply map_Forall_insert_2; [done|by apply map_Forall_insert_2]| |done].
    rewrite held_insert by (rewrite lookup_insert_ne by done; done). rewrite <- H2, E1.
    pose proof (held_replace (objs w) b y y' Hb) as Hr. rewrite E2 in Hr. by rewrite Hr.
  - destruct Hs as [[x Ha] [y Hb]]. destruct (decide (a = b)) as [->|Hne].
    + rewrite bool_decide_eq_true_2 by done. by exists w.
    + rewrite bool_decide_eq_false_2 by done. unfold get. rewrite Ha, Hb. cbn [mbind outcome_bind].
      destruct (move_assign_spec x y (released w) (H1 a x Ha) (H1 b y Hb)) as (x' & y' & -> & Ox & Oy & E1 & E2 & _).
      cbn [mbind outcome_bind]. eexists. split; [done|]. split; simpl; [apply map_Forall_insert_2; [done|by apply map_Forall_insert_2]| |done].
      pose proof (held_replace (objs w) b y y' Hb) as Hr. rewrite E2 in Hr. simpl in Hr.
      pose proof (held_replace (<[b := y']> (objs w)) a x x' ltac:(by rewrite lookup_insert_ne)) as Hq.
      rewrite E1, Hr in Hq. rewrite <- H2, <- Hq. solve_Permutation.
  - destruct Hs as [x Ha]. unfold get. rewrite Ha. cbn [mbind outcome_bind]. rewrite (dtor_spec x _ (H1 a x Ha)).
    cbn [mbind outcome_bind]. eexists. split; [done|]. split; simpl; [by apply map_Forall_delete| |done].
    rewrite <- H2, (held_delete (objs w) a x Ha). solve_Permutation.
Qed.
End ownership.

Lemma owned_run {E : Type} (err0 : E) (os : list (Expected.op E)) w issued : owned w issued -> Expected.scoped err0 w issued os ->
  exists w', Expected.exec_all err0 w os = Ret w' /\ owned w' (issued ++ mjoin (Expected.issues <$> os)).
Proof.
  revert w issued. induction os as [|o os IH]; intros w issued Hw Hs; simpl.
  - exists w. by rewrite app_nil_r.
  - destruct Hs as [Hs Hn]. destruct (owned_step err0 w issued o Hw Hs) as (w1 & He & H1). rewrite He. cbn [mbind outcome_bind].
    destruct (IH w1 _ H1 (Hn w1 He)) as (w' & Hr & Hw'). exists w'. split; [done|]. by rewrite app_assoc.
Qed.

(** A value in an [Expected] is owned once.  For every program of
    constructions, moves, assignments (also to itself) and destructions that is in
    scope of its objects, no operation reads or destroys a value that is not in
    the storage, every resource handed to a value is at any time either owned by
    exactly one object or has been released exactly once, an object has a value
    exactly when its storage holds one, and when the last object is gone every
    resource has been released. *)
Theorem expected_owns_once {E : Type} (err0 : E) (os : list (Expected.op E)) :
  Expected.scoped err0 (Expected.mkW ∅ []) [] os ->
  exists w, Expected.exec_all err0 (Expected.mkW ∅ []) os = Ret w /\
    held (Expected.objs w) ++ Expected.released w ≡ₚ mjoin (Expected.issues <$> os) /\
    NoDup (held (Expected.objs w) ++ Expected.released w) /\
    map_Forall (fun _ x => exp_ok x) (Expected.objs w) /\
    (Expected.objs w = ∅ -> Expected.released w ≡ₚ mjoin (Expected.issues <$> os)).
Proof.
  intros Hs. assert (H0 : owned (Expected.mkW (E := E) ∅ []) []) by (split; [apply map_Forall_empty|done|constructor]).
  destruct (owned_run err0 os _ _ H0 Hs) as (w & Hr & [H1 H2 H3]). simpl in H2, H3. exists w. split_and!; try done.
  - by rewrite H2.
  - intros He. rewrite He in H2. done.
Qed.

(** Two values; one is moved over the other, then the target onto itself. *)
Lemma expected_owns_once_witness :
  exists w, Expected.exec_all kOk (Expected.mkW ∅ [])
    [Expected.OSuccess 0 7; Expected.OSuccess 1 8; Expected.OMoveAssign 0 1; Expected.OMoveAssign 0 0; Expected.ODtor 1; Expected.ODtor 0] = Ret w /\
    Expected.released w ≡ₚ [7; 8]%nat.
Proof.
  destruct (expected_owns_once kOk
    [Expected.OSuccess 0 7; Expected.OSuccess 1 8; Expected.OMoveAssign 0 1; Expected.OMoveAssign 0 0; Expected.ODtor 1; Expected.ODtor 0])
    as (w & Hr & _ & _ & _ & Hrel).
  - repeat (split; [cbn; repeat split; first [reflexivity|by eexists|set_solver]|intros w' [= <-]]). done.
  - exists w. split; [exact Hr|]. apply Hrel. vm_compute in Hr. injection Hr as <-. reflexivity.
Defined.

(** A value that was moved from leaves an object that answers as the error 0. *)
Lemma moved_from_is_error {E} (err0 : E) v l x y l' :
  Expected.move_ctor (Expected.success err0 v) l = Ret (x, y, l') -> Expected.error y = Ret err0.
Proof. by intros [= <- <- <-]. Qed.

(** ** The fatal handler *)

Inductive fatal_effect {H : Type} := FHandler (h : H) | FAbort.
Arguments fatal_effect : clear implicits.

Definition set_fatal_handler {H} (slot handler : option H) : option H * option H := (slot, handler).
Definition fatal_assert {H} (slot : option H) : list (fatal_effect H) :=
  match slot with Some h => [FHandler h] | None => [] end ++ [FAbort].

(** Whatever is installed, nothing follows but the end. *)
Lemma fatal_assert_aborts {H} (slot : option H) : last (fatal_assert slot) = Some FAbort.
Proof. by destruct slot. Qed.

(** ** The static dispatch entry *)

(** Objects by address; the erased function works on the store. *)
Record StaticAoEntry {A Ev : Type} := mkEntry {
  e_object : option nat; e_dispatch : option (A -> Ev -> A); e_logical_prio : Z;
  e_priority_class : PriorityClass; e_direct_eligible : bool; e_isr_direct_safe : bool
}.
Arguments StaticAoEntry : clear implicits.
Arguments mkEntry {_ _}.

Definition entry0 {A Ev} : StaticAoEntry A Ev := mkEntry None None kInvalidPrio Low false false.

Definition entry_valid {A Ev} (x : StaticAoEntry A Ev) : bool :=
  bool_decide (is_Some (e_object x)) && match e_dispatch x with Some _ => true | None => false end && negb (e_logical_prio x =? kInvalidPrio).

Definition dispatch_event {A Ev} (x : StaticAoEntry A Ev) (store : gmap nat A) (e : Ev) : gmap nat A :=
  if entry_valid x then
    match e_object x, e_dispatch x with Some p, Some f => alter (fun a => f a e) p store | _, _ => store end
  else store.

Definition make_static_ao_entry {A Ev} (p : nat) (f : A -> Ev -> A) (prio : Z) (cls : PriorityClass) (direct isr : bool) :
  StaticAoEntry A Ev := mkEntry (Some p) (Some f) prio cls direct isr.

(** An entry runs its own object's dispatch and nothing else's. *)
Lemma entry_dispatches_its_object {A Ev} p (f : A -> Ev -> A) prio cls direct isr store e q : prio <> kInvalidPrio ->
  dispatch_event (make_static_ao_entry p f prio cls direct isr) store e !! q =
    if bool_decide (p = q) then (fun a => f a e) <$> store !! q else store !! q.
Proof.
  intros Hp. unfold dispatch_event, entry_valid. cbn. rewrite (proj2 (Z.eqb_neq _ _) Hp). cbn.
  case_bool_decide as E; [subst; by rewrite lookup_alter_eq|by rewrite lookup_alter_ne].
Qed.

(** ** Error names and completion payloads *)

Definition task_error_code (e : TaskError) : Z :=
  match e with
  | kOk => 0 | kSlotsFull => 1 | kInvalidId => 2 | kAlreadyCompleted => 3 | kCancelled => 4 | kTargetRejected => 5
  | kPoolExhausted => 6 | kResultUnavailable => 7 | kResultTaken => 8 | kAwaiterBusy => 9
  end.

(** [static_cast<TaskError>] of a code of the enumeration. *)
Definition task_error_of (c : Z) : option TaskError :=
  find (fun e => task_error_code e =? c)
    [kOk; kSlotsFull; kInvalidId; kAlreadyCompleted; kCancelled; kTargetRejected; kPoolExhausted; kResultUnavailable; kResultTaken; kAwaiterBusy].

Definition task_error_name (c : Z) : string :=
  match task_error_of c with
  | Some kOk => "kOk" | Some kSlotsFull => "kSlotsFull" | Some kInvalidId => "kInvalidId"
  | Some kAlreadyCompleted => "kAlreadyCompleted" | Some kCancelled => "kCancelled" | Some kTargetRejected => "kTargetRejected"
  | Some kPoolExhausted => "kPoolExhausted" | Some kResultUnavailable => "kResultUnavailable"
  | Some kResultTaken => "kResultTaken" | Some kAwaiterBusy => "kAwaiterBusy" | None => "kUnknown"
  end.

Inductive CompletionStatus := kSucceeded | kFailed | kCancelledStatus.
Definition status_code (s : CompletionStatus) : Z := match s with kSucceeded => 0 | kFailed => 1 | kCancelledStatus => 2 end.
Definition status_of (c : Z) : option CompletionStatus :=
  find (fun s => status_code s =? c) [kSucceeded; kFailed; kCancelledStatus].

Record CompletionPayload := mkPayload { task_id : Z; status : Z; reserved : Z; error_code : Z }.

(** The payload as [post_completion_locked] fills it. *)
Definition completion_payload (id : Z) (s : CompletionStatus) (e : TaskError) : CompletionPayload :=
  mkPayload id (u8 (status_code s)) 0 (u32 (task_error_code e)).

Record CompletionEventPayload := mkCompletion { cp_id : Z; cp_status : option CompletionStatus; cp_error : option TaskError }.

Definition decode_completion (p : CompletionPayload) : CompletionEventPayload :=
  mkCompletion (task_id p) (status_of (u8 (status p))) (task_error_of (u8 (error_code p))).

(** What the registry writes is what the waiter reads. *)
Lemma completion_round_trip id s e :
  decode_completion (completion_payload id s e) = mkCompletion id (Some s) (Some e).
Proof. by destruct s, e. Qed.

(** The name of an error tells it. *)
Lemma task_error_name_inj e e' : task_error_name (task_error_code e) = task_error_name (task_error_code e') -> e = e'.
Proof. destruct e, e'; done. Qed.

(** [CompletionSourceTraits::bind_waiter], for a registry. *)
Definition bind_waiter {V} (R : Registry V) (id : Z) (w : TargetId) (signal : Z) := set_awaiter R id w signal.

(** ** The facade of the timer *)

Record TimerFacade := mkFacade { scheduler_ : Timer.Timer }.

Definition facade_schedule_once (F : TimerFacade) (now : Z) (target : TargetId) (signal delay_ms : Z) (qos : EventQos) :
    (Z + Timer.TimerError) * TimerFacade :=
  let '(r, T) := Timer.schedule_once (scheduler_ F) now target signal delay_ms qos in (r, mkFacade T).
Definition facade_schedule_periodic (F : TimerFacade) (now : Z) (target : TargetId) (signal period_ms : Z) (qos : EventQos) :
    (Z + Timer.TimerError) * TimerFacade :=
  let '(r, T) := Timer.schedule_periodic (scheduler_ F) now target signal period_ms qos in (r, mkFacade T).
Definition facade_cancel (F : TimerFacade) (id : Z) : (unit + Timer.TimerError) * TimerFacade :=
  let '(r, T) := Timer.cancel (scheduler_ F) id in (r, mkFacade T).
Definition facade_task_count (F : TimerFacade) : Z := Timer.task_count (scheduler_ F).
